(* ===== verification/_CoqProject ===== *)
-Q . S2P
Prelude.v
Packet.v
Insn.v
Program.v
BubbleSort.v
Combine.v
RemoveUnused.v
Dominator.v
DomPreds.v
Words.v
Optimize.v
Matching.v
Segments.v
ClassifierParse.v
Patterns.v
ParseCorrect.v
OptimizeExamples.v
FilterPrim.v
Builder.v
FilterCompare.v
FilterCompile.v
FilterCheck.v
IntArg.v
FilterParse.v
FilterExpr.v
FilterGrammar.v
FilterRead.v
Ersa.v
Queue.v
QueueSpec.v
NoteQueue.v
NoteQueueSpec.v
Rate.v
Sched.v
DrrFair.v
Stride.v
IPRoute.v
Addresses.v
LinearRoute.v
RouteTable.v
Cksum.v
IPHeader.v
Fragment.v
FragmentSpec.v
Reassemble.v
ReassembleSpec.v
ReassembleJoin.v
ReassembleWhole.v
ReassembleState.v
ReassembleTrip.v
Radix.v
RadixTree.v
RadixTable.v
QSort.v
QSortCorrect.v
NameDB.v
Compress.v
CompressCorrect.v
CompressRun.v
FilterProgram.v
FilterExamples.v
ConcQueue.v
TSQueue.v
Router.v
