(* ===== verification/Prelude.v ===== *)
(** * Ersa: verification of a bandwidth-shaping Click router

    The repository is the Click modular router (click/) with one element of the
    project's own, the bandwidth classifier of classifier.{hh,cc}.  The router
    configuration sandbox_tester.click pushes every packet into a [Classifier],
    which recognises the traffic of bandwidth measurement tools and sends it to
    output 1 and everything else to output 0.  Each output leads to a [Queue];
    the queue of output 0 is drained through a [BandwidthShaper] into input 1 of
    a [PrioSched], the other one into its input 0, and the device pulls from the
    scheduler.  This development models those elements and the parts of Click
    they stand on, and the tables and filters of the same library that route and
    classify packets by address.

    ** Parts, in the order of the files

    - Prelude: machine integers ([u8], [u16], [u32], [i32] on [Z]), vectors
      ([vget], [vset], [vpush], out-of-range reads give a default and components
      prove their indices in range), counting loops [for_up]/[for_down], the hint
      database [click] and the tactics [vlia], [bdestr], [bprop].
    - Packet: the bytes of a packet and of the buffer around it.

    Pattern programs (click/elements/standard/classification.{hh,cc}):
    - Insn, Program: [Insn], the wordwise [Program], subtrees, both interpreters
      of [Program::match] and the unused-output warning.
    - BubbleSort, Combine, RemoveUnused, Dominator, DomPreds, Optimize: the four
      passes of [Program::optimize]; Words: bytes of instruction words.
    - Matching: what the router relies on in [match]: it ends, the unchecked path
      agrees with the checked one, bytes outside the packet do not matter.
    - Segments, ClassifierParse, Patterns, ParseCorrect: [parse_program] with its
      errors, the meaning of patterns, and the proof that a parsed program sends
      each packet to the first pattern that matches it.
    - OptimizeExamples: the documented configuration, and configurations on which
      a pass of the optimizer changes an answer.

    The bandwidth classifier (classifier.{hh,cc}):
    - Ersa: [push] with its maps, counters, [long double] rates, behavior string,
      TLS search and observation window.  The map of flags, keyed by strings and
      shared by all classifiers, is an explicit argument; an abstract machine
      keeps a set of address pairs instead, and [push] refines it.

    Queues, rates and schedulers (click/elements/standard, click/include/click):
    - Queue, QueueSpec: [Storage] and [SimpleQueue], a ring buffer with indices at
      machine width, refine a list with a limit under every operation.
    - NoteQueue, NoteQueueSpec: [ActiveNotifier] and the five queue classes with
      signals; no wake-up is lost.
    - ConcQueue: [push] and [pull] of [Queue] cut into their memory accesses and
      interleaved: linearizable, wait-free, and no wake-up lost in any
      interleaving of one pusher and one puller.
    - TSQueue: [ThreadSafeQueue], sequentially a [Queue]; an interleaving of two
      pushers and a puller that breaks it.
    - Rate: [GapRate], [Shaper], [BandwidthShaper] and the bound on the bytes that
      leave a shaper.
    - Sched, DrrFair: [PrioSched], [RRSched], [DRRSched], [RoundRobinSwitch] over
      the interface [Upstream] with its laws [LawfulUpstream], which the queues
      implement.
    - Stride: [StrideSched] over the same interface and [StrideSwitch], with passes
      that wrap around at 32 bits; two busy inputs are served in proportion to
      their tickets, and what happens to one that was idle.
    - Router: the composition of sandbox_tester.click for both directions, with
      the end-to-end order, conservation and rate theorem and strict priority.

    Routing tables (click/elements/ip, click/lib/ipaddress.cc):
    - IPRoute, LinearRoute: prefixes, [IPRoute], and [LinearIPLookup] with its
      links between overlapping routes and its two caches, as a
      longest-prefix-match table.
    - RouteTable: [IPRouteTable], whose subclasses are the interface
      [RouteTable]/[LawfulTable]; [ctrl] batches are transactions.
    - Radix, RadixTree, RadixTable: [RadixIPLookup], a five-level trie whose nodes
      are heaps of keys, with its free list and its vector of gateways and ports;
      it implements the same interface and the same abstract table.

    Forwarding (click/lib/in_cksum.c, click/include/clicknet/ip.h,
    click/elements/ip):
    - Cksum: Internet checksums over bytes, their incremental update, and the
      pseudo-header, with the destination of a source route.
    - IPHeader: [CheckIPHeader], [DecIPTTL], [MarkIPHeader] and [StripIPHeader] on
      packets with header annotations.
    - Fragment, FragmentSpec: [IPFragmenter]; its fragments are valid datagrams
      within the MTU that carry the payload of the packet.
    - Reassemble: [IPReassembler], the list of chunks that it keeps in the holes of
      a buffer included.  ReassembleSpec, ReassembleJoin, ReassembleWhole: what
      one fragment does to a buffer, and the packet that comes out at the end.
      ReassembleState: the invariant of the element over any traffic.
      ReassembleTrip: the fragments of a packet give the packet again; what goes
      wrong with options and with malformed fragments.

    Compressed filters (classification.cc, click/elements/ip/ipfilter.{hh,cc},
    click/lib/glue.cc):
    - QSort, QSortCorrect: [click_qsort]; it completes within its fixed stack for
      any comparison function and sorts for total preorders.  It implements the
      interface [Sorter].
    - Compress, CompressCorrect, CompressRun: [CompressedProgram::compile] and the
      two interpreters of [IPFilter]; a compressed program answers as the
      wordwise program it was compiled from.

    The filter language (click/elements/ip/ipfilter.{hh,cc}):
    - FilterPrim: a test as the parser collects it ([Primitive]), [set_mask],
      [check] and [compile].
    - Builder: what the operations that build wordwise programs promise: a program
      under construction is open at a level, and code that compiles a test adds a
      subtree that has the test's value.
    - FilterCompare: [set_mask] and the comparisons it encodes, the loop that
      compiles [>] bit by bit included.
    - FilterCompile: the meaning of a checked test in terms of header fields, and
      that [compile] adds a subtree with this value.
    - FilterCheck: [check] completes a test without changing what it asks for,
      unless [set_mask] rounds its bound with an undefined shift.
    - IntArg: numbers in text (click/lib/args.cc).
    - FilterParse: [separate_text], [lookup], [parse_brackets] and [parse_test];
      names and addresses are the interface [Names].
    - FilterExpr, FilterGrammar: the expression parser, a machine with a stack of
      states; it ends on any words, and on an expression of the grammar in its
      comment, given as relations, it builds the program of the expression.
    - FilterRead: what [parse_test] reads meets the conditions of FilterCheck when
      the databases hold values of the right kinds, so the tests of an expression
      have the values that they ask of the header fields.
    - FilterProgram: [parse_program], [configure] and [push] of [IPFilter], which
      put the parser, the optimizer and the compressor together.
    - FilterExamples: the names [IPFilter] knows by itself, filters at work on
      packets, and what the language does in corner cases.

    Names and addresses (click/lib):
    - Addresses: [IPAddressArg], [IPPrefixArg], [EtherAddressArg] and the inverse
      unparse functions; what [AddressInfo] defines is an interface.
    - NameDB: [StaticNameDB], its tables, and [DynamicNameDB], which sorts itself
      with [click_qsort]; it answers as a finite map.

    ** How state and operations correspond to the code

    A class is a [Record] with the fields of the class; a method that changes the
    object is a function that returns the new record, with the method's result
    and the packets it emits or kills.  Names are those of the source, with [_]
    where Rocq reserves a name ([match_]).  Loops that count are [for_up] and
    [for_down]; loops on a list of routes or instructions are structural; other
    loops take fuel and return [option] or an explicit out-of-fuel value, and
    each has a theorem that its fuel is enough: one unit per instruction for the
    interpreters (jumps go forward), [bubble_fuel] and [combine_fuel] for the
    passes, the number of cells for the ring buffer, [2n + 2] ranges for
    [click_qsort], one word per turn for compressed programs, five levels and 18
    rows of a node for the radix trie, 64 options for a header of at most 60
    bytes, one fragment per byte of payload, one chunk per byte of a buffer, twelve
    turns per word for the expression parser, one turn per word for the qualifiers
    of a test, one halving per entry for the search of a name.  Only the [ctrl]
    handler has no bound: [ctrl_blank_line_loops] shows a batch on which the code
    does not return.

    Memory that the code leaves uninitialized ([GapRate]'s counter, the cells of a
    fresh ring, the buffer around a packet) is an argument or an arbitrary value,
    so a theorem holds whatever it contains.  Clocks ([time(0)],
    [Timestamp::now()]) and random numbers are arguments of the call that reads
    them.

    ** What the theorems show

    - Functional correctness and refinement: [parse_first_match],
      [push_refinement], [router_end_to_end], [spsc_linearizable],
      [pattern_computes_expression], [dynamic_refines_map], [static_query_lookup],
      [linear_longest_prefix], [radix_longest_prefix], [queue_refines_fifo],
      [fragments_carry_payload], [fragments_reassemble], [check_ip_header_correct], [update_cksum_exact],
      [compile_preserves_match], [check_keeps_meaning], [set_mask_exact], [qsort_sorts], the passes of the optimizer that preserve [match].
    - Safety and invariants: no answer depends on bytes outside the packet for an
      optimized program, forwarded packets stay valid, reassembly is sound for any
      mixture of pieces without options ([reassembly_sound]), wake-ups, priority,
      fairness of the schedulers,
      well-formed programs and behavior maps.
    - Termination: parsing ([parse_expr_terminates]), matching, sorting, the
      optimizer's loops.
    - Bounds: the bandwidth of a shaper and of the router, deficit round robin,
      the range of numbers ([int_arg_numeral]).
    - Round trips: [prefix_unparse_parse], [ether_unparse_parse], fragmentation
      and reassembly.
    - Errors: parse errors, rollback of [ctrl] batches.
    - The comment on a theorem names the inputs it leaves out, and the example that
      shows why: a program before [optimize] ([parse_first_match]), the prefix
      0.0.0.0/32 ([linear_longest_prefix]), bounds under a mask without their lowest
      bit ([set_mask_exact]), fragments with options or ten seconds apart
      ([fragments_reassemble], [reassembly_sound]), empty tests behind the end of a
      packet ([remove_unused_preserves_match]), [yank] ([no_lost_wakeup]).
    - Where the code does not do what it means to, a concrete input proves it:
      [optimize_short_packet], [optimize_double_branch],
      [map_offset_left_unmapped], [push_depends_on_stale_bytes],
      [compile_drops_short_output], [zero_address_finds_killed_route],
      [zero_route_matches_killed_route], [reset_notifies],
      [mask_more_specific_wrong], [front_drop_zero_capacity],
      [expiry_too_early], [rate_zero_passes], [ctrl_blank_line_loops],
      [configure_keeps_first], [radix_hop_leak], [ts_wrap_around],
      [options_out_of_order], [reaped_early], [chunk_over_data],
      [mask_comparison_dropped], [not_tcpudp_accepts_tcp],
      [not_transp_negates_sibling], [two_sided_less_than_swaps],
      [dangling_operator_crashes], [negative_position_dropped],
      [missing_position_uninitialized], [large_position_changes_protocol],
      [trailing_blank_refused].

    ** Not modelled

    Printing and unparsing, except of addresses; handlers that only read state;
    the configuration language and its parsers (lexer, confparse), the argument
    parsers other than those of numbers and addresses, the tree of contexts in
    which [NameInfo] and [AddressInfo] look names up; the wiring and scheduling of
    the router core, tasks and timers; device and file I/O; the other lookup
    tables and token buckets; memory barriers (threads
    interleave under sequential consistency) and allocation failure; the kernel
    drivers and the kernel module; tools, scripts and captures. *)

From Stdlib Require Export ZArith Lia Bool.
From stdpp Require Export base list list_numbers numbers option sets.

Global Open Scope Z_scope.

(** ** Machine integers

    The router is compiled for a little-endian machine with 32-bit [int].
    Integers are [Z]; every conversion that can lose bits is written out. *)

Definition u8 (x : Z) : Z := x mod 256.
Definition u16 (x : Z) : Z := x mod 65536.
Definition u32 (x : Z) : Z := x mod 4294967296.
Definition i32 (x : Z) : Z :=
  let y := u32 x in if y <? 2147483648 then y else y - 4294967296.

Declare Scope word_scope.
Delimit Scope word_scope with word.
Notation "a .& b" := (Z.land a b) (at level 40, left associativity) : word_scope.
Notation "a .| b" := (Z.lor a b) (at level 50, left associativity) : word_scope.
Notation "a .^ b" := (Z.lxor a b) (at level 50, left associativity) : word_scope.
Notation "a .>> b" := (Z.shiftr a b) (at level 39, left associativity) : word_scope.
Notation "a .<< b" := (Z.shiftl a b) (at level 39, left associativity) : word_scope.
Global Open Scope word_scope.

(** Bitwise complement and subtraction of one at width 32. *)
Definition not32 (x : Z) : Z := u32 (Z.lnot x).
Definition sub32 (x y : Z) : Z := u32 (x - y).

(** Byte [k] of a 32-bit word in memory order (little-endian). *)
Definition byte_of (w k : Z) : Z := (w .>> (8 * k)) .& 255.

(** The 32-bit word whose bytes in memory order are [b0 b1 b2 b3]. *)
Definition le32 (b0 b1 b2 b3 : Z) : Z :=
  b0 .| (b1 .<< 8) .| (b2 .<< 16) .| (b3 .<< 24).

(** [ntohl] on a little-endian machine. *)
Definition ntohl (w : Z) : Z :=
  le32 (byte_of w 3) (byte_of w 2) (byte_of w 1) (byte_of w 0).

#[global] Arguments u8 : simpl never.
#[global] Arguments u16 : simpl never.
#[global] Arguments u32 : simpl never.
#[global] Arguments i32 : simpl never.
#[global] Arguments not32 : simpl never.
#[global] Arguments sub32 : simpl never.
#[global] Arguments byte_of : simpl never.
#[global] Arguments le32 : simpl never.
#[global] Arguments ntohl : simpl never.

(** ** [Vector<T>]

    A [Vector] is a list.  Reading outside it is undefined in the source;
    [vget] then returns a default, and the components prove that their
    indices are in range. *)

Definition vlen {A} (l : list A) : Z := Z.of_nat (length l).
Definition vget {A} `{Inhabited A} (l : list A) (i : Z) : A :=
  if 0 <=? i then l !!! Z.to_nat i else inhabitant.
Definition vset {A} (l : list A) (i : Z) (x : A) : list A :=
  if 0 <=? i then <[Z.to_nat i := x]> l else l.
Definition vback {A} `{Inhabited A} (l : list A) : A := vget l (vlen l - 1).
Definition vpush {A} (l : list A) (x : A) : list A := l ++ [x].

(** ** Counting loops: [for (i = lo; i < hi; ++i)] and its descending twin *)

Definition for_up {S : Type} (lo hi : Z) (body : Z -> S -> S) (s : S) : S :=
  fold_left (fun s i => body i s) (seqZ lo (hi - lo)) s.

(** [for (i = hi - 1; i >= lo; --i)] *)
Definition for_down {S : Type} (lo hi : Z) (body : Z -> S -> S) (s : S) : S :=
  fold_left (fun s i => body i s) (reverse (seqZ lo (hi - lo))) s.

Section loops.
Context {S : Type}.
Implicit Types (body : Z -> S -> S) (s : S).

Lemma for_up_nil lo hi body s : hi <= lo -> for_up lo hi body s = s.
Proof.
  intros H. unfold for_up, seqZ. by replace (Z.to_nat (hi - lo)) with 0%nat by lia.
Qed.

Lemma for_up_snoc lo hi body s :
  lo <= hi -> for_up lo (hi + 1) body s = body hi (for_up lo hi body s).
Proof.
  intros H. unfold for_up.
  replace (hi + 1 - lo) with ((hi - lo) + 1) by lia.
  rewrite seqZ_app by lia. rewrite fold_left_app. simpl.
  by replace (lo + (hi - lo)) with hi by lia.
Qed.

Lemma for_up_cons lo hi body s :
  lo < hi -> for_up lo hi body s = for_up (lo + 1) hi body (body lo s).
Proof.
  intros H. unfold for_up.
  rewrite seqZ_cons by lia. simpl.
  by replace (Z.succ lo) with (lo + 1) by lia;
     replace (Z.pred (hi - lo)) with (hi - (lo + 1)) by lia.
Qed.

Lemma for_up_inv (P : Z -> S -> Prop) lo hi body s :
  lo <= hi -> P lo s ->
  (forall i s, lo <= i < hi -> P i s -> P (i + 1) (body i s)) ->
  P hi (for_up lo hi body s).
Proof.
  intros Hle Hlo Hstep.
  assert (forall n, (Z.of_nat n <= hi - lo) ->
                    P (lo + Z.of_nat n) (for_up lo (lo + Z.of_nat n) body s)) as Hall.
  { induction n as [|n IH]; intros Hn.
    - rewrite Z.add_0_r. by rewrite for_up_nil by lia.
    - replace (lo + Z.of_nat (Datatypes.S n)) with (lo + Z.of_nat n + 1) by lia.
      rewrite for_up_snoc by lia. apply Hstep; [lia|]. apply IH. lia. }
  specialize (Hall (Z.to_nat (hi - lo))).
  rewrite Z2Nat.id in Hall by lia.
  replace (lo + (hi - lo)) with hi in Hall by lia. apply Hall. lia.
Qed.

Lemma for_down_inv (P : Z -> S -> Prop) lo hi body s :
  lo <= hi -> P hi s ->
  (forall i s, lo <= i < hi -> P (i + 1) s -> P i (body i s)) ->
  P lo (for_down lo hi body s).
Proof.
  intros Hle Hhi Hstep. unfold for_down.
  assert (forall n s, (Z.of_nat n <= hi - lo) -> P (lo + Z.of_nat n) s ->
            P lo (fold_left (fun s i => body i s) (reverse (seqZ lo (Z.of_nat n))) s))
    as Hall.
  { induction n as [|n IH]; intros s' Hn Hs.
    - simpl. by rewrite Z.add_0_r in Hs.
    - replace (Z.of_nat (Datatypes.S n)) with (Z.of_nat n + 1) by lia.
      assert (reverse (seqZ lo (Z.of_nat n + 1)) =
              (lo + Z.of_nat n) :: reverse (seqZ lo (Z.of_nat n))) as ->.
      { rewrite seqZ_app by lia. rewrite reverse_app.
        replace (seqZ (lo + Z.of_nat n) 1) with [lo + Z.of_nat n]; [done|].
        unfold seqZ. simpl. by f_equal. }
      simpl. apply IH; [lia|]. apply Hstep; [lia|].
      by replace (lo + Z.of_nat n + 1) with (lo + Z.of_nat (Datatypes.S n)) by lia. }
  specialize (Hall (Z.to_nat (hi - lo)) s).
  rewrite Z2Nat.id in Hall by lia.
  apply Hall; [lia|]. by replace (lo + (hi - lo)) with hi by lia.
Qed.
End loops.

(** ** Vector lemmas *)

Section vectors.
Context {A : Type} `{Inhabited A}.
Implicit Types (l : list A) (x : A) (i j : Z).

Lemma vget_lookup l i x : 0 <= i -> l !! Z.to_nat i = Some x -> vget l i = x.
Proof.
  intros Hi Hl. unfold vget. destruct (Z.leb_spec 0 i); [|lia].
  by apply list_lookup_total_correct.
Qed.

Lemma vget_some l i : 0 <= i < vlen l -> l !! Z.to_nat i = Some (vget l i).
Proof.
  intros [Hi Hl]. unfold vget, vlen in *. destruct (Z.leb_spec 0 i); [|lia].
  apply list_lookup_lookup_total_lt. lia.
Qed.

Lemma vget_nat l (i : nat) x : l !! i = Some x -> vget l (Z.of_nat i) = x.
Proof. intros Hl. apply vget_lookup; [lia|]. by rewrite Nat2Z.id. Qed.

Lemma elem_of_vget l x : x ∈ l <-> exists i, 0 <= i < vlen l /\ vget l i = x.
Proof.
  rewrite list_elem_of_lookup. split.
  - intros (i & Hi). exists (Z.of_nat i). split; [|by apply vget_nat]. apply lookup_lt_Some in Hi. unfold vlen. lia.
  - intros (c & Hc & <-). exists (Z.to_nat c). by apply vget_some.
Qed.

Lemma vlen_vset l i x : vlen (vset l i x) = vlen l.
Proof. unfold vset, vlen. case_match; [|done]. by rewrite length_insert. Qed.

Lemma vlen_vpush l x : vlen (vpush l x) = vlen l + 1.
Proof. unfold vpush, vlen. rewrite length_app. simpl. lia. Qed.

Lemma vlen_nonneg l : 0 <= vlen l.
Proof. unfold vlen. lia. Qed.

Lemma vget_vset_eq l i x : 0 <= i < vlen l -> vget (vset l i x) i = x.
Proof.
  intros [Hi Hl]. unfold vget, vset, vlen in *. destruct (Z.leb_spec 0 i); [|lia].
  apply list_lookup_total_correct. apply list_lookup_insert_eq. lia.
Qed.

Lemma vget_vset_ne l i j x : i <> j -> 0 <= i -> 0 <= j -> vget (vset l i x) j = vget l j.
Proof.
  intros Hne Hi Hj. unfold vget, vset.
  destruct (Z.leb_spec 0 i); [|lia]. destruct (Z.leb_spec 0 j); [|lia].
  rewrite !list_lookup_total_alt. rewrite list_lookup_insert_ne; [done|lia].
Qed.

Lemma vget_vset l i j x :
  0 <= i -> 0 <= j ->
  vget (vset l i x) j = if decide (i = j /\ j < vlen l) then x else vget l j.
Proof.
  intros Hi Hj. destruct (decide (i = j)) as [->|Hne].
  - case_decide as Hd; [apply vget_vset_eq; lia|].
    unfold vset. destruct (Z.leb_spec 0 j); [|lia].
    rewrite list_insert_ge; [done|]. unfold vlen in Hd. lia.
  - rewrite vget_vset_ne by done. case_decide; [lia|done].
Qed.

Lemma vget_vpush_lt l i x : 0 <= i < vlen l -> vget (vpush l x) i = vget l i.
Proof.
  intros [Hi Hl]. unfold vget, vpush, vlen in *. destruct (Z.leb_spec 0 i); [|lia].
  rewrite !list_lookup_total_alt. rewrite lookup_app_l; [done|lia].
Qed.

Lemma vget_vpush_eq l i x : i = vlen l -> vget (vpush l x) i = x.
Proof.
  intros ->. unfold vget, vpush, vlen. destruct (Z.leb_spec 0 (Z.of_nat (length l))); [|lia].
  rewrite Nat2Z.id, list_lookup_total_alt.
  rewrite lookup_app_r by lia. by rewrite Nat.sub_diag.
Qed.

Lemma vback_vpush l x : vback (vpush l x) = x.
Proof. unfold vback. apply vget_vpush_eq. rewrite vlen_vpush. lia. Qed.

Lemma vget_cons_0 x l : vget (x :: l) 0 = x.
Proof. done. Qed.

Lemma vget_cons_S x l i : 0 < i -> vget (x :: l) i = vget l (i - 1).
Proof.
  intros Hi. unfold vget. destruct (Z.leb_spec 0 i); [|lia].
  destruct (Z.leb_spec 0 (i - 1)); [|lia].
  replace (Z.to_nat i) with (S (Z.to_nat (i - 1))) by lia. done.
Qed.

Lemma vget_app_l l1 l2 i : i < vlen l1 -> vget (l1 ++ l2) i = vget l1 i.
Proof.
  intros Hi. unfold vget, vlen in *. destruct (Z.leb_spec 0 i); [|done].
  rewrite !list_lookup_total_alt, lookup_app_l by lia. done.
Qed.

Lemma vget_app_r l1 l2 i : vlen l1 <= i -> vget (l1 ++ l2) i = vget l2 (i - vlen l1).
Proof.
  intros Hi. unfold vget, vlen in *. destruct (Z.leb_spec 0 i); [|lia].
  destruct (Z.leb_spec 0 (i - Z.of_nat (length l1))); [|lia].
  rewrite !list_lookup_total_alt, lookup_app_r by lia.
  by replace (Z.to_nat i - length l1)%nat with (Z.to_nat (i - Z.of_nat (length l1))) by lia.
Qed.

Lemma vget_replicate n x i : 0 <= i < Z.of_nat n -> vget (replicate n x) i = x.
Proof. intros Hi. apply vget_lookup; [lia|]. apply lookup_replicate. split; [done|lia]. Qed.

Lemma vlen_app l1 l2 : vlen (l1 ++ l2) = vlen l1 + vlen l2.
Proof. unfold vlen. rewrite length_app. lia. Qed.

Lemma vlen_nil : vlen (@nil A) = 0.
Proof. done. Qed.

Lemma vlen_cons x l : vlen (x :: l) = vlen l + 1.
Proof. unfold vlen. simpl. lia. Qed.

Lemma vlen_replicate n x : vlen (replicate n x) = Z.of_nat n.
Proof. unfold vlen. by rewrite length_replicate. Qed.

Lemma vec_eq l1 l2 :
  vlen l1 = vlen l2 -> (forall i, 0 <= i < vlen l1 -> vget l1 i = vget l2 i) -> l1 = l2.
Proof.
  intros Hlen Hget. apply list_eq_same_length with (n := length l2);
    unfold vlen in *; [done|lia|].
  intros i x y Hi Hx Hy.
  specialize (Hget (Z.of_nat i) ltac:(lia)).
  by rewrite (vget_nat _ _ _ Hx), (vget_nat _ _ _ Hy) in Hget.
Qed.
End vectors.

(** A loop that changes the elements of a range one by one. *)
Lemma vget_for_map {A} `{Inhabited A} (f : A -> A) a b (l : list A) :
  0 <= a <= b -> b <= vlen l ->
  let l' := for_up a b (fun i l => vset l i (f (vget l i))) l in
  vlen l' = vlen l
  /\ forall i, 0 <= i -> vget l' i = if decide (a <= i < b) then f (vget l i) else vget l i.
Proof.
  intros Ha Hb l'. subst l'.
  set (P := fun c l' => vlen l' = vlen l /\ forall i, 0 <= i ->
         vget l' i = if decide (a <= i < c) then f (vget l i) else vget l i).
  apply (for_up_inv P); unfold P; [lia| |].
  - split; [done|]. intros i Hi. case_decide; [lia|done].
  - intros c l' Hc [Hl Hg]. rewrite vlen_vset. split; [done|]. intros i Hi.
    rewrite vget_vset by lia. case_decide as Hd.
    + destruct Hd as [-> _]. rewrite Hg by done. case_decide; [lia|]. case_decide; [done|lia].
    + rewrite Hg by done. case_decide; case_decide; try done; lia.
Qed.

Create HintDb click.
Create Rewrite HintDb click.
#[export] Hint Rewrite @vlen_vset @vlen_vpush @vlen_app @vlen_nil @vlen_cons @vlen_replicate : click.
#[export] Hint Resolve vlen_nonneg : click.

(** ** Sums over lists *)

Definition sumf {A} (f : A -> Z) (us : list A) : Z := foldr (fun u n => f u + n) 0 us.

Lemma sumf_cons {A} (f : A -> Z) u us : sumf f (u :: us) = f u + sumf f us.
Proof. done. Qed.

Lemma sumf_app {A} (f : A -> Z) us vs : sumf f (us ++ vs) = sumf f us + sumf f vs.
Proof. induction us as [|u us IH]; cbn; [done|]. unfold sumf in *. lia. Qed.

Lemma sumf_ext {A} (f g : A -> Z) us : (forall u, u ∈ us -> f u = g u) -> sumf f us = sumf g us.
Proof.
  induction us as [|u us IH]; intros He; [done|]. cbn. rewrite He by apply list_elem_of_here. unfold sumf in IH.
  rewrite IH; [done|]. intros v Hv. apply He. by apply list_elem_of_further.
Qed.

Lemma sumf_change {A} (f g : A -> Z) us t :
  NoDup us -> t ∈ us -> (forall u, u ∈ us -> u <> t -> f u = g u) -> sumf f us - f t = sumf g us - g t.
Proof.
  induction 1 as [|u us Hu Hn IH]; intros Ht He; [by apply not_elem_of_nil in Ht|]. cbn.
  apply elem_of_cons in Ht as [->|Ht].
  - assert (Hs : sumf f us = sumf g us).
    { apply sumf_ext. intros v Hv. apply He; [by apply list_elem_of_further|]. intros ->. done. }
    unfold sumf in Hs. lia.
  - rewrite (He u) by (apply list_elem_of_here || (intros ->; done)).
    specialize (IH Ht (fun v Hv Hne => He v (list_elem_of_further _ _ _ Hv) Hne)). unfold sumf in IH. lia.
Qed.

Lemma sumf_insert {A} `{Inhabited A} (f : A -> Z) (i : nat) x l :
  (i < length l)%nat -> sumf f (<[i := x]> l) = sumf f l - f (l !!! i) + f x.
Proof.
  revert i. induction l as [|y l IH]; intros i Hi; cbn [length] in Hi; [lia|]. destruct i as [|i].
  - change (<[0%nat := x]> (y :: l)) with (x :: l). change ((y :: l) !!! 0%nat) with y. rewrite !sumf_cons. lia.
  - change (<[S i := x]> (y :: l)) with (y :: <[i := x]> l). change ((y :: l) !!! S i) with (l !!! i).
    rewrite !sumf_cons, IH by lia. lia.
Qed.

Lemma sumf_vset {A} `{Inhabited A} (f : A -> Z) i x l :
  0 <= i < vlen l -> sumf f (vset l i x) = sumf f l - f (vget l i) + f x.
Proof.
  intros Hi. unfold vset, vget. rewrite (proj2 (Z.leb_le 0 i)) by lia. apply sumf_insert. unfold vlen in Hi. lia.
Qed.

Lemma sumf_delete {A} `{Inhabited A} (f : A -> Z) (i : nat) l :
  (i < length l)%nat -> sumf f (delete i l) = sumf f l - f (l !!! i).
Proof.
  revert i. induction l as [|y l IH]; intros i Hi; cbn [length] in Hi; [lia|]. destruct i as [|i].
  - change (delete 0%nat (y :: l)) with l. change ((y :: l) !!! 0%nat) with y. rewrite sumf_cons. lia.
  - change (delete (S i) (y :: l)) with (y :: delete i l). change ((y :: l) !!! S i) with (l !!! i).
    rewrite !sumf_cons, IH by lia. lia.
Qed.

(** Lengths of vectors built by the constructors above. *)
Ltac vlia := autorewrite with click in *; unfold vlen in *; lia.

(** Case analysis on the boolean comparison that guards a branch. *)
Ltac bdestr :=
  match goal with
  | |- context [?a <? ?b] => destruct (Z.ltb_spec a b)
  | |- context [?a <=? ?b] => destruct (Z.leb_spec a b)
  | |- context [?a =? ?b] => destruct (Z.eqb_spec a b)
  | H : context [?a <? ?b] |- _ => destruct (Z.ltb_spec a b)
  | H : context [?a <=? ?b] |- _ => destruct (Z.leb_spec a b)
  | H : context [?a =? ?b] |- _ => destruct (Z.eqb_spec a b)
  end.

(** Boolean conjunctions and comparisons in hypotheses, as propositions. *)
Ltac bprop :=
  repeat match goal with
  | H : _ && _ = true |- _ => apply andb_true_iff in H; destruct H
  | H : _ || _ = false |- _ => apply orb_false_iff in H; destruct H
  | H : negb _ = true |- _ => apply negb_true_iff in H
  | H : negb _ = false |- _ => apply negb_false_iff in H
  | H : (_ <? _) = true |- _ => apply Z.ltb_lt in H
  | H : (_ <? _) = false |- _ => apply Z.ltb_ge in H
  | H : (_ <=? _) = true |- _ => apply Z.leb_le in H
  | H : (_ <=? _) = false |- _ => apply Z.leb_gt in H
  | H : (_ =? _) = true |- _ => apply Z.eqb_eq in H
  | H : (_ =? _) = false |- _ => apply Z.eqb_neq in H
  end.
