(* ===== verification/Packet.v ===== *)
(** * Packet data

    The part of Click's [Packet] the classification code reads: the bytes from
    [p->data()] on, and [p->length()].  The buffer around the packet (headroom
    before [data()], tailroom after the last byte) is memory too, and the
    word-wise matcher may read a few bytes of it; [outside] holds those bytes,
    so that theorems can say that no answer depends on them. *)

From S2P Require Import Prelude.

Record packet := mkPacket {
  pkt_data : list Z;          (** the bytes [p->data()[0 .. length)] *)
  outside : Z -> Z            (** the buffer's bytes at every other index *)
}.

(** [p->length()] *)
Definition pkt_length (p : packet) : Z := vlen (pkt_data p).

(** The byte at [p->data() + i]. *)
Definition pkt_byte (p : packet) (i : Z) : Z :=
  if (0 <=? i) && (i <? pkt_length p) then vget (pkt_data p) i else outside p i.

(** [*(const uint32_t * )(p->data() + i)] *)
Definition pkt_word (p : packet) (i : Z) : Z :=
  le32 (pkt_byte p i) (pkt_byte p (i + 1)) (pkt_byte p (i + 2)) (pkt_byte p (i + 3)).

(** A packet in a buffer whose other bytes are zero. *)
Definition packet_of (l : list Z) : packet := mkPacket l (fun _ => 0).

(** Every byte of the buffer is an unsigned char. *)
Definition pkt_ok (p : packet) : Prop :=
  Forall (fun b => 0 <= b < 256) (pkt_data p) /\ forall i, 0 <= outside p i < 256.

(** Two packets with the same contents, in possibly different buffers. *)
Definition same_contents (p q : packet) : Prop := pkt_data p = pkt_data q.

(** ** Bytes and words *)

Lemma byte_of_range w k : 0 <= byte_of w k < 256.
Proof.
  unfold byte_of. rewrite (Z.land_ones _ 8) by lia. change (2 ^ 8) with 256.
  apply Z.mod_pos_bound. lia.
Qed.

Lemma le32_testbit b0 b1 b2 b3 n :
  0 <= b0 < 256 -> 0 <= b1 < 256 -> 0 <= b2 < 256 -> 0 <= b3 < 256 -> 0 <= n ->
  Z.testbit (le32 b0 b1 b2 b3) n =
    if n <? 8 then Z.testbit b0 n
    else if n <? 16 then Z.testbit b1 (n - 8)
    else if n <? 24 then Z.testbit b2 (n - 16)
    else if n <? 32 then Z.testbit b3 (n - 24) else false.
Proof.
  intros H0 H1 H2 H3 Hn.
  assert (Hhi : forall b m, 0 <= b < 256 -> 8 <= m -> Z.testbit b m = false).
  { intros b m Hb Hm. destruct (decide (b = 0)) as [->|]; [apply Z.bits_0|].
    apply Z.bits_above_log2; [lia|].
    assert (Z.log2 b < 8) by (apply Z.log2_lt_pow2; lia). lia. }
  unfold le32. rewrite !Z.lor_spec, !Z.shiftl_spec by lia.
  destruct (Z.ltb_spec n 8).
  { rewrite !(Z.testbit_neg_r _ (n - _)) by lia. by rewrite !orb_false_r. }
  rewrite (Hhi b0) by lia. simpl. destruct (Z.ltb_spec n 16).
  { rewrite !(Z.testbit_neg_r _ (n - 16)), !(Z.testbit_neg_r _ (n - 24)) by lia.
    by rewrite !orb_false_r. }
  rewrite (Hhi b1) by lia. simpl. destruct (Z.ltb_spec n 24).
  { rewrite !(Z.testbit_neg_r _ (n - 24)) by lia. by rewrite !orb_false_r. }
  rewrite (Hhi b2) by lia. simpl. destruct (Z.ltb_spec n 32); [done|].
  apply Hhi; lia.
Qed.

Lemma byte_of_testbit w k n :
  0 <= k -> 0 <= n -> Z.testbit (byte_of w k) n = (n <? 8) && Z.testbit w (8 * k + n).
Proof.
  intros Hk Hn. unfold byte_of. rewrite Z.land_spec, Z.shiftr_spec by lia.
  rewrite (Z.testbit_ones_nonneg 8) by lia.
  rewrite andb_comm. do 2 f_equal. lia.
Qed.

Lemma pkt_byte_range p i : pkt_ok p -> 0 <= pkt_byte p i < 256.
Proof.
  intros [Hd Ho]. unfold pkt_byte. destruct (_ && _) eqn:E; [|apply Ho]. bprop.
  rewrite Forall_lookup in Hd. apply (Hd (Z.to_nat i)). apply vget_some.
  unfold pkt_length in *. lia.
Qed.

Lemma pkt_byte_same p q i :
  same_contents p q -> 0 <= i < pkt_length p -> pkt_byte p i = pkt_byte q i.
Proof.
  unfold same_contents, pkt_byte, pkt_length. intros Heq Hi. rewrite <- Heq.
  destruct (Z.leb_spec 0 i); [|lia]. by destruct (Z.ltb_spec i (vlen (pkt_data p))); [|lia].
Qed.

Lemma lor_shift_add a b n : 0 <= n -> 0 <= a < 2 ^ n -> (a .| (b .<< n)) = a + b * 2 ^ n.
Proof.
  intros Hn Ha. rewrite <- Z.shiftl_mul_pow2 by done.
  assert (Hl : (a .& (b .<< n)) = 0).
  { apply Z.bits_inj'. intros m Hm. rewrite Z.land_spec, Z.bits_0, Z.shiftl_spec by done.
    destruct (Z.ltb_spec m n) as [Hlt|Hge].
    - rewrite (Z.testbit_neg_r b) by lia. apply andb_false_r.
    - destruct (decide (a = 0)) as [->|]; [by rewrite Z.bits_0|].
      rewrite (Z.bits_above_log2 a m); [done|lia|]. apply Z.log2_lt_pow2; [lia|].
      assert (2 ^ n <= 2 ^ m) by (apply Z.pow_le_mono_r; lia). lia. }
  rewrite Z.add_nocarry_lxor by done. by rewrite <- Z.lxor_lor by done.
Qed.

Lemma le32_add b0 b1 b2 b3 :
  0 <= b0 < 256 -> 0 <= b1 < 256 -> 0 <= b2 < 256 -> 0 <= b3 < 256 ->
  le32 b0 b1 b2 b3 = b0 + b1 * 256 + b2 * 65536 + b3 * 16777216.
Proof.
  intros. unfold le32.
  rewrite (lor_shift_add b0 b1 8) by lia. rewrite (lor_shift_add _ b2 16) by lia.
  by rewrite (lor_shift_add _ b3 24) by lia.
Qed.

Lemma ntohl_range w : 0 <= ntohl w < 4294967296.
Proof.
  unfold ntohl. pose proof (byte_of_range w 0). pose proof (byte_of_range w 1).
  pose proof (byte_of_range w 2). pose proof (byte_of_range w 3).
  rewrite le32_add by done. lia.
Qed.
