(* ===== verification/Insn.v ===== *)
(** * Wordwise instructions

    [Classification::Wordwise::Insn] of elements/standard/classification.{hh,cc}:
    one instruction tests four bytes of packet data under a mask and jumps.
    The jump [j[0]] is taken when the test fails and [j[1]] when it succeeds;
    a positive jump is an instruction index, any other is (minus) an output. *)

From S2P Require Import Prelude Packet.

Definition j_never : Z := -2147483647.
Definition j_failure : Z := -2147483646.
Definition j_success : Z := -2147483645.

Inductive Combiner := c_and | c_or | c_ternary.

Definition offset_max : Z := 2147483647.

Record Insn := mkInsn {
  offset : Z;            (** [uint16_t] *)
  padding : Z;           (** [uint8_t] *)
  short_output : bool;   (** [uint8_t] *)
  mask : Z;              (** [uint32_t mask.u] *)
  value : Z;             (** [uint32_t value.u] *)
  j_no : Z;              (** [j[0]] *)
  j_yes : Z              (** [j[1]] *)
}.

#[global] Instance Insn_inhabited : Inhabited Insn :=
  populate (mkInsn 0 0 false 0 0 j_never j_never).

(** [j[k]] *)
Definition jmp (e : Insn) (k : bool) : Z := if k then j_yes e else j_no e.

Definition set_jmp (e : Insn) (k : bool) (dst : Z) : Insn :=
  if k then mkInsn (offset e) (padding e) (short_output e) (mask e) (value e) (j_no e) dst
  else mkInsn (offset e) (padding e) (short_output e) (mask e) (value e) dst (j_yes e).

(** The constructor [Insn(offset, value, mask, failure, success, short_output)]. *)
Definition new_insn (offset_ value_ mask_ failure_ success_ : Z) (short_output_ : bool) : Insn :=
  mkInsn (u16 offset_) 0 short_output_ mask_ (value_ .& mask_) failure_ success_.

(** [mask.c[k]] and the two writes [mask.c[k] = m], [value.c[k] = v]. *)
Definition mask_c (e : Insn) (k : Z) : Z := byte_of (mask e) k.

Definition put_byte (w k b : Z) : Z := (w .& not32 (255 .<< (8 * k))) .| (b .<< (8 * k)).

Definition required_length (e : Insn) : Z :=
  if mask e =? 0 then 0
  else if negb (mask_c e 3 =? 0) then offset e + 4
  else if negb (mask_c e 2 =? 0) then offset e + 3
  else if negb (mask_c e 1 =? 0) then offset e + 2
  else offset e + 1.

Definition hard_implies_short_ok (e : Insn) (direction : bool) (x : Insn)
    (next_direction : bool) (known_length : Z) : bool :=
  if negb (Bool.eqb (short_output e) direction) then true
  else
    let r := required_length e in
    (r <=? known_length)
    || ((r <=? required_length x) && Bool.eqb next_direction (short_output x)).

Definition implies_short_ok (e : Insn) (direction : bool) (x : Insn)
    (next_direction : bool) (known_length : Z) : bool :=
  if negb (Bool.eqb (short_output e) direction) || (offset e + 4 <=? i32 known_length)
  then true
  else hard_implies_short_ok e direction x next_direction known_length.

Definition implies (e x : Insn) (known_length : Z) : bool :=
  if mask x =? 0 then true
  else if negb (offset x =? offset e) || negb (implies_short_ok e true x true known_length)
  then false
  else
    let both_mask := mask e .& mask x in
    (both_mask =? mask x) && ((value e .& both_mask) =? value x).

Definition not_implies (e x : Insn) (known_length : Z) : bool :=
  if mask x =? 0 then true
  else if negb (offset x =? offset e) || negb (implies_short_ok e false x true known_length)
  then false
  else ((mask e .& sub32 (mask e) 1) =? 0) && (mask e =? mask x)
       && negb (value e =? value x).

Definition implies_not (e x : Insn) (known_length : Z) : bool :=
  if (mask x =? 0) || negb (offset x =? offset e)
     || negb (implies_short_ok e true x false known_length)
  then false
  else
    let both_mask := mask e .& mask x in
    (both_mask =? mask x) && negb ((value e .& both_mask) =? value x).

Definition not_implies_not (e x : Insn) (known_length : Z) : bool :=
  if mask e =? 0 then true
  else if negb (offset x =? offset e) || negb (implies_short_ok e false x false known_length)
  then false
  else
    let both_mask := mask e .& mask x in
    (both_mask =? mask e) && (value e =? (value x .& both_mask)).

Definition compatible (e x : Insn) (consider_short : bool) : bool :=
  if (mask e =? 0) || (mask x =? 0) then true
  else if negb (offset x =? offset e)
          || (consider_short && negb (Bool.eqb (short_output x) (short_output e))
              && (required_length e <? required_length x))
  then false
  else
    let both_mask := mask e .& mask x in
    (value e .& both_mask) =? (value x .& both_mask).

Definition generalizable_or_pair (e x : Insn) : bool :=
  let value_diff := value e .^ value x in
  if negb (offset e =? 0) && (offset x =? offset e) && negb (mask e =? 0)
     && (mask x =? mask e) && (short_output e || negb (short_output x))
     && (j_yes e =? j_yes x) && ((value_diff .& sub32 value_diff 1) =? 0)
  then
    let test := new_insn (offset e) (value e .& not32 value_diff)
                         (mask e .& not32 value_diff) j_failure j_success false in
    required_length test =? required_length e
  else false.

Definition flippable (e : Insn) : bool :=
  if mask e =? 0 then false else (mask e .& sub32 (mask e) 1) =? 0.

Definition flip (e : Insn) : Insn :=
  mkInsn (offset e) (padding e) (negb (short_output e)) (mask e) (value e .^ mask e)
         (j_yes e) (j_no e).

Definition offset_by (e : Insn) (off : Z) : Insn :=
  mkInsn (offset e) (padding e) (short_output e) (mask e) (value e)
         (if 0 <? j_no e then j_no e + off else j_no e)
         (if 0 <? j_yes e then j_yes e + off else j_yes e).

(** [Insn::compare] is [memcmp] over the first twelve bytes. *)
Definition insn_bytes (e : Insn) : list Z :=
  [byte_of (offset e) 0; byte_of (offset e) 1; padding e;
   (if short_output e then 1 else 0);
   mask_c e 0; mask_c e 1; mask_c e 2; mask_c e 3;
   byte_of (value e) 0; byte_of (value e) 1; byte_of (value e) 2; byte_of (value e) 3].

Fixpoint memcmp (a b : list Z) : Z :=
  match a, b with
  | x :: a', y :: b' => if x =? y then memcmp a' b' else x - y
  | _, _ => 0
  end.

Definition insn_compare (a b : Insn) : Z := memcmp (insn_bytes a) (insn_bytes b).

#[global] Arguments mask_c : simpl never.
#[global] Arguments put_byte : simpl never.
#[global] Arguments required_length : simpl never.
#[global] Arguments j_never : simpl never.
#[global] Arguments j_failure : simpl never.
#[global] Arguments j_success : simpl never.

(** ** What an instruction answers

    [wtest d e] is the test on the data word [d (offset e)]. *)

Definition wtest (d : Z -> Z) (e : Insn) : bool := (d (offset e) .& mask e) =? value e.

(** The unchecked test of [Program::match]; [packet_data] is
    [p->data() - align]. *)
Definition fast_outcome (align : Z) (p : packet) : Insn -> bool :=
  wtest (fun off => pkt_word p (off - align)).

(** The checked test of [Program::length_checked_match]. *)
Definition checked_outcome (align : Z) (p : packet) (e : Insn) : bool :=
  let packet_length := i32 (pkt_length p + align) in
  let off := offset e in
  if packet_length <? off + 4 then
    let available := packet_length - off in
    if (off <? packet_length)
       && negb (negb (mask_c e 3 =? 0)
                || (negb (mask_c e 2 =? 0) && (available <=? 2))
                || (negb (mask_c e 1 =? 0) && (available =? 1)))
    then fast_outcome align p e
    else short_output e
  else fast_outcome align p e.

(** The fields the test depends on. *)
Definition same_test (e x : Insn) : Prop :=
  offset e = offset x /\ short_output e = short_output x
  /\ mask e = mask x /\ value e = value x.

#[global] Instance same_test_equiv : Equivalence same_test.
Proof.
  split; unfold same_test; red; intros; intuition congruence.
Qed.

(** An instruction as the constructor and the optimizer leave it: 32-bit words,
    the value inside the mask, a 16-bit offset. *)
Definition insn_ok (e : Insn) : Prop :=
  0 <= offset e < 65536 /\ 0 <= mask e < 4294967296 /\ (value e .& mask e) = value e
  /\ padding e = 0.

(** ** Arithmetic of masks *)

Lemma i32_small x : 0 <= x < 2147483648 -> i32 x = x.
Proof.
  intros H. unfold i32, u32. rewrite Z.mod_small by lia. by destruct (Z.ltb_spec x 2147483648); [|lia].
Qed.

Lemma i32_id x : -2147483648 <= x < 2147483648 -> i32 x = x.
Proof.
  intros Hx. unfold i32, u32. destruct (Z.leb_spec 0 x).
  - rewrite Z.mod_small by lia. destruct (Z.ltb_spec x 2147483648); lia.
  - assert (x mod 4294967296 = x + 4294967296) as ->.
    { rewrite <- (Z.mod_add _ 1) by lia. apply Z.mod_small. lia. }
    destruct (Z.ltb_spec (x + 4294967296) 2147483648); lia.
Qed.

Lemma i32_u32 x : -2147483648 <= x < 2147483648 -> i32 (u32 x) = x.
Proof.
  intros Hx. unfold i32, u32. rewrite Z.mod_mod by lia. destruct (Z.leb_spec 0 x).
  - rewrite Z.mod_small by lia. destruct (Z.ltb_spec x 2147483648); lia.
  - assert (x mod 4294967296 = x + 4294967296) as ->.
    { rewrite <- (Z.mod_add _ 1) by lia. apply Z.mod_small. lia. }
    destruct (Z.ltb_spec (x + 4294967296) 2147483648); lia.
Qed.

Lemma u32_small x : 0 <= x < 4294967296 -> u32 x = x.
Proof. apply Z.mod_small. Qed.

Lemma sub32_pred m : 0 < m < 4294967296 -> sub32 m 1 = m - 1.
Proof. intros H. unfold sub32. apply u32_small. lia. Qed.

(** [m & (m - 1) == 0] picks out the single bits. *)
Lemma single_bit m :
  0 < m < 4294967296 -> (m .& sub32 m 1) = 0 -> m = 2 ^ Z.log2 m.
Proof.
  intros Hm H. rewrite sub32_pred in H by done.
  destruct (Z.log2_spec m ltac:(lia)) as [Hlo Hhi].
  pose proof (Z.pow_pos_nonneg 2 (Z.log2 m) ltac:(lia) (Z.log2_nonneg m)).
  destruct (decide (m = 2 ^ Z.log2 m)) as [|Hne]; [done|].
  exfalso. assert (Z.log2 (m - 1) = Z.log2 m) as Hlog.
  { apply Z.log2_unique; [apply Z.log2_nonneg|]. clear H. split; lia. }
  assert (Z.testbit (m .& (m - 1)) (Z.log2 m) = true) as Hb.
  { rewrite Z.land_spec, Z.bit_log2 by lia. rewrite <- Hlog, Z.bit_log2 by lia. done. }
  by rewrite H, Z.bits_0 in Hb.
Qed.

Lemma submask_single m v :
  0 <= m < 4294967296 -> (m .& sub32 m 1) = 0 -> (v .& m) = v -> v = 0 \/ v = m.
Proof.
  intros Hm Hs Hv. destruct (decide (m = 0)) as [->|Hm0].
  { rewrite Z.land_0_r in Hv. auto. }
  apply single_bit in Hs; [|lia].
  destruct (Z.testbit v (Z.log2 m)) eqn:Hb; [right|left]; apply Z.bits_inj'; intros n Hn;
    rewrite <- Hv, Z.land_spec, ?Z.bits_0, Hs;
    rewrite Z.pow2_bits_eqb by apply Z.log2_nonneg;
    destruct (Z.eqb_spec (Z.log2 m) n) as [<-|]; rewrite ?Hb, ?andb_false_r; done.
Qed.

Lemma land_submask d m v : (d .& m) = v -> (v .& m) = v.
Proof. intros <-. by rewrite <- Z.land_assoc, Z.land_diag. Qed.

Lemma insn_ok_zero e : insn_ok e -> mask e = 0 -> value e = 0.
Proof. intros (_ & _ & Hv & _) Hm. rewrite Hm, Z.land_0_r in Hv. done. Qed.

Lemma land_weaken d m v x :
  (d .& m) = v -> (m .& x) = x -> (d .& x) = (v .& (m .& x)).
Proof.
  intros <- H. rewrite H. by rewrite <- Z.land_assoc, H.
Qed.

(** Use the equality of the two offsets that the guards establish. *)
Ltac same_offset :=
  match goal with H : offset _ = offset _ |- _ => rewrite H in * end.

(** ** Soundness of the four implications on the data word

    [known_length] only matters for packets that are too short for a test. *)
Section sound.
Context (d : Z -> Z).

Lemma wtest_zero e : insn_ok e -> mask e = 0 -> wtest d e = true.
Proof.
  intros Hok Hm. unfold wtest. rewrite (insn_ok_zero _ Hok Hm), Hm, Z.land_0_r. done.
Qed.

Lemma implies_sound e x kl :
  insn_ok x -> implies e x kl = true -> wtest d e = true -> wtest d x = true.
Proof.
  intros Hx Hi He. unfold implies in Hi.
  destruct (Z.eqb_spec (mask x) 0); [by apply wtest_zero|].
  destruct (_ || _) eqn:Hg; [done|]. unfold wtest in *. bprop.
  apply Z.eqb_eq. same_offset. erewrite land_weaken by eassumption. done.
Qed.

Lemma implies_not_sound e x kl :
  implies_not e x kl = true -> wtest d e = true -> wtest d x = false.
Proof.
  intros Hi He. unfold implies_not in Hi.
  destruct (_ || _) eqn:Hg; [done|]. unfold wtest in *. bprop.
  apply Z.eqb_neq. same_offset. erewrite land_weaken by eassumption. done.
Qed.

Lemma not_implies_sound e x kl :
  insn_ok e -> insn_ok x -> not_implies e x kl = true ->
  wtest d e = false -> wtest d x = true.
Proof.
  intros (_ & He1 & He2 & _) Hx Hi He. pose proof Hx as (_ & _ & Hx2 & _).
  unfold not_implies in Hi.
  destruct (Z.eqb_spec (mask x) 0); [by apply wtest_zero|].
  destruct (_ || _) eqn:Hg; [done|]. unfold wtest in *. bprop.
  apply Z.eqb_eq. same_offset.
  assert (mask x = mask e) as Hm by done. rewrite Hm in *.
  destruct (submask_single (mask e) (d (offset e) .& mask e)) as [Hd|Hd];
    [done|done|by rewrite <- Z.land_assoc, Z.land_diag|..];
    destruct (submask_single (mask e) (value e)) as [Hv|Hv]; try done;
    destruct (submask_single (mask e) (value x)) as [Hw|Hw]; congruence.
Qed.

Lemma not_implies_not_sound e x kl :
  insn_ok e -> not_implies_not e x kl = true ->
  wtest d e = false -> wtest d x = false.
Proof.
  intros Hok Hi He. unfold not_implies_not in Hi.
  destruct (Z.eqb_spec (mask e) 0) as [Hz|].
  { by rewrite wtest_zero in He. }
  destruct (_ || _) eqn:Hg; [done|]. unfold wtest in *. bprop.
  apply Z.eqb_neq. same_offset. intros Hd.
  match goal with H : (_ .& mask e) <> value e |- _ => apply H end.
  erewrite land_weaken; [|exact Hd|by rewrite Z.land_comm].
  by rewrite (Z.land_comm (mask x)).
Qed.

(** Flipping a single-bit test negates it. *)
Lemma wtest_flip e : insn_ok e -> flippable e = true -> wtest d (flip e) = negb (wtest d e).
Proof.
  intros (_ & He1 & He2 & _) Hf. unfold flippable in Hf.
  destruct (Z.eqb_spec (mask e) 0) as [|Hm]; [done|]. bprop. unfold wtest, flip. simpl.
  assert (Hx : mask e .^ mask e = 0) by apply Z.lxor_nilpotent.
  destruct (submask_single (mask e) (d (offset e) .& mask e)) as [Hd|Hd];
    [done|done|by rewrite <- Z.land_assoc, Z.land_diag|..];
    destruct (submask_single (mask e) (value e)) as [Hv|Hv]; try done;
    rewrite Hd, Hv, ?Z.lxor_0_l, ?Hx;
    repeat match goal with |- context [?a =? ?b] => destruct (Z.eqb_spec a b) end; try done; lia.
Qed.
End sound.

Lemma insn_ok_flip e : insn_ok e -> insn_ok (flip e).
Proof.
  intros (H1 & H2 & H3 & H4). unfold insn_ok; simpl.
  split; [done|]. split; [done|]. split; [|done].
  apply Z.bits_inj'. intros n Hn. rewrite Z.land_spec, Z.lxor_spec.
  rewrite <- H3, Z.land_spec. by destruct (Z.testbit (value e) n), (Z.testbit (mask e) n).
Qed.

Lemma insn_ok_set_jmp e k dst : insn_ok (set_jmp e k dst) <-> insn_ok e.
Proof. by destruct k. Qed.

Lemma same_test_set_jmp e k dst : same_test (set_jmp e k dst) e.
Proof. by destruct k. Qed.

Lemma same_test_wtest d e x : same_test e x -> wtest d e = wtest d x.
Proof. unfold same_test, wtest. intros (-> & _ & -> & ->). done. Qed.

Lemma same_test_checked al p e x :
  same_test e x -> checked_outcome al p e = checked_outcome al p x.
Proof.
  intros Hs. pose proof Hs as (Ho & Hsh & Hm & Hv).
  unfold checked_outcome, fast_outcome, mask_c.
  by rewrite Ho, Hsh, Hm, (same_test_wtest _ _ _ Hs).
Qed.

Lemma jmp_set_jmp_eq e k dst : jmp (set_jmp e k dst) k = dst.
Proof. by destruct k. Qed.

Lemma jmp_set_jmp_ne e k dst : jmp (set_jmp e k dst) (negb k) = jmp e (negb k).
Proof. by destruct k. Qed.

Lemma jmp_set_jmp e k k' dst :
  jmp (set_jmp e k dst) k' = if Bool.eqb k k' then dst else jmp e k'.
Proof. by destruct k, k'. Qed.
