(* ===== verification/Program.v ===== *)
(** * Wordwise programs

    [Classification::Wordwise::Program] of elements/standard/classification.{hh,cc}:
    the instruction vector, the operations that build it subtree by subtree,
    and the two interpreters of [match]. *)

From S2P Require Import Prelude Packet Insn.

Record Program := mkProgram {
  insns : list Insn;             (** [_insn] *)
  output_everything : Z;         (** [_output_everything] *)
  safe_length : Z;               (** [_safe_length], unsigned *)
  align_offset : Z               (** [_align_offset], unsigned *)
}.

Definition new_program (align : Z) : Program := mkProgram [] (- j_never) (u32 (-1)) align.

Definition ninsn (P : Program) : Z := vlen (insns P).
Definition insn_at (P : Program) (i : Z) : Insn := vget (insns P) i.
Definition with_insns (P : Program) (l : list Insn) : Program :=
  mkProgram l (output_everything P) (safe_length P) (align_offset P).

(** ** Configuration: subtrees

    [tree[0]] is the current nesting level and [tree[i + 1]] the level of the
    subtree that starts at instruction [i], or [-1]. *)

Definition init_subtree (P : Program) : list Z :=
  vset (replicate (S (length (insns P))) (-1)) 0 0.

Definition start_subtree (tree : list Z) : list Z := vset tree 0 (vget tree 0 + 1).

Definition add_insn (P : Program) (tree : list Z) (off value mask : Z) : Program * list Z :=
  (mkProgram (vpush (insns P) (new_insn off value mask j_failure j_success false))
             (-1) (safe_length P) (align_offset P),
   vpush tree (vget tree 0)).

(** The two jumps of one instruction, as [redirect_subtree] changes them. *)
Definition redirect_jump (success failure j : Z) : Z :=
  if j =? j_success then success else if j =? j_failure then failure else j.

Definition redirect_insn (success failure : Z) (e : Insn) : Insn :=
  mkInsn (offset e) (padding e) (short_output e) (mask e) (value e)
         (redirect_jump success failure (j_no e)) (redirect_jump success failure (j_yes e)).

Definition redirect_subtree (first last success failure : Z) (l : list Insn) : list Insn :=
  for_up first last (fun i l => vset l i (redirect_insn success failure (vget l i))) l.

(** Move backward to the parent subtree. *)
Fixpoint parent_ptr (tree : list Z) (level : Z) (ptr : nat) : nat :=
  match ptr with
  | O => O
  | S ptr' =>
      if (vget tree (Z.of_nat ptr) <? 0) || (level <=? vget tree (Z.of_nat ptr))
      then parent_ptr tree level ptr' else ptr
  end.

(** Collect the child subtrees: the instruction each one starts at. *)
Definition child_subtrees (tree : list Z) (level n : Z) : list Z :=
  let ptr := Z.of_nat (parent_ptr tree level (Z.to_nat n)) in
  map (fun q => q - 1) (filter (fun q => vget tree q = level) (seqZ (ptr + 1) (n - ptr))).

Fixpoint combine_subtrees (op : Combiner) (success failure n : Z)
    (subtrees : list Z) (l : list Insn) : list Insn :=
  match subtrees with
  | [] => l
  | [first] => redirect_subtree first n success failure l
  | first :: ((next :: rest) as tl) =>
      match op with
      | c_and => combine_subtrees op success failure n tl
                   (redirect_subtree first next next failure l)
      | c_or => combine_subtrees op success failure n tl
                  (redirect_subtree first next success next l)
      | c_ternary =>
          match rest with
          | next2 :: _ =>
              combine_subtrees op success failure n rest
                (redirect_subtree next next2 success failure
                   (redirect_subtree first next next next2 l))
          | [] => combine_subtrees op success failure n tl
                    (redirect_subtree first next next failure l)
          end
      end
  end.

Definition finish_subtree (P : Program) (tree : list Z) (op : Combiner)
    (success failure : Z) : Program * list Z :=
  let level := vget tree 0 in
  let n := ninsn P in
  let subtrees := child_subtrees tree level n in
  match subtrees with
  | [] => (P, vset tree 0 (level - 1))
  | s0 :: _ =>
      let tree := vset tree (s0 + 1) (level - 1) in
      let tree := for_up (s0 + 2) (n + 1) (fun e t => vset t e (-1)) tree in
      (with_insns P (combine_subtrees op success failure n subtrees (insns P)),
       vset tree 0 (level - 1))
  end.

Fixpoint last_subtree (tree : list Z) (level : Z) (first : nat) : option Z :=
  match first with
  | O => None
  | S first' => if vget tree (Z.of_nat first) =? level then Some (Z.of_nat first')
                else last_subtree tree level first'
  end.

Definition negate_jump (j : Z) : Z :=
  if j =? j_failure then j_success else if j =? j_success then j_failure else j.

Definition negate_insn (flip_short : bool) (e : Insn) : Insn :=
  mkInsn (offset e) (padding e) (if flip_short then negb (short_output e) else short_output e)
         (mask e) (value e) (negate_jump (j_no e)) (negate_jump (j_yes e)).

Definition negate_subtree (P : Program) (tree : list Z) (flip_short : bool) : Program :=
  let n := ninsn P in
  match last_subtree tree (vget tree 0) (Z.to_nat n) with
  | None => P
  | Some first =>
      with_insns P
        (for_up first n (fun i l => vset l i (negate_insn flip_short (vget l i))) (insns P))
  end.

(** ** Joining programs *)

Definition set_failure_jump (failure j : Z) : Z := if j =? j_failure then failure else j.

Definition set_failure (P : Program) (failure : Z) : Program :=
  mkProgram
    (map (fun e => mkInsn (offset e) (padding e) (short_output e) (mask e) (value e)
                     (set_failure_jump failure (j_no e)) (set_failure_jump failure (j_yes e)))
         (insns P))
    (if output_everything P =? - j_failure then - failure else output_everything P)
    (safe_length P) (align_offset P).

Definition add_or_program (P next_program : Program) : Program :=
  if (output_everything P <? 0) || (output_everything P =? - j_failure) then
    let failure := - output_everything next_program in
    let failure := if 0 <? failure then ninsn P else failure in
    let P := set_failure P failure in
    with_insns P (insns P ++ map (fun e => offset_by e (ninsn P)) (insns next_program))
  else P.

(** ** Running

    [exec] is the [do ... while (pos > 0)] loop of both interpreters; the
    instruction outcome tells which of the two jumps is taken.  Jumps go
    forward, so one unit of fuel per instruction is enough ([exec_total]). *)

Fixpoint exec (fuel : nat) (l : list Insn) (o : Insn -> bool) (pos : Z) : option Z :=
  match fuel with
  | O => None
  | S fuel' =>
      let pos' := jmp (vget l pos) (o (vget l pos)) in
      if 0 <? pos' then exec fuel' l o pos' else Some (- pos')
  end.

Definition length_checked_match (P : Program) (p : packet) : option Z :=
  exec (length (insns P)) (insns P) (checked_outcome (align_offset P) p) 0.

Definition match_ (P : Program) (p : packet) : option Z :=
  if 0 <=? output_everything P then Some (output_everything P)
  else if pkt_length p <? safe_length P then length_checked_match P p
  else exec (length (insns P)) (insns P) (fast_outcome (align_offset P) p) 0.

(** ** Unused outputs *)

Definition mark_used (noutputs : Z) (j : Z) (used : list Z) : list Z :=
  if (j <=? 0) && (- j <? noutputs) then vset used (- j) 1 else used.

(** The outputs [warn_unused_outputs] warns about. *)
Definition warn_unused_outputs (P : Program) (noutputs : Z) : list Z :=
  let used := replicate (Z.to_nat noutputs) 0 in
  let used :=
    if (0 <=? output_everything P) && (output_everything P <? noutputs)
    then vset used (output_everything P) 1
    else fold_left (fun used e => mark_used noutputs (j_yes e) (mark_used noutputs (j_no e) used))
           (insns P) used in
  filter (fun i => vget used i = 0) (seqZ 0 noutputs).

(** ** Runs as a relation *)

Inductive Runs (l : list Insn) (o : Insn -> bool) : Z -> Z -> Prop :=
| Runs_out pos r :
    0 <= pos < vlen l -> jmp (vget l pos) (o (vget l pos)) = - r -> - r <= 0 ->
    Runs l o pos r
| Runs_step pos pos' r :
    0 <= pos < vlen l -> jmp (vget l pos) (o (vget l pos)) = pos' -> 0 < pos' ->
    Runs l o pos' r -> Runs l o pos r.

(** Jumps go forward and stay inside the program. *)
Definition fwd (l : list Insn) : Prop :=
  forall i k, 0 <= i < vlen l -> jmp (vget l i) k <= 0 \/ i < jmp (vget l i) k < vlen l.

Definition fwdb (l : list Insn) : bool :=
  forallb (fun i => forallb (fun k => (jmp (vget l i) k <=? 0)
                       || ((i <? jmp (vget l i) k) && (jmp (vget l i) k <? vlen l)))
                     [true; false])
          (seqZ 0 (vlen l)).

(** States the run for outcome [o] goes through. *)
Inductive Visits (l : list Insn) (o : Insn -> bool) : Z -> Prop :=
| Visits_start : 0 < vlen l -> Visits l o 0
| Visits_step pos pos' :
    Visits l o pos -> jmp (vget l pos) (o (vget l pos)) = pos' -> 0 < pos' ->
    Visits l o pos'.

(** An outcome function that looks only at the test. *)
Definition test_outcome (o : Insn -> bool) : Prop :=
  forall e x, same_test e x -> o e = o x.

(** ** Facts about runs *)

Section runs.
Context (l : list Insn) (o : Insn -> bool).

Lemma Runs_det pos r r' : Runs l o pos r -> Runs l o pos r' -> r = r'.
Proof.
  intros H. revert r'. induction H as [pos r Hp Hj Hr|pos pos' r Hp Hj Hlt H IH];
    intros r' H'; inversion H'; subst; try lia; eauto.
Qed.

Lemma Runs_next pos r :
  0 < jmp (vget l pos) (o (vget l pos)) ->
  Runs l o pos r -> Runs l o (jmp (vget l pos) (o (vget l pos))) r.
Proof. intros Hlt H. inversion H; subst; [lia|done]. Qed.

Lemma exec_Runs fuel pos r :
  fwd l -> 0 <= pos < vlen l -> exec fuel l o pos = Some r -> Runs l o pos r.
Proof.
  intros Hf. revert pos. induction fuel as [|fuel IH]; intros pos Hp; simpl; [done|].
  pose proof (Hf pos (o (vget l pos)) Hp) as Hj.
  destruct (Z.ltb_spec 0 (jmp (vget l pos) (o (vget l pos)))) as [Hlt|Hge].
  - intros H. eapply Runs_step; [done|reflexivity|done|]. apply IH; [lia|done].
  - intros [= <-]. apply Runs_out; [done|lia|lia].
Qed.

Lemma Runs_range pos r : Runs l o pos r -> 0 <= pos < vlen l.
Proof. by inversion 1. Qed.

Lemma Runs_exec fuel pos r :
  fwd l -> Runs l o pos r -> vlen l - pos <= Z.of_nat fuel -> exec fuel l o pos = Some r.
Proof.
  intros Hf H. revert fuel.
  induction H as [pos r Hp Hj Hr|pos pos' r Hp Hj Hlt H IH]; intros fuel Hfuel;
    destruct fuel as [|fuel]; try lia; simpl; rewrite Hj.
  - destruct (Z.ltb_spec 0 (- r)); [lia|]. f_equal. lia.
  - destruct (Z.ltb_spec 0 pos'); [|lia]. apply IH.
    pose proof (Hf pos (o (vget l pos)) Hp). lia.
Qed.

Lemma Runs_total pos : fwd l -> 0 <= pos < vlen l -> exists r, Runs l o pos r.
Proof.
  intros Hf. remember (Z.to_nat (vlen l - pos)) as n eqn:Hn.
  revert pos Hn. induction n as [n IH] using lt_wf_ind. intros pos Hn Hp.
  pose proof (Hf pos (o (vget l pos)) Hp) as [Hj|Hj].
  - exists (- jmp (vget l pos) (o (vget l pos))). apply Runs_out; [done|lia|lia].
  - destruct (IH (Z.to_nat (vlen l - jmp (vget l pos) (o (vget l pos))))
                ltac:(lia) _ eq_refl ltac:(lia)) as [r Hr].
    exists r. eapply Runs_step; [done|reflexivity|lia|done].
Qed.

(** The loop of [match] terminates: the fuel is never exhausted. *)
Lemma exec_total : fwd l -> 0 < vlen l -> exists r, exec (length l) l o 0 = Some r.
Proof.
  intros Hf Hl. destruct (Runs_total 0 Hf ltac:(lia)) as [r Hr].
  exists r. apply Runs_exec; [done|done|]. unfold vlen. lia.
Qed.

Lemma exec_iff r :
  fwd l -> 0 < vlen l -> exec (length l) l o 0 = Some r <-> Runs l o 0 r.
Proof.
  intros Hf Hl. split; intros H.
  - eapply exec_Runs; eauto. lia.
  - apply Runs_exec; [done|done|]. unfold vlen. lia.
Qed.

Lemma Visits_range pos : fwd l -> Visits l o pos -> 0 <= pos < vlen l.
Proof.
  intros Hf. induction 1 as [|pos pos' Hv IH Hj Hlt]; [lia|].
  pose proof (Hf pos (o (vget l pos)) IH). lia.
Qed.

(** Every visited state ends at the same output as the whole run. *)
Lemma Visits_Runs pos r : Visits l o pos -> Runs l o 0 r -> Runs l o pos r.
Proof.
  induction 1 as [|pos pos' Hv IH Hj Hlt]; [done|]. intros H.
  specialize (IH H). subst pos'. by apply Runs_next.
Qed.

Lemma Visits_pred pos :
  Visits l o pos -> 0 < pos ->
  exists q, Visits l o q /\ jmp (vget l q) (o (vget l q)) = pos.
Proof. inversion 1; subst; [lia|]. eauto. Qed.
End runs.

Lemma fwdb_fwd l : fwdb l = true -> fwd l.
Proof.
  unfold fwdb. rewrite forallb_forall. intros H i k Hi.
  specialize (H i). rewrite forallb_forall in H.
  assert (Hin : In i (seqZ 0 (vlen l))) by (apply list_elem_of_In, elem_of_seqZ; lia).
  specialize (H Hin k ltac:(destruct k; simpl; auto)).
  apply orb_true_iff in H as [H|H]; bprop; lia.
Qed.

(** Two instruction vectors with the same outcomes and jumps run alike. *)
Lemma exec_ext fuel l l' o o' pos :
  (forall i k, 0 <= i -> jmp (vget l i) k = jmp (vget l' i) k) ->
  (forall i, 0 <= i -> o (vget l i) = o' (vget l' i)) ->
  0 <= pos -> exec fuel l o pos = exec fuel l' o' pos.
Proof.
  intros Hj Ho. revert pos. induction fuel as [|fuel IH]; intros pos Hp; simpl; [done|].
  rewrite Ho, Hj by done. destruct (Z.ltb_spec 0 (jmp (vget l' pos) (o' (vget l' pos)))); [|done].
  apply IH. lia.
Qed.

Lemma fast_test_outcome al p : test_outcome (fast_outcome al p).
Proof. intros e x Hs. by apply same_test_wtest. Qed.

Lemma checked_test_outcome al p : test_outcome (checked_outcome al p).
Proof. intros e x Hs. by apply same_test_checked. Qed.

#[export] Hint Resolve fast_test_outcome checked_test_outcome : click.

(** ** The two interpreters agree, and read only packet bytes *)

(** No mask byte of the instruction lies before [p->data()]. *)
Definition low_ok (align : Z) (e : Insn) : Prop :=
  forall k, 0 <= k < 4 -> mask_c e k <> 0 -> align <= offset e + k.

(** The mask byte [k] keeps a packet byte only where it is nonzero. *)
Lemma mask_c_zero_bit e k n :
  0 <= k -> 0 <= n < 8 -> mask_c e k = 0 -> Z.testbit (mask e) (8 * k + n) = false.
Proof.
  intros Hk Hn Hz. pose proof (byte_of_testbit (mask e) k n Hk ltac:(lia)) as Hb.
  unfold mask_c in Hz. rewrite Hz, Z.bits_0 in Hb.
  destruct (Z.ltb_spec n 8); [|lia]. simpl in Hb. done.
Qed.

Lemma masked_word_eq al p q e :
  pkt_ok p -> pkt_ok q -> insn_ok e ->
  (forall k, 0 <= k < 4 -> mask_c e k <> 0 ->
     pkt_byte p (offset e + k - al) = pkt_byte q (offset e + k - al)) ->
  fast_outcome al p e = fast_outcome al q e.
Proof.
  intros Hp Hq (_ & Hm & _ & _) Hb. unfold fast_outcome, wtest. f_equal.
  apply Z.bits_inj'. intros n Hn. rewrite !Z.land_spec.
  destruct (Z.ltb_spec n 32) as [Hn32|Hn32].
  2:{ assert (Z.testbit (mask e) n = false) as ->; [|by rewrite !andb_false_r].
      destruct (decide (mask e = 0)) as [->|]; [apply Z.bits_0|].
      apply Z.bits_above_log2; [lia|].
      assert (Z.log2 (mask e) < 32) by (apply Z.log2_lt_pow2; lia). lia. }
  set (k := n / 8). assert (Hk : 0 <= k < 4) by (subst k; split; [apply Z.div_pos; lia|apply Z.div_lt_upper_bound; lia]).
  assert (Hnk : n = 8 * k + n mod 8) by (subst k; apply Z.div_mod; lia).
  pose proof (Z.mod_pos_bound n 8 ltac:(lia)) as Hr.
  destruct (decide (mask_c e k = 0)) as [Hz|Hz].
  { rewrite Hnk, (mask_c_zero_bit e k (n mod 8)) by lia. by rewrite !andb_false_r. }
  specialize (Hb k Hk Hz). f_equal. unfold pkt_word.
  rewrite !le32_testbit by (try apply pkt_byte_range; done).
  assert (k = 0 \/ k = 1 \/ k = 2 \/ k = 3) as Hc by lia.
  destruct (Z.ltb_spec n 8); [|destruct (Z.ltb_spec n 16); [|destruct (Z.ltb_spec n 24)]];
    [assert (k = 0) as Hk0 by lia|assert (k = 1) as Hk0 by lia|assert (k = 2) as Hk0 by lia
    |assert (k = 3) as Hk0 by lia]; rewrite Hk0 in Hb.
  - by rewrite Z.add_0_r in Hb; rewrite Hb.
  - replace (offset e - al + 1) with (offset e + 1 - al) by lia. by rewrite Hb.
  - replace (offset e - al + 2) with (offset e + 2 - al) by lia. by rewrite Hb.
  - replace (offset e - al + 3) with (offset e + 3 - al) by lia. by rewrite Hb.
Qed.

Lemma required_length_covers e k :
  insn_ok e -> 0 <= k < 4 -> mask_c e k <> 0 -> offset e + k < required_length e.
Proof.
  intros Hok Hk Hz. unfold required_length.
  destruct (Z.eqb_spec (mask e) 0) as [Hm|_].
  { exfalso. apply Hz. unfold mask_c, byte_of. by rewrite Hm, Z.shiftr_0_l, Z.land_0_l. }
  assert (k = 0 \/ k = 1 \/ k = 2 \/ k = 3) as [-> | [-> | [-> | ->]]] by lia;
    destruct (Z.eqb_spec (mask_c e 3) 0), (Z.eqb_spec (mask_c e 2) 0),
      (Z.eqb_spec (mask_c e 1) 0); cbn [negb]; done || lia.
Qed.

(** A test whose bytes are all there: the checked interpreter runs it unchecked. *)
Lemma checked_long al p e :
  0 <= al -> pkt_length p + al < 2147483648 -> mask e <> 0 ->
  required_length e <= pkt_length p + al ->
  checked_outcome al p e = fast_outcome al p e.
Proof.
  intros Hal Hlen Hm Hr. unfold checked_outcome.
  assert (Hnn : 0 <= pkt_length p) by apply vlen_nonneg.
  rewrite i32_small by lia. destruct (Z.ltb_spec (pkt_length p + al) (offset e + 4)); [|reflexivity].
  unfold required_length in Hr. destruct (Z.eqb_spec (mask e) 0); [lia|].
  destruct (Z.eqb_spec (mask_c e 3) 0); cbn [negb andb orb] in *; [|lia].
  destruct (Z.ltb_spec (offset e) (pkt_length p + al)); cbn [negb andb orb].
  2:{ repeat case_match; lia. }
  destruct (Z.eqb_spec (mask_c e 2) 0); cbn [negb andb orb] in *.
  - destruct (Z.eqb_spec (mask_c e 1) 0); cbn [negb andb orb] in *; [reflexivity|].
    destruct (Z.eqb_spec (pkt_length p + al - offset e) 1); [lia|reflexivity].
  - destruct (Z.leb_spec (pkt_length p + al - offset e) 2); cbn [negb andb orb]; [lia|].
    destruct (Z.eqb_spec (pkt_length p + al - offset e) 1); [lia|].
    rewrite andb_false_r. reflexivity.
Qed.

(** A test with a missing byte answers [short_output]. *)
Lemma checked_short al p e :
  0 <= al -> pkt_length p + al < 2147483648 -> pkt_length p + al < required_length e ->
  checked_outcome al p e = short_output e.
Proof.
  intros Hal Hlen Hr. unfold checked_outcome.
  assert (Hnn : 0 <= pkt_length p) by apply vlen_nonneg.
  rewrite i32_small by lia. unfold required_length in Hr.
  destruct (Z.eqb_spec (mask e) 0); [lia|].
  destruct (Z.ltb_spec (pkt_length p + al) (offset e + 4)).
  2:{ repeat case_match; lia. }
  destruct (Z.ltb_spec (offset e) (pkt_length p + al)); [|reflexivity].
  destruct (Z.eqb_spec (mask_c e 3) 0); cbn [negb andb orb] in *; [|reflexivity].
  destruct (Z.eqb_spec (mask_c e 2) 0); cbn [negb andb orb] in *.
  - destruct (Z.eqb_spec (mask_c e 1) 0); cbn [negb andb orb] in *; [lia|].
    destruct (Z.eqb_spec (pkt_length p + al - offset e) 1); [reflexivity|lia].
  - destruct (Z.leb_spec (pkt_length p + al - offset e) 2); [reflexivity|lia].
Qed.

Lemma checked_same al p q e :
  0 <= al -> pkt_length p + al < 2147483648 -> insn_ok e -> low_ok al e ->
  pkt_ok p -> pkt_ok q -> same_contents p q ->
  checked_outcome al p e = checked_outcome al q e.
Proof.
  intros Hal Hlen Hok Hlow Hp Hq Hs.
  assert (Hl : pkt_length p = pkt_length q) by (unfold pkt_length; by rewrite Hs).
  destruct (Z.ltb_spec (pkt_length p + al) (required_length e)) as [Hr|Hr].
  { rewrite !checked_short; rewrite <- ?Hl; done. }
  assert (fast_outcome al p e = fast_outcome al q e) as Hf.
  { apply masked_word_eq; [done..|]. intros k Hk Hz. apply pkt_byte_same; [done|].
    pose proof (required_length_covers e k Hok Hk Hz). specialize (Hlow k Hk Hz). lia. }
  destruct (decide (mask e = 0)) as [Hm|Hm].
  2:{ rewrite !checked_long; rewrite <- ?Hl; done. }
  unfold checked_outcome. rewrite <- Hl, Hf. done.
Qed.

(** ** Replacing one instruction *)

(** A jump [t] leads to output [r]. *)
Definition goes (l : list Insn) (o : Insn -> bool) (t r : Z) : Prop :=
  (t <= 0 /\ r = - t) \/ (0 < t /\ Runs l o t r).

Lemma Runs_unfold l o s r :
  0 <= s < vlen l -> Runs l o s r <-> goes l o (jmp (vget l s) (o (vget l s))) r.
Proof.
  intros Hs. split.
  - inversion 1; subst; [left|right]; split; try done; lia.
  - intros [[H1 ->]|[H1 H2]];
      [apply Runs_out; [done|lia|lia]|eapply Runs_step; [done|reflexivity|done|done]].
Qed.

Lemma goes_det l o t r r' : goes l o t r -> goes l o t r' -> r = r'.
Proof. intros [[? ->]|[? H]] [[? ->]|[? H']]; try lia. by eapply Runs_det. Qed.

Lemma fwd_vset l i e :
  fwd l -> 0 <= i < vlen l -> (forall k, jmp e k <= 0 \/ i < jmp e k < vlen l) -> fwd (vset l i e).
Proof.
  intros Hf Hi He s k. rewrite vlen_vset. intros Hs. rewrite vget_vset by lia.
  case_decide as Hd; [destruct Hd as [<- _]; apply He|by apply Hf].
Qed.

Lemma Runs_vset l o i e :
  fwd l -> 0 <= i < vlen l -> (forall k, jmp e k <= 0 \/ i < jmp e k < vlen l) ->
  (forall r, Runs l o i r -> goes l o (jmp e (o e)) r) ->
  forall s r, Runs l o s r -> Runs (vset l i e) o s r.
Proof.
  intros Hf Hi He Hgo s. remember (Z.to_nat (vlen l - s)) as n eqn:Hn. revert s Hn.
  induction n as [n IH] using lt_wf_ind. intros s Hn r H.
  pose proof (Runs_range _ _ _ _ H) as Hs.
  apply Runs_unfold; [by rewrite vlen_vset|].
  assert (Hlift : forall t, t <= 0 \/ s < t < vlen l -> goes l o t r -> goes (vset l i e) o t r).
  { intros t Ht [?|[Hpos HR]]; [by left|right]. split; [done|].
    eapply IH; [|reflexivity|done]. lia. }
  rewrite vget_vset by lia. case_decide as Hd.
  - destruct Hd as [<- _]. apply Hlift; [apply He|]. by apply Hgo.
  - apply Hlift; [by apply Hf|]. by apply Runs_unfold.
Qed.

(** All instructions of a vector satisfy [P]. *)
Definition all_insns (P : Insn -> Prop) (l : list Insn) : Prop :=
  forall i, 0 <= i < vlen l -> P (vget l i).

Lemma all_insns_vset P l i e : 0 <= i -> all_insns P l -> P e -> all_insns P (vset l i e).
Proof.
  intros Hi Hl He s. rewrite vlen_vset. intros Hs. rewrite vget_vset by lia.
  case_decide; [done|by apply Hl].
Qed.
