(* ===== verification/BubbleSort.v ===== *)
(** * Sorting [and] expressions

    [Program::count_inbranches], [map_offset], [hard_map_offset] and
    [bubble_sort_and_exprs] of elements/standard/classification.cc.  The pass
    swaps the tests of two instructions that form a conjunction (or a
    disjunction) when they are out of order.

    Theorems: the pass terminates within the fuel given here and no packet,
    long or short, changes its output; the binary search of the offset map
    gives up on every key to the left of the middle. *)

From S2P Require Import Prelude Packet Insn Program.

(** ** Counting incoming branches *)

Definition count_inbranch (i : Z) (l : list Insn) (k : bool) (ib : list Z) : list Z :=
  let j := jmp (vget l i) k in
  if 0 <? j then vset ib j (if 0 <=? vget ib j then 0 else i) else ib.

Definition count_inbranches (l : list Insn) : list Z :=
  for_up 0 (vlen l)
    (fun i ib => count_inbranch i l true (count_inbranch i l false ib))
    (replicate (length l) (-1)).

(** ** Offset maps

    The map is an array of (offset, mapped offset) pairs between two pointers;
    [lo] and [hi] are the pair indices of [begin] and [end]. *)

Fixpoint hard_map_offset (fuel : nat) (off : Z) (m : list (Z * Z)) (lo hi : Z) : option Z :=
  match fuel with
  | O => None
  | S fuel' =>
      if lo =? hi then Some off
      else
        let mid := lo + (hi - lo) / 2 in
        if fst (vget m mid) =? off then Some (snd (vget m mid))
        else if fst (vget m mid) <? off then hard_map_offset fuel' off m (mid + 1) hi
        else hard_map_offset fuel' off m lo lo
  end.

Definition map_offset (off : Z) (m : list (Z * Z)) : Z :=
  if (vlen m =? 0) || (off <? fst (vget m 0)) || (fst (vget m (vlen m - 1)) <? off)
  then off
  else default off (hard_map_offset (S (length m)) off m 0 (vlen m)).

(** ** The sort *)

(** [e1] must come after [e2]. *)
Definition out_of_order (m : list (Z * Z)) (e1 e2 : Insn) : bool :=
  let o1 := map_offset (offset e1) m in
  let o2 := map_offset (offset e2) m in
  (o2 <? o1)
  || ((o1 =? o2)
      && ((ntohl (mask e2) <? ntohl (mask e1))
          || ((mask e1 =? mask e2) && (ntohl (value e2) <? ntohl (value e1))))).

(** The body of the loop over [k], as far as the swap. *)
Definition try_swap (m : list (Z * Z)) (last_offset : Z) (inbranch : list Z)
    (l : list Insn) (i : Z) (k : bool) : option (list Insn) :=
  let e1 := vget l i in
  let j := jmp e1 k in
  if (j <=? 0) || (u32 last_offset <=? offset e1) || (vget inbranch j <=? 0) then None
  else
    let e2 := vget l j in
    if negb (jmp e1 (negb k) =? jmp e2 (negb k)) then None
    else if out_of_order m e1 e2 then
      Some (vset (vset l j (set_jmp e1 k (jmp e2 k))) i (set_jmp e2 k j))
    else None.

(** One iteration at [i], with the index of the next one. *)
Definition bubble_step (m : list (Z * Z)) (last_offset : Z) (inbranch : list Z)
    (l : list Insn) (i : Z) : list Insn * Z :=
  let back := (if 0 <? vget inbranch i then vget inbranch i - 1 else i - 1) + 1 in
  match try_swap m last_offset inbranch l i false with
  | Some l' => (l', back)
  | None =>
      match try_swap m last_offset inbranch l i true with
      | Some l' => (l', back)
      | None => (l, i + 1)
      end
  end.

Fixpoint bubble_loop (fuel : nat) (m : list (Z * Z)) (last_offset : Z) (inbranch : list Z)
    (l : list Insn) (i : Z) : option (list Insn) :=
  match fuel with
  | O => None
  | S fuel' =>
      if i <? vlen l then
        let '(l', i') := bubble_step m last_offset inbranch l i in
        bubble_loop fuel' m last_offset inbranch l' i'
      else Some l
  end.

(** Fuel: at most [n^3] swaps, and at most [n] steps between two of them. *)
Definition bubble_fuel (n : nat) : nat := S ((n * n * n + 1) * (n + 1)).

Definition bubble_sort_and_exprs (m : list (Z * Z)) (last_offset : Z) (l : list Insn)
    : option (list Insn) :=
  bubble_loop (bubble_fuel (length l)) m last_offset (count_inbranches l) l 0.

(** ** [count_inbranches] finds the states with one incoming branch *)

(** What the counters say after the branches in [D] were counted. *)
Definition inbranch_inv (l : list Insn) (D : Z -> bool -> Prop) (ib : list Z) : Prop :=
  vlen ib = vlen l /\ forall j, 0 < j < vlen l ->
    (vget ib j < 0 -> forall s b, D s b -> jmp (vget l s) b <> j)
    /\ (0 < vget ib j ->
        exists b, D (vget ib j) b /\ jmp (vget l (vget ib j)) b = j
        /\ forall s' b', D s' b' -> jmp (vget l s') b' = j -> s' = vget ib j /\ b' = b).

Lemma inbranch_inv_ext l D D' ib :
  (forall s b, D s b <-> D' s b) -> inbranch_inv l D ib -> inbranch_inv l D' ib.
Proof.
  intros HD [Hl H]. split; [done|]. intros j Hj. destruct (H j Hj) as [H1 H2].
  setoid_rewrite <- HD. done.
Qed.

Lemma count_inbranch_inv l D i k ib :
  fwd l -> 0 <= i < vlen l -> inbranch_inv l D ib ->
  inbranch_inv l (fun s b => D s b \/ (s = i /\ b = k)) (count_inbranch i l k ib).
Proof.
  intros Hf Hi [Hl H]. unfold count_inbranch. pose proof (Hf i k Hi) as Hj.
  destruct (Z.ltb_spec 0 (jmp (vget l i) k)) as [Hpos|Hneg].
  - split; [by rewrite vlen_vset|]. intros j Hjr. destruct (H j Hjr) as [H1 H2].
    rewrite vget_vset by lia. case_decide as Hd.
    + destruct Hd as [Hd _]. rewrite Hd in *.
      destruct (Z.leb_spec 0 (vget ib j)); [split; lia|]. split; [lia|]. intros Hi0.
      exists k. split; [by right|]. split; [done|].
      intros s' b' [HD|[-> ->]] Hs; [|done]. exfalso. by apply (H1 ltac:(lia) s' b').
    + assert (jmp (vget l i) k <> j) as Hne by (intros <-; apply Hd; lia). split.
      * intros Hlt s b [HD|[-> ->]]; [by apply H1|done].
      * intros Hgt. destruct (H2 Hgt) as (b & Hb1 & Hb2 & Hb3). exists b.
        split; [by left|]. split; [done|]. intros s' b' [HD|[-> ->]] Hs; [by apply Hb3|done].
  - split; [done|]. intros j Hjr. destruct (H j Hjr) as [H1 H2]. split.
    + intros Hlt s b [HD|[-> ->]]; [by apply H1|lia].
    + intros Hgt. destruct (H2 Hgt) as (b & Hb1 & Hb2 & Hb3). exists b.
      split; [by left|]. split; [done|]. intros s' b' [HD|[-> ->]] Hs; [by apply Hb3|lia].
Qed.

Lemma count_inbranches_inv l :
  fwd l -> inbranch_inv l (fun s _ => 0 <= s < vlen l) (count_inbranches l).
Proof.
  intros Hf. unfold count_inbranches.
  apply (for_up_inv (fun m ib => inbranch_inv l (fun s _ => 0 <= s < m) ib)).
  - apply vlen_nonneg.
  - split; [unfold vlen; by rewrite length_replicate|]. intros j Hj.
    rewrite (vget_lookup _ j (-1)) by (try apply lookup_replicate; unfold vlen in *; lia).
    split; [|lia]. intros _ s b Hs. lia.
  - intros i ib Hi Hinv. eapply inbranch_inv_ext;
      [|apply count_inbranch_inv, count_inbranch_inv; eauto].
    intros s b. simpl. destruct b; intuition lia.
Qed.

(** A positive counter names the only branch into the state. *)
Lemma single_inbranch l i k :
  fwd l -> 0 <= i < vlen l -> 0 < jmp (vget l i) k ->
  0 < vget (count_inbranches l) (jmp (vget l i) k) ->
  forall s b, 0 <= s < vlen l -> jmp (vget l s) b = jmp (vget l i) k -> s = i /\ b = k.
Proof.
  intros Hf Hi Hpos Hib s b Hs Hj. destruct (count_inbranches_inv l Hf) as [_ H].
  destruct (H (jmp (vget l i) k)) as [_ H2]; [pose proof (Hf i k Hi); lia|].
  destruct (H2 Hib) as (b0 & _ & _ & Hb). destruct (Hb s b Hs Hj) as [-> ->].
  destruct (Hb i k Hi eq_refl) as [Hi1 Hi2]. auto.
Qed.

(** ** A swap changes no run *)

Definition same_jumps (l l' : list Insn) : Prop :=
  vlen l = vlen l' /\ forall i k, 0 <= i -> jmp (vget l i) k = jmp (vget l' i) k.

Lemma same_jumps_fwd l l' : same_jumps l l' -> fwd l -> fwd l'.
Proof.
  intros [Hl Hj] Hf i k Hi. rewrite <- Hl in *. rewrite <- Hj by lia. by apply Hf.
Qed.

Lemma same_jumps_trans l1 l2 l3 : same_jumps l1 l2 -> same_jumps l2 l3 -> same_jumps l1 l3.
Proof.
  intros [Ha Hb] [Hc Hd]. split; [congruence|]. intros. by rewrite Hb, Hd.
Qed.

Lemma same_jumps_sym l1 l2 : same_jumps l1 l2 -> same_jumps l2 l1.
Proof. intros [Ha Hb]. split; [done|]. intros. by rewrite Hb. Qed.

(** The data of a swap: [i] jumps to [j] on [k], nothing else does, and both
    go to the same place on the other branch. *)
Record swap_of (l l' : list Insn) (i j : Z) (k : bool) : Prop := {
  swap_i : 0 <= i < vlen l;
  swap_j : i < j < vlen l;
  swap_jump : jmp (vget l i) k = j;
  swap_other : jmp (vget l i) (negb k) = jmp (vget l j) (negb k);
  swap_single : forall s b, 0 <= s < vlen l -> jmp (vget l s) b = j -> s = i /\ b = k;
  swap_result : l' = vset (vset l j (set_jmp (vget l i) k (jmp (vget l j) k))) i
                          (set_jmp (vget l j) k j)
}.

Section swap.
Context (l l' : list Insn) (i j : Z) (k : bool) (Hs : swap_of l l' i j k).

Lemma swap_get_i : vget l' i = set_jmp (vget l j) k j.
Proof. destruct Hs. subst l'. apply vget_vset_eq. rewrite vlen_vset. lia. Qed.

Lemma swap_get_j : vget l' j = set_jmp (vget l i) k (jmp (vget l j) k).
Proof.
  destruct Hs. subst l'. rewrite vget_vset_ne by lia. apply vget_vset_eq. lia.
Qed.

Lemma swap_get_other s : 0 <= s -> s <> i -> s <> j -> vget l' s = vget l s.
Proof. destruct Hs. subst l'. intros. by rewrite !vget_vset_ne by lia. Qed.

Lemma swap_same_jumps : same_jumps l l'.
Proof.
  split; [destruct Hs; subst l'; by rewrite !vlen_vset|]. intros s b Hs0.
  destruct (decide (s = i)) as [->|]; [|destruct (decide (s = j)) as [->|]].
  - rewrite swap_get_i, jmp_set_jmp. destruct Hs as [? ? Hj Ho ? ?].
    destruct k, b; simpl in *; congruence.
  - rewrite swap_get_j, jmp_set_jmp. destruct Hs as [? ? Hj Ho ? ?].
    destruct k, b; simpl in *; congruence.
  - by rewrite swap_get_other.
Qed.

Context (o : Insn -> bool) (Ho : test_outcome o).

Lemma swap_outcome_i : o (vget l' i) = o (vget l j).
Proof. rewrite swap_get_i. apply Ho, same_test_set_jmp. Qed.

Lemma swap_outcome_j : o (vget l' j) = o (vget l i).
Proof. rewrite swap_get_j. apply Ho, same_test_set_jmp. Qed.

(** Where a run goes from [i] once both tests are done. *)
Lemma Runs_pair (l0 : list Insn) r :
  same_jumps l l0 ->
  Runs l0 o i r <->
    (if Bool.eqb (o (vget l0 i)) k && Bool.eqb (o (vget l0 j)) k
     then (jmp (vget l j) k <= 0 /\ r = - jmp (vget l j) k)
          \/ (0 < jmp (vget l j) k /\ Runs l0 o (jmp (vget l j) k) r)
     else (jmp (vget l i) (negb k) <= 0 /\ r = - jmp (vget l i) (negb k))
          \/ (0 < jmp (vget l i) (negb k) /\ Runs l0 o (jmp (vget l i) (negb k)) r)).
Proof.
  intros [Hl Hjm]. destruct Hs as [Hi Hj Hjump Hoth _ _].
  assert (forall s r, 0 <= s < vlen l -> Runs l0 o s r <->
            (jmp (vget l s) (o (vget l0 s)) <= 0 /\ r = - jmp (vget l s) (o (vget l0 s)))
            \/ (0 < jmp (vget l s) (o (vget l0 s)) /\ Runs l0 o (jmp (vget l s) (o (vget l0 s))) r))
    as Hstep.
  { intros s r' Hs'. rewrite !Hjm by lia. split.
    - inversion 1; subst; [left|right]; split; try done; lia.
    - intros [[H1 ->]|[H1 H2]];
        [apply Runs_out; [lia|lia|lia]|eapply Runs_step; [lia|reflexivity|done|done]]. }
  rewrite Hstep by lia.
  destruct (Bool.eqb_spec (o (vget l0 i)) k) as [He|He]; cbn [andb].
  - rewrite He, Hjump. rewrite (Hstep j) by lia.
    destruct (Bool.eqb_spec (o (vget l0 j)) k) as [He2|He2].
    + rewrite He2. intuition lia.
    + replace (o (vget l0 j)) with (negb k) by (destruct (o (vget l0 j)), k; done).
      rewrite <- Hoth. intuition lia.
  - replace (o (vget l0 i)) with (negb k) by (destruct (o (vget l0 i)), k; done). done.
Qed.

Lemma swap_runs pos r :
  fwd l -> 0 <= pos < vlen l -> pos <> j -> Runs l o pos r -> Runs l' o pos r.
Proof.
  intros Hf. remember (Z.to_nat (vlen l - pos)) as n eqn:Hn. revert pos r Hn.
  induction n as [n IH] using lt_wf_ind. intros pos r Hn Hp Hpj H.
  pose proof swap_same_jumps as Hsj. pose proof Hsj as [Hl Hjm].
  destruct (decide (pos = i)) as [->|Hpi].
  - apply (Runs_pair l') ; [done|]. apply (Runs_pair l) in H; [|split; done].
    rewrite swap_outcome_i, swap_outcome_j, andb_comm.
    assert (Hgo : forall s b, (s = i \/ s = j) -> jmp (vget l s) b <> j -> 0 < jmp (vget l s) b ->
              Runs l o (jmp (vget l s) b) r -> Runs l' o (jmp (vget l s) b) r).
    { intros s b Hsij Hne Hpos HR. destruct Hs as [Hi Hj _ _ _ _].
      pose proof (Hf s b ltac:(lia)). eapply IH; [|reflexivity|lia|done|done]. lia. }
    assert (jmp (vget l j) k <> j) by (destruct Hs; pose proof (Hf j k ltac:(lia)); lia).
    assert (jmp (vget l i) (negb k) <> j).
    { intros Heq. destruct Hs as [? ? ? ? Hsing _].
      destruct (Hsing i (negb k) ltac:(lia) Heq) as [_ Hk]. by destruct k. }
    destruct (_ && _); destruct H as [H|[Hp1 HR]]; auto; right; split; auto.
  - assert (Ht : vget l' pos = vget l pos) by (apply swap_get_other; done || lia).
    inversion H as [? ? ? Hjp Hr|? pos' ? ? Hjp Hlt HR]; subst.
    + apply Runs_out; [lia|by rewrite Ht|done].
    + eapply Runs_step; [lia|by rewrite Ht|done|].
      pose proof (Hf pos (o (vget l pos)) Hp).
      eapply IH; [|reflexivity|lia| |done]; [lia|].
      intros Heq. destruct Hs as [? ? ? ? Hsing _].
      destruct (Hsing pos _ Hp Heq) as [? _]. done.
Qed.
End swap.

(** ** The loop: invariant and termination *)

Section termination.
Context (m : list (Z * Z)).

(** The sort key as one number. *)
Definition sort_key (e : Insn) : Z :=
  map_offset (offset e) m * 18446744073709551616
  + ntohl (mask e) * 4294967296 + ntohl (value e).

Lemma out_of_order_key e1 e2 : out_of_order m e1 e2 = true -> sort_key e2 < sort_key e1.
Proof.
  unfold out_of_order, sort_key. intros H.
  pose proof (ntohl_range (mask e1)). pose proof (ntohl_range (mask e2)).
  pose proof (ntohl_range (value e1)). pose proof (ntohl_range (value e2)).
  apply orb_true_iff in H as [H|H]; bprop; [lia|].
  match goal with H : _ || _ = true |- _ => apply orb_true_iff in H as [?|?] end; bprop; [lia|].
  match goal with H : mask _ = mask _ |- _ => rewrite H end. lia.
Qed.

(** How many instructions of [l0] have a smaller key. *)
Definition rank (l0 : list Insn) (e : Insn) : Z :=
  vlen (filter (fun x => sort_key x < sort_key e) l0).

Lemma rank_bound l0 e : 0 <= rank l0 e <= vlen l0.
Proof. unfold rank, vlen. pose proof (length_filter (fun x => sort_key x < sort_key e) l0). lia. Qed.

Lemma rank_lt l0 e1 e2 x :
  x ∈ l0 -> sort_key x = sort_key e2 -> sort_key e2 < sort_key e1 ->
  rank l0 e2 < rank l0 e1.
Proof.
  intros Hx Hk Hlt. unfold rank, vlen. apply Nat2Z.inj_lt.
  induction l0 as [|y l0 IH]; [by apply not_elem_of_nil in Hx|].
  rewrite !filter_cons. apply elem_of_cons in Hx as [<-|Hx].
  - rewrite decide_False by lia. rewrite decide_True by lia. simpl.
    apply Nat.lt_succ_r. clear IH Hk.
    induction l0 as [|z l0 IH]; [done|]. rewrite !filter_cons.
    repeat case_decide; simpl; lia.
  - specialize (IH Hx). repeat case_decide; simpl; lia.
Qed.

Fixpoint wsum (f : Insn -> Z) (i : Z) (l : list Insn) : Z :=
  match l with [] => 0 | e :: l' => i * f e + wsum f (i + 1) l' end.

Lemma wsum_insert f a l (i : nat) e x :
  l !! i = Some e -> wsum f a (<[i := x]> l) = wsum f a l + (a + Z.of_nat i) * (f x - f e).
Proof.
  revert a i. induction l as [|y l IH]; intros a i Hl; [done|].
  destruct i as [|i]; simpl in *.
  - injection Hl as ->. lia.
  - rewrite (IH (a + 1) i Hl). lia.
Qed.

Lemma wsum_vset f l i x :
  0 <= i < vlen l -> wsum f 0 (vset l i x) = wsum f 0 l + i * (f x - f (vget l i)).
Proof.
  intros Hi. unfold vset. destruct (Z.leb_spec 0 i); [|lia].
  rewrite (wsum_insert _ _ _ _ _ _ (vget_some l i Hi)). rewrite Z2Nat.id by lia. lia.
Qed.

Lemma wsum_bound f b a l :
  0 <= a -> (forall e, 0 <= f e <= b) -> 0 <= wsum f a l <= (a + vlen l) * b * vlen l.
Proof.
  intros Ha Hf. revert a Ha. induction l as [|e l IH]; intros a Ha; simpl; [unfold vlen; simpl; lia|].
  specialize (IH (a + 1) ltac:(lia)). specialize (Hf e). unfold vlen in *. simpl length.
  rewrite Nat2Z.inj_succ. nia.
Qed.
End termination.

Section bubble.
Context (m : list (Z * Z)) (last_offset : Z) (l0 : list Insn) (o : Insn -> bool).
Context (Hf : fwd l0) (Ho : test_outcome o).

Record bubble_inv (l : list Insn) : Prop := {
  bi_jumps : same_jumps l0 l;
  bi_runs : forall pos r, pos = 0 -> Runs l0 o pos r -> Runs l o pos r;
  bi_keys : forall i, 0 <= i < vlen l ->
    exists x, x ∈ l0 /\ sort_key m x = sort_key m (vget l i);
  bi_tests : exists perm : Z -> Z, forall i, 0 <= i < vlen l ->
    0 <= perm i < vlen l0 /\ same_test (vget l i) (vget l0 (perm i))
    /\ padding (vget l i) = padding (vget l0 (perm i))
}.

Lemma try_swap_swap l i k l' :
  same_jumps l0 l -> 0 <= i < vlen l ->
  try_swap m last_offset (count_inbranches l0) l i k = Some l' ->
  swap_of l l' i (jmp (vget l i) k) k
  /\ sort_key m (vget l (jmp (vget l i) k)) < sort_key m (vget l i).
Proof.
  intros Hsj Hi. unfold try_swap. destruct (_ || _) eqn:Hg; [done|]. bprop.
  destruct (negb _) eqn:Hne; [done|]. bprop.
  destruct (out_of_order _ _ _) eqn:Hoo; [|done]. intros [= <-].
  pose proof (same_jumps_fwd _ _ Hsj Hf) as Hf'. pose proof (Hf' i k Hi) as Hj.
  pose proof Hsj as [Hl Hjm]. split; [|by apply out_of_order_key].
  constructor; try done; try lia.
  intros s b Hs Hsb. rewrite <- !Hjm in * by lia.
  apply (single_inbranch l0 i k); rewrite ?Hl; try done; lia.
Qed.

Lemma swap_inv l l' i j k :
  swap_of l l' i j k -> bubble_inv l -> bubble_inv l'.
Proof.
  intros Hs [Hsj Hr Hk [perm Hp]]. pose proof (same_jumps_fwd _ _ Hsj Hf) as Hf'.
  pose proof (swap_same_jumps _ _ _ _ _ Hs) as Hsj'.
  constructor.
  - by eapply same_jumps_trans.
  - intros pos r -> H. eapply swap_runs; eauto; destruct Hs; try lia.
  - intros s Hs0. destruct Hsj' as [Hl' _]. rewrite <- Hl' in Hs0.
    destruct (decide (s = i)) as [->|]; [|destruct (decide (s = j)) as [->|]].
    + rewrite (swap_get_i _ _ _ _ _ Hs).
      destruct (Hk j ltac:(destruct Hs; lia)) as (x & ? & ?). exists x. by destruct k.
    + rewrite (swap_get_j _ _ _ _ _ Hs).
      destruct (Hk i ltac:(destruct Hs; lia)) as (x & ? & ?). exists x. by destruct k.
    + rewrite (swap_get_other _ _ _ _ _ Hs) by lia. apply Hk. lia.
  - exists (fun s => if decide (s = i) then perm j else if decide (s = j) then perm i else perm s).
    intros s Hs0. destruct Hsj' as [Hl' _]. rewrite <- Hl' in Hs0.
    case_decide as Hd1; [subst s|case_decide as Hd2; [subst s|]].
    + rewrite (swap_get_i _ _ _ _ _ Hs). destruct (Hp j ltac:(destruct Hs; lia)) as (? & ? & ?).
      by destruct k.
    + rewrite (swap_get_j _ _ _ _ _ Hs). destruct (Hp i ltac:(destruct Hs; lia)) as (? & ? & ?).
      by destruct k.
    + rewrite (swap_get_other _ _ _ _ _ Hs) by lia. apply Hp. lia.
Qed.

Definition potential (l : list Insn) : Z := wsum (rank m l0) 0 l.

Lemma swap_potential l l' i j k :
  swap_of l l' i j k -> bubble_inv l -> sort_key m (vget l j) < sort_key m (vget l i) ->
  potential l < potential l'.
Proof.
  intros Hs [_ _ Hk _] Hlt. destruct Hs as [Hi Hj _ _ _ ->]. unfold potential.
  assert (Hrk : forall e b d, rank m l0 (set_jmp e b d) = rank m l0 e) by (by intros ? []).
  rewrite wsum_vset by (rewrite vlen_vset; lia). rewrite wsum_vset by lia.
  rewrite vget_vset_ne by lia. rewrite !Hrk.
  destruct (Hk j ltac:(lia)) as (x & Hx & Hxk).
  pose proof (rank_lt m l0 (vget l i) (vget l j) x Hx Hxk Hlt). nia.
Qed.

Lemma inbranch_index i :
  0 <= i < vlen l0 -> 0 < vget (count_inbranches l0) i -> vget (count_inbranches l0) i < vlen l0.
Proof.
  intros Hi Hpos. destruct (decide (i = 0)) as [->|].
  - exfalso. revert Hpos. unfold count_inbranches.
    enough (vget (for_up 0 (vlen l0) (fun i ib => count_inbranch i l0 true
              (count_inbranch i l0 false ib)) (replicate (length l0) (-1))) 0 = -1) by lia.
    apply (for_up_inv (fun _ ib => vget ib 0 = -1)); [apply vlen_nonneg| |].
    + rewrite (vget_lookup _ 0 (-1)); [done|lia|]. apply lookup_replicate. unfold vlen in *. lia.
    + intros s ib Hs Hib. unfold count_inbranch.
      repeat case_match; bprop; rewrite ?vget_vset_ne by lia; done.
  - destruct (count_inbranches_inv l0 Hf) as [_ H].
    destruct (H i ltac:(lia)) as [_ H2]. destruct (H2 Hpos) as (b & Hb & _). lia.
Qed.

Lemma bubble_step_inv l i :
  bubble_inv l -> 0 <= i < vlen l ->
  let '(l', i') := bubble_step m last_offset (count_inbranches l0) l i in
  bubble_inv l' /\ ((l' = l /\ i' = i + 1) \/ (potential l < potential l' /\ 0 <= i' < vlen l)).
Proof.
  intros Hinv Hi. pose proof (bi_jumps _ Hinv) as [Hl _].
  assert (Hback : 0 <= (if 0 <? vget (count_inbranches l0) i
                        then vget (count_inbranches l0) i - 1 else i - 1) + 1 < vlen l).
  { rewrite <- Hl in *. bdestr; [pose proof (inbranch_index i Hi); lia|lia]. }
  unfold bubble_step.
  assert (Hcase : forall k l', try_swap m last_offset (count_inbranches l0) l i k = Some l' ->
            bubble_inv l' /\ potential l < potential l').
  { intros k l' Ht. destruct (try_swap_swap l i k l' (bi_jumps _ Hinv) Hi Ht) as [Hs Hlt].
    split; [by eapply swap_inv|by eapply swap_potential]. }
  destruct (try_swap _ _ _ _ _ false) as [l'|] eqn:E1.
  { destruct (Hcase _ _ E1). split; [done|]. by right. }
  destruct (try_swap _ _ _ _ _ true) as [l'|] eqn:E2.
  { destruct (Hcase _ _ E2). split; [done|]. by right. }
  split; [done|]. by left.
Qed.

Lemma potential_bound l : bubble_inv l -> 0 <= potential l <= vlen l0 * vlen l0 * vlen l0.
Proof.
  intros [[Hl _] _ _ _]. unfold potential.
  pose proof (wsum_bound (rank m l0) (vlen l0) 0 l ltac:(lia) (rank_bound m l0)) as H.
  rewrite <- Hl in H. lia.
Qed.

Lemma bubble_loop_inv fuel l i :
  bubble_inv l -> 0 <= i <= vlen l ->
  (vlen l0 * vlen l0 * vlen l0 - potential l) * (vlen l0 + 1) + (vlen l0 - i) < Z.of_nat fuel ->
  exists l', bubble_loop fuel m last_offset (count_inbranches l0) l i = Some l'
             /\ bubble_inv l'.
Proof.
  revert l i. induction fuel as [|fuel IH]; intros l i Hinv Hi Hfuel.
  { pose proof (potential_bound l Hinv). pose proof (bi_jumps _ Hinv) as [Hl _]. nia. }
  simpl. pose proof (bi_jumps _ Hinv) as [Hl _].
  destruct (Z.ltb_spec i (vlen l)); [|eauto].
  pose proof (bubble_step_inv l i Hinv ltac:(lia)) as Hst.
  destruct (bubble_step _ _ _ _ _) as [l' i']. destruct Hst as [Hinv' Hm].
  pose proof (bi_jumps _ Hinv') as [Hl' _].
  apply IH; [done|destruct Hm as [[-> ->]|[? ?]]; lia|].
  destruct Hm as [[-> ->]|[Hp Hi']]; [lia|]. nia.
Qed.

Lemma bubble_inv_start : bubble_inv l0.
Proof.
  constructor; try done.
  - intros i Hi. exists (vget l0 i). split; [|done].
    apply list_elem_of_lookup. eexists. by apply vget_some.
  - exists (fun i => i). intros i Hi. done.
Qed.

Lemma bubble_sort_inv :
  exists l', bubble_sort_and_exprs m last_offset l0 = Some l' /\ bubble_inv l'.
Proof.
  unfold bubble_sort_and_exprs, bubble_fuel.
  apply bubble_loop_inv; [apply bubble_inv_start|unfold vlen; lia|].
  pose proof (potential_bound l0 bubble_inv_start). unfold vlen in *. nia.
Qed.
End bubble.

(** The pass terminates and keeps the output of every run, whatever the
    outcome of a test depends on in it. *)
Lemma bubble_sort_exec m last_offset l :
  fwd l ->
  exists l', bubble_sort_and_exprs m last_offset l = Some l' /\ fwd l' /\ length l' = length l
    /\ forall o, test_outcome o -> exec (length l') l' o 0 = exec (length l) l o 0.
Proof.
  intros Hf.
  destruct (bubble_sort_inv m last_offset l (fun _ => true) Hf) as (l' & Hb & Hinv); [done|].
  exists l'. pose proof (bi_jumps _ _ _ _ Hinv) as Hsj. pose proof Hsj as [Hl _].
  assert (length l' = length l) as Hlen by (unfold vlen in *; lia).
  split; [done|]. split; [by eapply same_jumps_fwd|]. split; [done|]. intros o Ho.
  destruct (bubble_sort_inv m last_offset l o Hf Ho) as (l'' & Hb' & Hinv').
  rewrite Hb in Hb'. injection Hb' as <-. rewrite Hlen.
  destruct (decide (0 < vlen l)) as [Hpos|Hz].
  - destruct (Runs_total l o 0 Hf ltac:(lia)) as [r Hr].
    assert (Hfuel : vlen l - 0 <= Z.of_nat (length l)) by (unfold vlen; lia).
    rewrite (Runs_exec l o _ 0 r Hf Hr) by done.
    apply Runs_exec; [by eapply same_jumps_fwd|by eapply bi_runs|lia].
  - destruct l; [done|]. unfold vlen in Hz. simpl in Hz. lia.
Qed.

(** ** Property *)

(** C17. Sorting the tests of a program terminates, keeps jumps forward and does
    not change the output of any packet, in either interpreter. *)
Theorem bubble_sort_preserves_match m last_offset l :
  fwd l ->
  exists l', bubble_sort_and_exprs m last_offset l = Some l' /\ fwd l' /\ length l' = length l
    /\ forall al p,
       exec (length l') l' (checked_outcome al p) 0 = exec (length l) l (checked_outcome al p) 0
       /\ exec (length l') l' (fast_outcome al p) 0 = exec (length l) l (fast_outcome al p) 0.
Proof.
  intros Hf. destruct (bubble_sort_exec m last_offset l Hf) as (l' & Hb & Hf' & Hl & Ho).
  exists l'. split; [done|]. split; [done|]. split; [done|]. intros al p.
  split; apply Ho; auto with click.
Qed.

(** Two tests in the wrong order of offsets. *)
Definition unsorted_insns : list Insn :=
  [new_insn 4 1 255 j_never 1 false; new_insn 20 256 65535 j_never 2 false;
   new_insn 12 1544 65535 j_never 0 false].

Lemma bubble_sort_preserves_match_witness :
  exists l', bubble_sort_and_exprs [] offset_max unsorted_insns = Some l' /\ l' <> unsorted_insns
    /\ length l' = 3%nat.
Proof.
  destruct (bubble_sort_preserves_match [] offset_max unsorted_insns) as (l' & Hb & _ & Hl & _).
  - apply fwdb_fwd. vm_compute. reflexivity.
  - exists l'. split; [exact Hb|]. split; [|exact Hl]. intros ->. vm_compute in Hb. discriminate Hb.
Defined.

(** The binary search of an offset map gives up to the left of the middle:
    in a sorted map, every key before the middle entry is left unmapped. *)
Theorem map_offset_left_unmapped m i :
  (forall a b, 0 <= a < b -> b < vlen m -> fst (vget m a) < fst (vget m b)) ->
  0 <= i < vlen m / 2 ->
  map_offset (fst (vget m i)) m = fst (vget m i).
Proof.
  intros Hsort Hi. unfold map_offset. case_match; [done|].
  pose proof (vlen_nonneg m) as Hlen.
  assert (Hpos : 0 < vlen m) by (clear -Hi Hlen; Z.to_euclidean_division_equations; lia).
  assert (Hmid : vlen m / 2 < vlen m) by (apply Z.div_lt; lia).
  cbn [hard_map_offset]. destruct (Z.eqb_spec 0 (vlen m)); [lia|].
  rewrite Z.sub_0_r, Z.add_0_l. specialize (Hsort i (vlen m / 2) ltac:(lia) Hmid).
  destruct (Z.eqb_spec (fst (vget m (vlen m / 2))) (fst (vget m i))); [lia|].
  destruct (Z.ltb_spec (fst (vget m (vlen m / 2))) (fst (vget m i))); [lia|].
  destruct (length m) as [|k] eqn:E; [unfold vlen in *; lia|]. cbn [hard_map_offset].
  by rewrite Z.eqb_refl.
Qed.

Lemma map_offset_left_unmapped_witness : map_offset 12 [(12, 100); (20, 200); (30, 300)] = 12.
Proof.
  apply (map_offset_left_unmapped [(12, 100); (20, 200); (30, 300)] 0).
  - intros a b Ha Hb. assert (b = 1 \/ b = 2) as [-> | ->] by (unfold vlen in Hb; simpl in Hb; lia).
    + assert (a = 0) as -> by lia. vm_compute. reflexivity.
    + assert (a = 0 \/ a = 1) as [-> | ->] by lia; vm_compute; reflexivity.
  - vm_compute. split; congruence.
Defined.
