(* ===== verification/Combine.v ===== *)
(** * Combining compatible states

    [Program::combine_compatible_states] of
    elements/standard/classification.cc: a backward pass that flips single-bit
    tests, merges two tests of one word that differ in one bit into a less
    specific test, and merges a conjunction of two compatible tests into one.

    Theorem: the pass terminates, and for packets that contain every byte
    tested it preserves the output of every run. *)

From S2P Require Import Prelude Packet Insn Program.

(** [in] after the merge with [no_in] of a generalizable pair. *)
Definition generalize (e no_e : Insn) : Insn :=
  let the_bit := value e .^ value no_e in
  mkInsn (offset e) (padding e) (short_output e) (mask e .& not32 the_bit)
         (value e .& not32 the_bit) (j_no no_e) (j_yes e).

(** [in] after the merge with a compatible [yes_in]. *)
Definition merge_yes (e yes_e : Insn) : Insn :=
  mkInsn (if mask e =? 0 then offset yes_e else offset e) (padding e) (short_output e)
         (mask e .| mask yes_e)
         ((value e .& mask e) .| (value yes_e .& mask yes_e))
         (j_no e) (j_yes yes_e).

(** The first half of the body: the "no" branch.  The flag says that the loop
    continues with the same [i]. *)
Definition combine_no (l : list Insn) (i : Z) : list Insn * bool :=
  let e := vget l i in
  if 0 <? j_no e then
    let no_e := vget l (j_no e) in
    if compatible no_e e false && flippable e then (vset l i (flip e), false)
    else if generalizable_or_pair e no_e then (vset l i (generalize e no_e), true)
    else (l, false)
  else (l, false).

(** The second half: the "yes" branch. *)
Definition combine_yes (l : list Insn) (i : Z) : list Insn * bool :=
  let e := vget l i in
  if j_yes e <=? 0 then (l, false)
  else
    let y := j_yes e in
    let l := if (j_no e =? j_yes (vget l y)) && flippable (vget l y)
             then vset l y (flip (vget l y)) else l in
    let yes_e := vget l y in
    if (j_no e =? j_no yes_e) && compatible yes_e e true
    then (vset l i (merge_yes e yes_e), true)
    else (l, false).

Definition combine_step (l : list Insn) (i : Z) : list Insn * bool :=
  let '(l, again) := combine_no l i in
  if again then (l, true) else combine_yes l i.

Fixpoint combine_loop (fuel : nat) (l : list Insn) (i : Z) : option (list Insn) :=
  match fuel with
  | O => None
  | S fuel' =>
      if i <? 0 then Some l
      else
        let '(l', again) := combine_step l i in
        combine_loop fuel' l' (if again then i else i - 1)
  end.

(** Each repetition moves a branch of [i] forward: at most [2 n] of them. *)
Definition combine_fuel (n : nat) : nat := S (n * (2 * n + 1) + 2 * n).

Definition combine_compatible_states (l : list Insn) : option (list Insn) :=
  combine_loop (combine_fuel (length l)) l (vlen l - 1).

(** ** The merges on the data word *)

Lemma testbit_u32_high m n : 0 <= m < 4294967296 -> 32 <= n -> Z.testbit m n = false.
Proof.
  intros Hm Hn. destruct (decide (m = 0)) as [->|]; [apply Z.bits_0|].
  apply Z.bits_above_log2; [lia|].
  assert (Z.log2 m < 32) by (apply Z.log2_lt_pow2; lia). lia.
Qed.

Lemma not32_testbit b n : 0 <= n < 32 -> Z.testbit (not32 b) n = negb (Z.testbit b n).
Proof.
  intros Hn. unfold not32, u32. rewrite (Z.mod_pow2_bits_low _ 32) by lia.
  apply Z.lnot_spec. lia.
Qed.

Lemma land_not32 m b : 0 <= m < 4294967296 -> (m .& not32 b) = Z.ldiff m b.
Proof.
  intros Hm. apply Z.bits_inj'. intros n Hn. rewrite Z.land_spec, Z.ldiff_spec.
  destruct (Z.ltb_spec n 32); [by rewrite not32_testbit by lia|].
  by rewrite (testbit_u32_high m) by lia.
Qed.

Lemma submask_range m v : 0 <= m < 4294967296 -> (v .& m) = v -> 0 <= v < 4294967296.
Proof.
  intros Hm Hv. assert (Hnn : 0 <= v) by (rewrite <- Hv; apply Z.land_nonneg; lia).
  split; [done|]. destruct (decide (v = 0)); [lia|].
  apply (Z.log2_lt_pow2 v 32); [lia|].
  destruct (Z.ltb_spec (Z.log2 v) 32) as [|Hge]; [done|]. exfalso.
  assert (Hb : Z.testbit v (Z.log2 v) = true) by (apply Z.bit_log2; lia).
  apply (f_equal (fun z => Z.testbit z (Z.log2 v))) in Hv.
  rewrite Z.land_spec, (testbit_u32_high m), andb_false_r in Hv by lia. congruence.
Qed.

Lemma submask_bit m v n : (v .& m) = v -> Z.testbit v n = true -> Z.testbit m n = true.
Proof. intros <-. rewrite Z.land_spec. by destruct (Z.testbit v n), (Z.testbit m n). Qed.

Lemma ldiff_eq_iff x v b :
  (b = 0 \/ exists k, 0 <= k /\ b = 2 ^ k) ->
  Z.ldiff x b = Z.ldiff v b <-> x = v \/ x = (v .^ b).
Proof.
  intros Hb. split.
  - intros H. destruct Hb as [->|(k & Hk & ->)].
    { left. by rewrite !Z.ldiff_0_r in H. }
    assert (Hbit : forall n, 0 <= n -> n <> k -> Z.testbit x n = Z.testbit v n).
    { intros n Hn Hne. apply (f_equal (fun z => Z.testbit z n)) in H.
      rewrite !Z.ldiff_spec, Z.pow2_bits_eqb in H by done.
      destruct (Z.eqb_spec k n); [done|]. by rewrite !andb_true_r in H. }
    destruct (Bool.eqb_spec (Z.testbit x k) (Z.testbit v k)) as [He|He]; [left|right];
      apply Z.bits_inj'; intros n Hn; rewrite ?Z.lxor_spec, ?Z.pow2_bits_eqb by done;
      destruct (Z.eqb_spec k n) as [<-|Hne]; rewrite ?xorb_false_r; auto.
    by destruct (Z.testbit x k), (Z.testbit v k).
  - intros [-> | ->]; [done|]. apply Z.bits_inj'. intros n Hn.
    rewrite !Z.ldiff_spec, Z.lxor_spec. by destruct (Z.testbit v n), (Z.testbit b n).
Qed.

Lemma single_or_zero b :
  0 <= b < 4294967296 -> (b .& sub32 b 1) = 0 -> b = 0 \/ exists k, 0 <= k /\ b = 2 ^ k.
Proof.
  intros Hb H. destruct (decide (b = 0)); [by left|right].
  exists (Z.log2 b). split; [apply Z.log2_nonneg|]. apply single_bit; [lia|done].
Qed.

Section data.
Context (d : Z -> Z).

(** A generalized test succeeds when one of the two tests does. *)
Lemma generalize_spec e x :
  insn_ok e -> insn_ok x -> generalizable_or_pair e x = true ->
  wtest d (generalize e x) = wtest d e || wtest d x.
Proof.
  intros (_ & He1 & He2 & _) (_ & _ & Hx2 & _) Hg. unfold generalizable_or_pair in Hg.
  destruct (_ && _) eqn:Hc; [|done]. bprop. clear Hg.
  match goal with H : offset x = offset e |- _ => rename H into Ho end.
  match goal with H : mask x = mask e |- _ => rename H into Hm end.
  match goal with H : (_ .& sub32 _ 1) = 0 |- _ => rename H into Hs end.
  rewrite Hm in Hx2. unfold wtest, generalize. simpl. rewrite Ho, Hm.
  set (b := value e .^ value x) in *.
  pose proof (submask_range _ _ He1 He2) as Hve. pose proof (submask_range _ _ He1 Hx2) as Hvx.
  assert (Hbm : (b .& mask e) = b).
  { subst b. apply Z.bits_inj'. intros n Hn. rewrite Z.land_spec, !Z.lxor_spec.
    rewrite <- He2, <- Hx2, !Z.land_spec.
    by destruct (Z.testbit (value e) n), (Z.testbit (mask e) n), (Z.testbit (value x) n). }
  pose proof (submask_range _ _ He1 Hbm) as Hb.
  assert (Hvb : (value e .^ b) = value x).
  { subst b. rewrite <- Z.lxor_assoc, Z.lxor_nilpotent. apply Z.lxor_0_l. }
  rewrite !land_not32 by done.
  assert (Hd : (d (offset e) .& Z.ldiff (mask e) b) = Z.ldiff (d (offset e) .& mask e) b).
  { apply Z.bits_inj'. intros n Hn. rewrite Z.land_spec, !Z.ldiff_spec, Z.land_spec.
    by rewrite andb_assoc. }
  rewrite Hd. pose proof (ldiff_eq_iff (d (offset e) .& mask e) (value e) b
                            (single_or_zero b Hb Hs)) as Hiff. rewrite Hvb in Hiff.
  destruct (Z.eqb_spec (Z.ldiff (d (offset e) .& mask e) b) (Z.ldiff (value e) b)) as [E|E].
  - symmetry. apply orb_true_iff. rewrite !Z.eqb_eq. tauto.
  - symmetry. apply orb_false_iff. rewrite !Z.eqb_neq. tauto.
Qed.

Lemma land_lor_eq D m1 m2 v1 v2 :
  (v1 .& m1) = v1 -> (v2 .& m2) = v2 -> (v1 .& (m2 .& m1)) = (v2 .& (m2 .& m1)) ->
  (D .& (m1 .| m2)) = (v1 .| v2) <-> (D .& m1) = v1 /\ (D .& m2) = v2.
Proof.
  intros H1 H2 H12. split.
  - intros H.
    assert (Hb : forall n, 0 <= n -> Z.testbit (D .& (m1 .| m2)) n = Z.testbit (v1 .| v2) n)
      by (intros; by rewrite H).
    split; apply Z.bits_inj'; intros n Hn; specialize (Hb n Hn);
      rewrite Z.land_spec, !Z.lor_spec in Hb; rewrite Z.land_spec;
      pose proof (submask_bit m1 v1 n H1) as Hs1; pose proof (submask_bit m2 v2 n H2) as Hs2;
      apply (f_equal (fun z => Z.testbit z n)) in H12; rewrite !Z.land_spec in H12;
      destruct (Z.testbit D n), (Z.testbit m1 n), (Z.testbit m2 n), (Z.testbit v1 n),
        (Z.testbit v2 n); simpl in *; try done; naive_solver.
  - intros [<- <-]. apply Z.bits_inj'. intros n Hn.
    rewrite !Z.land_spec, !Z.lor_spec, !Z.land_spec. apply andb_orb_distrib_r.
Qed.

(** A merged test succeeds when both tests do. *)
Lemma merge_yes_spec e y :
  insn_ok e -> insn_ok y -> compatible y e true = true ->
  wtest d (merge_yes e y) = wtest d e && wtest d y.
Proof.
  intros He Hy Hc. pose proof He as (_ & _ & He2 & _). pose proof Hy as (_ & _ & Hy2 & _).
  unfold wtest at 1, merge_yes. simpl. rewrite He2, Hy2.
  unfold compatible in Hc.
  destruct (Z.eqb_spec (mask e) 0) as [Hz|Hz].
  { rewrite (wtest_zero d e He Hz). rewrite (insn_ok_zero e He Hz), Hz.
    by rewrite !Z.lor_0_l. }
  destruct (Z.eqb_spec (mask y) 0) as [Hz'|Hz'].
  { rewrite (wtest_zero d y Hy Hz'). rewrite (insn_ok_zero y Hy Hz'), Hz'.
    by rewrite !Z.lor_0_r, andb_true_r. }
  cbn [orb] in Hc. destruct (_ || _) eqn:Hg; [done|]. apply Z.eqb_eq in Hc.
  apply orb_false_iff in Hg as [Ho _]. apply negb_false_iff, Z.eqb_eq in Ho.
  unfold wtest. rewrite <- Ho.
  pose proof (land_lor_eq (d (offset e)) (mask e) (mask y) (value e) (value y) He2 Hy2
                ltac:(congruence)) as Hiff.
  destruct (Z.eqb_spec (d (offset e) .& (mask e .| mask y)) (value e .| value y)) as [E|E].
  - apply Hiff in E as [-> ->]. by rewrite !Z.eqb_refl.
  - symmetry. apply andb_false_iff. rewrite !Z.eqb_neq.
    destruct (decide ((d (offset e) .& mask e) = value e)); [right|by left].
    intros Hy'. apply E. by apply Hiff.
Qed.
End data.

(** ** The loop *)

Lemma byte_of_lor a b k : byte_of (a .| b) k = (byte_of a k .| byte_of b k).
Proof. unfold byte_of. by rewrite Z.shiftr_lor, Z.land_lor_distr_l. Qed.

Lemma lor_zero a b : (a .| b) = 0 <-> a = 0 /\ b = 0.
Proof. apply Z.lor_eq_0_iff. Qed.

Lemma merge_required e y :
  insn_ok e -> insn_ok y -> compatible y e true = true ->
  required_length (merge_yes e y) <= Z.max (required_length e) (required_length y).
Proof.
  intros He Hy Hc. unfold compatible in Hc.
  assert (Ho : mask e <> 0 -> mask y <> 0 -> offset y = offset e).
  { intros H1 H2. destruct (Z.eqb_spec (mask y) 0), (Z.eqb_spec (mask e) 0); try done.
    cbn [orb] in Hc. destruct (_ || _) eqn:Hg in Hc; [done|].
    apply orb_false_iff in Hg as [Hg _]. apply negb_false_iff, Z.eqb_eq in Hg. done. }
  destruct He as [[Hoe _] _], Hy as [[Hoy _] _].
  unfold required_length, mask_c, merge_yes. cbn [mask offset].
  rewrite !byte_of_lor.
  assert (Hz : forall m k, m = 0 -> byte_of m k = 0).
  { intros m k ->. unfold byte_of. by rewrite Z.shiftr_0_l, Z.land_0_l. }
  destruct (Z.eqb_spec (mask e) 0) as [Ze|Ze].
  { rewrite !(Hz (mask e)) by done. rewrite Ze, !Z.lor_0_l. lia. }
  destruct (Z.eqb_spec (mask y) 0) as [Zy|Zy].
  { rewrite !(Hz (mask y)) by done. rewrite Zy, !Z.lor_0_r.
    destruct (Z.eqb_spec (mask e) 0); [done|]. lia. }
  rewrite Ho by done. destruct (Z.eqb_spec (mask e .| mask y) 0) as [Z0|_].
  { apply lor_zero in Z0. lia. }
  assert (Hb : forall k, ((byte_of (mask e) k .| byte_of (mask y) k) =? 0)
             = (byte_of (mask e) k =? 0) && (byte_of (mask y) k =? 0)).
  { intros k. apply eq_true_iff_eq. rewrite andb_true_iff, !Z.eqb_eq. apply lor_zero. }
  rewrite !Hb.
  destruct (byte_of (mask e) 3 =? 0), (byte_of (mask y) 3 =? 0),
    (byte_of (mask e) 2 =? 0), (byte_of (mask y) 2 =? 0),
    (byte_of (mask e) 1 =? 0), (byte_of (mask y) 1 =? 0); cbn [negb andb]; lia.
Qed.

Lemma generalize_required e x :
  insn_ok e -> generalizable_or_pair e x = true ->
  required_length (generalize e x) = required_length e.
Proof.
  intros [Ho _] Hg. unfold generalizable_or_pair in Hg. destruct (_ && _) in Hg; [|done].
  apply Z.eqb_eq in Hg. rewrite <- Hg. unfold required_length, mask_c, generalize, new_insn.
  cbn [mask offset]. unfold u16. rewrite (Z.mod_small (offset e)) by done. done.
Qed.

Lemma insn_ok_generalize e x : insn_ok e -> insn_ok (generalize e x).
Proof.
  intros (H1 & H2 & H3 & H4). unfold insn_ok, generalize. simpl.
  pose proof (submask_range _ _ H2 H3) as Hv. rewrite !land_not32 by done.
  split; [done|]. split; [|split; [|done]].
  - apply (submask_range (mask e)); [done|]. apply Z.bits_inj'. intros n Hn.
    rewrite Z.land_spec, !Z.ldiff_spec.
    by destruct (Z.testbit (mask e) n), (Z.testbit (value e .^ value x) n).
  - apply Z.bits_inj'. intros n Hn. rewrite Z.land_spec, !Z.ldiff_spec.
    rewrite <- H3, !Z.land_spec.
    by destruct (Z.testbit (value e) n), (Z.testbit (mask e) n), (Z.testbit (_ .^ _) n).
Qed.

Lemma insn_ok_merge e y : insn_ok e -> insn_ok y -> insn_ok (merge_yes e y).
Proof.
  intros (H1 & H2 & H3 & H4) (H5 & H6 & H7 & H8). unfold insn_ok, merge_yes. simpl.
  split; [by case_match|]. split; [|split; [|done]].
  - split; [apply Z.lor_nonneg; lia|].
    destruct (decide ((mask e .| mask y) = 0)) as [->|]; [lia|].
    apply (Z.log2_lt_pow2 _ 32); [pose proof (Z.lor_nonneg (mask e) (mask y)); lia|].
    rewrite Z.log2_lor by lia. apply Z.max_lub_lt.
    + destruct (decide (mask e = 0)) as [->|]; [simpl; lia|]. apply Z.log2_lt_pow2; lia.
    + destruct (decide (mask y = 0)) as [->|]; [simpl; lia|]. apply Z.log2_lt_pow2; lia.
  - apply Z.bits_inj'. intros n Hn. rewrite H3, H7, Z.land_spec, !Z.lor_spec.
    rewrite <- H3, <- H7, !Z.land_spec.
    by destruct (Z.testbit (value e) n), (Z.testbit (mask e) n),
      (Z.testbit (value y) n), (Z.testbit (mask y) n).
Qed.

(** What one half of the body leaves behind.  [B] bounds the packet length
    the program can ask for. *)
Record combine_ok (B : Z) (l l' : list Insn) : Prop := {
  co_fwd : fwd l';
  co_len : vlen l' = vlen l;
  co_insns : all_insns insn_ok l';
  co_required : all_insns (fun e => required_length e <= B) l';
  co_runs : forall d s r, Runs l (wtest d) s r -> Runs l' (wtest d) s r
}.

Lemma combine_ok_refl B l :
  fwd l -> all_insns insn_ok l -> all_insns (fun e => required_length e <= B) l -> combine_ok B l l.
Proof. constructor; auto. Qed.

Lemma combine_ok_trans B l1 l2 l3 : combine_ok B l1 l2 -> combine_ok B l2 l3 -> combine_ok B l1 l3.
Proof. intros [] []. constructor; auto; congruence. Qed.

Lemma combine_ok_vset B l i e :
  combine_ok B l l -> 0 <= i < vlen l -> (forall k, jmp e k <= 0 \/ i < jmp e k < vlen l) ->
  insn_ok e -> required_length e <= B ->
  (forall d r, Runs l (wtest d) i r -> goes l (wtest d) (jmp e (wtest d e)) r) ->
  combine_ok B l (vset l i e).
Proof.
  intros [Hf Hl Ho Hr _] Hi He Hok Hreq Hgo. constructor.
  - by apply fwd_vset.
  - apply vlen_vset.
  - apply all_insns_vset; [lia|done|done].
  - apply all_insns_vset; [lia|done|done].
  - intros d s r. apply Runs_vset; auto.
Qed.

Lemma combine_ok_flip B l i :
  combine_ok B l l -> 0 <= i < vlen l -> flippable (vget l i) = true ->
  combine_ok B l (vset l i (flip (vget l i))).
Proof.
  intros Hc Hi Hfl. pose proof Hc as [Hf Hl Ho Hr _].
  apply combine_ok_vset; auto.
  - intros k. pose proof (Hf i (negb k) Hi). by destruct k.
  - apply insn_ok_flip. by apply Ho.
  - by apply Hr.
  - intros d r HR. apply Runs_unfold in HR; [|done].
    rewrite wtest_flip by auto. by destruct (wtest d (vget l i)).
Qed.

(** How far the two branches of an instruction can still move. *)
Definition room (n t : Z) : Z := if 0 <? t then n - t else 0.
Definition rooms (l : list Insn) (i : Z) : Z :=
  room (vlen l) (j_yes (vget l i)) + room (vlen l) (j_no (vget l i)).

Lemma room_step l e k k' :
  fwd l -> 0 <= jmp e k < vlen l -> 0 < jmp e k ->
  room (vlen l) (jmp (vget l (jmp e k)) k') < room (vlen l) (jmp e k).
Proof.
  intros Hf Hr Hpos. unfold room. pose proof (Hf (jmp e k) k' Hr).
  destruct (Z.ltb_spec 0 (jmp e k)); [|lia]. bdestr; lia.
Qed.

Lemma combine_no_ok B l i l' again :
  combine_ok B l l -> 0 <= i < vlen l -> combine_no l i = (l', again) ->
  combine_ok B l l' /\ (if again then rooms l' i < rooms l i else rooms l' i = rooms l i).
Proof.
  intros Hc Hi. pose proof Hc as [Hf Hl Ho Hr _]. unfold combine_no.
  destruct (Z.ltb_spec 0 (j_no (vget l i))) as [Hno|]; [|by intros [= <- <-]].
  assert (Hnr : 0 <= j_no (vget l i) < vlen l) by (pose proof (Hf i false Hi); simpl in *; lia).
  destruct (compatible _ _ _ && flippable _) eqn:Hfl.
  { intros [= <- <-]. bprop. split; [by apply combine_ok_flip|].
    unfold rooms. rewrite vget_vset_eq, vlen_vset by done. simpl. lia. }
  destruct (generalizable_or_pair _ _) eqn:Hg; [|by intros [= <- <-]]. intros [= <- <-].
  set (e := vget l i) in *. set (x := vget l (j_no e)) in *.
  assert (Hyes : j_yes e = j_yes x).
  { unfold generalizable_or_pair in Hg. destruct (_ && _) eqn:Hcc in Hg; [|done]. by bprop. }
  pose proof (Ho _ Hi) as Hoe. pose proof (Ho _ Hnr) as Hox. fold e in Hoe. fold x in Hox. split.
  - apply combine_ok_vset; auto.
    + intros k. pose proof (Hf i true Hi) as H1. pose proof (Hf (j_no e) false Hnr) as H2.
      pose proof (Hf i false Hi) as H3. fold e in H3.
      fold e in H1. fold x in H2. destruct k; simpl in *; lia.
    + by apply insn_ok_generalize.
    + rewrite generalize_required by done. by apply Hr.
    + intros d r HR. apply Runs_unfold in HR; [|done]. fold e in HR.
      rewrite generalize_spec by done. destruct (wtest d e); [done|]. simpl in *.
      destruct HR as [[? _]|[_ HR]]; [lia|]. apply Runs_unfold in HR; [|done].
      fold x in HR. destruct (wtest d x); simpl in *; [by rewrite Hyes|done].
  - unfold rooms. rewrite vget_vset_eq, vlen_vset by done. simpl.
    pose proof (room_step l e false false Hf ltac:(done) ltac:(done)) as Hroom.
    simpl in Hroom. fold e x. fold x in Hroom. lia.
Qed.

(** The flip of [yes_in] that may precede the merge. *)
Definition flip_yes (l : list Insn) (i : Z) : list Insn :=
  let y := j_yes (vget l i) in
  if (j_no (vget l i) =? j_yes (vget l y)) && flippable (vget l y)
  then vset l y (flip (vget l y)) else l.

Lemma flip_yes_ok B l i :
  combine_ok B l l -> 0 <= i < vlen l -> 0 < j_yes (vget l i) ->
  combine_ok B l (flip_yes l i) /\ vget (flip_yes l i) i = vget l i.
Proof.
  intros Hc Hi Hy. pose proof Hc as [Hf Hl _ _ _]. unfold flip_yes.
  pose proof (Hf i true Hi) as Hyr. simpl in Hyr.
  destruct (_ && _) eqn:Hb; [|done]. bprop.
  split; [apply combine_ok_flip; try done; lia|]. apply vget_vset_ne; lia.
Qed.

Lemma combine_yes_ok B l i l' again :
  combine_ok B l l -> 0 <= i < vlen l -> combine_yes l i = (l', again) ->
  combine_ok B l l' /\ (if again then rooms l' i < rooms l i else True).
Proof.
  intros Hc0 Hi. unfold combine_yes.
  destruct (Z.leb_spec (j_yes (vget l i)) 0) as [|Hy]; [by intros [= <- <-]|].
  destruct (flip_yes_ok B l i Hc0 Hi Hy) as [Hc1 Hget]. fold (flip_yes l i).
  set (l1 := flip_yes l i) in *. pose proof Hc1 as [Hf Hl Ho Hr _].
  assert (Hc : combine_ok B l1 l1) by by apply combine_ok_refl.
  rewrite <- Hget in *. rewrite <- Hl in Hi.
  destruct (_ && _) eqn:Hb; [|by intros [= <- <-]]. intros [= <- <-]. bprop.
  match goal with H : compatible _ _ _ = true |- _ => rename H into Hcomp end.
  match goal with H : j_no _ = j_no _ |- _ => rename H into Hno end.
  set (e := vget l1 i) in *. set (x := vget l1 (j_yes e)) in *.
  assert (Hyr : i < j_yes e < vlen l1) by (pose proof (Hf i true Hi); simpl in *; fold e in H; lia).
  pose proof (Ho _ Hi) as Hoe. pose proof (Ho (j_yes e) ltac:(lia)) as Hox.
  fold e in Hoe. fold x in Hox. split.
  - apply (combine_ok_trans B l l1); [done|]. apply combine_ok_vset; auto.
    + intros k. pose proof (Hf i false Hi) as H1. pose proof (Hf (j_yes e) true ltac:(lia)) as H2.
      fold e in H1. fold x in H2. destruct k; simpl in *; lia.
    + by apply insn_ok_merge.
    + pose proof (merge_required e x Hoe Hox Hcomp) as Hmr.
      pose proof (Hr _ Hi) as H1. pose proof (Hr (j_yes e) ltac:(lia)) as H2.
      fold e in H1. fold x in H2. simpl in *. lia.
    + intros d r HR. apply Runs_unfold in HR; [|done]. fold e in HR.
      rewrite merge_yes_spec by done. destruct (wtest d e); simpl in *; [|done].
      destruct HR as [[? _]|[_ HR]]; [lia|]. apply Runs_unfold in HR; [|lia].
      fold x in HR. destruct (wtest d x); simpl in *; [done|by rewrite Hno].
  - unfold rooms. rewrite vget_vset_eq, vlen_vset by done. rewrite <- Hget. fold e. simpl.
    pose proof (room_step l1 e true true Hf ltac:(simpl; lia) ltac:(simpl; lia)) as Hroom.
    simpl in Hroom. fold x in Hroom. rewrite <- Hl. lia.
Qed.

Lemma rooms_bound l i : fwd l -> 0 <= i < vlen l -> 0 <= rooms l i <= 2 * vlen l.
Proof.
  intros Hf Hi. unfold rooms, room. pose proof (Hf i true Hi). pose proof (Hf i false Hi).
  simpl in *. repeat bdestr; lia.
Qed.

Lemma combine_step_ok B l i l' again :
  combine_ok B l l -> 0 <= i < vlen l -> combine_step l i = (l', again) ->
  combine_ok B l l' /\ (if again then rooms l' i < rooms l i else True).
Proof.
  intros Hc Hi. unfold combine_step. destruct (combine_no l i) as [l1 a1] eqn:E1.
  destruct (combine_no_ok B l i l1 a1 Hc Hi E1) as [Hc1 Hm1]. destruct a1.
  { by intros [= <- <-]. }
  intros E2. pose proof Hc1 as [Hf1 Hl1 Ho1 Hr1 _].
  destruct (combine_yes_ok B l1 i l' again) as [Hc2 Hm2]; [by apply combine_ok_refl|lia|done|].
  split; [by eapply combine_ok_trans|]. destruct again; [lia|done].
Qed.

Lemma combine_loop_ok B fuel l i :
  combine_ok B l l -> -1 <= i < vlen l ->
  (i + 1) * (2 * vlen l + 1) + (if 0 <=? i then rooms l i - 2 * vlen l else 0) < Z.of_nat fuel ->
  exists l', combine_loop fuel l i = Some l' /\ combine_ok B l l'.
Proof.
  revert l i. induction fuel as [|fuel IH]; intros l i Hc Hi Hfuel.
  { exfalso. pose proof Hc as [Hf _ _ _ _]. destruct (Z.leb_spec 0 i); [|nia].
    pose proof (rooms_bound l i Hf ltac:(lia)). nia. }
  simpl. destruct (Z.ltb_spec i 0) as [|Hge]; [eauto|].
  destruct (combine_step l i) as [l' again] eqn:E.
  destruct (combine_step_ok B l i l' again Hc ltac:(lia) E) as [Hc' Hm].
  pose proof Hc' as [Hf' Hl' Ho' Hr' _].
  assert (Hcc : combine_ok B l' l') by by apply combine_ok_refl.
  destruct (Z.leb_spec 0 i); [|lia].
  destruct (IH l' (if again then i else i - 1) Hcc) as (l'' & -> & Hc'').
  - rewrite Hl'. destruct again; lia.
  - rewrite Hl'. destruct again.
    + destruct (Z.leb_spec 0 i); lia.
    + pose proof Hc as [Hf _ _ _ _]. pose proof (rooms_bound l i Hf ltac:(lia)).
      destruct (Z.leb_spec 0 (i - 1)); [|nia].
      pose proof (rooms_bound l' (i - 1) Hf' ltac:(lia)) as Hb. rewrite Hl' in Hb. nia.
  - exists l''. split; [done|]. by eapply combine_ok_trans.
Qed.

(** The pass terminates; for every data word it keeps the output of every run,
    and the result asks for no longer packet than the original. *)
Lemma combine_compatible_ok B l :
  fwd l -> all_insns insn_ok l -> all_insns (fun e => required_length e <= B) l ->
  exists l', combine_compatible_states l = Some l' /\ combine_ok B l l'.
Proof.
  intros Hf Ho Hr. unfold combine_compatible_states, combine_fuel.
  pose proof (vlen_nonneg l). apply combine_loop_ok; [by apply combine_ok_refl|lia|].
  destruct (Z.leb_spec 0 (vlen l - 1)).
  - pose proof (rooms_bound l (vlen l - 1) Hf ltac:(lia)). unfold vlen in *. nia.
  - unfold vlen in *. nia.
Qed.

(** ** Property *)

(** C18. Combining compatible tests terminates, keeps the program well-formed and
    does not change the output of the unchecked interpreter; no instruction
    needs a longer packet than before. *)
Theorem combine_preserves_match B l :
  fwd l -> 0 < vlen l -> all_insns insn_ok l -> all_insns (fun e => required_length e <= B) l ->
  exists l', combine_compatible_states l = Some l' /\ fwd l' /\ all_insns insn_ok l'
    /\ all_insns (fun e => required_length e <= B) l'
    /\ forall al p, exec (length l') l' (fast_outcome al p) 0 = exec (length l) l (fast_outcome al p) 0.
Proof.
  intros Hf Hn Ho Hr. destruct (combine_compatible_ok B l Hf Ho Hr) as (l' & Hc & [C1 C2 C3 C4 C5]).
  exists l'. split; [done|]. split; [done|]. split; [done|]. split; [done|]. intros al p.
  destruct (Runs_total l (fast_outcome al p) 0 Hf ltac:(lia)) as [r Hrun].
  rewrite (Runs_exec l (fast_outcome al p) (length l) 0 r) by (done || (unfold vlen; lia)).
  apply Runs_exec; [done|by apply C5|unfold vlen in *; lia].
Qed.

(** Two adjacent bytes, tested one after the other. *)
Definition splitted_insns : list Insn :=
  [new_insn 12 8 255 j_never 1 false; new_insn 12 1536 65280 j_never 0 false].

Lemma combine_preserves_match_witness :
  exists l', combine_compatible_states splitted_insns = Some l' /\ l' <> splitted_insns.
Proof.
  destruct (combine_preserves_match 16 splitted_insns) as (l' & Hc & _).
  - apply fwdb_fwd. vm_compute. reflexivity.
  - vm_compute. reflexivity.
  - intros i Hi. assert (i = 0 \/ i = 1) as [-> | ->] by (unfold vlen in Hi; simpl in Hi; lia);
      (split; [|split; [|split]]); vm_compute; repeat split; congruence.
  - intros i Hi. assert (i = 0 \/ i = 1) as [-> | ->] by (unfold vlen in Hi; simpl in Hi; lia);
      vm_compute; congruence.
  - exists l'. split; [exact Hc|]. intros ->. vm_compute in Hc. discriminate Hc.
Defined.
