(* ===== verification/RemoveUnused.v ===== *)
(** * Removing unused states

    [Program::remove_unused_states] of elements/standard/classification.cc:
    skip the instructions whose test cannot matter, decide whether the whole
    program reduces to one output, and compact the instructions that remain
    reachable.

    Theorem: the output of every run is preserved, and what remains has no
    useless instruction (every mask is nonzero, the two branches differ). *)

From S2P Require Import Prelude Packet Insn Program.

(** ** The pass *)

Definition with_jumps (e : Insn) (no yes : Z) : Insn :=
  mkInsn (offset e) (padding e) (short_output e) (mask e) (value e) no yes.

(** A positive jump replaced by its destination. *)
Definition remap (dest : list Z) (j : Z) : Z := if 0 <? j then vget dest j else j.

Definition relabel (dest : list Z) (e : Insn) : Insn :=
  with_jumps e (remap dest (j_no e)) (remap dest (j_yes e)).

Definition interesting (e : Insn) : bool :=
  negb (j_yes e =? j_no e) && negb (mask e =? 0).

(** One step of the backward pass that skips uninteresting instructions. *)
Definition skip_step (i : Z) (st : list Insn * list Z) : list Insn * list Z :=
  let '(l, dest) := st in
  let e := relabel dest (vget l i) in
  (vset l i e,
   vset dest i (if interesting e then i
                else if j_yes e <=? 0 then j_yes e
                else vget dest (j_yes e))).

Definition skip_uninteresting (l : list Insn) : list Insn * list Z :=
  for_down 0 (vlen l) skip_step (l, replicate (length l) (-1)).

(** The special case of the first instruction: the vector and
    [_output_everything]. *)
Definition check_first (l : list Insn) (d0 : Z) : list Insn * Z :=
  if 0 <? d0 then (vset l 0 (vget l d0), -1)
  else if d0 <? 0 then (l, - d0)
  else if (j_yes (vget l 0) =? 0) && ((j_no (vget l 0) =? 0) || (mask (vget l 0) =? 0))
  then (l, 0)
  else (l, -1).

(** Find the reachable states and give them new positions. *)
Definition number_step (l : list Insn) (i : Z) (st : list Z * Z) : list Z * Z :=
  let '(dest, new_insn_index) := st in
  if 0 <=? vget dest i then
    let mark k dest := if 0 <? jmp (vget l i) k then vset dest (jmp (vget l i) k) 0 else dest in
    (mark true (mark false (vset dest i new_insn_index)), new_insn_index + 1)
  else st.

Definition number_states (l : list Insn) (oe : Z) : list Z * Z :=
  let dest := replicate (length l) (-1) in
  for_up 0 (vlen l) (number_step l) (if oe <? 0 then vset dest 0 0 else dest, 0).

(** Rearrange the instruction list. *)
Definition rearrange_step (dest : list Z) (i : Z) (l : list Insn) : list Insn :=
  if 0 <=? vget dest i then
    let j := vget dest i in
    let l := if negb (j =? i) then vset l j (vget l i) else l in
    vset l j (relabel dest (vget l j))
  else l.

Definition rearrange (dest : list Z) (l : list Insn) : list Insn :=
  for_up 0 (vlen l) (rearrange_step dest) l.

Definition remove_unused_states (P : Program) : Program :=
  if ninsn P =? 0 then P
  else
    let '(l, dest) := skip_uninteresting (insns P) in
    let '(l, oe) := check_first l (vget dest 0) in
    let '(dest, n') := number_states l oe in
    mkProgram (take (Z.to_nat n') (rearrange dest l)) oe (safe_length P) (align_offset P).

(** ** Skipping uninteresting instructions *)

Section skip.
Context (l0 : list Insn) (o : Insn -> bool).
Context (Hf0 : fwd l0) (Ho : test_outcome o)
        (Hz : forall i, 0 <= i < vlen l0 -> mask (vget l0 i) = 0 -> o (vget l0 i) = true).

Record skip_inv (i : Z) (st : list Insn * list Z) : Prop := {
  sk_len : vlen st.1 = vlen l0;
  sk_dlen : vlen st.2 = vlen l0;
  sk_fwd : fwd st.1;
  sk_tests : forall s, 0 <= s < vlen l0 ->
    same_test (vget st.1 s) (vget l0 s) /\ padding (vget st.1 s) = padding (vget l0 s);
  sk_jumps : forall s k, i <= s < vlen l0 -> 0 < jmp (vget st.1 s) k ->
    vget st.2 (jmp (vget st.1 s) k) = jmp (vget st.1 s) k;
  sk_dest : forall s, i <= s < vlen l0 ->
    vget st.2 s = if interesting (vget st.1 s) then s else j_yes (vget st.1 s);
  sk_runs : forall s r, Runs l0 o s r -> Runs st.1 o s r
}.

(** An uninteresting instruction takes its "yes" jump. *)
Lemma uninteresting_jump l i :
  same_test (vget l i) (vget l0 i) -> 0 <= i < vlen l0 ->
  interesting (vget l i) = false -> jmp (vget l i) (o (vget l i)) = j_yes (vget l i).
Proof.
  intros Hs Hi Hint. unfold interesting in Hint.
  apply andb_false_iff in Hint as [H|H]; bprop.
  - by destruct (o (vget l i)); simpl.
  - rewrite (Ho _ _ Hs), (Hz i Hi); [done|]. destruct Hs as (_ & _ & <- & _). done.
Qed.

Lemma skip_step_inv i st : 0 <= i < vlen l0 -> skip_inv (i + 1) st -> skip_inv i (skip_step i st).
Proof.
  destruct st as [l dest]. intros Hi [Hl Hd Hf Ht Hj Hdest HR]. simpl in *.
  set (e := relabel dest (vget l i)).
  assert (Htgt : forall k, 0 < jmp (vget l i) k ->
            i < jmp (vget l i) k < vlen l0 /\ jmp e k = vget dest (jmp (vget l i) k)).
  { intros k Hk. pose proof (Hf i k ltac:(lia)) as [|H]; [lia|]. split; [lia|].
    unfold e, relabel, with_jumps, remap. destruct k; simpl in *; by bdestr; try lia. }
  assert (Hneg : forall k, jmp (vget l i) k <= 0 -> jmp e k = jmp (vget l i) k).
  { intros k Hk. unfold e, relabel, with_jumps, remap. destruct k; simpl in *; by bdestr; try lia. }
  assert (Hd_t : forall t, i < t < vlen l0 ->
            vget dest t <= 0 \/ (t <= vget dest t < vlen l0 /\ vget dest (vget dest t) = vget dest t)).
  { intros t Htr. pose proof (Hdest t ltac:(lia)) as H.
    destruct (interesting (vget l t)); [right; rewrite H; auto with lia|].
    pose proof (Hf t true ltac:(lia)) as Hft. simpl in Hft. rewrite H.
    destruct (Z.ltb_spec 0 (j_yes (vget l t))); [right|left; lia].
    split; [lia|]. apply (Hj t true); [lia|done]. }
  assert (He : forall k, jmp e k <= 0 \/ i < jmp e k < vlen l).
  { intros k. destruct (Z.ltb_spec 0 (jmp (vget l i) k)) as [Hk|Hk].
    - destruct (Htgt k Hk) as [Hr ->]. destruct (Hd_t _ Hr) as [|[? _]]; lia.
    - rewrite Hneg by done. lia. }
  assert (Hfix : forall k, 0 < jmp e k -> vget dest (jmp e k) = jmp e k).
  { intros k Hk. destruct (Z.ltb_spec 0 (jmp (vget l i) k)) as [Hk'|Hk'].
    - destruct (Htgt k Hk') as [Hr Heq]. rewrite Heq in *. destruct (Hd_t _ Hr) as [|[_ ?]]; [lia|done].
    - rewrite Hneg in Hk by done. lia. }
  set (di := if interesting e then i else if j_yes e <=? 0 then j_yes e else vget dest (j_yes e)).
  assert (Hdi : di = if interesting e then i else j_yes e).
  { unfold di. destruct (interesting e); [done|].
    destruct (Z.leb_spec (j_yes e) 0); [done|]. by apply (Hfix true). }
  constructor; simpl.
  - by rewrite vlen_vset.
  - by rewrite vlen_vset.
  - apply fwd_vset; [done|lia|done].
  - intros s Hs. rewrite vget_vset by lia. case_decide as Hc; [destruct Hc as [<- _]|by apply Ht].
    by apply (Ht i).
  - intros s k Hs. cbn [fst snd]. fold e di. rewrite !(vget_vset l) by lia. intros Hk.
    case_decide as Hc.
    + destruct Hc as [<- _]. rewrite vget_vset_ne by (pose proof (He k); lia). by apply Hfix.
    + assert (s <> i) by (intros ->; apply Hc; lia).
      rewrite vget_vset_ne by (pose proof (Hf s k ltac:(lia)); lia). apply Hj; [lia|done].
  - intros s Hs. rewrite !vget_vset by lia. rewrite Hl, Hd.
    case_decide as Hc; [destruct Hc as [<- _]; done|].
    apply Hdest. destruct (decide (s = i)) as [->|]; [|lia]. exfalso. apply Hc. lia.
  - intros s r H. apply HR in H. revert s r H. apply Runs_vset; [done|lia|done|].
    intros r H. apply Runs_unfold in H; [|lia].
    assert (Heq : o e = o (vget l i)) by (apply Ho; done).
    rewrite Heq. set (k := o (vget l i)) in *.
    destruct (Z.ltb_spec 0 (jmp (vget l i) k)) as [Hk|Hk].
    2:{ rewrite Hneg by done. done. }
    destruct (Htgt k Hk) as [Hr ->]. destruct H as [[? _]|[_ H]]; [lia|].
    rewrite Hdest by lia. destruct (interesting (vget l (jmp (vget l i) k))) eqn:Hint.
    { by right. }
    apply Runs_unfold in H; [|lia]. rewrite uninteresting_jump in H; [done| |lia|done].
    apply Ht. lia.
Qed.

Lemma skip_uninteresting_inv : skip_inv 0 (skip_uninteresting l0).
Proof.
  unfold skip_uninteresting. apply for_down_inv.
  - apply vlen_nonneg.
  - constructor; simpl; try done; try lia. unfold vlen. by rewrite length_replicate.
  - intros i st Hi. by apply skip_step_inv.
Qed.

(** ** The first instruction *)

(** Every positive jump lands on an interesting instruction. *)
Definition targets_interesting (l : list Insn) : Prop :=
  forall s k, 0 <= s < vlen l -> 0 < jmp (vget l s) k ->
    interesting (vget l (jmp (vget l s) k)) = true.

Lemma skip_targets l dest : skip_inv 0 (l, dest) -> targets_interesting l.
Proof.
  intros [Hl Hd Hf Ht Hj Hdest _] s k Hs Hk. simpl in *.
  pose proof (Hf s k Hs) as [|Hr]; [lia|].
  pose proof (Hj s k ltac:(lia) Hk) as Hfix. rewrite Hdest in Hfix by lia.
  destruct (interesting _) eqn:E; [done|]. exfalso.
  set (t := jmp (vget l s) k) in *. clearbody t.
  pose proof (Hf t true ltac:(lia)). simpl in *. lia.
Qed.

Record first_ok (l : list Insn) (oe : Z) : Prop := {
  fi_len : vlen l = vlen l0;
  fi_fwd : fwd l;
  fi_targets : targets_interesting l;
  fi_tests : forall s, 0 <= s < vlen l0 -> exists s', 0 <= s' < vlen l0 /\
    same_test (vget l s) (vget l0 s') /\ padding (vget l s) = padding (vget l0 s');
  fi_first : oe < 0 -> oe = -1 /\ interesting (vget l 0) = true;
  fi_runs : forall r, Runs l0 o 0 r -> if oe <? 0 then Runs l o 0 r else r = oe
}.

Lemma check_first_ok l dest l' oe :
  0 < vlen l0 -> skip_inv 0 (l, dest) -> check_first l (vget dest 0) = (l', oe) ->
  first_ok l' oe.
Proof.
  intros Hn Hsk. pose proof (skip_targets _ _ Hsk) as Htg.
  destruct Hsk as [Hl Hd Hf Ht Hj Hdest HR]. simpl in *. unfold check_first.
  pose proof (Hdest 0 ltac:(lia)) as Hd0.
  assert (Htests : forall s, 0 <= s < vlen l0 -> exists s', 0 <= s' < vlen l0 /\
    same_test (vget l s) (vget l0 s') /\ padding (vget l s) = padding (vget l0 s')) by eauto.
  assert (Hyes : interesting (vget l 0) = false -> forall r, Runs l0 o 0 r ->
            goes l o (j_yes (vget l 0)) r).
  { intros Hint r H. apply HR, Runs_unfold in H; [|lia].
    rewrite uninteresting_jump in H; [done| |lia|done]. apply Ht. lia. }
  destruct (Z.ltb_spec 0 (vget dest 0)) as [Hpos|Hnp].
  { intros [= <- <-]. destruct (interesting (vget l 0)) eqn:Hint; [lia|]. rewrite Hd0 in *.
    pose proof (Hf 0 true ltac:(lia)) as Hr. simpl in Hr.
    set (t := j_yes (vget l 0)) in *. constructor.
    - by rewrite vlen_vset.
    - apply fwd_vset; [done|lia|]. intros k. pose proof (Hf t k ltac:(lia)). lia.
    - intros s k. rewrite vlen_vset. intros Hs.
      assert (Hgo : forall s', 0 <= s' < vlen l -> 0 < jmp (vget l s') k ->
                interesting (vget (vset l 0 (vget l t)) (jmp (vget l s') k)) = true).
      { intros s' Hs' Hk'. rewrite vget_vset_ne by lia. by apply Htg. }
      destruct (decide (s = 0)) as [->|].
      + rewrite (vget_vset_eq l 0) by lia. apply Hgo. lia.
      + rewrite (vget_vset_ne l 0 s) by lia. apply Hgo. lia.
    - intros s Hs. rewrite vget_vset by lia. case_decide; apply Htests; lia.
    - intros _. split; [done|]. rewrite vget_vset_eq by lia. apply (Htg 0 true); [lia|done].
    - intros r H. specialize (Hyes eq_refl r H). simpl. apply HR in H. revert H.
      apply Runs_vset; [done|lia| |].
      + intros k. pose proof (Hf t k ltac:(lia)). lia.
      + intros r' H'. apply Runs_unfold in H'; [|lia].
        rewrite uninteresting_jump in H'; [| |lia|done]; [|apply Ht; lia].
        destruct H' as [[? _]|[_ H']]; [lia|]. apply Runs_unfold in H'; [done|lia]. }
  destruct (Z.ltb_spec (vget dest 0) 0) as [Hlt|Hge].
  { intros [= <- <-]. destruct (interesting (vget l 0)) eqn:Hint; [lia|].
    constructor; auto; try lia. intros r H. destruct (Z.ltb_spec (- vget dest 0) 0); [lia|].
    destruct (Hyes eq_refl r H) as [[_ ->]|[? _]]; lia. }
  assert (vget dest 0 = 0) as E0 by lia. rewrite E0 in *.
  destruct (interesting (vget l 0)) eqn:Hint.
  - destruct (_ && _) eqn:Hc.
    { exfalso. unfold interesting in Hint. bprop.
      match goal with H : _ || _ = true |- _ => apply orb_true_iff in H as [?|?] end; bprop; lia. }
    intros [= <- <-]. constructor; simpl; auto.
  - assert (Hy0 : j_yes (vget l 0) = 0) by done. rewrite Hy0. cbn [Z.eqb andb].
    unfold interesting in Hint.
    assert ((j_no (vget l 0) =? 0) || (mask (vget l 0) =? 0) = true) as ->.
    { apply orb_true_iff. apply andb_false_iff in Hint as [H|H]; bprop;
        [left|right]; apply Z.eqb_eq; congruence. }
    intros [= <- <-]. constructor; auto; try lia. intros r H. simpl.
    destruct (Hyes eq_refl r H) as [[_ ->]|[? _]]; lia.
Qed.
End skip.

(** ** Numbering the reachable states *)

Section number.
Context (l : list Insn) (Hf : fwd l) (Hn : 0 < vlen l).

Record number_inv (m : Z) (st : list Z * Z) : Prop := {
  nu_len : vlen st.1 = vlen l;
  nu_idx : 0 <= st.2 <= m;
  nu_first : vget st.1 0 = 0 /\ (0 < m -> 0 < st.2);
  nu_done : forall s, 0 <= s < m -> vget st.1 s < 0 \/ (0 <= vget st.1 s < st.2 /\ vget st.1 s <= s);
  nu_todo : forall s, m <= s < vlen l -> vget st.1 s = -1 \/ vget st.1 s = 0;
  nu_mono : forall s s', 0 <= s < s' -> s' < m -> 0 <= vget st.1 s -> 0 <= vget st.1 s' ->
    vget st.1 s < vget st.1 s';
  nu_closed : forall s k, 0 <= s < m -> 0 <= vget st.1 s -> 0 < jmp (vget l s) k ->
    0 <= vget st.1 (jmp (vget l s) k);
  nu_onto : forall v, 0 <= v < st.2 -> exists s, 0 <= s < m /\ vget st.1 s = v;
  nu_pred : forall s, 0 < s < vlen l -> 0 <= vget st.1 s ->
    exists q k, 0 <= q < vlen l /\ jmp (vget l q) k = s
}.

(** Marking a jump target of [i] changes only larger states. *)
Definition mark (i : Z) (k : bool) (dest : list Z) : list Z :=
  if 0 <? jmp (vget l i) k then vset dest (jmp (vget l i) k) 0 else dest.

Lemma mark_get i k dest s :
  0 <= i < vlen l -> 0 <= s -> vlen dest = vlen l ->
  vget (mark i k dest) s = if decide (s = jmp (vget l i) k /\ 0 < s) then 0 else vget dest s.
Proof.
  intros Hi Hs Hd. unfold mark. pose proof (Hf i k Hi).
  destruct (Z.ltb_spec 0 (jmp (vget l i) k)).
  - rewrite vget_vset by lia. repeat case_decide; lia.
  - case_decide; [lia|done].
Qed.

Lemma mark_len i k dest : vlen (mark i k dest) = vlen dest.
Proof. unfold mark. case_match; [apply vlen_vset|done]. Qed.

Lemma number_step_inv i st :
  0 <= i < vlen l -> number_inv i st -> number_inv (i + 1) (number_step l i st).
Proof.
  destruct st as [dest idx]. intros Hi Hinv. unfold number_step.
  destruct Hinv as [Hl Hidx [H0 H0'] Hdone Htodo Hmono Hclosed Honto Hpred]. simpl in *.
  destruct (Z.leb_spec 0 (vget dest i)) as [Hge|Hlt].
  2:{ constructor; simpl; auto; try lia.
      - split; [done|]. intros _. destruct (decide (i = 0)) as [->|]; lia.
      - intros s Hs. destruct (decide (s = i)) as [->|]; [lia|]. apply Hdone. lia.
      - intros s Hs. apply Htodo. lia.
      - intros s s' Hs Hs' H1 H2. destruct (decide (s' = i)) as [->|]; [lia|]. apply Hmono; lia.
      - intros s k Hs H1. destruct (decide (s = i)) as [->|]; [lia|]. apply Hclosed; lia.
      - intros v Hv. destruct (Honto v Hv) as (s & ? & ?). exists s. split; [lia|done]. }
  change (number_inv (i + 1) (mark i true (mark i false (vset dest i idx)), idx + 1)).
  set (dest' := mark i true (mark i false (vset dest i idx))).
  assert (Hget : forall s, 0 <= s -> vget dest' s =
            if decide (s = i) then idx
            else if decide (0 < s /\ (s = jmp (vget l i) true \/ s = jmp (vget l i) false))
            then 0 else vget dest s).
  { intros s Hs. unfold dest'.
    rewrite !mark_get by (rewrite ?mark_len, ?vlen_vset; done).
    rewrite vget_vset by lia.
    pose proof (Hf i true Hi). pose proof (Hf i false Hi). repeat case_decide; lia. }
  assert (Hlow : forall s, 0 <= s < i -> vget dest' s = vget dest s).
  { intros s Hs. rewrite Hget by lia. pose proof (Hf i true Hi). pose proof (Hf i false Hi).
    repeat case_decide; lia. }
  assert (Hi' : vget dest' i = idx) by (rewrite Hget by lia; by case_decide).
  assert (Hlt_idx : forall s, 0 <= s < i -> 0 <= vget dest s -> vget dest s < idx).
  { intros s Hs Hs'. destruct (Hdone s Hs); lia. }
  constructor; cbn [fst snd].
  - unfold dest'. by rewrite !mark_len, vlen_vset.
  - lia.
  - split; [|lia]. destruct (decide (i = 0)) as [->|]; [rewrite Hi'; lia|by rewrite Hlow by lia].
  - intros s Hs. destruct (decide (s = i)) as [->|]; [rewrite Hi'; lia|].
    rewrite Hlow by lia. destruct (Hdone s); lia.
  - intros s Hs. rewrite Hget by lia. case_decide; [lia|].
    case_decide; [auto|]. apply Htodo. lia.
  - intros s s' Hs Hs'. destruct (decide (s' = i)) as [->|].
    + rewrite Hi', Hlow by lia. intros H1 _. by apply Hlt_idx.
    + rewrite !Hlow by lia. intros H1 H2. apply Hmono; lia.
  - intros s k Hs H1 Hk. rewrite Hget by (pose proof (Hf s k ltac:(lia)); lia).
    repeat case_decide; try lia. destruct (decide (s = i)) as [->|].
    + destruct k; lia.
    + rewrite Hlow in H1 by lia. apply Hclosed; lia.
  - intros v Hv. destruct (decide (v = idx)) as [->|].
    + exists i. split; [lia|done].
    + destruct (Honto v ltac:(lia)) as (s & ? & ?). exists s. split; [lia|]. by rewrite Hlow by lia.
  - intros s Hs. rewrite Hget by lia. case_decide as Hc1; [subst s; intros _; by apply Hpred|].
    case_decide as Hc2; [|by apply Hpred]. intros _.
    destruct Hc2 as [_ [->| ->]]; eauto.
Qed.

Lemma number_states_inv : number_inv (vlen l) (number_states l (-1)).
Proof.
  unfold number_states. apply for_up_inv; [lia| |intros; by apply number_step_inv].
  assert (Hr : forall s, 0 <= s < vlen l -> vget (replicate (length l) (-1)) s = -1).
  { intros s Hs. apply vget_lookup; [lia|]. apply lookup_replicate. unfold vlen in Hs. lia. }
  assert (Hrl : vlen (replicate (length l) (-1)) = vlen l) by (unfold vlen; by rewrite length_replicate).
  constructor; cbn [fst snd Z.ltb Z.compare]; try lia.
  - by rewrite vlen_vset.
  - split; [|lia]. apply vget_vset_eq. lia.
  - intros s Hs. rewrite vget_vset by lia. case_decide; [by right|]. left. apply Hr. lia.
  - intros s Hs. rewrite vget_vset_ne by lia. rewrite Hr by lia. lia.
Qed.

(** ** Rearranging *)

Lemma rearrange_spec dest n' :
  number_inv (vlen l) (dest, n') ->
  vlen (rearrange dest l) = vlen l
  /\ forall s, 0 <= s < vlen l -> 0 <= vget dest s ->
       vget (rearrange dest l) (vget dest s) = relabel dest (vget l s).
Proof.
  clear Hn. intros [Hl Hidx _ Hdone _ Hmono _ _ _]. simpl in *. unfold rearrange.
  pose proof (for_up_inv (fun m lm => vlen lm = vlen l
    /\ (forall s, 0 <= s < m -> 0 <= vget dest s -> vget lm (vget dest s) = relabel dest (vget l s))
    /\ forall s, m <= s < vlen l -> vget lm s = vget l s) 0 (vlen l) (rearrange_step dest) l) as H.
  destruct H as (H1 & H2 & _); [lia|split; [done|split; [lia|done]]| |done].
  intros i lm Hi (Hlm & Hdn & Htd). unfold rearrange_step.
  destruct (Z.leb_spec 0 (vget dest i)) as [Hge|Hlt].
  2:{ split; [done|]. split; [|intros; apply Htd; lia].
      intros s Hs. destruct (decide (s = i)) as [->|]; [lia|]. apply Hdn. lia. }
  assert (Hdi : vget dest i <= i) by (destruct (Hdone i); lia).
  assert (Hgoal : forall x, vget x (vget dest i) = vget l i -> vlen x = vlen l ->
            (forall s, 0 <= s -> s <> vget dest i -> vget x s = vget lm s) ->
            let y := vset x (vget dest i) (relabel dest (vget x (vget dest i))) in
            vlen y = vlen l
            /\ (forall s, 0 <= s < i + 1 -> 0 <= vget dest s ->
                  vget y (vget dest s) = relabel dest (vget l s))
            /\ forall s, i + 1 <= s < vlen l -> vget y s = vget l s).
  { intros x Hx Hxl Hxo y. unfold y. rewrite Hx. split; [by rewrite vlen_vset|]. split.
    - intros s Hs Hs'. destruct (decide (s = i)) as [->|]; [apply vget_vset_eq; lia|].
      pose proof (Hmono s i ltac:(lia) ltac:(lia) Hs' Hge).
      rewrite vget_vset_ne by lia. rewrite Hxo by lia. apply Hdn; lia.
    - intros s Hs. rewrite vget_vset_ne by lia. rewrite Hxo by lia. apply Htd. lia. }
  destruct (Z.eqb_spec (vget dest i) i) as [He|He]; cbn [negb]; apply Hgoal; auto.
  - rewrite He. apply Htd. lia.
  - rewrite vget_vset_eq by lia. apply Htd. lia.
  - by rewrite vlen_vset.
  - intros s Hs Hne. by rewrite vget_vset_ne by lia.
Qed.
End number.

Lemma number_states_none l oe :
  0 <= oe -> exists dest, number_states l oe = (dest, 0).
Proof.
  intros Hoe. unfold number_states. destruct (Z.ltb_spec oe 0); [lia|].
  pose proof (for_up_inv (fun _ st => st = (replicate (length l) (-1), 0)) 0 (vlen l)
                (number_step l) (replicate (length l) (-1), 0)) as H'.
  exists (replicate (length l) (-1)). apply H'; [apply vlen_nonneg|done|].
  intros i st Hi ->. unfold number_step.
  rewrite (vget_lookup _ i (-1)) by (try apply lookup_replicate; unfold vlen in *; lia). done.
Qed.

Lemma vget_take {A} `{Inhabited A} (l : list A) n i :
  0 <= i < n -> vget (take (Z.to_nat n) l) i = vget l i.
Proof.
  intros Hi. unfold vget. destruct (Z.leb_spec 0 i); [|lia].
  rewrite !list_lookup_total_alt, lookup_take. by rewrite decide_True by lia.
Qed.

Lemma vlen_take {A} (l : list A) n : 0 <= n <= vlen l -> vlen (take (Z.to_nat n) l) = n.
Proof. unfold vlen. rewrite length_take. lia. Qed.

(** ** The whole pass *)

Record remove_ok (P P' : Program) : Prop := {
  rm_fwd : fwd (insns P');
  rm_align : align_offset P' = align_offset P;
  rm_empty : 0 <= output_everything P' -> insns P' = [];
  rm_nonempty : output_everything P' < 0 -> 0 < ninsn P';
  rm_interesting : all_insns (fun e => interesting e = true) (insns P');
  rm_tests : all_insns (fun e => exists s, 0 <= s < ninsn P
    /\ same_test e (insn_at P s) /\ padding e = padding (insn_at P s)) (insns P');
  rm_runs : forall o, test_outcome o ->
    (forall i, 0 <= i < ninsn P -> mask (insn_at P i) = 0 -> o (insn_at P i) = true) ->
    forall r, Runs (insns P) o 0 r ->
      if output_everything P' <? 0 then Runs (insns P') o 0 r else r = output_everything P'
}.

Section finish.
Context (l : list Insn) (Hf : fwd l).
Context (dest : list Z) (n' : Z) (Hnum : number_inv l (vlen l) (dest, n')).
Let l' := take (Z.to_nat n') (rearrange dest l).

Lemma compact_len : vlen l' = n'.
Proof.
  destruct (rearrange_spec l dest n' Hnum) as [Hl _]. destruct Hnum as [_ Hidx _ _ _ _ _ _ _].
  simpl in *. apply vlen_take. lia.
Qed.

Lemma compact_get s :
  0 <= s < vlen l -> 0 <= vget dest s -> vget l' (vget dest s) = relabel dest (vget l s).
Proof.
  intros Hs Hd. destruct (rearrange_spec l dest n' Hnum) as [_ Hg].
  destruct Hnum as [_ _ _ Hdone _ _ _ _ _]. simpl in *. unfold l'.
  rewrite vget_take by (destruct (Hdone s); lia). by apply Hg.
Qed.

(** A new state is the image of an old one, and its jumps are renumbered. *)
Lemma compact_onto v :
  0 <= v < vlen l' -> exists s, 0 <= s < vlen l /\ vget dest s = v
    /\ vget l' v = relabel dest (vget l s).
Proof.
  intros Hv. rewrite compact_len in Hv. destruct Hnum as [_ _ _ _ _ _ _ Honto _]. simpl in *.
  destruct (Honto v Hv) as (s & Hs & <-). exists s. split; [done|]. split; [done|].
  apply compact_get; lia.
Qed.

Lemma compact_jump s k :
  0 <= s < vlen l -> 0 <= vget dest s ->
  jmp (relabel dest (vget l s)) k = remap dest (jmp (vget l s) k)
  /\ (0 < jmp (vget l s) k ->
      vget dest s < vget dest (jmp (vget l s) k) < n').
Proof.
  intros Hs Hd. split; [by destruct k|]. intros Hk.
  destruct Hnum as [_ _ _ Hdone _ Hmono Hclosed _ _]. simpl in *.
  pose proof (Hf s k Hs) as [|Hr]; [lia|]. pose proof (Hclosed s k Hs Hd Hk) as Hc.
  set (t := jmp (vget l s) k) in *. clearbody t.
  pose proof (Hmono s t ltac:(lia) ltac:(lia) Hd Hc).
  destruct (Hdone t); lia.
Qed.

Lemma compact_fwd : fwd l'.
Proof.
  intros v k Hv. destruct (compact_onto v Hv) as (s & Hs & <- & ->).
  destruct (compact_jump s k Hs ltac:(lia)) as [-> Hj]. rewrite compact_len.
  unfold remap. destruct (Z.ltb_spec 0 (jmp (vget l s) k)); [right|left]; lia.
Qed.

Lemma compact_runs o s r :
  test_outcome o -> Runs l o s r -> 0 <= vget dest s -> Runs l' o (vget dest s) r.
Proof.
  intros Ho H. induction H as [s r Hs Hj Hr|s t r Hs Hj Ht H IH]; intros Hd.
  all: pose proof (compact_get s Hs Hd) as Hg.
  all: destruct (compact_jump s (o (vget l s)) Hs Hd) as [Hj1 Hj2].
  all: assert (He : o (vget l' (vget dest s)) = o (vget l s)) by (rewrite Hg; by apply Ho).
  all: assert (Hrange : 0 <= vget dest s < vlen l') by
    (rewrite compact_len; destruct Hnum as [_ _ _ Hdone _ _ _ _ _]; simpl in *; destruct (Hdone s); lia).
  all: apply Runs_unfold; [done|]; rewrite He, Hg, Hj1, Hj; unfold remap.
  - destruct (Z.ltb_spec 0 (- r)); [lia|]. left. lia.
  - destruct (Z.ltb_spec 0 t); [|lia]. rewrite Hj in Hj2. specialize (Hj2 Ht).
    right. split; [lia|]. apply IH. lia.
Qed.
End finish.

Lemma interesting_relabel l dest n' s :
  fwd l -> targets_interesting l -> number_inv l (vlen l) (dest, n') ->
  0 <= s < vlen l -> 0 <= vget dest s -> interesting (vget l s) = true ->
  interesting (relabel dest (vget l s)) = true.
Proof.
  intros Hf Htg Hnum Hs Hd Hint. unfold interesting in *. bprop.
  apply andb_true_iff. split; [|by apply negb_true_iff, Z.eqb_neq].
  apply negb_true_iff, Z.eqb_neq. simpl.
  destruct (compact_jump l Hf dest n' Hnum s true Hs Hd) as [_ H1].
  destruct (compact_jump l Hf dest n' Hnum s false Hs Hd) as [_ H2].
  destruct Hnum as [_ _ _ _ _ Hmono Hclosed _ _]. simpl in *. unfold remap.
  pose proof (Hf s true Hs) as F1. pose proof (Hf s false Hs) as F2. simpl in *.
  repeat bdestr; try lia.
  pose proof (Hclosed s true Hs Hd) as C1. pose proof (Hclosed s false Hs Hd) as C2. simpl in *.
  destruct (Z.lt_total (j_yes (vget l s)) (j_no (vget l s))) as [Hlt|[Heq|Hgt]]; [|done|].
  - pose proof (Hmono (j_yes (vget l s)) (j_no (vget l s))). lia.
  - pose proof (Hmono (j_no (vget l s)) (j_yes (vget l s))). lia.
Qed.

Lemma remove_unused_ok P :
  fwd (insns P) -> 0 < ninsn P -> remove_ok P (remove_unused_states P).
Proof.
  intros Hf Hn. unfold remove_unused_states. destruct (Z.eqb_spec (ninsn P) 0); [lia|].
  destruct (skip_uninteresting (insns P)) as [l1 d1] eqn:Esk.
  destruct (check_first l1 (vget d1 0)) as [l2 oe] eqn:Ecf.
  assert (Hfirst : forall o, test_outcome o ->
    (forall i, 0 <= i < ninsn P -> mask (insn_at P i) = 0 -> o (insn_at P i) = true) ->
    first_ok (insns P) o l2 oe).
  { intros o Ho Hz. eapply check_first_ok; [done..| |exact Ecf].
    rewrite <- Esk. by apply skip_uninteresting_inv. }
  destruct (Hfirst (fun _ => true)) as [Hl2 Hf2 Htg Ht2 Hfi _]; [done|done|].
  destruct (Z.ltb_spec oe 0) as [Hneg|Hpos].
  - destruct (Hfi Hneg) as [-> Hint0]. destruct (number_states l2 (-1)) as [dest n'] eqn:En.
    assert (Hn2 : 0 < vlen l2) by (rewrite Hl2; done).
    pose proof (number_states_inv l2 Hf2 Hn2) as Hnum. rewrite En in Hnum.
    assert (Hint : forall s, 0 <= s < vlen l2 -> 0 <= vget dest s -> interesting (vget l2 s) = true).
    { intros s Hs Hd. destruct (decide (s = 0)) as [->|]; [done|].
      destruct (nu_pred _ _ _ Hnum s ltac:(lia) Hd) as (q & k & Hq & Hj).
      rewrite <- Hj. apply Htg; [done|]. rewrite Hj. lia. }
    constructor; cbn [insns output_everything align_offset].
    + by apply compact_fwd.
    + done.
    + lia.
    + intros _. unfold ninsn. simpl. rewrite (compact_len l2 dest n' Hnum).
      destruct Hnum as [_ _ [_ H0] _ _ _ _ _ _]. simpl in H0. lia.
    + intros v Hv. destruct (compact_onto l2 dest n' Hnum v Hv) as (s & Hs & Hd & ->).
      assert (0 <= vget dest s) by lia. eapply interesting_relabel; eauto.
    + intros v Hv. destruct (compact_onto l2 dest n' Hnum v Hv) as (s & Hs & Hd & ->).
      rewrite Hl2 in Hs. destruct (Ht2 s Hs) as (s' & ? & ? & ?). by exists s'.
    + intros o Ho Hz r H. destruct (Hfirst o Ho Hz) as [_ _ _ _ _ HR].
      specialize (HR r H). simpl in *.
      assert (H0 : vget dest 0 = 0) by (destruct Hnum as [_ _ [? _] _ _ _ _ _]; done).
      rewrite <- H0. apply compact_runs; auto. lia.
  - destruct (number_states_none l2 oe Hpos) as [dest En]. rewrite En.
    constructor; cbn [insns output_everything align_offset]; try done; try lia.
    all: try (intros i k; simpl; unfold vlen; simpl; lia).
    + intros v Hv. unfold vlen in Hv. simpl in Hv. lia.
    + intros v Hv. unfold vlen in Hv. simpl in Hv. lia.
    + intros o Ho Hz r H. destruct (Hfirst o Ho Hz) as [_ _ _ _ _ HR].
      specialize (HR r H). by destruct (Z.ltb_spec oe 0); [lia|].
Qed.

(** ** Property *)

(** An instruction with an empty mask succeeds wherever it points. *)
Definition passing_empty (o : Insn -> bool) (e : Insn) : bool := (mask e =? 0) || o e.

Lemma passing_empty_test o : test_outcome o -> test_outcome (passing_empty o).
Proof. intros Ho e x Hs. unfold passing_empty. rewrite (Ho e x Hs). by destruct Hs as (_ & _ & -> & _). Qed.

Lemma Runs_outcome l o o' pos r :
  (forall i, 0 <= i < vlen l -> o (vget l i) = o' (vget l i)) -> Runs l o pos r -> Runs l o' pos r.
Proof.
  intros He H. induction H as [pos r Hp Hj Hr|pos pos' r Hp Hj Hlt H IH]; rewrite He in Hj by done;
    [by apply Runs_out|by eapply Runs_step].
Qed.

(** An empty mask matches what there is of the packet. *)
Lemma empty_mask_checked al p e :
  0 <= al -> pkt_length p + al < 2147483648 -> insn_ok e -> mask e = 0 -> offset e < pkt_length p + al -> checked_outcome al p e = true.
Proof.
  intros Hal Hlen Hok Hm Hoff. assert (Hfast : fast_outcome al p e = true) by (by apply wtest_zero).
  unfold checked_outcome. assert (0 <= pkt_length p) by apply vlen_nonneg. rewrite i32_small by lia. case_match; [|done].
  assert (Hc : forall k, 0 <= k -> mask_c e k = 0).
  { intros k Hk. unfold mask_c, byte_of. by rewrite Hm, Z.shiftr_0_l, Z.land_0_l. }
  rewrite !Hc by lia. by destruct (Z.ltb_spec (offset e) (pkt_length p + al)); [|lia].
Qed.

(** C19. Removing unused states leaves a program in which every instruction tests
    something and chooses between two different jumps, or a single output for
    all packets.  On every packet it gives the output of the old program in which
    the instructions with an empty mask succeed.  That is the output of the old
    program itself if these instructions begin within the packet; behind the end of
    a short packet they give their short output instead, as in the pattern [4/????],
    and the removal loses it ([short_output_lost]). *)
Theorem remove_unused_preserves_match P p :
  fwd (insns P) -> 0 < ninsn P ->
  let P' := remove_unused_states P in
  let result := exec (length (insns P)) (insns P) (passing_empty (checked_outcome (align_offset P) p)) 0 in
  all_insns (fun e => interesting e = true) (insns P')
  /\ (if output_everything P' <? 0 then length_checked_match P' p else Some (output_everything P')) = result
  /\ (all_insns insn_ok (insns P) -> 0 <= align_offset P -> pkt_length p + align_offset P < 2147483648 ->
      all_insns (fun e => mask e = 0 -> offset e < pkt_length p + align_offset P) (insns P) ->
      result = length_checked_match P p).
Proof.
  intros Hf Hn P' result. pose proof (remove_unused_ok P Hf Hn) as R. fold P' in R.
  split; [apply R|]. set (o := checked_outcome (align_offset P) p). unfold ninsn in Hn.
  destruct (Runs_total (insns P) (passing_empty o) 0 Hf) as [r Hr]; [lia|].
  assert (Hres : result = Some r) by (apply Runs_exec; [done|done|unfold vlen; lia]). split.
  - rewrite Hres. pose proof (rm_runs _ _ R (passing_empty o) (passing_empty_test _ (checked_test_outcome _ _))
      ltac:(intros i Hi Hm; unfold passing_empty; by rewrite Hm) r Hr) as Hr'.
    destruct (Z.ltb_spec (output_everything P') 0); [|by subst]. unfold length_checked_match. rewrite (rm_align _ _ R). fold o.
    apply Runs_exec; [apply R| |unfold vlen; lia]. revert Hr'. apply Runs_outcome. intros i Hi.
    pose proof (rm_interesting _ _ R i Hi) as Hint. unfold passing_empty. unfold interesting in Hint. apply andb_true_iff in Hint as [_ Hm].
    by destruct (mask (vget (insns P') i) =? 0).
  - intros Hok Hal Hlen Hz. rewrite Hres. symmetry. apply Runs_exec; [done| |unfold vlen; lia]. revert Hr. apply Runs_outcome. intros i Hi.
    unfold passing_empty. destruct (Z.eqb_spec (mask (vget (insns P) i)) 0) as [Hm|]; [|done].
    symmetry. apply empty_mask_checked; [done|done|by apply Hok|done|by apply Hz].
Qed.

(** A test of nothing between two real ones. *)
Definition useless_program : Program :=
  mkProgram [new_insn 12 8 255 2 1 false; new_insn 0 0 0 j_never 2 false;
             new_insn 13 6 255 j_never 0 false] (-1) 0 0.

Lemma useless_program_ok : fwd (insns useless_program) /\ all_insns insn_ok (insns useless_program).
Proof.
  split; [apply fwdb_fwd; vm_compute; reflexivity|].
  intros i Hi. assert (i = 0 \/ i = 1 \/ i = 2) as [-> | [-> | ->]] by (unfold vlen in Hi; simpl in Hi; lia);
    (split; [|split; [|split]]); vm_compute; repeat split; congruence.
Qed.

Lemma remove_unused_preserves_match_witness :
  (if output_everything (remove_unused_states useless_program) <? 0
   then length_checked_match (remove_unused_states useless_program) (packet_of (replicate 20 0))
   else Some (output_everything (remove_unused_states useless_program)))
  = length_checked_match useless_program (packet_of (replicate 20 0)).
Proof.
  destruct useless_program_ok as [Hf Hok].
  destruct (remove_unused_preserves_match useless_program (packet_of (replicate 20 0)) Hf ltac:(vm_compute; reflexivity)) as (_ & H1 & H2).
  etransitivity; [exact H1|]. apply H2; [exact Hok|vm_compute; congruence|vm_compute; reflexivity|].
  intros i Hi _. assert (i = 0 \/ i = 1 \/ i = 2) as [-> | [-> | ->]] by (unfold vlen in Hi; simpl in Hi; lia);
    vm_compute; reflexivity.
Defined.

(** [4/????] on a packet of two bytes: the instruction fails behind the end of the
    packet, and what remains without it sends every packet to output 0. *)
Example short_output_lost :
  let P := mkProgram [new_insn 4 0 0 j_failure 0 false] (-1) 0 0 in
  length_checked_match P (packet_of [0; 0]) = Some 2147483646 /\ output_everything (remove_unused_states P) = 0.
Proof. vm_compute. done. Qed.
