(* ===== verification/Dominator.v ===== *)
(** * The dominator optimizer

    [Classification::Wordwise::DominatorOptimizer] of
    elements/standard/classification.{hh,cc}.  For every state the optimizer
    keeps up to four sets of branches such that every path to the state
    contains one of the sets; a branch into a state whose test is decided by
    all of them is moved past it.

    The sets live in three flat vectors: [_dom] holds the branches,
    [_dom_start[k]] says where set [k] starts in [_dom], and
    [_domlist_start[s]] which sets belong to state [s].  The last element of
    a set is a placeholder that the code overwrites in place.  Predecessors
    are doubly linked lists threaded through [_pred_first], [_pred_next] and
    [_pred_prev].  The assertions of the source check the state without
    changing it and are not part of the model. *)

From S2P Require Import Prelude Packet Insn Program.

(** ** Branch numbers *)

Definition brno (state : Z) (br : bool) : Z := (state .<< 1) + (if br then 1 else 0).
Definition stateno (br : Z) : Z := br .>> 1.
Definition br_yes (br : Z) : bool := negb ((br .& 1) =? 0).

Definition MAX_DOMLIST : Z := 4.

(** ** State of the optimizer *)

Record Dom := mkDom {
  d_insn : list Insn;          (** [_p->_insn] *)
  d_dom : list Z;              (** [_dom] *)
  d_start : list Z;            (** [_dom_start] *)
  d_lists : list Z;            (** [_domlist_start] *)
  d_pfirst : list Z;           (** [_pred_first], indexed by state *)
  d_pnext : list Z;            (** [_pred_next], indexed by branch *)
  d_pprev : list Z             (** [_pred_prev], indexed by branch *)
}.

(** The two vectors that the constructor computes once. *)
Record DomEnv := mkEnv { known_length : list Z; insn_id : list Z }.

(** ** Constructor *)

Definition known_length_step (l : list Insn) (i : Z) (kl : list Z) : list Z :=
  let e := vget l i in
  let tested_length :=
    if required_length e <? vget kl i then vget kl i else required_length e in
  let so := short_output e in
  let kl :=
    if (0 <? jmp e (negb so)) && (tested_length <? vget kl (jmp e (negb so)))
    then vset kl (jmp e (negb so)) tested_length else kl in
  if (0 <? jmp e so) && (vget kl i <? vget kl (jmp e so))
  then vset kl (jmp e so) (vget kl i) else kl.

Definition make_known_length (l : list Insn) : list Z :=
  for_up 0 (vlen l) (known_length_step l) (vset (replicate (length l) 2147483647) 0 0).

(** [insn_permute_compare] *)
Definition insn_permute_compare (l : list Insn) (a b : Z) : Z :=
  let cmp := insn_compare (vget l a) (vget l b) in
  if negb (cmp =? 0) then cmp else a - b.

(** [click_qsort] with that comparator.  Ties are broken by the index, so the
    sorted vector does not depend on the sorting algorithm. *)
Fixpoint permute_insert (l : list Insn) (a : Z) (sorted : list Z) : list Z :=
  match sorted with
  | [] => [a]
  | b :: rest => if insn_permute_compare l a b <? 0 then a :: sorted
                 else b :: permute_insert l a rest
  end.

Definition insn_permute (l : list Insn) : list Z :=
  fold_right (permute_insert l) [] (seqZ 0 (vlen l)).

Definition insn_id_step (l : list Insn) (perm : list Z) (i : Z) (id : list Z) : list Z :=
  if (0 <? i) && (insn_compare (vget l (vget perm i)) (vget l (vget perm (i - 1))) =? 0)
  then vset id (vget perm i) (vget id (vget perm (i - 1)))
  else vset id (vget perm i) (vget perm i).

Definition make_insn_id (l : list Insn) : list Z :=
  let perm := insn_permute l in
  for_up 0 (vlen l) (insn_id_step l perm) (replicate (length l) 0).

Definition new_env (l : list Insn) : DomEnv :=
  mkEnv (make_known_length l) (make_insn_id l).

Definition new_dom (l : list Insn) : Dom := mkDom l [] [0] [0] [] [] [].

(** ** What a branch implies *)

Definition br_implies (E : DomEnv) (l : list Insn) (br state : Z) : bool :=
  let from_state := stateno br in
  let kl := vget (known_length E) from_state in
  if br_yes br then implies (vget l from_state) (vget l state) kl
  else not_implies (vget l from_state) (vget l state) kl.

Definition br_implies_not (E : DomEnv) (l : list Insn) (br state : Z) : bool :=
  let from_state := stateno br in
  let kl := vget (known_length E) from_state in
  if br_yes br then implies_not (vget l from_state) (vget l state) kl
  else not_implies_not (vget l from_state) (vget l state) kl.

(** ** Predecessor lists *)

Definition pred_arrays : Type := list Z * list Z * list Z.

Definition add_pred (l : list Insn) (i : Z) (k : bool) (a : pred_arrays) : pred_arrays :=
  let '(pf, pn, pp) := a in
  let nexts := jmp (vget l i) k in
  if 0 <? nexts then
    let br := brno i k in
    let pn := vset pn br (vget pf nexts) in
    let pp := if 0 <=? vget pf nexts then vset pp (vget pf nexts) br else pp in
    (vset pf nexts br, pn, pp)
  else a.

Definition init_preds (l : list Insn) : pred_arrays :=
  for_up 0 (vlen l) (fun i a => add_pred l i true (add_pred l i false a))
    (replicate (length l) (-1), replicate (length l * 2) (-1), replicate (length l * 2) (-1)).

(** Build the lists on first use. *)
Definition ensure_preds (D : Dom) : Dom :=
  match d_pfirst D with
  | [] => let '(pf, pn, pp) := init_preds (d_insn D) in
          mkDom (d_insn D) (d_dom D) (d_start D) (d_lists D) pf pn pp
  | _ => D
  end.

(** [for (br = first; br >= 0; br = _pred_next[br]) v.push_back(br)] *)
Fixpoint walk_preds (fuel : nat) (pn : list Z) (br : Z) : list Z :=
  match fuel with
  | O => []
  | S fuel' => if 0 <=? br then br :: walk_preds fuel' pn (vget pn br) else []
  end.

Definition find_predecessors (D : Dom) (state : Z) : list Z :=
  walk_preds (length (d_pnext D)) (d_pnext D) (vget (d_pfirst D) state).

(** The position in the list of [to_state] before which [br] is inserted. *)
Fixpoint find_slot (fuel : nat) (pn : list Z) (br prev cur : Z) : Z * Z :=
  match fuel with
  | O => (prev, cur)
  | S fuel' =>
      if (0 <=? cur) && (cur <? br) then find_slot fuel' pn br cur (vget pn cur)
      else (prev, cur)
  end.

Definition unlink_branch (old br : Z) (a : pred_arrays) : pred_arrays :=
  let '(pf, pn, pp) := a in
  if 0 <? old then
    let '(pf, pn) :=
      if 0 <=? vget pp br then (pf, vset pn (vget pp br) (vget pn br))
      else (vset pf old (vget pn br), pn) in
    let pp := if 0 <=? vget pn br then vset pp (vget pn br) (vget pp br) else pp in
    (pf, pn, pp)
  else a.

Definition link_branch (to_state br : Z) (a : pred_arrays) : pred_arrays :=
  let '(pf, pn, pp) := a in
  if 0 <? to_state then
    let '(prev, cur) := find_slot (length pn) pn br (-1) (vget pf to_state) in
    let pp := vset pp br prev in
    let pn := vset pn br cur in
    let '(pf, pn) :=
      if 0 <=? prev then (pf, vset pn prev br) else (vset pf to_state br, pn) in
    let pp := if 0 <=? vget pn br then vset pp (vget pn br) br else pp in
    (pf, pn, pp)
  else a.

Definition set_branch (D : Dom) (from_state : Z) (branch : bool) (to_state : Z) : Dom :=
  let e := vget (d_insn D) from_state in
  let br := brno from_state branch in
  let '(pf, pn, pp) :=
    link_branch to_state br
      (unlink_branch (jmp e branch) br (d_pfirst D, d_pnext D, d_pprev D)) in
  mkDom (vset (d_insn D) from_state (set_jmp e branch to_state))
        (d_dom D) (d_start D) (d_lists D) pf pn pp.

(** ** Intersecting lists *)

(** [while (pos[p] < end[p] && in[pos[p]] < x) pos[p]++] *)
Fixpoint advance (fuel : nat) (inp : list Z) (x q e : Z) : Z :=
  match fuel with
  | O => q
  | S fuel' => if (q <? e) && (vget inp q <? x) then advance fuel' inp x (q + 1) e else q
  end.

(** The body of [while (1)]; [k] counts the lists known to contain [x]. *)
Fixpoint intersect_loop (fuel : nat) (inp end_ : list Z) (pos1 pos2 : Z)
    (pos : list Z) (x p k : Z) (out : list Z) : option (list Z) :=
  match fuel with
  | O => None
  | S fuel' =>
      if k <? pos2 - pos1 then
        let q := advance (length inp) inp x (vget pos p) (vget end_ p) in
        let pos := vset pos p q in
        if vget end_ p <=? q then Some out
        else
          let '(x, k) := if x <? vget inp q then (vget inp q, 0) else (x, k) in
          let p := if p + 1 =? pos2 then pos1 else p + 1 in
          intersect_loop fuel' inp end_ pos1 pos2 pos x p (k + 1) out
      else intersect_loop fuel' inp end_ pos1 pos2 pos (x + 1) pos1 0 (vpush out x)
  end.

(** Fuel: every list element can raise [x] once and be output once, and at
    most [pos2 - pos1] steps pass between two such events. *)
Definition intersect_fuel (start end_ : list Z) : nat :=
  S (S (Z.to_nat (2 * fold_right Z.add 0 (zip_with Z.sub end_ start)) * S (length start)
        + length start)).

Definition intersect_lists (inp start end_ : list Z) (pos1 pos2 : Z) : option (list Z) :=
  if pos1 =? pos2 then Some []
  else if pos2 - pos1 =? 1 then
    Some (map (vget inp) (seqZ (vget start pos1) (vget end_ pos1 - vget start pos1)))
  else intersect_loop (intersect_fuel start end_) inp end_ pos1 pos2 start (-1) pos1 0 [].

(** ** Calculating dominators *)

(** The dominator lists of one predecessor branch: [_dom] with the correct
    last branch, [pdom] and [pdom_end]. *)
Definition collect_list (D : Dom) (pred_brid j : Z) (st : list Z * list Z * list Z)
    : list Z * list Z * list Z :=
  let '(dom, pdom, pdom_end) := st in
  let pos1 := vget (d_start D) j in
  let pos2 := vget (d_start D) (j + 1) in
  if existsb (fun k => (vget dom k .^ pred_brid) =? 1) (seqZ pos1 (pos2 - 1 - pos1)) then st
  else (vset dom (pos2 - 1) pred_brid, vpush pdom pos1, vpush pdom_end pos2).

Definition collect_pred (E : DomEnv) (D : Dom) (preds : list Z) (i : Z)
    (st : list Z * list Z * list Z) : list Z * list Z * list Z :=
  let '(dom, pdom, pdom_end) := st in
  let pred_br := vget preds i in
  let s := stateno pred_br in
  if (0 <? i) && (stateno (vget preds (i - 1)) =? s) then
    (dom, pdom, vset pdom_end (vlen pdom_end - 1) (vback pdom_end - 1))
  else
    let pred_brid := brno (vget (insn_id E) s) (br_yes pred_br) in
    for_up (vget (d_lists D) s) (vget (d_lists D) (s + 1)) (collect_list D pred_brid) st.

(** One predecessor's list copied to the end of [_dom]: the branches pushed,
    and the last one among them that decides this state's test. *)
Definition copy_branch (dom : list Z) (endpos last_pdom_br mybr i : Z) (st : list Z * Z)
    : list Z * Z :=
  let '(out, pred_mybr) := st in
  let thisbr := vget dom i in
  if (i <? endpos) && ((thisbr .^ last_pdom_br) <=? 1) then st
  else (vpush out thisbr, if (thisbr .^ mybr) <=? 1 then thisbr else pred_mybr).

Definition copy_list (pdom pdom_end : list Z) (p : Z)
    (st : list Z * list Z * Z * Z) : list Z * list Z * Z * Z :=
  let '(dom', start, mybr, num_mybr) := st in
  let endpos := vget pdom_end p - 1 in
  let '(out, pred_mybr) :=
    for_up (vget pdom p) (endpos + 1) (copy_branch dom' endpos (vget dom' endpos) mybr)
      ([], -1) in
  let '(mybr, num_mybr) :=
    if (0 <=? num_mybr) && (0 <=? pred_mybr) && ((num_mybr =? 0) || (mybr =? pred_mybr))
    then (pred_mybr, num_mybr + 1) else (mybr, -1) in
  let dom' := vpush (dom' ++ out) mybr in
  (dom', vpush start (vlen dom'), mybr, num_mybr).

Definition with_dom (D : Dom) (dom start lists : list Z) : Dom :=
  mkDom (d_insn D) dom start lists (d_pfirst D) (d_pnext D) (d_pprev D).

(** Set the branches of an impossible state to [j_never]. *)
Definition clear_state (D : Dom) (state : Z) (dom start : list Z) : Dom :=
  if 0 <? state then
    set_branch (set_branch (with_dom D dom start (d_lists D)) state false j_never)
               state true j_never
  else
    let dom := vpush dom (brno state false) in
    with_dom D dom (vpush start (vlen dom)) (d_lists D).

Definition push_list (D : Dom) : Dom :=
  with_dom D (d_dom D) (d_start D) (vpush (d_lists D) (vlen (d_start D) - 1)).

Definition calculate_dom (E : DomEnv) (D : Dom) (state : Z) : option Dom :=
  let D := ensure_preds D in
  let predecessors := find_predecessors D state in
  let '(dom, pdom, pdom_end) :=
    for_up 0 (vlen predecessors) (collect_pred E D predecessors) (d_dom D, [], []) in
  let old_dom := dom in
  if MAX_DOMLIST <? vlen pdom then
    match intersect_lists dom pdom pdom_end 0 (vlen pdom) with
    | None => None
    | Some inter =>
        let dom := vpush (dom ++ inter) (brno (vget (insn_id E) state) false) in
        Some (push_list (with_dom D dom (vpush (d_start D) (vlen dom)) (d_lists D)))
    end
  else if 0 <? vlen pdom then
    let '(dom, start, mybr, num_mybr) :=
      for_up 0 (vlen pdom) (copy_list pdom pdom_end)
        (dom, d_start D, brno (vget (insn_id E) state) false, 0) in
    if 0 <? num_mybr then
      (* the state is redundant: predecessors skip it *)
      let new_state := jmp (vget (d_insn D) state) (br_yes mybr) in
      let D := fold_left (fun D br => set_branch D (stateno br) (br_yes br) new_state)
                 predecessors D in
      Some (push_list (clear_state D state old_dom (d_start D)))
    else Some (push_list (with_dom D dom start (d_lists D)))
  else Some (push_list (clear_state D state dom (d_start D))).

(** ** Shifting branches *)

(** Shift a branch over the states that the set [dom[first .. last)] decides;
    returns the destination and the states passed on the way. *)
Definition decide_state (E : DomEnv) (l : list Insn) (dom : list Z) (first last to_state : Z)
    : option Z :=
  foldr (fun j next =>
           if br_implies E l (vget dom j) to_state then Some (j_yes (vget l to_state))
           else if br_implies_not E l (vget dom j) to_state then Some (j_no (vget l to_state))
           else next)
        None (reverse (seqZ first (last - first))).

Fixpoint shift_loop (fuel : nat) (E : DomEnv) (l : list Insn) (dom : list Z)
    (first last to_state : Z) (collector : list Z) : option (Z * list Z) :=
  match fuel with
  | O => None
  | S fuel' =>
      if 0 <? to_state then
        match decide_state E l dom first last to_state with
        | Some t => shift_loop fuel' E l dom first last t (vpush collector t)
        | None => Some (to_state, collector)
        end
      else Some (to_state, collector)
  end.

Definition dom_shift_branch (E : DomEnv) (l : list Insn) (dom : list Z)
    (br to_state first last : Z) (collector : list Z) : option (list Z * Z * list Z) :=
  let br := brno (vget (insn_id E) (stateno br)) (br_yes br) in
  let dom := vset dom (last - 1) br in
  match shift_loop (S (length l)) E l dom first last to_state (vpush collector to_state) with
  | None => None
  | Some (t, collector) => Some (dom, t, collector)
  end.

Definition last_common_state_in_lists (inp start end_ : list Z) : option Z :=
  let s := vget inp (vget end_ 0 - 1) in
  if (s <=? 0) && forallb (fun j => vget inp (vget end_ j - 1) =? s) (seqZ 1 (vlen start - 1))
  then Some s
  else
    match intersect_lists inp start end_ 0 (vlen start) with
    | None => None
    | Some inter => Some (vback inter)
    end.

(** The loop over the dominator lists of a state with several. *)
Definition shift_list (E : DomEnv) (l : list Insn) (start : list Z) (br nexts d : Z)
    (st : option (list Z * list Z * list Z * list Z))
    : option (list Z * list Z * list Z * list Z) :=
  match st with
  | None => None
  | Some (dom, vals, starts, ends) =>
      match dom_shift_branch E l dom br nexts (vget start d) (vget start (d + 1)) vals with
      | None => None
      | Some (dom, _, vals') =>
          Some (dom, vals', vpush starts (vlen vals), vpush ends (vlen vals'))
      end
  end.

Definition set_dom (D : Dom) (dom : list Z) : Dom := with_dom D dom (d_start D) (d_lists D).

Definition shift_branch (E : DomEnv) (D : Dom) (state : Z) (branch : bool) : option Dom :=
  let nexts := jmp (vget (d_insn D) state) branch in
  let br := brno state branch in
  let lo := vget (d_lists D) state in
  let hi := vget (d_lists D) (state + 1) in
  let result :=
    if (lo =? hi) || (nexts <=? 0) then Some (d_dom D, nexts)
    else if lo + 1 =? hi then
      match dom_shift_branch E (d_insn D) (d_dom D) br nexts
              (vget (d_start D) lo) (vget (d_start D) (lo + 1)) [] with
      | None => None
      | Some (dom, t, _) => Some (dom, t)
      end
    else
      match for_up lo hi (shift_list E (d_insn D) (d_start D) br nexts)
              (Some (d_dom D, [], [], [])) with
      | None => None
      | Some (dom, vals, starts, ends) =>
          match last_common_state_in_lists vals starts ends with
          | None => None
          | Some t => Some (dom, t)
          end
      end in
  match result with
  | None => None
  | Some (dom, new_nexts) =>
      let D := set_dom D dom in
      Some (if new_nexts =? nexts then D else set_branch D state branch new_nexts)
  end.

Definition run (E : DomEnv) (D : Dom) (state : Z) : option Dom :=
  match calculate_dom E D state with
  | None => None
  | Some D =>
      match shift_branch E D state true with
      | None => None
      | Some D => shift_branch E D state false
      end
  end.

(** The loop over all states in [Program::optimize]. *)
Definition dominator_optimize (l : list Insn) : option (list Insn) :=
  let E := new_env l in
  match for_up 0 (vlen l) (fun i st => match st with Some D => run E D i | None => None end)
          (Some (new_dom l)) with
  | Some D => Some (d_insn D)
  | None => None
  end.
