(* ===== verification/DomPreds.v ===== *)
(** * Branch numbers and predecessor lists of the dominator optimizer

    The doubly linked lists threaded through [_pred_first], [_pred_next] and
    [_pred_prev] hold, for every state, exactly the branches that jump to it;
    [set_branch] keeps them so. *)

From S2P Require Import Prelude Packet Insn Program Dominator.

(** ** Branch numbers *)

Lemma brno_alt s b : brno s b = 2 * s + (if b then 1 else 0).
Proof. unfold brno. rewrite Z.shiftl_mul_pow2 by lia. change (2 ^ 1) with 2. lia. Qed.

Lemma stateno_alt br : stateno br = br / 2.
Proof. unfold stateno. by rewrite Z.shiftr_div_pow2 by lia. Qed.

Lemma br_yes_alt br : br_yes br = negb (br mod 2 =? 0).
Proof.
  unfold br_yes. change (br .& 1) with (br .& Z.ones 1). by rewrite Z.land_ones by lia.
Qed.

Lemma stateno_brno s b : stateno (brno s b) = s.
Proof. rewrite stateno_alt, brno_alt. destruct b; Z.to_euclidean_division_equations; lia. Qed.

Lemma br_yes_brno s b : br_yes (brno s b) = b.
Proof.
  rewrite br_yes_alt, brno_alt. destruct b.
  - replace ((2 * s + 1) mod 2) with 1; [done|]. Z.to_euclidean_division_equations; lia.
  - replace ((2 * s + 0) mod 2) with 0; [done|]. Z.to_euclidean_division_equations; lia.
Qed.

Lemma brno_eta br : brno (stateno br) (br_yes br) = br.
Proof.
  rewrite brno_alt, stateno_alt, br_yes_alt.
  destruct (Z.eqb_spec (br mod 2) 0); simpl; Z.to_euclidean_division_equations; lia.
Qed.

Lemma brno_range s b n : 0 <= s < n -> 0 <= brno s b < 2 * n.
Proof. rewrite brno_alt. destruct b; lia. Qed.

Lemma stateno_range br n : 0 <= br < 2 * n -> 0 <= stateno br < n.
Proof. rewrite stateno_alt. intros. Z.to_euclidean_division_equations; lia. Qed.

Lemma br_xor_le1 a b :
  0 <= a -> 0 <= b -> (a .^ b) <= 1 <-> stateno a = stateno b.
Proof.
  intros Ha Hb. assert (Hn : 0 <= (a .^ b)) by (apply Z.lxor_nonneg; lia).
  unfold stateno. transitivity ((a .^ b) .>> 1 = 0).
  - rewrite Z.shiftr_div_pow2 by lia. change (2 ^ 1) with 2.
    split; intros; Z.to_euclidean_division_equations; lia.
  - rewrite Z.shiftr_lxor. split; [apply Z.lxor_eq|]. intros ->. apply Z.lxor_nilpotent.
Qed.

Lemma br_xor_1 a b :
  0 <= a -> 0 <= b -> (a .^ b) = 1 -> stateno a = stateno b /\ br_yes a <> br_yes b.
Proof.
  intros Ha Hb H. assert (Hs : stateno a = stateno b) by (apply br_xor_le1; lia).
  split; [done|]. intros Hy.
  rewrite <- (brno_eta a), <- (brno_eta b), Hs, Hy, Z.lxor_nilpotent in H. done.
Qed.

(** ** Linked lists in vectors *)

(** From [h], following [pn] visits [xs] and arrives at [t]. *)
Fixpoint lseg (pn : list Z) (h : Z) (xs : list Z) (t : Z) : Prop :=
  match xs with [] => h = t | x :: xs' => h = x /\ lseg pn (vget pn x) xs' t end.

(** The previous pointers of [xs], which starts after [p]. *)
Fixpoint prevs (pp : list Z) (p : Z) (xs : list Z) : Prop :=
  match xs with [] => True | x :: xs' => vget pp x = p /\ prevs pp x xs' end.

Lemma lseg_app pn h xs ys t :
  lseg pn h (xs ++ ys) t <-> exists m, lseg pn h xs m /\ lseg pn m ys t.
Proof.
  revert h. induction xs as [|x xs IH]; intros h; simpl.
  - split; [eauto|]. by intros (m & -> & ?).
  - rewrite IH. naive_solver.
Qed.

(** The last element of [xs], or [p]. *)
Fixpoint last_or (p : Z) (xs : list Z) : Z :=
  match xs with [] => p | x :: xs' => last_or x xs' end.

Lemma last_or_snoc p xs x : last_or p (xs ++ [x]) = x.
Proof. revert p. induction xs as [|y ys IH]; intros p; simpl; auto. Qed.

Lemma prevs_app pp p xs ys :
  prevs pp p (xs ++ ys) <-> prevs pp p xs /\ prevs pp (last_or p xs) ys.
Proof.
  revert p. induction xs as [|x xs IH]; intros p; simpl; [naive_solver|].
  rewrite IH. naive_solver.
Qed.

Lemma lseg_vset pn h xs t i v :
  i ∉ xs -> (forall x, x ∈ xs -> 0 <= x) -> 0 <= i -> lseg pn h xs t -> lseg (vset pn i v) h xs t.
Proof.
  revert h. induction xs as [|x xs IH]; intros h Hi Hx Hi0; simpl; [done|].
  intros [-> H]. split; [done|]. rewrite vget_vset_ne.
  - apply IH; set_solver.
  - set_solver.
  - done.
  - apply Hx. set_solver.
Qed.

Lemma prevs_vset pp p xs i v :
  i ∉ xs -> (forall x, x ∈ xs -> 0 <= x) -> 0 <= i -> prevs pp p xs -> prevs (vset pp i v) p xs.
Proof.
  revert p. induction xs as [|x xs IH]; intros p Hi Hx Hi0; simpl; [done|].
  intros [H1 H2]. rewrite vget_vset_ne; [|set_solver|done|apply Hx; set_solver].
  split; [done|]. apply IH; set_solver.
Qed.

Lemma walk_preds_lseg fuel pn h xs t :
  lseg pn h xs t -> t < 0 -> (forall x, x ∈ xs -> 0 <= x) -> (length xs <= fuel)%nat ->
  walk_preds fuel pn h = xs.
Proof.
  revert fuel h. induction xs as [|x xs IH]; intros fuel h; simpl.
  - intros -> Ht _ Hf. destruct fuel; [done|]. simpl. by destruct (Z.leb_spec 0 t); [lia|].
  - intros [-> H] Ht Hx Hf. destruct fuel as [|fuel]; [lia|]. simpl.
    assert (0 <= x) by (apply Hx; set_solver). destruct (Z.leb_spec 0 x); [|lia].
    f_equal. apply IH; [done|done|set_solver|lia].
Qed.

(** ** The predecessor lists *)

(** [L s] are the branches in the list of state [s]; [J br s] says that branch
    [br] belongs there. *)
Record preds_rep (n : Z) (J : Z -> Z -> Prop) (a : pred_arrays) (L : Z -> list Z) : Prop := {
  pr_first : vlen a.1.1 = n;
  pr_next : vlen a.1.2 = 2 * n;
  pr_prev : vlen a.2 = 2 * n;
  pr_zero : 0 < n -> vget a.1.1 0 < 0;
  pr_mem : forall s br, 0 < s < n -> br ∈ L s <-> 0 <= br < 2 * n /\ J br s;
  pr_nodup : forall s, 0 < s < n -> NoDup (L s);
  pr_list : forall s, 0 < s < n -> exists p t, p < 0 /\ t < 0
    /\ lseg a.1.2 (vget a.1.1 s) (L s) t /\ prevs a.2 p (L s)
}.

(** The branch jumps there. *)
Definition jumps_to (l : list Insn) (br s : Z) : Prop :=
  jmp (vget l (stateno br)) (br_yes br) = s.

Definition upd (L : Z -> list Z) (s : Z) (xs : list Z) : Z -> list Z :=
  fun s' => if decide (s' = s) then xs else L s'.

Section rep.
Context (n : Z) (J : Z -> Z -> Prop).
Context (a : pred_arrays) (L : Z -> list Z) (Hr : preds_rep n J a L).

Lemma rep_mem_range s br : 0 < s < n -> br ∈ L s -> 0 <= br < 2 * n.
Proof. intros Hs Hb. by apply (pr_mem _ _ _ _ Hr) in Hb as [? _]. Qed.

Lemma rep_disjoint s s' br :
  (forall br s s', J br s -> J br s' -> s = s') ->
  0 < s < n -> 0 < s' < n -> br ∈ L s -> br ∈ L s' -> s = s'.
Proof.
  intros HJ Hs Hs' H1 H2. apply (pr_mem _ _ _ _ Hr) in H1 as [_ H1]; [|done].
  apply (pr_mem _ _ _ _ Hr) in H2 as [_ H2]; [|done]. eauto.
Qed.

(** The shape of the list that holds a branch. *)
Lemma rep_split s br :
  0 < s < n -> br ∈ L s ->
  exists A B p t, L s = A ++ br :: B /\ p < 0 /\ t < 0 /\ NoDup (A ++ B) /\ (br ∉ A ++ B)
    /\ lseg a.1.2 (vget a.1.1 s) A br /\ lseg a.1.2 (vget a.1.2 br) B t
    /\ prevs a.2 p A /\ vget a.2 br = last_or p A /\ prevs a.2 br B.
Proof.
  intros Hs Hin. destruct (pr_list _ _ _ _ Hr s Hs) as (p & t & Hp & Ht & Hseg & Hprev).
  pose proof (pr_nodup _ _ _ _ Hr s Hs) as Hnd.
  apply list_elem_of_split in Hin as (A & B & HAB). exists A, B, p, t.
  rewrite HAB in *. apply lseg_app in Hseg as (m & HsA & Hm'). simpl in Hm'.
  destruct Hm' as [-> HsB]. apply prevs_app in Hprev as [HpA [HpB HpB']].
  apply NoDup_app in Hnd as (HndA & HdisA & HndB). apply NoDup_cons in HndB as [HbB HndB].
  assert (NoDup (A ++ B)) by (apply NoDup_app; set_solver).
  assert (br ∉ A ++ B) by set_solver. naive_solver.
Qed.
End rep.

(** ** Unlinking *)

Lemma unlink_rep n J a L old br :
  (forall b s s', J b s -> J b s' -> s = s') ->
  preds_rep n J a L -> 0 < old < n -> br ∈ L old ->
  exists L', preds_rep n (fun b s => J b s /\ b <> br) (unlink_branch old br a) L'.
Proof.
  intros HJ Hr Hold Hin. pose proof (rep_mem_range n J a L Hr old br Hold Hin) as Hbr.
  destruct (rep_split n J a L Hr old br Hold Hin)
    as (A & B & p & t & HAB & Hp & Ht & Hnd & Hni & HsA & HsB & HpA & Hpb & HpB).
  exists (upd L old (A ++ B)).
  assert (Hpos : forall s x, 0 < s < n -> x ∈ L s -> 0 <= x < 2 * n)
    by (intros; by eapply rep_mem_range).
  assert (HposAB : forall x, x ∈ A ++ B -> 0 <= x < 2 * n)
    by (intros x Hx; apply (Hpos old); [done|rewrite HAB; set_solver]).
  assert (Hoth : forall s x, 0 < s < n -> s <> old -> x ∈ L s -> (x ∉ A ++ B) /\ x <> br).
  { intros s x Hs Hne Hx. assert (x ∉ L old)
      by (intros Hx'; apply Hne; by eapply (rep_disjoint n J a L Hr)).
    rewrite HAB in *. set_solver. }
  destruct Hr as [H1 H2 H3 H0 Hm Hd Hl]. destruct a as [[pf pn] pp]. simpl in *.
  assert (Hmem : forall s b, 0 < s < n ->
            b ∈ upd L old (A ++ B) s <-> 0 <= b < 2 * n /\ J b s /\ b <> br).
  { intros s b Hs. unfold upd. case_decide as Hc; [subst s|].
    - transitivity (b ∈ L old /\ b <> br); [rewrite HAB; set_solver|]. rewrite Hm by done. tauto.
    - rewrite Hm by done. split; [|tauto]. intros Hb. split; [tauto|]. split; [tauto|].
      apply Hm in Hb; [|done]. by apply (Hoth s b). }
  assert (Hndup : forall s, 0 < s < n -> NoDup (upd L old (A ++ B) s))
    by (intros s Hs; unfold upd; case_decide; auto).
  unfold unlink_branch. destruct (Z.ltb_spec 0 old); [|lia]. rewrite Hpb.
  (* the state of the three vectors after the removal *)
  assert (Hfin : forall pf' pn',
    vlen pf' = n -> vlen pn' = 2 * n -> vget pn' br = vget pn br ->
    vget pf' 0 = vget pf 0 ->
    lseg pn' (vget pf' old) (A ++ B) t ->
    (forall s, 0 < s < n -> s <> old -> vget pf' s = vget pf s) ->
    (forall s h u, 0 < s < n -> s <> old -> lseg pn h (L s) u -> lseg pn' h (L s) u) ->
    preds_rep n (fun b s => J b s /\ b <> br)
      (pf', pn', if 0 <=? vget pn' br then vset pp (vget pn' br) (last_or p A) else pp)
      (upd L old (A ++ B))).
  { intros pf' pn' Hl1 Hl2 Hnb Hz Hseg Hpf Hpn. rewrite Hnb. constructor; simpl; auto.
    - case_match; [by rewrite vlen_vset|done].
    - intros Hn. rewrite Hz. auto.
    - intros s Hs. unfold upd. case_decide as Hc.
      + subst s. exists p, t. split; [done|]. split; [done|]. split; [done|].
        apply prevs_app. destruct B as [|b B]; simpl in *.
        * subst t. destruct (Z.leb_spec 0 (vget pn br)); [lia|]. done.
        * destruct HsB as [Hb HsB]. rewrite Hb. assert (0 <= b < 2 * n) by (apply HposAB; set_solver).
          destruct (Z.leb_spec 0 b); [|lia].
          apply NoDup_app in Hnd as (_ & Hdis & HndB). apply NoDup_cons in HndB as [HbB _].
          split; [apply prevs_vset; [set_solver| |lia|done]; intros; apply HposAB; set_solver|].
          split; [apply vget_vset_eq; lia|].
          apply prevs_vset; [done| |lia|tauto]. intros; apply HposAB; set_solver.
      + destruct (Hl s Hs) as (p' & t' & Hp' & Ht' & Hseg' & Hprev').
        exists p', t'. split; [done|]. split; [done|]. split; [rewrite Hpf by done; by apply Hpn|].
        case_match; bprop; [|done]. apply prevs_vset; [|intros x Hx; by apply (Hpos s)|done|done].
        intros Hx. apply (Hoth s) in Hx as [Hx _]; [|done|done]. apply Hx.
        destruct B as [|b B]; simpl in *; [lia|]. destruct HsB as [-> _]. set_solver. }
  destruct A as [|x0 A0] eqn:EA using rev_ind.
  - simpl in *. destruct (Z.leb_spec 0 p); [lia|]. apply (Hfin (vset pf old (vget pn br)) pn); auto.
    + by rewrite vlen_vset.
    + by rewrite vget_vset_ne by lia.
    + rewrite vget_vset_eq by lia. done.
    + intros s Hs Hne. by rewrite vget_vset_ne by lia.
  - clear IHA0. rewrite last_or_snoc in *.
    assert (Hx0 : 0 <= x0 < 2 * n) by (apply HposAB; set_solver).
    assert (x0 <> br) by set_solver.
    destruct (Z.leb_spec 0 x0); [|lia].
    apply lseg_app in HsA as (m & HsA & [-> Hxb]). apply NoDup_app in Hnd as (HndA & HdisA & _).
    apply NoDup_app in HndA as (_ & HdisA' & _).
    apply (Hfin pf (vset pn x0 (vget pn br))); auto.
    + by rewrite vlen_vset.
    + by rewrite vget_vset_ne by lia.
    + rewrite <- app_assoc. apply lseg_app. exists x0. split.
      * apply lseg_vset; [set_solver|intros; apply HposAB; set_solver|lia|done].
      * simpl. split; [done|]. rewrite vget_vset_eq by lia.
        apply lseg_vset; [set_solver|intros; apply HposAB; set_solver|lia|done].
    + intros s h u Hs Hne Hsg. apply lseg_vset; [|intros x Hx; by apply (Hpos s)|lia|done].
      intros Hx. apply (Hoth s) in Hx as [Hx _]; [|done|done]. apply Hx. set_solver.
Qed.

(** ** Linking *)

(** The walk stops between [A] and [B]. *)
Lemma find_slot_spec fuel pn br prev h xs t :
  lseg pn h xs t -> t < 0 -> (forall x, x ∈ xs -> 0 <= x) -> (length xs <= fuel)%nat ->
  exists A B c, xs = A ++ B /\ lseg pn h A c /\ lseg pn c B t
    /\ find_slot fuel pn br prev h = (last_or prev A, c).
Proof.
  revert fuel prev h. induction xs as [|x xs IH]; intros fuel prev h; simpl.
  - intros -> Ht _ Hf. exists [], [], t. destruct fuel; simpl; [done|].
    by destruct (Z.leb_spec 0 t); [lia|].
  - intros [-> H] Ht Hx Hf. destruct fuel as [|fuel]; [lia|]. simpl.
    destruct (Z.leb_spec 0 x); [|specialize (Hx x); set_solver by lia].
    destruct (Z.ltb_spec x br); cbn [andb].
    + destruct (IH fuel x (vget pn x)) as (A & B & c & -> & HA & HB & ->);
        [done|done|set_solver|lia|]. exists (x :: A), B, c. simpl. auto.
    + exists [], (x :: xs), x. simpl. auto.
Qed.

Lemma nodup_length_le n (xs : list Z) :
  NoDup xs -> (forall x, x ∈ xs -> 0 <= x < n) -> (length xs <= Z.to_nat n)%nat.
Proof.
  intros Hnd Hx. assert (Hs : xs ⊆+ seqZ 0 n).
  { apply NoDup_submseteq; [done|]. intros x Hin. apply elem_of_seqZ. specialize (Hx x Hin). lia. }
  apply submseteq_length in Hs. by rewrite length_seqZ in Hs.
Qed.

Lemma link_rep n J a L to br :
  (forall b s s', J b s -> J b s' -> s = s') -> (forall s, ~ J br s) ->
  preds_rep n J a L -> 0 < to < n -> 0 <= br < 2 * n ->
  exists L', preds_rep n (fun b s => J b s \/ (b = br /\ s = to)) (link_branch to br a) L'.
Proof.
  intros HJ Hnew Hr Hto Hbr.
  assert (Hpos : forall s x, 0 < s < n -> x ∈ L s -> 0 <= x < 2 * n)
    by (intros; by eapply rep_mem_range).
  assert (Hdisj : forall s s' x, 0 < s < n -> 0 < s' < n -> x ∈ L s -> x ∈ L s' -> s = s')
    by (intros; by eapply (rep_disjoint n J a L Hr)).
  destruct Hr as [H1 H2 H3 H0 Hm Hd Hl]. destruct a as [[pf pn] pp]. simpl in *.
  assert (Hbr_new : forall s, 0 < s < n -> br ∉ L s)
    by (intros s Hs Hin; apply Hm in Hin as [_ ?]; [by eapply Hnew|done]).
  destruct (Hl to Hto) as (p & t & Hp & Ht & Hseg & Hprev).
  unfold link_branch. destruct (Z.ltb_spec 0 to); [|lia].
  destruct (find_slot_spec (length pn) pn br (-1) (vget pf to) (L to) t)
    as (A & B & c & HAB & HsA & HsB & ->); [done|done|intros; by eapply Hpos| |].
  { pose proof (nodup_length_le (2 * n) (L to) (Hd to Hto) ltac:(intros; by eapply Hpos)).
    unfold vlen in H2. lia. }
  pose proof (Hd to Hto) as Hnd. rewrite HAB in Hnd, Hprev.
  apply prevs_app in Hprev as [HpA HpB]. apply NoDup_app in Hnd as (HndA & HdAB & HndB).
  assert (HposAB : forall x, x ∈ A ++ B -> 0 <= x < 2 * n)
    by (intros x Hx; apply (Hpos to); [done|by rewrite HAB]).
  assert (HbrAB : br ∉ A ++ B) by (rewrite <- HAB; by apply Hbr_new).
  exists (upd L to (A ++ br :: B)).
  assert (Hoth : forall s x, 0 < s < n -> s <> to -> x ∈ L s -> (x ∉ A ++ B) /\ x <> br).
  { intros s x Hs Hne Hx. rewrite <- HAB. split.
    - intros Hx'. apply Hne. by eapply Hdisj.
    - intros ->. by eapply Hbr_new. }
  set (pn1 := vset pn br c). set (pp1 := vset pp br (last_or (-1) A)).
  assert (Hcb : 0 <= c -> exists B', B = c :: B').
  { intros Hc. destruct B as [|b B]; simpl in HsB; [lia|]. destruct HsB as [-> _]. eauto. }
  assert (Hfin : forall pf' pn',
    vlen pf' = n -> vlen pn' = 2 * n -> vget pf' 0 = vget pf 0 -> vget pn' br = c ->
    lseg pn' (vget pf' to) (A ++ br :: B) t ->
    (forall s, 0 < s < n -> s <> to -> vget pf' s = vget pf s) ->
    (forall s h u, 0 < s < n -> s <> to -> lseg pn h (L s) u -> lseg pn' h (L s) u) ->
    preds_rep n (fun b s => J b s \/ (b = br /\ s = to))
      (pf', pn', if 0 <=? vget pn' br then vset pp1 (vget pn' br) br else pp1)
      (upd L to (A ++ br :: B))).
  { intros pf' pn' Hl1 Hl2 Hz Hnb Hsg Hpf Hpn. rewrite Hnb. constructor; simpl; auto.
    - case_match; unfold pp1; by rewrite ?vlen_vset.
    - intros Hn. rewrite Hz. auto.
    - intros s b Hs. unfold upd. case_decide as Hc; [subst s|].
      + transitivity (b ∈ L to \/ b = br); [rewrite HAB; set_solver|].
        rewrite Hm by done. naive_solver.
      + rewrite Hm by done. naive_solver.
    - intros s Hs. unfold upd. case_decide; [|auto]. apply NoDup_app.
      split; [done|]. split; [set_solver|]. apply NoDup_cons. set_solver.
    - intros s Hs. unfold upd. case_decide as Hc.
      + subst s. exists (match A with [] => -1 | _ => p end), t.
        split; [destruct A; lia|]. split; [done|]. split; [done|].
        assert (Hpp1 : prevs (if 0 <=? c then vset pp1 c br else pp1) p A).
        { case_match; bprop.
          - destruct (Hcb ltac:(done)) as [B' ->].
            apply prevs_vset; [set_solver|intros; apply HposAB; set_solver|done|].
            apply prevs_vset; [set_solver|intros; apply HposAB; set_solver|lia|done].
          - apply prevs_vset; [set_solver|intros; apply HposAB; set_solver|lia|done]. }
        apply prevs_app. split; [by destruct A|]. cbn [prevs].
        assert (Hlast : last_or (match A with [] => -1 | _ => p end) A = last_or (-1) A)
          by by destruct A. rewrite Hlast. split.
        * destruct (Z.leb_spec 0 c) as [Hc0|Hc0]; unfold pp1.
          -- destruct (Hcb Hc0) as [B' ->]. rewrite vget_vset_ne by (set_solver || lia).
             apply vget_vset_eq. lia.
          -- apply vget_vset_eq. lia.
        * destruct B as [|b B]; simpl in HsB; [done|]. destruct HsB as [-> HsB].
          assert (Hb : 0 <= b < 2 * n) by (apply HposAB; set_solver).
          destruct (Z.leb_spec 0 b); [|lia]. simpl. apply NoDup_cons in HndB as [HbB _].
          split; [apply vget_vset_eq; unfold pp1; rewrite vlen_vset; lia|].
          simpl in HpB. destruct HpB as [_ HpB].
          apply prevs_vset; [done|intros; apply HposAB; set_solver|lia|].
          apply prevs_vset; [set_solver|intros; apply HposAB; set_solver|lia|done].
      + destruct (Hl s Hs) as (p' & t' & Hp' & Ht' & Hseg' & Hprev'). exists p', t'.
        split; [done|]. split; [done|]. split; [rewrite Hpf by done; by apply Hpn|].
        assert (Hb1 : prevs pp1 p' (L s)).
        { apply prevs_vset; [by apply Hbr_new|intros x Hx; by apply (Hpos s)|lia|done]. }
        case_match; bprop; [|done]. apply prevs_vset; [|intros x Hx; by apply (Hpos s)|done|done].
        destruct (Hcb ltac:(done)) as [B' ->]. intros Hx.
        apply (Hoth s) in Hx as [Hx _]; [|done|done]. set_solver. }
  assert (HsA1 : forall v, lseg (vset pn br v) (vget pf to) A c).
  { intros v. apply lseg_vset; [set_solver|intros; apply HposAB; set_solver|lia|done]. }
  assert (HsB1 : lseg pn1 c B t).
  { apply lseg_vset; [set_solver|intros; apply HposAB; set_solver|lia|done]. }
  destruct A as [|x0 A0] eqn:EA using rev_ind.
  - simpl in *. subst c. apply (Hfin (vset pf to br) pn1); auto.
    + by rewrite vlen_vset.
    + unfold pn1. by rewrite vlen_vset.
    + by rewrite vget_vset_ne by lia.
    + apply vget_vset_eq. lia.
    + rewrite vget_vset_eq by lia. split; [done|].
      replace (vget pn1 br) with (vget pf to) by (symmetry; apply vget_vset_eq; lia). done.
    + intros s Hs Hne. by rewrite vget_vset_ne by lia.
    + intros s h u Hs Hne Hsg. apply lseg_vset; [by apply Hbr_new|intros x Hx; by apply (Hpos s)|lia|done].
  - clear IHA0. rewrite last_or_snoc in *.
    assert (Hx0 : 0 <= x0 < 2 * n) by (apply HposAB; set_solver).
    assert (x0 <> br) by set_solver. destruct (Z.leb_spec 0 x0); [|lia].
    specialize (HsA1 c). fold pn1 in HsA1.
    apply lseg_app in HsA1 as (m & HsA2 & [-> Hxc]). apply NoDup_app in HndA as (_ & HdA0 & _).
    assert (Hget : vget (vset pn1 x0 br) br = c).
    { rewrite vget_vset_ne by lia. apply vget_vset_eq. lia. }
    apply (Hfin pf (vset pn1 x0 br)); auto.
    + unfold pn1. by rewrite !vlen_vset.
    + rewrite <- app_assoc. apply lseg_app. exists x0. split.
      * apply lseg_vset; [set_solver|intros; apply HposAB; set_solver|lia|done].
      * simpl. split; [done|]. rewrite vget_vset_eq by (unfold pn1; rewrite vlen_vset; lia).
        split; [done|]. rewrite Hget.
        apply lseg_vset; [set_solver|intros; apply HposAB; set_solver|lia|done].
    + intros s h u Hs Hne Hsg. apply lseg_vset; [|intros x Hx; by apply (Hpos s)|lia|].
      * intros Hx. apply (Hoth s) in Hx as [Hx _]; [|done|done]. set_solver.
      * apply lseg_vset; [by apply Hbr_new|intros x Hx; by apply (Hpos s)|lia|done].
Qed.

(** ** Building the lists *)

Lemma rep_ext n J J' a L :
  (forall br s, 0 <= br < 2 * n -> 0 < s < n -> J br s <-> J' br s) ->
  preds_rep n J a L -> preds_rep n J' a L.
Proof.
  intros HJ [H1 H2 H3 H0 Hm Hd Hl]. constructor; auto. intros s br Hs. rewrite Hm by done.
  split; intros [Hb ?]; (split; [done|]); by apply HJ.
Qed.

(** The branches before [m] are in their lists, the others have no previous one. *)
Definition preds_upto (l : list Insn) (m : Z) (a : pred_arrays) : Prop :=
  (exists L, preds_rep (vlen l) (fun br s => jumps_to l br s /\ br < m) a L)
  /\ forall br, m <= br < 2 * vlen l -> vget a.2 br < 0.

Lemma add_pred_upto l i k a :
  0 <= i < vlen l -> jmp (vget l i) k < vlen l ->
  preds_upto l (brno i k) a -> preds_upto l (brno i k + 1) (add_pred l i k a).
Proof.
  intros Hi Hto [[L Hr] Hpp]. set (br := brno i k) in *. set (n := vlen l) in *.
  assert (Hbr : 0 <= br < 2 * n) by (by apply brno_range).
  assert (Hj : forall s, jumps_to l br s <-> jmp (vget l i) k = s).
  { intros s. unfold jumps_to, br. by rewrite stateno_brno, br_yes_brno. }
  destruct a as [[pf pn] pp]. unfold add_pred. fold br.
  set (to := jmp (vget l i) k) in *. destruct (Z.ltb_spec 0 to) as [Hpos|Hneg].
  2:{ split.
      - exists L. eapply rep_ext; [|done]. intros b s Hb Hs. simpl.
        assert (b = br -> ~ jumps_to l b s) by (intros ->; rewrite Hj; lia).
        split; intros [? ?]; (split; [done|]); [lia|].
        destruct (decide (b = br)); [tauto|lia].
      - intros b Hb. apply Hpp. lia. }
  pose proof (Hr) as [H1 H2 H3 H0 Hm Hd Hl]. simpl in *.
  destruct (Hl to ltac:(lia)) as (p & t & Hp & Ht & Hseg & Hprev).
  assert (Hran : forall s x, 0 < s < n -> x ∈ L s -> 0 <= x < br).
  { intros s x Hs Hx. apply Hm in Hx as (? & _ & ?); [lia|done]. }
  assert (Hdis : forall s x, 0 < s < n -> s <> to -> x ∈ L s -> x ∉ L to).
  { intros s x Hs Hne Hx Hx'. apply Hm in Hx as (_ & Hx & _); [|done].
    apply Hm in Hx' as (_ & Hx' & _); [|lia]. unfold jumps_to in *. lia. }
  assert (Hhead : 0 <= vget pf to -> vget pf to ∈ L to).
  { destruct (L to) as [|x xs]; simpl in Hseg; [lia|]. destruct Hseg as [-> _]. set_solver. }
  assert (Hpp' : forall b, br <= b < 2 * n ->
            vget (if 0 <=? vget pf to then vset pp (vget pf to) br else pp) b = vget pp b).
  { intros b Hb. destruct (Z.leb_spec 0 (vget pf to)) as [Hh|]; [|done].
    specialize (Hran to _ ltac:(lia) (Hhead Hh)). by rewrite vget_vset_ne by lia. }
  split; [|intros b Hb; simpl; rewrite Hpp' by lia; apply Hpp; lia].
  exists (upd L to (br :: L to)). constructor; simpl.
  - by rewrite vlen_vset.
  - by rewrite vlen_vset.
  - case_match; by rewrite ?vlen_vset.
  - intros Hn. rewrite vget_vset_ne by lia. auto.
  - intros s b Hs. unfold upd. case_decide as Hc; [subst s|]; rewrite ?elem_of_cons, Hm by done.
    + split; [intros [-> | (? & ? & ?)]; (split; [done|]; split; [by try apply Hj|lia])|].
      intros (? & ? & ?). destruct (decide (b = br)); [by left|right]. split; [done|]. split; [done|lia].
    + assert (b = br -> ~ jumps_to l b s) by (intros ->; rewrite Hj; lia).
      split; intros (? & ? & ?); (split; [done|]); (split; [done|]); [lia|].
      destruct (decide (b = br)); [tauto|lia].
  - intros s Hs. unfold upd. case_decide; [|auto]. apply NoDup_cons. split; [|apply Hd; lia].
    intros Hx. apply (Hran to) in Hx; lia.
  - intros s Hs. unfold upd. case_decide as Hc.
    + subst s. exists (vget pp br), t. split; [apply Hpp; lia|]. split; [done|]. split.
      * split; [apply vget_vset_eq; lia|]. rewrite vget_vset_eq by lia.
        apply lseg_vset; [intros Hx; apply (Hran to) in Hx; lia
          |intros x Hx; apply (Hran to) in Hx; lia|lia|done].
      * split; [apply Hpp'; lia|]. pose proof (Hd to ltac:(lia)) as Hnd.
        destruct (L to) as [|x xs] eqn:EL; [exact I|]. destruct Hseg as [Hx Hseg].
        rewrite Hx. assert (Hxr : 0 <= x < br) by (apply (Hran to); [lia|rewrite EL; set_solver]).
        destruct (Z.leb_spec 0 x); [|lia]. split; [apply vget_vset_eq; lia|].
        apply NoDup_cons in Hnd as [Hnx _]. destruct Hprev as [_ Hprev].
        apply prevs_vset; [done| |lia|done].
        intros y Hy. apply (Hran to); [lia|rewrite EL; set_solver].
    + destruct (Hl s Hs) as (p' & t' & Hp' & Ht' & Hseg' & Hprev'). exists p', t'.
      split; [done|]. split; [done|]. rewrite vget_vset_ne by lia. split.
      * apply lseg_vset; [intros Hx; apply (Hran s) in Hx; lia
          |intros x Hx; apply (Hran s) in Hx; lia|lia|done].
      * destruct (Z.leb_spec 0 (vget pf to)) as [Hh|]; [|done].
        apply prevs_vset; [|intros x Hx; apply (Hran s) in Hx; lia|done|done].
        intros Hx. apply (Hdis s) in Hx; [|done|done]. auto.
Qed.

Definition jumps_in (l : list Insn) : Prop :=
  forall i k, 0 <= i < vlen l -> jmp (vget l i) k < vlen l.

Lemma init_preds_rep l :
  jumps_in l -> exists L, preds_rep (vlen l) (jumps_to l) (init_preds l) L.
Proof.
  intros Hin. unfold init_preds.
  assert (Hfin : preds_upto l (2 * vlen l) (init_preds l)).
  { apply (for_up_inv (fun i a => preds_upto l (2 * i) a)); [apply vlen_nonneg| |].
    - split; [|intros br Hb; simpl; rewrite vget_replicate; unfold vlen in *; lia].
      exists (fun _ => []). unfold vlen. constructor; simpl; rewrite ?length_replicate;
        unfold vlen; rewrite ?length_replicate; try lia.
      + intros Hn. rewrite vget_replicate; lia.
      + intros s br Hs. split; [set_solver|]. lia.
      + intros s Hs. constructor.
      + intros s Hs. exists (-1), (-1). rewrite vget_replicate by lia. simpl. lia || auto with lia.
    - intros i a Hi Ha. replace (2 * (i + 1)) with (brno i true + 1) by (rewrite brno_alt; lia).
      apply add_pred_upto; [done|by apply Hin|].
      replace (brno i true) with (brno i false + 1) by (rewrite !brno_alt; lia).
      apply add_pred_upto; [done|by apply Hin|]. by rewrite brno_alt, Z.add_0_r. }
  destruct Hfin as [[L Hr] _]. exists L. eapply rep_ext; [|exact Hr]. simpl. intros. lia || (split; [tauto|]; intros; split; [done|lia]).
Qed.

(** ** The invariant of the optimizer *)

Definition preds_inv (D : Dom) : Prop :=
  jumps_in (d_insn D)
  /\ exists L, preds_rep (vlen (d_insn D)) (jumps_to (d_insn D))
                 (d_pfirst D, d_pnext D, d_pprev D) L.

Lemma find_predecessors_spec D s :
  preds_inv D -> 0 < s < vlen (d_insn D) ->
  NoDup (find_predecessors D s)
  /\ forall br, br ∈ find_predecessors D s
       <-> 0 <= br < 2 * vlen (d_insn D) /\ jumps_to (d_insn D) br s.
Proof.
  intros [_ [L Hr]] Hs. assert (find_predecessors D s = L s) as ->.
  { destruct (pr_list _ _ _ _ Hr s Hs) as (p & t & _ & Ht & Hseg & _).
    assert (Hx : forall x, x ∈ L s -> 0 <= x < 2 * vlen (d_insn D))
      by (intros; by eapply (rep_mem_range _ _ _ _ Hr)).
    eapply walk_preds_lseg; [done|done|intros x Hin; specialize (Hx x Hin); lia|].
    pose proof (pr_next _ _ _ _ Hr) as Hl. simpl in Hl.
    pose proof (nodup_length_le _ _ (pr_nodup _ _ _ _ Hr s Hs) Hx). unfold vlen in Hl at 1. lia. }
  split; [by apply Hr|]. intros br. by apply Hr.
Qed.

Lemma find_predecessors_zero D :
  preds_inv D -> 0 < vlen (d_insn D) -> find_predecessors D 0 = [].
Proof.
  intros [_ [L Hr]] Hn. pose proof (pr_zero _ _ _ _ Hr Hn) as Hz. simpl in Hz.
  unfold find_predecessors. destruct (length (d_pnext D)) as [|f]; [done|]. simpl.
  by destruct (Z.leb_spec 0 (vget (d_pfirst D) 0)); [lia|].
Qed.

Lemma jumps_to_fun l br s s' : jumps_to l br s -> jumps_to l br s' -> s = s'.
Proof. unfold jumps_to. congruence. Qed.

Lemma set_branch_insn D s b to :
  d_insn (set_branch D s b to) = vset (d_insn D) s (set_jmp (vget (d_insn D) s) b to).
Proof. unfold set_branch. by destruct (link_branch _ _ _) as [[? ?] ?]. Qed.

Lemma unlink_neg old br a : old <= 0 -> unlink_branch old br a = a.
Proof. intros H. destruct a as [[? ?] ?]. simpl. by destruct (Z.ltb_spec 0 old); [lia|]. Qed.

Lemma link_neg to br a : to <= 0 -> link_branch to br a = a.
Proof. intros H. destruct a as [[? ?] ?]. simpl. by destruct (Z.ltb_spec 0 to); [lia|]. Qed.

Lemma set_branch_inv D s b to :
  preds_inv D -> 0 <= s < vlen (d_insn D) -> to < vlen (d_insn D) ->
  preds_inv (set_branch D s b to).
Proof.
  intros [Hin [L Hr]] Hs Hto. set (n := vlen (d_insn D)) in *. set (l := d_insn D) in *.
  pose proof (brno_range s b n Hs) as Hbr.
  assert (Hl' : forall br s', jumps_to (vset l s (set_jmp (vget l s) b to)) br s'
            <-> (br = brno s b /\ s' = to) \/ (br <> brno s b /\ jumps_to l br s')).
  { intros br s'. unfold jumps_to. pose proof (brno_eta br) as Heta.
    destruct (decide (br = brno s b)) as [->|Hne].
    - rewrite stateno_brno, br_yes_brno, vget_vset_eq, jmp_set_jmp by done.
      rewrite Bool.eqb_reflx. naive_solver.
    - destruct (decide (stateno br = s)) as [He|He].
      + rewrite He, vget_vset_eq, jmp_set_jmp by done.
        destruct (Bool.eqb_spec b (br_yes br)) as [Hy|Hy]; [congruence|naive_solver].
      + destruct (decide (0 <= stateno br)) as [Hp|Hp].
        * rewrite vget_vset_ne by lia. naive_solver.
        * assert (vget (vset l s (set_jmp (vget l s) b to)) (stateno br) = vget l (stateno br)) as ->.
          { unfold vget. by destruct (Z.leb_spec 0 (stateno br)); [lia|]. }
          naive_solver. }
  split.
  { rewrite set_branch_insn. fold l. intros i k. rewrite vlen_vset. intros Hi.
    rewrite vget_vset by lia. case_decide as Hd; [destruct Hd as [<- _]|by apply Hin].
    rewrite jmp_set_jmp. case_match; [done|]. by apply Hin. }
  rewrite set_branch_insn. fold l. rewrite vlen_vset. fold n.
  assert (exists L1, preds_rep n (fun b' s' => jumps_to l b' s' /\ b' <> brno s b)
    (unlink_branch (jmp (vget l s) b) (brno s b) (d_pfirst D, d_pnext D, d_pprev D)) L1)
    as [L1 Hr1].
  { assert (Hold : jumps_to l (brno s b) (jmp (vget l s) b))
      by (unfold jumps_to; by rewrite stateno_brno, br_yes_brno).
    destruct (decide (0 < jmp (vget l s) b)) as [Hp|Hp].
    - assert (0 < jmp (vget l s) b < n) by (split; [done|by apply Hin]).
      eapply unlink_rep; [apply jumps_to_fun|done|done|]. by apply Hr.
    - rewrite unlink_neg by lia. exists L. eapply rep_ext; [|done]. intros b' s' _ Hs'.
      split; [|tauto]. intros Hj. split; [done|]. intros ->. pose proof (jumps_to_fun _ _ _ _ Hj Hold). lia. }
  assert (exists L2, preds_rep n (jumps_to (vset l s (set_jmp (vget l s) b to)))
    (link_branch to (brno s b) (unlink_branch (jmp (vget l s) b) (brno s b)
       (d_pfirst D, d_pnext D, d_pprev D))) L2) as [L2 Hr2].
  { destruct (decide (0 < to)) as [Hp|Hp].
    - edestruct link_rep as [L2 Hr2]; [| |exact Hr1|split; [exact Hp|exact Hto]|exact Hbr|].
      + intros b' s1 s2 [H1 _] [H2 _]. by eapply jumps_to_fun.
      + intros s' [_ ?]. done.
      + exists L2. eapply rep_ext; [|exact Hr2]. intros. rewrite Hl'. simpl. tauto.
    - rewrite link_neg by lia. exists L1. eapply rep_ext; [|exact Hr1]. intros b' s' _ Hs'. simpl.
      rewrite Hl'. split; [tauto|]. intros [[_ ?]|?]; [lia|tauto]. }
  exists L2. unfold set_branch. fold l. by destruct (link_branch _ _ _) as [[? ?] ?].
Qed.

Lemma ensure_preds_inv D : d_pfirst D = [] -> jumps_in (d_insn D) -> preds_inv (ensure_preds D).
Proof.
  intros He Hin. destruct (init_preds_rep (d_insn D) Hin) as [L Hr]. unfold ensure_preds.
  rewrite He. destruct (init_preds (d_insn D)) as [[pf pn] pp]. split; [done|]. by exists L.
Qed.

(** ** Property *)

(** The predecessor lists are exact: after any [set_branch], the list of a
    state holds every branch that jumps to it once and no other branch. *)
Theorem set_branch_predecessors D from branch to s :
  preds_inv D -> 0 <= from < vlen (d_insn D) -> to < vlen (d_insn D) ->
  0 < s < vlen (d_insn D) ->
  let D' := set_branch D from branch to in
  NoDup (find_predecessors D' s)
  /\ forall br, br ∈ find_predecessors D' s <->
       0 <= br < 2 * vlen (d_insn D)
       /\ (if decide (br = brno from branch) then to else jmp (vget (d_insn D) (stateno br)) (br_yes br)) = s.
Proof.
  intros HD Hf Hto Hs D'. pose proof (set_branch_inv D from branch to HD Hf Hto) as HD'.
  fold D' in HD'.
  assert (Hl : vlen (d_insn D') = vlen (d_insn D)) by (unfold D'; by rewrite set_branch_insn, vlen_vset).
  destruct (find_predecessors_spec D' s HD') as [Hnd Hmem]; [lia|]. split; [done|].
  intros br. rewrite Hmem, Hl. unfold jumps_to, D'. rewrite set_branch_insn.
  assert (Hj : 0 <= br < 2 * vlen (d_insn D) ->
    jmp (vget (vset (d_insn D) from (set_jmp (vget (d_insn D) from) branch to)) (stateno br)) (br_yes br)
    = if decide (br = brno from branch) then to else jmp (vget (d_insn D) (stateno br)) (br_yes br)).
  { intros Hbr. pose proof (stateno_range br _ Hbr). pose proof (brno_eta br) as Heta.
    rewrite vget_vset by lia. case_decide as Hd.
    - destruct Hd as [He _]. rewrite jmp_set_jmp. case_decide as Hb.
      + rewrite Hb, br_yes_brno, Bool.eqb_reflx. done.
      + destruct (Bool.eqb_spec branch (br_yes br)); [congruence|]. by rewrite He.
    - case_decide as Hb; [|done]. rewrite Hb, stateno_brno in Hd. lia. }
  split; intros [Hbr Hx]; (split; [done|]); by rewrite Hj in *.
Qed.

(** A diamond of four states. *)
Definition diamond : list Insn :=
  [new_insn 0 0 255 2 1 false; new_insn 4 0 255 3 3 false;
   new_insn 8 0 255 3 (-1) false; new_insn 12 0 255 (-2) 0 false].

Lemma set_branch_predecessors_witness :
  find_predecessors (set_branch (ensure_preds (new_dom diamond)) 2 true 3) 3 <> []
  /\ NoDup (find_predecessors (set_branch (ensure_preds (new_dom diamond)) 2 true 3) 3).
Proof.
  split; [vm_compute; discriminate|].
  apply (set_branch_predecessors (ensure_preds (new_dom diamond)) 2 true 3 3).
  - apply ensure_preds_inv; [reflexivity|]. intros i k Hi.
    assert (i = 0 \/ i = 1 \/ i = 2 \/ i = 3) as [-> | [-> | [-> | ->]]]
      by (unfold vlen in Hi; simpl in Hi; lia); destruct k; vm_compute; reflexivity.
  - vm_compute. split; congruence.
  - vm_compute. reflexivity.
  - vm_compute. split; congruence.
Defined.
