(* ===== verification/Words.v ===== *)
(** * Bytes of instruction words

    How the four bytes of a mask and a value relate to the word the matcher
    compares, and what the length-checked test means byte by byte. *)

From S2P Require Import Prelude Packet Insn Program.

(** ** Bytes *)

Lemma byte_of_land a b k : 0 <= k -> byte_of (a .& b) k = (byte_of a k .& byte_of b k).
Proof.
  intros Hk. apply Z.bits_inj'. intros n Hn.
  rewrite Z.land_spec, !byte_of_testbit, Z.land_spec by done.
  destruct (n <? 8); simpl; [done|reflexivity].
Qed.

Lemma word_high_bits w n : 0 <= w < 4294967296 -> 32 <= n -> Z.testbit w n = false.
Proof.
  intros Hw Hn. destruct (decide (w = 0)) as [->|]; [apply Z.bits_0|].
  apply Z.bits_above_log2; [lia|]. assert (Z.log2 w < 32) by (apply Z.log2_lt_pow2; lia). lia.
Qed.

Lemma land_ones_shifted x l :
  0 <= x < 4294967296 -> 0 <= l <= 32 -> x .& (Z.ones l .<< (32 - l)) = (x / 2 ^ (32 - l)) * 2 ^ (32 - l).
Proof.
  intros Hx Hl. rewrite <- Z.shiftl_mul_pow2, <- Z.shiftr_div_pow2 by lia. apply Z.bits_inj'. intros k Hk.
  rewrite Z.land_spec, !Z.shiftl_spec by lia. destruct (Z.lt_ge_cases k (32 - l)) as [Hlt|Hge].
  - rewrite !(Z.testbit_neg_r _ (k - (32 - l))) by lia. by rewrite andb_false_r.
  - rewrite Z.shiftr_spec, Z.testbit_ones_nonneg by lia. replace (k - (32 - l) + (32 - l)) with k by lia.
    destruct (Z.lt_ge_cases k 32) as [H32|H32].
    + rewrite (proj2 (Z.ltb_lt _ l)) by lia. apply andb_true_r.
    + by rewrite word_high_bits.
Qed.

Lemma byte_split n : 0 <= n < 32 -> exists k r, n = 8 * k + r /\ 0 <= k < 4 /\ 0 <= r < 8.
Proof.
  intros Hn. exists (n / 8), (n mod 8). split; [apply Z.div_mod; lia|].
  split; [split; [apply Z.div_pos; lia|apply Z.div_lt_upper_bound; lia]|apply Z.mod_pos_bound; lia].
Qed.

Lemma word_bytes_eq a b :
  0 <= a < 4294967296 -> 0 <= b < 4294967296 ->
  (forall k, 0 <= k < 4 -> byte_of a k = byte_of b k) -> a = b.
Proof.
  intros Ha Hb H. apply Z.bits_inj'. intros n Hn.
  destruct (Z.ltb_spec n 32) as [Hlt|Hge]; [|by rewrite !word_high_bits].
  destruct (byte_split n ltac:(lia)) as (k & r & -> & Hk & Hr).
  specialize (H k Hk). apply (f_equal (fun w => Z.testbit w r)) in H.
  rewrite !byte_of_testbit in H by lia. by destruct (Z.ltb_spec r 8); [|lia].
Qed.

Lemma byte_bits b n : 0 <= b < 256 -> 8 <= n -> Z.testbit b n = false.
Proof.
  intros Hb Hn. destruct (decide (b = 0)) as [->|]; [apply Z.bits_0|].
  apply Z.bits_above_log2; [lia|]. assert (Z.log2 b < 8) by (apply Z.log2_lt_pow2; lia). lia.
Qed.

Lemma byte_of_pkt_word p i k : pkt_ok p -> 0 <= k < 4 -> byte_of (pkt_word p i) k = pkt_byte p (i + k).
Proof.
  intros Hp Hk. apply Z.bits_inj'. intros n Hn. rewrite byte_of_testbit by lia. unfold pkt_word.
  rewrite le32_testbit by (lia || by apply pkt_byte_range).
  destruct (Z.ltb_spec n 8) as [H8|H8]; cbn [andb].
  2:{ symmetry. apply byte_bits; [by apply pkt_byte_range|done]. }
  assert (k = 0 \/ k = 1 \/ k = 2 \/ k = 3) as [-> | [-> | [-> | ->]]] by lia.
  - rewrite Z.add_0_r. by destruct (Z.ltb_spec (8 * 0 + n) 8); [|lia].
  - destruct (Z.ltb_spec (8 * 1 + n) 8); [lia|]. destruct (Z.ltb_spec (8 * 1 + n) 16); [|lia].
    f_equal. lia.
  - destruct (Z.ltb_spec (8 * 2 + n) 8); [lia|]. destruct (Z.ltb_spec (8 * 2 + n) 16); [lia|].
    destruct (Z.ltb_spec (8 * 2 + n) 24); [|lia]. f_equal. lia.
  - destruct (Z.ltb_spec (8 * 3 + n) 8); [lia|]. destruct (Z.ltb_spec (8 * 3 + n) 16); [lia|].
    destruct (Z.ltb_spec (8 * 3 + n) 24); [lia|]. destruct (Z.ltb_spec (8 * 3 + n) 32); [|lia].
    f_equal. lia.
Qed.

Lemma u32_testbit x n : 0 <= n -> Z.testbit (u32 x) n = (n <? 32) && Z.testbit x n.
Proof.
  intros Hn. unfold u32. change 4294967296 with (2 ^ 32). rewrite <- Z.land_ones by lia.
  rewrite Z.land_spec, Z.testbit_ones_nonneg by lia. by rewrite andb_comm.
Qed.

Lemma put_byte_testbit w k b n :
  0 <= k < 4 -> 0 <= b < 256 -> 0 <= n < 32 ->
  Z.testbit (put_byte w k b) n
  = if decide (8 * k <= n < 8 * k + 8) then Z.testbit b (n - 8 * k) else Z.testbit w n.
Proof.
  intros Hk Hb Hn. unfold put_byte, not32.
  rewrite Z.lor_spec, Z.land_spec, u32_testbit, Z.lnot_spec, !Z.shiftl_spec by lia.
  destruct (Z.ltb_spec n 32); [|lia]. cbn [andb].
  case_decide as Hd.
  - change 255 with (Z.ones 8). rewrite (proj2 (Z.ones_spec_iff 8 (n - 8 * k) ltac:(lia))) by lia.
    cbn [negb]. by rewrite andb_false_r.
  - destruct (Z.ltb_spec n (8 * k)).
    + rewrite (Z.testbit_neg_r 255), (Z.testbit_neg_r b) by lia. cbn [negb].
      by rewrite andb_true_r, orb_false_r.
    + rewrite (byte_bits 255), (byte_bits b) by lia. cbn [negb].
      by rewrite andb_true_r, orb_false_r.
Qed.

Lemma byte_of_put w k b j :
  0 <= k < 4 -> 0 <= b < 256 -> 0 <= j < 4 ->
  byte_of (put_byte w k b) j = if decide (j = k) then b else byte_of w j.
Proof.
  intros Hk Hb Hj. apply Z.bits_inj'. intros n Hn. rewrite byte_of_testbit by lia.
  destruct (Z.ltb_spec n 8) as [H8|H8]; cbn [andb].
  - rewrite put_byte_testbit by lia. case_decide; case_decide; try lia.
    + subst j. f_equal. lia.
    + rewrite byte_of_testbit by lia. by destruct (Z.ltb_spec n 8); [|lia].
  - symmetry. apply byte_bits; [|done]. case_decide; [done|apply byte_of_range].
Qed.

Lemma nonneg_bits_bound w :
  0 <= w -> (forall n, 32 <= n -> Z.testbit w n = false) -> 0 <= w < 4294967296.
Proof.
  intros H0 H. split; [done|]. destruct (decide (w = 0)) as [->|]; [lia|].
  destruct (Z.ltb_spec w 4294967296); [done|].
  assert (32 <= Z.log2 w) by (apply Z.log2_le_pow2; lia).
  specialize (H (Z.log2 w) ltac:(done)). rewrite Z.bit_log2 in H by lia. done.
Qed.

Lemma put_byte_range w k b :
  0 <= w < 4294967296 -> 0 <= k < 4 -> 0 <= b < 256 -> 0 <= put_byte w k b < 4294967296.
Proof.
  intros Hw Hk Hb. apply nonneg_bits_bound.
  - unfold put_byte. apply Z.lor_nonneg. split; [apply Z.land_nonneg; lia|].
    apply Z.shiftl_nonneg. lia.
  - intros n Hn. unfold put_byte, not32.
    rewrite Z.lor_spec, Z.land_spec, u32_testbit, Z.shiftl_spec, (word_high_bits w) by lia.
    rewrite (byte_bits b) by lia. reflexivity.
Qed.

(** ** Tests byte by byte *)

(** The conjunction of a predicate over the four bytes an instruction tests:
    position, value and mask of each. *)
Definition word_all (Q : Z -> Z -> Z -> bool) (e : Insn) : bool :=
  forallb (fun k => Q (offset e + k) (byte_of (value e) k) (mask_c e k)) [0; 1; 2; 3].

Lemma word_all_true Q e :
  word_all Q e = true <->
  forall k, 0 <= k < 4 -> Q (offset e + k) (byte_of (value e) k) (mask_c e k) = true.
Proof.
  unfold word_all. rewrite forallb_forall. split.
  - intros H k Hk. apply H. simpl. lia.
  - intros H k Hk. apply H. simpl in Hk. lia.
Qed.

(** The masked byte at packet position [i] has the value [v]. *)
Definition byte_ok (p : packet) (i v m : Z) : bool :=
  (m =? 0) || ((i <? pkt_length p) && ((pkt_byte p i .& m) =? v)).

Lemma fast_outcome_bytes al p e :
  pkt_ok p -> insn_ok e ->
  fast_outcome al p e = true <->
  forall k, 0 <= k < 4 ->
    (pkt_byte p (offset e + k - al) .& mask_c e k) = byte_of (value e) k.
Proof.
  intros Hp (Ho & Hm & Hv & _). unfold fast_outcome, wtest. rewrite Z.eqb_eq.
  assert (Hb : forall k, 0 <= k < 4 ->
    byte_of (pkt_word p (offset e - al) .& mask e) k
    = (pkt_byte p (offset e + k - al) .& mask_c e k)).
  { intros k Hk. rewrite byte_of_land by lia. unfold mask_c. f_equal.
    rewrite byte_of_pkt_word by done. f_equal. lia. }
  assert (Hr : forall d, 0 <= (d .& mask e) < 4294967296).
  { intros d. apply nonneg_bits_bound; [apply Z.land_nonneg; lia|].
    intros n Hn. rewrite Z.land_spec, (word_high_bits (mask e)) by done. apply andb_false_r. }
  split.
  - intros <- k Hk. by rewrite <- Hb.
  - intros H. apply word_bytes_eq; [done|rewrite <- Hv; apply Hr|]. intros k Hk. rewrite Hb by done. auto.
Qed.

Lemma value_byte_zero e k : insn_ok e -> 0 <= k -> mask_c e k = 0 -> byte_of (value e) k = 0.
Proof.
  intros (_ & _ & Hv & _) Hk Hm. rewrite <- Hv, byte_of_land by done.
  unfold mask_c in Hm. rewrite Hm. apply Z.land_0_r.
Qed.

Lemma required_length_top e :
  mask e <> 0 -> 0 <= mask e < 4294967296 ->
  exists k, 0 <= k < 4 /\ mask_c e k <> 0 /\ required_length e = offset e + k + 1.
Proof.
  intros Hm Hr. unfold required_length. destruct (Z.eqb_spec (mask e) 0); [done|].
  destruct (Z.eqb_spec (mask_c e 3) 0); cbn [negb]; [|exists 3; lia].
  destruct (Z.eqb_spec (mask_c e 2) 0); cbn [negb]; [|exists 2; lia].
  destruct (Z.eqb_spec (mask_c e 1) 0); cbn [negb]; [|exists 1; lia].
  exists 0. split; [lia|]. split; [|lia]. intros H0. apply Hm. apply word_bytes_eq; [done|lia|].
  intros k Hk. assert (k = 0 \/ k = 1 \/ k = 2 \/ k = 3) as [-> | [-> | [-> | ->]]] by lia; done.
Qed.

(** The length-checked test of an instruction that answers [false] for short
    packets: every masked byte is there and has its value. *)
Lemma checked_outcome_bytes al p e :
  0 <= al -> pkt_length p + al < 2147483648 -> pkt_ok p -> insn_ok e -> short_output e = false ->
  mask e <> 0 \/ offset e < pkt_length p + al ->
  checked_outcome al p e = word_all (fun i => byte_ok p (i - al)) e.
Proof.
  intros Hal Hlen Hp Hok Hs Hne. pose proof Hok as (_ & Hm & _ & _).
  destruct (Z.ltb_spec (pkt_length p + al) (required_length e)) as [Hr|Hr].
  - rewrite checked_short, Hs by done. symmetry. apply not_true_iff_false. rewrite word_all_true.
    intros H. assert (mask e <> 0) as Hmz.
    { intros Hz. unfold required_length in Hr. rewrite Hz in Hr. simpl in Hr.
      assert (0 <= pkt_length p) by apply vlen_nonneg. lia. }
    destruct (required_length_top e Hmz Hm) as (k & Hk & Hz & Hrq). specialize (H k Hk).
    unfold byte_ok in H. destruct (Z.eqb_spec (mask_c e k) 0); [done|]. cbn [orb] in H.
    bprop. lia.
  - assert (checked_outcome al p e = fast_outcome al p e) as ->.
    { destruct (decide (mask e = 0)) as [Hz|Hz]; [|by apply checked_long].
      unfold checked_outcome. assert (0 <= pkt_length p) by apply vlen_nonneg.
      rewrite i32_small by lia. case_match; [|done].
      assert (forall k, 0 <= k -> mask_c e k = 0) as Hc.
      { intros k Hk. unfold mask_c, byte_of. by rewrite Hz, Z.shiftr_0_l, Z.land_0_l. }
      rewrite !Hc by lia. destruct (Z.ltb_spec (offset e) (pkt_length p + al)); [done|].
      destruct Hne; [done|lia]. }
    apply eq_bool_prop_intro. rewrite !Is_true_true, fast_outcome_bytes, word_all_true by done.
    unfold byte_ok. split; intros H k Hk; specialize (H k Hk).
    + destruct (Z.eqb_spec (mask_c e k) 0) as [|Hz]; [done|]. cbn [orb].
      pose proof (required_length_covers e k Hok Hk Hz).
      destruct (Z.ltb_spec (offset e + k - al) (pkt_length p)); [|lia].
      cbn [andb]. by apply Z.eqb_eq.
    + destruct (Z.eqb_spec (mask_c e k) 0) as [Hz|Hz]; cbn [orb] in H; bprop; [|done].
      rewrite Hz, Z.land_0_r. symmetry. apply value_byte_zero; [done|lia|done].
Qed.

(** ** Byte order *)

Lemma ntohl_testbit w k : 0 <= k < 32 -> Z.testbit (ntohl w) k = Z.testbit w (k + 24 - 16 * (k / 8)).
Proof.
  intros Hk. unfold ntohl. rewrite le32_testbit by (lia || apply byte_of_range).
  assert (k / 8 = 0 \/ k / 8 = 1 \/ k / 8 = 2 \/ k / 8 = 3) as Hc by (Z.div_mod_to_equations; lia).
  assert (Hr : 8 * (k / 8) <= k < 8 * (k / 8) + 8) by (Z.div_mod_to_equations; lia).
  destruct Hc as [E|[E|[E|E]]]; rewrite E in *; repeat match goal with
    | |- context [?a <? ?b] => destruct (Z.ltb_spec a b); try lia
    end; rewrite byte_of_testbit by lia; rewrite (proj2 (Z.ltb_lt _ 8)) by lia; cbn [andb]; f_equal; lia.
Qed.

Lemma ntohl_involutive w : 0 <= w < 4294967296 -> ntohl (ntohl w) = w.
Proof.
  intros Hw. apply Z.bits_inj'. intros k Hk. destruct (Z.lt_ge_cases k 32) as [Hlt|Hge].
  - rewrite !ntohl_testbit by (Z.div_mod_to_equations; lia). f_equal. Z.div_mod_to_equations; lia.
  - rewrite !word_high_bits; done || apply ntohl_range || lia.
Qed.

Lemma ntohl_land a b : 0 <= a < 4294967296 -> 0 <= b < 4294967296 -> ntohl (a .& b) = ntohl a .& ntohl b.
Proof.
  intros Ha Hb. apply Z.bits_inj'. intros k Hk. rewrite Z.land_spec. destruct (Z.lt_ge_cases k 32) as [Hlt|Hge].
  - by rewrite !ntohl_testbit, Z.land_spec by lia.
  - rewrite !word_high_bits; done || apply ntohl_range || lia.
Qed.
