(* ===== verification/Optimize.v ===== *)
(** * [Program::optimize]

    The four passes in the order of elements/standard/classification.cc, the
    final choice between instructions and a single output, and the length
    below which [match] checks packet bounds. *)

From S2P Require Import Prelude Packet Insn Program BubbleSort Dominator Combine RemoveUnused.

Definition max_required_length (l : list Insn) : Z :=
  fold_left (fun m e => if m <? required_length e then required_length e else m) l 0.

(** The tail of [optimize], after [remove_unused_states]. *)
Definition finish_optimize (P : Program) : Program :=
  let P :=
    if (ninsn P =? 0) && (output_everything P <? 0)
    then mkProgram (insns P) (- j_never) (safe_length P) (align_offset P)
    else if 0 <=? output_everything P
    then mkProgram [] (output_everything P) (safe_length P) (align_offset P)
    else P in
  mkProgram (insns P) (output_everything P)
            (u32 (max_required_length (insns P) - align_offset P)) (align_offset P).

Definition optimize (m : list (Z * Z)) (last_offset : Z) (P : Program) : option Program :=
  match bubble_sort_and_exprs m last_offset (insns P) with
  | None => None
  | Some l =>
      match dominator_optimize l with
      | None => None
      | Some l =>
          match combine_compatible_states l with
          | None => None
          | Some l => Some (finish_optimize (remove_unused_states (with_insns P l)))
          end
      end
  end.
