(* ===== verification/Matching.v ===== *)
(** * Running optimized programs

    The properties of [Program::match] that the router relies on: it
    terminates, its unchecked fast path agrees with the length-checked one,
    and no answer depends on a byte outside the packet. *)

From S2P Require Import Prelude Packet Insn Program Words BubbleSort Combine RemoveUnused Dominator Optimize.

(** ** The largest required length *)

Lemma max_required_from l m :
  let f := fun m e => if m <? required_length e then required_length e else m in
  m <= fold_left f l m /\ forall e, e ∈ l -> required_length e <= fold_left f l m.
Proof.
  cbv zeta. revert m. induction l as [|e l IH]; intros m; simpl.
  - split; [lia|set_solver].
  - destruct (Z.ltb_spec m (required_length e)) as [Hlt|Hge].
    + destruct (IH (required_length e)) as [H1 H2]. split; [lia|].
      intros x Hx. apply elem_of_cons in Hx as [-> | Hx]; auto.
    + destruct (IH m) as [H1 H2]. split; [done|].
      intros x Hx. apply elem_of_cons in Hx as [-> | Hx]; [lia|auto].
Qed.

Lemma max_required_length_ge l e : e ∈ l -> required_length e <= max_required_length l.
Proof. apply (max_required_from l 0). Qed.

Lemma max_required_attained l :
  l <> [] -> all_insns (fun e => 0 < required_length e) l ->
  exists e, e ∈ l /\ max_required_length l = required_length e.
Proof.
  unfold max_required_length. intros Hne Hall.
  assert (Hgen : forall l m, let f := fun m e => if m <? required_length e then required_length e else m in
    fold_left f l m = m \/ exists e, e ∈ l /\ fold_left f l m = required_length e).
  { cbv zeta. clear. induction l as [|e l IH]; intros m; simpl; [by left|].
    destruct (Z.ltb_spec m (required_length e)).
    - destruct (IH (required_length e)) as [-> | (x & Hx & ->)]; right;
        [exists e; set_solver|exists x; set_solver].
    - destruct (IH m) as [-> | (x & Hx & ->)]; [by left|right; exists x; set_solver]. }
  destruct (Hgen l 0) as [H0|]; [|done]. exfalso. cbv zeta in H0.
  destruct l as [|e l]; [done|]. pose proof (max_required_length_ge (e :: l) e ltac:(set_solver)) as Hge.
  unfold max_required_length in Hge. rewrite H0 in Hge. specialize (Hall 0 ltac:(vlia)).
  rewrite vget_cons_0 in Hall. lia.
Qed.

(** ** Well-formed programs *)

(** A program ready to run: an output for everything, or instructions with
    forward jumps that test something and read no byte before the packet, and
    a safe length that covers all of them. *)
Record ready (P : Program) : Prop := {
  rd_align : 0 <= align_offset P;
  rd_fwd : fwd (insns P);
  rd_nonempty : output_everything P < 0 -> 0 < ninsn P;
  rd_ok : all_insns insn_ok (insns P);
  rd_mask : all_insns (fun e => mask e <> 0) (insns P);
  rd_low : all_insns (low_ok (align_offset P)) (insns P);
  rd_safe : output_everything P < 0 ->
    all_insns (fun e => required_length e <= safe_length P + align_offset P) (insns P)
}.

Lemma exec_insns fuel l o o' pos :
  fwd l -> (forall i, 0 <= i < vlen l -> o (vget l i) = o' (vget l i)) ->
  0 <= pos < vlen l -> exec fuel l o pos = exec fuel l o' pos.
Proof.
  intros Hf Ho. revert pos. induction fuel as [|fuel IH]; intros pos Hp; [done|]. cbn [exec].
  rewrite Ho by done. pose proof (Hf pos (o' (vget l pos)) Hp).
  destruct (Z.ltb_spec 0 (jmp (vget l pos) (o' (vget l pos)))); [|done]. apply IH. lia.
Qed.

(** On a packet of at least the safe length both interpreters agree. *)
Lemma ready_fast P p :
  ready P -> output_everything P < 0 -> safe_length P <= pkt_length p ->
  pkt_length p + align_offset P < 2147483648 ->
  exec (length (insns P)) (insns P) (fast_outcome (align_offset P) p) 0 = length_checked_match P p.
Proof.
  intros HP Hoe Hs Hl. unfold length_checked_match. pose proof (rd_nonempty _ HP Hoe) as Hn.
  apply exec_insns; [apply HP| |unfold ninsn in Hn; lia].
  intros i Hi. symmetry. apply checked_long; [apply HP|done|by apply (rd_mask _ HP)|].
  pose proof (rd_safe _ HP Hoe i Hi). simpl in *. lia.
Qed.

Lemma match_checked P p :
  ready P -> pkt_length p + align_offset P < 2147483648 ->
  match_ P p = if 0 <=? output_everything P then Some (output_everything P)
               else length_checked_match P p.
Proof.
  intros HP Hl. unfold match_. destruct (Z.leb_spec 0 (output_everything P)); [done|].
  destruct (Z.ltb_spec (pkt_length p) (safe_length P)); [done|]. by apply ready_fast.
Qed.

(** ** [optimize] produces such programs *)

Lemma finish_ready P :
  fwd (insns P) -> 0 < ninsn P -> 0 <= align_offset P < 65536 ->
  all_insns insn_ok (insns P) -> all_insns (low_ok (align_offset P)) (insns P) ->
  ready (finish_optimize (remove_unused_states P)).
Proof.
  intros Hf Hn Hal Hok Hlow. pose proof (remove_unused_ok P Hf Hn) as [R1 R2 R3 R4 R5 R6 _].
  set (P1 := remove_unused_states P) in *. unfold finish_optimize.
  destruct (Z.eqb_spec (ninsn P1) 0) as [Hz|Hz].
  - assert (Hoe : 0 <= output_everything P1) by (destruct (Z.ltb_spec (output_everything P1) 0); [specialize (R4 ltac:(done)); lia|lia]).
    destruct (Z.ltb_spec (output_everything P1) 0); [lia|]. cbn [andb].
    destruct (Z.leb_spec 0 (output_everything P1)); [|lia].
    assert (Hnil : forall Q, all_insns Q []) by (intros Q i Hi; unfold vlen in Hi; simpl in Hi; lia).
    constructor; simpl; try apply Hnil; try (intros; apply Hnil); try lia.
    intros i k Hi. unfold vlen in Hi. simpl in Hi. lia.
  - cbn [andb]. destruct (Z.leb_spec 0 (output_everything P1)) as [Hge|Hlt].
    { exfalso. apply Hz. unfold ninsn. by rewrite R3. }
    assert (Hok1 : all_insns insn_ok (insns P1)).
    { intros i Hi. destruct (R6 i Hi) as (s & Hs & (E1 & E2 & E3 & E4) & Ep).
      destruct (Hok s Hs) as (O1 & O2 & O3 & O4). unfold insn_at in *. unfold insn_ok. by rewrite E1, E3, E4, Ep. }
    assert (Hmask1 : all_insns (fun e => mask e <> 0) (insns P1)).
    { intros i Hi. specialize (R5 i Hi). unfold interesting in R5. by bprop. }
    assert (Hlow1 : all_insns (low_ok (align_offset P1)) (insns P1)).
    { intros i Hi k Hk Hm. destruct (R6 i Hi) as (s & Hs & (E1 & E2 & E3 & E4) & Ep).
      rewrite R2, E1. apply (Hlow s Hs); [done|]. unfold mask_c in *. unfold insn_at in *. by rewrite <- E3. }
    assert (Hreq : all_insns (fun e => align_offset P < required_length e <= 65539) (insns P1)).
    { intros i Hi. specialize (Hlow1 i Hi). specialize (Hok1 i Hi). specialize (Hmask1 i Hi). simpl in Hmask1.
      rewrite R2 in Hlow1. destruct Hok1 as (O1 & O2 & _).
      destruct (required_length_top (vget (insns P1) i)) as (k & Hk & Hz' & Hr); [done|done|].
      specialize (Hlow1 k Hk Hz'). lia. }
    assert (Hin : forall i, 0 <= i < vlen (insns P1) -> vget (insns P1) i ∈ insns P1).
    { intros i Hi. apply list_elem_of_lookup_2 with (i := Z.to_nat i). by apply vget_some. }
    assert (Hmax : align_offset P < max_required_length (insns P1) <= 65539).
    { destruct (max_required_attained (insns P1)) as (e & He & ->).
      - intros E. apply Hz. unfold ninsn. by rewrite E.
      - intros i Hi. specialize (Hreq i Hi). simpl in *. lia.
      - apply list_elem_of_lookup_1 in He as [i Hi].
        specialize (Hreq (Z.of_nat i)). rewrite (vget_nat _ _ _ Hi) in Hreq. apply Hreq.
        apply lookup_lt_Some in Hi. unfold vlen. lia. }
    constructor; simpl; [lia|done| |done|done|done|].
    + intros _. apply R4. lia.
    + intros _ i Hi. rewrite R2, u32_small by lia.
      pose proof (max_required_length_ge (insns P1) _ (Hin i Hi)). lia.
Qed.

(** ** Outputs without packets *)

Lemma mark_used_len noutputs j used : vlen (mark_used noutputs j used) = vlen used.
Proof. unfold mark_used. case_match; [apply vlen_vset|done]. Qed.

Lemma mark_used_keep noutputs j used i :
  0 <= i -> vget used i <> 0 -> vget (mark_used noutputs j used) i <> 0.
Proof.
  intros Hi Hu. unfold mark_used. case_match; [|done]. bprop.
  rewrite vget_vset by lia. case_decide; [lia|done].
Qed.

Lemma mark_used_sets noutputs j used :
  j <= 0 -> - j < noutputs -> noutputs <= vlen used -> vget (mark_used noutputs j used) (- j) <> 0.
Proof.
  intros Hj Hn Hl. unfold mark_used. destruct (Z.leb_spec j 0); [|lia].
  destruct (Z.ltb_spec (- j) noutputs); [|lia]. cbn [andb]. rewrite vget_vset_eq by lia. lia.
Qed.

Lemma mark_all_sets noutputs l used i :
  0 <= i < noutputs -> noutputs <= vlen used ->
  vget used i <> 0 \/ (exists e k, e ∈ l /\ jmp e k = - i) ->
  vget (fold_left (fun used e => mark_used noutputs (j_yes e) (mark_used noutputs (j_no e) used)) l used) i <> 0.
Proof.
  intros Hi. revert used. induction l as [|e l IH]; intros used Hl H; simpl.
  - destruct H as [H|(e & k & He & _)]; [done|set_solver].
  - apply IH; [by rewrite !mark_used_len|]. destruct H as [H|(x & k & Hx & Hk)].
    + left. apply mark_used_keep; [lia|]. apply mark_used_keep; [lia|done].
    + apply elem_of_cons in Hx as [-> | Hx]; [left|right; eauto].
      destruct k; simpl in Hk.
      * replace i with (- j_yes e) by lia. apply mark_used_sets; [lia|lia|by rewrite mark_used_len].
      * apply mark_used_keep; [lia|]. replace i with (- j_no e) by lia. apply mark_used_sets; lia.
Qed.

Lemma exec_output fuel l o pos r :
  fwd l -> 0 <= pos < vlen l -> exec fuel l o pos = Some r ->
  exists e k, e ∈ l /\ jmp e k = - r.
Proof.
  intros Hf Hp H. apply exec_Runs in H; [|done|done].
  induction H as [pos r Hp' Hj Hr|pos pos' r Hp' Hj Hlt H IH].
  - exists (vget l pos), (o (vget l pos)). split; [|done].
    apply list_elem_of_lookup_2 with (i := Z.to_nat pos). by apply vget_some.
  - apply IH. by apply Runs_range in H.
Qed.

(** ** Properties *)

(** C37. [match] terminates on every packet with an output. *)
Theorem match_total P p :
  fwd (insns P) -> (output_everything P < 0 -> 0 < ninsn P) -> exists r, match_ P p = Some r.
Proof.
  intros Hf Hn. unfold match_, length_checked_match.
  destruct (Z.leb_spec 0 (output_everything P)); [eauto|]. specialize (Hn ltac:(lia)).
  case_match; by apply exec_total.
Qed.

(** The fast path is safe: on an optimized program, a packet of at least the
    safe length gets the same output from the unchecked interpreter as from
    the one that checks the packet's bounds before every test. *)
Theorem fast_path_agrees P p :
  fwd (insns P) -> 0 < ninsn P -> 0 <= align_offset P < 65536 ->
  all_insns insn_ok (insns P) -> all_insns (low_ok (align_offset P)) (insns P) ->
  let P' := finish_optimize (remove_unused_states P) in
  safe_length P' <= pkt_length p -> pkt_length p + align_offset P < 2147483648 ->
  output_everything P' < 0 ->
  exec (length (insns P')) (insns P') (fast_outcome (align_offset P') p) 0
  = length_checked_match P' p.
Proof.
  intros Hf Hn Hal Hok Hlow P' Hs Hl Hoe. apply ready_fast; [by apply finish_ready|done|done|].
  pose proof (remove_unused_ok P Hf Hn) as [_ R2 _ _ _ _ _]. unfold P', finish_optimize.
  repeat case_match; simpl; lia.
Qed.

(** C20. No read outside the packet matters: an optimized program gives two
    packets with the same contents the same output, whatever their buffers
    hold before and after the packet. *)
Theorem match_reads_packet P p q :
  fwd (insns P) -> 0 < ninsn P -> 0 <= align_offset P < 65536 ->
  all_insns insn_ok (insns P) -> all_insns (low_ok (align_offset P)) (insns P) ->
  pkt_length p + align_offset P < 2147483648 ->
  pkt_ok p -> pkt_ok q -> same_contents p q ->
  let P' := finish_optimize (remove_unused_states P) in
  match_ P' p = match_ P' q.
Proof.
  intros Hf Hn Hal Hok Hlow Hl Hp Hq Hsame P'.
  assert (HP : ready P') by (by apply finish_ready).
  assert (Ha : align_offset P' = align_offset P).
  { pose proof (remove_unused_ok P Hf Hn) as [_ R2 _ _ _ _ _]. unfold P', finish_optimize.
    repeat case_match; simpl; done. }
  assert (Hlen : pkt_length p = pkt_length q) by (unfold pkt_length; by rewrite Hsame).
  rewrite !match_checked; try done; [|by rewrite Ha, <- Hlen|by rewrite Ha].
  destruct (Z.leb_spec 0 (output_everything P')); [done|]. unfold length_checked_match.
  pose proof (rd_nonempty _ HP ltac:(lia)) as Hn'.
  apply exec_insns; [apply HP| |unfold ninsn in Hn'; lia]. intros i Hi.
  apply checked_same; try done; [apply HP|by rewrite Ha|by apply HP|by apply HP].
Qed.

(** A warning about an unused output is right: no packet is ever sent to an
    output that [warn_unused_outputs] reports. *)
Theorem warn_unused_sound P noutputs p i :
  fwd (insns P) -> (output_everything P < 0 -> 0 < ninsn P) ->
  i ∈ warn_unused_outputs P noutputs -> match_ P p <> Some i.
Proof.
  intros Hf Hn Hi Hm. unfold warn_unused_outputs in Hi. apply list_elem_of_filter in Hi as [Hu Hi].
  apply elem_of_seqZ in Hi.
  assert (Hl0 : noutputs <= vlen (replicate (Z.to_nat noutputs) 0)) by (rewrite vlen_replicate; lia).
  unfold match_ in Hm. destruct (Z.leb_spec 0 (output_everything P)) as [Hoe|Hoe].
  - injection Hm as <-. cbn [andb] in Hu. destruct (Z.ltb_spec (output_everything P) noutputs); [|lia].
    rewrite vget_vset_eq in Hu by lia. done.
  - cbn [andb] in Hu. revert Hu. apply mark_all_sets; [lia|done|]. right.
    specialize (Hn Hoe). unfold ninsn in Hn.
    case_match; unfold length_checked_match in Hm; eapply exec_output; try exact Hm; (done || lia).
Qed.

(** ** Witnesses *)

(** [12/0806, 12/0800] as parsed. *)
Definition demo_program : Program :=
  mkProgram [new_insn 12 1544 65535 1 0 false; new_insn 12 8 65535 j_never (-1) false] (-1)
            (u32 (-1)) 0.

Definition arp_packet : packet := packet_of (replicate 12 0 ++ [8; 6; 0; 1]).

(** The same packet in a buffer with other bytes around it. *)
Definition arp_packet' : packet := mkPacket (replicate 12 0 ++ [8; 6; 0; 1]) (fun _ => 255).

Lemma demo_fwd : fwd (insns demo_program).
Proof. apply fwdb_fwd. vm_compute. reflexivity. Qed.

Lemma demo_index i : 0 <= i < vlen (insns demo_program) -> i = 0 \/ i = 1.
Proof. unfold vlen. simpl. lia. Qed.

Lemma demo_ok : all_insns insn_ok (insns demo_program).
Proof.
  intros i Hi. destruct (demo_index i Hi) as [-> | ->];
    (split; [|split; [|split]]); vm_compute; repeat split; congruence.
Qed.

Lemma demo_low : all_insns (low_ok 0) (insns demo_program).
Proof.
  intros i Hi k Hk _. destruct (demo_index i Hi) as [-> | ->].
  - change (offset (vget (insns demo_program) 0)) with 12. lia.
  - change (offset (vget (insns demo_program) 1)) with 12. lia.
Qed.

Lemma demo_pkt_ok : pkt_ok arp_packet /\ pkt_ok arp_packet'.
Proof.
  assert (H : Forall (fun b => 0 <= b < 256) (replicate 12 0 ++ [8; 6; 0; 1])).
  { apply Forall_app. split; [apply Forall_replicate; lia|repeat constructor; lia]. }
  split; (split; [exact H|simpl; lia]).
Qed.

Lemma match_total_witness : exists r, match_ demo_program arp_packet = Some r.
Proof. apply match_total; [exact demo_fwd|intros _; vm_compute; reflexivity]. Defined.

Lemma fast_path_agrees_witness :
  let P' := finish_optimize (remove_unused_states demo_program) in
  exec (length (insns P')) (insns P') (fast_outcome (align_offset P') arp_packet) 0
  = length_checked_match P' arp_packet.
Proof.
  apply (fast_path_agrees demo_program arp_packet).
  - exact demo_fwd.
  - vm_compute. reflexivity.
  - vm_compute. split; congruence.
  - exact demo_ok.
  - exact demo_low.
  - vm_compute. congruence.
  - vm_compute. reflexivity.
  - vm_compute. reflexivity.
Defined.

Lemma match_reads_packet_witness :
  match_ (finish_optimize (remove_unused_states demo_program)) arp_packet
  = match_ (finish_optimize (remove_unused_states demo_program)) arp_packet'.
Proof.
  apply (match_reads_packet demo_program arp_packet arp_packet').
  - exact demo_fwd.
  - vm_compute. reflexivity.
  - vm_compute. split; congruence.
  - exact demo_ok.
  - exact demo_low.
  - vm_compute. reflexivity.
  - apply demo_pkt_ok.
  - apply demo_pkt_ok.
  - reflexivity.
Defined.

Lemma warn_unused_sound_witness : match_ demo_program arp_packet <> Some 2.
Proof.
  apply (warn_unused_sound demo_program 3 arp_packet 2).
  - exact demo_fwd.
  - intros _. vm_compute. reflexivity.
  - vm_compute. apply list_elem_of_here.
Defined.
