(* ===== verification/Segments.v ===== *)
(** * Subtrees of a program under construction

    While a program is built, a subtree is a contiguous segment of the
    instruction vector whose jumps go forward inside it or leave it by one of
    the parse-time exits [j_success] and [j_failure] (or an output).  This
    file shows what [redirect_subtree], [negate_subtree] and [finish_subtree]
    do to the exits of segments, and what [finish_subtree] does to the
    bookkeeping vector [tree]. *)

From S2P Require Import Prelude Packet Insn Program.

(** ** Runs inside a segment *)

(** From [pos], the instructions in [[a, b)] lead to the exit [x]. *)
Inductive Seg (l : list Insn) (o : Insn -> bool) (a b : Z) : Z -> Z -> Prop :=
| Seg_out pos x :
    a <= pos < b -> jmp (vget l pos) (o (vget l pos)) = x -> x <= 0 \/ b <= x -> Seg l o a b pos x
| Seg_step pos y x :
    a <= pos < b -> jmp (vget l pos) (o (vget l pos)) = y -> pos < y < b -> 0 < y ->
    Seg l o a b y x -> Seg l o a b pos x.

Section segments.
Context (o : Insn -> bool).
Implicit Types (l : list Insn).

Lemma Seg_frame l l' a b pos x :
  (forall i, a <= i < b -> vget l' i = vget l i) -> Seg l o a b pos x -> Seg l' o a b pos x.
Proof.
  intros Hl. induction 1 as [pos x Hp Hj Hx|pos y x Hp Hj Hy Hy0 H IH].
  - apply Seg_out; rewrite ?Hl; done.
  - eapply Seg_step; rewrite ?Hl; done.
Qed.

Lemma Seg_widen l a b a' b' pos x :
  a' <= a -> b <= b' -> x <= 0 \/ b' <= x -> Seg l o a b pos x -> Seg l o a' b' pos x.
Proof.
  intros Ha Hb Hx. induction 1 as [pos x Hp Hj Hx'|pos y x Hp Hj Hy Hy0 H IH].
  - apply Seg_out; [lia|done|done].
  - eapply Seg_step; [lia|done|lia|done|auto].
Qed.

(** A segment that leaves at the start of the next one. *)
Lemma Seg_chain l a b c pos x :
  0 < b < c -> Seg l o a b pos b -> Seg l o b c b x -> a <= b -> Seg l o a c pos x.
Proof.
  intros Hbc H1 H2 Hab. remember b as y eqn:Ey in H1 at 2.
  assert (Hx : x <= 0 \/ c <= x) by (clear -H2; by induction H2).
  induction H1 as [pos y Hp Hj Hy|pos z y Hp Hj Hz Hz0 H IH].
  - subst y. eapply Seg_step; [lia|done|lia|lia|]. apply (Seg_widen l b c); [done|lia|done|done].
  - eapply Seg_step; [lia|done|lia|done|]. auto.
Qed.

Lemma Seg_Runs l pos x :
  0 <= pos -> x <= 0 -> Seg l o 0 (vlen l) pos x -> Runs l o pos (- x).
Proof.
  intros Hp Hx. induction 1 as [pos x Hp' Hj Hx'|pos y x Hp' Hj Hy Hy0 H IH].
  - apply Runs_out; [lia|lia|lia].
  - eapply Runs_step; [lia|done|done|]. apply IH; lia.
Qed.

(** Instructions changed one by one, each keeping its test. *)
Lemma Seg_map l l' a b pos x (g : Z -> Z) :
  test_outcome o ->
  (forall i, a <= i < b -> same_test (vget l' i) (vget l i)) ->
  (forall i k, a <= i < b -> jmp (vget l' i) k = g (jmp (vget l i) k)) ->
  (forall j, 0 < j -> g j = j) ->
  x <= 0 -> g x <= 0 \/ b <= g x ->
  Seg l o a b pos x -> Seg l' o a b pos (g x).
Proof.
  intros Ho Ht Hj Hg Hx Hgx. induction 1 as [pos x Hp Hjx Hx'|pos y x Hp Hjx Hy Hy0 H IH].
  - apply Seg_out; [done| |done]. rewrite Hj by done. by rewrite (Ho _ _ (Ht pos Hp)), Hjx.
  - eapply Seg_step; [done| |done|done|auto]. rewrite Hj by done.
    rewrite (Ho _ _ (Ht pos Hp)), Hjx. by apply Hg.
Qed.
End segments.

(** ** Changing a range of instructions *)

Lemma redirect_jump_pos s f j : 0 < j -> redirect_jump s f j = j.
Proof.
  intros H. unfold redirect_jump, j_success, j_failure.
  destruct (Z.eqb_spec j (-2147483645)); [lia|]. by destruct (Z.eqb_spec j (-2147483646)); [lia|].
Qed.

Lemma redirect_spec a b s f l :
  0 <= a <= b -> b <= vlen l ->
  vlen (redirect_subtree a b s f l) = vlen l
  /\ forall i, 0 <= i -> vget (redirect_subtree a b s f l) i
       = if decide (a <= i < b) then redirect_insn s f (vget l i) else vget l i.
Proof. apply vget_for_map. Qed.

Lemma Seg_redirect o a b s f l pos x :
  test_outcome o -> 0 <= a <= b -> b <= vlen l -> x <= 0 ->
  redirect_jump s f x <= 0 \/ b <= redirect_jump s f x ->
  Seg l o a b pos x -> Seg (redirect_subtree a b s f l) o a b pos (redirect_jump s f x).
Proof.
  intros Ho Ha Hb Hx Hr H. destruct (redirect_spec a b s f l Ha Hb) as [_ Hg].
  eapply Seg_map; [done| | | |done|done|exact H].
  - intros i Hi. rewrite Hg by lia. case_decide; [done|lia].
  - intros i k Hi. rewrite Hg by lia. case_decide; [by destruct k|lia].
  - intros j Hj. by apply redirect_jump_pos.
Qed.

(** The jumps of a segment go forward inside it, or leave to an output. *)
Definition seg_fwd (l : list Insn) (a b : Z) : Prop :=
  forall i k, a <= i < b -> jmp (vget l i) k <= 0 \/ i < jmp (vget l i) k < b.

Lemma seg_fwd_frame l l' a b :
  (forall i, a <= i < b -> vget l' i = vget l i) -> seg_fwd l a b -> seg_fwd l' a b.
Proof. intros Hl H i k Hi. rewrite Hl by done. by apply H. Qed.

Lemma redirect_fwd l a b c s f :
  0 <= a <= b -> b <= vlen l -> b <= c -> (s <= 0 \/ b <= s < c) -> (f <= 0 \/ b <= f < c) ->
  seg_fwd l a b ->
  forall i k, a <= i < b -> jmp (vget (redirect_subtree a b s f l) i) k <= 0
                            \/ i < jmp (vget (redirect_subtree a b s f l) i) k < c.
Proof.
  intros Ha Hb Hc Hs Hf H i k Hi. destruct (redirect_spec a b s f l Ha Hb) as [_ Hg].
  rewrite Hg by lia. case_decide; [|lia].
  assert (Hj : jmp (redirect_insn s f (vget l i)) k = redirect_jump s f (jmp (vget l i) k)) by (by destruct k).
  rewrite Hj. specialize (H i k Hi). unfold redirect_jump. repeat case_match; bprop; lia.
Qed.

(** ** Combining segments *)

(** The segments that start at [starts] and end at [n] leave by the exits [xs]. *)
Fixpoint blocks (l : list Insn) (o : Insn -> bool) (starts : list Z) (n : Z) (xs : list Z) : Prop :=
  match starts, xs with
  | [s], [x] => s < n /\ x <= 0 /\ seg_fwd l s n /\ Seg l o s n s x
  | s :: ((s' :: _) as tl), x :: xs' =>
      s < s' /\ x <= 0 /\ seg_fwd l s s' /\ Seg l o s s' s x /\ blocks l o tl n xs'
  | _, _ => False
  end.

(** The exit of a conjunction and of a disjunction of segments. *)
Fixpoint and_exit (success failure : Z) (xs : list Z) : Z :=
  match xs with
  | [] => success
  | [x] => redirect_jump success failure x
  | x :: xs' => if x =? j_success then and_exit success failure xs'
                else redirect_jump success failure x
  end.

Fixpoint or_exit (success failure : Z) (xs : list Z) : Z :=
  match xs with
  | [] => failure
  | [x] => redirect_jump success failure x
  | x :: xs' => if x =? j_failure then or_exit success failure xs'
                else redirect_jump success failure x
  end.

Lemma blocks_start_lt l o s starts n xs : blocks l o (s :: starts) n xs -> s < n.
Proof.
  revert s xs. induction starts as [|s' starts IH]; intros s [|x xs]; simpl; try done.
  - destruct xs; [tauto|done].
  - intros (Hs & _ & _ & _ & Hb). specialize (IH s' xs Hb). lia.
Qed.

Lemma blocks_frame l l' o starts n xs :
  (forall i, hd 0 starts <= i < n -> vget l' i = vget l i) ->
  blocks l o starts n xs -> blocks l' o starts n xs.
Proof.
  revert xs. induction starts as [|s [|s' starts] IH]; intros [|x xs] Hl; try done; simpl.
  - destruct xs; [|done]. intros (? & ? & ? & H). split; [done|]. split; [done|].
    split; [by eapply seg_fwd_frame|]. eapply Seg_frame; [|done]. exact Hl.
  - intros (Hs & Hx & Hw & H & Hb). simpl in Hl. pose proof (blocks_start_lt _ _ _ _ _ _ Hb).
    split; [done|]. split; [done|].
    split; [eapply seg_fwd_frame; [|done]; intros; apply Hl; lia|].
    split; [eapply Seg_frame; [|done]; intros; apply Hl; lia|].
    apply IH; [|done]. simpl. intros. apply Hl. lia.
Qed.

(** The result of combining: one segment, nothing changed before it. *)
Record combined (l l' : list Insn) (o : Insn -> bool) (s n x : Z) : Prop := {
  cb_len : vlen l' = vlen l;
  cb_frame : forall i, 0 <= i < s -> vget l' i = vget l i;
  cb_test : forall i, 0 <= i -> same_test (vget l' i) (vget l i)
              /\ padding (vget l' i) = padding (vget l i);
  cb_fwd : seg_fwd l' s n;
  cb_seg : Seg l' o s n s x
}.

Lemma redirect_test a b s f l i :
  0 <= a <= b -> b <= vlen l -> 0 <= i ->
  same_test (vget (redirect_subtree a b s f l) i) (vget l i)
  /\ padding (vget (redirect_subtree a b s f l) i) = padding (vget l i).
Proof.
  intros Ha Hb Hi. destruct (redirect_spec a b s f l Ha Hb) as [_ Hg].
  rewrite Hg by done. by case_decide.
Qed.

(** One step of the loop: the first segment is redirected to the start [s'] of
    the next where it should go on ([stay]), and to the exits otherwise. *)
Lemma combine_step l l2 o s s' n x sj fj y :
  test_outcome o -> 0 <= s < s' -> s' < n -> n <= vlen l -> x <= 0 ->
  (redirect_jump sj fj x = s' \/ redirect_jump sj fj x <= 0) ->
  (sj <= 0 \/ sj = s') -> (fj <= 0 \/ fj = s') -> seg_fwd l s s' -> Seg l o s s' s x ->
  combined (redirect_subtree s s' sj fj l) l2 o s' n y ->
  combined l l2 o s n (if redirect_jump sj fj x =? s' then y else redirect_jump sj fj x).
Proof.
  intros Ho Hs Hs' Hn Hx Hr Hsj Hfj Hw Hseg [Hl Hf Ht Hw2 Hy].
  destruct (redirect_spec s s' sj fj l ltac:(lia) ltac:(lia)) as [Hlen Hg].
  assert (Hseg1 : Seg l2 o s s' s (redirect_jump sj fj x)).
  { apply (Seg_frame _ (redirect_subtree s s' sj fj l)); [intros i Hi; apply Hf; lia|].
    apply Seg_redirect; [done|lia|lia|done| |done]. lia. }
  split.
  - congruence.
  - intros i Hi. rewrite Hf, Hg by lia. case_decide; [lia|done].
  - intros i Hi. destruct (Ht i Hi) as [Ht1 Ht2].
    destruct (redirect_test s s' sj fj l i) as [Hr1 Hr2]; [lia|lia|done|].
    split; [by etransitivity|congruence].
  - intros i k Hi. destruct (Z.ltb_spec i s'); [|apply Hw2; lia].
    rewrite Hf by lia. eapply redirect_fwd; [| | | | |exact Hw|]; lia.
  - destruct (Z.eqb_spec (redirect_jump sj fj x) s') as [He|He].
    + rewrite He in Hseg1. eapply Seg_chain; [|exact Hseg1|done|]; lia.
    + eapply Seg_widen; [| | |exact Hseg1]; lia.
Qed.

Lemma blocks_redirect o s s' starts sj fj l n xs :
  0 <= s < s' -> s' <= vlen l ->
  blocks l o (s' :: starts) n xs -> blocks (redirect_subtree s s' sj fj l) o (s' :: starts) n xs.
Proof.
  intros Hs Hs'. apply blocks_frame. intros i Hi. simpl in Hi.
  destruct (redirect_spec s s' sj fj l ltac:(lia) ltac:(lia)) as [_ Hg].
  rewrite Hg by lia. case_decide; [lia|done].
Qed.

Lemma combine_last l o s n x success failure :
  test_outcome o -> 0 <= s < n -> n <= vlen l -> x <= 0 ->
  success <= 0 -> failure <= 0 -> redirect_jump success failure x <= 0 ->
  seg_fwd l s n -> Seg l o s n s x ->
  combined l (redirect_subtree s n success failure l) o s n (redirect_jump success failure x).
Proof.
  intros Ho Hs Hn Hx Hsu Hfa Hr Hw H.
  destruct (redirect_spec s n success failure l ltac:(lia) Hn) as [Hl Hg].
  split; [done| | | |apply Seg_redirect; auto; lia].
  - intros i Hi. rewrite Hg by lia. case_decide; [lia|done].
  - intros i Hi. apply redirect_test; lia.
  - intros i k Hi. eapply redirect_fwd; [| | | | |exact Hw|]; lia.
Qed.

Lemma redirect_jump_le success failure x :
  success <= 0 -> failure <= 0 -> x <= 0 -> redirect_jump success failure x <= 0.
Proof. unfold redirect_jump. repeat case_match; done. Qed.

Lemma combine_and o success failure n starts s l xs :
  test_outcome o -> success <= 0 -> failure <= 0 -> 0 <= s -> n <= vlen l ->
  blocks l o (s :: starts) n xs ->
  combined l (combine_subtrees c_and success failure n (s :: starts) l) o s n
    (and_exit success failure xs).
Proof.
  intros Ho Hsu Hfa. revert s l xs. induction starts as [|s' starts IH]; intros s l xs Hs0 Hn Hb.
  - destruct xs as [|x [|? ?]]; simpl in Hb; try tauto. destruct Hb as (Hs & Hx & Hw & H).
    apply combine_last; auto using redirect_jump_le; lia.
  - destruct xs as [|x xs]; [done|]. cbn [blocks] in Hb. destruct Hb as (Hs & Hx & Hw & H & Hb).
    pose proof (blocks_start_lt _ _ _ _ _ _ Hb) as Hs'.
    assert (Hxs : xs <> []) by (intros ->; by destruct starts).
    assert (He : and_exit success failure (x :: xs)
      = if redirect_jump s' failure x =? s' then and_exit success failure xs
        else redirect_jump s' failure x).
    { destruct xs as [|x2 xs]; [done|]. cbn [and_exit]. unfold redirect_jump.
      destruct (Z.eqb_spec x j_success); [by rewrite Z.eqb_refl|].
      destruct (Z.eqb_spec x j_failure).
      - destruct (Z.eqb_spec failure s'); [lia|done].
      - destruct (Z.eqb_spec x s'); [lia|done]. }
    rewrite He. change (combine_subtrees c_and success failure n (s :: s' :: starts) l)
      with (combine_subtrees c_and success failure n (s' :: starts) (redirect_subtree s s' s' failure l)).
    destruct (redirect_spec s s' s' failure l ltac:(lia) ltac:(lia)) as [Hlen _].
    eapply combine_step; [done|lia|lia|lia|done| |lia|lia|exact Hw|exact H|].
    + unfold redirect_jump. repeat case_match; bprop; lia.
    + apply IH; [lia|lia|]. apply blocks_redirect; [lia|lia|done].
Qed.

Lemma combine_or o success failure n starts s l xs :
  test_outcome o -> success <= 0 -> failure <= 0 -> 0 <= s -> n <= vlen l ->
  blocks l o (s :: starts) n xs ->
  combined l (combine_subtrees c_or success failure n (s :: starts) l) o s n
    (or_exit success failure xs).
Proof.
  intros Ho Hsu Hfa. revert s l xs. induction starts as [|s' starts IH]; intros s l xs Hs0 Hn Hb.
  - destruct xs as [|x [|? ?]]; simpl in Hb; try tauto. destruct Hb as (Hs & Hx & Hw & H).
    apply combine_last; auto using redirect_jump_le; lia.
  - destruct xs as [|x xs]; [done|]. cbn [blocks] in Hb. destruct Hb as (Hs & Hx & Hw & H & Hb).
    pose proof (blocks_start_lt _ _ _ _ _ _ Hb) as Hs'.
    assert (Hxs : xs <> []) by (intros ->; by destruct starts).
    assert (He : or_exit success failure (x :: xs)
      = if redirect_jump success s' x =? s' then or_exit success failure xs
        else redirect_jump success s' x).
    { destruct xs as [|x2 xs]; [done|]. cbn [or_exit]. unfold redirect_jump.
      destruct (Z.eqb_spec x j_success) as [->|].
      - destruct (Z.eqb_spec success s'); [lia|done].
      - destruct (Z.eqb_spec x j_failure); [by rewrite Z.eqb_refl|].
        destruct (Z.eqb_spec x s'); [lia|done]. }
    rewrite He. change (combine_subtrees c_or success failure n (s :: s' :: starts) l)
      with (combine_subtrees c_or success failure n (s' :: starts) (redirect_subtree s s' success s' l)).
    destruct (redirect_spec s s' success s' l ltac:(lia) ltac:(lia)) as [Hlen _].
    eapply combine_step; [done|lia|lia|lia|done| |lia|lia|exact Hw|exact H|].
    + unfold redirect_jump. repeat case_match; bprop; lia.
    + apply IH; [lia|lia|]. apply blocks_redirect; [lia|lia|done].
Qed.

(** ** The bookkeeping vector *)

(** The marks of one finished subtree of [L], and of several in a row. *)
Definition blk (L : Z) (k : nat) : list Z := L :: replicate k (-1).
Definition marks (L : Z) (ks : list nat) : list Z := concat (map (blk L) ks).

Fixpoint block_starts (a : Z) (ks : list nat) : list Z :=
  match ks with [] => [] | k :: ks' => a :: block_starts (a + 1 + Z.of_nat k) ks' end.

(** The marks before the open subtree end with a subtree of a lower level. *)
Definition outer (L : Z) (M : list Z) : Prop :=
  M = [] \/ exists M1 x k, M = M1 ++ blk x k /\ 0 <= x < L.

(** The positions of the marks [L], counted from [base]. *)
Fixpoint find_marks (L base : Z) (M : list Z) : list Z :=
  match M with
  | [] => []
  | x :: M' => if x =? L then base :: find_marks L (base + 1) M' else find_marks L (base + 1) M'
  end.

Lemma find_marks_app L base A B :
  find_marks L base (A ++ B) = find_marks L base A ++ find_marks L (base + vlen A) B.
Proof.
  revert base. induction A as [|x A IH]; intros base; simpl.
  - by rewrite Z.add_0_r.
  - rewrite vlen_cons, IH. replace (base + 1 + vlen A) with (base + (vlen A + 1)) by lia.
    by case_match.
Qed.

Lemma find_marks_none L base k : 0 <= L -> find_marks L base (replicate k (-1)) = [].
Proof.
  intros HL. revert base. induction k as [|k IH]; intros base; [done|].
  cbn [replicate find_marks]. destruct (Z.eqb_spec (-1) L); [lia|]. apply IH.
Qed.

Lemma find_marks_blocks L base ks : 0 <= L -> find_marks L base (marks L ks) = block_starts base ks.
Proof.
  intros HL. revert base. induction ks as [|k ks IH]; intros base; [done|].
  unfold marks. cbn [map concat block_starts]. unfold blk at 1.
  rewrite find_marks_app. cbn [find_marks]. rewrite Z.eqb_refl, find_marks_none by done.
  cbn [app]. f_equal. rewrite vlen_cons, vlen_replicate.
  replace (base + (Z.of_nat k + 1)) with (base + 1 + Z.of_nat k) by lia. apply IH.
Qed.

Lemma filter_find_marks L h A M :
  map (fun q => q - 1) (filter (fun q => vget (h :: A ++ M) q = L) (seqZ (vlen A + 1) (vlen M)))
  = find_marks L (vlen A) M.
Proof.
  revert A. induction M as [|x M IH]; intros A; [done|].
  rewrite vlen_cons, seqZ_cons by (pose proof (vlen_nonneg M); lia).
  replace (Z.pred (vlen M + 1)) with (vlen M) by lia.
  pose proof (vlen_nonneg A).
  assert (Hx : vget (h :: A ++ x :: M) (vlen A + 1) = x).
  { rewrite vget_cons_S by lia. replace (vlen A + 1 - 1) with (vlen A) by lia.
    rewrite vget_app_r by lia. by rewrite Z.sub_diag. }
  specialize (IH (A ++ [x])). rewrite <- app_assoc in IH. simpl in IH.
  rewrite vlen_app in IH. change (vlen [x]) with 1 in IH.
  replace (Z.succ (vlen A + 1)) with (vlen A + 1 + 1) by lia.
  cbn [find_marks]. rewrite filter_cons, Hx. case_decide as Hd; destruct (Z.eqb_spec x L); try done.
  - cbn [map]. f_equal; [lia|done].
Qed.

Lemma parent_ptr_spec tree L (p n : nat) :
  (p <= n)%nat ->
  (forall j, (p < j <= n)%nat -> vget tree (Z.of_nat j) < 0 \/ L <= vget tree (Z.of_nat j)) ->
  p = 0%nat \/ 0 <= vget tree (Z.of_nat p) < L ->
  parent_ptr tree L n = p.
Proof.
  induction n as [|n IH]; intros Hp Hj Hz; [by assert (p = 0%nat) as -> by lia|].
  cbn [parent_ptr]. destruct (decide (p = S n)) as [->|Hne].
  - destruct Hz as [?|Hz]; [done|].
    destruct (Z.ltb_spec (vget tree (Z.of_nat (S n))) 0); [lia|].
    by destruct (Z.leb_spec L (vget tree (Z.of_nat (S n)))); [lia|].
  - specialize (Hj (S n) ltac:(lia)) as Hjn.
    assert ((vget tree (Z.of_nat (S n)) <? 0) || (L <=? vget tree (Z.of_nat (S n))) = true) as ->.
    { apply orb_true_iff. rewrite Z.ltb_lt, Z.leb_le. done. }
    apply IH; [lia|intros; apply Hj; lia|done].
Qed.

Lemma marks_vals L ks x : x ∈ marks L ks -> x < 0 \/ L <= x.
Proof.
  unfold marks. rewrite list_elem_of_In, in_concat. intros (b & Hb & Hx).
  apply in_map_iff in Hb as (k & <- & _). apply list_elem_of_In in Hx. unfold blk in Hx.
  apply elem_of_cons in Hx as [-> | Hx]; [lia|]. apply elem_of_replicate in Hx as [-> _]. lia.
Qed.

Lemma child_subtrees_spec L h M0 ks :
  0 <= L -> outer L M0 ->
  child_subtrees (h :: M0 ++ marks L ks) L (vlen (M0 ++ marks L ks)) = block_starts (vlen M0) ks.
Proof.
  intros HL Hout. unfold child_subtrees.
  assert (Hv : forall A R, (forall x, x ∈ R -> x < 0 \/ L <= x) ->
    forall j, (length A < j <= length (A ++ R))%nat ->
    vget (h :: A ++ R) (Z.of_nat j) < 0 \/ L <= vget (h :: A ++ R) (Z.of_nat j)).
  { intros A R HR j Hj. rewrite length_app in Hj. apply HR.
    rewrite vget_cons_S, vget_app_r by (unfold vlen; lia).
    apply list_elem_of_lookup_2 with (i := Z.to_nat (Z.of_nat j - 1 - vlen A)).
    apply vget_some. unfold vlen. lia. }
  destruct Hout as [-> | (M1 & x & k & -> & Hx)].
  - cbn [app]. rewrite (parent_ptr_spec _ L 0); [|lia| |by left].
    2:{ intros j Hj. apply (Hv [] (marks L ks)); [intros; by eapply marks_vals|].
        simpl. unfold vlen in Hj. lia. }
    rewrite Z.sub_0_r. etransitivity; [apply (filter_find_marks L h [] (marks L ks))|].
    by apply find_marks_blocks.
  - assert (Hs : (M1 ++ blk x k) ++ marks L ks = (M1 ++ [x]) ++ (replicate k (-1) ++ marks L ks))
      by (unfold blk; by rewrite <- !app_assoc).
    rewrite Hs. rewrite (parent_ptr_spec _ L (S (length M1))).
    + replace (Z.of_nat (S (length M1))) with (vlen (M1 ++ [x])) by (rewrite vlen_app; unfold vlen; simpl; lia).
      rewrite (vlen_app (M1 ++ [x])), Z.add_simpl_l, filter_find_marks, find_marks_app, find_marks_none by done.
      rewrite vlen_replicate, find_marks_blocks by done. f_equal. unfold blk.
      rewrite !vlen_app, !vlen_cons, vlen_replicate. change (vlen (@nil Z)) with 0. cbn [app]. f_equal. lia.
    + unfold vlen. rewrite Nat2Z.id, !length_app. simpl. lia.
    + intros j Hj. apply (Hv (M1 ++ [x])).
      * intros y Hy. apply elem_of_app in Hy as [Hy|Hy]; [|by eapply marks_vals].
        apply elem_of_replicate in Hy as [-> _]. lia.
      * rewrite length_app in *. unfold vlen in Hj. simpl. rewrite !length_app in *. simpl in *. lia.
    + right. rewrite vget_cons_S by lia. replace (Z.of_nat (S (length M1)) - 1) with (vlen M1) by (unfold vlen; lia).
      rewrite <- app_assoc, vget_app_r by lia. by rewrite Z.sub_diag.
Qed.

Lemma marks_cons L k ks : marks L (k :: ks) = L :: replicate k (-1) ++ marks L ks.
Proof. done. Qed.

Lemma marks_app L ks ks' : marks L (ks ++ ks') = marks L ks ++ marks L ks'.
Proof. unfold marks. by rewrite map_app, concat_app. Qed.

Lemma marks_one L k : marks L [k] = blk L k.
Proof. unfold marks. simpl. by rewrite app_nil_r. Qed.

(** What [finish_subtree] does to the vectors: the subtrees of level [L] become
    one subtree of the level below. *)
Lemma finish_shape P L M0 ks op success failure :
  0 <= L -> outer L M0 -> ks <> [] -> ninsn P = vlen (M0 ++ marks L ks) ->
  finish_subtree P (L :: M0 ++ marks L ks) op success failure
  = (with_insns P (combine_subtrees op success failure (ninsn P)
                     (block_starts (vlen M0) ks) (insns P)),
     (L - 1) :: M0 ++ blk (L - 1) (pred (length (marks L ks)))).
Proof.
  intros HL Hout Hks Hn. unfold finish_subtree. rewrite vget_cons_0, Hn.
  rewrite child_subtrees_spec by done. destruct ks as [|k ks]; [done|].
  cbn [block_starts]. f_equal. set (R := marks L (k :: ks)) in *.
  assert (HR : R = L :: replicate k (-1) ++ marks L ks) by done.
  assert (HRl : 0 < vlen R) by (rewrite HR, vlen_cons; pose proof (vlen_nonneg (replicate k (-1) ++ marks L ks)); lia).
  pose proof (vlen_nonneg M0).
  set (t0 := vset (L :: M0 ++ R) (vlen M0 + 1) (L - 1)).
  assert (Ht0 : vlen t0 = vlen M0 + vlen R + 1) by (unfold t0; by rewrite vlen_vset, vlen_cons, vlen_app).
  rewrite vlen_app. destruct (vget_for_map (fun _ => -1) (vlen M0 + 2) (vlen M0 + vlen R + 1) t0) as [Hl Hg];
    [lia|lia|].
  apply vec_eq.
  { rewrite vlen_vset, Hl, Ht0, vlen_cons, vlen_app. unfold blk.
    rewrite vlen_cons, vlen_replicate. unfold vlen in *. lia. }
  rewrite vlen_vset, Hl, Ht0. intros i Hi. rewrite vget_vset by lia. case_decide as Hi0.
  { destruct Hi0 as [<- _]. done. }
  rewrite Hl, Ht0 in Hi0. rewrite Hg by lia. rewrite vget_cons_S by lia.
  unfold t0. rewrite vget_vset by lia. rewrite vlen_cons, vlen_app. unfold blk.
  destruct (Z.ltb_spec (i - 1) (vlen M0)) as [Hlt|Hge].
  - case_decide; [lia|]. case_decide; [lia|]. rewrite vget_cons_S by lia.
    by rewrite !vget_app_l by lia.
  - rewrite (vget_app_r M0 (_ :: _)) by lia. case_decide.
    + rewrite vget_cons_S by lia. rewrite vget_replicate; [done|]. unfold vlen in *. lia.
    + assert (i = vlen M0 + 1) as -> by lia. case_decide; [|lia].
      by replace (vlen M0 + 1 - 1 - vlen M0) with 0 by lia.
Qed.

(** ** Negation *)

Lemma last_subtree_spec tree L (q n : nat) :
  (0 < q <= n)%nat -> vget tree (Z.of_nat q) = L ->
  (forall j, (q < j <= n)%nat -> vget tree (Z.of_nat j) <> L) ->
  last_subtree tree L n = Some (Z.of_nat q - 1).
Proof.
  induction n as [|n IH]; intros Hq HL Hj; [lia|]. cbn [last_subtree].
  destruct (decide (q = S n)) as [->|Hne].
  - rewrite HL, Z.eqb_refl. f_equal. lia.
  - specialize (Hj (S n) ltac:(lia)) as Hjn.
    destruct (Z.eqb_spec (vget tree (Z.of_nat (S n))) L); [done|].
    apply IH; [lia|done|intros; apply Hj; lia].
Qed.

Lemma negate_shape P L M0 k flip :
  0 <= L -> ninsn P = vlen (M0 ++ blk L k) ->
  negate_subtree P (L :: M0 ++ blk L k) flip
  = with_insns P (for_up (vlen M0) (ninsn P)
      (fun i l => vset l i (negate_insn flip (vget l i))) (insns P)).
Proof.
  intros HL Hn. unfold negate_subtree. rewrite vget_cons_0, Hn.
  rewrite (last_subtree_spec _ L (S (length M0))).
  - replace (Z.of_nat (S (length M0)) - 1) with (vlen M0) by (unfold vlen; lia). done.
  - unfold vlen. rewrite Nat2Z.id, length_app. simpl. lia.
  - rewrite vget_cons_S by lia. replace (Z.of_nat (S (length M0)) - 1) with (vlen M0) by (unfold vlen; lia).
    rewrite vget_app_r by lia. by rewrite Z.sub_diag.
  - intros j Hj. unfold vlen in Hj. rewrite Nat2Z.id, length_app in Hj. simpl in Hj.
    rewrite length_replicate in Hj. rewrite vget_cons_S, vget_app_r by (unfold vlen; lia).
    unfold blk. rewrite vget_cons_S, vget_replicate by (unfold vlen; lia). lia.
Qed.

Lemma negate_jump_le x : x <= 0 -> negate_jump x <= 0.
Proof. intros. unfold negate_jump, j_success, j_failure. repeat case_match; lia. Qed.

Lemma Seg_negate o a l x :
  test_outcome o -> 0 <= a <= vlen l -> x <= 0 -> seg_fwd l a (vlen l) -> Seg l o a (vlen l) a x ->
  combined l (for_up a (vlen l) (fun i l => vset l i (negate_insn false (vget l i))) l) o a
    (vlen l) (negate_jump x).
Proof.
  intros Ho Ha Hx Hw H.
  destruct (vget_for_map (negate_insn false) a (vlen l) l Ha) as [Hl Hg]; [lia|].
  assert (Hneg : forall j, 0 < j -> negate_jump j = j).
  { intros j Hj. unfold negate_jump, j_failure, j_success.
    destruct (Z.eqb_spec j (-2147483646)); [lia|]. by destruct (Z.eqb_spec j (-2147483645)); [lia|]. }
  assert (Hjmp : forall e k, jmp (negate_insn false e) k = negate_jump (jmp e k)) by (by intros ? []).
  split; [done| | | |].
  - intros i Hi. rewrite Hg by lia. case_decide; [lia|done].
  - intros i Hi. rewrite Hg by lia. by case_decide.
  - intros i k Hi. rewrite Hg by lia. case_decide; [|lia]. rewrite Hjmp.
    destruct (Hw i k Hi) as [Hle|Hlt]; [left; by apply negate_jump_le|right].
    rewrite Hneg by lia. lia.
  - eapply Seg_map; [done| | |exact Hneg|done| |exact H].
    + intros i Hi. rewrite Hg by lia. case_decide; [done|lia].
    + intros i k Hi. rewrite Hg by lia. case_decide; [apply Hjmp|lia].
    + left. by apply negate_jump_le.
Qed.

(** ** Growing a row of segments *)

Lemma block_starts_snoc L a ks k :
  block_starts a (ks ++ [k]) = block_starts a ks ++ [a + vlen (marks L ks)].
Proof.
  revert a. induction ks as [|k0 ks IH]; intros a; simpl.
  - by rewrite Z.add_0_r.
  - rewrite IH, marks_cons, vlen_cons, vlen_app, vlen_replicate. do 3 f_equal. lia.
Qed.

Lemma blocks_snoc l o starts n n' xs x :
  blocks l o starts n xs -> n < n' -> x <= 0 -> seg_fwd l n n' -> Seg l o n n' n x ->
  blocks l o (starts ++ [n]) n' (xs ++ [x]).
Proof.
  revert xs. induction starts as [|s [|s' starts] IH]; intros [|y xs] Hb Hn Hx Hw H; try done.
  - destruct xs; [|done]. simpl in *. naive_solver.
  - cbn [blocks] in Hb. destruct Hb as (? & ? & ? & ? & Hb). cbn [app blocks].
    repeat (split; [done|]). by apply IH.
Qed.

(** A row of subtrees of level [L] from [a] on, possibly empty. *)
Definition row (l : list Insn) (o : Insn -> bool) (a : Z) (ks : list nat) (n : Z) (xs : list Z) : Prop :=
  (ks = [] /\ xs = [] /\ n = a) \/ (ks <> [] /\ blocks l o (block_starts a ks) n xs).

Lemma row_snoc L l o a ks k n n' xs x :
  row l o a ks n xs -> n = a + vlen (marks L ks) ->
  n < n' -> x <= 0 -> seg_fwd l n n' -> Seg l o n n' n x ->
  row l o a (ks ++ [k]) n' (xs ++ [x]).
Proof.
  intros Hr Hn Hn' Hx Hw H. right. split; [by destruct ks|].
  rewrite (block_starts_snoc L), <- Hn.
  destruct Hr as [(-> & -> & ->)|[_ Hb]]; [simpl; auto|by apply blocks_snoc].
Qed.

Lemma hd_block_starts a ks : ks <> [] -> hd 0 (block_starts a ks) = a.
Proof. by destruct ks. Qed.

Lemma row_frame l l' o a ks n xs :
  (forall i, a <= i < n -> vget l' i = vget l i) -> row l o a ks n xs -> row l' o a ks n xs.
Proof.
  intros Hl [H|[Hks Hb]]; [by left|right]. split; [done|].
  eapply blocks_frame; [|done]. by rewrite hd_block_starts.
Qed.

Lemma outer_marks L L' A ks : outer L A -> 0 <= L' < L -> outer L (A ++ marks L' ks).
Proof.
  intros HA HL. destruct ks as [|k ks _] using rev_ind; [by rewrite app_nil_r|].
  right. exists (A ++ marks L' ks), L', k. rewrite marks_app, app_assoc. split; [|done].
  unfold marks at 2. simpl. by rewrite app_nil_r.
Qed.

Lemma outer_mono L L' M : outer L M -> L <= L' -> outer L' M.
Proof. intros [-> | (M1 & x & k & -> & Hx)] HL; [by left|right]. exists M1, x, k. split; [done|lia]. Qed.

(** ** Exits of boolean subtrees *)

Definition exit_of (r : bool) : Z := if r then j_success else j_failure.

Lemma exit_of_le r : exit_of r <= 0.
Proof. by destruct r. Qed.

Lemma and_exit_bools success failure rs :
  rs <> [] ->
  and_exit success failure (map exit_of rs) = if forallb id rs then success else failure.
Proof.
  induction rs as [|r [|r' rs] IH]; intros Hne; [done|by destruct r|].
  cbn [map and_exit forallb]. cbn [map] in IH. destruct r; [|done].
  change (exit_of true =? j_success) with true. cbn [id andb]. by apply IH.
Qed.

Lemma negate_exit r : negate_jump (exit_of r) = exit_of (negb r).
Proof. by destruct r. Qed.
