(* ===== verification/ClassifierParse.v ===== *)
(** * Parsing classifier patterns

    [Classifier::parse_program], [configure] and [empty_program] of
    src/classifier.cc (the same code as in
    elements/standard/classifier.cc of Click, whose [push] runs the program).

    A configuration string is a list of character codes.  The loops over a
    string move an index forward; one unit of fuel per character is enough
    ([parse_slot_total]).  The only reads at or after the end of a string,
    where [vget] gives 0, follow a reported error. *)

From S2P Require Import Prelude Packet Insn Program BubbleSort Dominator Combine RemoveUnused Optimize.

(** ** Characters *)

Definition isspace (c : Z) : bool := (c =? 32) || ((9 <=? c) && (c <=? 13)).
Definition isdigit (c : Z) : bool := (48 <=? c) && (c <=? 57).
Definition isxdigit (c : Z) : bool :=
  isdigit c || ((65 <=? c) && (c <=? 70)) || ((97 <=? c) && (c <=? 102)).
Definition isvalue (c : Z) : bool := isxdigit c || (c =? 63).

Definition update_value_mask (c shift : Z) (vm : Z * Z) : Z * Z :=
  let '(v, m) :=
    if c =? 63 then (0, 0)
    else if (48 <=? c) && (c <=? 57) then (c - 48, 15)
    else if (65 <=? c) && (c <=? 70) then (c - 65 + 10, 15)
    else if (97 <=? c) && (c <=? 102) then (c - 97 + 10, 15)
    else (0, 15) in
  (vm.1 .| (v .<< shift), vm.2 .| (m .<< shift)).

(** ** Errors *)

Inductive parse_error :=
| expected_digit (slot : Z)
| expected_slash (slot : Z)
| value_too_short (slot : Z)
| value_odd (slot : Z)
| mask_too_many (slot : Z)
| mask_too_few (slot : Z).

(** ** Scanning *)

(** [while (i < len && test(s[i])) i++] *)
Fixpoint scan (fuel : nat) (test : Z -> bool) (s : list Z) (i : Z) : Z :=
  match fuel with
  | O => i
  | S fuel' => if (i <? vlen s) && test (vget s i) then scan fuel' test s (i + 1) else i
  end.

(** The offset is accumulated in an [int]. *)
Fixpoint scan_offset (fuel : nat) (s : list Z) (i offset : Z) : Z * Z :=
  match fuel with
  | O => (i, offset)
  | S fuel' =>
      if (i <? vlen s) && isdigit (vget s i)
      then scan_offset fuel' s (i + 1) (i32 (offset * 10 + (vget s i - 48)))
      else (i, offset)
  end.

(** The value and mask ranges [value_pos, value_end) and [mask_pos, mask_end). *)
Record ranges := mkRanges { value_pos : Z; value_end : Z; mask_pos : Z; mask_end : Z }.

Definition scan_value (s : list Z) (i : Z) : ranges * Z :=
  let value_end := scan (length s) isvalue s i in
  if (value_end <? vlen s) && (vget s value_end =? 37) then
    let mask_pos := value_end + 1 in
    let mask_end := scan (length s) isvalue s mask_pos in
    (mkRanges i value_end mask_pos mask_end, mask_end)
  else (mkRanges i value_end (-1) (-1), value_end).

Definition check_short (slot : Z) (r : ranges) : ranges * list parse_error :=
  if value_end r - value_pos r <? 2
  then (mkRanges (value_pos r) (value_pos r) (mask_pos r) (mask_pos r), [value_too_short slot])
  else (r, []).

Definition check_odd (slot : Z) (r : ranges) : ranges * list parse_error :=
  if negb (Z.rem (value_end r - value_pos r) 2 =? 0)
  then (mkRanges (value_pos r) (value_end r - 1) (mask_pos r) (mask_end r - 1), [value_odd slot])
  else (r, []).

Definition check_mask (slot : Z) (r : ranges) : ranges * list parse_error :=
  if (0 <=? mask_pos r) && negb (mask_end r - mask_pos r =? value_end r - value_pos r) then
    if value_end r - value_pos r <? mask_end r - mask_pos r
    then (mkRanges (value_pos r) (value_end r) (mask_pos r)
            (mask_pos r + value_end r - value_pos r), [mask_too_many slot])
    else (mkRanges (value_pos r) (value_pos r + mask_end r - mask_pos r) (mask_pos r)
            (mask_end r), [mask_too_few slot])
  else (r, []).

Definition check_lengths (slot : Z) (r : ranges) : ranges * list parse_error :=
  let '(r, e1) := check_short slot r in
  let '(r, e2) := check_odd slot r in
  let '(r, e3) := check_mask slot r in
  (r, e1 ++ e2 ++ e3).

(** ** Adding the instructions of a clause *)

(** The byte at [value_pos] under its mask. *)
Definition read_byte (s : list Z) (value_pos mask_pos : Z) : Z * Z :=
  let '(v, m) := update_value_mask (vget s (value_pos + 1)) 0
                   (update_value_mask (vget s value_pos) 4 (0, 0)) in
  if 0 <=? mask_pos then
    let '(mv, mm) := update_value_mask (vget s (mask_pos + 1)) 0
                       (update_value_mask (vget s mask_pos) 4 (0, 0)) in
    (v, m .& mv .& mm)
  else (v, m).

(** [prog.back().mask.c[k] = m; prog.back().value.c[k] = v & m] *)
Definition set_back (P : Program) (k v m : Z) : Program :=
  let e := vback (insns P) in
  with_insns P
    (vset (insns P) (ninsn P - 1)
       (mkInsn (offset e) (padding e) (short_output e) (put_byte (mask e) k m)
               (put_byte (value e) k (v .& m)) (j_no e) (j_yes e))).

Definition add_byte (off v m : Z) (first : bool) (P : Program) (tree : list Z)
    : Program * list Z :=
  let '(P, tree) :=
    if first || (Z.rem off 4 =? 0) then add_insn P tree (Z.quot off 4 * 4) 0 0
    else (P, tree) in
  (set_back P (Z.rem off 4) v m, tree).

(** [while (value_pos < value_end)]; [empty] is cleared with [first]. *)
Fixpoint add_bytes (fuel : nat) (s : list Z) (value_pos value_end mask_pos off : Z)
    (first empty : bool) (P : Program) (tree : list Z) : Program * list Z * bool :=
  match fuel with
  | O => (P, tree, empty)
  | S fuel' =>
      if value_pos <? value_end then
        let '(v, m) := read_byte s value_pos mask_pos in
        let '(P, tree) := add_byte off v m first P tree in
        add_bytes fuel' s (value_pos + 2) value_end
          (if 0 <=? mask_pos then mask_pos + 2 else mask_pos) (off + 1) false false P tree
      else (P, tree, empty)
  end.

(** ** A slot *)

Record slot_state := mkSlot {
  ss_pos : Z;                       (** [i] *)
  ss_prog : Program;
  ss_tree : list Z;
  ss_empty : bool;
  ss_errors : list parse_error
}.

Definition slot_error (st : slot_state) (i : Z) (e : parse_error) : slot_state :=
  mkSlot i (ss_prog st) (ss_tree st) (ss_empty st) (ss_errors st ++ [e]).

(** The body of [while (i < len)]; [inl] is [break], [inr] goes on. *)
Definition parse_clause (slot : Z) (s : list Z) (st : slot_state) : slot_state + slot_state :=
  let len := vlen s in
  let i := scan (length s) isspace s (ss_pos st) in
  if len <=? i then inl (mkSlot i (ss_prog st) (ss_tree st) (ss_empty st) (ss_errors st))
  else
    let negated := vget s i =? 33 in
    let i := if negated then scan (length s) isspace s (i + 1) else i in
    if (len <=? i) || negb (isdigit (vget s i)) then inl (slot_error st i (expected_digit slot))
    else
      let '(i, off) := scan_offset (length s) s i 0 in
      if (len <=? i) || negb (vget s i =? 47) then inl (slot_error st i (expected_slash slot))
      else
        let '(r, i) := scan_value s (i + 1) in
        let '(r, errs) := check_lengths slot r in
        let tree := start_subtree (ss_tree st) in
        let off := i32 (off + align_offset (ss_prog st)) in
        let '(P, tree, empty) :=
          add_bytes (length s) s (value_pos r) (value_end r) (mask_pos r) off true
            (ss_empty st) (ss_prog st) tree in
        let '(P, tree) := finish_subtree P tree c_and j_success j_failure in
        let P := if negated then negate_subtree P tree false else P in
        inr (mkSlot i P tree empty (ss_errors st ++ errs)).

Fixpoint parse_clauses (fuel : nat) (slot : Z) (s : list Z) (st : slot_state)
    : option slot_state :=
  match fuel with
  | O => None
  | S fuel' =>
      if ss_pos st <? vlen s then
        match parse_clause slot s st with
        | inl st => Some st
        | inr st => parse_clauses fuel' slot s st
        end
      else Some st
  end.

Definition parse_slot (slot : Z) (s : list Z) (P : Program) (tree : list Z)
    (errs : list parse_error) : option (Program * list Z * list parse_error) :=
  let tree := start_subtree tree in
  let i := if (vget s 0 =? 45) && (vlen s =? 1) then 1 else 0 in
  match parse_clauses (S (length s)) slot s (mkSlot i P tree true errs) with
  | None => None
  | Some st =>
      let '(P, tree) := if ss_empty st then add_insn (ss_prog st) (ss_tree st) 0 0 0
                        else (ss_prog st, ss_tree st) in
      let '(P, tree) := finish_subtree P tree c_and (- slot) j_failure in
      Some (P, tree, ss_errors st)
  end.

Fixpoint parse_slots (slot : Z) (conf : list (list Z)) (P : Program) (tree : list Z)
    (errs : list parse_error) : option (Program * list Z * list parse_error) :=
  match conf with
  | [] => Some (P, tree, errs)
  | s :: rest =>
      match parse_slot slot s P tree errs with
      | None => None
      | Some (P, tree, errs) => parse_slots (slot + 1) rest P tree errs
      end
  end.

(** ** The whole program *)

(** [parse_program] up to the call of [optimize]. *)
Definition parse_patterns (P : Program) (conf : list (list Z))
    : option (Program * list parse_error) :=
  match parse_slots 0 conf P (start_subtree (init_subtree P)) [] with
  | None => None
  | Some (P, tree, errs) => Some ((finish_subtree P tree c_or j_never j_never).1, errs)
  end.

Definition parse_program (P : Program) (conf : list (list Z))
    : option (Program * list parse_error) :=
  match parse_patterns P conf with
  | None => None
  | Some (P, errs) =>
      match optimize [] offset_max P with
      | None => None
      | Some P => Some (P, errs)
      end
  end.

(** [AlignmentInfo::query] is another element; its answer is the argument. *)
Definition empty_program (align : option (Z * Z)) : Program :=
  new_program
    match align with
    | Some (c, o) => if 4 <=? c then Z.rem (4 - Z.rem o 4) 4 else 0
    | None => 0
    end.

Inductive configure_result :=
| wrong_arguments
| parse_errors (errs : list parse_error)
| configured (prog : Program) (unused : list Z).

Definition configure (noutputs : Z) (align : option (Z * Z)) (conf : list (list Z))
    : option configure_result :=
  if negb (vlen conf =? noutputs) then Some wrong_arguments
  else
    match parse_program (empty_program align) conf with
    | None => None
    | Some (prog, []) => Some (configured prog (warn_unused_outputs prog noutputs))
    | Some (_, errs) => Some (parse_errors errs)
    end.

(** ** Termination *)

Lemma scan_ge fuel test s i : i <= scan fuel test s i.
Proof. revert i. induction fuel as [|fuel IH]; intros i; simpl; [lia|]. case_match; [|lia]. specialize (IH (i + 1)). lia. Qed.

Lemma scan_offset_ge fuel s i off : i <= (scan_offset fuel s i off).1.
Proof.
  revert i off. induction fuel as [|fuel IH]; intros i off; simpl; [lia|]. case_match; [|simpl; lia].
  specialize (IH (i + 1) (i32 (off * 10 + (vget s i - 48)))). lia.
Qed.

Lemma scan_value_ge s i : i <= (scan_value s i).2.
Proof.
  unfold scan_value. pose proof (scan_ge (length s) isvalue s i). case_match; simpl; [|done].
  pose proof (scan_ge (length s) isvalue s (scan (length s) isvalue s i + 1)). lia.
Qed.

(** Every turn of the loop over clauses moves forward. *)
Lemma parse_clause_progress slot s st st' :
  parse_clause slot s st = inr st' -> ss_pos st < ss_pos st'.
Proof.
  unfold parse_clause. pose proof (scan_ge (length s) isspace s (ss_pos st)) as G1.
  set (i0 := scan (length s) isspace s (ss_pos st)) in *. case_match; [done|].
  set (i1 := if vget s i0 =? 33 then scan (length s) isspace s (i0 + 1) else i0).
  assert (G2 : i0 <= i1).
  { unfold i1. case_match; [|done]. pose proof (scan_ge (length s) isspace s (i0 + 1)). lia. }
  case_match; [done|]. pose proof (scan_offset_ge (length s) s i1 0) as G3.
  destruct (scan_offset (length s) s i1 0) as [i2 off]. simpl in G3.
  case_match; [done|]. pose proof (scan_value_ge s (i2 + 1)) as G4.
  destruct (scan_value s (i2 + 1)) as [r i3]. simpl in G4.
  destruct (check_lengths slot r) as [r' errs].
  destruct (add_bytes _ _ _ _ _ _ _ _ _ _) as [[P tree] empty].
  destruct (finish_subtree P tree c_and j_success j_failure) as [P' tree'].
  intros [= <-]. simpl. lia.
Qed.

Lemma parse_clauses_total fuel slot s st :
  Z.max 0 (vlen s - ss_pos st) < Z.of_nat fuel -> exists st', parse_clauses fuel slot s st = Some st'.
Proof.
  revert st. induction fuel as [|fuel IH]; intros st Hf; [lia|]. cbn [parse_clauses].
  destruct (Z.ltb_spec (ss_pos st) (vlen s)); [|eauto].
  destruct (parse_clause slot s st) as [st'|st'] eqn:Hp; [eauto|].
  apply IH. apply parse_clause_progress in Hp. lia.
Qed.

Lemma parse_slot_total slot s P tree errs : exists r, parse_slot slot s P tree errs = Some r.
Proof.
  unfold parse_slot.
  destruct (parse_clauses_total (S (length s)) slot s
    (mkSlot (if (vget s 0 =? 45) && (vlen s =? 1) then 1 else 0) P (start_subtree tree) true errs))
    as [st ->]; [simpl; unfold vlen; case_match; lia|].
  destruct (if ss_empty st then _ else _) as [P' tree'].
  destruct (finish_subtree P' tree' c_and (- slot) j_failure) as [P2 tree2]. eauto.
Qed.

(** Parsing terminates on every configuration, well-formed or not, with a
    program and the list of the errors found. *)
Theorem parse_patterns_total P conf : exists r, parse_patterns P conf = Some r.
Proof.
  unfold parse_patterns.
  assert (Hs : forall conf slot P tree errs, exists r, parse_slots slot conf P tree errs = Some r).
  { clear. induction conf as [|s conf IH]; intros slot P tree errs; cbn [parse_slots]; [eauto|].
    destruct (parse_slot_total slot s P tree errs) as [[[P' tree'] errs'] ->]. apply IH. }
  destruct (Hs conf 0 P (start_subtree (init_subtree P)) []) as [[[P' tree'] errs'] ->]. eauto.
Qed.
