(* ===== verification/Patterns.v ===== *)
(** * What classifier patterns mean

    The documented language of [Classifier] configurations as abstract syntax,
    its concrete text, and its meaning: a packet goes to the first pattern all
    of whose clauses hold.  The file then shows how the scanning half of the
    parser reads the text of well-formed clauses. *)

From S2P Require Import Prelude Packet Insn Program Words ClassifierParse.

(** ** Syntax *)

(** [!digits/value%mask], all parts as text. *)
Record clause := mkClause {
  c_neg : bool;
  c_digits : list Z;
  c_value : list Z;
  c_mask : option (list Z)
}.

Definition clause_text (c : clause) : list Z :=
  (if c_neg c then [33] else []) ++ c_digits c ++ [47] ++ c_value c
  ++ match c_mask c with None => [] | Some m => 37 :: m end.

(** A pattern without clauses is written [-]; clauses are separated by blanks. *)
Definition more_text (cs : list clause) : list Z := concat (map (fun c => 32 :: clause_text c) cs).

Definition slot_text (cs : list clause) : list Z :=
  match cs with [] => [45] | c :: cs' => clause_text c ++ more_text cs' end.

Definition hex_text (t : list Z) : Prop := Forall (fun c => isvalue c = true) t.

Definition clause_wf (c : clause) : Prop :=
  c_digits c <> [] /\ Forall (fun d => isdigit d = true) (c_digits c)
  /\ hex_text (c_value c) /\ c_value c <> [] /\ (exists n, length (c_value c) = (2 * n)%nat)
  /\ match c_mask c with
     | None => True
     | Some m => hex_text m /\ length m = length (c_value c)
     end.

(** ** Meaning *)

Definition digits_value (ds : list Z) : Z := fold_left (fun a d => a * 10 + (d - 48)) ds 0.
Definition c_offset (c : clause) : Z := digits_value (c_digits c).

(** Value and mask of a hex digit; [?] matches anything. *)
Definition nibble (c : Z) : Z * Z :=
  if c =? 63 then (0, 0)
  else if isdigit c then (c - 48, 15)
  else if c <=? 70 then (c - 55, 15) else (c - 87, 15).

Definition hex_pair (a b : Z) : Z * Z :=
  (16 * (nibble a).1 + (nibble b).1, 16 * (nibble a).2 + (nibble b).2).

Fixpoint hex_bytes (t : list Z) : list (Z * Z) :=
  match t with a :: b :: t' => hex_pair a b :: hex_bytes t' | _ => [] end.

Definition mask_byte (v m : Z * Z) : Z * Z := (v.1, v.2 .& m.1 .& m.2).

Definition c_bytes (c : clause) : list (Z * Z) :=
  match c_mask c with
  | None => hex_bytes (c_value c)
  | Some m => zip_with mask_byte (hex_bytes (c_value c)) (hex_bytes m)
  end.

(** A conjunction over consecutive bytes: position, value under the mask, mask. *)
Fixpoint bytes_all (Q : Z -> Z -> Z -> bool) (i : Z) (bs : list (Z * Z)) : bool :=
  match bs with
  | [] => true
  | (v, m) :: bs' => Q i (v .& m) m && bytes_all Q (i + 1) bs'
  end.

Definition clause_matches (p : packet) (c : clause) : bool :=
  xorb (c_neg c) (bytes_all (byte_ok p) (c_offset c) (c_bytes c)).

Definition slot_matches (p : packet) (cs : list clause) : bool := forallb (clause_matches p) cs.

(** The output of the first matching pattern; [- j_never] drops the packet. *)
Fixpoint first_match (p : packet) (slot : Z) (conf : list (list clause)) : Z :=
  match conf with
  | [] => - j_never
  | cs :: rest => if slot_matches p cs then slot else first_match p (slot + 1) rest
  end.

(** What the code makes of it: a clause is tested word by word, and a word that
    begins behind the end of the packet does not match even if all its bits are
    masked out; nor does the test of the first word that [-] stands for. *)
Definition clause_reached (al : Z) (p : packet) (c : clause) : bool :=
  (c_offset c + al + vlen (c_bytes c) - 1) / 4 * 4 <? pkt_length p + al.

Definition clause_holds (al : Z) (p : packet) (c : clause) : bool :=
  xorb (c_neg c) (bytes_all (byte_ok p) (c_offset c) (c_bytes c) && clause_reached al p c).

Definition slot_holds (al : Z) (p : packet) (cs : list clause) : bool :=
  match cs with [] => 0 <? pkt_length p + al | _ => forallb (clause_holds al p) cs end.

Fixpoint first_holding (al : Z) (p : packet) (slot : Z) (conf : list (list clause)) : Z :=
  match conf with
  | [] => - j_never
  | cs :: rest => if slot_holds al p cs then slot else first_holding al p (slot + 1) rest
  end.

(** ** Scanning *)

(** [rest] does not continue a run of [test] characters. *)
Definition stops (test : Z -> bool) (rest : list Z) : Prop :=
  match rest with [] => True | c :: _ => test c = false end.

Lemma scan_run fuel test s pre w rest :
  s = pre ++ w ++ rest -> Forall (fun c => test c = true) w -> stops test rest ->
  (length w <= fuel)%nat -> scan fuel test s (vlen pre) = vlen pre + vlen w.
Proof.
  revert fuel pre. induction w as [|c w IH]; intros fuel pre Hs Hw Hr Hf.
  - replace (vlen pre + vlen []) with (vlen pre) by vlia.
    destruct fuel as [|fuel]; [done|]. cbn [scan]. subst s. cbn [app].
    destruct rest as [|c rest].
    + rewrite app_nil_r. by destruct (Z.ltb_spec (vlen pre) (vlen pre)); [lia|].
    + rewrite vget_app_r, Z.sub_diag, vget_cons_0 by lia. simpl in Hr. rewrite Hr.
      by rewrite andb_false_r.
  - destruct fuel as [|fuel]; [simpl in Hf; lia|]. apply Forall_cons in Hw as [Hc Hw].
    cbn [scan]. assert (Hv : vget s (vlen pre) = c).
    { subst s. by rewrite vget_app_r, Z.sub_diag by lia. }
    assert (Hlt : vlen pre < vlen s).
    { subst s. rewrite vlen_app. cbn [app]. rewrite vlen_cons. pose proof (vlen_nonneg (w ++ rest)). lia. }
    destruct (Z.ltb_spec (vlen pre) (vlen s)); [|lia]. rewrite Hv, Hc. cbn [andb].
    replace (vlen pre + 1) with (vlen (pre ++ [c])) by vlia.
    rewrite (IH fuel (pre ++ [c])).
    + vlia.
    + by rewrite <- app_assoc.
    + done.
    + done.
    + simpl in Hf. lia.
Qed.

Lemma digits_value_ge ds a :
  Forall (fun d => isdigit d = true) ds -> 0 <= a ->
  a <= fold_left (fun a d => a * 10 + (d - 48)) ds a.
Proof.
  intros Hd. revert a. induction Hd as [|d ds Hd _ IH]; intros a Ha; simpl; [lia|].
  unfold isdigit in Hd. bprop. specialize (IH (a * 10 + (d - 48)) ltac:(lia)). lia.
Qed.

Lemma scan_offset_run fuel s pre ds rest a :
  s = pre ++ ds ++ rest -> Forall (fun d => isdigit d = true) ds -> stops isdigit rest ->
  (length ds <= fuel)%nat -> 0 <= a ->
  fold_left (fun a d => a * 10 + (d - 48)) ds a < 2147483648 ->
  scan_offset fuel s (vlen pre) a
  = (vlen pre + vlen ds, fold_left (fun a d => a * 10 + (d - 48)) ds a).
Proof.
  revert fuel pre a. induction ds as [|d ds IH]; intros fuel pre a Hs Hw Hr Hf Ha Hb.
  - replace (vlen pre + vlen []) with (vlen pre) by vlia.
    destruct fuel as [|fuel]; [done|]. cbn [scan_offset]. subst s. cbn [app].
    destruct rest as [|c rest].
    + rewrite app_nil_r. by destruct (Z.ltb_spec (vlen pre) (vlen pre)); [lia|].
    + rewrite vget_app_r, Z.sub_diag, vget_cons_0 by lia. simpl in Hr. rewrite Hr.
      by rewrite andb_false_r.
  - destruct fuel as [|fuel]; [simpl in Hf; lia|]. apply Forall_cons in Hw as [Hc Hw].
    cbn [scan_offset]. assert (Hv : vget s (vlen pre) = d).
    { subst s. by rewrite vget_app_r, Z.sub_diag by lia. }
    assert (Hlt : vlen pre < vlen s).
    { subst s. rewrite vlen_app. cbn [app]. rewrite vlen_cons. pose proof (vlen_nonneg (ds ++ rest)). lia. }
    destruct (Z.ltb_spec (vlen pre) (vlen s)); [|lia]. rewrite Hv, Hc. cbn [andb fold_left] in *.
    unfold isdigit in Hc. bprop.
    pose proof (digits_value_ge ds (a * 10 + (d - 48)) Hw ltac:(lia)).
    rewrite i32_small by lia.
    replace (vlen pre + 1) with (vlen (pre ++ [d])) by vlia.
    rewrite (IH fuel (pre ++ [d])).
    + f_equal. vlia.
    + by rewrite <- app_assoc.
    + done.
    + done.
    + simpl in Hf. lia.
    + lia.
    + done.
Qed.

(** ** Hex digits *)

Lemma nibble_range c : isvalue c = true ->
  0 <= (nibble c).1 < 16 /\ ((nibble c).2 = 0 \/ (nibble c).2 = 15).
Proof.
  unfold isvalue, isxdigit, nibble, isdigit. intros H.
  repeat (bdestr; cbn [andb orb fst snd] in *); lia || (split; lia) || done.
Qed.

Lemma update_nibble c shift vm :
  isvalue c = true ->
  update_value_mask c shift vm
  = (vm.1 .| ((nibble c).1 .<< shift), vm.2 .| ((nibble c).2 .<< shift)).
Proof.
  unfold isvalue, isxdigit, update_value_mask, nibble, isdigit. intros H.
  repeat (bdestr; cbn [andb orb fst snd] in *); try lia; try done;
    do 2 f_equal; f_equal; lia.
Qed.

Lemma update_pair a b :
  isvalue a = true -> isvalue b = true ->
  update_value_mask b 0 (update_value_mask a 4 (0, 0)) = hex_pair a b.
Proof.
  intros Ha Hb. rewrite !update_nibble by done. unfold hex_pair. cbn [fst snd].
  pose proof (nibble_range a Ha) as [Ha1 Ha2]. pose proof (nibble_range b Hb) as [Hb1 Hb2].
  rewrite !Z.shiftl_0_r, !Z.lor_0_l.
  f_equal; rewrite Z.lor_comm, lor_shift_add by lia; lia.
Qed.

Lemma hex_pair_range a b :
  isvalue a = true -> isvalue b = true ->
  0 <= (hex_pair a b).1 < 256 /\ 0 <= (hex_pair a b).2 < 256.
Proof.
  intros Ha Hb. pose proof (nibble_range a Ha) as [Ha1 Ha2].
  pose proof (nibble_range b Hb) as [Hb1 Hb2]. unfold hex_pair. cbn [fst snd]. lia.
Qed.

Lemma hex_bytes_range t :
  hex_text t -> Forall (fun b : Z * Z => 0 <= b.1 < 256 /\ 0 <= b.2 < 256) (hex_bytes t).
Proof.
  remember (length t) as n eqn:Hn. revert t Hn. induction n as [n IH] using lt_wf_ind.
  intros [|a [|b t]] Hn Ht; [constructor|constructor|].
  apply Forall_cons in Ht as [Ha Ht]. apply Forall_cons in Ht as [Hb Ht].
  constructor; [by apply hex_pair_range|]. eapply IH; [|reflexivity|done]. subst n. simpl. lia.
Qed.

Lemma land_byte_range a b : 0 <= a < 256 -> 0 <= b -> 0 <= (a .& b) < 256.
Proof.
  intros Ha Hb. assert (0 <= (a .& b)) by (apply Z.land_nonneg; lia).
  split; [done|]. destruct (Z.ltb_spec (a .& b) 256) as [|Hge]; [done|].
  assert (Hl : 8 <= Z.log2 (a .& b)) by (apply Z.log2_le_pow2; lia).
  pose proof (Z.bit_log2 (a .& b) ltac:(lia)) as Hbit.
  by rewrite Z.land_spec, (byte_bits a) in Hbit.
Qed.

Lemma c_bytes_range c :
  clause_wf c -> Forall (fun b : Z * Z => 0 <= b.1 < 256 /\ 0 <= b.2 < 256) (c_bytes c).
Proof.
  intros (_ & _ & Hv & _ & _ & Hm). unfold c_bytes. pose proof (hex_bytes_range _ Hv) as Hr.
  destruct (c_mask c) as [m|]; [|done]. destruct Hm as [Hm _]. pose proof (hex_bytes_range _ Hm) as Hr2.
  apply Forall_forall. intros b Hb. apply elem_of_lookup_zip_with in Hb as (i & x & y & -> & Hx & Hy).
  rewrite Forall_lookup in Hr, Hr2. destruct (Hr _ _ Hx), (Hr2 _ _ Hy). unfold mask_byte. simpl.
  split; [done|]. apply land_byte_range; [apply land_byte_range; lia|lia].
Qed.
