(* ===== verification/ParseCorrect.v ===== *)
(** * Correctness of the pattern parser

    The program [parse_patterns] builds from the text of well-formed patterns
    sends every packet to the first pattern that matches it. *)

From S2P Require Import Prelude Packet Insn Program Words Segments Optimize ClassifierParse Patterns.

(** ** From text to bytes *)

(** The loop that adds instructions, over bytes instead of text. *)
Fixpoint add_list (off : Z) (bs : list (Z * Z)) (first : bool) (P : Program) (tree : list Z)
    : Program * list Z :=
  match bs with
  | [] => (P, tree)
  | (v, m) :: bs' =>
      let '(P, tree) := add_byte off v m first P tree in
      add_list (off + 1) bs' false P tree
  end.

(** The mask text still to be read, if the clause has a mask. *)
Definition mask_at (s : list Z) (mask_pos : Z) (t : list Z) (mt : option (list Z)) : Prop :=
  match mt with
  | None => mask_pos < 0
  | Some m => hex_text m /\ length m = length t /\ exists A B, s = A ++ m ++ B /\ mask_pos = vlen A
  end.

Definition text_bytes (t : list Z) (mt : option (list Z)) : list (Z * Z) :=
  match mt with
  | None => hex_bytes t
  | Some m => zip_with mask_byte (hex_bytes t) (hex_bytes m)
  end.

Lemma vget_two (s A : list Z) a b B : s = A ++ a :: b :: B -> vget s (vlen A) = a /\ vget s (vlen A + 1) = b.
Proof.
  intros ->. pose proof (vlen_nonneg A). rewrite !vget_app_r by lia. rewrite Z.sub_diag.
  split; [done|]. by replace (vlen A + 1 - vlen A) with 1 by lia.
Qed.

Lemma read_byte_none s A a b B mp :
  s = A ++ a :: b :: B -> isvalue a = true -> isvalue b = true -> mp < 0 ->
  read_byte s (vlen A) mp = hex_pair a b.
Proof.
  intros Hs Ha Hb Hmp. destruct (vget_two _ _ _ _ _ Hs) as [H1 H2]. unfold read_byte.
  rewrite H1, H2, update_pair by done. destruct (hex_pair a b) as [v m] eqn:E.
  by destruct (Z.leb_spec 0 mp); [lia|].
Qed.

Lemma read_byte_some s A a b B A' a' b' B' :
  s = A ++ a :: b :: B -> s = A' ++ a' :: b' :: B' ->
  isvalue a = true -> isvalue b = true -> isvalue a' = true -> isvalue b' = true ->
  read_byte s (vlen A) (vlen A') = mask_byte (hex_pair a b) (hex_pair a' b').
Proof.
  intros Hs Hs' Ha Hb Ha' Hb'. destruct (vget_two _ _ _ _ _ Hs) as [H1 H2].
  destruct (vget_two _ _ _ _ _ Hs') as [H3 H4]. unfold read_byte.
  rewrite H1, H2, H3, H4, !update_pair by done.
  destruct (hex_pair a b) as [v m], (hex_pair a' b') as [v' m'].
  pose proof (vlen_nonneg A'). by destruct (Z.leb_spec 0 (vlen A')); [|lia].
Qed.

Lemma add_bytes_list n s A t B mp mt off first empty P tree fuel :
  s = A ++ t ++ B -> hex_text t -> length t = (2 * n)%nat -> mask_at s mp t mt ->
  (n <= fuel)%nat ->
  add_bytes fuel s (vlen A) (vlen A + vlen t) mp off first empty P tree
  = (add_list off (text_bytes t mt) first P tree, match t with [] => empty | _ => false end).
Proof.
  revert s A t mp mt off first empty P tree fuel.
  induction n as [|n IH]; intros s A t mp mt off first empty P tree fuel Hs Ht Hn Hm Hf.
  - destruct t; [|done]. replace (text_bytes [] mt) with (@nil (Z * Z)) by (by destruct mt).
    cbn [add_list]. destruct fuel as [|fuel]; [done|]. cbn [add_bytes].
    by destruct (Z.ltb_spec (vlen A) (vlen A + vlen (@nil Z))); [vlia|].
  - destruct t as [|a [|b t]]; [done|simpl in Hn; lia|]. destruct fuel as [|fuel]; [lia|].
    apply Forall_cons in Ht as [Ha Ht]. apply Forall_cons in Ht as [Hb Ht].
    cbn [add_bytes]. pose proof (vlen_nonneg t).
    destruct (Z.ltb_spec (vlen A) (vlen A + vlen (a :: b :: t))); [|vlia].
    assert (Hs2 : s = (A ++ [a; b]) ++ t ++ B) by (rewrite Hs, <- app_assoc; done).
    replace (vlen A + 2) with (vlen (A ++ [a; b])) by vlia.
    replace (vlen A + vlen (a :: b :: t)) with (vlen (A ++ [a; b]) + vlen t) by vlia.
    destruct mt as [m|].
    + destruct Hm as (Hmt & Hml & A' & B' & Hs' & ->).
      destruct m as [|a' [|b' m]]; [done|simpl in Hml; lia|].
      apply Forall_cons in Hmt as [Ha' Hmt]. apply Forall_cons in Hmt as [Hb' Hmt].
      rewrite (read_byte_some s A a b (t ++ B) A' a' b' (m ++ B')) by done.
      cbn [text_bytes hex_bytes zip_with add_list].
      destruct (mask_byte (hex_pair a b) (hex_pair a' b')) as [v mm].
      destruct (add_byte off v mm first P tree) as [P1 tree1].
      pose proof (vlen_nonneg A'). destruct (Z.leb_spec 0 (vlen A')); [|lia].
      rewrite (IH s (A ++ [a; b]) t (vlen A' + 2) (Some m)).
      * by destruct t.
      * done.
      * done.
      * simpl in Hn. lia.
      * split; [done|]. split; [simpl in Hml; lia|]. exists (A' ++ [a'; b']), B'.
        split; [rewrite Hs', <- app_assoc; done|vlia].
      * lia.
    + simpl in Hm. rewrite (read_byte_none s A a b (t ++ B)) by done.
      cbn [text_bytes hex_bytes add_list].
      destruct (hex_pair a b) as [v mm]. destruct (add_byte off v mm first P tree) as [P1 tree1].
      destruct (Z.leb_spec 0 mp); [lia|].
      rewrite (IH s (A ++ [a; b]) t mp None); [by destruct t|done|done|simpl in Hn; lia|done|lia].
Qed.

(** ** The instructions of a clause *)

(** An instruction as [parse_program] adds it, before its subtree is finished. *)
Definition word_ok (e : Insn) : Prop :=
  insn_ok e /\ short_output e = false /\ j_no e = j_failure /\ j_yes e = j_success.

(** The words [W] of a clause after the byte before [off]: the last word is the
    one of byte [off - 1], and the bytes from [off] on are still untested. *)
Record words_inv (off : Z) (W : list Insn) : Prop := {
  wi_ok : Forall word_ok W;
  wi_before : Forall (fun e => offset e <= (off - 1) / 4 * 4) W;
  wi_end : W <> [] -> offset (vback W) = (off - 1) / 4 * 4;
  wi_last : W <> [] -> off mod 4 <> 0 ->
    offset (vback W) = off / 4 * 4
    /\ forall k, off mod 4 <= k < 4 -> mask_c (vback W) k = 0 /\ byte_of (value (vback W)) k = 0
}.

Definition zero_word (off : Z) : Insn := new_insn (Z.quot off 4 * 4) 0 0 j_failure j_success false.

Definition set_word (e : Insn) (k v m : Z) : Insn :=
  mkInsn (offset e) (padding e) (short_output e) (put_byte (mask e) k m)
         (put_byte (value e) k (v .& m)) (j_no e) (j_yes e).

Lemma mod4_range off : 0 <= off -> Z.rem off 4 = off mod 4 /\ Z.quot off 4 = off / 4
  /\ 0 <= off mod 4 < 4 /\ off = off / 4 * 4 + off mod 4.
Proof.
  intros H. rewrite Z.rem_mod_nonneg, Z.quot_div_nonneg by lia.
  pose proof (Z.mod_pos_bound off 4 ltac:(lia)). pose proof (Z.div_mod off 4 ltac:(lia)). lia.
Qed.

Lemma zero_word_spec off :
  0 <= off < 65536 ->
  word_ok (zero_word off) /\ offset (zero_word off) = off / 4 * 4
  /\ (forall k, mask_c (zero_word off) k = 0 /\ byte_of (value (zero_word off)) k = 0).
Proof.
  intros Hoff. destruct (mod4_range off ltac:(lia)) as (_ & Hq & Hr & Hd).
  unfold zero_word, new_insn. rewrite Hq.
  assert (Ho : u16 (off / 4 * 4) = off / 4 * 4) by (unfold u16; apply Z.mod_small; lia).
  rewrite Ho. split; [|split; [done|]].
  - split; [|done]. unfold insn_ok. simpl. split; [lia|]. split; [lia|]. done.
  - intros k. unfold mask_c, byte_of. simpl. by rewrite !Z.shiftr_0_l.
Qed.

Lemma set_word_ok e k v m :
  word_ok e -> 0 <= k < 4 -> 0 <= v -> 0 <= m < 256 ->
  word_ok (set_word e k v m).
Proof.
  intros ((Ho & Hm & Hv & Hp) & Hs & Hn & Hy) Hk Hv0 Hm0.
  assert (Hvm : 0 <= (v .& m) < 256).
  { rewrite Z.land_comm. by apply land_byte_range. }
  split; [|done]. split; [done|]. split; [by apply put_byte_range|]. split; [|done]. simpl.
  assert (Hvr : 0 <= value e < 4294967296).
  { rewrite <- Hv. apply nonneg_bits_bound; [apply Z.land_nonneg; lia|].
    intros n Hn'. rewrite Z.land_spec, (word_high_bits (mask e)) by done. apply andb_false_r. }
  apply word_bytes_eq.
  - apply nonneg_bits_bound; [apply Z.land_nonneg; pose proof (put_byte_range (mask e) k m Hm Hk Hm0); lia|].
    intros n Hn'. rewrite Z.land_spec, (word_high_bits (put_byte (mask e) k m)), andb_false_r;
      [done|by apply put_byte_range|done].
  - by apply put_byte_range.
  - intros j Hj. rewrite byte_of_land, !byte_of_put by lia. case_decide.
    + rewrite <- Z.land_assoc, Z.land_diag. done.
    + rewrite <- byte_of_land, Hv by lia. done.
Qed.

(** Setting an untested byte adds its test to the conjunction. *)
Lemma set_word_all Q e k v m :
  (forall i, Q i 0 0 = true) -> 0 <= k < 4 -> 0 <= v -> 0 <= m < 256 ->
  mask_c e k = 0 -> byte_of (value e) k = 0 ->
  word_all Q (set_word e k v m) = word_all Q e && Q (offset e + k) (v .& m) m.
Proof.
  intros HQ Hk Hv Hm Hmz Hvz.
  assert (Hvm : 0 <= (v .& m) < 256) by (rewrite Z.land_comm; by apply land_byte_range).
  assert (Hb : forall j, 0 <= j < 4 ->
    Q (offset e + j) (byte_of (value (set_word e k v m)) j) (mask_c (set_word e k v m) j)
    = if decide (j = k) then Q (offset e + k) (v .& m) m
      else Q (offset e + j) (byte_of (value e) j) (mask_c e j)).
  { intros j Hj. unfold mask_c. simpl. rewrite !byte_of_put by lia. by case_decide; [subst|]. }
  apply eq_bool_prop_intro. rewrite andb_True, !Is_true_true, !word_all_true. simpl.
  split.
  - intros H. split.
    + intros j Hj. specialize (H j Hj). rewrite Hb in H by done. case_decide; [|done].
      subst j. by rewrite Hmz, Hvz.
    + specialize (H k Hk). rewrite Hb in H by done. by case_decide.
  - intros [H1 H2] j Hj. rewrite Hb by done. case_decide; [done|auto].
Qed.

Lemma vset_last {A} `{Inhabited A} (l : list A) e x i : i = vlen l -> vset (l ++ [e]) i x = l ++ [x].
Proof.
  intros ->. pose proof (vlen_nonneg l). unfold vset. destruct (Z.leb_spec 0 (vlen l)); [|lia].
  unfold vlen. rewrite Nat2Z.id. replace (length l) with (length l + 0)%nat by lia.
  by rewrite insert_app_r.
Qed.

(** The program with the words of an unfinished clause behind [l0]. *)
Record clause_state (P0 P : Program) (l0 : list Insn) (tree0 tree : list Z) (off : Z) (W : list Insn)
    : Prop := {
  cs_insns : insns P = l0 ++ W;
  cs_tree : tree = tree0 ++ replicate (length W) (vget tree0 0);
  cs_safe : safe_length P = safe_length P0;
  cs_align : align_offset P = align_offset P0;
  cs_out : W <> [] -> output_everything P = -1;
  cs_words : words_inv off W
}.

(** The last word with byte [off] set. *)
Lemma set_word_inv off W e v m :
  Forall word_ok W -> Forall (fun e => offset e <= off / 4 * 4) W -> word_ok e ->
  offset e = off / 4 * 4 ->
  (forall k, off mod 4 <= k < 4 -> mask_c e k = 0 /\ byte_of (value e) k = 0) ->
  0 <= off -> 0 <= v -> 0 <= m < 256 ->
  words_inv (off + 1) (W ++ [set_word e (off mod 4) v m])
  /\ (forall Q, (forall i, Q i 0 0 = true) ->
       forallb (word_all Q) (W ++ [set_word e (off mod 4) v m])
       = forallb (word_all Q) (W ++ [e]) && Q off (v .& m) m)
  /\ (m <> 0 -> mask (set_word e (off mod 4) v m) <> 0).
Proof.
  intros HokW HbW Hoke Ho Hz Hoff Hv Hm.
  destruct (mod4_range off Hoff) as (_ & _ & Hr & Hd).
  assert (Hvm : 0 <= (v .& m) < 256) by (rewrite Z.land_comm; by apply land_byte_range).
  split; [constructor|split].
  - apply Forall_app. split; [done|]. apply Forall_singleton. by apply set_word_ok.
  - replace (off + 1 - 1) with off by lia. apply Forall_app. split; [done|]. apply Forall_singleton. simpl. lia.
  - intros _. replace (off + 1 - 1) with off by lia. rewrite <- Ho. exact (f_equal offset (vback_vpush W _)).
  - intros _ Hne. assert (vback (W ++ [set_word e (off mod 4) v m]) = set_word e (off mod 4) v m) as ->
      by apply vback_vpush.
    assert (Hdm : (off + 1) / 4 = off / 4 /\ (off + 1) mod 4 = off mod 4 + 1).
    { clear -Hne Hoff. Z.to_euclidean_division_equations; lia. }
    destruct Hdm as [-> ->]. split; [done|]. intros k Hk. unfold mask_c. simpl.
    rewrite !byte_of_put by lia. case_decide; [lia|]. apply Hz. lia.
  - intros Q HQ. rewrite !forallb_app. cbn [forallb]. rewrite !andb_true_r.
    destruct (Hz (off mod 4) ltac:(lia)) as [Hz1 Hz2].
    rewrite set_word_all by done. rewrite andb_assoc. do 2 f_equal. lia.
  - intros Hm0 H0. apply Hm0. assert (byte_of (mask (set_word e (off mod 4) v m)) (off mod 4) = m) as <-.
    { simpl. rewrite byte_of_put by lia. by case_decide. }
    rewrite H0. unfold byte_of. by rewrite Z.shiftr_0_l.
Qed.

Lemma set_back_last P l e k v m :
  insns P = l ++ [e] -> set_back P k v m = with_insns P (l ++ [set_word e k v m]).
Proof.
  intros Hi. unfold set_back, ninsn. rewrite Hi. f_equal.
  assert (vback (l ++ [e]) = e) as -> by apply vback_vpush.
  apply vset_last. vlia.
Qed.

Lemma add_byte_spec P0 P l0 tree0 tree off W v m first :
  clause_state P0 P l0 tree0 tree off W -> tree0 <> [] ->
  (first = true <-> W = []) -> 0 <= off < 65536 -> 0 <= v -> 0 <= m < 256 ->
  exists W', clause_state P0 (add_byte off v m first P tree).1 l0 tree0
               (add_byte off v m first P tree).2 (off + 1) W' /\ W' <> []
  /\ (forall Q, (forall i, Q i 0 0 = true) ->
        forallb (word_all Q) W' = forallb (word_all Q) W && Q off (v .& m) m)
  /\ (m <> 0 -> Forall (fun e => mask e <> 0) W -> Forall (fun e => mask e <> 0) W').
Proof.
  intros [Hi Ht Hsl Hal Hout [Hw1 Hw2' _ Hw3]] Ht0 Hf Hoff Hv Hm.
  destruct (mod4_range off ltac:(lia)) as (Hrem & Hquot & Hr & Hd).
  assert (Hw2 : Forall (fun e => offset e <= off / 4 * 4) W).
  { eapply Forall_impl; [exact Hw2'|]. cbn. intros e He. pose proof (Z.div_le_mono (off - 1) off 4). lia. }
  unfold add_byte. rewrite Hrem.
  destruct (first || (off mod 4 =? 0)) eqn:Hnew.
  - destruct (zero_word_spec off Hoff) as (Hzok & Hzo & Hzz).
    destruct (set_word_inv off W (zero_word off) v m) as (Hinv & Hall & Hnz);
      [done|done|done|done|intros; apply Hzz|lia|done|done|].
    exists (W ++ [set_word (zero_word off) (off mod 4) v m]).
    unfold add_insn. fold (zero_word off). cbn [fst snd].
    rewrite (set_back_last _ (l0 ++ W) (zero_word off)) by (simpl; unfold vpush; by rewrite Hi).
    split; [constructor; simpl; try done|].
    + by rewrite <- app_assoc.
    + rewrite Ht at 1. unfold vpush. rewrite length_app. simpl. rewrite Nat.add_1_r, replicate_S_end, app_assoc.
      do 2 f_equal. rewrite Ht. by destruct tree0.
    + split; [by destruct W|]. split.
      * intros Q HQ. rewrite Hall by done. rewrite forallb_app. cbn [forallb].
        replace (word_all Q (zero_word off)) with true; [by rewrite andb_true_r|].
        symmetry. apply word_all_true. intros k Hk. destruct (Hzz k) as [-> ->]. apply HQ.
      * intros Hm0 HW. apply Forall_app. split; [done|]. apply Forall_singleton. auto.
  - apply orb_false_iff in Hnew as [Hfirst Hmod]. bprop.
    assert (HWne : W <> []) by (intros HW; apply Hf in HW; congruence).
    destruct W as [|e W _] using rev_ind; [done|].
    assert (Hb : vback (W ++ [e]) = e) by apply vback_vpush.
    destruct (Hw3 HWne Hmod) as [Ho Hz]. rewrite Hb in Ho, Hz.
    apply Forall_app in Hw1 as [HokW Hoke]. apply Forall_app in Hw2 as [HbW Hbe].
    rewrite Forall_singleton in Hoke, Hbe.
    destruct (set_word_inv off W e v m) as (Hinv & Hall & Hnz); [done|done|done|done|exact Hz|lia|lia|done|].
    exists (W ++ [set_word e (off mod 4) v m]). cbn [fst snd].
    rewrite (set_back_last _ (l0 ++ W) e) by (rewrite Hi; by rewrite app_assoc).
    split; [constructor; simpl; try done|].
    + by rewrite <- app_assoc.
    + rewrite Ht. by rewrite !length_app.
    + intros _. by apply Hout.
    + split; [by destruct W|]. split; [exact Hall|].
      intros Hm0 HW. apply Forall_app in HW as [HW _]. apply Forall_app. split; [done|].
      apply Forall_singleton. auto.
Qed.

Lemma add_list_spec P0 l0 tree0 bs :
  forall P tree off W first,
  clause_state P0 P l0 tree0 tree off W -> tree0 <> [] ->
  (first = true <-> W = []) -> 0 <= off -> off + vlen bs <= 65536 ->
  Forall (fun b : Z * Z => 0 <= b.1 < 256 /\ 0 <= b.2 < 256) bs -> W <> [] \/ bs <> [] ->
  exists W', clause_state P0 (add_list off bs first P tree).1 l0 tree0
               (add_list off bs first P tree).2 (off + vlen bs) W' /\ W' <> []
  /\ (forall Q, (forall i, Q i 0 0 = true) ->
        forallb (word_all Q) W' = forallb (word_all Q) W && bytes_all Q off bs)
  /\ (Forall (fun b : Z * Z => b.2 <> 0) bs -> Forall (fun e => mask e <> 0) W ->
      Forall (fun e => mask e <> 0) W').
Proof.
  induction bs as [|[v m] bs IH]; intros P tree off W first Hst Ht0 Hf Hoff Hend Hr Hne.
  - exists W. cbn [add_list bytes_all fst snd]. rewrite Z.add_0_r.
    split; [done|]. split; [by destruct Hne|]. split; [intros; by rewrite andb_true_r|done].
  - apply Forall_cons in Hr as [[Hv Hm] Hr]. cbn [add_list fst snd] in *. rewrite vlen_cons in Hend.
    pose proof (vlen_nonneg bs).
    destruct (add_byte_spec P0 P l0 tree0 tree off W v m first) as (W1 & Hst1 & Hne1 & Hall1 & Hnz1);
      [done|done|done|lia|lia|done|].
    destruct (add_byte off v m first P tree) as [P1 tree1]. cbn [fst snd] in *.
    destruct (IH P1 tree1 (off + 1) W1 false) as (W2 & Hst2 & Hne2 & Hall2 & Hnz2);
      [done|done|by destruct W1|lia|lia|done|by left|].
    exists W2. rewrite vlen_cons. replace (off + (vlen bs + 1)) with (off + 1 + vlen bs) by lia.
    split; [done|]. split; [done|]. split.
    + intros Q HQ. rewrite Hall2, Hall1 by done. cbn [bytes_all]. by rewrite andb_assoc.
    + intros Hb HW. apply Forall_cons in Hb as [Hb0 Hb]. auto.
Qed.

(** ** A clause as a segment *)

Lemma marks_singles L n : marks L (replicate n 0%nat) = replicate n L.
Proof. induction n as [|n IH]; [done|]. cbn [replicate]. rewrite marks_cons, IH. done. Qed.

Lemma row_words o l W :
  Forall word_ok W ->
  row (l ++ W) o (vlen l) (replicate (length W) 0%nat) (vlen (l ++ W)) (map (fun e => exit_of (o e)) W).
Proof.
  induction W as [|e W IH] using rev_ind; intros HW.
  - left. by rewrite app_nil_r.
  - apply Forall_app in HW as [HW He]. rewrite Forall_singleton in He.
    rewrite length_app, map_app. simpl. rewrite Nat.add_1_r, replicate_S_end.
    assert (Hlast : vget (l ++ W ++ [e]) (vlen (l ++ W)) = e).
    { rewrite app_assoc, vget_app_r by lia. by rewrite Z.sub_diag. }
    destruct He as (_ & _ & Hno & Hyes).
    apply (row_snoc 0 _ _ _ _ _ (vlen (l ++ W))).
    + apply (row_frame (l ++ W)); [|auto]. intros i Hi. rewrite app_assoc. apply vget_app_l. lia.
    + rewrite marks_singles. vlia.
    + vlia.
    + apply exit_of_le.
    + intros i k Hi. assert (i = vlen (l ++ W)) as -> by vlia. left. rewrite Hlast.
      destruct k; simpl; [by rewrite Hyes|by rewrite Hno].
    + apply Seg_out; [vlia| |left; apply exit_of_le]. rewrite Hlast.
      destruct (o e); simpl; [by rewrite Hyes|by rewrite Hno].
Qed.

(** The state of the parser between two clauses of a pattern. *)
Record slot_inv (al : Z) (o : Insn -> bool) (P : Program) (tree : list Z) (l0 : list Insn)
    (M0 : list Z) (ks : list nat) (rs : list bool) : Prop := {
  si_tree : tree = 2 :: M0 ++ marks 2 ks;
  si_outer : outer 2 M0;
  si_len : vlen (insns P) = vlen M0 + vlen (marks 2 ks);
  si_len0 : vlen l0 = vlen M0;
  si_frame : forall i, 0 <= i < vlen l0 -> vget (insns P) i = vget l0 i;
  si_row : row (insns P) o (vlen M0) ks (vlen (insns P)) (map exit_of rs);
  si_ok : all_insns insn_ok (insns P);
  si_align : align_offset P = al;
  si_safe : safe_length P = u32 (-1);
  si_out : ks <> [] -> output_everything P = -1
}.

Lemma combined_ok l l' o s n x : combined l l' o s n x -> all_insns insn_ok l -> all_insns insn_ok l'.
Proof.
  intros [Hl _ Ht _ _] Hok i Hi. rewrite Hl in Hi. specialize (Hok i Hi).
  destruct (Ht i ltac:(lia)) as [(H1 & H2 & H3 & H4) Hp].
  destruct Hok as (Ho & Hm & Hv & Hpad). unfold insn_ok. by rewrite H1, H3, H4, Hp.
Qed.

(** Finishing the subtree of a clause, and negating it. *)
Lemma finish_clause al o P tree l0 M0 ks rs P1 tree1 off W neg :
  test_outcome o ->
  slot_inv al o P tree l0 M0 ks rs ->
  clause_state P P1 (insns P) (start_subtree tree) tree1 off W -> W <> [] ->
  let '(P2, tree2) := finish_subtree P1 tree1 c_and j_success j_failure in
  let P3 := if neg : bool then negate_subtree P2 tree2 false else P2 in
  slot_inv al o P3 tree2 l0 M0 (ks ++ [pred (length W)]) (rs ++ [xorb neg (forallb o W)]).
Proof.
  intros Ho [Ht Hout Hlen Hlen0 Hfr Hrow Hok Hal Hsafe Hoe] [Hi1 Ht1 Hs1 Ha1 Ho1 [Hw1 _ _]] HWne.
  set (M1 := M0 ++ marks 2 ks) in *.
  assert (Htree1 : tree1 = 3 :: M1 ++ marks 3 (replicate (length W) 0%nat)).
  { rewrite Ht1, Ht, marks_singles. done. }
  assert (Hout1 : outer 3 M1) by (apply outer_marks; [by eapply outer_mono|lia]).
  assert (HM1 : vlen M1 = vlen (insns P)) by (unfold M1; vlia).
  assert (HWl : 0 < vlen W) by (destruct W; [done|vlia]).
  assert (Hn1 : ninsn P1 = vlen (M1 ++ marks 3 (replicate (length W) 0%nat))).
  { unfold ninsn. rewrite Hi1, marks_singles. vlia. }
  assert (Hks1 : replicate (length W) 0%nat <> []) by (by destruct W).
  rewrite Htree1. rewrite (finish_shape P1 3 M1) by (done || lia).
  set (l1 := insns P1) in *. set (n1 := ninsn P1) in *.
  set (l2 := combine_subtrees c_and j_success j_failure n1
               (block_starts (vlen M1) (replicate (length W) 0%nat)) l1).
  assert (Hc2 : combined l1 l2 o (vlen M1) n1 (exit_of (forallb o W))).
  { pose proof (row_words o (insns P) W Hw1) as Hr. destruct Hr as [[? _]|[_ Hb]]; [done|].
    replace (exit_of (forallb o W)) with (and_exit j_success j_failure (map (fun e => exit_of (o e)) W)).
    - unfold l2. rewrite HM1. destruct (length W) as [|w] eqn:EW; [by destruct W|].
      cbn [replicate block_starts] in *. apply combine_and; [done|done|done|apply vlen_nonneg| |].
      + unfold n1, ninsn. fold l1. lia.
      + unfold n1, ninsn. fold l1. by rewrite Hi1.
    - rewrite <- (map_map o exit_of), and_exit_bools by (by destruct W).
      unfold exit_of. replace (forallb id (map o W)) with (forallb o W); [done|].
      clear. induction W as [|e W IH]; simpl; [done|]. by rewrite <- IH. }
  rewrite marks_singles, length_replicate.
  assert (Hk : vlen (blk 2 (pred (length W))) = vlen W).
  { unfold blk. rewrite vlen_cons, vlen_replicate. unfold vlen in *. lia. }
  assert (Hl2 : vlen l2 = n1) by (rewrite (cb_len _ _ _ _ _ _ Hc2); done).
  assert (Hn1' : n1 = vlen M1 + vlen W) by (rewrite Hn1, marks_singles; vlia).
  set (P3 := if neg then negate_subtree (with_insns P1 l2) (3 - 1 :: M1 ++ blk (3 - 1) (pred (length W))) false
             else with_insns P1 l2).
  assert (Hc3 : exists l3, P3 = with_insns P1 l3
    /\ combined l1 l3 o (vlen M1) n1 (exit_of (xorb neg (forallb o W)))).
  { destruct neg; [|exists l2; by rewrite xorb_false_l].
    destruct Hc2 as [c1 c2 c3 c4 c5]. unfold P3. change (3 - 1) with 2. rewrite negate_shape; [|lia|].
    2:{ unfold ninsn. simpl. rewrite Hl2, Hn1', vlen_app, Hk. done. }
    unfold ninsn. simpl. eexists. split; [reflexivity|].
    destruct (Seg_negate o (vlen M1) l2 (exit_of (forallb o W))) as [d1 d2 d3 d4 d5];
      [done|rewrite Hl2; pose proof (vlen_nonneg M1); lia|apply exit_of_le|by rewrite Hl2|by rewrite Hl2|].
    rewrite negate_exit, Hl2 in *. constructor.
    - congruence.
    - intros i Hi. rewrite d2, c2 by lia. done.
    - intros i Hi. destruct (d3 i Hi) as [e1 e2], (c3 i Hi) as [e3 e4].
      split; [by etransitivity|congruence].
    - done.
    - done. }
  clearbody P3. destruct Hc3 as (l3 & -> & Hc3).
  assert (Hfr1 : forall i, 0 <= i < vlen (insns P) -> vget l3 i = vget (insns P) i).
  { intros i Hi. rewrite (cb_frame _ _ _ _ _ _ Hc3) by lia. rewrite Hi1. apply vget_app_l. lia. }
  assert (Hl3 : vlen l3 = n1) by (rewrite (cb_len _ _ _ _ _ _ Hc3); done).
  assert (Hok1 : all_insns insn_ok l1).
  { intros i Hi. rewrite Hi1 in *. destruct (Z.ltb_spec i (vlen (insns P))).
    - rewrite vget_app_l by lia. apply Hok. lia.
    - rewrite vget_app_r by lia. rewrite Forall_lookup in Hw1. apply (Hw1 (Z.to_nat (i - vlen (insns P)))).
      apply vget_some. vlia. }
  constructor.
  - rewrite marks_app, marks_one. unfold M1. by rewrite <- app_assoc.
  - done.
  - simpl. rewrite Hl3, Hn1', marks_app, marks_one, vlen_app, Hk. unfold M1. rewrite vlen_app. lia.
  - done.
  - simpl. intros i Hi. rewrite Hfr1 by (pose proof (vlen_nonneg (marks 2 ks)); lia). by apply Hfr.
  - simpl. rewrite map_app. apply (row_snoc 2 _ _ _ _ _ (vlen (insns P))).
    + apply (row_frame (insns P)); [|done]. intros i Hi. apply Hfr1. pose proof (vlen_nonneg M0). lia.
    + done.
    + lia.
    + apply exit_of_le.
    + rewrite <- HM1, Hl3. apply Hc3.
    + rewrite <- HM1, Hl3. apply Hc3.
  - simpl. by eapply combined_ok.
  - simpl. congruence.
  - simpl. congruence.
  - simpl. intros _. by apply Ho1.
Qed.

(** ** The text of a clause *)

Definition mask_text (mt : option (list Z)) : list Z :=
  match mt with None => [] | Some m => 37 :: m end.

(** The ranges of a value at [a] of length [n] with its mask. *)
Definition ranges_of (a n : Z) (mt : option (list Z)) : ranges :=
  match mt with
  | None => mkRanges a (a + n) (-1) (-1)
  | Some m => mkRanges a (a + n) (a + n + 1) (a + n + 1 + vlen m)
  end.

(** The end of the string, or a blank. *)
Definition blank_or_end (rest : list Z) : Prop :=
  match rest with [] => True | c :: _ => c = 32 end.

Lemma blank_stops rest : blank_or_end rest -> stops isvalue rest.
Proof. destruct rest; [done|]. by intros ->. Qed.

Lemma scan_value_run s A V mt rest :
  s = A ++ V ++ mask_text mt ++ rest -> hex_text V ->
  match mt with None => True | Some m => hex_text m end -> blank_or_end rest ->
  scan_value s (vlen A) = (ranges_of (vlen A) (vlen V) mt, vlen A + vlen V + vlen (mask_text mt)).
Proof.
  intros Hs HV Hm Hr. unfold scan_value.
  assert (HlV : (length V <= length s)%nat) by (rewrite Hs, !length_app; lia).
  destruct mt as [m|]; cbn [mask_text ranges_of] in *.
  - rewrite (scan_run (length s) isvalue s A V ((37 :: m) ++ rest) Hs HV) by done.
    assert (Hs2 : s = (A ++ V) ++ 37 :: m ++ rest) by (rewrite Hs, <- app_assoc; done).
    assert (Hget : vget s (vlen A + vlen V) = 37).
    { rewrite Hs2, vget_app_r by vlia. replace (vlen A + vlen V - vlen (A ++ V)) with 0 by vlia. done. }
    assert (Hlt : vlen A + vlen V < vlen s) by (rewrite Hs; vlia).
    destruct (Z.ltb_spec (vlen A + vlen V) (vlen s)); [|lia]. rewrite Hget. cbn [andb].
    change (37 =? 37) with true. cbv match.
    replace (vlen A + vlen V + 1) with (vlen (A ++ V ++ [37])) by vlia.
    rewrite (scan_run (length s) isvalue s (A ++ V ++ [37]) m rest).
    + f_equal. vlia.
    + by rewrite Hs, <- !app_assoc.
    + done.
    + by apply blank_stops.
    + rewrite Hs, !length_app. simpl. lia.
  - cbn [app] in Hs. rewrite (scan_run (length s) isvalue s A V rest Hs HV) by (done || by apply blank_stops).
    assert (Hcond : (vlen A + vlen V <? vlen s) && (vget s (vlen A + vlen V) =? 37) = false).
    { destruct rest as [|c rest].
      - destruct (Z.ltb_spec (vlen A + vlen V) (vlen s)); [|done]. exfalso.
        rewrite Hs in *. vlia.
      - simpl in Hr. subst c. rewrite Hs, app_assoc, vget_app_r by vlia.
        replace (vlen A + vlen V - vlen (A ++ V)) with 0 by vlia.
        rewrite vget_cons_0. by rewrite andb_false_r. }
    rewrite Hcond. f_equal. vlia.
Qed.

Lemma check_lengths_ok slot a n mt k :
  n = 2 * k -> 0 < k -> 0 <= a -> match mt with None => True | Some m => vlen m = n end ->
  check_lengths slot (ranges_of a n mt) = (ranges_of a n mt, []).
Proof.
  intros Hn Hk Ha Hm. unfold check_lengths, check_short, check_odd, check_mask.
  assert (Hsz : value_end (ranges_of a n mt) - value_pos (ranges_of a n mt) = n)
    by (destruct mt; simpl; lia).
  rewrite Hsz. destruct (Z.ltb_spec n 2); [lia|]. rewrite Hsz.
  assert (Z.rem n 2 = 0) as ->.
  { rewrite Z.rem_mod_nonneg by lia. rewrite Hn, Z.mul_comm. apply Z.mod_mul. lia. }
  cbn [negb Z.eqb]. rewrite Hsz.
  assert ((0 <=? mask_pos (ranges_of a n mt))
    && negb (mask_end (ranges_of a n mt) - mask_pos (ranges_of a n mt) =? n) = false) as ->; [|done].
  destruct mt as [m|]; [|done]. simpl. rewrite Hm.
  replace (a + n + 1 + n - (a + n + 1)) with n by lia. by rewrite Z.eqb_refl, andb_false_r.
Qed.

Lemma digits_value_nonneg c : clause_wf c -> 0 <= c_offset c.
Proof. intros (_ & Hd & _). by apply digits_value_ge. Qed.

(** One turn of the loop over the clauses. *)
Lemma parse_clause_text slot s pre sp c rest st :
  s = pre ++ sp ++ clause_text c ++ rest -> clause_wf c -> c_offset c < 2147483648 ->
  sp = [] \/ sp = [32] -> blank_or_end rest -> ss_pos st = vlen pre ->
  parse_clause slot s st
  = let off := i32 (c_offset c + align_offset (ss_prog st)) in
    let '(P, tree) := add_list off (c_bytes c) true (ss_prog st) (start_subtree (ss_tree st)) in
    let '(P, tree) := finish_subtree P tree c_and j_success j_failure in
    inr (mkSlot (vlen (pre ++ sp ++ clause_text c))
           (if c_neg c then negate_subtree P tree false else P) tree false (ss_errors st)).
Proof.
  intros Hs Hwf Hoff Hsp Hrest Hpos. pose proof Hwf as (Hdne & Hd & HV & HVne & [n Hn] & Hm).
  set (ng := if c_neg c then [33] else []). set (D := c_digits c) in *. set (V := c_value c) in *.
  assert (Htext : clause_text c = ng ++ D ++ [47] ++ V ++ mask_text (c_mask c)) by done.
  destruct D as [|d D'] eqn:ED; [done|]. rewrite <- ED in *.
  assert (Hd0 : isdigit d = true) by (rewrite ED in Hd; by apply Forall_cons in Hd as [? _]).
  assert (Hdr : 48 <= d <= 57) by (unfold isdigit in Hd0; bprop; lia).
  assert (Hdsp : isspace d = false).
  { unfold isspace. destruct (Z.eqb_spec d 32); [lia|]. cbn [orb].
    destruct (Z.leb_spec d 13); [lia|]. by rewrite andb_false_r. }
  assert (Hslen : length s = (length pre + length sp + length ng + length D + 1 + length V
                     + length (mask_text (c_mask c)) + length rest)%nat).
  { rewrite Hs, Htext, !length_app. simpl. lia. }
  unfold parse_clause. rewrite Hpos.
  (* blanks *)
  rewrite (scan_run (length s) isspace s pre sp (clause_text c ++ rest)); [|done| | |lia].
  2:{ destruct Hsp as [-> | ->]; [constructor|by apply Forall_singleton]. }
  2:{ rewrite Htext. unfold ng. destruct (c_neg c); [done|]. rewrite ED. done. }
  set (i0 := vlen pre + vlen sp).
  assert (Hi0 : i0 < vlen s) by (unfold i0, vlen; rewrite Hslen, ED; simpl; lia).
  destruct (Z.leb_spec (vlen s) i0); [lia|].
  assert (Hs0 : s = (pre ++ sp) ++ ng ++ D ++ [47] ++ V ++ mask_text (c_mask c) ++ rest).
  { rewrite Hs, Htext, <- !app_assoc. done. }
  assert (Hneg : (vget s i0 =? 33) = c_neg c).
  { rewrite Hs0, vget_app_r by (unfold i0; vlia). replace (i0 - vlen (pre ++ sp)) with 0 by (unfold i0; vlia).
    unfold ng. rewrite ED. destruct (c_neg c); [done|]. cbn [app]. rewrite vget_cons_0.
    by destruct (Z.eqb_spec d 33); [lia|]. }
  rewrite Hneg.
  (* the sign *)
  set (A1 := pre ++ sp ++ ng).
  assert (Hs1 : s = A1 ++ D ++ ([47] ++ V ++ mask_text (c_mask c) ++ rest)).
  { rewrite Hs0. unfold A1. by rewrite <- !app_assoc. }
  assert (Hi1 : (if c_neg c then scan (length s) isspace s (i0 + 1) else i0) = vlen A1).
  { unfold A1, ng, i0. destruct (c_neg c) eqn:EN; [|vlia].
    replace (vlen pre + vlen sp + 1) with (vlen (pre ++ sp ++ [33])) by vlia.
    rewrite (scan_run (length s) isspace s (pre ++ sp ++ [33]) [] (D ++ [47] ++ V ++ mask_text (c_mask c) ++ rest)).
    - rewrite vlen_nil. lia.
    - rewrite Hs1. unfold A1, ng. done.
    - constructor.
    - by rewrite ED.
    - simpl. lia. }
  rewrite Hi1. clear Hi1.
  assert (Hget1 : vget s (vlen A1) = d).
  { rewrite Hs1, vget_app_r, Z.sub_diag by lia. by rewrite ED. }
  assert (Hlt1 : vlen A1 < vlen s) by (rewrite Hs1, ED; vlia).
  destruct (Z.leb_spec (vlen s) (vlen A1)); [lia|]. rewrite Hget1, Hd0. cbn [orb negb].
  (* the offset *)
  rewrite (scan_offset_run (length s) s A1 D ([47] ++ V ++ mask_text (c_mask c) ++ rest) 0);
    [|done|done|done|lia|lia|done].
  change (fold_left (fun a d => a * 10 + (d - 48)) D 0) with (c_offset c).
  assert (Hget2 : vget s (vlen A1 + vlen D) = 47).
  { rewrite Hs1, app_assoc, vget_app_r by vlia.
    replace (vlen A1 + vlen D - vlen (A1 ++ D)) with 0 by vlia. done. }
  assert (Hlt2 : vlen A1 + vlen D < vlen s) by (rewrite Hs1; vlia).
  destruct (Z.leb_spec (vlen s) (vlen A1 + vlen D)); [lia|]. rewrite Hget2. cbn [orb].
  change (negb (47 =? 47)) with false. cbv match.
  (* the value *)
  set (A2 := A1 ++ D ++ [47]).
  replace (vlen A1 + vlen D + 1) with (vlen A2) by (unfold A2; vlia).
  assert (Hs2 : s = A2 ++ V ++ mask_text (c_mask c) ++ rest).
  { rewrite Hs1. unfold A2. by rewrite <- !app_assoc. }
  rewrite (scan_value_run s A2 V (c_mask c) rest); [|done|done| |done].
  2:{ destruct (c_mask c); [by destruct Hm|done]. }
  rewrite (check_lengths_ok slot (vlen A2) (vlen V) (c_mask c) (Z.of_nat n)).
  2:{ unfold vlen. fold V in Hn. rewrite Hn. lia. }
  2:{ fold V in Hn. destruct V; [done|]. simpl in Hn. lia. }
  2:{ apply vlen_nonneg. }
  2:{ destruct (c_mask c); [|done]. destruct Hm as [_ Hml]. unfold vlen. by rewrite Hml. }
  assert (Hr : value_pos (ranges_of (vlen A2) (vlen V) (c_mask c)) = vlen A2
    /\ value_end (ranges_of (vlen A2) (vlen V) (c_mask c)) = vlen A2 + vlen V)
    by (by destruct (c_mask c)). destruct Hr as [-> ->].
  rewrite (add_bytes_list n s A2 V (mask_text (c_mask c) ++ rest)
             (mask_pos (ranges_of (vlen A2) (vlen V) (c_mask c))) (c_mask c));
    [|done|done|done| |lia].
  2:{ destruct (c_mask c) as [m|]; [|done]. destruct Hm as [Hm1 Hm2]. split; [done|]. split; [done|].
      exists (A2 ++ V ++ [37]), rest. split; [|simpl; vlia]. rewrite Hs2. simpl.
      by rewrite <- !app_assoc. }
  change (text_bytes V (c_mask c)) with (c_bytes c).
  destruct (add_list _ (c_bytes c) true (ss_prog st) (start_subtree (ss_tree st))) as [P1 tree1].
  destruct (finish_subtree P1 tree1 c_and j_success j_failure) as [P2 tree2].
  destruct V as [|v V'] eqn:EV; [done|]. rewrite <- EV in *. rewrite app_nil_r. do 2 f_equal.
  rewrite Htext. unfold A2, A1. vlia.
Qed.

(** ** The clauses of a pattern *)

Lemma bytes_all_shift Q al i bs :
  bytes_all (fun i => Q (i - al)) (i + al) bs = bytes_all Q i bs.
Proof.
  revert i. induction bs as [|[v m] bs IH]; intros i; simpl; [done|].
  replace (i + al - al) with i by lia. replace (i + al + 1) with (i + 1 + al) by lia. by rewrite IH.
Qed.

Lemma c_bytes_ne c : clause_wf c -> c_bytes c <> [].
Proof.
  intros (_ & _ & _ & Hne & [n Hn] & Hm). unfold c_bytes.
  destruct (c_value c) as [|a [|b t]]; [done|simpl in Hn; lia|].
  destruct (c_mask c) as [m|]; [|done]. destruct Hm as [_ Hm]. simpl in Hm.
  by destruct m as [|a' [|b' m]].
Qed.

(** A clause that is written as the documentation says and whose offsets fit into
    the 16-bit field of an instruction. *)
Definition clause_ok (al : Z) (c : clause) : Prop := clause_wf c /\ c_offset c + al + vlen (c_bytes c) <= 65536.

(** A clause whose bytes are all tested, or all there: for it a word behind the
    end makes no difference. *)
Definition clause_plain (p : packet) (c : clause) : Prop :=
  Forall (fun b : Z * Z => b.2 <> 0) (c_bytes c) \/ c_offset c + vlen (c_bytes c) <= pkt_length p.

Section clauses.
Context (al : Z) (p : packet).
Context (Hal : 0 <= al) (Hlen : pkt_length p + al < 2147483648) (Hp : pkt_ok p).

(** A word is tested by its bytes, if it begins within the packet. *)
Lemma word_outcome e : insn_ok e -> short_output e = false ->
  checked_outcome al p e = word_all (fun i => byte_ok p (i - al)) e && (offset e <? pkt_length p + al).
Proof using Hal Hlen Hp.
  intros Hok Hs. destruct (Z.ltb_spec (offset e) (pkt_length p + al)) as [Hlt|Hge].
  { rewrite andb_true_r. apply checked_outcome_bytes; auto. }
  rewrite andb_false_r. unfold checked_outcome. assert (0 <= pkt_length p) by apply vlen_nonneg. rewrite i32_small by lia.
  rewrite (proj2 (Z.ltb_lt _ (offset e + 4))) by lia. by rewrite (proj2 (Z.ltb_ge (offset e) _)) by lia.
Qed.

(** The words of a clause answer what the clause means. *)
Lemma words_match c W :
  words_inv (c_offset c + al + vlen (c_bytes c)) W -> W <> [] ->
  (forall Q, (forall i, Q i 0 0 = true) -> forallb (word_all Q) W = bytes_all Q (c_offset c + al) (c_bytes c)) ->
  forallb (checked_outcome al p) W = bytes_all (byte_ok p) (c_offset c) (c_bytes c) && clause_reached al p c.
Proof using Hal Hlen Hp.
  intros [Hok Hbef Hend _] Hne Hall. rewrite <- (bytes_all_shift (byte_ok p) al), <- Hall by (by intros; unfold byte_ok).
  assert (Hsplit : forallb (checked_outcome al p) W
    = forallb (word_all (fun i => byte_ok p (i - al))) W && forallb (fun e => offset e <? pkt_length p + al) W).
  { clear -Hok Hal Hlen Hp. induction Hok as [|e W (He & Hs & _) _ IH]; cbn [forallb]; [done|].
    rewrite IH, word_outcome by done. by destruct (word_all _ e), (offset e <? _), (forallb (word_all _) W). }
  rewrite Hsplit. f_equal. unfold clause_reached. specialize (Hend Hne). destruct W as [|e W _] using rev_ind; [done|].
  rewrite (vback_vpush W e : vback (W ++ [e]) = e) in Hend. rewrite <- Hend in Hbef |- *. rewrite forallb_app. cbn [forallb]. rewrite andb_true_r.
  destruct (Z.ltb_spec (offset e) (pkt_length p + al)); [|apply andb_false_r]. rewrite andb_true_r. apply forallb_True, Forall_app in Hbef as [Hbef _] || apply Forall_app in Hbef as [Hbef _].
  clear -Hbef H. induction Hbef as [|x W Hx _ IH]; cbn [forallb]; [done|]. rewrite IH, andb_true_r. apply Z.ltb_lt. lia.
Qed.

Lemma clause_step slot s pre sp c rest st l0 M0 ks rs :
  s = pre ++ sp ++ clause_text c ++ rest -> clause_ok al c ->
  sp = [] \/ sp = [32] -> blank_or_end rest -> ss_pos st = vlen pre ->
  slot_inv al (checked_outcome al p) (ss_prog st) (ss_tree st) l0 M0 ks rs ->
  exists st' k, parse_clause slot s st = inr st'
    /\ ss_pos st' = vlen (pre ++ sp ++ clause_text c) /\ ss_empty st' = false
    /\ ss_errors st' = ss_errors st
    /\ slot_inv al (checked_outcome al p) (ss_prog st') (ss_tree st') l0 M0 (ks ++ [k])
         (rs ++ [clause_holds al p c]).
Proof.
  intros Hs Hc Hsp Hrest Hpos Hinv. pose proof Hc as (Hwf & Hfit).
  pose proof (digits_value_nonneg c Hwf). pose proof (vlen_nonneg (c_bytes c)).
  rewrite (parse_clause_text slot s pre sp c rest st) by (done || lia). cbv zeta.
  rewrite (si_align _ _ _ _ _ _ _ _ Hinv), i32_small by lia.
  destruct (add_list_spec (ss_prog st) (insns (ss_prog st)) (start_subtree (ss_tree st))
              (c_bytes c) (ss_prog st) (start_subtree (ss_tree st)) (c_offset c + al) [] true)
    as (W & Hst & HWne & Hall & Hnz).
  { constructor; try done.
    - by rewrite app_nil_r.
    - by rewrite app_nil_r. }
  { rewrite (si_tree _ _ _ _ _ _ _ _ Hinv). done. }
  { done. }
  { lia. }
  { done. }
  { by apply c_bytes_range. }
  { right. by apply c_bytes_ne. }
  destruct (add_list (c_offset c + al) (c_bytes c) true (ss_prog st) (start_subtree (ss_tree st)))
    as [P1 tree1]. cbn [fst snd] in Hst.
  pose proof (finish_clause al (checked_outcome al p) _ _ l0 M0 ks rs P1 tree1 _ W (c_neg c)
                (checked_test_outcome al p) Hinv Hst HWne) as Hfin.
  destruct (finish_subtree P1 tree1 c_and j_success j_failure) as [P2 tree2].
  exists (mkSlot (vlen (pre ++ sp ++ clause_text c))
            (if c_neg c then negate_subtree P2 tree2 false else P2) tree2 false (ss_errors st)),
         (pred (length W)). split; [done|]. cbn [ss_pos ss_prog ss_tree ss_empty ss_errors].
  split; [done|]. split; [done|]. split; [done|].
  unfold clause_holds. rewrite <- (words_match c W (cs_words _ _ _ _ _ _ _ Hst) HWne); [done|].
  intros Q HQ. rewrite Hall by done. done.
Qed.

Lemma blank_more cs : blank_or_end (more_text cs).
Proof. by destruct cs. Qed.

Lemma more_clauses slot s cs :
  forall fuel pre st l0 M0 ks rs,
  s = pre ++ more_text cs -> Forall (clause_ok al) cs -> ss_pos st = vlen pre ->
  ss_empty st = false -> (length (more_text cs) < fuel)%nat ->
  slot_inv al (checked_outcome al p) (ss_prog st) (ss_tree st) l0 M0 ks rs ->
  exists st' ks', parse_clauses fuel slot s st = Some st' /\ ss_empty st' = false
    /\ ss_errors st' = ss_errors st /\ (ks <> [] -> ks' <> [])
    /\ slot_inv al (checked_outcome al p) (ss_prog st') (ss_tree st') l0 M0 ks'
         (rs ++ map (clause_holds al p) cs).
Proof.
  induction cs as [|c cs IH]; intros fuel pre st l0 M0 ks rs Hs Hcs Hpos Hemp Hf Hinv.
  - exists st, ks. destruct fuel as [|fuel]; [simpl in Hf; lia|]. cbn [parse_clauses].
    rewrite Hpos, Hs. simpl. rewrite app_nil_r.
    destruct (Z.ltb_spec (vlen pre) (vlen pre)); [lia|]. by rewrite app_nil_r.
  - apply Forall_cons in Hcs as [Hc Hcs]. destruct fuel as [|fuel]; [lia|].
    cbn [parse_clauses]. change (more_text (c :: cs)) with ((32 :: clause_text c) ++ more_text cs) in *.
    rewrite length_app in Hf. simpl in Hf.
    assert (Hlt : ss_pos st < vlen s) by (rewrite Hpos, Hs; vlia).
    destruct (Z.ltb_spec (ss_pos st) (vlen s)); [|lia].
    destruct (clause_step slot s pre [32] c (more_text cs) st l0 M0 ks rs)
      as (st1 & k & -> & Hpos1 & Hemp1 & Herr1 & Hinv1);
      [done|done|by right|apply blank_more|done|done|].
    destruct (IH fuel (pre ++ [32] ++ clause_text c) st1 l0 M0 (ks ++ [k]) (rs ++ [clause_holds al p c]))
      as (st2 & ks2 & Hp2 & Hemp2 & Herr2 & Hks2 & Hinv2);
      [rewrite Hs, <- !app_assoc; done|done|done|done|lia|done|].
    exists st2, ks2. split; [done|]. split; [done|]. split; [congruence|].
    split; [intros _; apply Hks2; by destruct ks|]. cbn [map]. by rewrite <- app_assoc in Hinv2.
Qed.
End clauses.

(** ** Patterns *)

(** The state of the parser between two patterns; [outs] are their exits. *)
Record conf_inv (al : Z) (o : Insn -> bool) (P : Program) (tree : list Z) (js : list nat)
    (outs : list Z) : Prop := {
  ci_tree : tree = 1 :: marks 1 js;
  ci_len : vlen (insns P) = vlen (marks 1 js);
  ci_row : row (insns P) o 0 js (vlen (insns P)) outs;
  ci_ok : all_insns insn_ok (insns P);
  ci_align : align_offset P = al;
  ci_safe : safe_length P = u32 (-1);
  ci_out : js <> [] -> output_everything P = -1
}.

Lemma open_slot al o P tree js outs :
  conf_inv al o P tree js outs ->
  slot_inv al o P (start_subtree tree) (insns P) (marks 1 js) [] [].
Proof.
  intros [Ht Hl Hr Hok Hal Hsafe Hout]. constructor; try done.
  - rewrite Ht, app_nil_r. done.
  - apply (outer_marks 2 1 []); [by left|lia].
  - change (marks 2 []) with (@nil Z). vlia.
  - by left.
Qed.

(** The fake instruction of a pattern without clauses. *)
Lemma fake_insn al o P tree l0 M0 :
  slot_inv al o P tree l0 M0 [] [] ->
  let '(P', tree') := add_insn P tree 0 0 0 in
  slot_inv al o P' tree' l0 M0 [0%nat] [o (zero_word 0)].
Proof.
  intros [Ht Hout Hlen Hlen0 Hfr Hrow Hok Hal Hsafe Hoe].
  destruct (zero_word_spec 0 ltac:(lia)) as ((Hzok & Hzs & Hzn & Hzy) & _ & _).
  unfold add_insn. change (new_insn 0 0 0 j_failure j_success false) with (zero_word 0).
  change (marks 2 []) with (@nil Z) in Hlen. rewrite vlen_nil, Z.add_0_r in Hlen.
  constructor; simpl.
  - rewrite Ht. unfold vpush. rewrite vget_cons_0. simpl. by rewrite app_nil_r.
  - done.
  - unfold vpush. rewrite vlen_app, Hlen. done.
  - done.
  - intros i Hi. unfold vpush. rewrite vget_app_l by lia. by apply Hfr.
  - unfold vpush. pose proof (row_words o (insns P) [zero_word 0]) as Hr.
    rewrite <- Hlen. apply Hr. by apply Forall_singleton.
  - intros i Hi. unfold vpush in *. rewrite vlen_app in Hi. change (vlen [zero_word 0]) with 1 in Hi.
    destruct (Z.ltb_spec i (vlen (insns P))); [rewrite vget_app_l by lia; apply Hok; lia|].
    rewrite vget_app_r by lia. replace (i - vlen (insns P)) with 0 by lia. done.
  - done.
  - done.
  - done.
Qed.

Lemma finish_slot al o P P1 tree tree1 js outs ks rs slot :
  test_outcome o -> 0 <= slot -> conf_inv al o P tree js outs ->
  slot_inv al o P1 tree1 (insns P) (marks 1 js) ks rs -> ks <> [] ->
  let '(P2, tree2) := finish_subtree P1 tree1 c_and (- slot) j_failure in
  exists k, conf_inv al o P2 tree2 (js ++ [k])
              (outs ++ [if forallb id rs then - slot else j_failure]).
Proof.
  intros Ho Hslot [Ht Hl Hr Hok Hal Hsafe Hout] [Ht1 Hout1 Hlen1 Hlen0 Hfr1 Hrow1 Hok1 Hal1 Hsafe1 Hoe1] Hks.
  rewrite Ht1. rewrite finish_shape by (done || lia || (unfold ninsn; vlia)).
  set (k := pred (length (marks 2 ks))). exists k.
  destruct Hrow1 as [[? _]|[_ Hb]]; [done|].
  assert (Hrs : rs <> []) by (intros ->; by destruct ks as [|? [|? ?]]).
  assert (Hn : 0 < vlen (marks 2 ks)).
  { destruct ks as [|k0 ks]; [done|]. rewrite marks_cons. vlia. }
  assert (Hk : vlen (blk 1 k) = vlen (marks 2 ks)).
  { unfold blk, k. rewrite vlen_cons, vlen_replicate. unfold vlen in *. lia. }
  assert (Hc : combined (insns P1)
    (combine_subtrees c_and (- slot) j_failure (vlen (insns P1)) (block_starts (vlen (marks 1 js)) ks) (insns P1))
    o (vlen (marks 1 js)) (vlen (insns P1)) (if forallb id rs then - slot else j_failure)).
  { rewrite <- and_exit_bools by done. destruct ks as [|k0 ks]; [done|]. cbn [block_starts].
    apply combine_and; [done|lia|done|apply vlen_nonneg|lia|]. exact Hb. }
  unfold ninsn. set (l2 := combine_subtrees _ _ _ _ _ _) in *.
  pose proof (cb_len _ _ _ _ _ _ Hc) as Hl2. pose proof (cb_frame _ _ _ _ _ _ Hc) as Hf2.
  constructor; simpl.
  - by rewrite marks_app, marks_one.
  - rewrite Hl2, Hlen1, marks_app, marks_one, vlen_app, Hk. done.
  - apply (row_snoc 1 _ _ _ _ _ (vlen (insns P))).
    + apply (row_frame (insns P)); [|done]. intros i Hi. rewrite Hf2 by lia. apply Hfr1. lia.
    + lia.
    + lia.
    + case_match; [lia|done].
    + rewrite Hl, Hl2. apply Hc.
    + rewrite Hl, Hl2. apply Hc.
  - by eapply combined_ok.
  - done.
  - done.
  - intros _. by apply Hoe1.
Qed.

Section patterns.
Context (al : Z) (p : packet).
Context (Hal : 0 <= al) (Hlen : pkt_length p + al < 2147483648) (Hp : pkt_ok p).
Abbreviation o := (checked_outcome al p).

Lemma fake_matches : o (zero_word 0) = (0 <? pkt_length p + al).
Proof.
  destruct (zero_word_spec 0 ltac:(lia)) as ((Hok & Hs & _) & Ho & Hz).
  rewrite word_outcome by done. rewrite Ho. change (0 / 4 * 4) with 0.
  replace (word_all _ _) with true; [done|]. symmetry. apply word_all_true. intros k Hk. destruct (Hz k) as [-> _]. done.
Qed.

Lemma parse_slot_text slot cs P tree errs js outs :
  0 <= slot -> Forall (clause_ok al) cs -> conf_inv al o P tree js outs ->
  exists P' tree' k, parse_slot slot (slot_text cs) P tree errs = Some (P', tree', errs)
    /\ conf_inv al o P' tree' (js ++ [k])
         (outs ++ [if slot_holds al p cs then - slot else j_failure]).
Proof.
  intros Hslot Hcs Hc. pose proof (open_slot _ _ _ _ _ _ Hc) as Hs0. unfold parse_slot.
  destruct cs as [|c cs].
  - change (vlen (slot_text [])) with 1. change (vget (slot_text []) 0 =? 45) with true.
    cbn [andb Z.eqb Pos.eqb slot_text parse_clauses length ss_pos ss_empty ss_prog ss_tree ss_errors].
    change (1 <? vlen [45]) with false. cbn [ss_empty ss_prog ss_tree ss_errors].
    pose proof (fake_insn _ _ _ _ _ _ Hs0) as Hs1.
    destruct (add_insn P (start_subtree tree) 0 0 0) as [P1 tree1].
    rewrite fake_matches in Hs1.
    pose proof (finish_slot al o P P1 tree tree1 js outs [0%nat] [0 <? pkt_length p + al] slot
      (checked_test_outcome al p) Hslot Hc Hs1 ltac:(done)) as Hfin.
    destruct (finish_subtree P1 tree1 c_and (- slot) j_failure) as [P2 tree2].
    destruct Hfin as [k Hk]. exists P2, tree2, k. split; [done|]. cbn [forallb] in Hk. rewrite andb_true_r in Hk. exact Hk.
  - apply Forall_cons in Hcs as [Hc0 Hcs].
    set (s := slot_text (c :: cs)).
    assert (Hs : s = [] ++ [] ++ clause_text c ++ more_text cs) by done.
    assert (Hi : (if (vget s 0 =? 45) && (vlen s =? 1) then 1 else 0) = 0).
    { destruct Hc0 as ((Hdne & Hd & _) & _). rewrite Hs. cbn [app]. unfold clause_text.
      destruct (c_neg c); [done|]. destruct (c_digits c) as [|d D]; [done|]. cbn [app].
      rewrite vget_cons_0. apply Forall_cons in Hd as [Hd _]. unfold isdigit in Hd. bprop.
      by destruct (Z.eqb_spec d 45); [lia|]. }
    rewrite Hi. cbn [parse_clauses ss_pos].
    assert (Hlt : 0 < vlen s).
    { rewrite Hs. unfold clause_text. cbn [app]. destruct (c_neg c); vlia. }
    destruct (Z.ltb_spec 0 (vlen s)); [|lia].
    destruct (clause_step al p Hal Hlen Hp slot s [] [] c (more_text cs)
                (mkSlot 0 P (start_subtree tree) true errs) (insns P) (marks 1 js) [] [])
      as (st1 & k & -> & Hpos1 & Hemp1 & Herr1 & Hinv1);
      [done|done|by left|apply blank_more|done|done|].
    destruct (more_clauses al p Hal Hlen Hp slot s cs (length s) (clause_text c) st1
                (insns P) (marks 1 js) [k] [clause_holds al p c])
      as (st2 & ks2 & -> & Hemp2 & Herr2 & Hks2 & Hinv2); [done|done|done|done| |done|].
    { rewrite Hs. cbn [app]. rewrite length_app. unfold clause_text. rewrite !length_app. simpl. lia. }
    rewrite Hemp2.
    pose proof (finish_slot al o P (ss_prog st2) tree (ss_tree st2) js outs ks2
      (clause_holds al p c :: map (clause_holds al p) cs) slot
      (checked_test_outcome al p) Hslot Hc Hinv2 (Hks2 ltac:(done))) as Hfin.
    destruct (finish_subtree (ss_prog st2) (ss_tree st2) c_and (- slot) j_failure) as [P2 tree2].
    destruct Hfin as [k2 Hk2]. exists P2, tree2, k2. split; [by rewrite Herr2, Herr1|].
    replace (slot_holds al p (c :: cs))
      with (forallb id (clause_holds al p c :: map (clause_holds al p) cs)); [done|].
    unfold slot_holds. simpl. f_equal. clear. induction cs as [|c' cs IH]; simpl; [done|].
    by rewrite IH.
Qed.

(** The exits of the patterns from [slot] on. *)
Fixpoint slot_exits (slot : Z) (conf : list (list clause)) : list Z :=
  match conf with
  | [] => []
  | cs :: rest => (if slot_holds al p cs then - slot else j_failure) :: slot_exits (slot + 1) rest
  end.

Lemma parse_slots_text conf :
  forall slot P tree errs js outs,
  0 <= slot -> Forall (Forall (clause_ok al)) conf -> conf_inv al o P tree js outs ->
  exists P' tree' js', parse_slots slot (map slot_text conf) P tree errs = Some (P', tree', errs)
    /\ length js' = (length js + length conf)%nat
    /\ conf_inv al o P' tree' js' (outs ++ slot_exits slot conf).
Proof.
  induction conf as [|cs conf IH]; intros slot P tree errs js outs Hslot Hcs Hc.
  - exists P, tree, js. cbn [map parse_slots slot_exits]. rewrite app_nil_r. split; [done|].
    split; [simpl; lia|done].
  - apply Forall_cons in Hcs as [Hc0 Hcs]. cbn [map parse_slots slot_exits].
    destruct (parse_slot_text slot cs P tree errs js outs Hslot Hc0 Hc) as (P1 & tree1 & k & -> & Hc1).
    destruct (IH (slot + 1) P1 tree1 errs (js ++ [k]) _ ltac:(lia) Hcs Hc1)
      as (P2 & tree2 & js2 & Hp2 & Hl2 & Hc2).
    exists P2, tree2, js2. split; [done|]. rewrite length_app in Hl2. simpl in *.
    split; [lia|]. by rewrite <- app_assoc in Hc2.
Qed.

Lemma or_exit_first slot conf :
  0 <= slot -> slot + vlen conf < 2147483645 -> conf <> [] ->
  or_exit j_never j_never (slot_exits slot conf) = - first_holding al p slot conf.
Proof.
  revert slot. induction conf as [|cs conf IH]; intros slot Hslot Hb Hne'; [done|].
  rewrite vlen_cons in Hb. pose proof (vlen_nonneg conf).
  assert (Hred : redirect_jump j_never j_never (- slot) = - slot).
  { unfold redirect_jump, j_success, j_failure.
    destruct (Z.eqb_spec (- slot) (-2147483645)); [lia|].
    by destruct (Z.eqb_spec (- slot) (-2147483646)); [lia|]. }
  cbn [slot_exits first_holding]. destruct conf as [|cs' conf].
  - cbn [slot_exits or_exit first_holding]. destruct (slot_holds al p cs); [done|]. done.
  - change (slot_exits (slot + 1) (cs' :: conf)) with
      ((if slot_holds al p cs' then - (slot + 1) else j_failure) :: slot_exits (slot + 1 + 1) conf) in *.
    cbn [or_exit]. cbn [slot_exits] in IH. destruct (slot_holds al p cs).
    + assert ((- slot =? j_failure) = false) as -> by (apply Z.eqb_neq; unfold j_failure; lia). done.
    + rewrite Z.eqb_refl. apply IH; [lia|lia|done].
Qed.

Lemma Seg_exec l n pos x fuel :
  Seg l o 0 n pos x -> x <= 0 -> n - pos <= Z.of_nat fuel -> exec fuel l o pos = Some (- x).
Proof.
  intros H. revert fuel. induction H as [pos x Hps Hj Hx|pos y x Hps Hj Hy Hy0 H IH]; intros fuel Hx' Hf;
    (destruct fuel as [|fuel]; [lia|]); cbn [exec]; rewrite Hj.
  - by destruct (Z.ltb_spec 0 x); [lia|].
  - destruct (Z.ltb_spec 0 y); [|lia]. apply IH; [done|lia].
Qed.

(** The whole program before optimization. *)
Lemma parse_patterns_text conf :
  Forall (Forall (clause_ok al)) conf -> vlen conf < 2147483645 -> conf <> [] ->
  exists P, parse_patterns (new_program al) (map slot_text conf) = Some (P, [])
    /\ match_ P p = Some (first_holding al p 0 conf)
    /\ fwd (insns P) /\ all_insns insn_ok (insns P)
    /\ output_everything P = -1 /\ align_offset P = al /\ 0 < vlen (insns P)
    /\ length_checked_match P p = Some (first_holding al p 0 conf).
Proof.
  intros Hcs Hb Hcne. unfold parse_patterns.
  assert (Hc0 : conf_inv al o (new_program al) (start_subtree (init_subtree (new_program al))) [] []).
  { constructor; try done; [by left|]. intros i Hi. change (vlen (insns (new_program al))) with 0 in Hi. lia. }
  destruct (parse_slots_text conf 0 (new_program al) _ [] [] [] ltac:(lia) Hcs Hc0)
    as (P1 & tree1 & js & -> & Hjs & [Ht Hl Hr Hok Ha Hs Hout]).
  assert (Hjne : js <> []) by (intros ->; destruct conf; [done|simpl in Hjs; lia]).
  rewrite Ht, (finish_shape P1 1 [] js) by (done || lia || by left).
  cbn [fst app]. set (l2 := combine_subtrees _ _ _ _ _ _).
  assert (Hc : combined (insns P1) l2 o 0 (vlen (insns P1)) (- first_holding al p 0 conf)).
  { destruct Hr as [[? _]|[_ Hbl]]; [done|]. cbn [app] in Hbl.
    rewrite <- or_exit_first by (done || lia). unfold l2, ninsn. rewrite vlen_nil.
    destruct js as [|j js]; [done|]. cbn [block_starts] in *.
    apply combine_or; [apply checked_test_outcome|done|done|lia|lia|done]. }
  pose proof (cb_len _ _ _ _ _ _ Hc) as Hl2.
  assert (Hle : - first_holding al p 0 conf <= 0).
  { assert (forall slot conf, 0 <= slot -> 0 <= first_holding al p slot conf) as Hfm.
    { clear. intros slot conf. revert slot. induction conf as [|cs conf IH]; intros slot Hs; simpl; [done|].
      case_match; [done|]. apply IH. lia. }
    specialize (Hfm 0 conf ltac:(lia)). lia. }
  assert (Hexec : length_checked_match (with_insns P1 l2) p = Some (first_holding al p 0 conf)).
  { unfold length_checked_match. simpl. rewrite Ha.
    rewrite (Seg_exec l2 (vlen (insns P1)) 0 (- first_holding al p 0 conf)); [f_equal; lia|apply Hc|done|].
    unfold vlen in *. lia. }
  exists (with_insns P1 l2). split; [done|]. split.
  { unfold match_. rewrite Hexec. simpl. rewrite (Hout Hjne), Hs. simpl.
    change (u32 (-1)) with 4294967295.
    by destruct (Z.ltb_spec (pkt_length p) 4294967295); [|lia]. }
  split; [intros i k Hi; simpl in *; rewrite Hl2 in *; by apply Hc|].
  split; [by eapply combined_ok|]. split; [by apply Hout|]. split; [done|]. split; [|done].
  simpl. rewrite Hl2, Hl. destruct js; [done|]. rewrite marks_cons. vlia.
Qed.
End patterns.

(** ** Properties *)

(** The plain reading, for clauses that have it. *)
Lemma bytes_all_there p i bs : Forall (fun b : Z * Z => b.2 <> 0) bs -> bs <> [] -> bytes_all (byte_ok p) i bs = true -> i + vlen bs <= pkt_length p.
Proof.
  revert i. induction bs as [|[v m] bs IH]; intros i Hm Hne H; [done|]. apply Forall_cons in Hm as [Hm0 Hm]. cbn [bytes_all snd] in *.
  apply andb_true_iff in H as [H0 H]. rewrite vlen_cons. destruct bs as [|b bs].
  - unfold byte_ok in H0. rewrite (proj2 (Z.eqb_neq m 0) Hm0) in H0. cbn [orb] in H0. bprop. change (vlen (@nil (Z * Z))) with 0. lia.
  - specialize (IH (i + 1) Hm ltac:(done) H). lia.
Qed.

Lemma holds_plain al p c : 0 <= al -> clause_ok al c -> clause_plain p c -> clause_holds al p c = clause_matches p c.
Proof.
  intros Hal [Hwf _] Hpl. unfold clause_holds, clause_matches. f_equal. destruct (bytes_all _ _ _) eqn:Eb; [|done]. cbn [andb].
  apply Z.ltb_lt. pose proof (c_bytes_ne c Hwf) as Hne. pose proof (digits_value_nonneg c Hwf).
  assert (0 < vlen (c_bytes c)) by (destruct (c_bytes c); [done|]; rewrite vlen_cons; pose proof (vlen_nonneg l); lia).
  assert (Hend : c_offset c + vlen (c_bytes c) <= pkt_length p) by (destruct Hpl as [Hm|Hin]; [by apply bytes_all_there|done]).
  pose proof (Z.div_mod (c_offset c + al + vlen (c_bytes c) - 1) 4 ltac:(lia)). pose proof (Z.mod_pos_bound (c_offset c + al + vlen (c_bytes c) - 1) 4 ltac:(lia)). lia.
Qed.

Lemma holding_plain al p conf : 0 <= al -> 0 < pkt_length p -> Forall (Forall (clause_ok al)) conf -> Forall (Forall (clause_plain p)) conf ->
  forall slot, first_holding al p slot conf = first_match p slot conf.
Proof.
  intros Hal Hne Hok Hpl. induction conf as [|cs conf IH]; intros slot; cbn [first_holding first_match]; [done|].
  apply Forall_cons in Hok as [Hok0 Hok]. apply Forall_cons in Hpl as [Hpl0 Hpl]. rewrite (IH Hok Hpl).
  replace (slot_holds al p cs) with (slot_matches p cs); [done|]. unfold slot_matches.
  assert (Hall : forallb (clause_matches p) cs = forallb (clause_holds al p) cs).
  { clear -Hal Hok0 Hpl0. induction Hok0 as [|c cs Hc _ IH]; [done|]. apply Forall_cons in Hpl0 as [H1 H2]. cbn [forallb]. by rewrite IH, holds_plain. }
  rewrite Hall. destruct cs; [|done]. symmetry. apply Z.ltb_lt. lia.
Qed.


(** C40. The parsed program is well-formed: jumps go forward, every instruction
    is one the optimizer accepts, and there is at least one per pattern. *)
Theorem parse_well_formed al conf :
  0 <= al < 2147483648 -> Forall (Forall (clause_ok al)) conf -> vlen conf < 2147483645 -> conf <> [] ->
  exists P, parse_patterns (new_program al) (map slot_text conf) = Some (P, [])
    /\ fwd (insns P) /\ all_insns insn_ok (insns P) /\ 0 < ninsn P /\ align_offset P = al.
Proof.
  intros Hal Hc Hb Hcne. assert (Hp : pkt_ok (packet_of [])) by (split; [constructor|done]).
  destruct (parse_patterns_text al (packet_of []) ltac:(lia) ltac:(change (pkt_length (packet_of [])) with 0; lia) Hp conf Hc Hb Hcne)
    as (P & HP & _ & Hf & Hok & _ & Ha & Hn & _). exists P. done.
Qed.

(** The example of the documentation: [12/0806 20/0001, 12/0806 20/0002, 12/0800, -]. *)
Definition doc_clause (off value : list Z) : clause := mkClause false off value None.
Definition doc_conf : list (list clause) :=
  [[doc_clause [49; 50] [48; 56; 48; 54]; doc_clause [50; 48] [48; 48; 48; 49]];
   [doc_clause [49; 50] [48; 56; 48; 54]; doc_clause [50; 48] [48; 48; 48; 50]];
   [doc_clause [49; 50] [48; 56; 48; 48]]; []].

(** An ARP reply. *)
Definition arp_reply : packet := packet_of (replicate 12 0 ++ [8; 6; 0; 0; 0; 0; 0; 0; 0; 2]).

Lemma packet_of_ok l : forallb (fun b => (0 <=? b) && (b <? 256)) l = true -> pkt_ok (packet_of l).
Proof.
  intros H. split; [|simpl; lia]. apply Forall_forall. intros b Hb.
  rewrite forallb_forall in H. apply list_elem_of_In in Hb. specialize (H b Hb). bprop. lia.
Qed.

Definition clause_okb (al : Z) (c : clause) : bool :=
  bool_decide (c_digits c <> []) && forallb isdigit (c_digits c) && forallb isvalue (c_value c)
  && bool_decide (c_value c <> []) && bool_decide (Nat.even (length (c_value c)) = true)
  && match c_mask c with
     | None => true
     | Some m => forallb isvalue m && bool_decide (length m = length (c_value c))
     end
  && (c_offset c + al + vlen (c_bytes c) <=? 65536).

Lemma forallb_Forall_true {A} (f : A -> bool) l : forallb f l = true -> Forall (fun x => f x = true) l.
Proof.
  intros H. apply Forall_forall. intros x Hx. rewrite forallb_forall in H. apply H.
  by apply list_elem_of_In.
Qed.

Lemma clause_okb_ok al c : clause_okb al c = true -> clause_ok al c.
Proof.
  unfold clause_okb. intros H. bprop. repeat match goal with
    | H : bool_decide _ = true |- _ => apply bool_decide_eq_true in H end.
  split; [|lia].
  - split; [done|]. split; [by apply forallb_Forall_true|]. split; [by apply forallb_Forall_true|].
    split; [done|]. split.
    + match goal with H : Nat.even _ = true |- _ => apply Nat.even_spec in H as [n Hn] end. by exists n.
    + destruct (c_mask c) as [m|]; [|done]. bprop. split; [by apply forallb_Forall_true|].
      match goal with H : bool_decide _ = true |- _ => by apply bool_decide_eq_true in H end.
Qed.

Lemma conf_okb_ok al conf :
  forallb (forallb (clause_okb al)) conf = true -> Forall (Forall (clause_ok al)) conf.
Proof.
  intros H. eapply Forall_impl; [by apply forallb_Forall_true|]. intros cs Hcs.
  eapply Forall_impl; [apply (forallb_Forall_true (clause_okb al)); exact Hcs|]. intros c Hc. by apply clause_okb_ok.
Qed.

(** The reply goes to the second pattern; [4/????] does not match a packet of two
    bytes, nor [-] the empty one. *)
Definition dont_care_conf : list (list clause) := [[doc_clause [52] [63; 63; 63; 63]]; []].


Lemma parse_well_formed_witness :
  exists P, parse_patterns (new_program 0) (map slot_text doc_conf) = Some (P, []) /\ 0 < ninsn P.
Proof.
  destruct (parse_well_formed 0 doc_conf) as (P & HP & _ & _ & Hn & _).
  - lia.
  - apply conf_okb_ok. vm_compute. reflexivity.
  - vm_compute. reflexivity.
  - discriminate.
  - exists P. split; [exact HP|exact Hn].
Defined.
