(* ===== verification/OptimizeExamples.v ===== *)
(** * The optimizer on concrete configurations

    Whole runs of [configure] and [parse_program]: the program of the
    documentation, and configurations on which the optimized program does not
    send a packet to the first matching pattern. *)

From S2P Require Import Prelude Packet Insn Program Optimize ClassifierParse Patterns.
From Stdlib Require Import String Ascii.
Local Open Scope Z_scope.

(** A configuration argument. *)
Definition text (s : string) : list Z :=
  map (fun a => Z.of_nat (nat_of_ascii a)) (list_ascii_of_string s).

Definition ex_clause (neg : bool) (off value mask : string) : clause :=
  mkClause neg (text off) (text value) (Some (text mask)).

(** The program of a configuration before and after optimization. *)
Definition plain (conf : list (list Z)) : option Program :=
  option_map fst (parse_patterns (new_program 0) conf).
Definition optimized (conf : list (list Z)) : option Program :=
  option_map fst (parse_program (new_program 0) conf).

Definition run_on (P : option Program) (l : list Z) : option Z :=
  match P with Some P => match_ P (packet_of l) | None => None end.

(** The example of the documentation compiles into the program that the
    documentation shows, with safe length 22 and no unused output. *)
Theorem documented_program :
  configure 4 None (map text ["12/0806 20/0001"; "12/0806 20/0002"; "12/0800"; "-"]%string)
  = Some (configured
      (mkProgram
         [mkInsn 12 0 false 65535 1544 3 1;          (* 12/08060000%ffff0000  yes->step 1  no->step 3 *)
          mkInsn 20 0 false 65535 256 2 0;           (* 20/00010000%ffff0000  yes->[0]  no->step 2 *)
          mkInsn 20 0 false 65535 512 (-3) (-1);     (* 20/00020000%ffff0000  yes->[1]  no->[3] *)
          mkInsn 12 0 false 65535 8 (-3) (-2)]       (* 12/08000000%ffff0000  yes->[2]  no->[3] *)
         (-1) 22 0) []).
Proof. vm_compute. reflexivity. Qed.

(** ** A short packet *)

Definition short_conf : list (list clause) :=
  [[ex_clause true "1" "00" "01"; ex_clause false "2" "00" "01"]].

(** Combining tests can change the output of a short packet: a one-byte
    packet has no byte 2, so [!1/00%01 2/00%01] does not match it, and the
    program before optimization drops it; the optimized program sends it to
    output 0. *)
Theorem optimize_short_packet :
  first_match (packet_of [0]) 0 short_conf = - j_never
  /\ run_on (plain (map slot_text short_conf)) [0] = Some (- j_never)
  /\ run_on (optimized (map slot_text short_conf)) [0] = Some 0.
Proof. vm_compute. repeat split. Qed.

(** ** Two branches to one state *)

Definition double_conf : list (list clause) :=
  [[ex_clause false "2" "00" "01"; ex_clause true "1" "0101" "0101"];
   [ex_clause false "2" "00" "01"; ex_clause false "0" "00" "01"];
   [ex_clause true "0" "01" "01"; ex_clause false "2" "00" "01"];
   [ex_clause false "0" "01" "01"; ex_clause false "0" "0100" "0101";
    ex_clause false "1" "00" "01"; ex_clause true "1" "0101" "0101"]].

(** The dominator optimizer can change the output of a packet that has all
    the bytes the patterns test, when both branches of a state have been moved
    to the same state: the packet below matches the fourth pattern only, and
    the optimized program drops it. *)
Theorem optimize_double_branch :
  first_match (packet_of [1; 0; 1; 1; 1; 0; 1]) 0 double_conf = 3
  /\ run_on (plain (map slot_text double_conf)) [1; 0; 1; 1; 1; 0; 1] = Some 3
  /\ run_on (optimized (map slot_text double_conf)) [1; 0; 1; 1; 1; 0; 1] = Some (- j_never).
Proof. vm_compute. repeat split. Qed.

(** Offsets are stored in 16 bits without a check: the pattern [65536/01]
    is accepted and tests the first byte of the packet. *)
Theorem offset_wraps :
  option_map snd (parse_program (new_program 0) [text "65536/01"]) = Some []
  /\ run_on (optimized [text "65536/01"]) [1; 0; 0; 0] = Some 0.
Proof. vm_compute. repeat split. Qed.
