(* ===== verification/FilterPrim.v ===== *)
(** * Tests of the filter language

    [IPFilter::Primitive] of elements/ip/ipfilter.{hh,cc}: one test such as
    [src tcp port > 1024] as the parser collects it, [check], which completes it
    and looks for contradictions, and [compile], which adds its instructions to a
    wordwise program.  [errh] is the list of messages reported so far. *)

From S2P Require Import Prelude Packet Insn Program.
Local Open Scope word_scope.
Local Open Scope Z_scope.

(** ** Constants *)

Definition TYPE_NONE : Z := 0.
Definition TYPE_TYPE : Z := 1.
Definition TYPE_SYNTAX : Z := 2.
Definition TYPE_INT : Z := 3.
Definition TYPE_HOST : Z := 10.
Definition TYPE_PROTO : Z := 11.
Definition TYPE_IPFRAG : Z := 12.
Definition TYPE_PORT : Z := 13.
Definition TYPE_TCPOPT : Z := 14.
Definition TYPE_ETHER : Z := 15.
Definition TYPE_NET : Z := 30.
Definition TYPE_IPUNFRAG : Z := 31.
Definition TYPE_IPECT : Z := 32.
Definition TYPE_IPCE : Z := 33.
Definition TYPE_FIELD : Z := 1073741824.

Definition FIELD_PROTO_SHIFT : Z := 21.
Definition FIELD_PROTO_MASK : Z := 511 .<< 21.
Definition FIELD_OFFSET_SHIFT : Z := 5.
Definition FIELD_OFFSET_MASK : Z := 65535 .<< 5.
Definition FIELD_LENGTH_SHIFT : Z := 0.
Definition FIELD_LENGTH_MASK : Z := 31.

(** The type of a field of [len] bits at bit [off] of the header of [proto]. *)
Definition field_type (proto off len : Z) : Z := TYPE_FIELD .| (proto .<< 21) .| (off .<< 5) .| (len - 1).

Definition IP_PROTO_ICMP : Z := 1.
Definition IP_PROTO_TCP : Z := 6.
Definition IP_PROTO_UDP : Z := 17.
Definition IP_PROTO_DCCP : Z := 33.
Definition IP_PROTO_TCP_OR_UDP : Z := 256.

Definition FIELD_CSUM : Z := field_type 0 80 16.
Definition FIELD_IPLEN : Z := field_type 0 16 16.
Definition FIELD_ID : Z := field_type 0 32 16.
Definition FIELD_VERSION : Z := field_type 0 0 4.
Definition FIELD_HL : Z := field_type 0 4 4.
Definition FIELD_TOS : Z := field_type 0 8 8.
Definition FIELD_DSCP : Z := field_type 0 8 6.
Definition FIELD_TTL : Z := field_type 0 64 8.
Definition FIELD_TCP_WIN : Z := field_type IP_PROTO_TCP 112 16.
Definition FIELD_ICMP_TYPE : Z := field_type IP_PROTO_ICMP 0 8.

Definition UNKNOWN : Z := -1000.
Definition SD_SRC : Z := 1.
Definition SD_DST : Z := 2.
Definition SD_AND : Z := 3.
Definition SD_OR : Z := 4.
Definition OP_EQ : Z := 0.
Definition OP_GT : Z := 1.
Definition OP_LT : Z := 2.

Definition offset_mac : Z := 0.
Definition offset_net : Z := 256.
Definition offset_transp : Z := 512.

(** ** Data *)

(** [PrimitiveData], eight bytes: the word [u], which is also [i] and [ip4], and
    the word of [c[4]] to [c[7]]. *)
Record PrimitiveData := mkData { d_u : Z; d_hi : Z }.
Definition d_i (d : PrimitiveData) : Z := i32 (d_u d).

Record Primitive := mkPrim {
  p_type : Z;                (** [_type] *)
  p_data : Z;                (** [_data] *)
  p_op : Z;                  (** [_op] *)
  p_op_negated : bool;       (** [_op_negated] *)
  p_srcdst : Z;              (** [_srcdst] *)
  p_transp_proto : Z;        (** [_transp_proto] *)
  p_u : PrimitiveData;       (** [_u] *)
  p_mask : PrimitiveData     (** [_mask] *)
}.

(** [clear], which leaves [_u] and [_mask] as they are. *)
Definition clear (u m : PrimitiveData) : Primitive := mkPrim 0 0 OP_EQ false 0 UNKNOWN u m.

(** *** Setting fields *)

Definition with_type (p : Primitive) (x : Z) : Primitive :=
  mkPrim x (p_data p) (p_op p) (p_op_negated p) (p_srcdst p) (p_transp_proto p) (p_u p) (p_mask p).
Definition with_data (p : Primitive) (x : Z) : Primitive :=
  mkPrim (p_type p) x (p_op p) (p_op_negated p) (p_srcdst p) (p_transp_proto p) (p_u p) (p_mask p).
Definition with_op (p : Primitive) (op : Z) (neg : bool) : Primitive :=
  mkPrim (p_type p) (p_data p) op neg (p_srcdst p) (p_transp_proto p) (p_u p) (p_mask p).
Definition with_srcdst (p : Primitive) (x : Z) : Primitive :=
  mkPrim (p_type p) (p_data p) (p_op p) (p_op_negated p) x (p_transp_proto p) (p_u p) (p_mask p).
Definition with_proto (p : Primitive) (x : Z) : Primitive :=
  mkPrim (p_type p) (p_data p) (p_op p) (p_op_negated p) (p_srcdst p) x (p_u p) (p_mask p).
Definition with_u (p : Primitive) (x : PrimitiveData) : Primitive :=
  mkPrim (p_type p) (p_data p) (p_op p) (p_op_negated p) (p_srcdst p) (p_transp_proto p) x (p_mask p).
Definition with_mask (p : Primitive) (x : PrimitiveData) : Primitive :=
  mkPrim (p_type p) (p_data p) (p_op p) (p_op_negated p) (p_srcdst p) (p_transp_proto p) (p_u p) x.
(** [_u.u = u], [_mask.u = m] *)
Definition set_u (p : Primitive) (u : Z) : Primitive := with_u p (mkData u (d_hi (p_u p))).
Definition set_m (p : Primitive) (m : Z) : Primitive := with_mask p (mkData m (d_hi (p_mask p))).

(** ** Messages *)

Inductive message :=
| E_type_twice | E_srcdst_twice | E_proto_twice
| E_mask_range | E_value_range | E_bound
| E_need_field | E_partial | E_unknown_type
| E_address_missing | E_specified_twice | E_operator_or_mask | E_bad_protocol
| E_value_missing | E_bad_mask | E_value_not_supported | E_operator_not_supported | E_ip_only
| E_missing_bracket | E_bracket_syntax | E_bracket_len | E_bracket_word
| E_zero_mask | E_dangling | E_empty_term | E_bad_word
| E_missing_colon | E_missing_expression | E_missing_after_not | E_missing_after_paren | E_missing_paren
| E_empty_pattern | E_zero_outputs | E_slot_range | E_unknown_slot | E_garbage
| W_always (b : bool) | W_srcdst_ignored.

Definition is_error (m : message) : bool :=
  match m with W_always _ | W_srcdst_ignored => false | _ => true end.
Definition nerrors (ms : list message) : Z := vlen (List.filter is_error ms).

Definition set_type (p : Primitive) (x : Z) (errh : list message) : Primitive * list message :=
  (with_type p x, errh ++ if negb (p_type p =? 0) then [E_type_twice] else []).
Definition set_srcdst (p : Primitive) (x : Z) (errh : list message) : Primitive * list message :=
  (with_srcdst p x, errh ++ if negb (p_srcdst p =? 0) then [E_srcdst_twice] else []).
Definition set_transp_proto (p : Primitive) (x : Z) (errh : list message) : Primitive * list message :=
  (with_proto p x, errh ++ if negb (p_transp_proto p =? UNKNOWN) && negb (p_transp_proto p =? x) then [E_proto_twice] else []).

(** ** [set_mask] *)

(** [ffs_msb(uint32_t)]: the portable version of lib/integers.cc. *)
Definition bvals : list Z := [0; 4; 3; 3; 2; 2; 2; 2; 1; 1; 1; 1; 1; 1; 1; 1].
Definition ffs_msb (x : Z) : Z :=
  if x =? 0 then 0
  else
    let '(x, add) := if (x .& 4294901760) =? 0 then (x, 16) else (x .>> 16, 0) in
    let '(x, add) := if (x .& 65280) =? 0 then (x, add + 8) else (x .>> 8, add) in
    let '(x, add) := if (x .& 240) =? 0 then (x, add + 4) else (x .>> 4, add) in
    add + vget bvals (x .& 15).

(** A shift of a 32-bit word by [n]; by 32 it is undefined, and the processor
    takes the count modulo 32. *)
Definition shr32 (x n : Z) : Z := x .>> (n mod 32).

Definition set_mask (p : Primitive) (full_mask shift provided_mask : Z) (errh : list message)
    : Primitive * list message * bool :=
  let data := d_u (p_u p) in
  let this_mask := if negb (provided_mask =? 0) then provided_mask else full_mask in
  if negb ((this_mask .& full_mask) =? this_mask) then (p, errh ++ [E_mask_range], false)
  else if (p_op p =? OP_GT) || (p_op p =? OP_LT) then
    let is_lt := p_op p =? OP_LT in
    if (is_lt && ((data =? 0) || (this_mask <? data))) || ((p_op p =? OP_GT) && (this_mask <=? data)) then
      let will_be := if is_lt && (this_mask <? data) then negb (p_op_negated p) else p_op_negated p in
      (with_op (set_m (set_u p 0) 0) OP_EQ (negb will_be), errh ++ [W_always will_be], true)
    else
      let p := if is_lt then with_op (set_u p (u32 (d_u (p_u p) - 1))) OP_GT (negb (p_op_negated p)) else p in
      let ones := u32 ((1 .<< shift) - 1) in
      let u := u32 (d_u (p_u p) .<< shift) .| ones in
      let m := u32 (this_mask .<< shift) .| ones in
      let u :=
        if negb ((u .& m) =? u) then
          let full_mask_u := u32 (full_mask .<< shift) .| ones in
          let missing_bits := (u .& m) .^ (u .& full_mask_u) in
          let add_mask := shr32 4294967295 (ffs_msb missing_bits) in
          (u .| add_mask) .& m
        else u in
      (set_m (set_u p u) m, errh, true)
  else if full_mask <? data then (p, errh ++ [E_bound], false)
  else (set_m (set_u p (u32 (data .<< shift))) (u32 (this_mask .<< shift)), errh, true).

(** ** [check] *)

Definition is_field (type : Z) : bool := negb ((type .& TYPE_FIELD) =? 0).
Definition field_proto (type : Z) : Z := (type .& FIELD_PROTO_MASK) .>> FIELD_PROTO_SHIFT.
Definition has_field_proto (type : Z) : bool := negb ((type .& FIELD_PROTO_MASK) =? 0).

(** The [switch] over [_data]. *)
Definition infer_from (prev p : Primitive) (data : Z) (errh : list message) : Primitive * list message * bool :=
  let inherit p := if p_srcdst p =? 0 then with_srcdst p (p_srcdst prev) else p in
  if (data =? TYPE_HOST) || (data =? TYPE_NET) || (data =? TYPE_TCPOPT) || (data =? TYPE_ETHER)
  then (inherit (with_type p data), errh, true)
  else if data =? TYPE_PROTO then (with_type p TYPE_PROTO, errh, true)
  else if data =? TYPE_PORT then
    let p := inherit (with_type p TYPE_PORT) in
    (if p_transp_proto p =? UNKNOWN then with_proto p (p_transp_proto prev) else p, errh, true)
  else if data =? TYPE_NONE then
    if negb (p_transp_proto p =? UNKNOWN) then (with_type p TYPE_PROTO, errh, true) else (p, errh ++ [E_partial], false)
  else if is_field data then
    let p := with_type p data in
    (if has_field_proto data && (p_transp_proto p =? UNKNOWN) then with_proto p (field_proto data) else p, errh, true)
  else (p, errh ++ [E_unknown_type], false).

(** "set _type if it was not specified" *)
Definition infer_type (prev p : Primitive) (errh : list message) : Primitive * list message * bool :=
  if negb (p_type p =? 0) then (p, errh, true)
  else if p_data p =? TYPE_INT then
    if negb (is_field (p_type prev)) && negb (p_type prev =? TYPE_PROTO) && negb (p_type prev =? TYPE_PORT)
    then (p, errh ++ [E_need_field], false)
    else infer_from prev (with_data p (p_type prev)) (p_type prev) errh
  else infer_from prev p (p_data p) errh.

Definition header_e : Z := 101.
Definition header_i : Z := 105.

Definition set_host_mask (mask_dt : Z) (mask : PrimitiveData) (p : Primitive) (errh : list message)
    : Primitive * list message * bool :=
  if negb (mask_dt =? 0) && negb (mask_dt =? TYPE_INT) && negb (mask_dt =? TYPE_HOST) then (p, errh ++ [E_bad_mask], false)
  else (if negb (mask_dt =? 0) then set_m p (d_u mask) else p, errh, true).

Definition check_proto (mask_dt : Z) (mask : PrimitiveData) (p : Primitive) (errh : list message)
    : Primitive * list message * bool :=
  let given := (p_data p =? TYPE_INT) || (p_data p =? TYPE_PROTO) in
  if given && negb (p_transp_proto p =? UNKNOWN) && negb (p_transp_proto p =? d_i (p_u p))
  then (p, errh ++ [E_specified_twice], false)
  else
    let p := if given then with_data p TYPE_NONE else set_u p (u32 (p_transp_proto p)) in
    let p := with_proto p UNKNOWN in
    if negb (p_data p =? TYPE_NONE) || (d_i (p_u p) =? UNKNOWN) then (p, errh ++ [E_value_missing], false)
    else
      let '(p, errh, ok) :=
        if 256 <=? d_i (p_u p) then
          if negb (p_op p =? OP_EQ) || negb (mask_dt =? 0) then (p, errh ++ [E_operator_or_mask], false)
          else (set_m p 255, errh, true)
        else if negb (mask_dt =? 0) && negb (mask_dt =? TYPE_INT) then (p, errh ++ [E_bad_mask], false)
        else set_mask p 255 0 (if negb (mask_dt =? 0) then d_u mask else 0) errh in
      if negb ok then (p, errh, false)
      else (if (p_op p =? OP_EQ) && (d_u (p_mask p) =? 255) && negb (p_op_negated p)
            then with_proto p (d_i (p_u p)) else p, errh, true).

Definition check_port (mask_dt : Z) (mask : PrimitiveData) (p : Primitive) (errh : list message)
    : Primitive * list message * bool :=
  let p := if p_data p =? TYPE_INT then with_data p TYPE_PORT else p in
  let t := p_transp_proto p in
  if negb (p_data p =? TYPE_PORT) then (p, errh ++ [E_value_missing], false)
  else if negb (t =? UNKNOWN) && negb (t =? IP_PROTO_TCP) && negb (t =? IP_PROTO_UDP)
          && negb (t =? IP_PROTO_TCP_OR_UDP) && negb (t =? IP_PROTO_DCCP)
  then (p, errh ++ [E_bad_protocol], false)
  else if negb (t =? UNKNOWN) && negb (mask_dt =? 0) && negb (mask_dt =? TYPE_INT) then (p, errh ++ [E_bad_mask], false)
  else set_mask (if t =? UNKNOWN then with_proto p IP_PROTO_TCP_OR_UDP else p) 65535 0
         (if negb (mask_dt =? 0) then d_u mask else 0) errh.

Definition check_tcpopt (mask_dt : Z) (p : Primitive) (errh : list message) : Primitive * list message * bool :=
  let p := if p_data p =? TYPE_INT then with_data p TYPE_TCPOPT else p in
  if negb (p_data p =? TYPE_TCPOPT) then (p, errh ++ [E_value_missing], false)
  else
    let t := p_transp_proto p in
    let p := if t =? UNKNOWN then with_proto p IP_PROTO_TCP else p in
    if negb (t =? UNKNOWN) && negb (t =? IP_PROTO_TCP) then (p, errh ++ [E_bad_protocol], false)
    else if negb (p_op p =? OP_EQ) || p_op_negated p || negb (mask_dt =? 0) then (p, errh ++ [E_operator_or_mask], false)
    else if (d_i (p_u p) <? 0) || (255 <? d_i (p_u p)) then (p, errh ++ [E_value_range], false)
    else (set_m p (d_u (p_u p)), errh, true).

Definition check_ect (mask_dt : Z) (mask : PrimitiveData) (p : Primitive) (errh : list message)
    : Primitive * list message * bool :=
  if negb (p_data p =? TYPE_NONE) && negb (p_data p =? TYPE_INT) then (p, errh ++ [E_value_missing], false)
  else if negb (p_data p =? TYPE_NONE) && negb (mask_dt =? 0) && negb (mask_dt =? TYPE_INT)
  then (p, errh ++ [E_bad_mask], false)
  else
    let p := if p_data p =? TYPE_NONE then with_op (set_u (set_m p 3) 0) (p_op p) true else p in
    let '(p, errh, ok) := set_mask p 3 0 (if negb (mask_dt =? 0) then d_u mask else 0) errh in
    if negb ok then (p, errh, false) else (with_type p FIELD_TOS, errh, true).

Definition check_field (mask_dt : Z) (mask : PrimitiveData) (p : Primitive) (errh : list message)
    : Primitive * list message * bool :=
  if negb (p_data p =? TYPE_INT) && negb (p_data p =? p_type p) then (p, errh ++ [E_value_missing], false)
  else if negb (mask_dt =? 0) && negb (mask_dt =? TYPE_INT) && negb (mask_dt =? p_type p)
  then (p, errh ++ [E_bad_mask], false)
  else
    let nbits := ((p_type p .& FIELD_LENGTH_MASK) .>> FIELD_LENGTH_SHIFT) + 1 in
    let xmask := if nbits =? 32 then 4294967295 else (1 .<< nbits) - 1 in
    set_mask p xmask 0 (if negb (mask_dt =? 0) then d_u mask else 0) errh.

(** "check that _data and _type agree" *)
Definition check_data (header mask_dt : Z) (mask : PrimitiveData) (p : Primitive) (errh : list message)
    : Primitive * list message * bool :=
  let t := p_type p in
  let ip := header =? header_i in
  let plain := (p_data p =? TYPE_NONE) && (mask_dt =? 0) in
  if t =? TYPE_HOST then
    if negb ip || negb (p_data p =? TYPE_HOST) then (p, errh ++ [E_address_missing], false)
    else if negb (p_op p =? OP_EQ) then (p, errh ++ [E_operator_not_supported], false)
    else set_host_mask mask_dt mask (set_m p 4294967295) errh
  else if t =? TYPE_NET then
    if negb ip || negb (p_data p =? TYPE_NET) then (p, errh ++ [E_address_missing], false)
    else if negb (p_op p =? OP_EQ) then (p, errh ++ [E_operator_not_supported], false)
    else set_host_mask mask_dt mask (with_type p TYPE_HOST) errh
  else if t =? TYPE_ETHER then
    if negb (header =? header_e) || negb (p_data p =? TYPE_ETHER) then (p, errh ++ [E_address_missing], false)
    else if negb (p_op p =? OP_EQ) then (p, errh ++ [E_operator_not_supported], false)
    else
      if negb (mask_dt =? 0) && negb (mask_dt =? TYPE_ETHER) then (p, errh ++ [E_bad_mask], false)
      else (with_mask p (if negb (mask_dt =? 0) then mkData (d_u mask) (d_hi mask .& 65535) else mkData 4294967295 65535),
            errh, true)
  else if t =? TYPE_PROTO then if negb ip then (p, errh ++ [E_ip_only], false) else check_proto mask_dt mask p errh
  else if t =? TYPE_PORT then if negb ip then (p, errh ++ [E_ip_only], false) else check_port mask_dt mask p errh
  else if t =? TYPE_TCPOPT then if negb ip then (p, errh ++ [E_ip_only], false) else check_tcpopt mask_dt p errh
  else if t =? TYPE_IPECT then if negb ip then (p, errh ++ [E_ip_only], false) else check_ect mask_dt mask p errh
  else if t =? TYPE_IPCE then
    if negb ip then (p, errh ++ [E_ip_only], false)
    else if negb plain then (p, errh ++ [E_value_not_supported], false)
    else (with_type (set_u (set_m p 3) 3) FIELD_TOS, errh, true)
  else if t =? TYPE_IPFRAG then
    if negb ip then (p, errh ++ [E_ip_only], false)
    else if negb plain then (p, errh ++ [E_value_not_supported], false)
    else (set_m p 1, errh, true)
  else if t =? TYPE_IPUNFRAG then
    if negb ip then (p, errh ++ [E_ip_only], false)
    else if negb plain then (p, errh ++ [E_value_not_supported], false)
    else (with_type (set_m (with_op p (p_op p) true) 1) TYPE_IPFRAG, errh, true)
  else if is_field t then
    if negb ip then (p, errh ++ [E_ip_only], false) else check_field mask_dt mask p errh
  else (p, errh, true).

(** "fix _srcdst" *)
Definition fix_srcdst (old_srcdst : Z) (p : Primitive) (errh : list message) : Primitive * list message :=
  if (p_type p =? TYPE_HOST) || (p_type p =? TYPE_PORT) || (p_type p =? TYPE_ETHER)
  then (if p_srcdst p =? 0 then with_srcdst p SD_OR else p, errh)
  else (p, errh ++ if negb (old_srcdst =? 0) then [W_srcdst_ignored] else []).

(** [Primitive::check]; the flag says that it did not return [-1]. *)
Definition prim_check (prev : Primitive) (header mask_dt : Z) (mask : PrimitiveData) (p : Primitive) (errh : list message)
    : Primitive * list message * bool :=
  let old_srcdst := p_srcdst p in
  if p_type p <? 0 then (p, errh, false)
  else
    let '(p, errh, ok) := infer_type prev p errh in
    if negb ok then (p, errh, false)
    else
      let header :=
        if negb (header =? 0) then header else if p_data p =? TYPE_ETHER then header_e else header_i in
      let p := if (header =? header_e) && (p_type p =? TYPE_HOST) then with_type p TYPE_ETHER else p in
      let '(p, errh, ok) := check_data header mask_dt mask p errh in
      if negb ok then (p, errh, false)
      else let '(p, errh) := fix_srcdst old_srcdst p errh in (p, errh, true).

(** *** Negation *)

Definition has_transp_proto (p : Primitive) : bool := 0 <=? p_transp_proto p.
Definition negation_is_simple (p : Primitive) : bool :=
  if p_type p =? TYPE_PROTO then true
  else if 0 <=? p_transp_proto p then false
  else (p_type p =? TYPE_HOST) || is_field (p_type p) || (p_type p =? TYPE_IPFRAG).
Definition simple_negate (p : Primitive) : Primitive :=
  let neg := negb (p_op_negated p) in
  let p := with_op p (p_op p) neg in
  if (p_type p =? TYPE_PROTO) && (d_u (p_mask p) =? 255)
  then with_proto p (if neg then UNKNOWN else d_i (p_u p)) else p.

(** ** [compile]

    A program under construction with its bookkeeping vector. *)

Definition build : Type := Program * list Z.
Definition insn (b : build) (off value mask : Z) : build := add_insn b.1 b.2 off value mask.
Definition start (b : build) : build := (b.1, start_subtree b.2).
Definition finish (b : build) (op : Combiner) : build := finish_subtree b.1 b.2 op j_success j_failure.
Definition negate (b : build) (flip_short : bool) : build := (negate_subtree b.1 b.2 flip_short, b.2).

Definition add_exprs_for_proto (proto mask : Z) (b : build) : build :=
  if (mask =? 255) && (proto =? IP_PROTO_TCP_OR_UDP) then
    let b := start b in
    let b := insn b (offset_net + 8) (ntohl (IP_PROTO_TCP .<< 16)) (ntohl 16711680) in
    let b := insn b (offset_net + 8) (ntohl (IP_PROTO_UDP .<< 16)) (ntohl 16711680) in
    finish b c_or
  else if (mask =? 255) && (256 <=? proto) then b
  else insn b (offset_net + 8) (ntohl (u32 (proto .<< 16))) (ntohl (u32 (mask .<< 16))).

(** The loop of the greater-than test; [record] has the combiners of the open
    subtrees, innermost first. *)
Fixpoint gt_loop (fuel : nat) (offset shift mask u : Z) (record : list Combiner) (b : build) : option (list Combiner * build) :=
  if u <? mask then
    match fuel with
    | O => None
    | S fuel' =>
        let high_bit := (mask .>> 1) <? u in
        let first_different_bit := 33 - ffs_msb (if high_bit then not32 (u32 (u + 1)) .& mask else u) in
        let upper_mask :=
          if first_different_bit =? 33 then mask else mask .& not32 (u32 ((1 .<< first_different_bit) - 1)) in
        let upper_u := if high_bit then upper_mask else 0 in
        let b := start b in
        let b := insn b offset (ntohl (u32 (upper_u .<< shift))) (ntohl (u32 (upper_mask .<< shift))) in
        let b := if high_bit then b else negate b true in
        let mask' := mask .& not32 upper_mask in
        gt_loop fuel' offset shift mask' (u .& mask') ((if high_bit then c_and else c_or) :: record) b
    end
  else Some (record, b).

Definition add_comparison_exprs (p : Primitive) (b : build) (offset shift : Z) (swapped op_negate : bool) : option build :=
  if negb ((p_op p =? OP_EQ) || (p_op p =? OP_GT)) then None
  else
    let mask := if swapped then ntohl (d_u (p_mask p)) else d_u (p_mask p) in
    let u := if swapped then ntohl (d_u (p_u p) .& d_u (p_mask p)) else d_u (p_u p) .& d_u (p_mask p) in
    let neg b := if p_op_negated p && op_negate then negate b true else b in
    if p_op p =? OP_EQ
    then Some (neg (insn b offset (ntohl (u32 (u .<< shift))) (ntohl (u32 (mask .<< shift)))))
    else '(record, b) ← gt_loop 33 offset shift mask u [] b;
         Some (neg (fold_left finish record b)).

Definition is_src (p : Primitive) : bool := (p_srcdst p =? SD_SRC) || (p_srcdst p =? SD_AND) || (p_srcdst p =? SD_OR).
Definition is_dst (p : Primitive) : bool := (p_srcdst p =? SD_DST) || (p_srcdst p =? SD_AND) || (p_srcdst p =? SD_OR).

(** The label [finish_srcdst]. *)
Definition finish_srcdst (p : Primitive) (b : build) : build :=
  let b := finish b (if p_srcdst p =? SD_OR then c_or else c_and) in
  if p_op_negated p then negate b true else b.

(** The two comparisons of a source or destination Ethernet address: [(u, mask)]
    of the word at [first] and of the word behind it. *)
Definition ether_pair (p : Primitive) (first : Z) (w1 w2 : Z * Z) (b : build) : option build :=
  let b := start b in
  b ← add_comparison_exprs (set_m (set_u p w1.1) w1.2) b first 0 true false;
  b ← add_comparison_exprs (set_m (set_u p w2.1) w2.2) b (first + 4) 0 true false;
  Some (finish b c_and).

(** The bytes of [c] as the copies arrange them: [c[0..4)], [c[4..6)] for a source,
    [c[0..2)] in the upper half and [c[2..6)] for a destination. *)
Definition ether_src (d : PrimitiveData) : Z * Z := (d_u d, d_hi d .& 65535).
Definition ether_dst (d : PrimitiveData) : Z * Z :=
  (u32 ((d_u d .& 65535) .<< 16), (d_u d .>> 16) .| ((d_hi d .& 65535) .<< 16)).

Definition compile_ether (p : Primitive) (b : build) : option build :=
  let b := start b in
  b ← (if is_src p
       then ether_pair p (offset_mac + 8) ((ether_src (p_u p)).1, (ether_src (p_mask p)).1)
              ((ether_src (p_u p)).2, (ether_src (p_mask p)).2) b
       else Some b);
  b ← (if is_dst p
       then ether_pair p offset_mac ((ether_dst (p_u p)).1, (ether_dst (p_mask p)).1)
              ((ether_dst (p_u p)).2, (ether_dst (p_mask p)).2) b
       else Some b);
  Some (finish_srcdst p b).

(** A test of one or both of two words: hosts and ports. *)
Definition compile_srcdst (p : Primitive) (src src_shift dst dst_shift : Z) (swapped : bool) (b : build) : option build :=
  let b := start b in
  b ← (if is_src p then add_comparison_exprs p b src src_shift swapped false else Some b);
  b ← (if is_dst p then add_comparison_exprs p b dst dst_shift swapped false else Some b);
  Some (finish_srcdst p b).

Definition compile_field (p : Primitive) (b : build) : option build :=
  let t := p_type p in
  let offset := (t .& FIELD_OFFSET_MASK) .>> FIELD_OFFSET_SHIFT in
  let length := ((t .& FIELD_LENGTH_MASK) .>> FIELD_LENGTH_SHIFT) + 1 in
  let word_offset := (offset .>> 3) .& Z.lnot 3 in
  let bit_offset := offset .& 31 in
  let base_offset := if has_field_proto t then offset_transp else offset_net in
  add_comparison_exprs p b (base_offset + word_offset) (32 - (bit_offset + length)) false true.

(** "handle other types" *)
Definition compile_type (p : Primitive) (b : build) : option build :=
  let t := p_type p in
  if t =? TYPE_HOST then compile_srcdst p (offset_net + 12) 0 (offset_net + 16) 0 true b
  else if t =? TYPE_ETHER then compile_ether p b
  else if t =? TYPE_PROTO then
    if p_transp_proto p <? 256 then add_comparison_exprs p b (offset_net + 8) 16 false true else Some b
  else if t =? TYPE_IPFRAG then
    let b := insn b (offset_net + 4) 0 (ntohl 16383) in
    Some (if negb (p_op_negated p) then negate b true else b)
  else if t =? TYPE_PORT then compile_srcdst p offset_transp 16 offset_transp 0 false b
  else if t =? TYPE_TCPOPT then
    Some (insn b (offset_transp + 12) (ntohl (u32 (d_u (p_u p) .<< 16))) (ntohl (u32 (d_u (p_mask p) .<< 16))))
  else if is_field t then compile_field p b
  else None.

Definition prim_compile (p : Primitive) (b : build) : option build :=
  let b := start b in
  let b := if negb (p_transp_proto p =? UNKNOWN) then add_exprs_for_proto (p_transp_proto p) 255 b else b in
  let b :=
    if (p_type p =? TYPE_PORT) || (p_type p =? TYPE_TCPOPT) || (is_field (p_type p) && has_field_proto (p_type p))
    then insn b (offset_net + 4) 0 (ntohl 8191) else b in
  b ← compile_type p b;
  Some (finish b c_and).
