(* ===== verification/Builder.v ===== *)
(** * Building programs

    What the functions that build wordwise programs promise to each other: a
    program under construction is open at some level, and a piece of code that
    compiles a test adds one subtree at that level, whose outcome is the value of
    the test.  The rules below say what [add_insn], [start_subtree],
    [finish_subtree] and [negate_subtree] do in these terms, so that a compiler
    is verified without looking at jumps or at the bookkeeping vector. *)

From S2P Require Import Prelude Packet Insn Program Segments FilterPrim.

(** ** Chains of segments *)

Lemma Seg_trans l o a b y c pos x :
  0 < y -> b <= y < c -> a <= b -> Seg l o a b pos y -> Seg l o y c y x -> x <= 0 \/ c <= x -> Seg l o a c pos x.
Proof.
  intros Hy0 Hy Hab H1 H2 Hx. remember y as z eqn:Ez in H1 at 1.
  induction H1 as [pos z Hp Hj Hz|pos w z Hp Hj Hw Hw0 H IH].
  - subst z. eapply Seg_step; [lia|done|lia|lia|]. apply (Seg_widen _ l y c); [lia|lia|done|done].
  - eapply Seg_step; [lia|done|lia|done|]. auto.
Qed.

(** The value of a row of subtrees under each combiner. *)
Fixpoint tern (vs : list bool) : bool :=
  match vs with
  | [] => false
  | [v] => v
  | v :: ((w :: rest) as tl) =>
      match rest with
      | [] => v && w
      | _ => if v then w else tern rest
      end
  end.

Definition combine_value (op : Combiner) (vs : list bool) : bool :=
  match op with
  | c_and => forallb id vs
  | c_or => existsb id vs
  | c_ternary => tern vs
  end.

Lemma or_exit_bools success failure rs :
  rs <> [] -> or_exit success failure (map exit_of rs) = if existsb id rs then success else failure.
Proof.
  induction rs as [|r [|r' rs] IH]; intros Hne; [done|by destruct r|].
  cbn [map or_exit existsb]. cbn [map] in IH. destruct r; [done|].
  change (exit_of false =? j_failure) with true. cbn [id orb]. by apply IH.
Qed.

Lemma redirect_exit success failure v : redirect_jump success failure (exit_of v) = if v then success else failure.
Proof. by destruct v. Qed.

Lemma combined_trans l l1 l2 o s n x a b sj fj :
  l1 = redirect_subtree a b sj fj l -> s <= a <= b -> b <= n -> n <= vlen l -> 0 <= s ->
  combined l1 l2 o s n x -> combined l l2 o s n x.
Proof.
  intros -> Ha Hb Hn Hs [Hl Hf Ht Hw Hy]. destruct (redirect_spec a b sj fj l ltac:(lia) ltac:(lia)) as [Hlen Hg]. split; [congruence| | |done|done].
  - intros i Hi. rewrite Hf, Hg by lia. case_decide; [lia|done].
  - intros i Hi. destruct (Ht i Hi) as [Ht1 Ht2]. destruct (redirect_test a b sj fj l i) as [Hr1 Hr2]; [lia|lia|done|].
    split; [by etransitivity|congruence].
Qed.

(** One condition of a ternary expression, its value and the rest. *)
Lemma combine_condition l l3 o s s' s'' n v w success failure y :
  test_outcome o -> 0 <= s < s' -> s' < s'' -> s'' < n -> n <= vlen l -> success <= 0 -> failure <= 0 -> y <= 0 ->
  seg_fwd l s s' -> Seg l o s s' s (exit_of v) -> seg_fwd l s' s'' -> Seg l o s' s'' s' (exit_of w) ->
  combined (redirect_subtree s' s'' success failure (redirect_subtree s s' s' s'' l)) l3 o s'' n y ->
  combined l l3 o s n (if v then if w then success else failure else y).
Proof.
  intros Ho Hs Hs' Hs'' Hn Hsu Hfa Hy Hw1 H1 Hw2 H2 [Hl Hf Ht Hw Hseg].
  set (l1 := redirect_subtree s s' s' s'' l) in *. set (l2 := redirect_subtree s' s'' success failure l1) in *.
  destruct (redirect_spec s s' s' s'' l ltac:(lia) ltac:(lia)) as [Hlen1 Hg1]. fold l1 in Hlen1, Hg1.
  destruct (redirect_spec s' s'' success failure l1 ltac:(lia) ltac:(lia)) as [Hlen2 Hg2]. fold l2 in Hlen2, Hg2.
  assert (E1 : forall i, s <= i < s' -> vget l3 i = vget l1 i) by (intros i Hi; rewrite Hf, Hg2 by lia; case_decide; [lia|done]).
  assert (E2 : forall i, s' <= i < s'' -> vget l3 i = vget l2 i) by (intros i Hi; apply Hf; lia).
  assert (F1 : forall i, s' <= i < s'' -> vget l1 i = vget l i) by (intros i Hi; rewrite Hg1 by lia; case_decide; [lia|done]).
  assert (S1 : Seg l3 o s s' s (if v then s' else s'')).
  { apply (Seg_frame _ l1); [done|]. rewrite <- redirect_exit. apply Seg_redirect; [done|lia|lia|apply exit_of_le| |done].
    rewrite redirect_exit. destruct v; lia. }
  assert (S2 : Seg l3 o s' s'' s' (if w then success else failure)).
  { apply (Seg_frame _ l2); [done|]. rewrite <- redirect_exit. apply Seg_redirect; [done|lia|lia|apply exit_of_le| |].
    - rewrite redirect_exit. destruct w; lia.
    - by apply (Seg_frame _ l). }
  split.
  - congruence.
  - intros i Hi. rewrite Hf, Hg2, Hg1 by lia. repeat (case_decide; [lia|]). done.
  - intros i Hi. destruct (Ht i Hi) as [Ht1 Ht2]. destruct (redirect_test s' s'' success failure l1 i) as [Hr1 Hr2]; [lia|lia|done|].
    destruct (redirect_test s s' s' s'' l i) as [Hq1 Hq2]; [lia|lia|done|]. fold l1 in Hq1, Hq2. fold l2 in Hr1, Hr2.
    split; [|congruence]. etransitivity; [exact Ht1|]. by etransitivity.
  - intros i k Hi. destruct (Z.ltb_spec i s'').
    + destruct (Z.ltb_spec i s').
      * rewrite E1 by lia. eapply (redirect_fwd l s s' n); [| | | | |exact Hw1|]; lia.
      * rewrite E2 by lia. eapply (redirect_fwd l1 s' s'' n); [lia|lia|lia|lia|lia| |lia]. by apply (seg_fwd_frame l).
    + apply Hw. lia.
  - destruct v.
    + assert (Hx : (if w then success else failure) <= 0) by by destruct w.
      apply (Seg_trans _ _ s s' s'); [lia|lia|lia|done| |lia]. by apply (Seg_widen _ _ s' s''); [lia|lia|lia|].
    + apply (Seg_trans _ _ s s' s''); [lia|lia|lia|done|done|lia].
Qed.

Lemma combine_ternary o success failure n k :
  forall starts s l vs, (length starts <= k)%nat ->
  test_outcome o -> success <= 0 -> failure <= 0 -> 0 <= s -> n <= vlen l ->
  blocks l o (s :: starts) n (map exit_of vs) ->
  combined l (combine_subtrees c_ternary success failure n (s :: starts) l) o s n (if tern vs then success else failure).
Proof.
  induction k as [|k IH]; intros starts s l vs Hk Ho Hsu Hfa Hs0 Hn Hb; (destruct starts as [|s' starts];
    [destruct vs as [|v [|? ?]]; simpl in Hb; try tauto; destruct Hb as (Hs & Hx & Hw & H); cbn [tern];
     rewrite <- redirect_exit; apply combine_last; auto using redirect_jump_le; lia|]); [simpl in Hk; lia|].
  destruct vs as [|v vs]; [done|]. cbn [map blocks] in Hb. destruct Hb as (Hs & Hx & Hw & H & Hb).
  pose proof (blocks_start_lt _ _ _ _ _ _ Hb) as Hs'. destruct starts as [|s'' starts].
  - destruct vs as [|w [|? ?]]; [done| |done]. cbn [tern].
    assert (E : (if v && w then success else failure)
      = if redirect_jump s' failure (exit_of v) =? s' then if w then success else failure else redirect_jump s' failure (exit_of v)).
    { rewrite redirect_exit. destruct v; [by rewrite Z.eqb_refl|]. destruct (Z.eqb_spec failure s'); [lia|done]. }
    rewrite E. change (combine_subtrees c_ternary success failure n [s; s'] l)
      with (redirect_subtree s' n success failure (redirect_subtree s s' s' failure l)).
    destruct (redirect_spec s s' s' failure l ltac:(lia) ltac:(lia)) as [Hlen _].
    eapply combine_step; [done|lia|lia|lia|done|rewrite redirect_exit; destruct v; lia|lia|lia|exact Hw|exact H|].
    rewrite <- redirect_exit. cbn [map blocks] in Hb. destruct Hb as (_ & _ & Hw2 & H2).
    destruct (redirect_spec s s' s' failure l ltac:(lia) ltac:(lia)) as [_ Hg].
    assert (Hfr : forall i, s' <= i < n -> vget (redirect_subtree s s' s' failure l) i = vget l i)
      by (intros i Hi; rewrite Hg by lia; case_decide; [lia|done]).
    apply combine_last; [done|lia|lia|apply exit_of_le|done|done|rewrite redirect_exit; by destruct w| |].
    + by apply (seg_fwd_frame l).
    + by apply (Seg_frame _ l).
  - destruct vs as [|w vs]; [done|]. cbn [map blocks] in Hb. destruct Hb as (Hst & Hx2 & Hw2 & H2 & Hb2).
    pose proof (blocks_start_lt _ _ _ _ _ _ Hb2) as Hs''.
    assert (Hne : vs <> []) by (intros ->; by destruct starts).
    replace (tern (v :: w :: vs)) with (if v then w else tern vs) by (by destruct vs).
    replace (if if v then w else tern vs then success else failure)
      with (if v then if w then success else failure else if tern vs then success else failure) by by destruct v.
    change (combine_subtrees c_ternary success failure n (s :: s' :: s'' :: starts) l)
      with (combine_subtrees c_ternary success failure n (s'' :: starts)
              (redirect_subtree s' s'' success failure (redirect_subtree s s' s' s'' l))).
    destruct (redirect_spec s s' s' s'' l ltac:(lia) ltac:(lia)) as [Hlen1 _].
    destruct (redirect_spec s' s'' success failure (redirect_subtree s s' s' s'' l) ltac:(lia) ltac:(lia)) as [Hlen2 _].
    apply (combine_condition l _ o s s' s'' n v w success failure); try done; try lia; [by destruct (tern vs)|].
    apply IH; [simpl in Hk; lia|done|done|done|lia|lia|].
    apply blocks_redirect; [lia|lia|]. apply (blocks_frame l); [|done]. intros i Hi. simpl in Hi.
    destruct (redirect_spec s s' s' s'' l ltac:(lia) ltac:(lia)) as [_ Hg]. rewrite Hg by lia. case_decide; [lia|done].
Qed.

(** Outcomes that depend on the word that is tested only. *)
Definition word_outcome (o : Insn -> bool) : Prop :=
  forall e x, offset e = offset x -> mask e = mask x -> value e = value x -> o e = o x.

Lemma word_test_outcome o : word_outcome o -> test_outcome o.
Proof. intros Ho e x (H1 & _ & H2 & H3). by apply Ho. Qed.

Lemma wtest_word d : word_outcome (wtest d).
Proof. intros e x H1 H2 H3. unfold wtest. by rewrite H1, H2, H3. Qed.

Lemma blocks_app l o starts m starts' n xs ys :
  blocks l o starts m xs -> blocks l o (m :: starts') n ys -> blocks l o (starts ++ m :: starts') n (xs ++ ys).
Proof.
  revert xs. induction starts as [|s [|s' starts] IH]; intros [|x xs] Hb Hc; try done.
  - destruct xs; [|done]. destruct ys as [|y ys]; [by destruct starts'|]. simpl in Hb. cbn [app].
    destruct Hb as (? & ? & ? & ?). by repeat (split; [done|]).
  - cbn [blocks] in Hb. destruct Hb as (? & ? & ? & ? & Hb). cbn [app]. repeat (split; [done|]). by apply IH.
Qed.

Lemma block_starts_app L a ks ks' : block_starts a (ks ++ ks') = block_starts a ks ++ block_starts (a + vlen (marks L ks)) ks'.
Proof.
  revert a. induction ks as [|k ks IH]; intros a; simpl.
  - by rewrite Z.add_0_r.
  - rewrite IH, marks_cons, vlen_cons, vlen_app, vlen_replicate. do 3 f_equal. lia.
Qed.

Lemma row_app L l o a ks m ks' n xs ys :
  row l o a ks m xs -> m = a + vlen (marks L ks) -> row l o m ks' n ys -> row l o a (ks ++ ks') n (xs ++ ys).
Proof.
  intros H1 Hm [(-> & -> & ->)|[Hne' Hb']]; [by rewrite !app_nil_r|].
  destruct H1 as [(-> & -> & ->)|[Hne Hb]].
  - right. by split.
  - right. split; [by destruct ks|]. rewrite (block_starts_app L), <- Hm. destruct ks' as [|k' ks']; [done|].
    cbn [block_starts] in *. by apply blocks_app.
Qed.

Section builder.
Context (o : Insn -> bool).
Hypothesis Ho : word_outcome o.

(** ** The contract *)

(** A program under construction whose open subtree is at level [L]. *)
Definition opened (L : Z) (b : build) : Prop :=
  exists M, b.2 = L :: M /\ vlen (insns b.1) = vlen M /\ outer (L + 1) M /\ 0 <= L.

(** [b'] is [b] with a row of subtrees added at level [L], leaving by [xs]. *)
Record adds_as (L : Z) (M : list Z) (ks : list nat) (b b' : build) (xs : list Z) : Prop := {
  ad_level : 0 <= L;
  ad_tree : b.2 = L :: M;
  ad_len : vlen (insns b.1) = vlen M;
  ad_outer : outer (L + 1) M;
  ad_tree' : b'.2 = L :: M ++ marks L ks;
  ad_len' : vlen (insns b'.1) = vlen M + vlen (marks L ks);
  ad_frame : forall i, 0 <= i < vlen M -> vget (insns b'.1) i = vget (insns b.1) i;
  ad_row : row (insns b'.1) o (vlen M) ks (vlen (insns b'.1)) xs;
  ad_ok : forall i, vlen M <= i < vlen (insns b'.1) -> insn_ok (vget (insns b'.1) i);
  ad_align : align_offset b'.1 = align_offset b.1;
  ad_safe : safe_length b'.1 = safe_length b.1;
  ad_out : output_everything b'.1 = match ks with [] => output_everything b.1 | _ => -1 end
}.

Definition adds (L : Z) (b b' : build) (xs : list Z) : Prop := exists M ks, adds_as L M ks b b' xs.
(** Subtrees that leave by success or failure. *)
Definition computes (L : Z) (b b' : build) (vs : list bool) : Prop := adds L b b' (map exit_of vs).

Lemma adds_opened L b b' xs : adds L b b' xs -> opened L b /\ opened L b'.
Proof using.
  intros (M & ks & [H1 H2 H3 H4 H5 H6 H7 H8 H9 H10 H11 H12]). split; [by exists M|].
  exists (M ++ marks L ks). split; [done|]. split; [by rewrite vlen_app|]. split; [|done]. apply outer_marks; [done|lia].
Qed.

Lemma adds_nil L b : opened L b -> adds L b b [].
Proof using.
  intros (M & H1 & H2 & H3 & H4). exists M, []. constructor; try done.
  - by rewrite app_nil_r.
  - change (marks L []) with (@nil Z). rewrite vlen_nil. lia.
  - by left.
  - intros i Hi. lia.
Qed.

Lemma adds_app L b b1 b2 xs ys : adds L b b1 xs -> adds L b1 b2 ys -> adds L b b2 (xs ++ ys).
Proof using.
  intros (M & ks & [H1 H2 H3 H4 H5 H6 H7 H8 H9 H10 H11 H12]) (M' & ks' & [G1 G2 G3 G4 G5 G6 G7 G8 G9 G10 G11 G12]).
  assert (E : M' = M ++ marks L ks) by congruence. subst M'. rewrite vlen_app in *. pose proof (vlen_nonneg M).
  pose proof (vlen_nonneg (marks L ks)). exists M, (ks ++ ks'). constructor; try done.
  - by rewrite G5, marks_app, app_assoc.
  - rewrite G6, marks_app, vlen_app. lia.
  - intros i Hi. rewrite G7 by lia. by apply H7.
  - apply (row_app L _ _ _ _ (vlen M + vlen (marks L ks))); [|lia|done]. rewrite <- H6.
    apply (row_frame (insns b1.1)); [|done]. intros i Hi. apply G7. lia.
  - intros i Hi. destruct (Z.ltb_spec i (vlen M + vlen (marks L ks))).
    + rewrite G7 by lia. apply H9. lia.
    + apply G9; rewrite ?vlen_app; lia.
  - congruence.
  - congruence.
  - rewrite G12, H12. destruct ks, ks'; done.
Qed.

Lemma computes_app L b b1 b2 vs ws : computes L b b1 vs -> computes L b1 b2 ws -> computes L b b2 (vs ++ ws).
Proof using. unfold computes. rewrite map_app. apply adds_app. Qed.

Lemma start_opened L b : opened L b -> opened (L + 1) (start b).
Proof using.
  intros (M & H1 & H2 & H3 & H4). exists M. unfold start, start_subtree. cbn [fst snd]. rewrite H1.
  split; [done|]. split; [done|]. split; [|lia]. apply (outer_mono (L + 1)); [done|lia].
Qed.

(** ** [add_insn] *)

Definition plain_insn (off v m : Z) : Insn := new_insn off v m j_failure j_success false.

Lemma plain_insn_ok off v m : 0 <= m < 4294967296 -> insn_ok (plain_insn off v m).
Proof using.
  intros Hm. unfold insn_ok, plain_insn, new_insn. cbn [offset mask value padding].
  split; [apply Z.mod_pos_bound; lia|]. split; [done|]. split; [|done]. by rewrite <- Z.land_assoc, Z.land_diag.
Qed.

Lemma insn_computes L b off v m : opened L b -> 0 <= m < 4294967296 -> computes L b (insn b off v m) [o (plain_insn off v m)].
Proof using.
  intros (M & H1 & H2 & H3 & H4) Hm. exists M, [0%nat]. unfold insn, add_insn. fold (plain_insn off v m). set (e := plain_insn off v m).
  assert (Hl : vlen (insns b.1 ++ [e]) = vlen M + 1) by (rewrite vlen_app, H2; done).
  assert (He : vget (insns b.1 ++ [e]) (vlen M) = e) by (rewrite vget_app_r by lia; by rewrite H2, Z.sub_diag).
  constructor; cbn [fst snd insns align_offset safe_length output_everything]; unfold vpush; try done.
  - rewrite H1, vget_cons_0. rewrite marks_one. done.
  - intros i Hi. apply vget_app_l. lia.
  - right. split; [done|]. cbn [block_starts blocks map]. rewrite Hl. split; [lia|]. split; [apply exit_of_le|]. split.
    + intros i k Hi. assert (i = vlen M) as -> by lia. rewrite He. left. by destruct k.
    + apply Seg_out; [lia| |left; apply exit_of_le]. rewrite He. by destruct (o e).
  - intros i Hi. assert (i = vlen M) as -> by lia. rewrite He. by apply plain_insn_ok.
Qed.

(** ** [finish_subtree] *)

Lemma row_blocks l a ks n xs : row l o a ks n xs -> xs <> [] -> blocks l o (block_starts a ks) n xs.
Proof using. by intros [(_ & -> & _)|[_ H]]. Qed.

Lemma combine_bools op success failure n a starts l vs :
  success <= 0 -> failure <= 0 -> 0 <= a -> n <= vlen l -> vs <> [] -> blocks l o (a :: starts) n (map exit_of vs) ->
  combined l (combine_subtrees op success failure n (a :: starts) l) o a n (if combine_value op vs then success else failure).
Proof using Ho.
  intros Hs Hf Ha Hn Hvs Hb. pose proof (word_test_outcome o Ho) as Ht. destruct op; cbn [combine_value].
  - rewrite <- (and_exit_bools success failure) by done. by apply combine_and.
  - rewrite <- (or_exit_bools success failure) by done. by apply combine_or.
  - by apply (combine_ternary _ _ _ _ (length starts)).
Qed.

Lemma finish_adds L b b1 op success failure vs :
  opened L b -> computes (L + 1) (start b) b1 vs -> vs <> [] -> success <= 0 -> failure <= 0 ->
  adds L b (finish_subtree b1.1 b1.2 op success failure) [if combine_value op vs then success else failure].
Proof using Ho.
  intros (M & T1 & T2 & T3 & T4) (M' & ks & [H1 H2 H3 H4 H5 H6 H7 H8 H9 H10 H11 H12]) Hvs Hs Hf.
  assert (M' = M) as ->.
  { assert (E : (start b).2 = L + 1 :: M) by (unfold start, start_subtree; cbn [snd]; by rewrite T1). rewrite E in H2. by injection H2. }
  change ((start b).1) with (b.1) in *. assert (Hne : map exit_of vs <> []) by by destruct vs.
  pose proof (row_blocks _ _ _ _ _ H8 Hne) as Hb. assert (Hks : ks <> []) by (intros ->; by destruct vs).
  pose proof (vlen_nonneg M) as HM.
  rewrite H5, finish_shape; [|lia|done|done|by unfold ninsn; rewrite vlen_app]. replace (L + 1 - 1) with L by lia.
  assert (Hlen : 0 < vlen (marks (L + 1) ks)) by (destruct ks as [|k ks]; [done|]; rewrite marks_cons; vlia).
  set (k := pred (length (marks (L + 1) ks))).
  assert (Hk : vlen (blk L k) = vlen (marks (L + 1) ks)) by (unfold blk, k; rewrite vlen_cons, vlen_replicate; unfold vlen in *; lia).
  destruct (block_starts (vlen M) ks) as [|a starts] eqn:Est; [by destruct ks|].
  assert (a = vlen M) as -> by (destruct ks; [done|]; cbn [block_starts] in Est; congruence).
  pose proof (combine_bools op success failure (ninsn b1.1) (vlen M) starts (insns b1.1) vs Hs Hf HM ltac:(unfold ninsn; lia) Hvs Hb) as [C1 C2 C3 C4 C5].
  unfold ninsn in *. set (l2 := combine_subtrees _ _ _ _ _ _) in *.
  exists M, [k]. constructor; cbn [fst snd with_insns insns align_offset safe_length output_everything]; try done.
  - by rewrite marks_one.
  - by rewrite marks_one, Hk, C1, H6.
  - intros i Hi. rewrite C2 by lia. by apply H7.
  - right. split; [done|]. cbn [block_starts blocks]. rewrite C1. split; [lia|]. split; [by destruct (combine_value op vs)|]. by split.
  - intros i Hi. rewrite C1 in Hi. destruct (C3 i ltac:(lia)) as [(E1 & E2 & E3 & E4) Hp].
    destruct (H9 i Hi) as (O1 & O2 & O3 & O4). unfold insn_ok. by rewrite E1, E3, E4, Hp.
  - rewrite H12. by destruct ks.
Qed.

Lemma finish_computes L b b1 op vs :
  opened L b -> computes (L + 1) (start b) b1 vs -> vs <> [] -> computes L b (finish b1 op) [combine_value op vs].
Proof using Ho.
  intros Hb H1 Hvs. unfold computes. cbn [map]. pose proof (finish_adds L b b1 op j_success j_failure vs Hb H1 Hvs) as H. by apply H.
Qed.

(** ** [negate_subtree] *)

Lemma negate_jump_pos j : 0 < j -> negate_jump j = j.
Proof using.
  intros Hj. unfold negate_jump, j_failure, j_success.
  destruct (Z.eqb_spec j (-2147483646)); [lia|]. by destruct (Z.eqb_spec j (-2147483645)); [lia|].
Qed.

Lemma Seg_negated l l' a b pos x flip :
  (forall i, a <= i < b -> vget l' i = negate_insn flip (vget l i)) -> x <= 0 ->
  Seg l o a b pos x -> Seg l' o a b pos (negate_jump x).
Proof using Ho.
  intros Hg Hx H. assert (Hj : forall i, a <= i < b -> forall k, jmp (vget l' i) k = negate_jump (jmp (vget l i) k))
    by (intros i Hi k; rewrite Hg by done; by destruct k).
  assert (Hw : forall i, a <= i < b -> o (vget l' i) = o (vget l i)) by (intros i Hi; rewrite Hg by done; by apply Ho).
  induction H as [pos x Hp Hjx Hx'|pos y x Hp Hjx Hy Hy0 H IH].
  - apply Seg_out; [done| |left; by apply negate_jump_le]. by rewrite Hj, Hw, Hjx.
  - eapply Seg_step; [done| |exact Hy|done|auto]. by rewrite Hj, Hw, Hjx, negate_jump_pos.
Qed.

Lemma negate_computes L b b1 flip v : computes L b b1 [v] -> computes L b (negate b1 flip) [negb v].
Proof using Ho.
  intros (M & ks & [H1 H2 H3 H4 H5 H6 H7 H8 H9 H10 H11 H12]). pose proof (vlen_nonneg M).
  pose proof (row_blocks _ _ _ _ _ H8 ltac:(done)) as Hb. destruct ks as [|k [|k2 ks]]; [done| |destruct Hb as (_ & _ & _ & _ & Hb); by destruct ks].
  cbn [block_starts map blocks] in Hb. destruct Hb as (Hlt & Hx & Hw & Hseg). rewrite marks_one in *.
  unfold negate. rewrite H5, negate_shape by (done || (unfold ninsn; rewrite vlen_app; done)). unfold ninsn.
  destruct (vget_for_map (negate_insn flip) (vlen M) (vlen (insns b1.1)) (insns b1.1)) as [Hl Hg]; [lia|lia|].
  set (l2 := for_up _ _ _ _) in *. exists M, [k].
  assert (Hg' : forall i, vlen M <= i < vlen (insns b1.1) -> vget l2 i = negate_insn flip (vget (insns b1.1) i))
    by (intros i Hi; rewrite Hg by lia; case_decide; [done|lia]).
  constructor; cbn [fst snd with_insns insns align_offset safe_length output_everything]; rewrite ?marks_one; try done.
  - by rewrite Hl.
  - intros i Hi. rewrite Hg by lia. case_decide; [lia|by apply H7].
  - right. split; [done|]. cbn [map block_starts blocks]. rewrite Hl. split; [done|]. split; [apply exit_of_le|]. split.
    + intros i k' Hi. rewrite Hg' by done. assert (E : jmp (negate_insn flip (vget (insns b1.1) i)) k' = negate_jump (jmp (vget (insns b1.1) i) k')) by by destruct k'.
      rewrite E. destruct (Hw i k' Hi) as [Hle|Hlt']; [left; by apply negate_jump_le|right]. rewrite negate_jump_pos by lia. lia.
    + rewrite <- negate_exit. by apply (Seg_negated (insns b1.1) _ _ _ _ _ flip).
  - intros i Hi. rewrite Hl in Hi. rewrite Hg' by done. apply H9 in Hi as (O1 & O2 & O3 & O4). done.
Qed.
End builder.
