(* ===== verification/FilterCompare.v ===== *)
(** * Comparisons under a mask

    [add_comparison_exprs] of elements/ip/ipfilter.cc tests [input & MASK > U] with
    equality tests on a few bits at a time, and [set_mask] turns the relation of the
    filter language into such a comparison.  Words of the packet are taken in
    network byte order: [field d off shift] is the word at [off], shifted. *)

From S2P Require Import Prelude Packet Insn Program Words Segments FilterPrim Builder.
Local Open Scope word_scope.
Local Open Scope Z_scope.

(** ** [ffs_msb] *)

(** Halving the search: the upper [b] of [2 * b] bits are zero or not. *)
Lemma upper_bits_zero x b : 0 <= b -> 0 <= x < 2 ^ (2 * b) -> (x .& (Z.ones b .<< b)) = 0 <-> x < 2 ^ b.
Proof.
  intros Hb Hx. assert (E : x .& (Z.ones b .<< b) = (x .>> b) .<< b).
  { apply Z.bits_inj'. intros n Hn. rewrite Z.land_spec, !Z.shiftl_spec by lia. destruct (Z.ltb_spec n b).
    - rewrite !(Z.testbit_neg_r _ (n - b)) by lia. by rewrite andb_false_r.
    - rewrite Z.shiftr_spec by lia. replace (n - b + b) with n by lia. destruct (Z.ltb_spec (n - b) b).
      + by rewrite Z.ones_spec_low, andb_true_r by lia.
      + rewrite Z.ones_spec_high, andb_false_r by lia. symmetry. destruct (decide (x = 0)) as [->|]; [apply Z.bits_0|].
        apply Z.bits_above_log2; [lia|]. assert (Z.log2 x < 2 * b) by (apply Z.log2_lt_pow2; lia). lia. }
  rewrite E, Z.shiftl_mul_pow2, Z.shiftr_div_pow2 by lia. pose proof (Z.pow_pos_nonneg 2 b ltac:(lia) Hb).
  split; intros H0.
  - assert (x / 2 ^ b = 0) by nia. apply Z.div_small_iff in H1; lia.
  - rewrite Z.div_small by lia. done.
Qed.

Lemma log2_halves x b : 0 < b -> 0 < x < 2 ^ (2 * b) ->
  if (x .& (Z.ones b .<< b)) =? 0 then x < 2 ^ b else 0 < x .>> b < 2 ^ b /\ Z.log2 x = Z.log2 (x .>> b) + b.
Proof.
  intros Hb Hx. pose proof (upper_bits_zero x b ltac:(lia) ltac:(lia)) as H.
  destruct (Z.eqb_spec (x .& (Z.ones b .<< b)) 0) as [E|E]; [by apply H|].
  assert (Hx' : 2 ^ b <= x) by (destruct (Z.lt_ge_cases x (2 ^ b)); [by apply H in H0|done]).
  pose proof (Z.pow_pos_nonneg 2 b ltac:(lia) ltac:(lia)). rewrite Z.shiftr_div_pow2 by lia.
  assert (Hq : 0 < x / 2 ^ b) by (apply Z.div_str_pos; lia). split; [split; [done|]|].
  - apply Z.div_lt_upper_bound; [lia|]. rewrite <- Z.pow_add_r by lia. replace (b + b) with (2 * b) by lia. lia.
  - rewrite <- Z.shiftr_div_pow2, Z.log2_shiftr by lia.
    assert (b <= Z.log2 x) by (apply Z.log2_le_pow2; lia). lia.
Qed.

Lemma ffs_msb_spec x : 0 < x < 4294967296 -> ffs_msb x = 32 - Z.log2 x.
Proof.
  intros Hx. unfold ffs_msb. destruct (Z.eqb_spec x 0); [lia|].
  pose proof (log2_halves x 16 ltac:(lia) ltac:(lia)) as H1. change (Z.ones 16 .<< 16) with 4294901760 in H1.
  set (y := if (x .& 4294901760) =? 0 then (x, 16) else (x .>> 16, 0)) in *.
  assert (Hy : 0 < y.1 < 2 ^ 16 /\ Z.log2 x = Z.log2 y.1 + 16 - y.2) by (revert H1; unfold y; destruct ((x .& 4294901760) =? 0); cbn [fst snd]; intros H1; lia).
  clearbody y. destruct y as [x1 a1]. cbn [fst snd] in Hy. destruct Hy as [Hy ->].
  pose proof (log2_halves x1 8 ltac:(lia) ltac:(lia)) as H2. change (Z.ones 8 .<< 8) with 65280 in H2.
  set (y := if (x1 .& 65280) =? 0 then (x1, a1 + 8) else (x1 .>> 8, a1)) in *.
  assert (Hy2 : 0 < y.1 < 2 ^ 8 /\ Z.log2 x1 = Z.log2 y.1 + 8 - (y.2 - a1)) by (revert H2; unfold y; destruct ((x1 .& 65280) =? 0); cbn [fst snd]; intros H2; lia).
  clearbody y. destruct y as [x2 a2]. cbn [fst snd] in Hy2. destruct Hy2 as [Hy2 ->].
  pose proof (log2_halves x2 4 ltac:(lia) ltac:(lia)) as H3. change (Z.ones 4 .<< 4) with 240 in H3.
  set (y := if (x2 .& 240) =? 0 then (x2, a2 + 4) else (x2 .>> 4, a2)) in *.
  assert (Hy3 : 0 < y.1 < 2 ^ 4 /\ Z.log2 x2 = Z.log2 y.1 + 4 - (y.2 - a2)) by (revert H3; unfold y; destruct ((x2 .& 240) =? 0); cbn [fst snd]; intros H3; lia).
  clearbody y. destruct y as [x3 a3]. cbn [fst snd] in Hy3. destruct Hy3 as [Hy3 ->].
  assert (Hv : vget bvals (x3 .& 15) = 4 - Z.log2 x3).
  { assert (Hall : forallb (fun k => vget bvals (k .& 15) =? 4 - Z.log2 k) (seqZ 1 15) = true) by (vm_compute; reflexivity).
    rewrite forallb_forall in Hall. apply Z.eqb_eq, Hall. apply list_elem_of_In, elem_of_seqZ. lia. }
  rewrite Hv. lia.
Qed.

(** ** Testing a word *)

Definition field (d : Z -> Z) (off shift : Z) : Z := ntohl (d off) .>> shift.


Lemma submask_le u m : 0 <= m -> u .& m = u -> 0 <= u <= m.
Proof.
  intros Hm Hu. rewrite <- Hu. split; [by apply Z.land_nonneg; right|].
  assert (E : m = (u .& m) + Z.ldiff m u).
  { rewrite Z.add_nocarry_lxor.
    - apply Z.bits_inj'. intros n Hn. rewrite Z.lxor_spec, Z.land_spec, Z.ldiff_spec. by destruct (Z.testbit u n), (Z.testbit m n).
    - apply Z.bits_inj'. intros n Hn. rewrite Z.land_spec, Z.land_spec, Z.ldiff_spec, Z.bits_0. by destruct (Z.testbit u n), (Z.testbit m n). }
  assert (0 <= Z.ldiff m u) by (apply Z.ldiff_nonneg; by left). lia.
Qed.

Lemma land_bounds a m : 0 <= m -> 0 <= a .& m <= m.
Proof. intros Hm. apply submask_le; [done|]. by rewrite <- Z.land_assoc, Z.land_diag. Qed.

Lemma land_shifted w m s : 0 <= s -> w .& (m .<< s) = ((w .>> s) .& m) .<< s.
Proof.
  intros Hs. apply Z.bits_inj'. intros n Hn. rewrite Z.land_spec, !Z.shiftl_spec, Z.land_spec by lia. destruct (Z.ltb_spec n s).
  - rewrite !(Z.testbit_neg_r _ (n - s)) by lia. by rewrite andb_false_r.
  - rewrite Z.shiftr_spec by lia. by replace (n - s + s) with n by lia.
Qed.

Lemma shiftl_eqb a b s : 0 <= s -> (a .<< s =? b .<< s) = (a =? b).
Proof.
  intros Hs. rewrite !Z.shiftl_mul_pow2 by lia. pose proof (Z.pow_pos_nonneg 2 s ltac:(lia) Hs).
  destruct (Z.eqb_spec a b) as [->|Hne]; [apply Z.eqb_refl|]. apply Z.eqb_neq. nia.
Qed.

Lemma ntohl_eqb a b : 0 <= a < 4294967296 -> 0 <= b < 4294967296 -> (ntohl a =? ntohl b) = (a =? b).
Proof.
  intros Ha Hb. destruct (Z.eqb_spec a b) as [->|Hne]; [apply Z.eqb_refl|]. apply Z.eqb_neq. intros E. apply Hne.
  rewrite <- (ntohl_involutive a), <- (ntohl_involutive b) by done. by rewrite E.
Qed.

Lemma shifted_word m s : 0 <= s -> 0 <= m < 2 ^ (32 - s) -> s <= 32 -> 0 <= m .<< s < 4294967296.
Proof.
  intros Hs Hm Hs'. rewrite Z.shiftl_mul_pow2 by lia. pose proof (Z.pow_pos_nonneg 2 s ltac:(lia) Hs).
  assert (E : 4294967296 = 2 ^ (32 - s) * 2 ^ s) by (rewrite <- Z.pow_add_r by lia; by replace (32 - s + s) with 32 by lia). nia.
Qed.

Lemma word_test d off s u m :
  0 <= off < 65536 -> 0 <= d off < 4294967296 -> 0 <= s <= 32 -> 0 <= m < 2 ^ (32 - s) -> u .& m = u ->
  wtest d (plain_insn off (ntohl (u32 (u .<< s))) (ntohl (u32 (m .<< s)))) = ((field d off s .& m) =? u).
Proof.
  intros Hoff Hd Hs Hm Hu. pose proof (submask_le u m ltac:(lia) Hu) as Hle.
  pose proof (shifted_word m s ltac:(lia) Hm ltac:(lia)) as Hms. pose proof (shifted_word u s ltac:(lia) ltac:(lia) ltac:(lia)) as Hus.
  unfold wtest, plain_insn, new_insn. cbn [offset mask value]. unfold u16. rewrite (Z.mod_small off) by lia. rewrite !u32_small by done.
  rewrite <- (ntohl_involutive (d off)) at 1 by done. rewrite <- !ntohl_land by (done || apply ntohl_range).
  rewrite <- Z.shiftl_land, Hu, land_shifted by lia. unfold field. rewrite ntohl_eqb; [by apply shiftl_eqb; lia| |done].
  apply shifted_word; [lia| |lia]. pose proof (land_bounds (ntohl (d off) .>> s) m). lia.
Qed.

(** ** One step of the greater-than test *)

Lemma cut_upper m c : 0 <= m < 4294967296 -> 0 <= c <= 32 -> m .& not32 (u32 ((1 .<< c) - 1)) = m / 2 ^ c * 2 ^ c.
Proof.
  intros Hm Hc. apply Z.bits_inj'. intros n Hn. unfold not32. rewrite Z.land_spec, <- Z.shiftl_mul_pow2, <- Z.shiftr_div_pow2, Z.shiftl_spec by lia.
  assert (Ho : u32 ((1 .<< c) - 1) = Z.ones c).
  { rewrite Z.shiftl_mul_pow2, Z.mul_1_l by lia. rewrite Z.ones_equiv, Z.sub_1_r. apply u32_small. rewrite <- Z.sub_1_r.
    pose proof (Z.pow_pos_nonneg 2 c ltac:(lia) ltac:(lia)). assert (2 ^ c <= 2 ^ 32) by (apply Z.pow_le_mono_r; lia). lia. }
  rewrite Ho, u32_testbit, Z.lnot_spec by lia. destruct (Z.ltb_spec n c).
  - rewrite Z.ones_spec_low by lia. rewrite (Z.testbit_neg_r _ (n - c)) by lia. cbn [negb]. by rewrite !andb_false_r.
  - rewrite Z.ones_spec_high, Z.shiftr_spec by lia. replace (n - c + c) with n by lia. cbn [negb]. rewrite andb_true_r.
    destruct (Z.ltb_spec n 32); [by rewrite andb_true_r|]. by rewrite word_high_bits.
Qed.

Lemma cut_rest m c : 0 <= m < 4294967296 -> 0 <= c <= 32 -> m .& not32 (m / 2 ^ c * 2 ^ c) = m mod 2 ^ c.
Proof.
  intros Hm Hc. apply Z.bits_inj'. intros n Hn. unfold not32.
  rewrite Z.land_spec, u32_testbit, Z.lnot_spec, <- Z.shiftl_mul_pow2, <- Z.shiftr_div_pow2, Z.shiftl_spec by lia. destruct (Z.ltb_spec n c).
  - rewrite Z.mod_pow2_bits_low, (Z.testbit_neg_r _ (n - c)), (proj2 (Z.ltb_lt n 32)) by lia. cbn [negb andb]. apply andb_true_r.
  - rewrite Z.mod_pow2_bits_high, Z.shiftr_spec by lia. replace (n - c + c) with n by lia. destruct (Z.testbit m n); [|done]. cbn [negb]. apply andb_false_r.
Qed.

Lemma land_cut_upper x m c : 0 <= c -> x .& (m / 2 ^ c * 2 ^ c) = (x .& m) / 2 ^ c * 2 ^ c.
Proof.
  intros Hc. rewrite <- !Z.shiftl_mul_pow2, <- !Z.shiftr_div_pow2 by lia. rewrite land_shifted by done. by rewrite Z.shiftr_land.
Qed.

Lemma land_cut_rest x m c : 0 <= c -> x .& (m mod 2 ^ c) = (x .& m) mod 2 ^ c.
Proof. intros Hc. rewrite <- !Z.land_ones by done. apply Z.land_assoc. Qed.

(** The top bits of [U] are zero. *)
Lemma gt_low_step X u m c :
  0 <= c -> 0 <= X <= m -> X mod 2 ^ c <= m mod 2 ^ c -> 0 <= u < 2 ^ c ->
  existsb id (negb (X / 2 ^ c * 2 ^ c =? 0) :: if u <? m mod 2 ^ c then [u <? X mod 2 ^ c] else []) = (u <? X).
Proof.
  intros Hc HX Hm Hu. pose proof (Z.pow_pos_nonneg 2 c ltac:(lia) Hc) as Hp. pose proof (Z.div_mod X (2 ^ c) ltac:(lia)) as Hdm.
  pose proof (Z.mod_pos_bound X (2 ^ c) Hp). set (q := X / 2 ^ c) in *. assert (0 <= q) by (unfold q; apply Z.div_pos; lia).
  destruct (Z.eqb_spec (q * 2 ^ c) 0) as [E|E]; cbn [existsb negb id orb].
  - assert (HX' : X mod 2 ^ c = X) by nia. rewrite HX' in *. destruct (Z.ltb_spec u (m mod 2 ^ c)); cbn [existsb id]; [by rewrite orb_false_r|].
    symmetry. apply Z.ltb_ge. lia.
  - symmetry. apply Z.ltb_lt. assert (0 < q) by nia. nia.
Qed.

(** The top bits of [U + 1] under the mask are ones. *)
Lemma gt_high_step X u m c :
  0 <= c -> 0 <= X <= m -> X mod 2 ^ c <= m mod 2 ^ c -> 0 <= u < m -> u .& m = u -> (u + 1) / 2 ^ c = m / 2 ^ c ->
  forallb id ((X / 2 ^ c * 2 ^ c =? m / 2 ^ c * 2 ^ c)
              :: if u mod 2 ^ c <? m mod 2 ^ c then [u mod 2 ^ c <? X mod 2 ^ c] else []) = (u <? X).
Proof.
  intros Hc HX Hm Hu Hsub Hv. pose proof (Z.pow_pos_nonneg 2 c ltac:(lia) Hc) as Hp. set (p := 2 ^ c) in *.
  assert (Hum : u mod p <= m mod p).
  { rewrite <- Hsub. unfold p. rewrite <- land_cut_rest by done. apply land_bounds. apply Z.mod_pos_bound. lia. }
  pose proof (Z.div_mod X p ltac:(lia)) as EX. pose proof (Z.div_mod m p ltac:(lia)) as Em. pose proof (Z.div_mod u p ltac:(lia)) as Eu.
  pose proof (Z.div_mod (u + 1) p ltac:(lia)) as Ev. pose proof (Z.mod_pos_bound X p Hp). pose proof (Z.mod_pos_bound m p Hp).
  pose proof (Z.mod_pos_bound u p Hp). pose proof (Z.mod_pos_bound (u + 1) p Hp).
  rewrite Hv in Ev. set (qX := X / p) in *. set (qm := m / p) in *. set (qu := u / p) in *.
  assert (HqX : qX <= qm) by (apply Z.div_le_mono; lia).
  assert (Hcase : (qu = qm /\ u mod p < m mod p) \/ (qu = qm - 1 /\ u mod p = p - 1 /\ m mod p = p - 1)).
  { destruct (Z.eq_dec ((u + 1) mod p) 0) as [E|E]; [right|left].
    - assert (Eq : qu = qm - 1) by (unfold qu; symmetry; apply (Z.div_unique u p (qm - 1) (p - 1)); lia).
      assert (Er : u mod p = p - 1) by (rewrite Eq in Eu; lia). split; [done|]. split; [done|]. lia.
    - assert (Eq : qu = qm) by (unfold qu; symmetry; apply (Z.div_unique u p qm ((u + 1) mod p - 1)); lia).
      split; [done|]. rewrite Eq in Eu. lia. }
  destruct (Z.eqb_spec (qX * p) (qm * p)) as [E|E]; cbn [forallb id andb].
  - assert (qX = qm) as EqX by nia. destruct Hcase as [[E1 E2]|(E1 & E2 & E3)].
    + rewrite (proj2 (Z.ltb_lt _ _) E2). cbn [forallb id]. rewrite andb_true_r. destruct (Z.ltb_spec (u mod p) (X mod p)), (Z.ltb_spec u X); nia.
    + rewrite E2, E3, Z.ltb_irrefl. cbn [forallb]. symmetry. apply Z.ltb_lt. nia.
  - symmetry. apply Z.ltb_ge. assert (qX < qm) by nia. destruct Hcase as [[E1 E2]|(E1 & E2 & E3)]; nia.
Qed.

(** ** The loop *)

Lemma submask_cut u m c : 0 <= c -> 0 <= m -> u .& m = u -> u < 2 ^ c -> u <= m mod 2 ^ c.
Proof.
  intros Hc Hm Hu Hlt. pose proof (submask_le u m Hm Hu). rewrite <- (Z.mod_small u (2 ^ c)) by lia. rewrite <- Hu, <- land_cut_rest by done.
  apply land_bounds, Z.mod_pos_bound. lia.
Qed.

(** The missing bits of a mask all lie below [c]. *)
Lemma missing_quotient v m c :
  0 <= v -> 0 <= m < 4294967296 -> 0 <= c -> not32 v .& m < 2 ^ c -> m / 2 ^ c <= v / 2 ^ c.
Proof.
  intros Hv Hm Hc Hmiss. pose proof (Z.pow_pos_nonneg 2 c ltac:(lia) Hc). apply (submask_le (m / 2 ^ c) (v / 2 ^ c)).
  { apply Z.div_pos; lia. }
  assert (H0 : 0 <= not32 v .& m) by (apply land_bounds; lia).
  rewrite <- !Z.shiftr_div_pow2 by done. apply Z.bits_inj'. intros n Hn. rewrite Z.land_spec, !Z.shiftr_spec by done.
  destruct (Z.testbit m (n + c)) eqn:Em; [|done]. cbn [andb].
  assert (Hb : Z.testbit (not32 v .& m) (n + c) = false).
  { rewrite <- (Z.mod_small (not32 v .& m) (2 ^ c)) by lia. apply Z.mod_pow2_bits_high. lia. }
  unfold not32 in Hb. rewrite Z.land_spec, Em, andb_true_r, u32_testbit, Z.lnot_spec in Hb by lia.
  destruct (Z.ltb_spec (n + c) 32); [|rewrite word_high_bits in Em by lia; done]. cbn [andb] in Hb. by apply negb_false_iff in Hb.
Qed.

Lemma gt_cut_low u m :
  0 <= u -> m .>> 1 >= u -> u < m < 4294967296 ->
  exists c, 0 <= c <= 32 /\ u < 2 ^ c <= m
    /\ (if 33 - ffs_msb u =? 33 then m else m .& not32 (u32 ((1 .<< (33 - ffs_msb u)) - 1))) = m / 2 ^ c * 2 ^ c.
Proof.
  intros Hu Hlow Hm. rewrite Z.shiftr_div_pow2 in Hlow by lia. change (2 ^ 1) with 2 in Hlow. destruct (Z.eq_dec u 0) as [->|Hu0].
  - exists 0. change (33 - ffs_msb 0 =? 33) with true. change (2 ^ 0) with 1. rewrite Z.div_1_r. lia.
  - rewrite ffs_msb_spec by lia. assert (Hl : Z.log2 u < 32) by (apply Z.log2_lt_pow2; lia). pose proof (Z.log2_nonneg u).
    exists (Z.log2 u + 1). replace (33 - (32 - Z.log2 u)) with (Z.log2 u + 1) by lia. destruct (Z.eqb_spec (Z.log2 u + 1) 33); [lia|].
    rewrite cut_upper by lia. split; [lia|]. split; [|done]. pose proof (Z.log2_spec u ltac:(lia)) as [L1 L2].
    replace (Z.succ (Z.log2 u)) with (Z.log2 u + 1) in L2 by lia. split; [done|]. rewrite Z.pow_add_r by lia.
    Z.div_mod_to_equations; lia.
Qed.

Lemma gt_cut_high u m :
  0 <= u -> m .>> 1 < u -> u < m < 4294967296 -> u .& m = u ->
  let miss := not32 (u32 (u + 1)) .& m in
  exists c, 0 <= c <= 32 /\ 2 ^ c <= m /\ (u + 1) / 2 ^ c = m / 2 ^ c
    /\ (if 33 - ffs_msb miss =? 33 then m else m .& not32 (u32 ((1 .<< (33 - ffs_msb miss)) - 1))) = m / 2 ^ c * 2 ^ c.
Proof.
  intros Hu Hhigh Hm Hsub. rewrite (u32_small (u + 1)) by lia. set (miss := not32 (u + 1) .& m). cbv zeta.
  rewrite Z.shiftr_div_pow2 in Hhigh by lia. change (2 ^ 1) with 2 in Hhigh. pose proof (land_bounds (not32 (u + 1)) m ltac:(lia)) as Hmiss. fold miss in Hmiss.
  assert (Hq : forall c, 0 <= c -> miss < 2 ^ c -> (u + 1) / 2 ^ c = m / 2 ^ c).
  { intros c Hc Hlt. pose proof (Z.pow_pos_nonneg 2 c ltac:(lia) Hc). apply Z.le_antisymm; [apply Z.div_le_mono; lia|].
    apply missing_quotient; [lia|lia|done|exact Hlt]. }
  destruct (Z.eq_dec miss 0) as [E|Hne].
  - rewrite E. exists 0. change (33 - ffs_msb 0 =? 33) with true. split; [lia|]. split; [change (2 ^ 0) with 1; lia|]. split; [apply Hq; [lia|rewrite E; reflexivity]|].
    change (2 ^ 0) with 1. rewrite Z.div_1_r. lia.
  - rewrite ffs_msb_spec by lia. set (t := Z.log2 miss). assert (Hl : t < 32) by (apply Z.log2_lt_pow2; lia). pose proof (Z.log2_nonneg miss : 0 <= t).
    pose proof (Z.log2_spec miss ltac:(lia)) as [L1 L2]. fold t in L1, L2. replace (Z.succ t) with (t + 1) in L2 by lia.
    replace (33 - (32 - t)) with (t + 1) by lia. exists (t + 1). destruct (Z.eqb_spec (t + 1) 33); [lia|]. rewrite cut_upper by lia.
    split; [lia|]. split; [|by split; [apply Hq; lia|]].
    destruct (Z.le_gt_cases (2 ^ (t + 1)) m) as [|Hgt]; [done|exfalso].
    assert (E2 : 2 ^ (t + 1) = 2 * 2 ^ t) by (rewrite Z.pow_add_r by lia; lia). pose proof (Z.pow_pos_nonneg 2 t ltac:(lia) ltac:(lia)).
    assert (Hbit : Z.testbit (u + 1) t = false).
    { pose proof (Z.bit_log2 miss ltac:(lia)) as Hb. fold t in Hb. unfold miss, not32 in Hb.
      rewrite Z.land_spec, u32_testbit, Z.lnot_spec in Hb by lia. apply andb_true_iff in Hb as [Hb _]. apply andb_true_iff in Hb as [_ Hb]. by apply negb_true_iff in Hb. }
    assert (Hv : u + 1 < 2 ^ t).
    { rewrite Z.testbit_false in Hbit by lia. assert (Hd : 0 <= (u + 1) / 2 ^ t < 2) by (split; [apply Z.div_pos; lia|apply Z.div_lt_upper_bound; lia]).
      rewrite Z.mod_small in Hbit by lia. apply Z.div_small_iff in Hbit; lia. }
    pose proof (submask_cut u m t ltac:(lia) ltac:(lia) Hsub ltac:(lia)) as Hc.
    assert (Em : m mod 2 ^ t = m - 2 ^ t) by (symmetry; apply (Z.mod_unique m (2 ^ t) 1); lia). Z.div_mod_to_equations. lia.
Qed.

Section compare.
Variables (d : Z -> Z) (off shift : Z).
Hypotheses (Hoff : 0 <= off < 65536) (Hd : 0 <= d off < 4294967296) (Hs : 0 <= shift <= 32).
Abbreviation x := (field d off shift).

Lemma cut_test m c : 0 <= m < 2 ^ (32 - shift) -> 0 <= c ->
  forall L b, opened L b ->
  let upper := m / 2 ^ c * 2 ^ c in
  computes (wtest d) L b (insn b off (ntohl (u32 (upper .<< shift))) (ntohl (u32 (upper .<< shift))))
    [((x .& m) / 2 ^ c * 2 ^ c) =? upper]
  /\ computes (wtest d) L b (insn b off (ntohl (u32 (0 .<< shift))) (ntohl (u32 (upper .<< shift))))
    [((x .& m) / 2 ^ c * 2 ^ c) =? 0].
Proof using Hoff Hd Hs.
  intros Hm Hc L b Hb upper. pose proof (Z.pow_pos_nonneg 2 c ltac:(lia) Hc). pose proof (Z.div_mod m (2 ^ c) ltac:(lia)). pose proof (Z.mod_pos_bound m (2 ^ c) ltac:(lia)).
  assert (Hu : 0 <= upper <= m) by (unfold upper; split; [apply Z.mul_nonneg_nonneg; [apply Z.div_pos; lia|lia]|lia]).
  pose proof (insn_computes (wtest d) L b off) as Hi.
  split; rewrite <- land_cut_upper by done; fold upper; rewrite <- (word_test d off shift _ upper); try done; try lia;
    try (apply Hi; [done|apply ntohl_range]); apply Z.land_diag.
Qed.

(** What a turn adds: the test and, behind it, the rest of the comparison. *)
Lemma turn_value m u c :
  0 <= u < m -> 0 <= c -> 2 ^ c <= m -> 0 <= x .& m <= m -> u .& m = u ->
  let rest := u .& (m mod 2 ^ c) in
  let vs := if rest <? m mod 2 ^ c then [rest <? (x .& (m mod 2 ^ c))] else [] in
  (u < 2 ^ c -> existsb id (negb ((x .& m) / 2 ^ c * 2 ^ c =? 0) :: vs) = (u <? (x .& m)))
  /\ ((u + 1) / 2 ^ c = m / 2 ^ c -> forallb id (((x .& m) / 2 ^ c * 2 ^ c =? m / 2 ^ c * 2 ^ c) :: vs) = (u <? (x .& m))).
Proof using.
  intros Hu Hc Hcm HX Hsub rest vs. pose proof (Z.pow_pos_nonneg 2 c ltac:(lia) Hc).
  assert (Hr : rest = u mod 2 ^ c) by (unfold rest; by rewrite land_cut_rest, Hsub).
  assert (HXm : (x .& m) mod 2 ^ c <= m mod 2 ^ c) by (rewrite <- land_cut_rest by done; apply land_bounds, Z.mod_pos_bound; lia).
  split; intros H1; unfold vs; rewrite land_cut_rest by done; rewrite Hr.
  - rewrite (Z.mod_small u) by lia. apply gt_low_step; lia.
  - apply gt_high_step; lia.
Qed.

Lemma gt_loop_computes fuel : forall m u record L b,
  opened L b -> 0 <= m < 2 ^ (32 - shift) -> m < 2 ^ Z.of_nat fuel -> u .& m = u ->
  exists cs b', gt_loop fuel off shift m u record b = Some (cs ++ record, b')
    /\ computes (wtest d) L b (fold_left finish cs b') (if u <? m then [u <? (x .& m)] else []).
Proof using Hoff Hd Hs.
  pose proof (wtest_word d) as Ho. induction fuel as [|fuel IH]; intros m u record L b Hb Hm Hf Hsub; pose proof (submask_le u m ltac:(lia) Hsub) as Hle.
  - change (2 ^ Z.of_nat 0) with 1 in Hf. exists [], b. cbn [gt_loop]. destruct (Z.ltb_spec u m); [lia|]. split; [done|]. by apply adds_nil.
  - cbn [gt_loop]. destruct (Z.ltb_spec u m) as [Hlt|Hge].
    2:{ exists [], b. split; [done|]. by apply adds_nil. }
    assert (Hm32 : 2 ^ (32 - shift) <= 2 ^ 32) by (apply Z.pow_le_mono_r; lia). change (2 ^ 32) with 4294967296 in Hm32.
    pose proof (start_opened L b Hb) as Hsb. pose proof (land_bounds x m ltac:(lia)) as HX.
    assert (Hnext : forall c, 0 <= c <= 32 -> 2 ^ c <= m -> forall b3 t L', computes (wtest d) L' (start b) b3 [t] ->
      exists cs b', gt_loop fuel off shift (m mod 2 ^ c) (u .& (m mod 2 ^ c)) ((if (m .>> 1) <? u then c_and else c_or) :: record) b3
          = Some (cs ++ (if (m .>> 1) <? u then c_and else c_or) :: record, b')
        /\ computes (wtest d) L' (start b) (fold_left finish cs b')
             (t :: let r := u .& (m mod 2 ^ c) in if r <? m mod 2 ^ c then [r <? (x .& (m mod 2 ^ c))] else [])).
    { intros c Hc Hcm b3 t L' Ht. pose proof (Z.pow_pos_nonneg 2 c ltac:(lia) ltac:(lia)). pose proof (Z.mod_pos_bound m (2 ^ c) ltac:(lia)).
      destruct (adds_opened _ _ _ _ _ Ht) as [_ Hb3].
      assert (Hfc : m mod 2 ^ c < 2 ^ Z.of_nat fuel).
      { assert (c < Z.of_nat (S fuel)) by (apply (Z.pow_lt_mono_r_iff 2); lia). assert (2 ^ c <= 2 ^ Z.of_nat fuel) by (apply Z.pow_le_mono_r; lia). lia. }
      destruct (IH (m mod 2 ^ c) (u .& (m mod 2 ^ c)) ((if (m .>> 1) <? u then c_and else c_or) :: record) L' b3 Hb3) as (cs & b' & E & Hc'); [lia|done|..].
      { by rewrite <- Z.land_assoc, Z.land_diag. }
      exists cs, b'. split; [done|]. exact (computes_app _ _ _ _ _ _ _ Ht Hc'). }
    destruct (Z.ltb_spec (m .>> 1) u) as [Hh|Hh].
    + destruct (gt_cut_high u m ltac:(lia) Hh ltac:(lia) Hsub) as (c & Hc & Hcm & Hq & ->). rewrite cut_rest by lia.
      destruct (cut_test m c Hm ltac:(lia) _ _ Hsb) as [Ht _].
      destruct (Hnext c Hc Hcm _ _ _ Ht) as (cs & b' & -> & Hcs). exists (cs ++ [c_and]), b'. rewrite <- app_assoc. split; [done|].
      rewrite fold_left_app. cbn [fold_left].
      pose proof (finish_computes _ Ho L b _ c_and _ Hb Hcs ltac:(done)) as Hfin. cbn [combine_value] in Hfin.
      by rewrite (proj2 (turn_value m u c ltac:(lia) ltac:(lia) Hcm HX Hsub) Hq) in Hfin.
    + destruct (gt_cut_low u m ltac:(lia) ltac:(lia) ltac:(lia)) as (c & Hc & [Huc Hcm] & ->). rewrite cut_rest by lia.
      destruct (cut_test m c Hm ltac:(lia) _ _ Hsb) as [_ Ht]. apply (negate_computes _ Ho _ _ _ true) in Ht.
      destruct (Hnext c Hc Hcm _ _ _ Ht) as (cs & b' & -> & Hcs). exists (cs ++ [c_or]), b'. rewrite <- app_assoc. split; [done|].
      rewrite fold_left_app. cbn [fold_left].
      pose proof (finish_computes _ Ho L b _ c_or _ Hb Hcs ltac:(done)) as Hfin. cbn [combine_value] in Hfin.
      by rewrite (proj1 (turn_value m u c ltac:(lia) ltac:(lia) Hcm HX Hsub) Huc) in Hfin.
Qed.
End compare.

(** ** The relation of a test *)

(** The comparison that the program makes on a field. *)
Definition comparison (op u mask x : Z) : bool :=
  if op =? OP_EQ then (x .& mask) =? (u .& mask) else (u .& mask) <? (x .& mask).

(** The relation of the filter language, on a field under a mask. *)
Definition relation (op data mask x : Z) : bool :=
  if op =? OP_EQ then (x .& mask) =? (data .& mask)
  else if op =? OP_GT then data <? (x .& mask) else (x .& mask) <? data.

Lemma swapped_and (swapped : bool) u m :
  0 <= u < 4294967296 -> 0 <= m < 4294967296 ->
  (if swapped then ntohl (u .& m) else u .& m) = (if swapped then ntohl u else u) .& (if swapped then ntohl m else m).
Proof. intros Hu Hm. destruct swapped; [by apply ntohl_land|done]. Qed.

(** [add_comparison_exprs] compiles its comparison, negated if it is asked to. *)
Lemma comparison_computes d p L b off shift (swapped op_negate : bool) :
  0 <= off < 65536 -> 0 <= d off < 4294967296 -> 0 <= shift <= 32 -> opened L b ->
  let u := if swapped then ntohl (d_u (p_u p)) else d_u (p_u p) in
  let m := if swapped then ntohl (d_u (p_mask p)) else d_u (p_mask p) in
  0 <= d_u (p_u p) < 4294967296 -> 0 <= d_u (p_mask p) < 4294967296 -> m < 2 ^ (32 - shift) ->
  p_op p = OP_EQ \/ (p_op p = OP_GT /\ u .& m < m) ->
  exists b', add_comparison_exprs p b off shift swapped op_negate = Some b'
    /\ computes (wtest d) L b b' [xorb (comparison (p_op p) u m (field d off shift)) (p_op_negated p && op_negate)].
Proof.
  intros Hoff Hd Hs Hb u m Hu0 Hm0 Hm Hop. pose proof (wtest_word d) as Ho.
  assert (Hm' : 0 <= m < 2 ^ (32 - shift)) by (split; [unfold m; destruct swapped; [apply ntohl_range|lia]|done]).
  unfold add_comparison_exprs. rewrite swapped_and by done. fold u m.
  assert (Hneg : forall b' v, computes (wtest d) L b b' [v] ->
    computes (wtest d) L b (if p_op_negated p && op_negate then negate b' true else b') [xorb v (p_op_negated p && op_negate)]).
  { intros b' v Hv. destruct (p_op_negated p && op_negate); [|by rewrite xorb_false_r]. rewrite xorb_true_r. by apply negate_computes. }
  assert (Hsub : (u .& m) .& m = u .& m) by (by rewrite <- Z.land_assoc, Z.land_diag). unfold comparison. destruct Hop as [->|[-> Hlt]].
  - change (OP_EQ =? OP_EQ) with true. cbn [orb negb]. eexists. split; [reflexivity|]. apply Hneg.
    rewrite <- (word_test d off shift (u .& m) m) by done. apply insn_computes; [done|apply ntohl_range].
  - change (OP_GT =? OP_EQ) with false. change (OP_GT =? OP_GT) with true. cbn [orb negb].
    assert (Hm32 : 2 ^ (32 - shift) <= 2 ^ 32) by (apply Z.pow_le_mono_r; lia).
    destruct (gt_loop_computes d off shift Hoff Hd Hs 33 m (u .& m) [] L b Hb Hm' ltac:(change (2 ^ Z.of_nat 33) with (2 * 2 ^ 32); lia) Hsub) as (cs & b' & -> & Hc).
    rewrite app_nil_r. cbn [mbind option_bind]. eexists. split; [reflexivity|]. rewrite (proj2 (Z.ltb_lt _ _) Hlt) in Hc. by apply Hneg.
Qed.

(** *** Rounding the bound down to the mask *)

(** All bits above [t] of the bound are in the mask, bit [t] is not: the bits below
    [t] do not matter. *)
Lemma rounded_bound u m t X x :
  0 <= t -> 0 <= u -> 0 <= m -> X = x .& m -> Z.testbit u t = true -> Z.testbit m t = false ->
  (forall n, t < n -> Z.testbit u n = true -> Z.testbit m n = true) ->
  ((u .| Z.ones t) .& m <? X) = (u <? X).
Proof.
  intros Ht Hu Hm HX But Bmt Habove. set (u' := (u .| Z.ones t) .& m). pose proof (land_bounds x m Hm) as HXm. rewrite <- HX in HXm.
  pose proof (Z.pow_pos_nonneg 2 t ltac:(lia) Ht) as Hp. assert (E2 : 2 ^ (t + 1) = 2 * 2 ^ t) by (rewrite Z.pow_add_r by lia; lia).
  assert (Hq : u' / 2 ^ (t + 1) = u / 2 ^ (t + 1)).
  { rewrite <- !Z.shiftr_div_pow2 by lia. apply Z.bits_inj'. intros n Hn. rewrite !Z.shiftr_spec by lia. unfold u'.
    rewrite Z.land_spec, Z.lor_spec, Z.ones_spec_high, orb_false_r by lia. specialize (Habove (n + (t + 1)) ltac:(lia)).
    destruct (Z.testbit u (n + (t + 1))); [by rewrite Habove|done]. }
  assert (Hlow : forall w, Z.testbit w t = false -> w mod 2 ^ (t + 1) = w mod 2 ^ t).
  { intros w Hw. apply Z.bits_inj'. intros n Hn. destruct (Z.lt_trichotomy n t) as [|[->|]].
    - by rewrite !Z.mod_pow2_bits_low by lia.
    - by rewrite Z.mod_pow2_bits_low, Z.mod_pow2_bits_high by lia.
    - by rewrite !Z.mod_pow2_bits_high by lia. }
  assert (BXt : Z.testbit X t = false) by (rewrite HX, Z.land_spec, Bmt; apply andb_false_r).
  assert (Bu't : Z.testbit u' t = false) by (unfold u'; rewrite Z.land_spec, Bmt; apply andb_false_r).
  assert (Hu't : u' mod 2 ^ t = m mod 2 ^ t).
  { apply Z.bits_inj'. intros n Hn. destruct (Z.ltb_spec n t); [|by rewrite !Z.mod_pow2_bits_high by lia].
    rewrite !Z.mod_pow2_bits_low by lia. unfold u'. rewrite Z.land_spec, Z.lor_spec, Z.ones_spec_low, orb_true_r by lia. done. }
  assert (HXt : X mod 2 ^ t <= m mod 2 ^ t) by (rewrite HX, <- land_cut_rest by done; apply land_bounds, Z.mod_pos_bound; lia).
  assert (Hut : 2 ^ t <= u mod 2 ^ (t + 1)).
  { assert (Hb : Z.testbit (u mod 2 ^ (t + 1)) t = true) by (by rewrite Z.mod_pow2_bits_low by lia).
    destruct (Z.le_gt_cases (2 ^ t) (u mod 2 ^ (t + 1))) as [|Hlt]; [done|].
    rewrite <- (Z.mod_small (u mod 2 ^ (t + 1)) (2 ^ t)), Z.mod_pow2_bits_high in Hb; [done|lia|]. split; [apply Z.mod_pos_bound|]; lia. }
  pose proof (Z.div_mod u' (2 ^ (t + 1)) ltac:(lia)) as D1. pose proof (Z.div_mod u (2 ^ (t + 1)) ltac:(lia)) as D2.
  pose proof (Z.div_mod X (2 ^ (t + 1)) ltac:(lia)) as D3. rewrite Hlow, Hu't, Hq in D1 by done. rewrite (Hlow X) in D3 by done.
  pose proof (Z.mod_pos_bound u (2 ^ (t + 1)) ltac:(lia)). pose proof (Z.mod_pos_bound X (2 ^ t) Hp). pose proof (Z.mod_pos_bound m (2 ^ t) Hp).
  set (qX := X / 2 ^ (t + 1)) in *. set (qu := u / 2 ^ (t + 1)) in *.
  destruct (Z.lt_trichotomy qu qX) as [Hlt|[Heq|Hgt]].
  - rewrite (proj2 (Z.ltb_lt u' X)), (proj2 (Z.ltb_lt u X)) by nia. done.
  - rewrite (proj2 (Z.ltb_ge u' X)), (proj2 (Z.ltb_ge u X)) by nia. done.
  - rewrite (proj2 (Z.ltb_ge u' X)), (proj2 (Z.ltb_ge u X)) by nia. done.
Qed.

(** The bound, below the mask, of which the mask leaves out the lowest bit only:
    [set_mask] rounds it with a shift of a 32-bit word by 32, which C++ leaves
    undefined. *)
Definition bad_bound (op data mask : Z) : bool :=
  let u := if op =? OP_LT then data - 1 else data in
  negb (op =? OP_EQ) && (u <? mask) && (Z.ldiff u mask =? 1).

Definition given_mask (full provided : Z) : Z := if provided =? 0 then full else provided.

Lemma missing_bits u m k :
  0 <= u < 2 ^ k -> 0 <= k -> (u .& m) .^ (u .& (2 ^ k - 1)) = Z.ldiff u m.
Proof.
  intros Hu Hk. rewrite Z.sub_1_r, <- Z.ones_equiv, (Z.land_ones u k), (Z.mod_small u) by lia.
  apply Z.bits_inj'. intros n Hn. rewrite Z.lxor_spec, Z.land_spec, Z.ldiff_spec. by destruct (Z.testbit u n), (Z.testbit m n).
Qed.

Lemma ldiff_zero u m : Z.ldiff u m = 0 -> u .& m = u.
Proof.
  intros E. apply Z.bits_inj'. intros n Hn. assert (Hz : Z.testbit (Z.ldiff u m) n = false) by (by rewrite E, Z.bits_0).
  rewrite Z.ldiff_spec in Hz. rewrite Z.land_spec. by destruct (Z.testbit u n), (Z.testbit m n).
Qed.

(** The bound that the processor makes of a bad one: the shift by 32 is one by 0. *)
Lemma round_down_bad u m k :
  0 <= u < m -> m < 2 ^ k -> 0 <= k <= 32 -> Z.ldiff u m = 1 ->
  (if negb ((u .& m) =? u) then (u .| shr32 4294967295 (ffs_msb ((u .& m) .^ (u .& (2 ^ k - 1))))) .& m else u) = m.
Proof.
  intros Hu Hm Hk Hbad. assert (Hk32 : 2 ^ k <= 2 ^ 32) by (apply Z.pow_le_mono_r; lia). change (2 ^ 32) with 4294967296 in Hk32.
  destruct (Z.eqb_spec (u .& m) u) as [E|E]; cbn [negb].
  { exfalso. rewrite <- E, Z.ldiff_land, <- Z.land_assoc, Z.land_lnot_diag, Z.land_0_r in Hbad. done. }
  rewrite missing_bits, Hbad by lia. change (shr32 4294967295 (ffs_msb 1)) with (Z.ones 32).
  apply Z.bits_inj'. intros n Hn. rewrite Z.land_spec, Z.lor_spec. destruct (Z.ltb_spec n 32).
  - by rewrite Z.ones_spec_low, orb_true_r by lia.
  - rewrite (word_high_bits m) by lia. apply andb_false_r.
Qed.

Lemma round_down u m k x :
  0 <= u < m -> m < 2 ^ k -> 0 <= k <= 32 -> Z.ldiff u m <> 1 ->
  let miss := (u .& m) .^ (u .& (2 ^ k - 1)) in
  let u' := if negb ((u .& m) =? u) then (u .| shr32 4294967295 (ffs_msb miss)) .& m else u in
  0 <= u' /\ u' .& m = u' /\ (u' <? x .& m) = (u <? x .& m).
Proof.
  intros Hu Hm Hk Hbad miss u'. assert (Hk32 : 2 ^ k <= 2 ^ 32) by (apply Z.pow_le_mono_r; lia). change (2 ^ 32) with 4294967296 in Hk32.
  unfold u'. clear u'. destruct (Z.eqb_spec (u .& m) u) as [E|E]; cbn [negb]; [split; [lia|done]|].
  assert (Emiss : miss = Z.ldiff u m) by (apply missing_bits; lia).
  assert (Hmiss : 0 < miss <= u).
  { rewrite Emiss. assert (Hn : Z.ldiff u m = u .& Z.lnot m) by (apply Z.bits_inj'; intros n Hn; rewrite Z.ldiff_spec, Z.land_spec, Z.lnot_spec by lia; done).
    assert (Hd : 0 <= Z.ldiff u m) by (apply Z.ldiff_nonneg; left; lia).
    split; [|rewrite Hn, Z.land_comm; apply land_bounds; lia].
    destruct (Z.eq_dec (Z.ldiff u m) 0) as [E0%ldiff_zero|]; [done|lia]. }
  rewrite ffs_msb_spec by lia. set (t := Z.log2 miss). assert (Ht1 : 1 <= t).
  { unfold t. change 1 with (Z.log2 2). apply Z.log2_le_mono. rewrite <- Emiss in Hbad. lia. }
  assert (Ht2 : t < 32) by (apply Z.log2_lt_pow2; lia).
  assert (Hones : shr32 4294967295 (32 - t) = Z.ones t).
  { unfold shr32. rewrite Z.mod_small by lia. change 4294967295 with (Z.ones 32). rewrite Z.shiftr_div_pow2, Z.ones_div_pow2 by lia. f_equal. lia. }
  rewrite Hones. split; [apply land_bounds; lia|]. split; [by rewrite <- Z.land_assoc, Z.land_diag|].
  assert (Hbit : forall n, Z.testbit miss n = Z.testbit u n && negb (Z.testbit m n)) by (intros n; rewrite Emiss; apply Z.ldiff_spec).
  pose proof (Z.bit_log2 miss ltac:(lia)) as Hb. fold t in Hb. rewrite Hbit in Hb. apply andb_true_iff in Hb as [Hb1 Hb2]. apply negb_true_iff in Hb2.
  apply (rounded_bound u m t _ x); try done; try lia. intros n Hn Hun. destruct (Z.testbit m n) eqn:Em; [done|].
  assert (Hmn : Z.testbit miss n = false) by (apply Z.bits_above_log2; [lia|exact Hn]). by rewrite Hbit, Hun, Em in Hmn.
Qed.

(** The parts of [set_mask] for a well-formed call. *)
Lemma set_mask_eq p k provided errh :
  0 <= k <= 32 -> 0 <= d_u (p_u p) < 4294967296 -> 0 <= provided ->
  let full := 2 ^ k - 1 in let m := given_mask full provided in let data := d_u (p_u p) in
  p_op p = OP_EQ -> set_mask p full 0 provided errh =
    if negb ((m .& full) =? m) then (p, errh ++ [E_mask_range], false)
    else if full <? data then (p, errh ++ [E_bound], false) else (set_m (set_u p data) m, errh, true).
Proof.
  intros Hk Hu Hpr full m data Hop. unfold set_mask. rewrite Hop. change (OP_EQ =? OP_GT) with false. change (OP_EQ =? OP_LT) with false. cbn [orb].
  assert (E : (if negb (provided =? 0) then provided else full) = m) by (unfold m, given_mask; by destruct (provided =? 0)). rewrite E.
  destruct (Z.eqb_spec (m .& full) m) as [Em|]; [|done]. cbn [negb]. fold data. destruct (full <? data); [done|].
  assert (Hf : 0 <= full < 4294967296).
  { unfold full. pose proof (Z.pow_pos_nonneg 2 k ltac:(lia) ltac:(lia)). assert (2 ^ k <= 2 ^ 32) by (apply Z.pow_le_mono_r; lia). lia. }
  pose proof (submask_le m full ltac:(lia) Em). rewrite !Z.shiftl_0_r, !u32_small by lia. done.
Qed.

Lemma nerrors_app a b : nerrors (a ++ b) = nerrors a + nerrors b.
Proof. unfold nerrors. by rewrite List.filter_app, vlen_app. Qed.

Lemma full_range k : 0 <= k <= 32 -> 0 <= 2 ^ k - 1 < 4294967296.
Proof. intros Hk. pose proof (Z.pow_pos_nonneg 2 k ltac:(lia) ltac:(lia)). assert (2 ^ k <= 2 ^ 32) by (apply Z.pow_le_mono_r; lia). lia. Qed.

Lemma set_mask_rel p k provided errh :
  0 <= k <= 32 -> 0 <= d_u (p_u p) < 4294967296 -> 0 <= provided ->
  let full := 2 ^ k - 1 in let m := given_mask full provided in let data := d_u (p_u p) in
  let lt := p_op p =? OP_LT in
  p_op p = OP_GT \/ p_op p = OP_LT -> m .& full = m ->
  set_mask p full 0 provided errh =
    if if lt then (data =? 0) || (m <? data) else m <=? data then
      let will_be := xorb (lt && (m <? data)) (p_op_negated p) in
      (with_op (set_m (set_u p 0) 0) OP_EQ (negb will_be), errh ++ [W_always will_be], true)
    else
      let u := if lt then data - 1 else data in
      let u' := if negb ((u .& m) =? u) then (u .| shr32 4294967295 (ffs_msb ((u .& m) .^ (u .& full)))) .& m else u in
      (set_m (set_u (with_op p OP_GT (xorb lt (p_op_negated p))) u') m, errh, true).
Proof.
  intros Hk Hu Hpr full m data lt Hop Em. unfold set_mask. fold data.
  assert (E : (if negb (provided =? 0) then provided else full) = m) by (unfold m, given_mask; by destruct (provided =? 0)).
  rewrite E, Em, Z.eqb_refl. cbn [negb]. pose proof (full_range k Hk) as Hf. fold full in Hf. pose proof (submask_le m full ltac:(lia) Em) as Hm.
  rewrite !Z.shiftl_0_r. change (u32 (1 - 1)) with 0. rewrite !Z.lor_0_r, (u32_small m), (u32_small full) by lia.
  destruct Hop as [Hop|Hop]; unfold lt; rewrite !Hop.
  - change (OP_GT =? OP_GT) with true. change (OP_GT =? OP_LT) with false. cbn [orb andb xorb].
    assert (Ep : with_op p OP_GT (p_op_negated p) = p) by (rewrite <- Hop; by destruct p).
    destruct (m <=? data); [by destruct (p_op_negated p)|]. fold data. rewrite (u32_small data) by lia.
    replace (match p_op_negated p with true => true | false => false end) with (p_op_negated p) by by destruct (p_op_negated p). by rewrite Ep.
  - change (OP_LT =? OP_GT) with false. change (OP_LT =? OP_LT) with true. cbn [orb andb]. rewrite orb_false_r.
    destruct ((data =? 0) || (m <? data)) eqn:Ea.
    + destruct (m <? data); by destruct (p_op_negated p).
    + apply orb_false_iff in Ea as [E0 _]. apply Z.eqb_neq in E0. cbn [p_u set_u with_u with_op d_u]. fold data.
      rewrite !(u32_small (data - 1)) by lia. replace (xorb true (p_op_negated p)) with (negb (p_op_negated p)) by by destruct (p_op_negated p). done.
Qed.

(** A relation that is the same for all fields has no bad bound. *)
Lemma bad_bound_constant op data m : op = OP_GT \/ op = OP_LT ->
  (if op =? OP_LT then (data =? 0) || (m <? data) else m <=? data) = true -> bad_bound op data m = false.
Proof.
  intros Hop Ha. unfold bad_bound. destruct Hop as [-> | ->].
  - change (OP_GT =? OP_LT) with false in *. apply Z.leb_le in Ha. rewrite (proj2 (Z.ltb_ge _ _)) by lia. by rewrite andb_false_r.
  - change (OP_LT =? OP_LT) with true in *. cbn [negb andb]. apply orb_true_iff in Ha as [-> %Z.eqb_eq|Ha%Z.ltb_lt].
    + change (0 - 1) with (-1). rewrite Z.ldiff_m1_l. destruct (Z.ltb_spec (-1) m); [|done]. apply Z.eqb_neq. unfold Z.lnot. lia.
    + rewrite (proj2 (Z.ltb_ge _ _)) by lia. done.
Qed.

Lemma set_mask_relation (p : Primitive) (k provided : Z) (errh : list message) :
  0 < k <= 32 -> 0 <= d_u (p_u p) < 4294967296 -> 0 <= provided ->
  p_op p = OP_EQ \/ p_op p = OP_GT \/ p_op p = OP_LT ->
  let full := 2 ^ k - 1 in let m := given_mask full provided in let data := d_u (p_u p) in
  let '(p', errh', ok) := set_mask p full 0 provided errh in
  ok = ((m .& full) =? m) && negb ((p_op p =? OP_EQ) && (full <? data))
  /\ if ok : bool
     then (if bad_bound (p_op p) data m
           then p_op p' = OP_GT /\ d_u (p_u p') = m /\ d_u (p_mask p') = m /\ p_op_negated p' = xorb (p_op p =? OP_LT) (p_op_negated p)
           else (forall x, xorb (comparison (p_op p') (d_u (p_u p')) (d_u (p_mask p')) x) (p_op_negated p')
                           = xorb (relation (p_op p) data m x) (p_op_negated p))
                /\ (p_op p' = OP_EQ \/ (p_op p' = OP_GT /\ d_u (p_u p') .& d_u (p_mask p') < d_u (p_mask p'))))
       /\ 0 <= d_u (p_u p') < 4294967296 /\ 0 <= d_u (p_mask p') <= full
       /\ nerrors errh' = nerrors errh
       /\ p' = set_m (set_u (with_op p (p_op p') (p_op_negated p')) (d_u (p_u p'))) (d_u (p_mask p'))
     else p' = p /\ nerrors errh < nerrors errh'.
Proof.
  intros Hk Hu Hpr Hop full m data. pose proof (full_range k ltac:(lia)) as Hf. fold full in Hf.
  destruct Hop as [Hop|Hop].
  - pose proof (set_mask_eq p k provided errh ltac:(lia) Hu Hpr Hop) as E. cbv zeta in E. fold full m data in E. rewrite E. clear E.
    rewrite Hop. change (OP_EQ =? OP_EQ) with true. cbn [andb].
    destruct (Z.eqb_spec (m .& full) m) as [Em|]; cbn [negb andb]; [|split; [done|]; split; [done|]; rewrite nerrors_app; change (nerrors [E_mask_range]) with 1; lia].
    destruct (Z.ltb_spec full data); [split; [done|]; split; [done|]; rewrite nerrors_app; change (nerrors [E_bound]) with 1; lia|].
    pose proof (submask_le m full ltac:(lia) Em). split; [done|].
    cbn [p_op p_u p_mask p_op_negated set_m set_u with_u with_mask d_u]. rewrite Hop. split; [split; [done|by left]|]. split; [lia|]. split; [lia|]. split; [done|]. rewrite <- Hop. by destruct p.
  - destruct (Z.eqb_spec (m .& full) m) as [Em|Em].
    2:{ assert (E : set_mask p full 0 provided errh = (p, errh ++ [E_mask_range], false)).
        { unfold set_mask. replace (if negb (provided =? 0) then provided else full) with m by (unfold m, given_mask; by destruct (provided =? 0)).
          by rewrite (proj2 (Z.eqb_neq _ _) Em). }
        rewrite E. split; [done|]. split; [done|]. rewrite nerrors_app. change (nerrors [E_mask_range]) with 1. lia. }
    pose proof (submask_le m full ltac:(lia) Em) as Hm.
    pose proof (set_mask_rel p k provided errh ltac:(lia) Hu Hpr Hop Em) as E. cbv zeta in E. fold full m data in E. rewrite E. clear E.
    assert (Heq : (p_op p =? OP_EQ) = false) by (by destruct Hop as [-> | ->]). rewrite Heq. cbn [andb negb].
    assert (Hr : forall x, relation (p_op p) data m x = if p_op p =? OP_LT then (x .& m) <? data else data <? (x .& m)).
    { intros x. unfold relation. by destruct Hop as [-> | ->]. }
    set (lt := p_op p =? OP_LT) in *.
    destruct (if lt then (data =? 0) || (m <? data) else m <=? data) eqn:Ea.
    + split; [done|]. cbn [p_op p_u p_mask p_op_negated set_m set_u with_u with_mask with_op d_u]. rewrite (bad_bound_constant _ _ _ Hop Ea). split; [split; [|by left]|].
      * intros x. rewrite Hr. unfold comparison. change (OP_EQ =? OP_EQ) with true. cbv match. rewrite !Z.land_0_r. change (0 =? 0) with true.
        pose proof (land_bounds x m ltac:(lia)). rewrite xorb_true_l, negb_involutive. f_equal. destruct lt; cbn [andb].
        -- destruct (Z.ltb_spec m data); [symmetry; apply Z.ltb_lt; lia|]. rewrite orb_false_r in Ea. apply Z.eqb_eq in Ea. symmetry. apply Z.ltb_ge. lia.
        -- apply Z.leb_le in Ea. symmetry. apply Z.ltb_ge. lia.
      * repeat (split; [done || lia|]). split; [|done]. rewrite nerrors_app. change (nerrors [W_always _]) with 0. lia.
    + set (u := if lt then data - 1 else data) in *.
      assert (Hum : 0 <= u < m) by (unfold u; destruct lt; [apply orb_false_iff in Ea as [Ea1 Ea2]; apply Z.eqb_neq in Ea1; apply Z.ltb_ge in Ea2; lia|apply Z.leb_gt in Ea; lia]).
      assert (Hgt : forall x, xorb lt (u <? x .& m) = if lt then (x .& m) <? data else data <? (x .& m)).
      { intros x. unfold u. destruct lt; [|by rewrite xorb_false_l]. rewrite xorb_true_l. destruct (Z.ltb_spec (data - 1) (x .& m)), (Z.ltb_spec (x .& m) data); first [done|exfalso; lia]. }
      assert (Ebad : bad_bound (p_op p) data m = (Z.ldiff u m =? 1)).
      { unfold bad_bound. fold lt. fold u. by rewrite Heq, (proj2 (Z.ltb_lt _ _)) by lia. }
      rewrite Ebad. clear Ebad. split; [done|]. cbn [p_op p_u p_mask p_op_negated set_m set_u with_u with_mask with_op d_u].
      destruct (Z.eqb_spec (Z.ldiff u m) 1) as [Hbad|Hbad].
      { unfold full. rewrite (round_down_bad u m k) by (unfold full in *; lia || done). repeat (split; [done || lia|]). done. }
      pose proof (fun x => round_down u m k x Hum ltac:(unfold full in *; lia) ltac:(lia) Hbad) as Hrd. cbv zeta in Hrd. fold full in Hrd.
      set (u' := if negb ((u .& m) =? u) then _ else _) in *. destruct (Hrd 0) as (R1 & R2 & _). pose proof (submask_le u' m ltac:(lia) R2).
      split; [split; [|right]|].
      * intros x. destruct (Hrd x) as (_ & _ & R3). rewrite Hr, <- Hgt. unfold comparison. change (OP_GT =? OP_EQ) with false. cbv match.
        rewrite R2, R3. by destruct (u <? x .& m), lt, (p_op_negated p).
      * split; [done|]. rewrite R2. destruct (Hrd m) as (_ & _ & R3). rewrite Z.land_diag in R3. apply Z.ltb_lt. rewrite R3. apply Z.ltb_lt. lia.
      * repeat (split; [done || lia|]). done.
Qed.

(** C14.  What [set_mask] does with every relation and mask.  It accepts the relation
    when the mask lies in the field and, for an equation, the value fits; it reports
    an error otherwise and leaves the test alone.  The comparison it leaves behind
    is one that [add_comparison_exprs] can compile, and has the value of the
    relation on every field: [<] becomes a negated [>], a bound outside the mask is
    rounded down to it, and a relation that is always true or false becomes one that
    is.  The exception is [bad_bound], a bound below the mask of which the mask leaves
    out just the lowest bit: there the code shifts a 32-bit word by 32, which C++
    leaves undefined, and on a processor that shifts by the count modulo 32 the bound
    becomes the mask itself ([tcp[13] & 2 >= 2]). *)
Theorem set_mask_exact (p : Primitive) (k provided : Z) (errh : list message) :
  0 < k <= 32 -> 0 <= d_u (p_u p) < 4294967296 -> 0 <= provided ->
  p_op p = OP_EQ \/ p_op p = OP_GT \/ p_op p = OP_LT ->
  let full := 2 ^ k - 1 in let m := given_mask full provided in let data := d_u (p_u p) in
  let '(p', errh', ok) := set_mask p full 0 provided errh in
  ok = ((m .& full) =? m) && negb ((p_op p =? OP_EQ) && (full <? data))
  /\ if ok : bool
     then (if bad_bound (p_op p) data m
           then p_op p' = OP_GT /\ d_u (p_u p') = m /\ d_u (p_mask p') = m /\ p_op_negated p' = xorb (p_op p =? OP_LT) (p_op_negated p)
           else (forall x, xorb (comparison (p_op p') (d_u (p_u p')) (d_u (p_mask p')) x) (p_op_negated p')
                           = xorb (relation (p_op p) data m x) (p_op_negated p))
                /\ (p_op p' = OP_EQ \/ (p_op p' = OP_GT /\ d_u (p_u p') .& d_u (p_mask p') < d_u (p_mask p'))))
       /\ 0 <= d_u (p_u p') < 4294967296 /\ 0 <= d_u (p_mask p') <= full
       /\ nerrors errh' = nerrors errh
       /\ p' = set_m (set_u (with_op p (p_op p') (p_op_negated p')) (d_u (p_u p'))) (d_u (p_mask p'))
     else p' = p /\ nerrors errh < nerrors errh'.
Proof. apply set_mask_relation. Qed.

(** [tcp[0] & 5 > 2] compares with 1. *)
Lemma set_mask_exact_witness :
  let p := mkPrim 0 TYPE_INT OP_GT false 0 UNKNOWN (mkData 2 0) (mkData 0 0) in
  let '(p', _, ok) := set_mask p 255 0 5 [] in
  ok = true /\ d_u (p_u p') = 1
  /\ xorb (comparison (p_op p') (d_u (p_u p')) (d_u (p_mask p')) 4) (p_op_negated p') = xorb (relation OP_GT 2 5 4) false.
Proof.
  pose proof (set_mask_exact (mkPrim 0 TYPE_INT OP_GT false 0 UNKNOWN (mkData 2 0) (mkData 0 0)) 8 5 []
    ltac:(lia) ltac:(simpl; lia) ltac:(lia) ltac:(right; left; reflexivity)) as H.
  change (2 ^ 8 - 1) with 255 in H. cbv zeta in H.
  destruct (set_mask _ 255 0 5 []) as [[p' e] ok] eqn:E. vm_compute in E. injection E as <- <- <-.
  destruct H as (_ & [H _] & _). split; [reflexivity|]. split; [reflexivity|]. exact (H 4).
Defined.
