(* ===== verification/FilterCompile.v ===== *)
(** * What a test of the filter language means

    [holds p d] is the meaning of a checked test on a packet whose words are [d], in
    terms of header fields.  [Primitive::compile] adds one subtree that has this
    value, and what [check] accepts can be compiled. *)

From S2P Require Import Prelude Packet Insn Program Words Segments FilterPrim Builder FilterCompare.
Local Open Scope word_scope.
Local Open Scope Z_scope.

(** ** The meaning *)

Definition proto_holds (proto : Z) (d : Z -> Z) : bool :=
  let ip_p := field d (offset_net + 8) 16 .& 255 in
  if proto =? UNKNOWN then true
  else if proto =? IP_PROTO_TCP_OR_UDP then (ip_p =? IP_PROTO_TCP) || (ip_p =? IP_PROTO_UDP)
  else if 256 <=? proto then true
  else ip_p =? proto.

(** The fragment offset is zero. *)
Definition first_fragment (d : Z -> Z) : bool := (field d (offset_net + 4) 0 .& 8191) =? 0.
(** The packet is a fragment. *)
Definition is_fragment (d : Z -> Z) : bool := negb ((field d (offset_net + 4) 0 .& 16383) =? 0).

(** A test of the source, the destination, both or either. *)
Definition sides (srcdst : Z) (src dst : bool) : bool :=
  if srcdst =? SD_SRC then src
  else if srcdst =? SD_DST then dst
  else if srcdst =? SD_AND then src && dst
  else src || dst.

(** The comparison of a test with a field in network order, and in memory order. *)
Definition compared (p : Primitive) (x : Z) : bool := comparison (p_op p) (d_u (p_u p)) (d_u (p_mask p)) x.
Definition compared_addr (u m x : Z) : bool := (x .& ntohl m) =? (ntohl u .& ntohl m).

Definition field_offset (t : Z) : Z := (t .& FIELD_OFFSET_MASK) .>> FIELD_OFFSET_SHIFT.
Definition field_length (t : Z) : Z := ((t .& FIELD_LENGTH_MASK) .>> FIELD_LENGTH_SHIFT) + 1.
(** The bits of the field [t]: the word that has them and their distance to its end. *)
Definition field_bits (t : Z) (d : Z -> Z) : Z :=
  let base := if has_field_proto t then offset_transp else offset_net in
  field d (base + ((field_offset t .>> 3) .& Z.lnot 3)) (32 - ((field_offset t .& 31) + field_length t)).

Definition ether_holds (p : Primitive) (d : Z -> Z) : bool :=
  let pair (first : Z) (f : PrimitiveData -> Z * Z) :=
    compared_addr (f (p_u p)).1 (f (p_mask p)).1 (field d first 0)
    && compared_addr (f (p_u p)).2 (f (p_mask p)).2 (field d (first + 4) 0) in
  sides (p_srcdst p) (pair (offset_mac + 8) ether_src) (pair offset_mac ether_dst).

Definition type_holds (p : Primitive) (d : Z -> Z) : bool :=
  let t := p_type p in
  if t =? TYPE_HOST then
    xorb (sides (p_srcdst p) (compared_addr (d_u (p_u p)) (d_u (p_mask p)) (field d (offset_net + 12) 0))
            (compared_addr (d_u (p_u p)) (d_u (p_mask p)) (field d (offset_net + 16) 0))) (p_op_negated p)
  else if t =? TYPE_ETHER then xorb (ether_holds p d) (p_op_negated p)
  else if t =? TYPE_PROTO then
    if p_transp_proto p <? 256 then xorb (compared p (field d (offset_net + 8) 16)) (p_op_negated p) else true
  else if t =? TYPE_IPFRAG then xorb (is_fragment d) (p_op_negated p)
  else if t =? TYPE_PORT then
    xorb (sides (p_srcdst p) (compared p (field d offset_transp 16)) (compared p (field d offset_transp 0))) (p_op_negated p)
  else if t =? TYPE_TCPOPT then (field d (offset_transp + 12) 16 .& d_u (p_mask p)) =? (d_u (p_u p) .& d_u (p_mask p))
  else xorb (compared p (field_bits t d)) (p_op_negated p).

(** Tests that look behind the IP header. *)
Definition needs_first_fragment (t : Z) : bool :=
  (t =? TYPE_PORT) || (t =? TYPE_TCPOPT) || (is_field t && has_field_proto t).

Definition holds (p : Primitive) (d : Z -> Z) : bool :=
  proto_holds (p_transp_proto p) d && (negb (needs_first_fragment (p_type p)) || first_fragment d) && type_holds p d.

(** ** Tests that can be compiled *)

Definition word (x : Z) : Prop := 0 <= x < 4294967296.
Definition data_ok (u : PrimitiveData) : Prop := word (d_u u) /\ word (d_hi u).
Definition proto_ok (proto : Z) : Prop := proto = UNKNOWN \/ 0 <= proto < 2147483648.
(** A field within one word. *)
Definition field_ok (t : Z) : Prop :=
  0 <= t < 2147483648 /\ is_field t = true /\ (field_offset t .& 31) + field_length t <= 32.

Definition comparable (p : Primitive) : Prop :=
  p_op p = OP_EQ \/ (p_op p = OP_GT /\ d_u (p_u p) .& d_u (p_mask p) < d_u (p_mask p)).

Definition side_ok (srcdst : Z) : Prop := 1 <= srcdst <= 4.

Definition type_ok (p : Primitive) : Prop :=
  let t := p_type p in
  (t = TYPE_HOST \/ t = TYPE_ETHER) /\ p_op p = OP_EQ /\ side_ok (p_srcdst p)
  \/ t = TYPE_PROTO /\ d_u (p_mask p) <= 255
  \/ t = TYPE_IPFRAG
  \/ t = TYPE_PORT /\ side_ok (p_srcdst p) /\ d_u (p_mask p) <= 65535
  \/ t = TYPE_TCPOPT /\ d_u (p_mask p) <= 255 /\ d_u (p_u p) = d_u (p_mask p)
  \/ field_ok t /\ d_u (p_mask p) < 2 ^ field_length t.

Record prim_ok (p : Primitive) : Prop := {
  ok_u : data_ok (p_u p);
  ok_mask : data_ok (p_mask p);
  ok_proto : proto_ok (p_transp_proto p);
  ok_cmp : comparable p;
  ok_type : type_ok p
}.

Section compile.
Context (d : Z -> Z).
Hypothesis Hd : forall off, word (d off).
Abbreviation adds := (computes (wtest d)).

Let Ho : word_outcome (wtest d) := wtest_word d.

(** A single instruction: the bits [m] of a field are [u]. *)
Lemma insn_field L b off s u m :
  opened L b -> 0 <= off < 65536 -> 0 <= s <= 32 -> 0 <= m < 2 ^ (32 - s) -> u .& m = u ->
  adds L b (insn b off (ntohl (u32 (u .<< s))) (ntohl (u32 (m .<< s)))) [(field d off s .& m) =? u].
Proof using Hd.
  intros Hb Hoff Hs Hm Hu. rewrite <- (word_test d off s u m) by (done || apply Hd). apply insn_computes; [done|apply ntohl_range].
Qed.

Lemma proto_insn L b proto : opened L b -> 0 <= proto < 256 ->
  adds L b (insn b (offset_net + 8) (ntohl (u32 (proto .<< 16))) (ntohl (u32 (255 .<< 16)))) [(field d (offset_net + 8) 16 .& 255) =? proto].
Proof using Hd.
  intros Hb Hp. apply insn_field; [done|unfold offset_net; lia|lia|change (2 ^ (32 - 16)) with 65536; lia|].
  change 255 with (Z.ones 8). rewrite Z.land_ones by lia. apply Z.mod_small. change (2 ^ 8) with 256. lia.
Qed.

(** [add_exprs_for_proto] adds at most one subtree. *)
Lemma proto_adds L b proto :
  opened L b -> proto <> UNKNOWN -> 0 <= proto < 2147483648 ->
  exists vs, adds L b (add_exprs_for_proto proto 255 b) vs /\ forallb id vs = proto_holds proto d
    /\ (vs = [] -> 256 <= proto /\ proto <> IP_PROTO_TCP_OR_UDP).
Proof using Hd.
  intros Hb Hu Hp. unfold add_exprs_for_proto, proto_holds. rewrite (proj2 (Z.eqb_neq _ _) Hu). change (255 =? 255) with true. cbn [andb].
  destruct (Z.eqb_spec proto IP_PROTO_TCP_OR_UDP) as [->|Hne].
  - pose proof (start_opened L b Hb) as Hs. pose proof (proto_insn _ _ IP_PROTO_TCP Hs ltac:(unfold IP_PROTO_TCP; lia)) as H1.
    destruct (adds_opened _ _ _ _ _ H1) as [_ Hs1]. pose proof (proto_insn _ _ IP_PROTO_UDP Hs1 ltac:(unfold IP_PROTO_UDP; lia)) as H2.
    pose proof (finish_computes _ Ho L b _ c_or _ Hb (computes_app _ _ _ _ _ _ _ H1 H2) ltac:(done)) as H.
    eexists. split; [exact H|]. cbn [combine_value existsb app forallb id]. split; [by rewrite orb_false_r, andb_true_r|done].
  - destruct (Z.leb_spec 256 proto).
    + exists []. split; [by apply adds_nil|done].
    + exists [(field d (offset_net + 8) 16 .& 255) =? proto]. split; [by apply proto_insn; [|lia]|]. cbn [forallb id]. split; [apply andb_true_r|done].
Qed.

(** ** Comparisons *)

Lemma compared_adds p L b off s op_negate :
  opened L b -> prim_ok p -> 0 <= off < 65536 -> 0 <= s <= 32 -> d_u (p_mask p) < 2 ^ (32 - s) ->
  exists b', add_comparison_exprs p b off s false op_negate = Some b'
    /\ adds L b b' [xorb (compared p (field d off s)) (p_op_negated p && op_negate)].
Proof using Hd.
  intros Hb [[Hu _] [Hm _] _ Hc _] Hoff Hs Hms. unfold compared, comparable in *.
  apply (comparison_computes d p L b off s false op_negate); done || apply Hd || lia.
Qed.

Lemma addr_adds p L b off u m :
  opened L b -> p_op p = OP_EQ -> word u -> word m -> 0 <= off < 65536 ->
  exists b', add_comparison_exprs (set_m (set_u p u) m) b off 0 true false = Some b'
    /\ adds L b b' [compared_addr u m (field d off 0)].
Proof using Hd.
  intros Hb Hop Hu Hm Hoff.
  destruct (comparison_computes d (set_m (set_u p u) m) L b off 0 true false) as (b' & E & H); try done; try lia; try apply Hd.
  { apply ntohl_range. }
  { by left. }
  cbn [p_u p_mask p_op p_op_negated set_m set_u with_u with_mask d_u] in H. rewrite Hop, andb_false_r, xorb_false_r in H. by exists b'.
Qed.

(** One side, if it is asked for. *)
Definition side_adds (on : bool) (L : Z) (r : option build) (b : build) (v : bool) : Prop :=
  exists b', (if on then r else Some b) = Some b' /\ adds L b b' (if on then [v] else []).

Lemma finish_sides p L b b' (vs vd : bool) :
  opened L b -> side_ok (p_srcdst p) ->
  adds (L + 1) (start b) b' ((if is_src p then [vs] else []) ++ if is_dst p then [vd] else []) ->
  adds L b (finish_srcdst p b') [xorb (sides (p_srcdst p) vs vd) (p_op_negated p)].
Proof using Hd.
  intros Hb Hsd H. unfold finish_srcdst. set (op := if p_srcdst p =? SD_OR then c_or else c_and).
  assert (Hv : let l := (if is_src p then [vs] else []) ++ (if is_dst p then [vd] else []) in
    l <> [] /\ combine_value op l = sides (p_srcdst p) vs vd).
  { unfold side_ok in Hsd. assert (p_srcdst p = 1 \/ p_srcdst p = 2 \/ p_srcdst p = 3 \/ p_srcdst p = 4) as Hc by lia.
    unfold op, sides, is_src, is_dst. by destruct Hc as [-> |[-> |[-> | ->]]]; destruct vs, vd. }
  destruct Hv as [Hne Hv]. pose proof (finish_computes _ Ho L b _ op _ Hb H Hne) as Hf. rewrite Hv in Hf.
  destruct (p_op_negated p); [rewrite xorb_true_r; by apply negate_computes|by rewrite xorb_false_r].
Qed.

Lemma sides_adds p L b (f g : build -> option build) (vs vd : bool) :
  opened L b -> side_ok (p_srcdst p) ->
  (forall b1, opened (L + 1) b1 -> exists b', f b1 = Some b' /\ adds (L + 1) b1 b' [vs]) ->
  (forall b1, opened (L + 1) b1 -> exists b', g b1 = Some b' /\ adds (L + 1) b1 b' [vd]) ->
  exists b', (let b := start b in
      b ← (if is_src p then f b else Some b); b ← (if is_dst p then g b else Some b); Some (finish_srcdst p b)) = Some b'
    /\ adds L b b' [xorb (sides (p_srcdst p) vs vd) (p_op_negated p)].
Proof using Hd.
  intros Hb Hsd Hf Hg. pose proof (start_opened L b Hb) as Hs. cbv zeta.
  assert (H1 : exists b1, (if is_src p then f (start b) else Some (start b)) = Some b1
    /\ adds (L + 1) (start b) b1 (if is_src p then [vs] else [])).
  { destruct (is_src p); [by apply Hf|]. eexists. split; [reflexivity|]. by apply adds_nil. }
  destruct H1 as (b1 & -> & H1). cbn [mbind option_bind]. destruct (adds_opened _ _ _ _ _ H1) as [_ Hs1].
  assert (H2 : exists b2, (if is_dst p then g b1 else Some b1) = Some b2 /\ adds (L + 1) b1 b2 (if is_dst p then [vd] else [])).
  { destruct (is_dst p); [by apply Hg|]. eexists. split; [reflexivity|]. by apply adds_nil. }
  destruct H2 as (b2 & -> & H2). cbn [mbind option_bind]. eexists. split; [reflexivity|].
  apply finish_sides; [done|done|]. exact (computes_app _ _ _ _ _ _ _ H1 H2).
Qed.

(** ** [compile] *)

Lemma ether_parts u : data_ok u ->
  word (ether_src u).1 /\ word (ether_src u).2 /\ word (ether_dst u).1 /\ word (ether_dst u).2.
Proof using.
  intros [[Hu0 Hu1] [Hh0 Hh1]]. unfold ether_src, ether_dst, word. cbn [fst snd].
  change 65535 with (Z.ones 16). rewrite !Z.land_ones by lia. change (2 ^ 16) with 65536.
  pose proof (Z.mod_pos_bound (d_hi u) 65536 ltac:(lia)). pose proof (Z.mod_pos_bound (d_u u) 65536 ltac:(lia)).
  split; [lia|]. split; [lia|]. split; [apply Z.mod_pos_bound; lia|].
  assert (Hq : 0 <= d_u u .>> 16 < 2 ^ 16).
  { rewrite Z.shiftr_div_pow2 by lia. change (2 ^ 16) with 65536. split; [apply Z.div_pos; lia|apply Z.div_lt_upper_bound; lia]. }
  rewrite lor_shift_add by (done || lia). change (2 ^ 16) with 65536 in *. lia.
Qed.

Lemma ether_pair_adds p L b first u1 m1 u2 m2 :
  opened L b -> p_op p = OP_EQ -> word u1 -> word m1 -> word u2 -> word m2 -> 0 <= first < 65000 ->
  exists b', ether_pair p first (u1, m1) (u2, m2) b = Some b'
    /\ adds L b b' [compared_addr u1 m1 (field d first 0) && compared_addr u2 m2 (field d (first + 4) 0)].
Proof using Hd.
  intros Hb Hop H1 H2 H3 H4 Hf. unfold ether_pair. cbn [fst snd]. pose proof (start_opened L b Hb) as Hs.
  destruct (addr_adds p (L + 1) (start b) first u1 m1 Hs Hop H1 H2 ltac:(lia)) as (b1 & -> & A1). cbn [mbind option_bind].
  destruct (adds_opened _ _ _ _ _ A1) as [_ Hs1].
  destruct (addr_adds p (L + 1) b1 (first + 4) u2 m2 Hs1 Hop H3 H4 ltac:(lia)) as (b2 & -> & A2). cbn [mbind option_bind].
  eexists. split; [reflexivity|].
  pose proof (finish_computes _ Ho L b _ c_and _ Hb (computes_app _ _ _ _ _ _ _ A1 A2) ltac:(done)) as H.
  cbn [combine_value app forallb id] in H. by rewrite andb_true_r in H.
Qed.

Lemma ether_adds p L b :
  opened L b -> prim_ok p -> p_op p = OP_EQ -> side_ok (p_srcdst p) ->
  exists b', compile_ether p b = Some b' /\ adds L b b' [xorb (ether_holds p d) (p_op_negated p)].
Proof using Hd.
  intros Hb [Hu Hm _ _ _] Hop Hsd. destruct (ether_parts _ Hu) as (U1 & U2 & U3 & U4). destruct (ether_parts _ Hm) as (M1 & M2 & M3 & M4).
  apply (sides_adds p L b
    (fun b => ether_pair p (offset_mac + 8) ((ether_src (p_u p)).1, (ether_src (p_mask p)).1) ((ether_src (p_u p)).2, (ether_src (p_mask p)).2) b)
    (fun b => ether_pair p offset_mac ((ether_dst (p_u p)).1, (ether_dst (p_mask p)).1) ((ether_dst (p_u p)).2, (ether_dst (p_mask p)).2) b));
    [done|done| |]; intros b1 Hb1; apply ether_pair_adds; try done; unfold offset_mac; lia.
Qed.

Lemma srcdst_adds p L b src ssrc dst sdst (swapped : bool) (vs vd : bool) :
  opened L b -> side_ok (p_srcdst p) ->
  (forall b1, opened (L + 1) b1 -> exists b', add_comparison_exprs p b1 src ssrc swapped false = Some b' /\ adds (L + 1) b1 b' [vs]) ->
  (forall b1, opened (L + 1) b1 -> exists b', add_comparison_exprs p b1 dst sdst swapped false = Some b' /\ adds (L + 1) b1 b' [vd]) ->
  exists b', compile_srcdst p src ssrc dst sdst swapped b = Some b'
    /\ adds L b b' [xorb (sides (p_srcdst p) vs vd) (p_op_negated p)].
Proof using Hd.
  intros Hb Hsd H1 H2.
  exact (sides_adds p L b (fun b => add_comparison_exprs p b src ssrc swapped false) (fun b => add_comparison_exprs p b dst sdst swapped false) vs vd Hb Hsd H1 H2).
Qed.

Lemma field_word t : field_ok t ->
  0 <= (field_offset t .>> 3) .& Z.lnot 3 < 8192 /\ 0 <= 32 - ((field_offset t .& 31) + field_length t) <= 32 /\ 1 <= field_length t <= 32.
Proof using.
  intros (Ht & _ & Hw). unfold field_offset, field_length, FIELD_OFFSET_MASK, FIELD_OFFSET_SHIFT, FIELD_LENGTH_MASK, FIELD_LENGTH_SHIFT in *.
  change (65535 .<< 5) with (Z.ones 16 .<< 5) in *. rewrite land_shifted in * by lia. rewrite Z.shiftr_shiftl_l, Z.sub_diag, Z.shiftl_0_r in * by lia.
  rewrite Z.shiftr_0_r in *. change 31 with (Z.ones 5) in *. rewrite !Z.land_ones in * by lia.
  set (o := (t .>> 5) mod 2 ^ 16) in *. pose proof (Z.mod_pos_bound (t .>> 5) (2 ^ 16) ltac:(lia)) as Ho16. fold o in Ho16.
  pose proof (Z.mod_pos_bound t (2 ^ 5) ltac:(lia)). pose proof (Z.mod_pos_bound o (2 ^ 5) ltac:(lia)).
  split; [|lia]. assert (E : 0 <= (o .>> 3) < 8192).
  { rewrite Z.shiftr_div_pow2 by lia. change (2 ^ 3) with 8. change (2 ^ 16) with 65536 in Ho16. Z.div_mod_to_equations. lia. }
  pose proof (land_bounds (Z.lnot 3) (o .>> 3) ltac:(lia)) as Hl. rewrite Z.land_comm in Hl. lia.
Qed.

(** A test whose subtree is one comparison. *)
Lemma one_value L b (r : option build) v :
  (exists b', r = Some b' /\ adds L b b' [v]) -> exists b' vs, r = Some b' /\ adds L b b' vs /\ forallb id vs = v /\ (vs = [] -> False).
Proof using. intros (b' & E & H). exists b', [v]. split; [done|]. split; [done|]. split; [apply andb_true_r|done]. Qed.

Lemma some_value {A B : Prop} L b (r : option build) v :
  (exists b' vs, r = Some b' /\ adds L b b' vs /\ forallb id vs = v /\ (vs = [] -> False)) ->
  exists b' vs, r = Some b' /\ adds L b b' vs /\ forallb id vs = v /\ (vs = [] -> A /\ B).
Proof using. intros (b' & vs & E & H & V & N). exists b', vs. split; [done|]. split; [done|]. split; [done|]. by intros []%N. Qed.

Lemma field_adds p L b : opened L b -> prim_ok p -> field_ok (p_type p) -> d_u (p_mask p) < 2 ^ field_length (p_type p) ->
  exists b', compile_field p b = Some b' /\ adds L b b' [xorb (compared p (field_bits (p_type p) d)) (p_op_negated p)].
Proof using Hd.
  intros Hb Hp Hf Hm. destruct (field_word _ Hf) as (W1 & W2 & W3). destruct Hf as (_ & _ & Hw).
  assert (Hpos : 0 <= field_offset (p_type p) .& 31) by (change 31 with (Z.ones 5); rewrite Z.land_ones by lia; apply Z.mod_pos_bound; lia).
  assert (Hs : 2 ^ field_length (p_type p) <= 2 ^ (32 - (32 - ((field_offset (p_type p) .& 31) + field_length (p_type p))))) by (apply Z.pow_le_mono_r; lia).
  unfold compile_field. fold (field_offset (p_type p)) (field_length (p_type p)).
  destruct (compared_adds p L b ((if has_field_proto (p_type p) then offset_transp else offset_net) + ((field_offset (p_type p) .>> 3) .& Z.lnot 3))
    (32 - ((field_offset (p_type p) .& 31) + field_length (p_type p))) true Hb Hp) as (b' & E & H).
  - unfold offset_transp, offset_net. destruct (has_field_proto _); lia.
  - lia.
  - lia.
  - exists b'. split; [exact E|]. by rewrite andb_true_r in H.
Qed.

Lemma frag_adds L b m neg : opened L b -> 0 <= m < 4294967296 ->
  let b' := insn b (offset_net + 4) 0 (ntohl m) in
  adds L b (if neg : bool then negate b' true else b') [xorb ((field d (offset_net + 4) 0 .& m) =? 0) neg].
Proof using Hd.
  intros Hb Hm b'. pose proof (insn_field L b (offset_net + 4) 0 0 m Hb ltac:(unfold offset_net; lia) ltac:(lia) Hm ltac:(apply Z.land_0_l)) as H.
  rewrite !Z.shiftl_0_r, (u32_small m) in H by lia. change (ntohl (u32 0)) with 0 in H. fold b' in H.
  destruct neg; [rewrite xorb_true_r; by apply negate_computes|by rewrite xorb_false_r].
Qed.

Lemma type_adds p L b : opened L b -> prim_ok p ->
  exists b' vs, compile_type p b = Some b' /\ adds L b b' vs /\ forallb id vs = type_holds p d
    /\ (vs = [] -> p_type p = TYPE_PROTO /\ 256 <= p_transp_proto p).
Proof using Hd.
  intros Hb Hp. pose proof Hp as [[Hu _] [Hm _] _ _ Ht]. unfold type_ok, compile_type, type_holds in *.
  destruct Ht as [([E|E] & Hop & Hsd)|[[E Hmm]|[E|[(E & Hsd & Hmm)|[(E & Hmm & Hum)|[Hf Hmm]]]]]]; try rewrite E.
  - apply some_value, one_value. apply srcdst_adds; [done|done| |]; intros b1 Hb1;
      destruct (addr_adds p (L + 1) b1 (offset_net + 12) _ _ Hb1 Hop Hu Hm ltac:(unfold offset_net; lia)) as (b' & E1 & H1);
      destruct (addr_adds p (L + 1) b1 (offset_net + 16) _ _ Hb1 Hop Hu Hm ltac:(unfold offset_net; lia)) as (b2 & E2 & H2);
      (replace (set_m (set_u p (d_u (p_u p))) (d_u (p_mask p))) with p in E1, E2 by (by destruct p as [? ? ? ? ? ? [? ?] [? ?]])); eauto.
  - apply some_value, one_value. by apply ether_adds.
  - change (TYPE_PROTO =? TYPE_HOST) with false. change (TYPE_PROTO =? TYPE_ETHER) with false. change (TYPE_PROTO =? TYPE_PROTO) with true. cbv match.
    destruct (Z.ltb_spec (p_transp_proto p) 256); [|by exists b, []; split; [done|]; split; [by apply adds_nil|]].
    apply some_value, one_value. destruct (compared_adds p L b (offset_net + 8) 16 true Hb Hp ltac:(unfold offset_net; lia) ltac:(lia) ltac:(lia)) as (b' & E1 & H1).
    exists b'. rewrite andb_true_r in H1. by split.
  - apply some_value, one_value. eexists. split; [reflexivity|]. pose proof (frag_adds L b 16383 (negb (p_op_negated p)) Hb ltac:(lia)) as H. cbv zeta in H.
    unfold is_fragment. by replace (xorb (negb ((field d (offset_net + 4) 0 .& 16383) =? 0)) (p_op_negated p))
      with (xorb ((field d (offset_net + 4) 0 .& 16383) =? 0) (negb (p_op_negated p))) by (by destruct (_ =? 0), (p_op_negated p)).
  - apply some_value, one_value. apply srcdst_adds; [done|done| |]; intros b1 Hb1;
      [pose proof (compared_adds p (L + 1) b1 offset_transp 16 false Hb1 Hp ltac:(unfold offset_transp; lia) ltac:(lia) ltac:(change (2 ^ (32 - 16)) with 65536; lia)) as H
      |pose proof (compared_adds p (L + 1) b1 offset_transp 0 false Hb1 Hp ltac:(unfold offset_transp; lia) ltac:(lia) ltac:(change (2 ^ (32 - 0)) with 4294967296; lia)) as H];
      by rewrite andb_false_r, xorb_false_r in H.
  - apply some_value, one_value. eexists. split; [reflexivity|]. rewrite <- Hum. rewrite Z.land_diag.
    apply insn_field; [done|unfold offset_transp; lia|lia|unfold word in *; change (2 ^ (32 - 16)) with 65536; lia|apply Z.land_diag].
  - pose proof Hf as (_ & Hfield & _).
    assert (Hne : forall c, is_field c = false -> (p_type p =? c) = false) by (intros c Hc; apply Z.eqb_neq; intros E; by rewrite E, Hc in Hfield).
    rewrite !Hne by done. rewrite Hfield. apply some_value, one_value. by apply field_adds.
Qed.

(** A test that is always true, for which no instruction is made. *)
Definition vacuous (p : Primitive) : bool :=
  (p_type p =? TYPE_PROTO) && (256 <=? p_transp_proto p) && negb (p_transp_proto p =? IP_PROTO_TCP_OR_UDP).

(** [compile] adds one subtree that has the value of the test. *)
Lemma prim_compile_adds p L b : opened L b -> prim_ok p -> vacuous p = false ->
  exists b', prim_compile p b = Some b' /\ adds L b b' [holds p d].
Proof using Hd.
  intros Hb Hp Hvac. pose proof (start_opened L b Hb) as Hs. unfold prim_compile.
  assert (H1 : exists vs, adds (L + 1) (start b)
      (if negb (p_transp_proto p =? UNKNOWN) then add_exprs_for_proto (p_transp_proto p) 255 (start b) else start b) vs
      /\ forallb id vs = proto_holds (p_transp_proto p) d
      /\ (vs = [] -> p_transp_proto p = UNKNOWN \/ (256 <= p_transp_proto p /\ p_transp_proto p <> IP_PROTO_TCP_OR_UDP))).
  { destruct (Z.eqb_spec (p_transp_proto p) UNKNOWN) as [->|Hne]; cbn [negb].
    - exists []. split; [by apply adds_nil|]. split; [done|by left].
    - destruct (proto_adds (L + 1) (start b) (p_transp_proto p) Hs Hne ltac:(by destruct (ok_proto _ Hp))) as (vs & A1 & A2 & A3).
      exists vs. split; [done|]. split; [done|]. right. by apply A3. }
  destruct H1 as (vs1 & H1 & V1 & N1). set (b1 := if negb (p_transp_proto p =? UNKNOWN) then _ else _) in *. destruct (adds_opened _ _ _ _ _ H1) as [_ Hs1].
  fold (needs_first_fragment (p_type p)).
  assert (H2 : exists vs, adds (L + 1) b1 (if needs_first_fragment (p_type p) then insn b1 (offset_net + 4) 0 (ntohl 8191) else b1) vs
      /\ forallb id vs = negb (needs_first_fragment (p_type p)) || first_fragment d).
  { destruct (needs_first_fragment (p_type p)); cbn [negb orb].
    - pose proof (frag_adds (L + 1) b1 8191 false Hs1 ltac:(lia)) as H. rewrite xorb_false_r in H. eexists. split; [exact H|]. apply andb_true_r.
    - exists []. split; [by apply adds_nil|done]. }
  destruct H2 as (vs2 & H2 & V2). set (b2 := if needs_first_fragment (p_type p) then _ else _) in *. destruct (adds_opened _ _ _ _ _ H2) as [_ Hs2].
  destruct (type_adds p (L + 1) b2 Hs2 Hp) as (b3 & vs3 & -> & H3 & V3 & N3). cbn [mbind option_bind]. eexists. split; [reflexivity|].
  pose proof (computes_app _ _ _ _ _ _ _ (computes_app _ _ _ _ _ _ _ H1 H2) H3) as Hall.
  assert (Hne : (vs1 ++ vs2) ++ vs3 <> []).
  { intros [[E1 E2]%app_nil E3]%app_nil. destruct (N3 E3) as [T1 T2]. destruct (N1 E1) as [N|[N4 N5]]; [rewrite N in T2; by unfold UNKNOWN in T2|].
    unfold vacuous in Hvac. rewrite T1, Z.eqb_refl, (proj2 (Z.leb_le _ _) T2), (proj2 (Z.eqb_neq _ _) N5) in Hvac. done. }
  pose proof (finish_computes _ Ho L b _ c_and _ Hb Hall Hne) as Hf. cbn [combine_value] in Hf.
  rewrite !forallb_app, V1, V2, V3 in Hf. exact Hf.
Qed.
End compile.
