(* ===== verification/FilterCheck.v ===== *)
(** * What [check] accepts

    [Primitive::check] leaves a test that [compile] can compile, whatever was
    inferred from the test before it, and the test keeps its meaning, [asked].  Two
    places where that meaning may surprise are written out in it: [<] on two sides
    and [!=] with a name for several protocols ([relation_sides], [asked_proto]). *)

From S2P Require Import Prelude Packet Insn Program Words Segments FilterPrim Builder FilterCompare FilterCompile.
Local Open Scope word_scope.
Local Open Scope Z_scope.

Ltac fields0 := cbn [p_type p_data p_op p_op_negated p_srcdst p_transp_proto p_u p_mask with_type with_data with_op with_srcdst with_proto with_u with_mask set_u set_m d_u d_hi].

(** ** [set_mask] on a whole test *)

Lemma bad_bound_full op data k : 0 < k -> bad_bound op data (2 ^ k - 1) = false.
Proof.
  intros Hk. unfold bad_bound. destruct (negb (op =? OP_EQ)); [|done]. cbn [andb]. set (n := if op =? OP_LT then data - 1 else data).
  destruct (n <? 2 ^ k - 1); [|done]. apply Z.eqb_neq. intros E. assert (Hb : Z.testbit (Z.ldiff n (2 ^ k - 1)) 0 = true) by (by rewrite E).
  rewrite Z.ldiff_spec, Z.sub_1_r, <- Z.ones_equiv, Z.ones_spec_low, andb_false_r in Hb by lia. done.
Qed.

Definition op_ok (op : Z) : Prop := op = OP_EQ \/ op = OP_GT \/ op = OP_LT.

(** No mask is given, or not one that leaves out just the lowest bit of the bound:
    for that one [set_mask] shifts a 32-bit word by 32, which C++ leaves undefined. *)
Definition fair_mask (p : Primitive) (provided : Z) : Prop :=
  provided = 0 \/ bad_bound (p_op p) (d_u (p_u p)) provided = false.

(** The negation that [<] adds, unless the relation was made a constant. *)
Lemma set_mask_side p k provided errh p' errh' : op_ok (p_op p) ->
  set_mask p (2 ^ k - 1) 0 provided errh = (p', errh', true) ->
  p_op_negated p' = xorb (p_op p =? OP_LT) (p_op_negated p) \/ forall x, compared p' x = true.
Proof.
  intros Hop E. unfold set_mask in E. destruct (negb (_ =? _)); [done|].
  destruct Hop as [Ho|[Ho|Ho]]; rewrite !Ho in E.
  - change (OP_EQ =? OP_GT) with false in E. change (OP_EQ =? OP_LT) with false in E. cbn [orb] in E.
    destruct (_ <? _) in E; [done|]. injection E as <- <-. left. by rewrite Ho.
  - change (OP_GT =? OP_GT) with true in E. change (OP_GT =? OP_LT) with false in E. cbn [orb andb] in E.
    destruct (_ <=? _) in E; injection E as <- <-; [right|left; by rewrite Ho]. intros x. unfold compared, comparison. fields0.
    change (OP_EQ =? OP_EQ) with true. cbv match. by rewrite !Z.land_0_r.
  - change (OP_LT =? OP_GT) with false in E. change (OP_LT =? OP_LT) with true in E. cbn [orb andb] in E.
    destruct (_ || _) in E; injection E as <- <-; [right|left; fields0; rewrite Ho; by destruct (p_op_negated p)]. intros x. unfold compared, comparison. fields0.
    change (OP_EQ =? OP_EQ) with true. cbv match. by rewrite !Z.land_0_r.
Qed.

Lemma set_mask_small p k provided errh p' errh' : 0 <= d_u (p_u p) < 4294967296 -> op_ok (p_op p) ->
  set_mask p (2 ^ k - 1) 0 provided errh = (p', errh', true) -> p_op p' = OP_EQ -> d_u (p_u p') <= Z.max 0 (2 ^ k - 1).
Proof.
  intros Hu Hop E Eq. unfold set_mask in E. destruct (negb _); [done|]. destruct (_ || _) eqn:Eo in E.
  - destruct (_ || _) in E; injection E as <- <-; [fields0; lia|]. exfalso. revert Eq. destruct Hop as [Ho|[Ho|Ho]]; rewrite Ho in Eo |- *; [done| |done]. change (OP_GT =? OP_LT) with false. cbv match. fields0. by rewrite Ho.
  - destruct (Z.ltb_spec (2 ^ k - 1) (d_u (p_u p))); [done|]. injection E as <- <-. fields0. rewrite Z.shiftl_0_r, u32_small by lia. lia.
Qed.

Lemma set_mask_ok p k provided errh p' errh' :
  0 < k <= 32 -> data_ok (p_u p) -> data_ok (p_mask p) -> 0 <= provided -> op_ok (p_op p) -> fair_mask p provided ->
  set_mask p (2 ^ k - 1) 0 provided errh = (p', errh', true) ->
  (comparable p' /\ data_ok (p_u p') /\ data_ok (p_mask p') /\ d_u (p_mask p') <= 2 ^ k - 1)
  /\ (p_type p' = p_type p /\ p_srcdst p' = p_srcdst p /\ p_transp_proto p' = p_transp_proto p)
  /\ (p_op p = OP_EQ -> p_op p' = OP_EQ /\ p_op_negated p' = p_op_negated p /\ p_u p' = p_u p)
  /\ forall x, xorb (compared p' x) (p_op_negated p')
       = xorb (relation (p_op p) (d_u (p_u p)) (given_mask (2 ^ k - 1) provided) x) (p_op_negated p).
Proof.
  intros Hk [Hu Hhu] [Hm Hhm] Hpr Hop Hfair E. set (m := given_mask (2 ^ k - 1) provided).
  assert (Hb : bad_bound (p_op p) (d_u (p_u p)) m = false).
  { unfold m, given_mask. destruct (Z.eqb_spec provided 0) as [E0|Hne]; [apply bad_bound_full; lia|]. by destruct Hfair. }
  pose proof (set_mask_relation p k provided errh ltac:(lia) Hu Hpr Hop) as H. cbv zeta in H. rewrite E in H. fold m in H. rewrite Hb in H. destruct H as (_ & [H1 H2] & H3 & H4 & _ & H5).
  pose proof (full_range k ltac:(lia)) as Hf. fold m in H1.
  split; [|split; [|split]].
  - split; [done|]. rewrite H5. unfold data_ok, word in *. cbn [p_u p_mask set_m set_u with_u with_mask with_op d_u d_hi]. lia.
  - by rewrite H5.
  - intros He.
    pose proof (set_mask_eq p k provided errh ltac:(lia) Hu Hpr He) as E2. cbv zeta in E2. rewrite E in E2.
    destruct (negb _); [done|]. destruct (_ <? _); [done|]. injection E2 as -> _. by destruct p as [? ? ? ? ? ? [? ?] ?].
  - exact H1.
Qed.

(** ** Tests as the parser makes them *)

Definition plain_type (t : Z) : Prop :=
  t ∈ [TYPE_HOST; TYPE_NET; TYPE_ETHER; TYPE_PROTO; TYPE_PORT; TYPE_TCPOPT; TYPE_IPECT; TYPE_IPCE; TYPE_IPFRAG; TYPE_IPUNFRAG].
Definition known_type (t : Z) : Prop := plain_type t \/ field_ok t.

Record prim_in (p : Primitive) : Prop := {
  in_u : data_ok (p_u p);
  in_mask : data_ok (p_mask p);
  in_proto : proto_ok (p_transp_proto p);
  in_op : op_ok (p_op p);
  in_side : 0 <= p_srcdst p <= 4;
  in_none : p_data p = TYPE_NONE -> p_op p = OP_EQ;   (** an operator without data is an error *)
  in_type : p_type p <= 0 \/ known_type (p_type p);
  in_data : is_field (p_data p) = true -> field_ok (p_data p)
}.

(** A test that was accepted before, or the cleared one. *)
Record prev_ok (p : Primitive) : Prop := {
  pv_proto : proto_ok (p_transp_proto p);
  pv_side : 0 <= p_srcdst p <= 4;
  pv_type : is_field (p_type p) = true -> field_ok (p_type p)
}.

Lemma field_proto_ok t : 0 <= t -> proto_ok (field_proto t).
Proof.
  intros Ht. right. unfold field_proto, FIELD_PROTO_MASK, FIELD_PROTO_SHIFT. change (511 .<< 21) with (Z.ones 9 .<< 21).
  rewrite land_shifted, Z.shiftr_shiftl_l, Z.sub_diag, Z.shiftl_0_r, Z.land_ones by lia.
  pose proof (Z.mod_pos_bound (t .>> 21) (2 ^ 9) ltac:(lia)). lia.
Qed.

Ltac plain := left; unfold plain_type; rewrite !elem_of_cons; tauto.

(** Comparisons of constants. *)
Ltac consts := repeat match goal with |- context [Z.eqb ?a ?b] => first [change (Z.eqb a b) with true | change (Z.eqb a b) with false] end; cbn [andb orb negb].

(** The parts of a test that inference leaves alone. *)
Definition same_test_data (p q : Primitive) : Prop :=
  p_op q = p_op p /\ p_op_negated q = p_op_negated p /\ p_u q = p_u p /\ p_mask q = p_mask p.

Ltac fields := cbn [p_type p_data p_op p_op_negated p_srcdst p_transp_proto p_u p_mask with_type with_data with_op with_srcdst with_proto with_u with_mask set_u set_m d_u d_hi] in *.

Lemma infer_from_ok prev p data errh p' errh' :
  prim_in p -> prev_ok prev -> (is_field data = true -> field_ok data) ->
  infer_from prev p data errh = (p', errh', true) -> prim_in p' /\ known_type (p_type p') /\ same_test_data p p'.
Proof.
  intros [Q1 Q2 Q3 Q4 Q5 Q6 Q7 Q8] [V1 V2 V3] Hfd E. unfold infer_from in E. cbv zeta in E.
  assert (Hdone : forall q, p_data q = p_data p -> same_test_data p q ->
    known_type (p_type q) -> 0 <= p_srcdst q <= 4 -> proto_ok (p_transp_proto q) ->
    prim_in q /\ known_type (p_type q) /\ same_test_data p q).
  { intros q Ed Hs Hkt Hsd Hpr. split; [|done]. destruct Hs as (S1 & S2 & S3 & S4). constructor; rewrite ?Ed, ?S1, ?S3, ?S4; try done. by right. }
  destruct ((data =? TYPE_HOST) || (data =? TYPE_NET) || (data =? TYPE_TCPOPT) || (data =? TYPE_ETHER)) eqn:E1.
  { injection E as <- <-. assert (Hk : known_type data).
    { repeat match goal with H : _ || _ = true |- _ => apply orb_true_iff in H as [H|H] end; apply Z.eqb_eq in E1; subst data; plain. }
    cbn [p_srcdst with_type]. destruct (p_srcdst p =? 0); apply Hdone; unfold same_test_data; fields; done. }
  destruct (data =? TYPE_PROTO). { injection E as <- <-. apply Hdone; unfold same_test_data; fields; done || plain. }
  destruct (data =? TYPE_PORT).
  { injection E as <- <-. cbn [p_srcdst with_type]. destruct (p_srcdst p =? 0); cbn [p_transp_proto with_srcdst with_type];
      destruct (p_transp_proto p =? UNKNOWN); apply Hdone; unfold same_test_data; fields; done || plain. }
  destruct (data =? TYPE_NONE). { destruct (negb _); [|done]. injection E as <- <-. apply Hdone; unfold same_test_data; fields; done || plain. }
  destruct (is_field data) eqn:Ef; [|done]. injection E as <- <-. specialize (Hfd eq_refl).
  destruct (has_field_proto data && _); apply Hdone; unfold same_test_data; fields; try done; try (by right). apply field_proto_ok. destruct Hfd. lia.
Qed.

Lemma infer_type_ok prev p errh p' errh' :
  prim_in p -> prev_ok prev -> 0 <= p_type p -> infer_type prev p errh = (p', errh', true) ->
  prim_in p' /\ known_type (p_type p') /\ same_test_data p p' /\ (p_type p <> 0 -> p' = p).
Proof.
  intros Hp Hv Ht E. unfold infer_type in E. destruct (Z.eqb_spec (p_type p) 0) as [E0|Hne]; cbn [negb] in E.
  2:{ injection E as <- <-. split; [done|]. split; [by destruct (in_type _ Hp); [lia|]|done]. }
  pose proof Hp as [I1 I2 I3 I4 I5 I6 I7 I8]. destruct (Z.eqb_spec (p_data p) TYPE_INT) as [Ed|Ed].
  - destruct (negb _ && _ && _) eqn:En; [done|]. apply infer_from_ok in E; [|constructor|done|by destruct Hv].
    + destruct E as (H1 & H2 & H3). done.
    + done.
    + done.
    + done.
    + done.
    + done.
    + cbn [with_data p_data]. intros E3. rewrite E3 in En. done.
    + done.
    + by destruct Hv.
  - apply infer_from_ok in E; [|done..]. by destruct E as (H1 & H2 & H3).
Qed.

(** ** What a completed test asks for

    [asked] is the meaning of a test whose type is known, before masks and bounds
    are encoded: [mask_dt] and [mask] are the given mask, if any. *)

Definition provided (mask_dt : Z) (mask : PrimitiveData) : Z := if negb (mask_dt =? 0) then d_u mask else 0.
Definition default_side (p : Primitive) : Z := if p_srcdst p =? 0 then SD_OR else p_srcdst p.

Definition asked_host (sd u m : Z) (neg : bool) (d : Z -> Z) : bool :=
  xorb (sides sd (compared_addr u m (field d (offset_net + 12) 0)) (compared_addr u m (field d (offset_net + 16) 0))) neg.

(** A name for several protocols has a number from 256 up; under [!=] that number is
    compared with the protocol of the packet like any other, under the mask. *)
Definition asked_proto (op v m : Z) (neg : bool) (d : Z -> Z) : bool :=
  if (256 <=? i32 v) && negb neg then proto_holds (i32 v) d else xorb (relation op v m (field d (offset_net + 8) 16)) neg.

(** A relation on the sides of a test.  [<] is the negation of [>=] on the same
    sides, so that [src or dst port < 100] asks it of both ports. *)
Definition relation_sides (op srcdst : Z) (src dst : bool) : bool :=
  if op =? OP_LT then negb (sides srcdst (negb src) (negb dst)) else sides srcdst src dst.

(** The protocol of a protocol test is the value, or the one named before it. *)
Definition proto_asked (p : Primitive) : Z :=
  if (p_data p =? TYPE_INT) || (p_data p =? TYPE_PROTO) then d_u (p_u p) else u32 (p_transp_proto p).

Definition asked (header mask_dt : Z) (mask : PrimitiveData) (p : Primitive) (d : Z -> Z) : bool :=
  let t := p_type p in let op := p_op p in let neg := p_op_negated p in let proto := p_transp_proto p in
  let u := d_u (p_u p) in let given := provided mask_dt mask in
  let test x full := relation op u (given_mask full given) x in
  if t =? TYPE_PROTO then
    asked_proto op (proto_asked p) (given_mask 255 given) neg d
  else if t =? TYPE_PORT then
    proto_holds (if proto =? UNKNOWN then IP_PROTO_TCP_OR_UDP else proto) d && first_fragment d
    && xorb (relation_sides op (default_side p) (test (field d offset_transp 16) 65535) (test (field d offset_transp 0) 65535)) neg
  else if t =? TYPE_TCPOPT then
    proto_holds (if proto =? UNKNOWN then IP_PROTO_TCP else proto) d && first_fragment d
    && ((field d (offset_transp + 12) 16 .& u) =? u)
  else
    proto_holds proto d && (negb (needs_first_fragment t) || first_fragment d) &&
    (if ((t =? TYPE_HOST) || (t =? TYPE_ETHER)) && (header =? header_e) then
       let m := if negb (mask_dt =? 0) then mkData (d_u mask) (d_hi mask .& 65535) else mkData 4294967295 65535 in
       xorb (ether_holds (with_srcdst (with_mask p m) (default_side p)) d) neg
     else if t =? TYPE_HOST then asked_host (default_side p) u (if negb (mask_dt =? 0) then d_u mask else 4294967295) neg d
     else if t =? TYPE_NET then asked_host (default_side p) u (if negb (mask_dt =? 0) then d_u mask else d_u (p_mask p)) neg d
     else if t =? TYPE_IPECT then
       if p_data p =? TYPE_NONE then negb ((field_bits FIELD_TOS d .& given_mask 3 given) =? 0)
       else xorb (test (field_bits FIELD_TOS d) 3) neg
     else if t =? TYPE_IPCE then xorb ((field_bits FIELD_TOS d .& 3) =? 3) neg
     else if t =? TYPE_IPFRAG then xorb (is_fragment d) neg
     else if t =? TYPE_IPUNFRAG then negb (is_fragment d)
     else xorb (test (field_bits t d) (2 ^ field_length t - 1)) neg).

(** ** [check_data] *)

Lemma field_not t c : field_ok t -> is_field c = false -> (t =? c) = false.
Proof. intros (_ & Hf & _) Hc. apply Z.eqb_neq. intros E. by rewrite E, Hc in Hf. Qed.

(** A test of a type that has no sides is left alone at the end of [check]. *)
Definition fixed (p : Primitive) : Primitive :=
  if (p_type p =? TYPE_HOST) || (p_type p =? TYPE_PORT) || (p_type p =? TYPE_ETHER) then with_srcdst p (default_side p) else p.

Lemma default_side_ok p : 0 <= p_srcdst p <= 4 -> side_ok (default_side p).
Proof. unfold default_side, side_ok, SD_OR. destruct (Z.eqb_spec (p_srcdst p) 0); lia. Qed.

(** The bound is not rounded with an undefined shift. *)
Definition fair (mask_dt : Z) (mask : PrimitiveData) (p : Primitive) : Prop := fair_mask p (provided mask_dt mask).

(** A completed test on a field, from what [set_mask] left. *)
Lemma field_checked p' t : prim_ok p' -> p_type p' = t -> field_ok t -> fixed p' = p' /\ forall d, holds p' d =
  proto_holds (p_transp_proto p') d && (negb (needs_first_fragment t) || first_fragment d)
  && xorb (compared p' (field_bits t d)) (p_op_negated p').
Proof.
  intros Hp Et Hf. unfold fixed, holds, type_holds. rewrite Et, !(field_not t) by done. done.
Qed.

Lemma tos_ok : field_ok FIELD_TOS.
Proof. split; [done|]. split; [done|]. done. Qed.

(** A completed test on the two bits of the type of service. *)
Lemma tos_checked p p' : data_ok (p_u p') -> data_ok (p_mask p') -> comparable p' -> d_u (p_mask p') <= 3 ->
  p_type p' = FIELD_TOS -> p_transp_proto p' = p_transp_proto p -> proto_ok (p_transp_proto p) ->
  prim_ok (fixed p') /\ forall d, holds (fixed p') d =
    proto_holds (p_transp_proto p) d && xorb (compared p' (field_bits FIELD_TOS d)) (p_op_negated p').
Proof.
  intros Hu Hm Hc Hle Ht Hpr Hok. assert (Hp : prim_ok p').
  { constructor; [done|done|by rewrite Hpr|done|]. unfold type_ok. rewrite Ht. do 5 right. split; [apply tos_ok|]. change (2 ^ field_length FIELD_TOS) with 256. lia. }
  destruct (field_checked p' _ Hp Ht tos_ok) as [Hfix Hh]. split; [by rewrite Hfix|]. intros d. rewrite Hfix, Hh, Hpr.
  change (needs_first_fragment FIELD_TOS) with false. cbn [negb orb]. by rewrite andb_true_r.
Qed.

Lemma i32_word u : word u -> u < 2147483648 /\ i32 u = u \/ 2147483648 <= u /\ i32 u = u - 4294967296.
Proof. intros Hu. unfold word in Hu. unfold i32. rewrite u32_small by done. destruct (Z.ltb_spec u 2147483648); lia. Qed.

(** A relation on both sides keeps its value when its negation is the one that [<]
    adds, or when it is constant. *)
Lemma sides_relation (f g : Z -> bool) (neg neg' : bool) op sd a b :
  (forall x, xorb (f x) neg' = xorb (g x) neg) ->
  neg' = xorb (op =? OP_LT) neg \/ (forall x, f x = true) ->
  xorb (sides sd (f a) (f b)) neg' = xorb (relation_sides op sd (g a) (g b)) neg.
Proof.
  intros H Hn. pose proof (H a) as Ha. pose proof (H b) as Hb. unfold relation_sides, sides.
  destruct Hn as [-> |Hf]; [|rewrite !Hf in *];
    destruct (op =? OP_LT), (sd =? SD_SRC), (sd =? SD_DST), (sd =? SD_AND); revert Ha Hb; clear;
    destruct (g a), (g b), neg; try destruct neg'; try destruct (f a), (f b); cbn; congruence.
Qed.

Section check.
Context (mask_dt : Z) (mask : PrimitiveData) (Hmask : data_ok mask).
Let given := provided mask_dt mask.

Lemma provided_range : 0 <= given < 4294967296.
Proof using Hmask. unfold given, provided. destruct Hmask as [H _]. unfold word in H. destruct (negb _); lia. Qed.

(** A result of [check_data] that compiles to what [p] asks for. *)
Definition checked (header : Z) (p p' : Primitive) : Prop :=
  prim_ok (fixed p') /\ forall d, (forall off, word (d off)) -> holds (fixed p') d = asked header mask_dt mask p d.

Lemma check_field_ok p errh p' errh' :
  prim_in p -> field_ok (p_type p) -> fair mask_dt mask p ->
  check_field mask_dt mask p errh = (p', errh', true) -> checked header_i p p'.
Proof using Hmask.
  intros [I1 I2 I3 I4 I5 I6 I7 I8] Hf F1 E. unfold check_field in E.
  destruct (negb _ && negb _); [done|]. destruct (negb _ && negb _ && negb _); [done|]. fold (field_length (p_type p)) (provided mask_dt mask) given in E.
  destruct (field_word _ Hf) as (_ & _ & W).
  assert (Ex : (if field_length (p_type p) =? 32 then 4294967295 else (1 .<< field_length (p_type p)) - 1) = 2 ^ field_length (p_type p) - 1).
  { destruct (Z.eqb_spec (field_length (p_type p)) 32) as [->|]; [done|]. rewrite Z.shiftl_mul_pow2 by lia. lia. }
  cbv zeta in E. rewrite Ex in E. pose proof provided_range as Hpr.
  apply set_mask_ok in E as ((C1 & C2 & C3 & C4) & (T1 & T2 & T3) & _ & R); [|lia|done|done|lia|done|done].
  assert (Hp : prim_ok p').
  { constructor; try done; [by rewrite T3|]. unfold type_ok. rewrite T1. do 5 right. split; [done|]. unfold word in *. lia. }
  destruct (field_checked p' _ Hp T1 Hf) as [Hfix Hh]. rewrite <- Hfix in Hp. split; [exact Hp|]. intros d Hd.
  rewrite Hfix, Hh, R, T3. unfold asked. by rewrite !(field_not (p_type p)) by done.
Qed.

Lemma check_ect_ok p errh p' errh' :
  prim_in p -> p_type p = TYPE_IPECT -> fair mask_dt mask p ->
  check_ect mask_dt mask p errh = (p', errh', true) -> checked header_i p p'.
Proof using Hmask.
  intros [I1 I2 I3 I4 I5 I6 I7 I8] Ht F1 E. unfold check_ect in E. fold (provided mask_dt mask) given in E.
  destruct (negb _ && negb _); [done|]. destruct (negb _ && negb _ && negb _); [done|]. pose proof provided_range as Hpr.
  set (q := if p_data p =? TYPE_NONE then _ else p) in E. destruct (set_mask q 3 0 given errh) as [[r e] ok] eqn:Es. destruct ok; cbn [negb] in E; [|done].
  injection E as <- <-. change 3 with (2 ^ 2 - 1) in Es.
  assert (Q : data_ok (p_u q) /\ data_ok (p_mask q) /\ op_ok (p_op q) /\ fair_mask q given /\ p_transp_proto q = p_transp_proto p).
  { unfold q. destruct (Z.eqb_spec (p_data p) TYPE_NONE) as [En|]; [|done]. destruct I1, I2. rewrite (I6 En). unfold data_ok, word in *. fields.
    split; [lia|]. split; [lia|]. split; [by left|]. split; [by right|done]. }
  destruct Q as (Q1 & Q2 & Q3 & Q4 & Q5).
  apply set_mask_ok in Es as ((C1 & C2 & C3 & C4) & (T1 & T2 & T3) & _ & R); [|lia|done|done|lia|done|done].
  destruct (tos_checked p (with_type r FIELD_TOS)) as [Hok Hh]; [done|done|done|exact C4|done|by rewrite <- Q5|done|].
  split; [exact Hok|]. intros d Hd. rewrite Hh. unfold asked. rewrite Ht.
  consts. change (needs_first_fragment TYPE_IPECT) with false. cbn [negb orb andb]. rewrite andb_true_r. f_equal.
  change (xorb (compared (with_type r FIELD_TOS) _) _) with (xorb (compared r (field_bits FIELD_TOS d)) (p_op_negated r)). rewrite R.
  fold given. change (2 ^ 2 - 1) with 3. unfold q. destruct (Z.eqb_spec (p_data p) TYPE_NONE) as [En|]; [|done].
  fields. rewrite (I6 En). unfold relation. change (OP_EQ =? OP_EQ) with true. cbv match. by rewrite xorb_true_r.
Qed.

Lemma check_ce_ok p : prim_in p -> p_type p = TYPE_IPCE -> p_data p = TYPE_NONE -> checked header_i p (with_type (set_u (set_m p 3) 3) FIELD_TOS).
Proof using given mask mask_dt.
  intros [I1 I2 I3 I4 I5 I6 I7 I8] Ht En. destruct I1, I2.
  destruct (tos_checked p (with_type (set_u (set_m p 3) 3) FIELD_TOS)) as [Hok Hh]; unfold data_ok, word, comparable in *; fields; try done; try lia.
  split; [exact Hok|]. intros d Hd. rewrite Hh. unfold asked. rewrite Ht.
  consts. change (needs_first_fragment TYPE_IPCE) with false. cbn [negb orb andb]. rewrite andb_true_r. f_equal.
  unfold compared, comparison. fields. by rewrite (I6 En).
Qed.

Lemma check_frag_ok p neg : prim_in p -> p_data p = TYPE_NONE ->
  p_type p = TYPE_IPFRAG /\ neg = p_op_negated p \/ p_type p = TYPE_IPUNFRAG /\ neg = true ->
  checked header_i p (with_type (set_m (with_op p (p_op p) neg) 1) TYPE_IPFRAG).
Proof using given mask mask_dt.
  intros [I1 I2 I3 I4 I5 I6 I7 I8] En Ht. destruct I1, I2. set (q := with_type _ _). assert (Hf : fixed q = q) by done.
  unfold checked. rewrite Hf. unfold q. split.
  - constructor; unfold data_ok, word, comparable in *; fields; try done; [lia|]. by do 2 right; left.
  - intros d Hd. unfold asked. destruct Ht as [[Ht ->]|[Ht ->]]; rewrite Ht; consts; [done|].
    unfold holds, type_holds. fields. consts. by rewrite xorb_true_r.
Qed.

Lemma check_tcpopt_ok p errh p' errh' : prim_in p -> p_type p = TYPE_TCPOPT ->
  check_tcpopt mask_dt p errh = (p', errh', true) -> checked header_i p p'.
Proof using given mask mask_dt.
  intros [I1 I2 I3 I4 I5 I6 I7 I8] Ht E. unfold check_tcpopt in E. set (q := if p_data p =? TYPE_INT then _ else p) in E.
  assert (Q : p_type q = p_type p /\ p_u q = p_u p /\ p_mask q = p_mask p /\ p_transp_proto q = p_transp_proto p /\ p_op q = p_op p) by (unfold q; by destruct (_ =? _)).
  destruct Q as (Q1 & Q2 & Q3 & Q4 & Q5). destruct (negb _); [done|]. set (r := if p_transp_proto q =? UNKNOWN then _ else q) in E.
  assert (R : p_type r = p_type p /\ p_u r = p_u p /\ p_mask r = p_mask p /\ p_op r = p_op p
    /\ p_transp_proto r = if p_transp_proto p =? UNKNOWN then IP_PROTO_TCP else p_transp_proto p).
  { unfold r. rewrite <- Q1, <- Q2, <- Q3, <- Q4, <- Q5. by destruct (p_transp_proto q =? UNKNOWN). }
  destruct R as (R1 & R2 & R3 & R4 & R5). destruct (negb _ && negb _); [done|]. destruct (negb (p_op r =? OP_EQ) || _ || _) eqn:Eo; [done|].
  destruct ((d_i (p_u r) <? 0) || _) eqn:Ev; [done|]. injection E as <- <-.
  apply orb_false_iff in Eo as [[Eo _]%orb_false_iff _]. apply negb_false_iff, Z.eqb_eq in Eo.
  apply orb_false_iff in Ev as [Ev1%Z.ltb_ge Ev2%Z.ltb_ge]. rewrite R2 in Ev1, Ev2. destruct I1 as [U1 U2]. destruct I2 as [M1 M2].
  assert (Hu : d_u (p_u p) <= 255). { unfold d_i in *. pose proof (i32_word _ U1); unfold word in U1; lia. }
  set (q' := set_m r _). assert (Hf : fixed q' = q') by (unfold fixed, q'; fields; by rewrite R1, Ht).
  unfold checked. rewrite Hf. unfold q'. split.
  - constructor; unfold data_ok, word, comparable in *; fields; rewrite ?R2, ?R3; try done; try lia.
    + rewrite R5. destruct (p_transp_proto p =? UNKNOWN); [right; unfold IP_PROTO_TCP; lia|done].
    + unfold type_ok. fields. rewrite R1, R2. do 4 right. left. split; [done|]. lia.
  - intros d Hd. unfold asked, holds, type_holds. fields. rewrite R1, R2, R5, Ht. consts. by rewrite Z.land_diag.
Qed.

Lemma check_port_ok p errh p' errh' : prim_in p -> p_type p = TYPE_PORT -> fair mask_dt mask p ->
  check_port mask_dt mask p errh = (p', errh', true) -> checked header_i p p'.
Proof using Hmask.
  intros [I1 I2 I3 I4 I5 I6 I7 I8] Ht F1 E. unfold check_port in E. fold (provided mask_dt mask) given in E. pose proof provided_range as Hpr.
  set (q := if p_data p =? TYPE_INT then _ else p) in E. destruct (negb _); [done|]. destruct (negb _ && negb _ && negb _ && negb _ && negb _); [done|].
  destruct (negb _ && negb _ && negb _); [done|]. set (r := if p_transp_proto q =? UNKNOWN then _ else q) in E. change 65535 with (2 ^ 16 - 1) in E.
  assert (R : p_type r = p_type p /\ p_u r = p_u p /\ p_mask r = p_mask p /\ p_op r = p_op p /\ p_op_negated r = p_op_negated p /\ p_srcdst r = p_srcdst p
    /\ p_transp_proto r = if p_transp_proto p =? UNKNOWN then IP_PROTO_TCP_OR_UDP else p_transp_proto p).
  { unfold r, q. destruct (p_data p =? TYPE_INT); fields; [|]; by destruct (p_transp_proto p =? UNKNOWN). }
  destruct R as (R1 & R2 & R3 & R4 & R5 & R6 & R7). pose proof (fun H => set_mask_side _ _ _ _ _ _ H E) as Hside. unfold fair in F1.
  apply set_mask_ok in E as ((C1 & C2 & C3 & C4) & (T1 & T2 & T3) & _ & R); [|lia|by rewrite R2|by rewrite R3|lia|by rewrite R4|unfold fair_mask; by rewrite R4, R2].
  assert (Hf : fixed p' = with_srcdst p' (default_side p)) by (unfold fixed; rewrite T1, R1, Ht; unfold default_side; by rewrite T2, R6).
  unfold checked. rewrite Hf. split.
  - constructor; fields; try done.
    + rewrite T3, R7. destruct (p_transp_proto p =? UNKNOWN); [right; unfold IP_PROTO_TCP_OR_UDP; lia|done].
    + unfold type_ok. fields. rewrite T1, R1. do 3 right. left. split; [done|]. split; [by apply default_side_ok|]. exact C4.
  - intros d Hd. unfold asked, holds, type_holds. fields. rewrite T1, R1, T3, R7, Ht. consts. f_equal.
    change (compared (with_srcdst p' (default_side p))) with (compared p').
    rewrite R2, R4, R5 in R. rewrite R4, R5 in Hside. exact (sides_relation (compared p') _ _ _ _ _ _ _ R (Hside I4)).
Qed.

Lemma proto_fixed q : p_type q = TYPE_PROTO -> fixed q = q.
Proof using. intros E. unfold fixed. by rewrite E. Qed.

(** A name for several protocols. *)
Lemma proto_pseudo p q : p_type p = TYPE_PROTO -> p_type q = TYPE_PROTO -> p_op q = OP_EQ ->
  data_ok (p_u q) -> data_ok (p_mask q) -> word (proto_asked p) -> 256 <= i32 (proto_asked p) -> p_op_negated p = false ->
  checked header_i p (with_proto (set_m q 255) (i32 (proto_asked p))).
Proof using given mask mask_dt.
  intros Ht Hq Hop Hu Hm Hw Hv Hn. pose proof (i32_word _ Hw) as Hi. unfold checked. rewrite proto_fixed by done. split.
  - destruct Hm as [_ Hm]. constructor; unfold data_ok, word, comparable in *; fields; try done; try lia; [right; lia|].
    right. left. fields. done.
  - intros d Hd. unfold asked, holds, type_holds, asked_proto. fields. rewrite Hq, Ht, Hn. consts. rewrite (proj2 (Z.leb_le _ _) Hv), (proj2 (Z.ltb_ge _ _) Hv).
    change (needs_first_fragment TYPE_PROTO) with false. cbn [negb orb]. by rewrite !andb_true_r.
Qed.

(** The same name under [!=]. *)
Lemma proto_negated p q : p_type p = TYPE_PROTO -> p_type q = TYPE_PROTO -> p_op q = OP_EQ -> p_op p = OP_EQ -> p_transp_proto q = UNKNOWN ->
  data_ok (p_u q) -> data_ok (p_mask q) -> d_u (p_u q) = proto_asked p -> given = 0 -> p_op_negated q = true -> p_op_negated p = true ->
  checked header_i p (set_m q 255).
Proof using given mask mask_dt.
  intros Ht Hq Hop Hopp Hpr Hu Hm Eu Hg Hnq Hn. unfold checked. rewrite proto_fixed by done. split.
  - destruct Hm as [_ Hm]. constructor; unfold data_ok, word, comparable in *; fields; try done; try lia;
      first [by rewrite Hpr; left|by left|right; left; fields; split; [done|lia]].
  - intros d Hd. unfold asked, holds, type_holds, asked_proto. fields. rewrite Hq, Ht, Hpr, Hn, Hnq. consts. rewrite andb_false_r.
    change (needs_first_fragment TYPE_PROTO) with false. cbn [negb orb]. rewrite andb_true_r. f_equal. fold given. rewrite Hg.
    unfold compared, comparison, relation. fields. rewrite Hop, Hopp, Eu. done.
Qed.

(** A protocol number. *)
Lemma proto_number p r : p_type p = TYPE_PROTO -> p_type r = TYPE_PROTO -> p_transp_proto r = UNKNOWN ->
  comparable r -> data_ok (p_u r) -> data_ok (p_mask r) -> d_u (p_mask r) <= 255 ->
  (p_op r = OP_EQ -> d_u (p_u r) <= 255) -> i32 (proto_asked p) < 256 ->
  (forall x, xorb (compared r x) (p_op_negated r)
     = xorb (relation (p_op p) (proto_asked p) (given_mask 255 given) x) (p_op_negated p)) ->
  checked header_i p (if (p_op r =? OP_EQ) && (d_u (p_mask r) =? 255) && negb (p_op_negated r) then with_proto r (d_i (p_u r)) else r).
Proof using given mask mask_dt.
  intros Ht Hr Hpr Hc Hu Hm Hle Hsm Hv R. destruct (_ && _ && _) eqn:E; unfold checked; rewrite proto_fixed by done.
  - apply andb_true_iff in E as [[Eo%Z.eqb_eq Em%Z.eqb_eq]%andb_true_iff En%negb_true_iff]. specialize (Hsm Eo).
    assert (Hi : d_i (p_u r) = d_u (p_u r)). { destruct Hu as [Hu _]. unfold d_i. pose proof (i32_word _ Hu). unfold word in Hu. lia. }
    assert (H0 : 0 <= d_u (p_u r) <= 255) by (destruct Hu as [Hu _]; unfold word in Hu; lia). split.
    + constructor; try done; fields; [right; lia|]. right. left. done.
    + intros d Hd. unfold asked, holds, type_holds, asked_proto. fields. rewrite Hr, Ht. consts. change (needs_first_fragment TYPE_PROTO) with false. cbn [negb orb].
      rewrite (proj2 (Z.leb_gt _ _) Hv), <- R, En, !andb_true_r, !xorb_false_r, Hi, (proj2 (Z.ltb_lt _ _)) by lia.
      change (compared (with_proto r (d_u (p_u r)))) with (compared r). unfold proto_holds, compared, comparison. rewrite Eo, Em. consts.
      rewrite (proj2 (Z.eqb_neq _ UNKNOWN)), (proj2 (Z.eqb_neq _ IP_PROTO_TCP_OR_UDP)), (proj2 (Z.leb_gt _ _)) by (unfold UNKNOWN, IP_PROTO_TCP_OR_UDP; lia).
      change 255 with (Z.ones 8). rewrite (Z.land_ones (d_u (p_u r))), (Z.mod_small (d_u (p_u r))) by lia. by rewrite andb_diag.
  - split.
    + constructor; try done; [by rewrite Hpr; left|]. right. left. done.
    + intros d Hd. unfold asked, holds, type_holds, asked_proto. rewrite Hr, Ht, Hpr. consts. change (needs_first_fragment TYPE_PROTO) with false. cbn [negb orb].
      rewrite (proj2 (Z.leb_gt _ _) Hv), <- R. done.
Qed.

Lemma check_proto_ok p errh p' errh' : prim_in p -> p_type p = TYPE_PROTO -> fair mask_dt mask p ->
  check_proto mask_dt mask p errh = (p', errh', true) -> checked header_i p p'.
Proof using Hmask.
  intros [I1 I2 I3 I4 I5 I6 I7 I8] Ht F1 E. unfold check_proto in E. pose proof provided_range as Hpr.
  set (q := with_proto (if (p_data p =? TYPE_INT) || (p_data p =? TYPE_PROTO) then _ else _) UNKNOWN) in E.
  assert (Q : p_type q = TYPE_PROTO /\ d_u (p_u q) = proto_asked p /\ p_mask q = p_mask p /\ p_op q = p_op p /\ p_op_negated q = p_op_negated p
    /\ p_transp_proto q = UNKNOWN /\ data_ok (p_u q) /\ (p_data q = TYPE_NONE -> p_op p = OP_EQ \/ proto_asked p = d_u (p_u p))).
  { unfold q, proto_asked. destruct ((_ =? _) || _); fields; [by auto 10|]. split; [done|]. repeat (split; [done|]). destruct I1 as [_ I1].
    split; [|by auto]. split; [|done]. fields. apply Z.mod_pos_bound. lia. }
  clearbody q. destruct Q as (Q1 & Q2 & Q3 & Q4 & Q5 & Q6 & Q7 & Q8).
  destruct ((_ || _) && _ && _); [done|]. destruct (negb (p_data q =? TYPE_NONE) || _) eqn:En; [done|].
  apply orb_false_iff in En as [En _]. apply negb_false_iff, Z.eqb_eq in En. specialize (Q8 En).
  unfold d_i in E. rewrite Q2 in E. assert (Hw : word (proto_asked p)) by (rewrite <- Q2; by destruct Q7). pose proof (i32_word _ Hw) as Hi. unfold word in Hw.
  destruct (Z.leb_spec 256 (i32 (proto_asked p))) as [Hv|Hv].
  - destruct (negb (p_op q =? OP_EQ) || _) eqn:Eo; [done|]. apply orb_false_iff in Eo as [Eo Em]. apply negb_false_iff, Z.eqb_eq in Eo.
    cbn [negb] in E. fields. rewrite Eo, Q5 in E.
    destruct (p_op_negated p) eqn:Hn.
    + injection E as <- <-. apply proto_negated; try done; [by rewrite <- Q4|by rewrite Q3|]. unfold given, provided. by rewrite Em.
    + change ((OP_EQ =? OP_EQ) && (255 =? 255) && negb false) with true in E. cbv match in E. injection E as <- <-. rewrite Q2.
      apply proto_pseudo; try done; by rewrite Q3.
  - destruct (negb (mask_dt =? 0) && _); [done|]. fold (provided mask_dt mask) given in E. change 255 with (2 ^ 8 - 1) in E at 1.
    destruct (set_mask q (2 ^ 8 - 1) 0 given errh) as [[r e] ok] eqn:Es. destruct ok; cbn [negb] in E; [|done]. injection E as <- <-.
    assert (Hfair : fair_mask q given).
    { destruct Q8 as [Q8|Q8]; [right; unfold bad_bound; by rewrite Q4, Q8|unfold fair_mask; rewrite Q4, Q2, Q8; exact F1]. }
    assert (Hop : op_ok (p_op q)) by (by rewrite Q4). assert (Hu : 0 <= d_u (p_u q) < 4294967296) by (by rewrite Q2).
    pose proof (set_mask_small _ _ _ _ _ _ Hu Hop Es) as Hsm.
    apply set_mask_ok in Es as ((C1 & C2 & C3 & C4) & (T1 & T2 & T3) & _ & R); [|lia|done|by rewrite Q3|lia|done|done].
    rewrite Q2, Q4, Q5 in R. apply proto_number; try done; [by rewrite T1|by rewrite T3].
Qed.

(** *** Addresses *)

Lemma host_checked p q m : p_type q = TYPE_HOST -> p_op q = OP_EQ -> p_u q = p_u p -> p_srcdst q = p_srcdst p ->
  p_transp_proto q = p_transp_proto p -> p_op_negated q = p_op_negated p -> p_mask q = m -> prim_in p -> data_ok m ->
  prim_ok (fixed q) /\ forall d, holds (fixed q) d =
    proto_holds (p_transp_proto p) d && asked_host (default_side p) (d_u (p_u p)) (d_u m) (p_op_negated p) d.
Proof using.
  intros Ht Hop Hu Hs Hpr Hn Em [I1 I2 I3 I4 I5 I6 I7 I8] Hm.
  assert (Hf : fixed q = with_srcdst q (default_side p)) by (unfold fixed, default_side; by rewrite Ht, Hs). rewrite Hf. split.
  - constructor; fields; rewrite ?Hu, ?Em, ?Hpr; try done; [by left|]. left. fields. split; [by left|]. split; [done|]. by apply default_side_ok.
  - intros d. unfold holds, type_holds, asked_host. fields. rewrite Ht, Hu, Em, Hpr, Hn. consts.
    change (needs_first_fragment TYPE_HOST) with false. cbn [negb orb]. by rewrite andb_true_r.
Qed.

Lemma set_host_mask_ok p errh p' errh' : set_host_mask mask_dt mask p errh = (p', errh', true) ->
  p' = set_m p (if negb (mask_dt =? 0) then d_u mask else d_u (p_mask p)).
Proof using.
  intros E. unfold set_host_mask in E. destruct (negb _ && negb _ && negb _); [done|]. destruct (negb (mask_dt =? 0)); injection E as <- _; [done|].
  by destruct p as [? ? ? ? ? ? ? [? ?]].
Qed.

Lemma asked_addr p d : p_type p = TYPE_HOST \/ p_type p = TYPE_NET ->
  asked header_i mask_dt mask p d = proto_holds (p_transp_proto p) d
    && asked_host (default_side p) (d_u (p_u p))
         (if negb (mask_dt =? 0) then d_u mask else if p_type p =? TYPE_HOST then 4294967295 else d_u (p_mask p)) (p_op_negated p) d.
Proof using.
  intros Ht. unfold asked. destruct Ht as [-> | ->]; consts.
  - change (needs_first_fragment TYPE_HOST) with false. cbn [negb orb]. by rewrite andb_true_r.
  - change (needs_first_fragment TYPE_NET) with false. cbn [negb orb]. by rewrite andb_true_r.
Qed.

Lemma check_ether_ok p errh p' errh' : prim_in p -> p_type p = TYPE_ETHER ->
  check_data header_e mask_dt mask p errh = (p', errh', true) -> checked header_e p p'.
Proof using Hmask.
  intros [I1 I2 I3 I4 I5 I6 I7 I8] Ht E. unfold check_data in E. rewrite Ht in E. cbn -[Z.eqb d_u d_hi] in E. revert E. consts.
  destruct (p_data p =? TYPE_ETHER); cbn [negb]; [|done]. destruct (Z.eqb_spec (p_op p) OP_EQ) as [Eo|]; cbn [negb]; [|done].
  destruct (_ && _); [done|]. intros E. injection E as <- <-. set (q := with_mask _ _).
  assert (Hf : fixed q = with_srcdst q (default_side p)) by (unfold fixed, q; fields; by rewrite Ht). unfold checked. rewrite Hf. unfold q. split.
  - constructor; fields; try done.
    + destruct (negb _); [|done]. destruct Hmask as [H1 H2]. unfold data_ok, word in *. cbn [d_u d_hi]. split; [lia|].
      change 65535 with (Z.ones 16). rewrite Z.land_ones by lia. pose proof (Z.mod_pos_bound (d_hi mask) (2 ^ 16) ltac:(lia)). lia.
    + by left.
    + left. fields. split; [by right|]. split; [done|]. by apply default_side_ok.
  - intros d Hd. unfold asked, holds, type_holds. fields. rewrite Ht. consts. done.
Qed.

(** *** All types *)

Lemma check_data_ok header p errh p' errh' : prim_in p -> known_type (p_type p) -> fair mask_dt mask p ->
  header = header_e \/ header = header_i ->
  check_data header mask_dt mask p errh = (p', errh', true) -> checked header p p'.
Proof using Hmask.
  intros Hp Hk Hfair Hh E. pose proof Hp as [I1 I2 I3 I4 I5 I6 I7 I8].
  destruct (Z.eq_dec (p_type p) TYPE_ETHER) as [Ht|Hne].
  { destruct Hh as [-> | ->]; [by eapply check_ether_ok|]. unfold check_data in E. by rewrite Ht in E. }
  unfold check_data in E. cbv zeta in E. destruct Hh as [-> | ->].
  { exfalso. revert E. change (header_e =? header_i) with false. cbn [negb orb]. rewrite (proj2 (Z.eqb_neq _ _) Hne).
    repeat match goal with |- context [p_type p =? ?t] => destruct (Z.eqb_spec (p_type p) t); [done|] end.
    destruct (is_field (p_type p)) eqn:Ef; [done|]. destruct Hk as [Hk|(_ & Hk & _)]; [|congruence]. unfold plain_type in Hk.
    repeat (apply elem_of_cons in Hk as [Hk|Hk]; [congruence|]). by apply not_elem_of_nil in Hk. }
  revert E. change (header_i =? header_i) with true. cbn [negb orb]. rewrite (proj2 (Z.eqb_neq _ _) Hne).
  destruct (Z.eqb_spec (p_type p) TYPE_HOST) as [Ht|Hh].
  { destruct (p_data p =? TYPE_HOST); cbn [negb]; [|done]. destruct (Z.eqb_spec (p_op p) OP_EQ) as [Eo|]; cbn [negb]; [|done].
    intros E%set_host_mask_ok. subst p'. match goal with |- checked _ _ ?q => destruct (host_checked p q (p_mask q)) as [H1 H2]; try done end.
    - destruct Hmask, I2. unfold data_ok, word in *. fields. destruct (negb _); lia.
    - split; [done|]. intros d Hd. rewrite H2, asked_addr by auto. rewrite Ht. done. }
  destruct (Z.eqb_spec (p_type p) TYPE_NET) as [Ht|Hn].
  { destruct (p_data p =? TYPE_NET); cbn [negb]; [|done]. destruct (Z.eqb_spec (p_op p) OP_EQ) as [Eo|]; cbn [negb]; [|done].
    intros E%set_host_mask_ok. subst p'. match goal with |- checked _ _ ?q => destruct (host_checked p q (p_mask q)) as [H1 H2]; try done end.
    - destruct Hmask, I2. unfold data_ok, word in *. fields. destruct (negb _); lia.
    - split; [done|]. intros d Hd. rewrite H2, asked_addr by auto. rewrite Ht. done. }
  destruct (Z.eqb_spec (p_type p) TYPE_PROTO) as [Ht|?]; [by apply check_proto_ok|].
  destruct (Z.eqb_spec (p_type p) TYPE_PORT) as [Ht|?]; [by apply check_port_ok|].
  destruct (Z.eqb_spec (p_type p) TYPE_TCPOPT) as [Ht|?]; [by apply check_tcpopt_ok|].
  destruct (Z.eqb_spec (p_type p) TYPE_IPECT) as [Ht|?]; [by apply check_ect_ok|].
  destruct (Z.eqb_spec (p_type p) TYPE_IPCE) as [Ht|?].
  { destruct (Z.eqb_spec (p_data p) TYPE_NONE) as [En|]; cbn [andb]; [|done]. destruct (mask_dt =? 0); [|done]. intros E. injection E as <- <-. by apply check_ce_ok. }
  destruct (Z.eqb_spec (p_type p) TYPE_IPFRAG) as [Ht|?].
  { destruct (Z.eqb_spec (p_data p) TYPE_NONE) as [En|]; cbn [andb]; [|done]. destruct (mask_dt =? 0); [|done]. intros E. injection E as <- <-.
    pose proof (check_frag_ok p _ Hp En (or_introl (conj Ht eq_refl))) as H. rewrite <- Ht in H. by destruct p. }
  destruct (Z.eqb_spec (p_type p) TYPE_IPUNFRAG) as [Ht|?].
  { destruct (Z.eqb_spec (p_data p) TYPE_NONE) as [En|]; cbn [andb]; [|done]. destruct (mask_dt =? 0); [|done]. intros E. injection E as <- <-.
    exact (check_frag_ok p true Hp En (or_intror (conj Ht eq_refl))). }
  destruct Hk as [Hk|Hk]; [exfalso; unfold plain_type in Hk; repeat (apply elem_of_cons in Hk as [Hk|Hk]; [congruence|]); by apply not_elem_of_nil in Hk|]. pose proof Hk as (_ & Hf & _). rewrite Hf. by apply check_field_ok.
Qed.
End check.

(** ** [check] *)

Definition effective_header (header : Z) (p : Primitive) : Z :=
  if negb (header =? 0) then header else if p_data p =? TYPE_ETHER then header_e else header_i.

(** The test that [infer_type] completed, with the type that the header gives it. *)
Definition retyped (header : Z) (p : Primitive) : Primitive :=
  if (effective_header header p =? header_e) && (p_type p =? TYPE_HOST) then with_type p TYPE_ETHER else p.

Lemma fix_srcdst_fixed old p errh : (fix_srcdst old p errh).1 = fixed p.
Proof. unfold fix_srcdst, fixed, default_side. destruct (_ || _); [|done]. destruct (Z.eqb_spec (p_srcdst p) 0) as [E|]; [done|]. by destruct p. Qed.

Lemma retyped_ok mask_dt mask header q : prim_in q -> known_type (p_type q) -> fair mask_dt mask q ->
  prim_in (retyped header q) /\ known_type (p_type (retyped header q)) /\ fair mask_dt mask (retyped header q)
  /\ forall d, asked (effective_header header q) mask_dt mask (retyped header q) d = asked (effective_header header q) mask_dt mask q d.
Proof.
  intros Hq Hk Hf. unfold retyped. destruct (_ && _) eqn:E; [|done]. apply andb_true_iff in E as [Eh Et]. apply Z.eqb_eq in Et.
  assert (Hkt : known_type TYPE_ETHER) by plain. destruct Hq as [I1 I2 I3 I4 I5 I6 I7 I8]. split; [constructor; fields; try done; by right|].
  split; [done|]. split; [done|].
  intros d. unfold asked. fields. rewrite Et, Eh. consts. done.
Qed.

Lemma check_keeps_holds prev header mask_dt mask p errh q errh1 p' errh' :
  prim_in p -> prev_ok prev -> data_ok mask -> header ∈ [0; header_e; header_i] ->
  infer_type prev p errh = (q, errh1, true) -> fair mask_dt mask q ->
  prim_check prev header mask_dt mask p errh = (p', errh', true) ->
  prim_ok p' /\ forall d, (forall off, word (d off)) -> holds p' d = asked (effective_header header q) mask_dt mask q d.
Proof.
  intros Hp Hv Hm Hh Ei Hf E. unfold prim_check in E. destruct (Z.ltb_spec (p_type p) 0); [done|]. rewrite Ei in E. cbv zeta in E. cbn [negb] in E.
  destruct (infer_type_ok _ _ _ _ _ Hp Hv ltac:(lia) Ei) as (Hq & Hk & _). destruct (retyped_ok mask_dt mask header q Hq Hk Hf) as (R1 & R2 & R3 & R4).
  fold (effective_header header q) in E. fold (retyped header q) in E.
  destruct (check_data _ _ _ _ _) as [[r e] ok] eqn:Ed. destruct ok; cbn [negb] in E; [|done].
  pose proof (fix_srcdst_fixed (p_srcdst p) r e) as Hfix. destruct (fix_srcdst _ _ _) as [s e']. injection E as <- <-. cbn [fst] in Hfix. subst s.
  assert (He : effective_header header q = header_e \/ effective_header header q = header_i).
  { unfold effective_header. apply elem_of_cons in Hh as [-> |Hh]; [destruct (p_data q =? TYPE_ETHER); auto|].
    apply elem_of_cons in Hh as [-> |Hh]; [by left|]. apply list_elem_of_singleton in Hh as ->. by right. }
  destruct (check_data_ok mask_dt mask Hm _ _ _ _ _ R1 R2 R3 He Ed) as [H1 H2]. split; [done|]. intros d Hd. rewrite H2, R4; done.
Qed.

(** C13.  What [check] accepts can be compiled, and it means what the test asks
    for once its type has been inferred from the data and from the test before it:
    masks, rounded bounds, [<] as a negated [>], relations that are always true,
    shorthands and default protocols do not change the meaning.  In that meaning [<]
    is the negation of [>=] on the same sides ([src or dst port < 100] asks it of both
    ports), and [!=] compares a name for several protocols ([tcpudp], 256) with the
    protocol byte under the mask 255.  The test is one that the parser makes, with
    data if it has an operator ([prim_in]; an operator without data is an error), and
    its bound is not the one that [set_mask] rounds with an undefined shift ([fair]:
    no mask, or not one that leaves out just the lowest bit of a bound below it). *)
Theorem check_keeps_meaning prev header mask_dt mask p errh q errh1 p' errh' :
  prim_in p -> prev_ok prev -> data_ok mask -> header ∈ [0; header_e; header_i] ->
  infer_type prev p errh = (q, errh1, true) -> fair mask_dt mask q ->
  prim_check prev header mask_dt mask p errh = (p', errh', true) ->
  prim_ok p' /\ forall d, (forall off, word (d off)) -> holds p' d = asked (effective_header header q) mask_dt mask q d.
Proof. apply check_keeps_holds. Qed.

(** [src port < 1024] *)
Definition low_port : Primitive := mkPrim TYPE_PORT TYPE_INT OP_LT false SD_SRC UNKNOWN (mkData 1024 0) (mkData 0 0).
Definition no_prim : Primitive := clear (mkData 0 0) (mkData 0 0).

(** A TCP packet whose other words are zero. *)
Definition tcp_words (off : Z) : Z := if off =? 264 then ntohl 393216 else 0.

Lemma low_port_in : prim_in low_port.
Proof.
  constructor; try done; unfold data_ok, word; cbn; try lia; [by left|by do 2 right|]. right. left. unfold plain_type. rewrite !elem_of_cons. tauto.
Qed.

Lemma no_prim_ok : prev_ok no_prim.
Proof. constructor; [by left|cbn; lia|done]. Qed.

Lemma low_port_fair : fair 0 (mkData 0 0) low_port.
Proof. by left. Qed.

Lemma check_keeps_meaning_witness :
  let r := prim_check no_prim 0 0 (mkData 0 0) low_port [] in
  r.2 = true /\ holds r.1.1 tcp_words = true.
Proof.
  pose proof (check_keeps_meaning no_prim 0 0 (mkData 0 0) low_port [] low_port []
    (prim_check no_prim 0 0 (mkData 0 0) low_port []).1.1 (prim_check no_prim 0 0 (mkData 0 0) low_port []).1.2
    low_port_in no_prim_ok ltac:(split; unfold word; simpl; lia) ltac:(apply elem_of_cons; left; reflexivity)
    ltac:(reflexivity) low_port_fair ltac:(vm_compute; reflexivity)) as [_ H].
  split; [vm_compute; reflexivity|]. cbv zeta. rewrite (H tcp_words ltac:(intros off; unfold word, tcp_words; destruct (off =? 264); [change (ntohl 393216) with 1536|]; lia)). vm_compute. reflexivity.
Defined.
