(* ===== verification/IntArg.v ===== *)
(** * Integers in text

    [IntArg] of click/lib/args.cc for 32-bit integers, whose value is one limb,
    and [cp_integer] of click/lib/confparse.cc.  Text is a list of characters. *)

From S2P Require Import Prelude.
From stdpp Require Import strings.
Local Open Scope Z_scope.

(** The characters of a literal. *)
Definition chars (s : string) : list Z := map (fun a => Z.of_nat (Ascii.nat_of_ascii a)) (String.list_ascii_of_string s).
Arguments chars s%_string_scope.

(** ** Digits *)

(** [ndigits] and [nletters] of [span]. *)
Definition ndigits (b : Z) : Z := if 10 <? b then 10 else b.
Definition nletters (b : Z) : Z := if 10 <? b then b - 10 else 0.

Definition is_digit (b c : Z) : bool :=
  ((48 <=? c) && (c <? 48 + ndigits b)) || ((65 <=? c) && (c <? 65 + nletters b)) || ((97 <=? c) && (c <? 97 + nletters b)).

(** The digit of a character in [parse], if it is one. *)
Definition digit_of (b c : Z) : option Z :=
  if (48 <=? c) && (c <=? 57) then Some (c - 48)
  else if (65 <=? c) && (c <? 65 + nletters b) then Some (c - 65 + 10)
  else if (97 <=? c) && (c <? 97 + nletters b) then Some (c - 97 + 10)
  else None.

(** ** [span]: the end of the number and its base

    The loop; one unit of fuel per character. *)
Fixpoint span_loop (fuel : nat) (b : Z) (s : list Z) (i last : Z) : Z * Z :=
  match fuel with
  | O => (i, last)
  | S fuel' =>
      if i <? vlen s then
        let c := vget s i in
        if (c =? 95) && (last =? i) then span_loop fuel' b s (i + 1) last
        else if is_digit b c then span_loop fuel' b s (i + 1) (i + 1)
        else (i, last)
      else (i, last)
  end.

Definition has_sign (is_signed : bool) (s : list Z) : bool :=
  (0 <? vlen s) && ((is_signed && (vget s 0 =? 45)) || (vget s 0 =? 43)).

(** The index behind the prefix, and the base. *)
Definition prefix_base (s : list Z) (i b : Z) : Z * Z :=
  let zero := (i <? vlen s) && (vget s i =? 48) in
  let next (c1 c2 : Z) := (i + 2 <? vlen s) && zero && ((vget s (i + 1) =? c1) || (vget s (i + 1) =? c2)) in
  if ((b =? 0) || (b =? 16)) && next 120 88 then (i + 2, 16)
  else if (b =? 0) && next 98 66 then (i + 2, 2)
  else if (b =? 0) && zero then (i, 8)
  else if b =? 0 then (i, 10)
  else (i, b).

Definition span (s : list Z) (is_signed : bool) (b : Z) : Z * Z :=
  let i := if has_sign is_signed s then 1 else 0 in
  let '(first, b) := prefix_base s i b in
  let '(i, last) := span_loop (length s) b s first (first - 1) in
  (if negb (i =? first) then last else if 1 <? first then first - 1 else 0, b).

(** ** [parse] *)

Inductive int_status := status_ok | status_inval | status_range.
#[export] Instance int_status_eq : EqDecision int_status.
Proof. solve_decision. Defined.

(** [v0], the limb and the status. *)
Record digits_state := mkDigits { dg_v0 : Z; dg_value : Z; dg_status : int_status }.

Definition threshold : Z := 119304647.   (** [0xFFFFFFFF / 36] *)

(** [Bigint::multiply_half] on one limb: the limb and the carry. *)
Definition multiply_half (a b carry : Z) : Z * Z :=
  let x0 := u32 (u32 (a * b) + carry) in
  (x0, u32 ((if x0 <? carry then 1 else 0) + a * b / 4294967296)).

Definition add_digit (b : Z) (st : digits_state) (c : Z) : digits_state :=
  match digit_of b c with
  | None => st
  | Some digit =>
      if dg_v0 st <? threshold then let v := u32 (dg_v0 st * b + digit) in mkDigits v v (dg_status st)
      else
        let '(x, carry) := multiply_half (dg_value st) b digit in
        mkDigits (dg_v0 st) x (if carry =? 0 then dg_status st else status_range)
  end.

(** The end of the number, the status, and the limb; the limb is not written if
    there is no number. *)
Definition parse_int (s : list Z) (is_signed : bool) (base : Z) : Z * int_status * Z :=
  let '(xend, b) := span s is_signed base in
  if (b <? 2) || (36 <? b) || (xend =? 0) then (0, status_inval, 0)
  else
    let st := fold_left (add_digit b) (take (Z.to_nat xend) s) (mkDigits 0 0 status_ok) in
    let negative := is_signed && (vget s 0 =? 45) in
    let bitsize := 32 - if is_signed then 1 else 0 in
    let status :=
      if bool_decide (dg_status st = status_ok) && (bitsize <? 32)
           && ((1 .<< bitsize) + (if negative then 1 else 0) <=? dg_value st)
      then status_range else dg_status st in
    let value :=
      if bool_decide (status = status_range)
      then (if is_signed then (if negative then 0 else 4294967295) .^ u32 (1 .<< (bitsize .& 31)) else if negative then 0 else 4294967295)
      else dg_value st in
    (xend, status, if negative then u32 (- value) else value).

(** [IntArg(base).parse(s, result)]: the word stored, if it returns true. *)
Definition int_arg_base (base : Z) (is_signed : bool) (s : list Z) : option Z :=
  let '(xend, status, value) := parse_int s is_signed base in
  if (xend =? vlen s) && bool_decide (status = status_ok) then Some value else None.

(** [IntArg().parse(s, result)] *)
Definition int_arg : bool -> list Z -> option Z := int_arg_base 0.

(** [cp_integer(begin, end, base, &result)]: where it stops, and the [int] it
    stores, if it stores one. *)
Definition cp_integer (s : list Z) (base : Z) : Z * option Z :=
  let '(xend, status, value) := parse_int s true base in
  if bool_decide (status = status_inval) then (0, None) else (xend, Some (i32 value)).

(** ** The numbers that are read *)

(** The value of digits in base [b]; other characters do not count. *)
Definition push_digit (b n c : Z) : Z := match digit_of b c with Some d => n * b + d | None => n end.
Definition digits_value (b : Z) (s : list Z) : Z := fold_left (push_digit b) s 0.

Lemma digit_value b c : 2 <= b <= 36 -> is_digit b c = true -> exists d, digit_of b c = Some d /\ 0 <= d < b.
Proof.
  intros Hb. unfold is_digit, digit_of, ndigits, nletters. intros H. apply orb_true_iff in H as [[[H1%Z.leb_le H2%Z.ltb_lt]%andb_true_iff|H]%orb_true_iff|H].
  - destruct (Z.leb_spec 48 c), (Z.leb_spec c 57); cbn [andb]; try (destruct (Z.ltb_spec 10 b); lia). exists (c - 48). split; [done|]. destruct (Z.ltb_spec 10 b); lia.
  - apply andb_true_iff in H as [H1%Z.leb_le H2%Z.ltb_lt]. destruct (Z.ltb_spec 10 b); [|lia].
    destruct (Z.leb_spec 48 c), (Z.leb_spec c 57); cbn [andb]; try lia. all: rewrite (proj2 (Z.leb_le 65 c)), (proj2 (Z.ltb_lt c _)) by lia; eexists; split; [done|lia].
  - apply andb_true_iff in H as [H1%Z.leb_le H2%Z.ltb_lt]. destruct (Z.ltb_spec 10 b); [|lia].
    rewrite (proj2 (Z.leb_le 48 c)), (proj2 (Z.leb_gt c 57)), (proj2 (Z.leb_le 65 c)), (proj2 (Z.ltb_ge c (65 + _))), (proj2 (Z.leb_le 97 c)), (proj2 (Z.ltb_lt c (97 + _))) by lia.
    eexists. split; [done|lia].
Qed.

Lemma digit_range b c d : 2 <= b <= 36 -> digit_of b c = Some d -> 0 <= d < 36.
Proof.
  intros Hb. unfold digit_of, nletters. destruct (Z.leb_spec 48 c), (Z.leb_spec c 57); cbn [andb]; repeat case_match; intros [=]; bprop; lia.
Qed.

Lemma multiply_half_spec a b d : 0 <= a < 4294967296 -> 2 <= b <= 36 -> 0 <= d < 36 ->
  multiply_half a b d = (u32 (a * b + d), if a * b + d <? 4294967296 then 0 else (multiply_half a b d).2)
  /\ (4294967296 <= a * b + d -> (multiply_half a b d).2 <> 0).
Proof.
  intros Ha Hb Hd. unfold multiply_half. cbv zeta. cbn [snd]. unfold u32. rewrite Z.add_mod_idemp_l by lia.
  pose proof (Z.div_mod (a * b) 4294967296 ltac:(lia)) as Hdm. pose proof (Z.mod_pos_bound (a * b) 4294967296 ltac:(lia)).
  set (q := a * b / 4294967296) in *. set (r := (a * b) mod 4294967296) in *. assert (0 <= q < 36) by nia.
  assert (E : (a * b + d) mod 4294967296 = if r + d <? 4294967296 then r + d else r + d - 4294967296).
  { destruct (Z.ltb_spec (r + d) 4294967296); symmetry; [apply (Z.mod_unique_pos _ _ q); lia|apply (Z.mod_unique_pos _ _ (q + 1)); lia]. }
  rewrite E. split.
  - f_equal. destruct (Z.ltb_spec (a * b + d) 4294967296); [|done]. assert (q = 0) by lia.
    destruct (Z.ltb_spec (r + d) 4294967296); [|lia]. destruct (Z.ltb_spec (r + d) d); [lia|]. by rewrite H2.
  - intros Hov. destruct (Z.ltb_spec (r + d) 4294967296).
    + destruct (Z.ltb_spec (r + d) d); [lia|]. rewrite Z.mod_small; lia.
    + destruct (Z.ltb_spec (r + d - 4294967296) d); [|lia]. rewrite Z.mod_small; lia.
Qed.

(** The limb has the value as long as it fits. *)
Record digits_inv (n : Z) (st : digits_state) : Prop := {
  di_value : 0 <= dg_value st < 4294967296;
  di_v0 : if dg_v0 st <? threshold then dg_v0 st = n /\ dg_value st = n /\ dg_status st = status_ok else threshold <= n;
  di_status : match dg_status st with status_ok => dg_value st = n | status_range => 4294967296 <= n | status_inval => False end;
  di_pos : 0 <= n
}.

Lemma add_digit_inv b n st c : 2 <= b <= 36 -> digits_inv n st -> digits_inv (push_digit b n c) (add_digit b st c).
Proof.
  intros Hb [Hv H0 Hs Hn]. unfold push_digit, add_digit. destruct (digit_of b c) as [d|] eqn:Ed; [|done]. pose proof (digit_range b c d Hb Ed) as Hd.
  destruct (Z.ltb_spec (dg_v0 st) threshold) as [Hlt|Hge].
  - destruct H0 as (E1 & E2 & E3). rewrite E1 in *. unfold threshold in *. assert (0 <= n * b + d < 4294967296) by nia.
    assert (Eu : u32 (n * b + d) = n * b + d) by (unfold u32; apply Z.mod_small; lia). rewrite Eu.
    constructor; cbn [dg_v0 dg_value dg_status]; [lia| |by rewrite E3|lia].
    destruct (Z.ltb_spec (n * b + d) threshold); [done|unfold threshold in *; lia].
  - destruct (multiply_half_spec (dg_value st) b d ltac:(lia) Hb Hd) as [Em Hc]. rewrite Em.
    constructor; cbn [dg_v0 dg_value dg_status].
    + apply Z.mod_pos_bound. lia.
    + rewrite (proj2 (Z.ltb_ge _ _) Hge). unfold threshold in *. nia.
    + destruct (dg_status st) eqn:Es; [|done|].
      * subst n. destruct (Z.ltb_spec (dg_value st * b + d) 4294967296) as [Hlt|Hov]; [unfold u32; apply Z.mod_small; nia|].
        by rewrite (proj2 (Z.eqb_neq _ _) (Hc Hov)).
      * assert (4294967296 <= n * b + d) by nia. by destruct (_ =? 0).
    + nia.
Qed.

Lemma digits_inv_all b s : 2 <= b <= 36 -> digits_inv (digits_value b s) (fold_left (add_digit b) s (mkDigits 0 0 status_ok)).
Proof.
  intros Hb. unfold digits_value. assert (H : digits_inv 0 (mkDigits 0 0 status_ok)) by (constructor; [cbn; lia|done|done|lia]).
  revert H. generalize 0 at 1 4. generalize (mkDigits 0 0 status_ok). induction s as [|c s IH]; intros st n H; [done|]. cbn [fold_left]. by apply IH, add_digit_inv.
Qed.

(** A sign, and whether it is negative; a base prefix with the digits behind it. *)
Inductive sign (is_signed : bool) : list Z -> bool -> Prop :=
| sign_none : sign is_signed [] false
| sign_plus : sign is_signed [43] false
| sign_minus : is_signed = true -> sign is_signed [45] true.

Inductive numeral : list Z -> Z -> list Z -> Prop :=
| num_dec c ds : c <> 48 -> forallb (is_digit 10) (c :: ds) = true -> numeral [] 10 (c :: ds)
| num_oct ds : forallb (is_digit 8) (48 :: ds) = true -> numeral [] 8 (48 :: ds)
| num_hex x ds : x = 120 \/ x = 88 -> ds <> [] -> forallb (is_digit 16) ds = true -> numeral [48; x] 16 ds
| num_bin x ds : x = 98 \/ x = 66 -> ds <> [] -> forallb (is_digit 2) ds = true -> numeral [48; x] 2 ds.

Lemma numeral_digits pre b ds : numeral pre b ds -> 2 <= b <= 16 /\ ds <> [] /\ forallb (is_digit b) ds = true.
Proof. intros H. destruct H; (split; [lia|by split]). Qed.

Lemma digit_char b c : b <= 16 -> is_digit b c = true -> c <> 95 /\ c <> 43 /\ c <> 45.
Proof.
  intros Hb H. unfold is_digit, ndigits, nletters in H. destruct (Z.ltb_spec 10 b); repeat (apply orb_true_iff in H as [H|H]); bprop; lia.
Qed.

Lemma span_loop_digits b s fuel : forall i last, b <= 16 -> 0 <= i <= vlen s -> vlen s - i <= Z.of_nat fuel ->
  (forall k, i <= k < vlen s -> is_digit b (vget s k) = true) ->
  span_loop fuel b s i last = (vlen s, if i <? vlen s then vlen s else last).
Proof.
  induction fuel as [|fuel IH]; intros i last Hb Hi Hf Hd; cbn [span_loop].
  - assert (i = vlen s) as -> by lia. by rewrite Z.ltb_irrefl.
  - destruct (Z.ltb_spec i (vlen s)) as [Hlt|]; [|by replace i with (vlen s) by lia]. specialize (Hd i ltac:(lia)) as Hdi.
    destruct (digit_char b _ Hb Hdi) as (H95 & _). rewrite (proj2 (Z.eqb_neq _ _) H95), Hdi. cbn [andb].
    rewrite IH; [|lia|lia|lia|intros k Hk; apply Hd; lia]. f_equal. destruct (Z.ltb_spec (i + 1) (vlen s)); lia.
Qed.

Lemma prefix_base_app l body b :
  prefix_base (l ++ body) (vlen l) b = (vlen l + (prefix_base body 0 b).1, (prefix_base body 0 b).2).
Proof.
  assert (E : forall k, 0 <= k -> vget (l ++ body) (vlen l + k) = vget body k) by (intros k Hk; rewrite vget_app_r by lia; f_equal; lia).
  pose proof (E 0 ltac:(lia)) as E0. rewrite Z.add_0_r in E0.
  assert (L : forall k, (vlen l + k <? vlen (l ++ body)) = (k <? vlen body)).
  { intros k. rewrite vlen_app. destruct (Z.ltb_spec k (vlen body)); [apply Z.ltb_lt|apply Z.ltb_ge]; lia. }
  pose proof (L 0) as L0. rewrite Z.add_0_r in L0. unfold prefix_base. rewrite E0, E, L, L0 by lia. change (0 + 2) with 2. change (0 + 1) with 1.
  repeat match goal with |- context [if ?c then _ else _] => destruct c end; cbn [fst snd]; f_equal; lia.
Qed.

Lemma prefix_base_numeral pre b ds : numeral pre b ds -> prefix_base (pre ++ ds) 0 0 = (vlen pre, b).
Proof.
  intros H. destruct H as [c ds Hc Hd|ds Hd|x ds Hx Hne Hd|x ds Hx Hne Hd]; unfold prefix_base; cbn [app]; rewrite vget_cons_0.
  - rewrite (proj2 (Z.eqb_neq _ _) Hc), andb_false_r. rewrite !andb_false_r. cbn [andb]. done.
  - rewrite vlen_cons, (vget_cons_S _ _ (0 + 1)) by lia. replace (0 + 1 - 1) with 0 by lia. change (48 =? 48) with true. change (0 =? 0) with true. cbn [orb andb].
    pose proof (vlen_nonneg ds). rewrite (proj2 (Z.ltb_lt 0 _)) by lia. destruct ds as [|c ds]; [done|]. rewrite vget_cons_0. cbn [forallb] in Hd.
    assert (c <> 120 /\ c <> 88 /\ c <> 98 /\ c <> 66) as (N1 & N2 & N3 & N4).
    { apply andb_true_iff in Hd as [_ Hd]. apply andb_true_iff in Hd as [Hd _]. unfold is_digit in Hd. change (ndigits 8) with 8 in Hd. change (nletters 8) with 0 in Hd.
      repeat (apply orb_true_iff in Hd as [Hd|Hd]); bprop; lia. }
    rewrite !(proj2 (Z.eqb_neq _ _)) by done. cbn [orb]. by rewrite !andb_false_r.
  - rewrite !vlen_cons, (vget_cons_S _ _ (0 + 1)) by lia. replace (0 + 1 - 1) with 0 by lia. rewrite vget_cons_0. destruct ds as [|c ds]; [done|]. rewrite vlen_cons. pose proof (vlen_nonneg ds).
    rewrite (proj2 (Z.ltb_lt (0 + 2) _)), (proj2 (Z.ltb_lt 0 _)) by lia. by destruct Hx as [-> | ->].
  - rewrite !vlen_cons, (vget_cons_S _ _ (0 + 1)) by lia. replace (0 + 1 - 1) with 0 by lia. rewrite vget_cons_0. destruct ds as [|c ds]; [done|]. rewrite vlen_cons. pose proof (vlen_nonneg ds).
    rewrite (proj2 (Z.ltb_lt (0 + 2) _)), (proj2 (Z.ltb_lt 0 _)) by lia. by destruct Hx as [-> | ->].
Qed.

Lemma head_not_sign pre b ds : numeral pre b ds -> 0 < vlen (pre ++ ds) /\ vget (pre ++ ds) 0 <> 43 /\ vget (pre ++ ds) 0 <> 45.
Proof.
  intros H. assert (Hl : 0 < vlen (pre ++ ds)) by (destruct H; cbn [app]; rewrite ?vlen_cons; vlia). split; [done|].
  destruct H as [c ds Hc Hd|ds Hd|x ds Hx Hne Hd|x ds Hx Hne Hd]; cbn [app]; rewrite vget_cons_0; [|lia..].
  cbn [forallb] in Hd. apply andb_true_iff in Hd as [Hd _]. by destruct (digit_char 10 c ltac:(lia) Hd) as (_ & ? & ?).
Qed.

Lemma has_sign_numeral is_signed sg neg pre b ds : sign is_signed sg neg -> numeral pre b ds ->
  has_sign is_signed (sg ++ pre ++ ds) = (0 <? vlen sg) /\ is_signed && (vget (sg ++ pre ++ ds) 0 =? 45) = neg.
Proof.
  intros Hs Hn. destruct (head_not_sign _ _ _ Hn) as (H0 & H1 & H2). unfold has_sign. destruct Hs as [| |E]; cbn [app].
  - rewrite !(proj2 (Z.eqb_neq _ _)) by done. by rewrite !andb_false_r.
  - rewrite vlen_cons, vget_cons_0, (proj2 (Z.ltb_lt 0 _)) by lia. by rewrite !andb_false_r.
  - rewrite vlen_cons, vget_cons_0, (proj2 (Z.ltb_lt 0 _)), E by lia. done.
Qed.

Lemma span_numeral is_signed sg neg pre b ds : sign is_signed sg neg -> numeral pre b ds ->
  span (sg ++ pre ++ ds) is_signed 0 = (vlen (sg ++ pre ++ ds), b).
Proof.
  intros Hs Hn. destruct (has_sign_numeral _ _ _ _ _ _ Hs Hn) as [E _]. destruct (numeral_digits _ _ _ Hn) as (Hb & Hne & Hd).
  unfold span. rewrite E. assert (Ei : (if 0 <? vlen sg then 1 else 0) = vlen sg) by (by destruct Hs). rewrite Ei, prefix_base_app, (prefix_base_numeral _ _ _ Hn).
  cbn [fst snd]. assert (Hl : 0 < vlen ds) by (destruct ds; [done|]; rewrite vlen_cons; vlia). pose proof (vlen_nonneg sg). pose proof (vlen_nonneg pre).
  rewrite span_loop_digits; [|lia|rewrite !vlen_app; lia|rewrite !vlen_app; unfold vlen in *; rewrite !length_app; lia|].
  - rewrite !vlen_app, (proj2 (Z.ltb_lt (vlen sg + vlen pre) _)), (proj2 (Z.eqb_neq _ _)) by lia. done.
  - intros k Hk. rewrite !vlen_app in Hk. rewrite app_assoc, vget_app_r by (rewrite vlen_app; lia).
    eapply forallb_forall in Hd; [exact Hd|]. apply list_elem_of_In, elem_of_vget. eexists. split; [|reflexivity]. rewrite vlen_app. lia.
Qed.

Lemma digits_value_numeral is_signed sg neg pre b ds : sign is_signed sg neg -> numeral pre b ds ->
  digits_value b (sg ++ pre ++ ds) = digits_value b ds.
Proof.
  intros Hs Hn. assert (E1 : forall s, digits_value b (sg ++ s) = digits_value b s).
  { intros s. by destruct Hs, Hn. }
  rewrite E1. by destruct Hn as [| |x ds [-> | ->]|x ds [-> | ->]].
Qed.

(** C32.  [IntArg] reads signed and unsigned 32-bit numbers in decimal, octal,
    hexadecimal and binary: the word stored is the number that the digits denote,
    and a number that does not fit is refused. *)
Theorem int_arg_numeral is_signed sg neg pre b ds : sign is_signed sg neg -> numeral pre b ds ->
  let n := digits_value b ds in
  int_arg is_signed (sg ++ pre ++ ds)
  = if n <? (if is_signed then 2147483648 + (if neg then 1 else 0) else 4294967296) then Some (u32 (if neg then - n else n)) else None.
Proof.
  intros Hs Hn n. unfold int_arg, int_arg_base, parse_int. rewrite (span_numeral _ _ _ _ _ _ Hs Hn).
  destruct (has_sign_numeral _ _ _ _ _ _ Hs Hn) as [_ Eneg]. rewrite Eneg. destruct (numeral_digits _ _ _ Hn) as (Hb & _).
  destruct (head_not_sign _ _ _ Hn) as (Hl & _). pose proof (vlen_nonneg sg).
  rewrite (proj2 (Z.ltb_ge b 2)), (proj2 (Z.ltb_ge 36 b)), (proj2 (Z.eqb_neq (vlen _) 0)) by (rewrite ?vlen_app in *; lia). cbn [orb].
  rewrite firstn_all2 by (unfold vlen; lia). set (s := sg ++ pre ++ ds) in *.
  pose proof (digits_inv_all b s ltac:(lia)) as [Hv _ Hst Hp]. set (st := fold_left _ _ _) in *.
  assert (En : digits_value b s = n) by (by apply (digits_value_numeral is_signed _ neg)). rewrite En in *. cbv zeta. rewrite Z.eqb_refl. cbn [andb].
  destruct (dg_status st) eqn:Es; [|done|].
  - rewrite (bool_decide_true (status_ok = status_ok)) by done. cbn [andb]. rewrite Hst. destruct is_signed.
    + change (32 - 1 <? 32) with true. change (1 .<< (32 - 1)) with 2147483648. cbn [andb].
      destruct (Z.leb_spec (2147483648 + (if neg then 1 else 0)) n); [by rewrite bool_decide_false, (proj2 (Z.ltb_ge _ _)) by done|].
      rewrite bool_decide_true, (proj2 (Z.ltb_lt _ _)), bool_decide_false by done. destruct neg; [done|]. f_equal. symmetry. apply Z.mod_small. lia.
    + assert (neg = false) as -> by (inversion Hs; congruence). change (32 - 0 <? 32) with false. cbn [andb].
      rewrite bool_decide_true, bool_decide_false, (proj2 (Z.ltb_lt _ _)) by (done || lia). f_equal. symmetry. apply Z.mod_small. lia.
  - rewrite (bool_decide_false (status_range = status_ok)) by done.
    by rewrite (proj2 (Z.ltb_ge n _)) by (destruct is_signed, neg; lia).
Qed.

Lemma int_arg_numeral_witness :
  int_arg true (chars "-0x8_0") = Some (u32 (-128)) /\ int_arg true (chars "-2147483648") = Some 2147483648 /\ int_arg true (chars "2147483648") = None.
Proof.
  split; [vm_compute; reflexivity|].
  pose proof (int_arg_numeral true [45] true [] 10 (chars "2147483648") ltac:(apply sign_minus; reflexivity) ltac:(apply num_dec; [discriminate|vm_compute; reflexivity])) as H1.
  pose proof (int_arg_numeral true [] false [] 10 (chars "2147483648") ltac:(apply sign_none) ltac:(apply num_dec; [discriminate|vm_compute; reflexivity])) as H2.
  split; [exact H1|exact H2].
Defined.
