(* ===== verification/FilterParse.v ===== *)
(** * The words of the filter language and its tests

    [separate_text], [IPFilter::lookup], [parse_brackets] and
    [Parser::parse_test] of elements/ip/ipfilter.cc: a pattern is cut into words,
    and a run of words is read as one test, which is checked and compiled.  The
    databases of names and the formats of addresses are an interface. *)

From S2P Require Import Prelude Packet Insn Program FilterPrim IntArg.
From stdpp Require Import strings.
Local Open Scope word_scope.
Local Open Scope Z_scope.

(** ** Words *)

Definition isspace (c : Z) : bool := (c =? 32) || ((9 <=? c) && (c <=? 13)).
Definition isalnum (c : Z) : bool :=
  ((48 <=? c) && (c <=? 57)) || ((65 <=? c) && (c <=? 90)) || ((97 <=? c) && (c <=? 122)).
(** Letters, digits and [- . / @ _ :] *)
Definition word_char (c : Z) : bool := isalnum c || existsb (Z.eqb c) [45; 46; 47; 64; 95; 58].

Fixpoint skip_blanks (s : list Z) : list Z :=
  match s with
  | c :: rest => if isspace c then skip_blanks rest else s
  | [] => []
  end.

Fixpoint scan_word (s : list Z) : list Z * list Z :=
  match s with
  | c :: rest => if word_char c then let '(w, r) := scan_word rest in (c :: w, r) else ([], s)
  | [] => ([], [])
  end.

(** The [switch]: the next word and what follows it.  Behind trailing blanks the
    code reads one character past the end, and whatever is there it pushes the
    substring that starts at the end, which is empty. *)
Definition next_word (s : list Z) : list Z * list Z :=
  match s with
  | [] => ([], [])
  | c :: rest =>
      let doubled (d : Z) := match rest with d' :: rest' => if d' =? d then ([c; d], rest') else ([c], rest) | [] => ([c], rest) end in
      if (c =? 38) || (c =? 124) then doubled c                                     (** [& |] *)
      else if existsb (Z.eqb c) [60; 62; 33; 61] then doubled 61                     (** [< > ! =] *)
      else if existsb (Z.eqb c) [40; 41; 91; 93; 44; 59; 63] then ([c], rest)        (** [( ) [ ] , ; ?] *)
      else if word_char c then scan_word s else ([c], rest)
  end.

Fixpoint separate (fuel : nat) (s : list Z) : list (list Z) :=
  match s, fuel with
  | [], _ | _, O => []
  | _, S fuel' => let '(w, rest) := next_word (skip_blanks s) in w :: separate fuel' rest
  end.

(** One turn per character is enough ([separate_text_complete]). *)
Definition separate_text (text : list Z) : list (list Z) := separate (length text) text.

Lemma word_char_space c : word_char c = true -> isspace c = false.
Proof.
  unfold word_char, isalnum, isspace. cbn [existsb]. intros Hc. repeat (apply orb_true_iff in Hc as [Hc|Hc]); bprop;
    try done; apply orb_false_iff; (split; [apply Z.eqb_neq; lia|apply andb_false_iff]); first [left; apply Z.leb_gt; lia|right; apply Z.leb_gt; lia].
Qed.

Lemma scan_word_split s : let '(w, r) := scan_word s in s = w ++ r /\ forallb (fun c => negb (isspace c)) w = true.
Proof.
  induction s as [|c s IH]; cbn [scan_word]; [done|]. destruct (word_char c) eqn:Ec; [|done]. destruct (scan_word s) as [w r]. destruct IH as [-> Hw].
  split; [done|]. cbn [forallb]. by rewrite (word_char_space c Ec).
Qed.

(** A word is a piece of the text that is not empty and has no blanks. *)
Lemma next_word_split c s : isspace c = false ->
  let '(w, r) := next_word (c :: s) in c :: s = w ++ r /\ w <> [] /\ forallb (fun c => negb (isspace c)) w = true.
Proof.
  intros Hc. assert (Hone : c :: s = [c] ++ s /\ [c] <> [] /\ forallb (fun c => negb (isspace c)) [c] = true) by (cbn [forallb]; by rewrite Hc).
  assert (Htwo : forall d, isspace d = false ->
    let '(w, r) := (match s with d' :: s' => if d' =? d then ([c; d], s') else ([c], s) | [] => ([c], s) end) in
    c :: s = w ++ r /\ w <> [] /\ forallb (fun c => negb (isspace c)) w = true).
  { intros d Hd. destruct s as [|d' s']; [exact Hone|]. destruct (Z.eqb_spec d' d) as [-> |]; [|exact Hone]. cbn [forallb app]. by rewrite Hc, Hd. }
  unfold next_word. cbv zeta. destruct ((c =? 38) || (c =? 124)); [by apply Htwo|]. destruct (existsb _ [60; 62; 33; 61]); [by apply Htwo|].
  destruct (existsb _ _); [exact Hone|]. destruct (word_char c) eqn:Ew; [|exact Hone].
  pose proof (scan_word_split (c :: s)) as H. destruct (scan_word (c :: s)) as [w r] eqn:Es. destruct H as [E Hw]. split; [done|]. split; [|done].
  intros ->. cbn [scan_word] in Es. rewrite Ew in Es. by destruct (scan_word s).
Qed.

Lemma skip_blanks_filter s : List.filter (fun c => negb (isspace c)) (skip_blanks s) = List.filter (fun c => negb (isspace c)) s
  /\ (length (skip_blanks s) <= length s)%nat /\ match skip_blanks s with c :: _ => isspace c = false | [] => True end.
Proof.
  induction s as [|c s (I1 & I2 & I3)]; [done|]. cbn [skip_blanks]. destruct (isspace c) eqn:Ec; [|done].
  split; [cbn [List.filter]; by rewrite Ec|]. split; [cbn [length]; lia|done].
Qed.

Lemma filter_all {A} (f : A -> bool) l : forallb f l = true -> List.filter f l = l.
Proof. induction l as [|x l IH]; [done|]. cbn. destruct (f x); [|done]. intros H. by rewrite IH. Qed.

(** The words are the text without its blanks: no character is lost or added. *)
Lemma separate_text_complete text : concat (separate_text text) = List.filter (fun c => negb (isspace c)) text.
Proof.
  unfold separate_text. assert (H : forall fuel s, (length s <= fuel)%nat -> concat (separate fuel s) = List.filter (fun c => negb (isspace c)) s); [|by apply H].
  induction fuel as [|fuel IH]; intros s Hs; [destruct s; [done|simpl in Hs; lia]|]. destruct (skip_blanks_filter s) as (E1 & E2 & E3). rewrite <- E1.
  destruct s as [|c s]; [done|]. cbn [separate]. destruct (skip_blanks (c :: s)) as [|c' s'].
  - cbn [next_word concat app]. by destruct fuel.
  - pose proof (next_word_split c' s' E3) as H. destruct (next_word (c' :: s')) as [w r]. destruct H as (E & Hne & Hw). rewrite E, List.filter_app, filter_all by done.
    cbn [concat]. f_equal. apply IH. apply (f_equal length) in E. rewrite length_app in E. assert (length w <> 0%nat) by (by destruct w). lia.
Qed.

Definition word_is (w : list Z) (s : string) : bool := bool_decide (w = chars s).
Arguments word_is w s%_string_scope.

(** ** Names *)

Inductive name_db := T_IPFILTER_TYPE | T_IP_PROTO | T_TCP_PORT | T_UDP_PORT | T_TCP_OPT | T_ICMP_TYPE.

(** What a name or the text of an address stands for in the context of the
    element: [NameInfo::query], [IPAddressArg], [IPPrefixArg] (address and mask)
    and [EtherAddressArg] (the first four bytes and the last two). *)
Class Names := {
  query : name_db -> list Z -> option Z;
  ip_address_arg : list Z -> option Z;
  ip_prefix_arg : list Z -> option (Z * Z);
  ether_address_arg : list Z -> option (Z * Z)
}.

(** Nothing has a name. *)
Definition nameless : Names := {|
  query _ _ := None; ip_address_arg _ := None; ip_prefix_arg _ := None; ether_address_arg _ := None |}.

(** The databases that the element installs. *)
Definition type_entries : list (list Z * Z) :=
  [(chars "ce", TYPE_IPCE); (chars "dest", TYPE_SYNTAX); (chars "dscp", FIELD_DSCP); (chars "dst", TYPE_SYNTAX);
   (chars "ect", TYPE_IPECT); (chars "ether", TYPE_SYNTAX); (chars "frag", TYPE_IPFRAG); (chars "hl", FIELD_HL);
   (chars "host", TYPE_HOST); (chars "id", FIELD_ID); (chars "ip", TYPE_SYNTAX); (chars "len", FIELD_IPLEN);
   (chars "net", TYPE_NET); (chars "not", TYPE_SYNTAX); (chars "opt", TYPE_TCPOPT); (chars "port", TYPE_PORT);
   (chars "proto", TYPE_PROTO); (chars "src", TYPE_SYNTAX); (chars "tos", FIELD_TOS); (chars "ttl", FIELD_TTL);
   (chars "type", FIELD_ICMP_TYPE); (chars "unfrag", TYPE_IPUNFRAG); (chars "vers", FIELD_VERSION); (chars "win", FIELD_TCP_WIN)].

Definition tcp_opt_entries : list (list Z * Z) :=
  [(chars "ack", 16); (chars "fin", 1); (chars "psh", 8); (chars "rst", 4); (chars "syn", 2); (chars "urg", 32)].

Section parse.
Context `{Names}.

(** [lookup]: the type of a word with its value, -1 for a word in no database and
    -2 for one that does not fit; [report] tells whether there is an error handler. *)
Definition lookup (word : list Z) (type proto : Z) (report : bool) : Z * Z * list message :=
  let by_type := if (type =? 0) || (type =? TYPE_TYPE) then query T_IPFILTER_TYPE word else None in
  match by_type with
  | Some data => (if data =? TYPE_SYNTAX then -1 else TYPE_TYPE, data, [])
  | None =>
      let got := map (fun db => query db word) [T_IP_PROTO; T_TCP_PORT; T_UDP_PORT; T_TCP_OPT; T_ICMP_TYPE] in
      if forallb (fun g => negb (bool_decide (is_Some g))) got then (-1, 0, [])
      else
        let want (t : Z) := (type =? 0) || (type =? t) in
        let over (ps : list Z) := (proto =? UNKNOWN) || existsb (Z.eqb proto) ps in
        let keep (ok : bool) (g : option Z) := if ok then g else None in
        match got with
        | [g0; g1; g2; g3; g4] =>
            let t0 := keep (want TYPE_PROTO) g0 in
            let t1 := keep (want TYPE_PORT && over [IP_PROTO_TCP; IP_PROTO_TCP_OR_UDP]) g1 in
            let t2 := keep (want TYPE_PORT && over [IP_PROTO_UDP; IP_PROTO_TCP_OR_UDP]) g2 in
            let t3 := keep (want TYPE_TCPOPT && over [IP_PROTO_TCP; IP_PROTO_TCP_OR_UDP]) g3 in
            let t4 := keep (want FIELD_ICMP_TYPE && over [IP_PROTO_ICMP]) g4 in
            (** "remove one of TCP and UDP port if they give the same value" *)
            let t2 := if bool_decide (is_Some t1) && bool_decide (t1 = t2) then None else t2 in
            let tagged (t : Z) (g : option Z) := match g with Some v => [(t, v)] | None => [] end in
            match tagged TYPE_PROTO t0 ++ tagged TYPE_PORT t1 ++ tagged TYPE_PORT t2 ++ tagged TYPE_TCPOPT t3 ++ tagged FIELD_ICMP_TYPE t4 with
            | [(t, v)] => (t, v, [])
            | _ => (-2, 0, if report then [E_bad_word] else [])
            end
        | _ => (-1, 0, [])
        end
  end.

(** ** [parse_brackets] *)

Context (words : list (list Z)).
Context (junk : PrimitiveData).   (** what uninitialized memory contains *)

Definition word_at (pos : Z) : list Z := vget words pos.

(** The loop up to the closing bracket: where it stops, and the words before. *)
Fixpoint combine_words (fuel : nat) (pos : Z) : Z * list Z :=
  match fuel with
  | O => (pos, [])
  | S fuel' =>
      if (pos <? vlen words) && negb (word_is (word_at pos) "]")
      then let '(pos', c) := combine_words fuel' (pos + 1) in (pos', word_at pos ++ c)
      else (pos, [])
  end.

(** [find]: the index of a character, or the length. *)
Fixpoint find_char (c : Z) (s : list Z) : Z :=
  match s with
  | x :: rest => if x =? c then 0 else find_char c rest + 1
  | [] => 0
  end.

(** Position and length of a field, if the syntax is right.  A number that is
    missing in front of the colon or comma leaves the position uninitialized. *)
Definition bracket_numbers (c : list Z) : option (Z * Z) :=
  let colon := find_char 58 c in
  let comma := find_char 44 c in
  let split (at_ unset : Z) :=
    let '(e1, v1) := cp_integer (take (Z.to_nat at_) c) 0 in
    let '(e2, v2) := cp_integer (drop (Z.to_nat (at_ + 1)) c) 0 in
    if (e1 =? at_) && (e2 =? vlen c - (at_ + 1)) then Some (default (d_i junk) v1, default unset v2) else None in
  if colon <? vlen c - 1 then split colon 1
  else if comma <? vlen c - 1 then
    '(fieldpos, pos2) ← split comma (d_i junk); Some (fieldpos, i32 (pos2 - fieldpos + 1))
  else v ← int_arg true c; Some (i32 v, 1).

Definition parse_brackets (prim : Primitive) (pos : Z) (errh : list message) : Primitive * Z * list message :=
  let first_pos := pos + 1 in
  let '(pos, combination) := combine_words (length words) first_pos in
  if vlen words <=? pos then (prim, first_pos, errh ++ [E_missing_bracket])
  else
    let pos := pos + 1 in
    match bracket_numbers combination with
    | None => (prim, pos, errh ++ [E_bracket_syntax])
    | Some (fieldpos, len) =>
        let fieldpos := i32 (fieldpos * 8) in
        let len := i32 (len * 8) in
        if (len <? 1) || (32 <? len) then (prim, pos, errh ++ [E_bracket_len])
        else if negb ((fieldpos .& Z.lnot 31) =? (i32 (fieldpos + len - 1) .& Z.lnot 31)) then (prim, pos, errh ++ [E_bracket_word])
        else
          let transp := if p_transp_proto prim =? UNKNOWN then 0 else p_transp_proto prim in
          let '(prim, errh) := set_type prim (i32 (TYPE_FIELD .| (transp .<< 21) .| (fieldpos .<< 5) .| (len - 1))) errh in
          (prim, pos, errh)
    end.

(** ** [parse_test] *)

(** What the parser has built, the test before, and the messages. *)
Record pstate := mkPState { ps_build : build; ps_prev : Primitive; ps_errh : list message }.

Record quals := mkQuals { q_pos : Z; q_prim : Primitive; q_header : Z; q_neg : bool; q_errh : list message }.

(** One turn of the loop that collects qualifiers; [None] is [break]. *)
Definition qual_step (q : quals) : option quals :=
  let '(mkQuals pos prim header neg errh) := q in
  let wd := word_at pos in
  let '(wt, wdata, _) := lookup wd 0 UNKNOWN false in
  let is_dst_word (w : list Z) := word_is w "dst" || word_is w "dest" in
  if wt =? TYPE_TYPE then
    let '(prim, errh) := set_type prim (i32 wdata) errh in
    let '(prim, errh) :=
      if is_field wdata && has_field_proto wdata then set_transp_proto prim (field_proto wdata) errh else (prim, errh) in
    Some (mkQuals (pos + 1) prim header neg errh)
  else if wt =? TYPE_PROTO then
    let '(prim, errh) := set_transp_proto prim (i32 wdata) errh in Some (mkQuals (pos + 1) prim header neg errh)
  else if negb (wt =? -1) then None
  else if word_is wd "src" then
    let both :=
      if (pos <? vlen words - 2) && is_dst_word (word_at (pos + 2)) then
        if word_is (word_at (pos + 1)) "and" || word_is (word_at (pos + 1)) "&&" then Some SD_AND
        else if word_is (word_at (pos + 1)) "or" || word_is (word_at (pos + 1)) "||" then Some SD_OR
        else None
      else None in
    match both with
    | Some sd => let '(prim, errh) := set_srcdst prim sd errh in Some (mkQuals (pos + 3) prim header neg errh)
    | None => let '(prim, errh) := set_srcdst prim SD_SRC errh in Some (mkQuals (pos + 1) prim header neg errh)
    end
  else if is_dst_word wd then
    let '(prim, errh) := set_srcdst prim SD_DST errh in Some (mkQuals (pos + 1) prim header neg errh)
  else if word_is wd "ip" || word_is wd "ether" then
    if negb (header =? 0) then None else Some (mkQuals (pos + 1) prim (vget wd 0) neg errh)
  else if word_is wd "not" || word_is wd "!" then Some (mkQuals (pos + 1) prim header (negb neg) errh)
  else None.

(** At most one turn per word. *)
Fixpoint collect_quals (fuel : nat) (q : quals) : quals :=
  match fuel with
  | O => q
  | S fuel' =>
      if q_pos q <? vlen words then match qual_step q with Some q' => collect_quals fuel' q' | None => q end else q
  end.

(** "optional bitmask": the position, the type of the mask, the mask. *)
Definition parse_mask (wd : list Z) (pos header : Z) (errh : list message) : Z * Z * PrimitiveData * list message :=
  if word_is wd "&" && (pos <? vlen words - 1) then
    let w := word_at (pos + 1) in
    let '(pos, mask_dt, mask) :=
      match int_arg false w with
      | Some u => (pos + 2, TYPE_INT, mkData u (d_hi junk))
      | None =>
          match (if negb (header =? header_e) then ip_address_arg w else None) with
          | Some a => (pos + 2, TYPE_HOST, mkData a (d_hi junk))
          | None =>
              match (if negb (header =? header_i) then ether_address_arg w else None) with
              | Some (lo, hi) => (pos + 2, TYPE_ETHER, mkData lo (hi .| (d_hi junk .& 4294901760)))
              | None => (pos, 0, junk)
              end
          end
      end in
    if negb (mask_dt =? 0) && negb (mask_dt =? TYPE_ETHER) && (d_u mask =? 0) then (pos, 0, mask, errh ++ [E_zero_mask])
    else (pos, mask_dt, mask, errh)
  else (pos, 0, junk, errh).

(** "optional relational operation" *)
Definition parse_relop (wd : list Z) (prim : Primitive) (pos : Z) : Primitive * Z :=
  if word_is wd "=" || word_is wd "==" then (prim, pos + 1)
  else if word_is wd "!=" then (with_op prim (p_op prim) true, pos + 1)
  else if word_is wd ">" then (with_op prim OP_GT (p_op_negated prim), pos + 1)
  else if word_is wd "<" then (with_op prim OP_LT (p_op_negated prim), pos + 1)
  else if word_is wd ">=" then (with_op prim OP_LT true, pos + 1)
  else if word_is wd "<=" then (with_op prim OP_GT true, pos + 1)
  else (prim, pos).

(** "now collect the actual data" *)
Definition parse_data (prim : Primitive) (pos header : Z) (errh : list message) : Primitive * Z * list message :=
  let ether := negb (header =? header_e) in
  let u x := set_u prim x in
  if pos <? vlen words then
    let wd := word_at pos in
    let '(wt, wdata, msgs) := lookup wd (p_type prim) (p_transp_proto prim) true in
    let errh := errh ++ msgs in
    let pos := pos + 1 in
    if wt =? -2 then (with_type prim (-2), pos, errh)
    else if negb (wt =? -1) && negb (wt =? TYPE_TYPE) then (with_data (set_u prim wdata) wt, pos, errh)
    else
      match int_arg true wd with
      | Some v => (with_data (set_u prim v) TYPE_INT, pos, errh)
      | None =>
          match (if ether then ip_address_arg wd else None) with
          | Some a =>
              let prim := set_u prim a in
              match (if (pos <? vlen words - 1) && word_is (word_at pos) "mask" then ip_address_arg (word_at (pos + 1)) else None) with
              | Some m => (with_data (set_m prim m) TYPE_NET, pos + 2, errh)
              | None =>
                  match (if p_type prim =? TYPE_NET then ip_prefix_arg wd else None) with
                  | Some (a, m) => (with_data (set_m (set_u prim a) m) TYPE_NET, pos, errh)
                  | None => (with_data prim TYPE_HOST, pos, errh)
                  end
              end
          | None =>
              match (if ether then ip_prefix_arg wd else None) with
              | Some (a, m) => (with_data (set_m (set_u prim a) m) TYPE_NET, pos, errh)
              | None =>
                  match (if negb (header =? header_i) then ether_address_arg wd else None) with
                  | Some (lo, hi) => (with_data (with_u prim (mkData lo (hi .| (d_hi (p_u prim) .& 4294901760)))) TYPE_ETHER, pos, errh)
                  | None =>
                      (prim, pos - 1, if negb (p_op prim =? OP_EQ) || p_op_negated prim then errh ++ [E_dangling] else errh)
                  end
              end
          end
      end
  else (prim, pos, errh).

(** The word at [pos] unless it is the last one. *)
Definition word_before_last (pos : Z) : list Z := if vlen words - 1 <=? pos then [] else word_at pos.

(** The "hard case": a test with qualifiers, operator and data, as it is read. *)
Record reading := mkReading {
  r_pos : Z; r_prim : Primitive; r_prev : Primitive; r_header : Z;
  r_mask_dt : Z; r_mask : PrimitiveData; r_neg : bool; r_errh : list message }.

Definition read_prim (pos : Z) (negated : bool) (prev : Primitive) (errh : list message) : reading :=
  let first_pos := pos in
  let '(mkQuals pos prim header negated errh) :=
    collect_quals (length words) (mkQuals pos (clear junk junk) 0 negated errh) in
  let prev := if negb (pos =? first_pos) then clear (p_u prev) (p_mask prev) else prev in
  let header := if p_data prev =? TYPE_ETHER then header_e else header in
  let wd := word_before_last pos in
  let '(prim, pos, errh, wd) :=
    if word_is wd "[" && (first_pos <? pos) && (p_type prim =? TYPE_NONE)
    then let '(prim, pos, errh) := parse_brackets prim pos errh in (prim, pos, errh, word_before_last pos)
    else (prim, pos, errh, wd) in
  let '(pos', mask_dt, mask, errh) := parse_mask wd pos header errh in
  let wd := if word_is wd "&" && (pos <? vlen words - 1) then word_before_last pos' else wd in
  let '(prim, pos) := parse_relop wd prim pos' in
  let '(prim, pos, errh) := parse_data prim pos header errh in
  mkReading pos prim prev header mask_dt mask negated errh.

(** What follows: the test is checked and compiled.  [None] is a failed assertion
    in [compile]. *)
Definition parse_prim (pos : Z) (negated : bool) (st : pstate) : option (Z * pstate) :=
  let r := read_prim pos negated (ps_prev st) (ps_errh st) in
  if r_pos r =? pos then Some (pos, mkPState (ps_build st) (r_prev r) (r_errh r ++ [E_empty_term]))
  else
    let '(prim, errh, ok) := prim_check (r_prev r) (r_header r) (r_mask_dt r) (r_mask r) (r_prim r) (r_errh r) in
    if ok then
      b ← prim_compile prim (ps_build st);
      Some (r_pos r, mkPState (if r_neg r then negate b false else b) prim errh)
    else Some (r_pos r, mkPState (ps_build st) (r_prev r) errh).

(** Words that end a term. *)
Definition ends_term (wd : list Z) : bool :=
  word_is wd ")" || word_is wd "||" || word_is wd "or" || word_is wd "?" || word_is wd ":".

Definition with_build (st : pstate) (b : build) : pstate := mkPState b (ps_prev st) (ps_errh st).

Definition parse_test (pos : Z) (negated : bool) (st : pstate) : option (Z * pstate) :=
  if vlen words <=? pos then Some (pos, st)
  else
    let first_word := word_at pos in
    if ends_term first_word then Some (pos, st)
    else if word_is first_word "true" then
      let b := insn (ps_build st) 0 0 0 in
      Some (pos + 1, with_build st (if negated : bool then negate b false else b))
    else if word_is first_word "false" then
      let b := insn (ps_build st) 0 0 0 in
      Some (pos + 1, with_build st (if negated : bool then b else negate b false))
    else parse_prim pos negated st.

(** ** Positions *)

Abbreviation size := (vlen words).

Lemma qual_step_progress q q' : q_pos q < size -> qual_step q = Some q' -> q_pos q < q_pos q' <= size.
Proof using Type.
  destruct q as [pos prim header neg errh]. intros Hp E. cbn [q_pos] in *. unfold qual_step in E.
  destruct (lookup _ _ _ _) as [[wt wdata] ms]. cbv zeta in E.
  repeat match type of E with
  | (if ?c then _ else _) = Some _ => destruct c eqn:?; try discriminate
  | (let '(_, _) := ?c in _) = Some _ => destruct c
  | match ?c with Some _ => _ | None => _ end = Some _ => destruct c eqn:?
  end; injection E as <-; cbn [q_pos]; try lia.
  match goal with Hb : (if (?c && _) then _ else _) = Some _ |- _ => destruct (pos <? size - 2) eqn:E2; cbn [andb] in Hb; [|discriminate] end.
  apply Z.ltb_lt in E2. lia.
Qed.

Lemma collect_quals_progress fuel q : q_pos q <= size -> q_pos q <= q_pos (collect_quals fuel q) <= size.
Proof using Type.
  revert q. induction fuel as [|fuel IH]; intros q Hq; cbn [collect_quals]; [lia|].
  destruct (Z.ltb_spec (q_pos q) size); [|lia]. destruct (qual_step q) as [q'|] eqn:E; [|lia].
  apply qual_step_progress in E; [|done]. specialize (IH q' ltac:(lia)). lia.
Qed.

Lemma combine_words_progress fuel pos : pos <= (combine_words fuel pos).1.
Proof using Type.
  revert pos. induction fuel as [|fuel IH]; intros pos; cbn [combine_words]; [simpl; lia|].
  destruct (_ && _); [|simpl; lia]. specialize (IH (pos + 1)). destruct (combine_words fuel (pos + 1)). simpl in *. lia.
Qed.

Lemma parse_brackets_progress prim pos errh : pos < size -> pos < (parse_brackets prim pos errh).1.2 <= size.
Proof using Type.
  intros Hp. unfold parse_brackets. pose proof (combine_words_progress (length words) (pos + 1)) as Hc.
  destruct (combine_words _ _) as [pos' c]. cbn [fst] in Hc. destruct (Z.leb_spec size pos'); [cbn [fst snd]; lia|].
  destruct (bracket_numbers c) as [[fieldpos len]|]; [|cbn [fst snd]; lia]. cbv zeta.
  repeat match goal with |- context [if ?c then _ else _] => destruct c end; try (destruct (set_type _ _ _)); cbn [fst snd]; lia.
Qed.

Lemma parse_mask_progress wd pos header errh : pos <= size -> pos <= (parse_mask wd pos header errh).1.1.1 <= size.
Proof using Type.
  intros Hp. unfold parse_mask. destruct (_ && _) eqn:E; [|cbn; lia]. apply andb_true_iff in E as [_ E%Z.ltb_lt]. cbv zeta.
  match goal with |- context [let '(_, _) := ?r in _] => assert (Hr : pos <= r.1.1 <= size) end.
  { destruct (int_arg _ _); [cbn; lia|]. destruct (if negb (header =? header_e) then _ else _); [cbn; lia|].
    destruct (if negb (header =? header_i) then _ else _) as [[? ?]|]; cbn; lia. }
  match goal with |- context [let '(_, _) := ?r in _] => destruct r as [[pos' dt] m] end. destruct (_ && _ && _); cbn [fst snd] in *; lia.
Qed.

Lemma word_before_last_nonempty pos w : word_is (word_before_last pos) w = true -> chars w <> [] -> pos < size - 1.
Proof using Type. unfold word_is, word_before_last. intros E%bool_decide_eq_true Hw. destruct (Z.leb_spec (size - 1) pos); [congruence|lia]. Qed.

Lemma parse_relop_progress pos prim : pos <= size ->
  pos <= (parse_relop (word_before_last pos) prim pos).2 <= size.
Proof using Type.
  intros Hp. unfold parse_relop.
  repeat match goal with |- context [if ?c then _ else _] => let E := fresh "E" in destruct c eqn:E end; cbn [snd]; try lia.
  all: try (apply orb_true_iff in E as [E|E]).
  all: match goal with Hw : word_is (word_before_last _) _ = true |- _ => apply word_before_last_nonempty in Hw; [lia|done] end.
Qed.

Lemma parse_data_progress prim pos header errh : pos <= size -> pos <= (parse_data prim pos header errh).1.2 <= size.
Proof using Type.
  intros Hp. unfold parse_data. destruct (Z.ltb_spec pos size) as [Hlt|]; [|cbn; lia].
  destruct (lookup _ _ _ _) as [[wt wdata] ms]. cbv zeta. destruct (wt =? -2); [cbn; lia|]. destruct (negb _ && negb _); [cbn; lia|].
  destruct (int_arg _ _); [cbn; lia|]. destruct (if negb (header =? header_e) then ip_address_arg _ else _).
  - match goal with |- context [if ?c then ip_address_arg _ else None] => destruct c eqn:Ec end.
    + apply andb_true_iff in Ec as [Ec%Z.ltb_lt _]. destruct (ip_address_arg _); [cbn; lia|].
      match goal with |- context [if ?c then ip_prefix_arg ?w else None] => destruct (if c then ip_prefix_arg w else None) as [[? ?]|] end; cbn; lia.
    + match goal with |- context [if ?c then ip_prefix_arg ?w else None] => destruct (if c then ip_prefix_arg w else None) as [[? ?]|] end; cbn; lia.
  - match goal with |- context [if ?c then ip_prefix_arg ?w else None] => destruct (if c then ip_prefix_arg w else None) as [[? ?]|] end; [cbn; lia|].
    match goal with |- context [if ?c then ether_address_arg ?w else None] => destruct (if c then ether_address_arg w else None) as [[? ?]|] end; cbn; lia.
Qed.

Lemma read_prim_progress pos negated prev errh : pos <= size -> pos <= r_pos (read_prim pos negated prev errh) <= size.
Proof using Type.
  intros Hp. unfold read_prim.
  pose proof (collect_quals_progress (length words) (mkQuals pos (clear junk junk) 0 negated errh) ltac:(cbn [q_pos]; lia)) as H1.
  destruct (collect_quals _ _) as [pos1 prim header neg errh1]. cbn [q_pos] in H1. cbv zeta.
  set (hd := if p_data _ =? TYPE_ETHER then _ else header).
  match goal with |- context [let '(_, _) := ?r in _] => assert (Hr : pos <= r.1.1.2 <= size /\ (r.2 = word_before_last r.1.1.2)) end.
  { destruct (word_is (word_before_last pos1) "[" && _ && _) eqn:Eb; [|cbn; split; [lia|done]].
    apply andb_true_iff in Eb as [[Eb _]%andb_true_iff _]. apply word_before_last_nonempty in Eb; [|done].
    pose proof (parse_brackets_progress prim pos1 errh1 ltac:(lia)). destruct (parse_brackets _ _ _) as [[? ?] ?]. cbn [fst snd] in *. split; [lia|done]. }
  match goal with |- context [let '(_, _) := ?r in _] => destruct r as [[[prim2 pos2] errh2] wd] end. cbn [fst snd] in Hr. destruct Hr as [Hr ->].
  pose proof (parse_mask_progress (word_before_last pos2) pos2 hd errh2 ltac:(lia)) as H3. destruct (parse_mask _ _ _ _) as [[[pos3 dt] mask] errh3] eqn:Em. cbn [fst snd] in H3.
  assert (Hwd : (if word_is (word_before_last pos2) "&" && (pos2 <? size - 1) then word_before_last pos3 else word_before_last pos2) = word_before_last pos3).
  { destruct (word_is (word_before_last pos2) "&" && (pos2 <? size - 1)) eqn:Ea; [done|]. unfold parse_mask in Em. rewrite Ea in Em. by injection Em as <- _ _ _. }
  rewrite Hwd. pose proof (parse_relop_progress pos3 prim2 ltac:(lia)) as H4. destruct (parse_relop _ _ _) as [prim4 pos4]. cbn [snd] in H4.
  pose proof (parse_data_progress prim4 pos4 hd errh3 ltac:(lia)) as H5. destruct (parse_data _ _ _ _) as [[prim5 pos5] errh5]. cbn [fst snd r_pos] in *. lia.
Qed.

(** A test does not go back, and not beyond the words. *)
Lemma parse_test_progress pos negated st pos' st' : pos <= size ->
  parse_test pos negated st = Some (pos', st') -> pos <= pos' <= size.
Proof using Type.
  intros Hp. unfold parse_test. destruct (Z.leb_spec size pos) as [|Hlt]; [intros [= <- <-]; lia|].
  destruct (ends_term _); [intros [= <- <-]; lia|]. destruct (word_is _ "true"); [intros [= <- <-]; lia|].
  destruct (word_is _ "false"); [intros [= <- <-]; lia|]. unfold parse_prim. cbv zeta.
  pose proof (read_prim_progress pos negated (ps_prev st) (ps_errh st) Hp) as Hr.
  destruct (r_pos _ =? pos); [intros [= <- <-]; lia|]. destruct (prim_check _ _ _ _ _ _) as [[prim6 errh6] ok].
  destruct ok; [|intros [= <- <-]; lia]. destruct (prim_compile _ _); cbn [mbind option_bind]; [intros [= <- <-]; lia|done].
Qed.
End parse.
