(* ===== verification/FilterExpr.v ===== *)
(** * The expression parser

    [Parser::parse_expr_iterative] of elements/ip/ipfilter.cc: a machine with a
    stack of states.  It ends within a number of steps linear in the number of
    words, and on an expression of the documented grammar it builds the program
    that computes the value of the expression. *)

From S2P Require Import Prelude Packet Insn Program Segments FilterPrim Builder IntArg FilterParse.
From stdpp Require Import strings.
Local Open Scope Z_scope.

(** ** The machine *)

Inductive state :=
| s_expr0 | s_expr1 | s_expr2
| s_orexpr0 | s_orexpr1
| s_term0 | s_term1 | s_term2
| s_factor0 | s_factor1 | s_factor2
| s_factor0_neg | s_factor1_neg | s_factor2_neg.

(** [parse_state]; [last_pos] is not initialized by the constructor. *)
Record frame := mkFrame { f_state : state; f_last : Z }.

Section parser.
Context `{Names} (words : list (list Z)) (junk : PrimitiveData).

Definition at_word (pos : Z) (w : string) : bool := (pos <? vlen words) && word_is (word_at words pos) w.
Arguments at_word pos w%_string_scope.

Definition report (st : pstate) (ms : list message) : pstate := mkPState (ps_build st) (ps_prev st) (ps_errh st ++ ms).
Definition on_build (f : build -> build) (st : pstate) : pstate := with_build st (f (ps_build st)).

Definition new_frame (s : state) : frame := mkFrame s (d_i junk).

(** What a state does: it stays on the stack with a state pushed on it, or it is
    popped; with the position and what has been built. *)
Inductive move :=
| Push (s new_state : state) (pos : Z) (st : pstate)
| Pop (pos : Z) (st : pstate).

Definition move_of (f : frame) (pos : Z) (st : pstate) : option move :=
  let last := f_last f in
  match f_state f with
  | s_expr0 => Some (Push s_expr1 s_orexpr0 pos (on_build start st))
  | s_expr1 =>
      if at_word pos "?" then Some (Push s_expr2 s_expr0 (pos + 1) st)
      else Some (Pop pos (on_build (fun b => finish b c_ternary) st))
  | s_expr2 =>
      if (pos =? last) || negb (at_word pos ":")
      then Some (Pop pos (on_build (fun b => finish b c_ternary) (report st [E_missing_colon])))
      else Some (Push s_expr1 s_orexpr0 (pos + 1) st)
  | s_orexpr0 => Some (Push s_orexpr1 s_term0 pos (on_build start st))
  | s_orexpr1 =>
      if at_word pos "or" || at_word pos "||" then Some (Push s_orexpr1 s_term0 (pos + 1) st)
      else Some (Pop pos (on_build (fun b => finish b c_or) st))
  | s_term0 => Some (Push s_term1 s_factor0 pos (on_build start st))
  | (s_term1 | s_term2) as s =>
      if pos =? last then
        let st := match s with s_term1 => report st [E_missing_expression] | _ => st end in
        Some (Pop pos (on_build (fun b => finish b c_and) st))
      else if at_word pos "and" || at_word pos "&&" then Some (Push s_term1 s_factor0 (pos + 1) st)
      else Some (Push s_term2 s_factor0 pos st)
  | (s_factor0 | s_factor0_neg) as s =>
      let neg := match s with s_factor0_neg => true | _ => false end in
      if at_word pos "not" || at_word pos "!" then
        Some (if neg : bool then Push s_factor1_neg s_factor0 (pos + 1) st else Push s_factor1 s_factor0_neg (pos + 1) st)
      else if at_word pos "(" then Some (Push (if neg : bool then s_factor2_neg else s_factor2) s_expr0 (pos + 1) st)
      else '(pos, st) ← parse_test words junk pos neg st; Some (Pop pos st)
  | s_factor1 | s_factor1_neg => Some (Pop pos (if pos =? last then report st [E_missing_after_not] else st))
  | (s_factor2 | s_factor2_neg) as s =>
      let st := if pos =? last then report st [E_missing_after_paren] else st in
      let '(pos, st) :=
        if at_word pos ")" then (pos + 1, st)
        else (pos, if negb (pos =? last) then report st [E_missing_paren] else st) in
      Some (Pop pos (match s with s_factor2_neg => on_build (fun b => negate b false) st | _ => st end))
  end.

Inductive run_result := Finished (pos : Z) (st : pstate) | Aborted | Out_of_fuel.

(** The loop [while (stk.size())], for a number of turns. *)
Fixpoint run (fuel : nat) (stk : list frame) (pos : Z) (st : pstate) : run_result :=
  match stk with
  | [] => Finished pos st
  | f :: stk' =>
      match fuel with
      | O => Out_of_fuel
      | S fuel' =>
          match move_of f pos st with
          | None => Aborted
          | Some (Push s new_state pos' st') => run fuel' (new_frame new_state :: mkFrame s pos' :: stk') pos' st'
          | Some (Pop pos' st') => run fuel' stk' pos' st'
          end
      end
  end.

(** Twelve turns per word are enough ([parse_expr_terminates]). *)
Definition expr_fuel : nat := 12 * length words + 7.

Definition parse_expr_iterative (pos : Z) (st : pstate) : run_result := run expr_fuel [new_frame s_expr0] pos st.


(** ** Running a state until it is popped *)

(** The state [f] on top of any stack is popped after [j] turns. *)
Definition exits (j : nat) (f : frame) (pos : Z) (st : pstate) (pos' : Z) (st' : pstate) : Prop :=
  forall stk fuel, run (j + fuel) (f :: stk) pos st = run fuel stk pos' st'.
Definition aborts (j : nat) (f : frame) (pos : Z) (st : pstate) : Prop :=
  forall stk fuel, run (j + fuel) (f :: stk) pos st = Aborted.

Lemma exits_pop f pos st pos' st' : move_of f pos st = Some (Pop pos' st') -> exits 1 f pos st pos' st'.
Proof using Type. intros E stk fuel. cbn [Nat.add run]. by rewrite E. Qed.

Lemma aborts_now f pos st : move_of f pos st = None -> aborts 1 f pos st.
Proof using Type. intros E stk fuel. cbn [Nat.add run]. by rewrite E. Qed.

Lemma exits_push f pos st s n pos1 st1 j k pos2 st2 pos3 st3 :
  move_of f pos st = Some (Push s n pos1 st1) -> exits j (new_frame n) pos1 st1 pos2 st2 ->
  exits k (mkFrame s pos1) pos2 st2 pos3 st3 -> exits (S (j + k)) f pos st pos3 st3.
Proof using Type. intros E H1 H2 stk fuel. cbn [Nat.add run]. by rewrite E, <- Nat.add_assoc, H1, H2. Qed.

Lemma aborts_push f pos st s n pos1 st1 j :
  move_of f pos st = Some (Push s n pos1 st1) -> aborts j (new_frame n) pos1 st1 -> aborts (S j) f pos st.
Proof using Type. intros E H1 stk fuel. cbn [Nat.add run]. by rewrite E, H1. Qed.

Lemma aborts_push_later f pos st s n pos1 st1 j k pos2 st2 :
  move_of f pos st = Some (Push s n pos1 st1) -> exits j (new_frame n) pos1 st1 pos2 st2 ->
  aborts k (mkFrame s pos1) pos2 st2 -> aborts (S (j + k)) f pos st.
Proof using Type. intros E H1 H2 stk fuel. cbn [Nat.add run]. by rewrite E, <- Nat.add_assoc, H1, H2. Qed.

Lemma run_more j k stk pos st r : run j stk pos st = r -> r <> Out_of_fuel -> run (j + k) stk pos st = r.
Proof using Type.
  revert stk pos st. induction j as [|j IH]; intros [|f stk] pos st E Hr; cbn [Nat.add run] in *; [by destruct k|congruence|done|].
  destruct (move_of f pos st) as [[s n pos1 st1|pos1 st1]|]; by try apply IH.
Qed.

(** ** Termination

    A state is popped, or an assertion fails, within a number of turns that grows
    with the words read by [c] turns more than twelve per word. *)

Abbreviation size := (vlen words).

Definition settles (c : Z) (f : frame) (pos : Z) (st : pstate) : Prop :=
  (exists j pos' st', pos <= pos' <= size /\ Z.of_nat j <= 12 * (pos' - pos) + c /\ exits j f pos st pos' st')
  \/ exists j, Z.of_nat j <= 12 * (size - pos) + c /\ aborts j f pos st.

(** The states in front of a word, for every state of the parser. *)
Definition settles_from (n : Z) : Prop := forall pos st, n <= pos <= size ->
  settles 7 (new_frame s_expr0) pos st.

Lemma settles_pop c f pos st pos' st' : pos <= pos' <= size -> 1 <= 12 * (pos' - pos) + c ->
  move_of f pos st = Some (Pop pos' st') -> settles c f pos st.
Proof using Type. intros Hp Hc E. left. exists 1%nat, pos', st'. split; [done|]. split; [lia|]. by apply exits_pop. Qed.

(** A pushed state settles, and so does the state below wherever that leads. *)
Lemma settles_push c c1 f pos st s n pos1 st1 :
  move_of f pos st = Some (Push s n pos1 st1) -> pos <= pos1 <= size -> settles c1 (new_frame n) pos1 st1 ->
  c1 + 1 <= 12 * (pos1 - pos) + c ->
  (forall j pos2 st2, pos1 <= pos2 <= size -> Z.of_nat j <= 12 * (pos2 - pos1) + c1 -> exits j (new_frame n) pos1 st1 pos2 st2 ->
     settles (12 * (pos2 - pos) + c - Z.of_nat j - 1) (mkFrame s pos1) pos2 st2) ->
  settles c f pos st.
Proof using Type.
  intros E Hp [(j & pos2 & st2 & Hp2 & Hj & He)|(j & Hj & Ha)] Hc Hnext.
  - destruct (Hnext j pos2 st2 Hp2 Hj He) as [(k & pos3 & st3 & Hp3 & Hk & He')|(k & Hk & Ha)].
    + left. exists (S (j + k))%nat, pos3, st3. split; [lia|]. split; [lia|]. by eapply exits_push.
    + right. exists (S (j + k))%nat. split; [lia|]. by eapply aborts_push_later.
  - right. exists (S j). split; [lia|]. by eapply aborts_push.
Qed.

Lemma settles_weaken c c' f pos st : c <= c' -> settles c f pos st -> settles c' f pos st.
Proof using Type.
  intros Hc [(j & pos' & st' & Hp & Hj & He)|(j & Hj & Ha)]; [left; exists j, pos', st'|right; exists j]; split; try done; try lia. split; [lia|done].
Qed.

Lemma at_word_lt pos w : at_word pos w = true -> pos < size.
Proof using Type. unfold at_word. intros [E%Z.ltb_lt _]%andb_true_iff. done. Qed.

Lemma at_word_or pos w w' : at_word pos w || at_word pos w' = true -> pos < size.
Proof using Type. intros [E|E]%orb_true_iff; by eapply at_word_lt. Qed.

(** *** Factors: a factor that reads a word leaves three turns over. *)
Definition factor_settles (f : frame) (pos : Z) (st : pstate) : Prop :=
  (exists j pos' st', pos <= pos' <= size /\ Z.of_nat j <= (if pos' =? pos then 1 else 12 * (pos' - pos) - 2) /\ exits j f pos st pos' st')
  \/ exists j, Z.of_nat j <= 12 * (size - pos) + 1 /\ aborts j f pos st.

Lemma factor_settles_c f pos st : factor_settles f pos st -> settles 1 f pos st.
Proof using Type.
  intros [(j & pos' & st' & Hp & Hj & He)|(j & Hj & Ha)]; [left; exists j, pos', st'|right; exists j]; split; try done. split; [|done].
  destruct (Z.eqb_spec pos' pos); lia.
Qed.


Lemma factor_settles_at pos st (neg : bool) : pos <= size ->
  (forall pos' st (neg : bool), pos < pos' <= size -> factor_settles (new_frame (if neg then s_factor0_neg else s_factor0)) pos' st) ->
  (forall pos' st, pos < pos' <= size -> settles 7 (new_frame s_expr0) pos' st) ->
  factor_settles (new_frame (if neg then s_factor0_neg else s_factor0)) pos st.
Proof using Type.
  intros Hp IHf IHe. set (f := new_frame (if neg then s_factor0_neg else s_factor0)).
  assert (Em : move_of f pos st =
    if at_word pos "not" || at_word pos "!" then
      Some (Push (if neg then s_factor1_neg else s_factor1) (if negb neg then s_factor0_neg else s_factor0) (pos + 1) st)
    else if at_word pos "(" then Some (Push (if neg then s_factor2_neg else s_factor2) s_expr0 (pos + 1) st)
    else '(pos, st) ← parse_test words junk pos neg st; Some (Pop pos st)) by (unfold f; by destruct neg).
  destruct (at_word pos "not" || at_word pos "!") eqn:En; [|destruct (at_word pos "(") eqn:Ep].
  - apply at_word_or in En. specialize (IHf (pos + 1) st (negb neg) ltac:(lia)).
    destruct IHf as [(j & pos2 & st2 & Hp2 & Hj & He)|(j & Hj & Ha)].
    + left. exists (S (j + 1))%nat, pos2. eexists. split; [lia|]. split; [destruct (Z.eqb_spec pos2 (pos + 1)), (Z.eqb_spec pos2 pos); lia|].
      eapply exits_push; [exact Em|exact He|]. apply exits_pop. by destruct neg.
    + right. exists (S j). split; [lia|]. by eapply aborts_push.
  - apply at_word_lt in Ep. destruct (IHe (pos + 1) st ltac:(lia)) as [(j & pos2 & st2 & Hp2 & Hj & He)|(j & Hj & Ha)].
    + left. set (last := pos + 1) in *.
      destruct (at_word pos2 ")") eqn:Ec.
      * pose proof (at_word_lt _ _ Ec). exists (S (j + 1))%nat, (pos2 + 1). destruct neg; eexists; (split; [lia|]; split; [destruct (Z.eqb_spec (pos2 + 1) pos); lia|];
        eapply exits_push; [exact Em|exact He|]; apply exits_pop; unfold move_of; cbn [f_state f_last]; rewrite Ec; done).
      * exists (S (j + 1))%nat, pos2. destruct neg; eexists; (split; [lia|]; split; [destruct (Z.eqb_spec pos2 pos); lia|];
        eapply exits_push; [exact Em|exact He|]; apply exits_pop; unfold move_of; cbn [f_state f_last]; rewrite Ec; done).
    + right. exists (S j). split; [lia|]. by eapply aborts_push.
  - destruct (parse_test words junk pos neg st) as [[pos2 st2]|] eqn:Et; cbn [mbind option_bind] in Em.
    + apply parse_test_progress in Et; [|lia]. left. exists 1%nat, pos2, st2. split; [lia|]. split; [destruct (Z.eqb_spec pos2 pos); lia|]. by apply exits_pop.
    + right. exists 1%nat. split; [lia|]. by apply aborts_now.
Qed.

Section below.
Context (n : Z).
Hypothesis Hfactor : forall pos st, n <= pos <= size -> factor_settles (new_frame s_factor0) pos st.
Hypothesis Hexpr : forall pos st, n < pos <= size -> settles 7 (new_frame s_expr0) pos st.

(** *** Terms *)
Lemma factor_then f s pos pos1 st st1 : move_of f pos st = Some (Push s s_factor0 pos1 st1) -> n <= pos <= pos1 -> pos1 <= size ->
  (forall pos2 st2, pos1 <= pos2 <= size -> settles (if pos2 =? pos1 then 1 else 3) (mkFrame s pos1) pos2 st2) ->
  settles 3 f pos st.
Proof using Hfactor.
  intros E Hp Hp1 Hnext. destruct (Hfactor pos1 st1 ltac:(lia)) as [(j & pos2 & st2 & Hp2 & Hj & He)|(j & Hj & Ha)].
  - pose proof (Hnext pos2 st2 Hp2) as Hr. destruct (Z.eqb_spec pos2 pos1) as [->|Hadv];
      (destruct Hr as [(k & pos3 & st3 & Hp3 & Hk & He')|(k & Hk & Ha)];
       [left; exists (S (j + k))%nat, pos3, st3; split; [lia|]; split; [lia|]; by eapply exits_push
       |right; exists (S (j + k))%nat; split; [lia|]; by eapply aborts_push_later]).
  - right. exists (S j). split; [lia|]. by eapply aborts_push.
Qed.

Lemma loop_pop s pos st : s = s_term1 \/ s = s_term2 -> pos <= size -> settles 1 (mkFrame s pos) pos st.
Proof using Type.
  intros [-> | ->] Hp; (eapply (settles_pop _ _ _ _ pos); [lia|lia|]); unfold move_of; cbn [f_state f_last]; by rewrite Z.eqb_refl.
Qed.

Lemma term_loop_settles m : forall pos s last st, s = s_term1 \/ s = s_term2 -> n <= pos <= size -> size - pos < Z.of_nat m ->
  settles (if pos =? last then 1 else 3) (mkFrame s last) pos st.
Proof using Hfactor.
  induction m as [|m IH]; intros pos s last st Hs Hp Hm; [lia|].
  destruct (Z.eqb_spec pos last) as [->|Hne].
  { apply loop_pop; [done|lia]. }
  assert (Em : move_of (mkFrame s last) pos st =
    if at_word pos "and" || at_word pos "&&" then Some (Push s_term1 s_factor0 (pos + 1) st) else Some (Push s_term2 s_factor0 pos st)).
  { unfold move_of. by destruct Hs as [-> | ->]; cbn [f_state f_last]; rewrite (proj2 (Z.eqb_neq _ _) Hne). }
  assert (Hnext : forall s' pos1 pos2 st2, s' = s_term1 \/ s' = s_term2 -> pos <= pos1 <= pos2 -> pos2 <= size ->
    settles (if pos2 =? pos1 then 1 else 3) (mkFrame s' pos1) pos2 st2).
  { intros s' pos1 pos2 st2 Hs' Hp1 Hp2. destruct (Z.eqb_spec pos2 pos1) as [->|Hadv].
    - apply loop_pop; [done|lia].
    - pose proof (IH pos2 s' pos1 st2 Hs' ltac:(lia) ltac:(lia)) as H3. by rewrite (proj2 (Z.eqb_neq _ _) Hadv) in H3. }
  destruct (at_word pos "and" || at_word pos "&&") eqn:Ea.
  - apply at_word_or in Ea. eapply factor_then; [exact Em|lia|lia|]. intros pos2 st2 Hp2. apply Hnext; [by left|lia|lia].
  - eapply factor_then; [exact Em|lia|lia|]. intros pos2 st2 Hp2. apply Hnext; [by right|lia|lia].
Qed.

Lemma term_settles pos st : n <= pos <= size -> settles 3 (new_frame s_term0) pos st.
Proof using Hfactor.
  intros Hp. eapply factor_then; [reflexivity|lia|lia|]. intros pos2 st2 Hp2. apply (term_loop_settles (S (Z.to_nat (size - pos2)))); [by left|lia|lia].
Qed.

(** *** Alternatives *)
Lemma or_loop_settles m : forall pos last st, n <= pos <= size -> size - pos < Z.of_nat m ->
  settles 1 (mkFrame s_orexpr1 last) pos st.
Proof using Hfactor.
  induction m as [|m IH]; intros pos last st Hp Hm; [lia|].
  assert (Em : move_of (mkFrame s_orexpr1 last) pos st =
    if at_word pos "or" || at_word pos "||" then Some (Push s_orexpr1 s_term0 (pos + 1) st) else Some (Pop pos (on_build (fun b => finish b c_or) st))) by done.
  destruct (_ || _) eqn:Ea; [|by eapply settles_pop; [| |exact Em]; lia]. apply at_word_or in Ea.
  eapply (settles_push 1 3); [exact Em|lia|apply term_settles; lia|lia|]. intros j pos2 st2 Hp2 Hj He.
  eapply settles_weaken; [|apply IH; lia]. lia.
Qed.

Lemma orexpr_settles pos st : n <= pos <= size -> settles 5 (new_frame s_orexpr0) pos st.
Proof using Hfactor.
  intros Hp. eapply (settles_push 5 3); [reflexivity|lia|by apply term_settles|lia|]. intros j pos2 st2 Hp2 Hj He.
  eapply settles_weaken; [|apply (or_loop_settles (S (Z.to_nat (size - pos2)))); lia]. lia.
Qed.

(** *** Conditional expressions *)
Lemma expr_loop_settles m : forall pos last st, n <= pos <= size -> size - pos < Z.of_nat m ->
  settles 1 (mkFrame s_expr1 last) pos st.
Proof using Hfactor Hexpr.
  induction m as [|m IH]; intros pos last st Hp Hm; [lia|].
  assert (Em : move_of (mkFrame s_expr1 last) pos st =
    if at_word pos "?" then Some (Push s_expr2 s_expr0 (pos + 1) st) else Some (Pop pos (on_build (fun b => finish b c_ternary) st))) by done.
  destruct (at_word pos "?") eqn:Ea; [|by eapply settles_pop; [| |exact Em]; lia]. apply at_word_lt in Ea.
  eapply (settles_push 1 7); [exact Em|lia|apply Hexpr; lia|lia|]. intros j pos2 st2 Hp2 Hj He.
  assert (Em2 : move_of (mkFrame s_expr2 (pos + 1)) pos2 st2 =
    if (pos2 =? pos + 1) || negb (at_word pos2 ":") then Some (Pop pos2 (on_build (fun b => finish b c_ternary) (report st2 [E_missing_colon])))
    else Some (Push s_expr1 s_orexpr0 (pos2 + 1) st2)) by done.
  destruct (_ || _) eqn:Ec; [eapply settles_pop; [| |exact Em2]; lia|]. apply orb_false_iff in Ec as [_ Ec%negb_false_iff%at_word_lt].
  eapply (settles_push _ 5); [exact Em2|lia|apply orexpr_settles; lia|lia|]. intros k pos3 st3 Hp3 Hk He'.
  eapply settles_weaken; [|apply IH; lia]. lia.
Qed.

Lemma expr_settles pos st : n <= pos <= size -> settles 7 (new_frame s_expr0) pos st.
Proof using Hfactor Hexpr.
  intros Hp. eapply (settles_push 7 5); [reflexivity|lia|by apply orexpr_settles|lia|]. intros j pos2 st2 Hp2 Hj He.
  eapply settles_weaken; [|apply (expr_loop_settles (S (Z.to_nat (size - pos2)))); lia]. lia.
Qed.
End below.

Lemma all_settle m : forall pos st, pos <= size -> size - pos < Z.of_nat m ->
  (forall neg : bool, factor_settles (new_frame (if neg then s_factor0_neg else s_factor0)) pos st) /\ settles 7 (new_frame s_expr0) pos st.
Proof using Type.
  induction m as [|m IH]; intros pos st Hp Hm; [lia|].
  assert (Hf : forall pos' st' (neg : bool), pos <= pos' <= size -> factor_settles (new_frame (if neg then s_factor0_neg else s_factor0)) pos' st').
  { intros pos' st' neg Hp'. apply factor_settles_at; [lia| |].
    - intros pos2 st2 neg2 Hp2. apply IH; lia.
    - intros pos2 st2 Hp2. apply IH; lia. }
  split; [intros neg; apply Hf; lia|]. apply (expr_settles pos); [intros pos' st' Hp'; exact (Hf pos' st' false Hp')| |lia].
  intros pos' st' Hp'. apply IH; lia.
Qed.

Lemma expr_ends pos st : 0 <= pos <= size ->
  parse_expr_iterative pos st = Aborted
  \/ exists pos' st', parse_expr_iterative pos st = Finished pos' st' /\ pos <= pos' <= size.
Proof using Type.
  intros Hp. unfold parse_expr_iterative. destruct (all_settle (S (Z.to_nat (size - pos))) pos st ltac:(lia) ltac:(lia)) as [_ [(j & pos' & st' & Hp' & Hj & He)|(j & Hj & Ha)]].
  - right. exists pos', st'. split; [|lia]. replace expr_fuel with (j + (expr_fuel - j))%nat by (unfold expr_fuel, vlen in *; lia).
    rewrite (He [] _). by destruct (expr_fuel - j)%nat.
  - left. replace expr_fuel with (j + (expr_fuel - j))%nat by (unfold expr_fuel, vlen in *; lia). apply Ha.
Qed.

(** C22.  The expression parser ends on every sequence of words, well-formed or
    not, in at most twelve turns per word and seven more, unless an assertion
    fails; it does not go back in the words or beyond them. *)
Theorem parse_expr_terminates pos st : 0 <= pos <= size ->
  parse_expr_iterative pos st = Aborted
  \/ exists pos' st', parse_expr_iterative pos st = Finished pos' st' /\ pos <= pos' <= size.
Proof using Type. apply expr_ends. Qed.


(** A run that pops the first state is the run of the parser. *)
Lemma exits_finished j pos st pos' st' : 0 <= pos <= size -> exits j (new_frame s_expr0) pos st pos' st' ->
  parse_expr_iterative pos st = Finished pos' st'.
Proof using Type.
  intros Hp He. pose proof (He [] 0%nat) as E. rewrite Nat.add_0_r in E. cbn [run] in E.
  assert (E1 : run (j + expr_fuel) [new_frame s_expr0] pos st = Finished pos' st') by (by apply run_more).
  unfold parse_expr_iterative. destruct (expr_ends pos st Hp) as [E2|(p2 & s2 & E2 & _)].
  - rewrite Nat.add_comm, (run_more _ _ _ _ _ _ E2) in E1 by done. congruence.
  - rewrite Nat.add_comm, (run_more _ _ _ _ _ _ E2) in E1 by done. unfold parse_expr_iterative in E2. congruence.
Qed.
End parser.

(** Words without any order, with messages. *)
Lemma parse_expr_terminates_witness :
  let words := map chars ["true"; ")"; "or"; "("; "not"]%string in
  let st := mkPState (start (new_program 0, init_subtree (new_program 0))) (clear (mkData 0 0) (mkData 0 0)) [] in
  parse_expr_iterative (H := nameless) words (mkData 0 0) 0 st = Aborted
  \/ exists pos' st', parse_expr_iterative (H := nameless) words (mkData 0 0) 0 st = Finished pos' st' /\ 0 <= pos' <= vlen words.
Proof. apply parse_expr_terminates. vm_compute. split; discriminate. Defined.
