(* ===== verification/FilterGrammar.v ===== *)
(** * The grammar of the filter language

    The grammar in the comment above [parse_expr_iterative], as relations between
    positions in the words that also say what an expression means on a packet.
    The parser builds a program with that meaning, and without errors of its own. *)

From S2P Require Import Prelude Packet Insn Program Words Segments FilterPrim Builder FilterCompare FilterCompile FilterCheck IntArg FilterParse FilterExpr.
From stdpp Require Import strings.
Local Open Scope Z_scope.

Section grammar.
Context `{Names} (words : list (list Z)) (junk : PrimitiveData).
Context (o : Insn -> bool) (Ho : word_outcome o).

Abbreviation size := (vlen words).
Abbreviation at_word := (at_word words).
Arguments FilterExpr.at_word words pos w%_string_scope.

(** What one test leaves for the next: the test itself and the messages. *)
Definition context : Type := Primitive * list message.
Definition pst (b : build) (s : context) : pstate := mkPState b s.1 s.2.

Definition ends (p : Z) : bool := (size <=? p) || ends_term (word_at words p).
Definition is_not (p : Z) : bool := at_word p "not" || at_word p "!".
Definition is_and (p : Z) : bool := at_word p "and" || at_word p "&&".
Definition is_or (p : Z) : bool := at_word p "or" || at_word p "||".

(** The words from [p] to [p'] are parsed as a test that adds one subtree with the
    value [v] to any program; [neg] tells whether a negation stands in front of it. *)
Definition test (neg : bool) (p : Z) (s : context) (v : bool) (p' : Z) (s' : context) : Prop :=
  forall L b, opened L b -> exists b', parse_test words junk p neg (pst b s) = Some (p', pst b' s') /\ computes o L b b' [v].

(** ** The relations

    What the tests are, and what is known of the context between them, are
    parameters: a position, the context there, the value of the test, the position
    and the context behind it.  [factor ::= ! factor | ( expr ) | test],
    [term ::= factor terms] where [terms] is a sequence of factors joined by [and],
    [&&] or nothing, [orexpr ::= term ors] with terms joined by [or] or [||], and
    [expr ::= orexpr conds] where [conds] is a sequence of [? expr : orexpr]. *)
Context (a_test : bool -> Z -> context -> bool -> Z -> context -> Prop) (known : context -> Prop).

Inductive factor : bool -> Z -> context -> bool -> Z -> context -> Prop :=
| factor_not neg p s v p' s' :
    is_not p = true -> factor (negb neg) (p + 1) s v p' s' -> p + 1 < p' -> factor neg p s v p' s'
| factor_paren neg p s v p' s' :
    is_not p = false -> at_word p "(" = true -> expr (p + 1) s v p' s' -> p + 1 < p' -> at_word p' ")" = true ->
    factor neg p s (xorb v neg) (p' + 1) s'
| factor_test neg p s v p' s' :
    is_not p = false -> at_word p "(" = false -> a_test neg p s v p' s' -> p < p' -> factor neg p s v p' s'
with term : Z -> context -> bool -> Z -> context -> Prop :=
| term_factors p s v p1 s1 vs p' s' :
    factor false p s v p1 s1 -> p < p1 -> terms p1 s1 vs p' s' -> term p s (forallb id (v :: vs)) p' s'
with terms : Z -> context -> list bool -> Z -> context -> Prop :=
| terms_end p s : ends p = true -> terms p s [] p s
| terms_and p s v p1 s1 vs p' s' :
    is_and p = true -> factor false (p + 1) s v p1 s1 -> p + 1 < p1 -> terms p1 s1 vs p' s' -> terms p s (v :: vs) p' s'
| terms_next p s v p1 s1 vs p' s' :
    is_and p = false -> factor false p s v p1 s1 -> p < p1 -> terms p1 s1 vs p' s' -> terms p s (v :: vs) p' s'
with orexpr : Z -> context -> bool -> Z -> context -> Prop :=
| orexpr_terms p s v p1 s1 vs p' s' :
    term p s v p1 s1 -> ors p1 s1 vs p' s' -> orexpr p s (existsb id (v :: vs)) p' s'
with ors : Z -> context -> list bool -> Z -> context -> Prop :=
| ors_end p s : is_or p = false -> ors p s [] p s
| ors_or p s v p1 s1 vs p' s' : is_or p = true -> term (p + 1) s v p1 s1 -> ors p1 s1 vs p' s' -> ors p s (v :: vs) p' s'
with expr : Z -> context -> bool -> Z -> context -> Prop :=
| expr_conds p s v p1 s1 vs p' s' :
    orexpr p s v p1 s1 -> conds p1 s1 vs p' s' -> expr p s (tern (v :: vs)) p' s'
with conds : Z -> context -> list bool -> Z -> context -> Prop :=
| conds_end p s : at_word p "?" = false -> conds p s [] p s
| conds_cond p s v p1 s1 w p2 s2 vs p' s' :
    at_word p "?" = true -> expr (p + 1) s v p1 s1 -> p + 1 < p1 -> at_word p1 ":" = true ->
    orexpr (p1 + 1) s1 w p2 s2 -> conds p2 s2 vs p' s' -> conds p s (v :: w :: vs) p' s'.

Scheme factor_mut := Induction for factor Sort Prop
with term_mut := Induction for term Sort Prop
with terms_mut := Induction for terms Sort Prop
with orexpr_mut := Induction for orexpr Sort Prop
with ors_mut := Induction for ors Sort Prop
with expr_mut := Induction for expr Sort Prop
with conds_mut := Induction for conds Sort Prop.

(** ** The parser follows the grammar *)

Hypothesis a_test_parsed : forall neg p s v p' s', known s -> a_test neg p s v p' s' -> test neg p s v p' s' /\ known s'.

Abbreviation exits := (exits words junk).
Abbreviation new_frame := (new_frame junk).

(** A state pushed at [p] adds one subtree with the value [v]. *)
Definition parses (new_state : state) (p : Z) (s : context) (v : bool) (p' : Z) (s' : context) : Prop :=
  forall L b, opened L b -> exists j b', exits j (new_frame new_state) p (pst b s) p' (pst b' s') /\ computes o L b b' [v].

(** A loop state at [p], above the subtrees [vs0], adds the rest and combines all. *)
Definition continues (f : Z -> frame -> Prop) (op : Combiner) (p : Z) (s : context) (vs : list bool) (p' : Z) (s' : context) : Prop :=
  forall L b0 b vs0 fr, f p fr -> opened L b0 -> computes o (L + 1) (start b0) b vs0 -> vs0 <> [] ->
    exists j b', exits j fr p (pst b s) p' (pst b' s') /\ computes o L b0 b' [combine_value op (vs0 ++ vs)].

Definition in_term (p : Z) (f : frame) : Prop := (f_state f = s_term1 \/ f_state f = s_term2) /\ f_last f <> p.
Definition in_or (p : Z) (f : frame) : Prop := f_state f = s_orexpr1.
Definition in_expr (p : Z) (f : frame) : Prop := f_state f = s_expr1.

Lemma word_is_eq w s : word_is w s = true -> w = chars s.
Proof using Type. apply bool_decide_eq_true. Qed.

Lemma ends_words p : ends p = true -> is_and p = false /\ is_not p = false /\ at_word p "(" = false.
Proof using Type.
  unfold ends, is_and, is_not, FilterExpr.at_word. destruct (Z.leb_spec size p) as [Hle|Hlt]; cbn [orb].
  - rewrite (proj2 (Z.ltb_ge p size)) by done. done.
  - unfold ends_term. intros Hw. assert (Hw' : exists s, word_at words p = chars s /\ s ∈ [")"; "||"; "or"; "?"; ":"]%string).
    { repeat (apply orb_true_iff in Hw as [Hw|Hw]); apply word_is_eq in Hw; eexists; (split; [exact Hw|]); rewrite !elem_of_cons; tauto. }
    destruct Hw' as (s & -> & Hs). rewrite !elem_of_cons in Hs. rewrite (proj2 (Z.ltb_lt p size)) by done.
    destruct Hs as [->|[->|[->|[->|[->|Hs]]]]]; [by vm_compute..|]. by apply elem_of_nil in Hs.
Qed.

Lemma parse_test_ends p neg st : ends p = true -> parse_test words junk p neg st = Some (p, st).
Proof using Type. unfold ends, parse_test. intros E. destruct (size <=? p); [done|]. cbn [orb] in E. by rewrite E. Qed.

Lemma finish_loop op p L b0 b vs0 s fr :
  opened L b0 -> computes o (L + 1) (start b0) b vs0 -> vs0 <> [] ->
  move_of words junk fr p (pst b s) = Some (Pop p (on_build (fun b => finish b op) (pst b s))) ->
  exists j b', exits j fr p (pst b s) p (pst b' s) /\ computes o L b0 b' [combine_value op (vs0 ++ [])].
Proof using Ho.
  intros Hb Hc Hne Em. exists 1%nat, (finish b op). split; [by apply exits_pop|]. rewrite app_nil_r. by apply finish_computes.
Qed.

(** One more subtree in a loop. *)
Lemma push_loop f op p L b0 b vs0 s fr k n p1 v p2 s2 vs p' s' :
  opened L b0 -> computes o (L + 1) (start b0) b vs0 -> 
  move_of words junk fr p (pst b s) = Some (Push k n p1 (pst b s)) -> parses n p1 s v p2 s2 ->
  continues f op p2 s2 vs p' s' -> f p2 (mkFrame k p1) ->
  exists j b', exits j fr p (pst b s) p' (pst b' s') /\ computes o L b0 b' [combine_value op (vs0 ++ v :: vs)].
Proof using Ho.
  intros Hb Hc Em Hp Hcont Hf. destruct (adds_opened _ _ _ _ _ Hc) as [_ Hb1].
  destruct (Hp _ _ Hb1) as (j & b1 & He & Hc1). pose proof (computes_app _ _ _ _ _ _ _ Hc Hc1) as Hc2.
  destruct (Hcont L b0 b1 (vs0 ++ [v]) _ Hf Hb Hc2 ltac:(by destruct vs0)) as (k' & b2 & He2 & Hc3).
  exists (S (j + k')), b2. split; [by eapply exits_push|]. by rewrite <- app_assoc in Hc3.
Qed.

(** A state that starts a subtree, reads one part, and goes on in a loop. *)
Lemma start_loop f op p s n k v p1 s1 vs p' s' m :
  (forall b, move_of words junk (new_frame m) p (pst b s) = Some (Push k n p (on_build start (pst b s)))) ->
  parses n p s v p1 s1 -> continues f op p1 s1 vs p' s' -> f p1 (mkFrame k p) ->
  parses m p s (combine_value op (v :: vs)) p' s'.
Proof using Ho.
  intros Em Hp Hcont Hf L b Hb. destruct (Hp _ _ (start_opened _ _ Hb)) as (j & b1 & He & Hc1).
  destruct (Hcont L b b1 [v] _ Hf Hb Hc1 ltac:(done)) as (k' & b2 & He2 & Hc2).
  exists (S (j + k')), b2. split; [|done]. eapply exits_push; [apply Em|exact He|exact He2].
Qed.

Definition factor_state (neg : bool) : state := if neg then s_factor0_neg else s_factor0.

Lemma parses_not neg p s v p' s' : is_not p = true -> parses (factor_state (negb neg)) (p + 1) s v p' s' -> p + 1 < p' ->
  parses (factor_state neg) p s v p' s'.
Proof using Type.
  intros En Hp Hlt L b Hb. destruct (Hp L b Hb) as (j & b' & He & Hc). exists (S (j + 1)), b'. split; [|done].
  eapply (exits_push _ _ _ _ _ (if neg then s_factor1_neg else s_factor1)); [|exact He|].
  - unfold move_of, is_not in *. by destruct neg; cbn [factor_state f_state new_frame]; rewrite En.
  - apply exits_pop. unfold move_of. by destruct neg; cbn [f_state f_last]; rewrite (proj2 (Z.eqb_neq _ _)) by lia.
Qed.

Lemma parses_paren (neg : bool) p s v p' s' : is_not p = false -> at_word p "(" = true -> parses s_expr0 (p + 1) s v p' s' ->
  p + 1 < p' -> at_word p' ")" = true -> parses (factor_state neg) p s (xorb v neg) (p' + 1) s'.
Proof using Ho.
  intros En Ep Hp Hlt Ec L b Hb. destruct (Hp L b Hb) as (j & b' & He & Hc).
  exists (S (j + 1)), (if neg then negate b' false else b'). split.
  - eapply (exits_push _ _ _ _ _ (if neg then s_factor2_neg else s_factor2)); [|exact He|].
    + unfold move_of, is_not in *. by destruct neg; cbn [factor_state f_state new_frame]; rewrite En, Ep.
    + apply exits_pop. unfold move_of. destruct neg; cbn [f_state f_last]; rewrite (proj2 (Z.eqb_neq _ _)), Ec by lia; done.
  - destruct neg; [rewrite xorb_true_r; by apply negate_computes|by rewrite xorb_false_r].
Qed.

Lemma parses_test neg p s v p' s' : is_not p = false -> at_word p "(" = false -> test neg p s v p' s' ->
  parses (factor_state neg) p s v p' s'.
Proof using Type.
  intros En Ep Ht L b Hb. destruct (Ht L b Hb) as (b' & Et & Hc). exists 1%nat, b'. split; [|done]. apply exits_pop.
  unfold move_of, is_not in *. by destruct neg; cbn [factor_state f_state new_frame]; rewrite En, Ep, Et.
Qed.

Lemma in_term_move fr p st : in_term p fr -> move_of words junk fr p st =
  if is_and p then Some (Push s_term1 s_factor0 (p + 1) st) else Some (Push s_term2 s_factor0 p st).
Proof using Type.
  destruct fr as [k last]. intros [Hk Hne]. cbn [f_state f_last] in *. unfold move_of, is_and. cbn [f_state f_last].
  assert (E : (p =? last) = false) by (apply Z.eqb_neq; congruence). by destruct Hk as [-> | ->]; rewrite E.
Qed.

Lemma continues_term_end p s : ends p = true -> continues in_term c_and p s [] p s.
Proof using Ho.
  intros Ee L b0 b vs0 fr Hfr Hb Hc Hne. destruct (ends_words p Ee) as (E1 & E2 & E3).
  exists 3%nat, (finish b c_and). split; [|rewrite app_nil_r; by apply finish_computes].
  apply (exits_push words junk fr p _ s_term2 s_factor0 p (pst b s) 1 1 p (pst b s)).
  - by rewrite in_term_move, E1.
  - apply exits_pop. unfold move_of, is_not in *. cbn [f_state new_frame]. by rewrite E2, E3, parse_test_ends.
  - apply exits_pop. unfold move_of. cbn [f_state f_last]. by rewrite Z.eqb_refl.
Qed.

Abbreviation then_known P s s' := (known s -> P /\ known s') (only parsing).

(** What the relations say of the parser, by induction on them. *)
Lemma expr_parses : forall p s v p' s', expr p s v p' s' -> known s -> parses s_expr0 p s v p' s' /\ known s'.
Proof using Ho a_test_parsed.
  refine (expr_mut
    (fun neg p s v p' s' _ => then_known (parses (factor_state neg) p s v p' s') s s')
    (fun p s v p' s' _ => then_known (parses s_term0 p s v p' s') s s')
    (fun p s vs p' s' _ => then_known (continues in_term c_and p s vs p' s') s s')
    (fun p s v p' s' _ => then_known (parses s_orexpr0 p s v p' s') s s')
    (fun p s vs p' s' _ => then_known (continues in_or c_or p s vs p' s') s s')
    (fun p s v p' s' _ => then_known (parses s_expr0 p s v p' s') s s')
    (fun p s vs p' s' _ => then_known (continues in_expr c_ternary p s vs p' s') s s') _ _ _ _ _ _ _ _ _ _ _ _ _).
  - intros neg p s v p' s' E _ IH Hlt [H1 H2]%IH. split; [by apply parses_not|done].
  - intros neg p s v p' s' E1 E2 _ IH Hlt E3 [H1 H2]%IH. split; [by apply parses_paren|done].
  - intros neg p s v p' s' E1 E2 Ht Hlt Hk. destruct (a_test_parsed _ _ _ _ _ _ Hk Ht) as [H1 H2]. split; [by apply parses_test|done].
  - intros p s v p1 s1 vs p' s' _ IH1 Hlt _ IH2 [H1 [H2 H3]%IH2]%IH1. split; [|done].
    apply (start_loop in_term c_and _ _ s_factor0 s_term1 _ p1 s1); [done|exact H1|exact H2|]. split; [by left|]. cbn. lia.
  - intros p s E Hk. split; [by apply continues_term_end|done].
  - intros p s v p1 s1 vs p' s' E _ IH1 Hlt _ IH2 [H1 [H2 H3]%IH2]%IH1. split; [|done]. intros L b0 b vs0 fr Hfr Hb Hc Hne.
    eapply (push_loop in_term _ _ _ _ _ _ _ _ s_term1); [done|done|by rewrite in_term_move, E|exact H1|exact H2|]. split; [by left|]. cbn. lia.
  - intros p s v p1 s1 vs p' s' E _ IH1 Hlt _ IH2 [H1 [H2 H3]%IH2]%IH1. split; [|done]. intros L b0 b vs0 fr Hfr Hb Hc Hne.
    eapply (push_loop in_term _ _ _ _ _ _ _ _ s_term2); [done|done|by rewrite in_term_move, E|exact H1|exact H2|]. split; [by right|]. cbn. lia.
  - intros p s v p1 s1 vs p' s' _ IH1 _ IH2 [H1 [H2 H3]%IH2]%IH1. split; [by apply (start_loop in_or c_or _ _ s_term0 s_orexpr1 _ p1 s1)|done].
  - intros p s E Hk. split; [|done]. intros L b0 b vs0 [k last] Hfr Hb Hc Hne. apply finish_loop; [done..|].
    unfold in_or in Hfr. cbn [f_state] in Hfr. subst k. unfold move_of, is_or in *. cbn [f_state]. by rewrite E.
  - intros p s v p1 s1 vs p' s' E _ IH1 _ IH2 [H1 [H2 H3]%IH2]%IH1. split; [|done]. intros L b0 b vs0 [k last] Hfr Hb Hc Hne.
    unfold in_or in Hfr. cbn [f_state] in Hfr. subst k.
    eapply (push_loop in_or _ _ _ _ _ _ _ _ s_orexpr1); [done|done| |exact H1|exact H2|done]. unfold move_of, is_or in *. cbn [f_state]. by rewrite E.
  - intros p s v p1 s1 vs p' s' _ IH1 _ IH2 [H1 [H2 H3]%IH2]%IH1. split; [by apply (start_loop in_expr c_ternary _ _ s_orexpr0 s_expr1 _ p1 s1)|done].
  - intros p s E Hk. split; [|done]. intros L b0 b vs0 [k last] Hfr Hb Hc Hne. apply finish_loop; [done..|].
    unfold in_expr in Hfr. cbn [f_state] in Hfr. subst k. unfold move_of. cbn [f_state]. by rewrite E.
  - intros p s v p1 s1 w p2 s2 vs p' s' E _ IH1 Hlt E2 _ IH2 _ IH3 [H1 [H2 [H3 H4]%IH3]%IH2]%IH1. split; [|done].
    intros L b0 b vs0 [k last] Hfr Hb Hc Hne. unfold in_expr in Hfr. cbn [f_state] in Hfr. subst k.
    eapply (push_loop (fun p2 fr => p2 = p1 /\ fr = mkFrame s_expr2 (p + 1)) _ _ _ _ _ _ _ _ s_expr2 _ _ _ _ _ (w :: vs)); [done|done|unfold move_of; cbn [f_state]; by rewrite E|exact H1| |done].
    clear Hb Hc Hne vs0 b b0 L. intros L b0 b vs0 fr [_ ->] Hb Hc Hne.
    eapply (push_loop in_expr _ _ _ _ _ _ _ _ s_expr1); [done|done| |exact H2|exact H3|done].
    unfold move_of. cbn [f_state f_last]. by rewrite (proj2 (Z.eqb_neq _ _)), E2 by lia.
Qed.
End grammar.

(** ** Tests *)

Section tests.
Context `{Names} (words : list (list Z)) (junk : PrimitiveData).
Context (d : Z -> Z) (Hd : forall off, word (d off)).
Let o := wtest d.

Lemma always_true L b : opened L b -> computes o L b (insn b 0 0 0) [true].
Proof using Type.
  intros Hb. pose proof (insn_computes o L b 0 0 0 Hb ltac:(lia)) as Hc. by assert (o (plain_insn 0 0 0) = true) as <- by (unfold o, wtest; apply Z.eqb_eq, Z.land_0_r).
Qed.

Lemma test_true neg p s : at_word words p "true" = true -> test words junk o neg p s (negb neg) (p + 1) s.
Proof using Type.
  intros E L b Hb. unfold at_word in E. apply andb_true_iff in E as [E1%Z.ltb_lt E2]. exists (if neg then negate (insn b 0 0 0) false else insn b 0 0 0).
  split.
  - unfold parse_test. rewrite (proj2 (Z.leb_gt _ _)) by done. pose proof (word_is_eq _ _ E2) as Ew. rewrite Ew. by destruct neg.
  - pose proof (always_true L b Hb) as Hc. destruct neg; [by apply (negate_computes _ (wtest_word d) _ _ _ false) in Hc|done].
Qed.

Lemma test_false neg p s : at_word words p "false" = true -> test words junk o neg p s neg (p + 1) s.
Proof using Type.
  intros E L b Hb. unfold at_word in E. apply andb_true_iff in E as [E1%Z.ltb_lt E2]. exists (if neg then insn b 0 0 0 else negate (insn b 0 0 0) false).
  split.
  - unfold parse_test. rewrite (proj2 (Z.leb_gt _ _)) by done. pose proof (word_is_eq _ _ E2) as Ew. rewrite Ew. by destruct neg.
  - pose proof (always_true L b Hb) as Hc. destruct neg; [done|by apply (negate_computes _ (wtest_word d) _ _ _ false) in Hc].
Qed.

(** A test that is read, completed to [q] and accepted as [prim]: its value is
    what [q] asks for, negated if the words say so. *)
Record accepted (p : Z) (neg : bool) (s : context) (r : reading) (q prim : Primitive) (errh : list message) : Prop := {
  ac_word : p < vlen words /\ ends_term (word_at words p) = false
    /\ word_is (word_at words p) "true" = false /\ word_is (word_at words p) "false" = false;
  ac_read : read_prim words junk p neg s.1 s.2 = r;
  ac_pos : r_pos r <> p;
  ac_in : prim_in (r_prim r);
  ac_prev : prev_ok (r_prev r);
  ac_mask : data_ok (r_mask r);
  ac_header : r_header r ∈ [0; header_e; header_i];
  ac_infer : (infer_type (r_prev r) (r_prim r) (r_errh r)).1.1 = q /\ (infer_type (r_prev r) (r_prim r) (r_errh r)).2 = true;
  ac_fair : fair (r_mask_dt r) (r_mask r) q;
  ac_check : prim_check (r_prev r) (r_header r) (r_mask_dt r) (r_mask r) (r_prim r) (r_errh r) = (prim, errh, true);
  ac_nonvacuous : vacuous prim = false
}.

Lemma test_accepted neg p s r q prim errh : accepted p neg s r q prim errh ->
  test words junk o neg p s (xorb (asked (effective_header (r_header r) q) (r_mask_dt r) (r_mask r) q d) (r_neg r)) (r_pos r) (prim, errh).
Proof using Hd.
  intros [(A1 & A2 & A3 & A4) A5 A6 A7 A8 A9 A10 [A11 A12] A13 A14 A15] L b Hb.
  destruct (infer_type _ _ _) as [[q' e1] ok] eqn:Ei. cbn [fst snd] in A11, A12. subst q' ok.
  destruct (check_keeps_holds _ _ _ _ _ _ _ _ _ _ A7 A8 A9 A10 Ei A13 A14) as [Hok Hholds].
  destruct (prim_compile_adds d Hd prim L b Hb Hok A15) as (b' & Ec & Hc). rewrite Hholds in Hc by done.
  exists (if r_neg r then negate b' false else b'). split.
  - unfold parse_test. rewrite (proj2 (Z.leb_gt _ _)), A2, A3, A4 by done. unfold parse_prim. cbn [pst ps_prev ps_errh ps_build]. rewrite A5. cbv zeta.
    rewrite (proj2 (Z.eqb_neq _ _) A6), A14, Ec. done.
  - destruct (r_neg r); [rewrite xorb_true_r; by apply negate_computes; [apply wtest_word|]|by rewrite xorb_false_r].
Qed.
End tests.
