(* ===== verification/FilterRead.v ===== *)
(** * Tests that are read

    What [parse_test] collects from the words meets the conditions under which
    [check] keeps the meaning of a test, when the databases of names hold values of
    the right kinds. *)

From S2P Require Import Prelude Packet Insn Program Words Segments FilterPrim Builder FilterCompare FilterCompile FilterCheck IntArg FilterParse FilterExpr FilterGrammar.
From stdpp Require Import strings.
Local Open Scope word_scope.
Local Open Scope Z_scope.

(** ** Numbers *)

Lemma u32_word x : word (u32 x).
Proof. apply Z.mod_pos_bound. lia. Qed.

Lemma int_arg_word base is_signed s v : int_arg_base base is_signed s = Some v -> word v.
Proof.
  unfold int_arg_base, parse_int. destruct (span _ _ _) as [xend b]. destruct (Z.ltb_spec b 2) as [|H2]; cbn [orb]; [by destruct (_ && _); intros [= <-]; unfold word|].
  destruct (Z.ltb_spec 36 b) as [|H36]; cbn [orb]; [by destruct (_ && _); intros [= <-]; unfold word|].
  destruct (xend =? 0); [by destruct (_ && _); intros [= <-]; unfold word|].
  pose proof (digits_inv_all b (take (Z.to_nat xend) s) ltac:(lia)) as [Hv _ _ _]. set (st := fold_left _ _ _) in *. cbv zeta.
  set (status := if bool_decide _ && _ && _ then _ else _). destruct (_ && bool_decide (status = status_ok)) eqn:E; [|done].
  apply andb_true_iff in E as [_ E%bool_decide_eq_true]. rewrite (bool_decide_false (status = status_range)) by (by rewrite E).
  destruct (is_signed && _); intros [= <-]; [apply u32_word|done].
Qed.

Lemma lor_word a b : word a -> word b -> word (a .| b).
Proof.
  unfold word. intros Ha Hb. change 4294967296 with (2 ^ 32) in *. pose proof (proj2 (Z.lor_nonneg a b) (conj (proj1 Ha) (proj1 Hb))) as H0. split; [done|].
  destruct (Z.eq_dec (a .| b) 0) as [-> |]; [lia|]. apply Z.log2_lt_pow2; [lia|]. rewrite Z.log2_lor by lia.
  assert (H : forall x, 0 <= x < 2 ^ 32 -> Z.log2 x < 32) by (intros x Hx; destruct (Z.eq_dec x 0) as [-> |]; [done|apply Z.log2_lt_pow2; lia]).
  apply Z.max_lub_lt; by apply H.
Qed.

Lemma land_word a m : 0 <= a -> word m -> word (a .& m).
Proof. intros Ha Hm. unfold word in *. pose proof (land_bounds a m ltac:(lia)). lia. Qed.

(** A field that the brackets build. *)
Lemma ldiff31 x : x .& Z.lnot 31 = x - x mod 32.
Proof.
  change 32 with (2 ^ 5). rewrite <- Z.ldiff_land. change 31 with (Z.ones 5). rewrite Z.ldiff_ones_r, Z.shiftl_mul_pow2, Z.shiftr_div_pow2 by lia.
  pose proof (Z.div_mod x (2 ^ 5) ltac:(lia)). lia.
Qed.

Lemma field_bits transp off len : 1 <= len <= 32 ->
  let t := TYPE_FIELD .| (transp .<< 21) .| (off .<< 5) .| (len - 1) in t .& 31 = len - 1 /\ (t .>> 5) .& 31 = off .& 31.
Proof.
  intros Hl t. unfold t, TYPE_FIELD. change 31 with (Z.ones 5). split; apply Z.bits_inj'; intros n Hn.
  - rewrite Z.land_spec, !Z.lor_spec. destruct (Z.ltb_spec n 5).
    + rewrite Z.ones_spec_low, andb_true_r by lia. rewrite !Z.shiftl_spec_low by lia. change 1073741824 with (1 .<< 30). rewrite Z.shiftl_spec_low by lia. done.
    + rewrite Z.ones_spec_high, andb_false_r by lia. symmetry. destruct (Z.eq_dec (len - 1) 0) as [-> |]; [apply Z.bits_0|]. apply Z.bits_above_log2; [lia|].
      assert (Z.log2 (len - 1) < 5) by (apply Z.log2_lt_pow2; lia). lia.
  - rewrite !Z.land_spec, Z.shiftr_spec, !Z.lor_spec by lia. destruct (Z.ltb_spec n 5); [|by rewrite Z.ones_spec_high, !andb_false_r by lia].
    rewrite Z.ones_spec_low, !andb_true_r by lia. rewrite (Z.shiftl_spec_low transp) by lia. change 1073741824 with (1 .<< 30). rewrite (Z.shiftl_spec_low 1) by lia.
    rewrite Z.shiftl_spec by lia. replace (n + 5 - 5) with n by lia. cbn [orb].
    assert (Z.testbit (len - 1) (n + 5) = false) as ->; [|apply orb_false_r]. destruct (Z.eq_dec (len - 1) 0) as [-> |]; [apply Z.bits_0|]. apply Z.bits_above_log2; [lia|].
    assert (Z.log2 (len - 1) < 5) by (apply Z.log2_lt_pow2; lia). lia.
Qed.

Lemma bracket_field_ok transp off len : 1 <= len <= 32 -> -2147483648 <= off < 2147483648 ->
  off .& Z.lnot 31 = i32 (off + len - 1) .& Z.lnot 31 ->
  let t := i32 (TYPE_FIELD .| (transp .<< 21) .| (off .<< 5) .| (len - 1)) in t <= 0 \/ field_ok t.
Proof.
  intros Hl Ho Hw t. set (x := TYPE_FIELD .| (transp .<< 21) .| (off .<< 5) .| (len - 1)) in *. destruct (field_bits transp off len Hl) as [B1 B2]. fold x in B1, B2.
  destruct (Z.leb_spec t 0) as [|Ht]; [by left|right]. assert (Ex : t = u32 x /\ u32 x < 2147483648).
  { unfold t, i32 in *. pose proof (u32_word x) as Hx. unfold word in Hx. cbv zeta in *. destruct (Z.ltb_spec (u32 x) 2147483648); [done|lia]. }
  destruct Ex as [Ex Hlt]. pose proof (u32_word x) as [Hx0 _]. rewrite Ex. split; [lia|].
  assert (Hbit : forall n, 0 <= n < 32 -> Z.testbit (u32 x) n = Z.testbit x n) by (intros n Hn; unfold u32; change 4294967296 with (2 ^ 32); apply Z.mod_pow2_bits_low; lia).
  assert (Hmask : forall m, 0 <= m < 4294967296 -> u32 x .& m = x .& m).
  { intros m Hm. apply Z.bits_inj'. intros n Hn. rewrite !Z.land_spec. destruct (Z.ltb_spec n 32); [by rewrite Hbit by lia|].
    assert (Z.testbit m n = false) as ->; [|by rewrite !andb_false_r]. destruct (Z.eq_dec m 0) as [-> |]; [apply Z.bits_0|]. apply Z.bits_above_log2; [lia|].
    assert (Z.log2 m < 32) by (apply Z.log2_lt_pow2; lia). lia. }
  split.
  - unfold is_field. rewrite Hmask by (unfold TYPE_FIELD; lia). apply negb_true_iff, Z.eqb_neq. intros E. assert (Hb : Z.testbit (x .& TYPE_FIELD) 30 = true); [|rewrite E, Z.bits_0 in Hb; discriminate].
    unfold x, TYPE_FIELD. rewrite Z.land_spec, !Z.lor_spec. change (Z.testbit 1073741824 30) with true. done.
  - unfold field_offset, field_length, FIELD_OFFSET_MASK, FIELD_LENGTH_MASK, FIELD_OFFSET_SHIFT, FIELD_LENGTH_SHIFT. rewrite !Hmask, B1 by (vm_compute; split; congruence).
    rewrite Z.shiftr_0_r. change (65535 .<< 5) with (Z.ones 16 .<< 5). rewrite land_shifted, Z.shiftr_shiftl_l, Z.sub_diag, Z.shiftl_0_r by lia.
    rewrite <- Z.land_assoc. change (Z.ones 16 .& 31) with 31. rewrite B2. rewrite !ldiff31 in Hw. change 31 with (Z.ones 5). rewrite Z.land_ones by lia. change (2 ^ 5) with 32.
    pose proof (Z.mod_pos_bound off 32 ltac:(lia)). pose proof (Z.mod_pos_bound (i32 (off + len - 1)) 32 ltac:(lia)).
    assert (Hi : i32 (off + len - 1) = off + len - 1 \/ i32 (off + len - 1) = off + len - 1 - 4294967296).
    { unfold i32. cbv zeta. unfold u32. destruct (Z.leb_spec 0 (off + len - 1)).
      - rewrite Z.mod_small by lia. destruct (Z.ltb_spec (off + len - 1) 2147483648); lia.
      - rewrite <- (Z.mod_add _ 1), Z.mod_small by lia. destruct (Z.ltb_spec (off + len - 1 + 1 * 4294967296) 2147483648); lia. }
    destruct Hi as [Hi|Hi]; rewrite Hi in *; [|lia].
    pose proof (Z.div_mod off 32 ltac:(lia)). pose proof (Z.div_mod (off + len - 1) 32 ltac:(lia)). lia.
Qed.

(** ** Names of the right kinds *)

Class LawfulNames `{Names} : Prop := {
  type_law w v : query T_IPFILTER_TYPE w = Some v -> v = TYPE_SYNTAX \/ known_type v;
  proto_law w v : query T_IP_PROTO w = Some v -> v < 2147483648;
  value_law db w v : query db w = Some v -> word v;
  ip_address_law w a : ip_address_arg w = Some a -> word a;
  ip_prefix_law w a m : ip_prefix_arg w = Some (a, m) -> word a /\ word m;
  ether_law w lo hi : ether_address_arg w = Some (lo, hi) -> word lo /\ word hi
}.

(** What is known of a test while it is read. *)
Record prim_read (p : Primitive) : Prop := {
  rd_u : data_ok (p_u p);
  rd_mask : data_ok (p_mask p);
  rd_proto : proto_ok (p_transp_proto p);
  rd_op : op_ok (p_op p);
  rd_side : 0 <= p_srcdst p <= 4;
  rd_type : p_type p <= 0 \/ known_type (p_type p);
  rd_data : is_field (p_data p) = true -> field_ok (p_data p)
}.

Lemma prim_read_in p : prim_read p -> (p_data p = TYPE_NONE -> p_op p = OP_EQ) -> prim_in p.
Proof. intros [? ? ? ? ? ? ?] ?. by constructor. Qed.

Lemma known_type_range t : known_type t -> 0 < t < 2147483648.
Proof.
  intros [H|(H & Hf & _)].
  - unfold plain_type in H. repeat (apply elem_of_cons in H as [-> |H]; [by vm_compute|]). by apply elem_of_nil in H.
  - split; [|lia]. assert (t <> 0) by (by intros ->). lia.
Qed.

Section read.
Context `{LawfulNames} (words : list (list Z)) (junk : PrimitiveData).
Hypothesis junk_ok : data_ok junk.

(** A word that [lookup] finds: the kind and the range of its value. *)
Lemma word_found w type proto rep : let '(wt, v, _) := FilterParse.lookup w type proto rep in
  wt = -1 \/ wt = -2 \/ wt = TYPE_TYPE /\ known_type v
  \/ word v /\ wt ∈ [TYPE_PROTO; TYPE_PORT; TYPE_TCPOPT; FIELD_ICMP_TYPE] /\ (wt = TYPE_PROTO -> v < 2147483648).
Proof using H0.
  unfold FilterParse.lookup. destruct (if (type =? 0) || (type =? TYPE_TYPE) then query T_IPFILTER_TYPE w else None) as [v|] eqn:Eq.
  { destruct (_ || _) in Eq; [|done]. destruct (Z.eqb_spec v TYPE_SYNTAX) as [|Hne]; [by left|]. do 2 right. left. split; [done|].
    by destruct (type_law w v Eq). }
  cbn [map]. destruct (forallb _ _); [by left|]. cbv beta iota zeta.
  set (t0 := if (_ : bool) then query T_IP_PROTO w else None). set (t1 := if (_ : bool) then query T_TCP_PORT w else None). set (t2' := if (_ : bool) then query T_UDP_PORT w else None).
  set (t3 := if (_ : bool) then query T_TCP_OPT w else None). set (t4 := if (_ : bool) then query T_ICMP_TYPE w else None).
  assert (H0' : forall v, t0 = Some v -> word v /\ v < 2147483648).
  { intros v E. unfold t0 in E. destruct (_ || _) in E; [|done]. split; [by eapply value_law|by eapply proto_law]. }
  assert (H1' : forall v, t1 = Some v -> word v) by (intros v E; unfold t1 in E; destruct (_ && _) in E; [by eapply value_law|done]).
  assert (H2' : forall v, t2' = Some v -> word v) by (intros v E; unfold t2' in E; destruct (_ && _) in E; [by eapply value_law|done]).
  assert (H3' : forall v, t3 = Some v -> word v) by (intros v E; unfold t3 in E; destruct (_ && _) in E; [by eapply value_law|done]).
  assert (H4' : forall v, t4 = Some v -> word v) by (intros v E; unfold t4 in E; destruct (_ && _) in E; [by eapply value_law|done]).
  set (t2 := if (_ : bool) then None else t2'). assert (H2'' : forall v, t2 = Some v -> word v) by (intros v E; unfold t2 in E; destruct (_ && _) in E; [done|by apply H2']).
  clearbody t0 t1 t2 t3 t4. clear t2' H2'.
  assert (Hin : forall t v, t ∈ [TYPE_PROTO; TYPE_PORT; TYPE_TCPOPT; FIELD_ICMP_TYPE] -> word v -> (t = TYPE_PROTO -> v < 2147483648) ->
    t = -1 \/ t = -2 \/ t = TYPE_TYPE /\ known_type v \/ word v /\ t ∈ [TYPE_PROTO; TYPE_PORT; TYPE_TCPOPT; FIELD_ICMP_TYPE] /\ (t = TYPE_PROTO -> v < 2147483648)) by (intros; tauto).
  assert (Hmem : forall t, t ∈ [TYPE_PROTO; TYPE_PORT; TYPE_TCPOPT; FIELD_ICMP_TYPE] <-> t = TYPE_PROTO \/ t = TYPE_PORT \/ t = TYPE_TCPOPT \/ t = FIELD_ICMP_TYPE).
  { intros t. rewrite !elem_of_cons, elem_of_nil. tauto. }
  destruct t0 as [v0|], t1 as [v1|], t2 as [v2|], t3 as [v3|], t4 as [v4|]; cbn [app]; try (by right; left).
  all: apply Hin; [apply Hmem; tauto| |]; try (intros [=]).
  all: first [by apply (H0' _ eq_refl) | by apply H1' | by apply H2'' | by apply H3' | by apply H4'].
Qed.

(** *** Setting one part *)

Lemma clear_read u m : data_ok u -> data_ok m -> prim_read (clear u m).
Proof using Type. intros Hu Hm. constructor; cbn; first [done|by left|lia]. Qed.

Lemma with_type_read p x : prim_read p -> x <= 0 \/ known_type x -> prim_read (with_type p x).
Proof using Type. intros [? ? ? ? ? ? ?] Hx. by constructor. Qed.

Lemma with_proto_read p x : prim_read p -> proto_ok x -> prim_read (with_proto p x).
Proof using Type. intros [? ? ? ? ? ? ?] Hx. by constructor. Qed.

Lemma with_srcdst_read p x : prim_read p -> 0 <= x <= 4 -> prim_read (with_srcdst p x).
Proof using Type. intros [? ? ? ? ? ? ?] Hx. by constructor. Qed.

Lemma with_op_read p op neg : prim_read p -> op_ok op -> prim_read (with_op p op neg).
Proof using Type. intros [? ? ? ? ? ? ?] Hx. by constructor. Qed.

Lemma with_data_read p x : prim_read p -> (is_field x = true -> field_ok x) -> prim_read (with_data p x).
Proof using Type. intros [? ? ? ? ? ? ?] Hx. by constructor. Qed.

Lemma with_u_read p x : prim_read p -> data_ok x -> prim_read (with_u p x).
Proof using Type. intros [? ? ? ? ? ? ?] Hx. by constructor. Qed.

Lemma set_u_read p x : prim_read p -> word x -> prim_read (set_u p x).
Proof using Type. intros Hp Hx. apply with_u_read; [done|]. split; [done|]. by destruct (rd_u p Hp). Qed.

Lemma set_m_read p x : prim_read p -> word x -> prim_read (set_m p x).
Proof using Type. intros [? [? ?] ? ? ? ? ?] Hx. by constructor. Qed.

(** ** Qualifiers *)

Definition header_ok (h : Z) : Prop := h ∈ [0; header_e; header_i].

Lemma qual_step_read q q' : prim_read (q_prim q) -> header_ok (q_header q) -> qual_step words q = Some q' ->
  prim_read (q_prim q') /\ header_ok (q_header q') /\ p_data (q_prim q') = p_data (q_prim q) /\ p_op (q_prim q') = p_op (q_prim q).
Proof using H0.
  destruct q as [pos prim header neg errh]. cbn [q_prim q_header]. intros Hp Hh E. unfold qual_step in E.
  pose proof (word_found (word_at words pos) 0 UNKNOWN false) as Hl. destruct (FilterParse.lookup _ _ _ _) as [[wt wdata] ms]. cbv zeta in E.
  destruct (Z.eqb_spec wt TYPE_TYPE) as [->|Hwt].
  { assert (Hk : known_type wdata).
    { destruct Hl as [?|[?|[[_ ?]|(_ & Hin & _)]]]; try done. exfalso. rewrite !elem_of_cons in Hin. by destruct Hin as [?|[?|[?|[?|?%elem_of_nil]]]]. }
    pose proof (known_type_range wdata Hk) as Hr. rewrite i32_small in E by lia. cbn [set_type] in E. cbv beta iota zeta in E.
    assert (Hp1 : prim_read (with_type prim wdata)) by (apply with_type_read; auto).
    destruct (is_field wdata && has_field_proto wdata); injection E as <-; cbn [q_prim q_header]; split_and!; try done.
    apply with_proto_read; [done|]. apply field_proto_ok. lia. }
  destruct (Z.eqb_spec wt TYPE_PROTO) as [->|Hwt2].
  { assert (Hv : 0 <= wdata < 2147483648).
    { destruct Hl as [?|[?|[[? _]|(Hw & _ & Hlt)]]]; try done. specialize (Hlt eq_refl). unfold word in Hw. lia. }
    rewrite i32_small in E by done. injection E as <-. cbn [q_prim q_header]. split_and!; try done. apply with_proto_read; [done|]. by right. }
  destruct (negb _); [done|]. clear Hl.
  assert (Hsd : forall sd, 0 <= sd <= 4 -> prim_read (with_srcdst prim sd)) by (intros; by apply with_srcdst_read).
  destruct (word_is (word_at words pos) "src").
  { destruct (if _ && _ then _ else None) as [sd|] eqn:Eb; injection E as <-; cbn [q_prim q_header]; split_and!; try done; apply Hsd.
    - repeat case_match; simplify_eq; unfold SD_AND, SD_OR; lia.
    - unfold SD_SRC; lia. }
  destruct (_ || _); [injection E as <-; cbn [q_prim q_header]; split_and!; try done; apply Hsd; unfold SD_DST; lia|].
  destruct (word_is (word_at words pos) "ip" || word_is (word_at words pos) "ether") eqn:Ew.
  { destruct (negb _); [done|]. injection E as <-. cbn [q_prim q_header]. split_and!; try done.
    apply orb_true_iff in Ew as [->%word_is_eq| ->%word_is_eq]; unfold header_ok; rewrite !elem_of_cons; vm_compute; tauto. }
  destruct (word_is _ "not" || word_is _ "!"); [|done]. injection E as <-. cbn [q_prim q_header]. done.
Qed.

Lemma collect_quals_read fuel q : prim_read (q_prim q) -> header_ok (q_header q) ->
  let q' := collect_quals words fuel q in
  prim_read (q_prim q') /\ header_ok (q_header q').
Proof using H0.
  revert q. induction fuel as [|fuel IH]; intros q Hp Hh; cbn [collect_quals]; [done|]. destruct (q_pos q <? _); [|done].
  destruct (qual_step words q) as [q'|] eqn:E; [|done]. apply qual_step_read in E as (H1 & H2 & _); [by apply IH|done|done].
Qed.

(** ** Brackets, masks, operators and data *)

Lemma parse_brackets_read prim pos errh : prim_read prim -> prim_read (parse_brackets words junk prim pos errh).1.1.
Proof using Type.
  intros Hp. unfold parse_brackets. destruct (combine_words _ _ _) as [pos' c]. destruct (_ <=? _); [done|].
  destruct (bracket_numbers junk c) as [[fieldpos len]|]; [|done]. cbv zeta. set (off := i32 (fieldpos * 8)). set (n := i32 (len * 8)).
  destruct (Z.ltb_spec n 1); cbn [orb]; [done|]. destruct (Z.ltb_spec 32 n); cbn [orb]; [done|].
  destruct (Z.eqb_spec (off .& Z.lnot 31) (i32 (off + n - 1) .& Z.lnot 31)) as [E|]; cbn [negb]; [|done]. cbn [set_type fst].
  apply with_type_read; [done|]. assert (Ho : -2147483648 <= off < 2147483648).
  { unfold off, i32. cbv zeta. pose proof (u32_word (fieldpos * 8)) as Hw. unfold word in Hw. destruct (Z.ltb_spec (u32 (fieldpos * 8)) 2147483648); lia. }
  destruct (bracket_field_ok (if p_transp_proto prim =? UNKNOWN then 0 else p_transp_proto prim) off n ltac:(lia) Ho E) as [Ht|Ht]; [by left|by right; right].
Qed.

Lemma parse_mask_read wd pos header errh : data_ok (parse_mask words junk wd pos header errh).1.2.
Proof using H0 junk_ok.
  pose proof junk_ok as [J1 J2]. unfold parse_mask. destruct (_ && _); [|done]. cbv zeta.
  match goal with |- context [let '(_, _) := ?r in _] => assert (Hr : data_ok r.2) end.
  { destruct (int_arg false _) as [u|] eqn:Eu; [split; [by eapply int_arg_word|done]|].
    destruct (if negb (header =? header_e) then _ else _) as [a|] eqn:Ea; [destruct (negb _) in Ea; [|done]; split; [by eapply ip_address_law|done]|].
    destruct (if negb (header =? header_i) then _ else _) as [[lo hi]|] eqn:Ee; [|done]. destruct (negb _) in Ee; [|done].
    destruct (ether_law _ _ _ Ee) as [E1 E2]. split; [done|]. apply lor_word; [done|]. apply land_word; [by destruct J2|unfold word; lia]. }
  match goal with |- context [let '(_, _) := ?r in _] => destruct r as [[pos' dt] m] end. by destruct (_ && _ && _).
Qed.

Lemma parse_relop_read wd prim pos : prim_read prim ->
  let r := (parse_relop wd prim pos).1 in prim_read r /\ p_data r = p_data prim.
Proof using Type.
  intros Hp. unfold parse_relop. cbv zeta. assert (Hop : forall op neg, op_ok op -> prim_read (with_op prim op neg) /\ p_data (with_op prim op neg) = p_data prim).
  { intros op neg Ho. split; [by apply with_op_read|done]. }
  repeat match goal with |- context [if ?c then _ else _] => destruct c end; cbn [fst]; first [done|apply Hop; first [by apply rd_op|unfold op_ok; tauto]].
Qed.

Lemma tagged_data wt : wt ∈ [TYPE_PROTO; TYPE_PORT; TYPE_TCPOPT; FIELD_ICMP_TYPE] -> is_field wt = true -> field_ok wt.
Proof using Type.
  intros Hin. rewrite !elem_of_cons in Hin. destruct Hin as [->|[->|[->|[->|E]]]]; try done.
  by apply elem_of_nil in E.
Qed.

Lemma parse_data_read prim pos header errh : prim_read prim -> prim_read (parse_data words prim pos header errh).1.1.
Proof using H0 junk_ok.
  intros Hp. unfold parse_data. destruct (_ <? _); [|done].
  pose proof (word_found (word_at words pos) (p_type prim) (p_transp_proto prim) true) as Hl. destruct (FilterParse.lookup _ _ _ _) as [[wt wdata] ms]. cbv zeta.
  destruct (Z.eqb_spec wt (-2)) as [->|H2]; [cbn [fst]; apply with_type_read; [done|by left]|].
  destruct (negb (wt =? -1) && negb (wt =? TYPE_TYPE)) eqn:Eb.
  { apply andb_true_iff in Eb as [E1%negb_true_iff%Z.eqb_neq E2%negb_true_iff%Z.eqb_neq]. destruct Hl as [?|[?|[[? _]|(Hw & Hin & _)]]]; try done.
    cbn [fst]. apply with_data_read; [by apply set_u_read|by apply tagged_data]. }
  clear Hl Eb. assert (Hk : forall p t, prim_read p -> t ∈ [TYPE_INT; TYPE_NET; TYPE_HOST; TYPE_ETHER] -> prim_read (with_data p t)).
  { intros p t Hq Hin. apply with_data_read; [done|]. rewrite !elem_of_cons in Hin. by destruct Hin as [->|[->|[->|[->|?%elem_of_nil]]]]. }
  assert (Hin : forall t, t = TYPE_INT \/ t = TYPE_NET \/ t = TYPE_HOST \/ t = TYPE_ETHER -> t ∈ [TYPE_INT; TYPE_NET; TYPE_HOST; TYPE_ETHER]) by (intros t; rewrite !elem_of_cons; tauto).
  destruct (int_arg true _) as [v|] eqn:Ei; [cbn [fst]; apply Hk; [apply set_u_read; [done|by eapply int_arg_word]|apply Hin; tauto]|].
  destruct (if negb (header =? header_e) then ip_address_arg _ else None) as [a|] eqn:Ea.
  { destruct (negb _) in Ea; [|done]. apply ip_address_law in Ea. assert (Hp1 : prim_read (set_u prim a)) by (by apply set_u_read).
    destruct (if _ && _ then _ else None) as [m|] eqn:Em; [destruct (_ && _) in Em; [|done]; apply ip_address_law in Em; cbn [fst]; apply Hk; [by apply set_m_read|apply Hin; tauto]|].
    destruct (if p_type (set_u prim a) =? TYPE_NET then _ else None) as [[a' m]|] eqn:Ex; [|cbn [fst]; apply Hk; [done|apply Hin; tauto]].
    destruct (_ =? TYPE_NET) in Ex; [|done]. apply ip_prefix_law in Ex as [? ?]. cbn [fst]. apply Hk; [by apply set_m_read; [apply set_u_read|]|apply Hin; tauto]. }
  destruct (if negb (header =? header_e) then ip_prefix_arg _ else None) as [[a m]|] eqn:Ex.
  { destruct (negb _) in Ex; [|done]. apply ip_prefix_law in Ex as [? ?]. cbn [fst]. apply Hk; [by apply set_m_read; [apply set_u_read|]|apply Hin; tauto]. }
  destruct (if negb (header =? header_i) then _ else _) as [[lo hi]|] eqn:Ee; [|done]. destruct (negb _) in Ee; [|done]. apply ether_law in Ee as [E1 E2].
  cbn [fst]. apply Hk; [|apply Hin; tauto]. apply with_u_read; [done|]. split; [done|]. apply lor_word; [done|].
  apply land_word; [by destruct (rd_u prim Hp) as [_ [? _]]|unfold word; lia].
Qed.

(** ** The whole test *)

(** What [read_prim] returns; [in_none] is what is missing for [prim_in]. *)
Lemma read_prim_ok pos neg prev errh : prev_ok prev ->
  let r := read_prim words junk pos neg prev errh in
  prim_read (r_prim r) /\ prev_ok (r_prev r) /\ data_ok (r_mask r) /\ header_ok (r_header r).
Proof using H0 junk_ok.
  intros Hv. unfold read_prim. pose proof (collect_quals_read (length words) (mkQuals pos (clear junk junk) 0 neg errh) (clear_read _ _ junk_ok junk_ok)
    ltac:(unfold header_ok; rewrite elem_of_cons; by left)) as Hq.
  destruct (collect_quals _ _ _) as [pos1 prim header neg1 errh1]. cbn [q_prim q_header] in Hq. destruct Hq as [Hp Hh]. cbv zeta.
  set (prev1 := if negb (pos1 =? pos) then _ else prev). assert (Hv1 : prev_ok prev1).
  { unfold prev1. destruct (negb (pos1 =? pos)); [|done]. constructor; [by left|cbn; lia|done]. }
  set (h := if p_data prev1 =? TYPE_ETHER then header_e else header). assert (Hh1 : header_ok h).
  { unfold h. destruct (p_data prev1 =? TYPE_ETHER); [|done]. unfold header_ok. rewrite !elem_of_cons. right. by left. }
  match goal with |- context [let '(_, _) := ?r in _] => assert (Hb : prim_read r.1.1.1) end.
  { destruct (_ && _ && _); [|done]. pose proof (parse_brackets_read prim pos1 errh1 Hp). by destruct (parse_brackets _ _ _ _ _) as [[? ?] ?]. }
  match goal with |- context [let '(_, _) := ?r in _] => destruct r as [[[prim2 pos2] errh2] wd] end. cbn [fst] in Hb.
  pose proof (parse_mask_read wd pos2 h errh2) as Hm. destruct (parse_mask _ _ _ _ _ _) as [[[pos3 dt] mask] errh3]. cbn [fst snd] in Hm.
  set (wd' := if _ && _ then _ else wd). destruct (parse_relop_read wd' prim2 pos3 Hb) as [Hr _]. destruct (parse_relop _ _ _) as [prim4 pos4]. cbn [fst] in Hr.
  pose proof (parse_data_read prim4 pos4 h errh3 Hr) as Hd. destruct (parse_data _ _ _ _ _) as [[prim5 pos5] errh5]. cbn [fst r_prim r_prev r_mask r_header] in *. done.
Qed.
End read.

(** ** What [check] leaves for the next test *)

Lemma set_mask_srcdst p full s given errh : p_srcdst (set_mask p full s given errh).1.1 = p_srcdst p.
Proof. unfold set_mask. cbv zeta. repeat match goal with |- context [if ?c then _ else _] => destruct c end; done. Qed.

Ltac same_srcdst := repeat match goal with
  | |- context [if ?c then _ else _] => destruct c
  | |- context [set_mask ?p ?f ?s ?g ?e] =>
      let H := fresh "H" in pose proof (set_mask_srcdst p f s g e) as H; destruct (set_mask p f s g e) as [[? ?] ?]; cbn [fst snd] in H |- *
  end; cbn [fst snd p_srcdst with_type with_data with_op with_proto with_u with_mask set_u set_m] in *; done.

Lemma check_data_srcdst header mask_dt mask p errh : p_srcdst (check_data header mask_dt mask p errh).1.1 = p_srcdst p.
Proof.
  assert (H1 : p_srcdst (check_proto mask_dt mask p errh).1.1 = p_srcdst p).
  { unfold check_proto. cbv zeta. destruct (_ && _ && _); [done|]. set (q := with_proto _ UNKNOWN). assert (Eq : p_srcdst q = p_srcdst p) by (unfold q; by destruct (_ || _)). clearbody q.
    destruct (_ || _); [exact Eq|]. match goal with |- context [let '(_, _) := ?r in _] => assert (Er : p_srcdst r.1.1 = p_srcdst q) by same_srcdst; destruct r as [[r1 e1] ok] end.
    cbn [fst] in Er. destruct (negb ok); cbn [fst]; [congruence|]. by destruct (_ && _ && _); cbn [fst p_srcdst with_proto]; congruence. }
  assert (H2 : p_srcdst (check_port mask_dt mask p errh).1.1 = p_srcdst p).
  { unfold check_port. cbv zeta. set (q := if p_data p =? TYPE_INT then _ else p). assert (Eq : p_srcdst q = p_srcdst p) by (unfold q; by destruct (_ =? _)). rewrite <- Eq. clearbody q. clear. same_srcdst. }
  assert (H3 : p_srcdst (check_tcpopt mask_dt p errh).1.1 = p_srcdst p).
  { unfold check_tcpopt. cbv zeta. set (q := if p_data p =? TYPE_INT then _ else p). assert (Eq : p_srcdst q = p_srcdst p) by (unfold q; by destruct (_ =? _)). rewrite <- Eq. clearbody q. clear.
    destruct (negb _); [done|]. set (r := if p_transp_proto q =? UNKNOWN then _ else q). assert (Er : p_srcdst r = p_srcdst q) by (unfold r; by destruct (_ =? _)). rewrite <- Er. clearbody r. clear Er. same_srcdst. }
  assert (H4 : p_srcdst (check_ect mask_dt mask p errh).1.1 = p_srcdst p).
  { unfold check_ect. cbv zeta. destruct (_ && _); [done|]. destruct (_ && _ && _); [done|]. set (q := if p_data p =? TYPE_NONE then _ else p).
    assert (Eq : p_srcdst q = p_srcdst p) by (unfold q; by destruct (_ =? _)). rewrite <- Eq. clearbody q. clear. same_srcdst. }
  assert (H5 : p_srcdst (check_field mask_dt mask p errh).1.1 = p_srcdst p) by (clear; unfold check_field; cbv zeta; same_srcdst).
  unfold check_data, set_host_mask. cbv zeta.
  repeat match goal with |- context [if ?c then _ else _] => destruct c end; done.
Qed.

Lemma prim_check_next prev header mask_dt mask p errh p' errh' :
  prim_in p -> prev_ok prev -> prim_ok p' -> prim_check prev header mask_dt mask p errh = (p', errh', true) -> prev_ok p'.
Proof.
  intros Hp Hv Hok E. unfold prim_check in E. destruct (Z.ltb_spec (p_type p) 0); [done|].
  destruct (infer_type prev p errh) as [[q e1] ok] eqn:Ei. destruct ok; cbn [negb] in E; [|done]. destruct (infer_type_ok _ _ _ _ _ Hp Hv ltac:(lia) Ei) as (Hq & _).
  cbv zeta in E. set (h := if negb (header =? 0) then header else _) in E. set (r := if _ && _ then with_type q TYPE_ETHER else q) in E.
  assert (Er : p_srcdst r = p_srcdst q) by (unfold r; by destruct (_ && _)). pose proof (check_data_srcdst h mask_dt mask r e1) as Es.
  destruct (check_data _ _ _ _ _) as [[s e2] ok2]. cbn [fst] in Es. destruct ok2; cbn [negb] in E; [|done].
  assert (Hs : 0 <= p_srcdst s <= 4) by (rewrite Es, Er; apply (in_side _ Hq)).
  assert (Hs' : 0 <= p_srcdst p' <= 4).
  { unfold fix_srcdst in E. destruct (_ || _ || _) in E; injection E as <- _; [|done]. destruct (_ =? 0); [|done]. unfold SD_OR. cbn. lia. }
  destruct Hok as [_ _ Hpr _ Ht]. constructor; [done|done|]. intros Hf. unfold type_ok in Ht. cbv zeta in Ht.
  destruct Ht as [[[Ht|Ht] _]|[[Ht _]|[Ht|[[Ht _]|[[Ht _]|[Ht _]]]]]]; try (by rewrite Ht in Hf). done.
Qed.

(** ** Tests of the words *)

(** The words from [p] are read as [r], whose type is inferred as in [q], and [check]
    makes [prim] of it.  An operator comes with data, the bound is not one that
    [set_mask] rounds with an undefined shift ([fair]), and the test is not the
    protocol [transp], for which [compile] makes no instruction ([vacuous]). *)
Record test_reads `{Names} (words : list (list Z)) (junk : PrimitiveData) (p : Z) (neg : bool) (s : context) (r : reading) (q prim : Primitive) (errh : list message) : Prop := {
  tr_word : p < vlen words /\ ends_term (word_at words p) = false
    /\ word_is (word_at words p) "true" = false /\ word_is (word_at words p) "false" = false;
  tr_read : read_prim words junk p neg s.1 s.2 = r;
  tr_pos : r_pos r <> p;
  tr_data : p_data (r_prim r) = TYPE_NONE -> p_op (r_prim r) = OP_EQ;
  tr_infer : (infer_type (r_prev r) (r_prim r) (r_errh r)).1.1 = q /\ (infer_type (r_prev r) (r_prim r) (r_errh r)).2 = true;
  tr_fair : fair (r_mask_dt r) (r_mask r) q;
  tr_check : prim_check (r_prev r) (r_header r) (r_mask_dt r) (r_mask r) (r_prim r) (r_errh r) = (prim, errh, true);
  tr_nonvacuous : vacuous prim = false
}.

(** Such words are a test of the grammar that has the value they ask for, and the
    next test may be read after it. *)
Lemma test_of_words `{LawfulNames} words junk d p neg s r q prim errh :
  data_ok junk -> (forall off, word (d off)) -> prev_ok s.1 -> test_reads words junk p neg s r q prim errh ->
  test words junk (wtest d) neg p s (xorb (asked (effective_header (r_header r) q) (r_mask_dt r) (r_mask r) q d) (r_neg r)) (r_pos r) (prim, errh)
  /\ prev_ok prim.
Proof.
  intros Hj Hd Hv [T1 T2 T3 T4 T5 T6 T7 T8]. pose proof (read_prim_ok words junk Hj p neg s.1 s.2 Hv) as Hr. rewrite T2 in Hr. cbv zeta in Hr.
  destruct Hr as (R1 & R2 & R3 & R4). pose proof (prim_read_in _ R1 T4) as Hin. split; [apply test_accepted; [done|]; by constructor|].
  destruct T5 as [T5a T5b]. destruct (infer_type _ _ _) as [[q' e1] ok] eqn:Ei. cbn [fst snd] in T5a, T5b. subst q' ok.
  destruct (check_keeps_holds _ _ _ _ _ _ _ _ _ _ Hin R2 R3 R4 Ei T6 T7) as [Hok _]. by eapply prim_check_next.
Qed.

(** The tests of the language and their values on the words [d] of a packet: [true],
    [false], and words that are read as a test and accepted by [check]. *)
Inductive test_value `{Names} (words : list (list Z)) (junk : PrimitiveData) (d : Z -> Z) : bool -> Z -> context -> bool -> Z -> context -> Prop :=
| value_true neg p s : at_word words p "true" = true -> test_value words junk d neg p s (negb neg) (p + 1) s
| value_false neg p s : at_word words p "false" = true -> test_value words junk d neg p s neg (p + 1) s
| value_prim neg p s r q prim errh : test_reads words junk p neg s r q prim errh ->
    test_value words junk d neg p s (xorb (asked (effective_header (r_header r) q) (r_mask_dt r) (r_mask r) q d) (r_neg r)) (r_pos r) (prim, errh).

Lemma test_value_parsed `{LawfulNames} words junk d : data_ok junk -> (forall off, word (d off)) ->
  forall neg p s v p' s', prev_ok s.1 -> test_value words junk d neg p s v p' s' -> test words junk (wtest d) neg p s v p' s' /\ prev_ok s'.1.
Proof.
  intros Hj Hd neg p s v p' s' Hv Ht. destruct Ht as [neg p s E|neg p s E|neg p s r q prim errh Hr].
  - split; [by apply (test_true _ _ d)|done].
  - split; [by apply (test_false _ _ d)|done].
  - by apply test_of_words.
Qed.

(** *** Deciding the conditions *)

Definition fairb (mask_dt : Z) (mask : PrimitiveData) (p : Primitive) : bool :=
  (provided mask_dt mask =? 0) || negb (bad_bound (p_op p) (d_u (p_u p)) (provided mask_dt mask)).

Lemma fairb_fair mask_dt mask p : fairb mask_dt mask p = true -> fair mask_dt mask p.
Proof. unfold fairb. intros [H%Z.eqb_eq|H%negb_true_iff]%orb_true_iff; [by left|by right]. Qed.

(** The conditions of [test_reads]; [prim_check] says what follows the test. *)
Definition readable `{Names} (words : list (list Z)) (junk : PrimitiveData) (p : Z) (neg : bool) (s : context) : bool :=
  let r := read_prim words junk p neg s.1 s.2 in
  let '(q, _, typed) := infer_type (r_prev r) (r_prim r) (r_errh r) in
  let '(prim, _, ok) := prim_check (r_prev r) (r_header r) (r_mask_dt r) (r_mask r) (r_prim r) (r_errh r) in
  (p <? vlen words) && negb (ends_term (word_at words p)) && negb (word_is (word_at words p) "true") && negb (word_is (word_at words p) "false")
  && negb (r_pos r =? p) && (negb (p_data (r_prim r) =? TYPE_NONE) || (p_op (r_prim r) =? OP_EQ))
  && typed && fairb (r_mask_dt r) (r_mask r) q && ok && negb (vacuous prim).

(** The value of the test and what follows it. *)
Definition reads_as `{Names} (words : list (list Z)) (junk : PrimitiveData) (d : Z -> Z) (p : Z) (neg : bool) (s : context) : bool * Z * context :=
  let r := read_prim words junk p neg s.1 s.2 in
  let '(q, _, _) := infer_type (r_prev r) (r_prim r) (r_errh r) in
  let '(prim, errh, _) := prim_check (r_prev r) (r_header r) (r_mask_dt r) (r_mask r) (r_prim r) (r_errh r) in
  (xorb (asked (effective_header (r_header r) q) (r_mask_dt r) (r_mask r) q d) (r_neg r), r_pos r, (prim, errh)).

Lemma readable_value `{Names} words junk d p neg s v p' s' : readable words junk p neg s = true ->
  reads_as words junk d p neg s = (v, p', s') -> test_value words junk d neg p s v p' s'.
Proof.
  unfold readable, reads_as. cbv zeta. destruct (infer_type _ _ _) as [[q e1] typed] eqn:Ei. destruct (prim_check _ _ _ _ _ _) as [[prim errh] ok] eqn:Ec.
  intros Hb [= <- <- <-]. repeat (apply andb_true_iff in Hb as [Hb ?]). bprop. apply value_prim. constructor; rewrite ?Ei; try done.
  - intros E. match goal with H : _ || _ = true |- _ => apply orb_true_iff in H as [H|H] end; bprop; done.
  - by apply fairb_fair.
  - rewrite Ec. by subst ok.
Qed.
