(* ===== verification/Ersa.v ===== *)
(** * The bandwidth classifier

    [Classifier] of src/classifier.{hh,cc}: the element that replaces Click's
    own Classifier in this router.  [push] keeps a rate per second, abstracts
    the rates into a string of 0 (decrease), 1 (constant) and 2 (increase),
    and sends the traffic of bandwidth measurement tools to output 1 and all
    other traffic to output 0.

    The clock ([time(0)]) is an argument of [push].  [is_flagged_ips] is a
    static member, so one map is shared by all elements: it is passed beside
    the element's own state.  [unordered_map] has no order, so what is printed
    by iterating over one is a set.  [long double] is the 80-bit extended
    format and [double] the 64-bit format, computed by [SpecFloat]. *)

From S2P Require Import Prelude Packet.
From stdpp Require Import strings pretty gmap.
From Stdlib Require Import Sorted Ascii Floats.SpecFloat.

Local Open Scope Z_scope.
Local Open Scope word_scope.

(** ** Floating point *)

Definition double_of_int (n : Z) : spec_float := binary_normalize 53 1024 n 0 false.

(** The conversion from [double] to [long double] is exact. *)
Definition ld_of_double (x : spec_float) : spec_float :=
  match x with
  | S754_finite s m e => binary_normalize 64 16384 (if s then Zneg m else Zpos m) e s
  | _ => x
  end.

Definition ld_zero : spec_float := S754_zero false.
Definition ld_add : spec_float -> spec_float -> spec_float := SFadd 64 16384.
Definition ld_sub : spec_float -> spec_float -> spec_float := SFsub 64 16384.

(** Conversion to [int] truncates towards zero. *)
Definition int_of_ld (x : spec_float) : Z :=
  match x with
  | S754_finite s m e =>
      let a := if 0 <=? e then Zpos m .<< e else Zpos m .>> (- e) in
      if s then - a else a
  | _ => 0
  end.

(** ** Strings *)

(** [std::to_string] of an integer *)
Definition to_string (x : Z) : string := pretty x.

(** The four bytes at [p->data() + off]. *)
Definition ip_bytes (p : packet) (off : Z) : list Z := map (pkt_byte p) (seqZ off 4).

Fixpoint get_ip_string (curr_chars : list Z) : string :=
  match curr_chars with
  | [] => ""
  | [c] => to_string c
  | c :: rest => (to_string c +:+ "." +:+ get_ip_string rest)%string
  end.

(** [char] is signed. *)
Definition signed_char (b : Z) : Z := if b <? 128 then b else b - 256.

Definition get_tls_session_id (p : packet) : string :=
  let session_id_length := pkt_byte p 97 in
  let curr_chars := map (fun i => signed_char (pkt_byte p (i + 98))) (seqZ 0 session_id_length) in
  String.concat "" (map to_string curr_chars).

(** ** Search *)

(** [memmem(hay, needle) != nullptr] *)
Fixpoint prefix_of (needle hay : list Z) : bool :=
  match needle, hay with
  | [], _ => true
  | x :: needle', y :: hay' => (x =? y) && prefix_of needle' hay'
  | _, [] => false
  end.

Fixpoint memmem (hay needle : list Z) : bool :=
  prefix_of needle hay
  || match hay with [] => false | _ :: hay' => memmem hay' needle end.

(** Server names of the measurement tools, as in the header. *)
Definition speed_of_me_1 : list Z :=
  [99; 100; 110; 46; 115; 112; 101; 101; 100; 111; 102; 46; 109; 101].
Definition speed_of_me_2 : list Z :=
  [115; 112; 101; 101; 100; 111; 102; 46; 109; 101].
Definition fast_com_1 : list Z :=
  [102; 97; 115; 116; 46; 99; 111; 109].
Definition fast_com_2 : list Z :=
  [97; 112; 105; 46; 102; 97; 115; 116; 46; 99; 111; 109].
Definition fast_com_3 : list Z :=
  [105; 99; 104; 110; 97; 101; 97; 45; 119; 101; 98; 46; 110; 101; 116; 102;
   108; 105; 120; 46; 99; 111; 109].
Definition fast_com_4 : list Z :=
  [111; 99; 97; 46; 110; 102; 108; 120; 118; 105; 100; 101; 111; 46; 110; 101; 116].
Definition speed_check_org_1 : list Z :=
  [119; 119; 119; 46; 115; 112; 101; 101; 100; 99; 104; 101; 99; 107; 46; 111;
   114; 103].
Definition speed_check_org_2 : list Z :=
  [99; 100; 110; 46; 115; 112; 101; 101; 100; 99; 104; 101; 99; 107; 46; 111;
   114; 103].
Definition speed_check_org_3 : list Z :=
  [97; 112; 105; 46; 115; 112; 101; 101; 100; 115; 112; 111; 116; 46; 111; 114; 103].
Definition speed_check_org_4 : list Z :=
  [98; 49; 46; 101; 116; 114; 97; 108; 105; 116; 121; 46; 99; 111; 109].
Definition speed_test_net_1 : list Z :=
  [119; 119; 119; 46; 115; 112; 101; 101; 100; 116; 101; 115; 116; 46; 110; 101; 116].
Definition speed_test_net_2 : list Z :=
  [98; 46; 99; 100; 110; 115; 116; 46; 110; 101; 116].
Definition speed_test_net_3 : list Z :=
  [99; 100; 110; 46; 122; 105; 102; 102; 115; 116; 97; 116; 105; 99; 46; 99;
   111; 109].
Definition speed_test_net_4 : list Z :=
  [119; 119; 119; 46; 103; 111; 111; 103; 108; 101; 116; 97; 103; 109; 97; 110;
   97; 103; 101; 114; 46; 99; 111; 109].
Definition speed_test_net_5 : list Z :=
  [100; 51; 100; 105; 118; 49; 109; 116; 121; 109; 51; 57; 105; 99; 46; 99;
   108; 111; 117; 100; 102; 114; 111; 110; 116; 46; 110; 101; 116].
Definition speed_test_net_6 : list Z :=
  [99; 46; 97; 109; 97; 122; 111; 110; 45; 97; 100; 115; 121; 115; 116; 101;
   109; 46; 99; 111; 109].
Definition speed_test_net_7 : list Z :=
  [97; 99; 100; 110; 46; 97; 100; 110; 120; 115; 46; 99; 111; 109].
Definition speed_test_net_8 : list Z :=
  [99; 111; 110; 116; 101; 120; 116; 117; 97; 108; 46; 109; 101; 100; 105; 97;
   46; 110; 101; 116].
Definition speed_test_net_9 : list Z :=
  [105; 109; 97; 103; 101; 54; 46; 112; 117; 98; 109; 97; 116; 105; 99; 46;
   99; 111; 109].
Definition speed_test_net_10 : list Z :=
  [115; 105; 109; 97; 103; 101; 52; 46; 112; 117; 98; 109; 97; 116; 105; 99;
   46; 99; 111; 109].

Definition server_names : list (list Z) :=
  [speed_of_me_1; speed_of_me_2; fast_com_1; fast_com_2; fast_com_3;
   fast_com_4; speed_check_org_1; speed_check_org_2; speed_check_org_3; speed_check_org_4;
   speed_test_net_1; speed_test_net_2; speed_test_net_3; speed_test_net_4; speed_test_net_5;
   speed_test_net_6; speed_test_net_7; speed_test_net_8; speed_test_net_9; speed_test_net_10].

(** ** Behavior definitions *)

(** The assignments of the constructor, in order. *)
Definition behavior_strings : list string :=
  ["20111"; "201111111"; "20111111111"; "20111111111001";
   "21111"; "211111"; "2111111"; "21111111";
   "211111111"; "2111111111"; "21111111111"; "211111111111";
   "2111111111111110"; "222121"; "2221212100"; "222121210021";
   "2221212100212"; "222121210021211"; "2221212100212112"; "22212121002121121";
   "21011"; "2101100"; "2101100012"; "2101100012111";
   "2101100012111111"; "21011000121111110"; "21011"; "21011000";
   "210110001"; "2101100012"; "21011000121"; "210110001211";
   "2101100012111"; "21011000121111"; "210110001211111"; "2101100012111111";
   "21111"; "211111"; "2111112"; "21111120";
   "211111200"; "2111112000"; "21111120001"; "211111200011";
   "2111112000111"; "2000"; "20001"; "200011";
   "2000110"; "20001100"; "200011001"; "2000110012";
   "20001100120"; "200011001201"; "2000110012011"; "20001100120110";
   "20211"; "202111"; "2021112"; "20211121";
   "202111211"; "2021112111"; "20211121110"; "202111211101";
   "2021112111011"; "20211121110111"; "202111211101110"; "2021112111011100";
   "20111"; "201112"; "2011121"; "20111211";
   "201112112"; "2011121121"; "20111211210"; "201112112102";
   "2011121121021"; "20111211210210"; "201112112102100"; "2011121121021001";
   "20111211210210011"; "201112112102100111"; "2011121121021001111"; "20111211210210011111";
   "201112112102100111111"; "2011121121021001111111"; "20111211210210011111111"; "201112112102100111111111";
   "2011121121021001111111110"]%string.

Definition assign_behavior (m : gmap string bool) (k : string) : gmap string bool :=
  <[k := true]> m.

(** ** State *)

Record Classifier := mkClassifier {
  behavior_definitions : gmap string bool;
  time_burst_map : gmap Z spec_float;
  current_behavior_map : list (Z * Z);      (** [std::map]: sorted by key *)
  found_first_burst : bool;
  low_burst_rate_counter : Z;
  max_m_bits_per_second : spec_float;
  start_burst : Z;
  throttled_counter : Z;
  unthrottled_counter : Z
}.

Definition burst_threshold : Z := 10.
Definition observation_threshold : Z := 30.

Definition new_classifier : Classifier :=
  mkClassifier (fold_left assign_behavior behavior_strings ∅) ∅ [] true 0 ld_zero 0 0 0.

(** [is_flagged_ips] *)
Abbreviation flags := (gmap string bool).

(** What an element does besides changing its state. *)
Inductive event :=
| Cout (line : string)
| Statistics (throttled unthrottled : Z) (ips : gset string)
| StatsFile (name : string) (throttled unthrottled : Z) (ips : gset string)
| Output (port : Z).

(** ** Maps *)

(** [m[k]] of an [unordered_map]: the value, and the map with the key added. *)
Definition burst_at (m : gmap Z spec_float) (k : Z) : spec_float := default ld_zero (m !! k).
Definition burst_touch (m : gmap Z spec_float) (k : Z) : gmap Z spec_float :=
  <[k := burst_at m k]> m.

Definition flag_at (m : flags) (k : string) : bool := default false (m !! k).
Definition flag_touch (m : flags) (k : string) : flags := <[k := flag_at m k]> m.

(** [m[k] = v] of a [std::map] *)
Fixpoint map_assign (m : list (Z * Z)) (k v : Z) : list (Z * Z) :=
  match m with
  | [] => [(k, v)]
  | (k', v') :: rest =>
      if k <? k' then (k, v) :: m
      else if k =? k' then (k, v) :: rest
      else (k', v') :: map_assign rest k v
  end.

Definition get_current_behavior_string (m : list (Z * Z)) : string :=
  String.concat "" (map (fun entry => to_string entry.2) m).

(** ** [push] *)

(** Header tests.  The bytes are read without checking [p->length()]. *)
Definition is_tcp (p : packet) : bool :=
  (pkt_byte p 12 =? 8) && (pkt_byte p 13 =? 0) && (pkt_byte p 23 =? 6).
Definition is_udp (p : packet) : bool :=
  (pkt_byte p 12 =? 8) && (pkt_byte p 13 =? 0) && (pkt_byte p 23 =? 17).
Definition is_dns (p : packet) : bool :=
  (is_tcp p || is_udp p) && (pkt_byte p 44 =? 1) && (pkt_byte p 45 =? 0).
Definition is_other_protocol (p : packet) : bool :=
  (negb (is_tcp p) && negb (is_udp p)) || is_dns p.

Definition source_ip_string (p : packet) : string := get_ip_string (ip_bytes p 26).
Definition destination_ip_string (p : packet) : string := get_ip_string (ip_bytes p 30).
Definition suspected_ips (a b : string) : string := (a +:+ ":" +:+ b)%string.
Definition suspected_ips_1 (p : packet) : string :=
  suspected_ips (source_ip_string p) (destination_ip_string p).
Definition suspected_ips_2 (p : packet) : string :=
  suspected_ips (destination_ip_string p) (source_ip_string p).

Definition iperf_ip : string := "45.147.210.189".

Definition packet_m_bits (p : packet) : spec_float :=
  ld_of_double (SFdiv 53 1024 (double_of_int (u32 (pkt_length p * 8))) (double_of_int 1000000)).

(** The rate of the current second after the packet, and the highest rate. *)
Definition count_packet (curr_time : Z) (p : packet) (s : Classifier) : Classifier :=
  let m := burst_touch (time_burst_map s) curr_time in
  let rate := ld_add (burst_at m curr_time) (packet_m_bits p) in
  mkClassifier (behavior_definitions s) (<[curr_time := rate]> m) (current_behavior_map s)
    (found_first_burst s) (low_burst_rate_counter s)
    (if SFltb (max_m_bits_per_second s) rate then rate else max_m_bits_per_second s)
    (start_burst s) (throttled_counter s) (unthrottled_counter s).

(** 0: decrease, 1: constant, 2: increase *)
Definition behavior_of (burst_difference : Z) : Z :=
  let increased_rate := (burst_threshold <? Z.abs burst_difference) && (0 <? burst_difference) in
  let decreased_rate := (Z.abs burst_difference <? burst_threshold) && (burst_difference <? 0) in
  if increased_rate then 2 else if decreased_rate then 0 else 1.

Definition burst_difference (m : gmap Z spec_float) (curr_time : Z) : Z :=
  int_of_ld (ld_sub (burst_at m curr_time) (burst_at m (curr_time - 1))).

Definition track_behavior (curr_time : Z) (s : Classifier) : Classifier :=
  let m := time_burst_map s in
  if SFltb ld_zero (burst_at m curr_time) then
    let curr_behavior := behavior_of (burst_difference m curr_time) in
    let restart := (curr_behavior =? 2) && found_first_burst s in
    mkClassifier (behavior_definitions s) (burst_touch m (curr_time - 1))
      (map_assign (if restart then [] else current_behavior_map s) curr_time curr_behavior)
      (if restart then false else found_first_burst s)
      (low_burst_rate_counter s) (max_m_bits_per_second s) (start_burst s)
      (throttled_counter s) (unthrottled_counter s)
  else s.

Definition set_low_counter (n : Z) (s : Classifier) : Classifier :=
  mkClassifier (behavior_definitions s) (time_burst_map s) (current_behavior_map s)
    (found_first_burst s) n (max_m_bits_per_second s) (start_burst s)
    (throttled_counter s) (unthrottled_counter s).

Definition count_low_rate (curr_time : Z) (s : Classifier) : Classifier :=
  if SFltb (burst_at (time_burst_map s) curr_time) (ld_of_double (double_of_int 1))
  then set_low_counter (i32 (low_burst_rate_counter s + 1)) s else s.

Definition inc_throttled (s : Classifier) : Classifier :=
  mkClassifier (behavior_definitions s) (time_burst_map s) (current_behavior_map s)
    (found_first_burst s) (low_burst_rate_counter s) (max_m_bits_per_second s) (start_burst s)
    (i32 (throttled_counter s + 1)) (unthrottled_counter s).

Definition inc_unthrottled (s : Classifier) : Classifier :=
  mkClassifier (behavior_definitions s) (time_burst_map s) (current_behavior_map s)
    (found_first_burst s) (low_burst_rate_counter s) (max_m_bits_per_second s) (start_burst s)
    (throttled_counter s) (i32 (unthrottled_counter s + 1)).

(** [if (start_burst == 0) start_burst = curr_time] *)
Definition begin_burst (curr_time : Z) (s : Classifier) : Classifier :=
  mkClassifier (behavior_definitions s) (time_burst_map s) (current_behavior_map s)
    (found_first_burst s) (low_burst_rate_counter s) (max_m_bits_per_second s)
    (if start_burst s =? 0 then curr_time else start_burst s)
    (throttled_counter s) (unthrottled_counter s).

Definition flag_both (p : packet) (F : flags) : flags :=
  <[suspected_ips_2 p := true]> (<[suspected_ips_1 p := true]> F).

(** [time(0)] is read again for the name of the file. *)
Definition print_statistics (stats_time : Z) (s : Classifier) (F : flags) : list event :=
  [Statistics (throttled_counter s) (unthrottled_counter s) (dom F);
   StatsFile ("stats_file" +:+ to_string stats_time +:+ ".txt")%string
     (throttled_counter s) (unthrottled_counter s) (dom F)].

Definition observation_over (curr_time : Z) (s : Classifier) : bool :=
  ((0 <? start_burst s) && (observation_threshold <? curr_time - start_burst s))
  || (observation_threshold <? vlen (current_behavior_map s)).

Definition reset_observation (s : Classifier) : Classifier :=
  mkClassifier (behavior_definitions s) (time_burst_map s) [] true 0
    (max_m_bits_per_second s) 0 0 0.

(** The length field of the TLS record, cut to the length of the packet. *)
Definition tls_length (p : packet) : Z :=
  let n := pkt_byte p 57 .| (pkt_byte p 58 .<< 8) in
  if pkt_length p <? n then pkt_length p else n.

Definition is_tls (p : packet) : bool :=
  is_tcp p && (56 <? pkt_length p) && (pkt_byte p 55 =? 3)
  && ((pkt_byte p 56 =? 0) || (pkt_byte p 56 =? 1) || (pkt_byte p 56 =? 2)).

Definition is_measurement_tool_hello (p : packet) : bool :=
  let hay := map (pkt_byte p) (seqZ 57 (tls_length p)) in
  existsb (memmem hay) server_names.

(** The part of [push] after the observation window has been checked. *)
Definition classify (curr_time : Z) (p : packet) (curr_behavior : string)
    (s : Classifier) (F : flags) : Classifier * flags * list event :=
  let F1 := flag_touch F (suspected_ips_1 p) in
  let F2 := if flag_at F (suspected_ips_1 p) then F1 else flag_touch F1 (suspected_ips_2 p) in
  if flag_at F (suspected_ips_1 p) || flag_at F1 (suspected_ips_2 p) then
    (inc_unthrottled s, F2, [Output 1])
  else if is_tls p && is_measurement_tool_hello p then
    (begin_burst curr_time (inc_unthrottled s), flag_both p F2, [Output 1])
  else
    match behavior_definitions s !! curr_behavior with
    | Some _ => (begin_burst curr_time (inc_unthrottled s), flag_both p F2, [Output 1])
    | None => (inc_throttled s, F2, [Output 0])
    end.

Definition push (curr_time stats_time : Z) (p : packet) (s : Classifier) (F : flags)
    : Classifier * flags * list event :=
  let s := track_behavior curr_time (count_packet curr_time p s) in
  let curr_behavior := get_current_behavior_string (current_behavior_map s) in
  let shown := Cout ("Current Behavior Abstraction: " +:+ curr_behavior)%string in
  let s := count_low_rate curr_time s in
  if String.eqb (source_ip_string p) iperf_ip || String.eqb (destination_ip_string p) iperf_ip then
    (inc_unthrottled s, flag_both p F, [shown; Output 1])
  else if is_other_protocol p || (115 <? low_burst_rate_counter s) then
    (inc_throttled (if is_other_protocol p then s else set_low_counter 0 s), F,
     [shown; Output 0])
  else if observation_over curr_time s then
    let '(s', F', ev) := classify curr_time p curr_behavior (reset_observation s) ∅ in
    (s', F', shown :: print_statistics stats_time s F
             ++ Cout "						 *** RESET OBSERVATION STATE ***" :: ev)
  else
    let '(s', F', ev) := classify curr_time p curr_behavior s F in
    (s', F', shown :: ev).

(** ** Strings without a separator *)

Fixpoint no_char (c : Ascii.ascii) (s : string) : Prop :=
  match s with EmptyString => True | String a s' => a <> c /\ no_char c s' end.

Lemma no_char_app c s t : no_char c (String.append s t) <-> no_char c s /\ no_char c t.
Proof. induction s as [|a s IH]; simpl; [tauto|]. rewrite IH. tauto. Qed.

(** A string is cut at the first separator in one way only. *)
Lemma cut_inj c s s' t t' :
  no_char c s -> no_char c s' ->
  String.append s (String c t) = String.append s' (String c t') -> s = s' /\ t = t'.
Proof.
  revert s'. induction s as [|a s IH]; intros [|a' s']; simpl.
  - by intros _ _ [= ->].
  - intros _ [Ha _] [= -> _]. done.
  - intros [Ha _] _ [= -> _]. done.
  - intros [_ Hs] [_ Hs'] [= -> H]. destruct (IH s' Hs Hs' H) as [-> ->]. done.
Qed.

Lemma pretty_N_no_char c (n : N) :
  (forall d, pretty_N_char d <> c) -> no_char c (pretty n).
Proof.
  intros Hd. unfold pretty, pretty_N. case_decide; [split; [apply (Hd 0%N)|done]|].
  clear H. assert (Hgo : forall s, no_char c s -> no_char c (pretty_N_go n s)); [|by apply Hgo].
  induction (N.lt_wf_0 n) as [n _ IH]. intros s Hs.
  destruct (decide (n = 0)%N) as [->|]; [by rewrite pretty_N_go_0|].
  rewrite pretty_N_go_step by lia. apply IH; [by apply N.div_lt; lia|]. by split.
Qed.

Lemma to_string_no_char c x :
  (forall d, pretty_N_char d <> c) -> c <> "-"%char -> no_char c (to_string x).
Proof.
  intros Hd Hm. unfold to_string. destruct x as [|q|q]; simpl.
  - split; [apply (Hd 0%N)|done].
  - by apply pretty_N_no_char.
  - split; [done|]. by apply pretty_N_no_char.
Qed.

Lemma digit_not_dot d : pretty_N_char d <> "."%char.
Proof. unfold pretty_N_char. by repeat case_match. Qed.
Lemma digit_not_colon d : pretty_N_char d <> ":"%char.
Proof. unfold pretty_N_char. by repeat case_match. Qed.

#[local] Hint Resolve digit_not_dot digit_not_colon to_string_no_char : click.

Lemma get_ip_string_no_colon l : no_char ":" (get_ip_string l).
Proof.
  induction l as [|c [|d l] IH]; simpl; [done|by apply to_string_no_char; auto with click|].
  rewrite no_char_app. split; [by apply to_string_no_char; auto with click|].
  by split.
Qed.

(** Addresses are printed injectively. *)
Lemma get_ip_string_inj l l' :
  length l = length l' -> get_ip_string l = get_ip_string l' -> l = l'.
Proof.
  revert l'. induction l as [|c [|d l] IH]; intros [|c' [|d' l']] Hlen; try done.
  - intros H. f_equal. by apply (inj (pretty (A:=Z))).
  - intros H. simpl in H.
    apply cut_inj in H as [Hc H]; [|by apply to_string_no_char; auto with click..].
    apply (inj (pretty (A:=Z))) in Hc as ->. f_equal. apply IH; [simpl in *; lia|done].
Qed.

(** The key of a pair of addresses. *)
Definition flow_key (a b : list Z) : string := suspected_ips (get_ip_string a) (get_ip_string b).

Lemma flow_key_inj a b a' b' :
  length a = 4%nat -> length b = 4%nat -> length a' = 4%nat -> length b' = 4%nat ->
  flow_key a b = flow_key a' b' -> a = a' /\ b = b'.
Proof.
  intros Ha Hb Ha' Hb' H. unfold flow_key, suspected_ips in H. simpl in H.
  apply cut_inj in H as [H1 H2]; [|apply get_ip_string_no_colon..].
  split; apply get_ip_string_inj; congruence.
Qed.

Lemma length_ip_bytes p off : length (ip_bytes p off) = 4%nat.
Proof. by unfold ip_bytes; rewrite length_map, length_seqZ. Qed.

(** ** Abstract specification

    A flow is a pair of addresses; the specification keeps the set of flows of
    measurement tools and knows no strings. *)

Abbreviation flow := (list Z * list Z)%type.

Definition src (p : packet) : list Z := ip_bytes p 26.
Definition dst (p : packet) : list Z := ip_bytes p 30.

(** What the specification is told about a packet. *)
Record verdict := mkVerdict {
  v_iperf : bool;        (** one of the addresses is the iPerf3 server *)
  v_skip : bool;         (** not TCP or UDP, or DNS, or the link has been quiet *)
  v_over : bool;         (** the observation window has ended *)
  v_tool : bool          (** a client hello or a known behavior *)
}.

Definition with_flow (p : packet) (A : gset flow) : gset flow :=
  {[(src p, dst p); (dst p, src p)]} ∪ A.

Definition spec_push (v : verdict) (p : packet) (A : gset flow) : Z * gset flow :=
  if v_iperf v then (1, with_flow p A)
  else if v_skip v then (0, A)
  else
    let A := if v_over v then ∅ else A in
    if decide ((src p, dst p) ∈ A) then (1, A)
    else if v_tool v then (1, with_flow p A) else (0, A).

(** The observations of [push] for a packet, in the state it updates first. *)
Definition observe (curr_time : Z) (p : packet) (s : Classifier) : Classifier :=
  count_low_rate curr_time (track_behavior curr_time (count_packet curr_time p s)).

Definition is_known_behavior (s : Classifier) : bool :=
  bool_decide (is_Some (behavior_definitions s !!
    get_current_behavior_string (current_behavior_map s))).

Definition verdict_of (curr_time : Z) (p : packet) (s : Classifier) : verdict :=
  let s := observe curr_time p s in
  mkVerdict
    (String.eqb (source_ip_string p) iperf_ip || String.eqb (destination_ip_string p) iperf_ip)
    (is_other_protocol p || (115 <? low_burst_rate_counter s))
    (observation_over curr_time s)
    ((is_tls p && is_measurement_tool_hello p) || is_known_behavior s).

(** The map holds [true] for exactly the flows of the set, in both directions. *)
Record flags_rep (F : flags) (A : gset flow) : Prop := {
  fr_mem : forall a b, length a = 4%nat -> length b = 4%nat ->
             flag_at F (flow_key a b) = true <-> (a, b) ∈ A;
  fr_sym : forall a b, (a, b) ∈ A -> (b, a) ∈ A
}.

(** The ports a list of events sends to. *)
Definition outputs (ev : list event) : list Z :=
  omap (fun e => match e with Output port => Some port | _ => None end) ev.

(** ** The map of flags implements the set of flows *)

Lemma key_1 p : suspected_ips_1 p = flow_key (src p) (dst p).
Proof. done. Qed.
Lemma key_2 p : suspected_ips_2 p = flow_key (dst p) (src p).
Proof. done. Qed.

Lemma flag_at_insert F k v k' :
  flag_at (<[k := v]> F) k' = if decide (k = k') then v else flag_at F k'.
Proof.
  unfold flag_at. case_decide as Hk; [subst; by rewrite lookup_insert_eq|].
  by rewrite lookup_insert_ne.
Qed.

(** Looking a key up adds it, with the value [false] it already had. *)
Lemma flag_at_touch F k k' : flag_at (flag_touch F k) k' = flag_at F k'.
Proof. unfold flag_touch. rewrite flag_at_insert. by case_decide; [subst|]. Qed.

Lemma flags_rep_ext F F' A :
  (forall k, flag_at F' k = flag_at F k) -> flags_rep F A -> flags_rep F' A.
Proof. intros H [H1 H2]. split; [|done]. intros. rewrite H. by apply H1. Qed.

Lemma flags_rep_empty : flags_rep ∅ ∅.
Proof. split; [|set_solver]. intros a b _ _. unfold flag_at. rewrite lookup_empty. set_solver. Qed.

Lemma flags_rep_both F A p : flags_rep F A -> flags_rep (flag_both p F) (with_flow p A).
Proof.
  intros [H1 H2]. pose proof (length_ip_bytes p 26). pose proof (length_ip_bytes p 30).
  split; [|unfold with_flow; set_solver].
  intros a b Ha Hb. unfold flag_both, with_flow. rewrite !flag_at_insert, key_1, key_2.
  case_decide as E2; [|case_decide as E1].
  - apply flow_key_inj in E2 as [<- <-]; [set_solver|done..].
  - apply flow_key_inj in E1 as [<- <-]; [set_solver|done..].
  - rewrite H1 by done. split; [set_solver|]. intros Hin. apply elem_of_union in Hin as [Hin|]; [|done].
    apply elem_of_union in Hin as [Hin|Hin]; apply elem_of_singleton in Hin as [= -> ->];
      congruence.
Qed.

Lemma flag_touched F A p :
  flags_rep F A ->
  flag_at F (suspected_ips_1 p)
  || flag_at (flag_touch F (suspected_ips_1 p)) (suspected_ips_2 p)
  = bool_decide ((src p, dst p) ∈ A).
Proof.
  intros [H1 H2]. rewrite flag_at_touch, key_1, key_2.
  pose proof (length_ip_bytes p 26). pose proof (length_ip_bytes p 30).
  apply eq_bool_prop_intro. rewrite bool_decide_spec, orb_True, !Is_true_true.
  rewrite !H1 by done. split; [intros [|?%H2]; done|tauto].
Qed.

Lemma classify_spec t p b s F A :
  flags_rep F A ->
  let tool := (is_tls p && is_measurement_tool_hello p)
              || bool_decide (is_Some (behavior_definitions s !! b)) in
  let '(s', F', ev) := classify t p b s F in
  let '(port, A') := if decide ((src p, dst p) ∈ A) then (1, A)
                     else if tool then (1, with_flow p A) else (0, A) in
  flags_rep F' A' /\ ev = [Output port]
  /\ throttled_counter s' = (if port =? 0 then i32 (throttled_counter s + 1) else throttled_counter s)
  /\ unthrottled_counter s'
     = (if port =? 0 then unthrottled_counter s else i32 (unthrottled_counter s + 1))
  /\ current_behavior_map s' = current_behavior_map s.
Proof.
  intros HR. simpl. unfold classify. rewrite (flag_touched F A p HR).
  assert (HR1 : flags_rep (flag_touch F (suspected_ips_1 p)) A)
    by (eapply flags_rep_ext; [|done]; intros; apply flag_at_touch).
  assert (HR2 : flags_rep (if flag_at F (suspected_ips_1 p) then flag_touch F (suspected_ips_1 p)
            else flag_touch (flag_touch F (suspected_ips_1 p)) (suspected_ips_2 p)) A).
  { case_match; [done|]. eapply flags_rep_ext; [|exact HR1]. intros; apply flag_at_touch. }
  rewrite <- decide_bool_decide. case_decide as Hin; [done|].
  destruct (is_tls p && is_measurement_tool_hello p); simpl.
  - split; [by apply flags_rep_both|done].
  - destruct (behavior_definitions s !! b) as [x|] eqn:Eb; simpl.
    + split; [by apply flags_rep_both|done].
    + done.
Qed.

Definition iperf_packet (p : packet) : bool :=
  String.eqb (source_ip_string p) iperf_ip || String.eqb (destination_ip_string p) iperf_ip.

Definition skip_packet (p : packet) (s : Classifier) : bool :=
  is_other_protocol p || (115 <? low_burst_rate_counter s).

(** [push], with the observations of the packet made first. *)
Lemma push_observe t t' p s F :
  let o := observe t p s in
  let b := get_current_behavior_string (current_behavior_map o) in
  exists shown,
  push t t' p s F =
    if iperf_packet p then (inc_unthrottled o, flag_both p F, [Cout shown; Output 1])
    else if skip_packet p o then
      (inc_throttled (if is_other_protocol p then o else set_low_counter 0 o), F,
       [Cout shown; Output 0])
    else if observation_over t o then
      let c := classify t p b (reset_observation o) ∅ in
      (c.1.1, c.1.2, Cout shown :: print_statistics t' o F
         ++ Cout "						 *** RESET OBSERVATION STATE ***" :: c.2)
    else
      let c := classify t p b o F in (c.1.1, c.1.2, Cout shown :: c.2).
Proof.
  intros o b.
  exists ("Current Behavior Abstraction: " +:+ b)%string.
  assert (Hcb : current_behavior_map (track_behavior t (count_packet t p s))
                = current_behavior_map o).
  { unfold o, observe, count_low_rate. by case_match. }
  unfold push. fold (observe t p s). fold o. rewrite Hcb. fold b.
  unfold iperf_packet, skip_packet.
  destruct (String.eqb (source_ip_string p) iperf_ip || String.eqb (destination_ip_string p) iperf_ip);
    [done|].
  destruct (is_other_protocol p || (115 <? low_burst_rate_counter o)); [done|].
  destruct (observation_over t o); by destruct (classify _ _ _ _ _) as [[? ?] ?].
Qed.

Lemma push_refines_spec t t' p s F A :
  flags_rep F A ->
  let '(s', F', ev) := push t t' p s F in
  let '(port, A') := spec_push (verdict_of t p s) p A in
  flags_rep F' A' /\ outputs ev = [port].
Proof.
  intros HR. destruct (push_observe t t' p s F) as [shown ->]. set (o := observe t p s).
  unfold spec_push, verdict_of. fold o. cbn [v_iperf v_skip v_over v_tool].
  fold (iperf_packet p) (skip_packet p o). unfold is_known_behavior.
  set (b := get_current_behavior_string (current_behavior_map o)).
  destruct (iperf_packet p); [split; [by apply flags_rep_both|done]|].
  destruct (skip_packet p o); [done|].
  destruct (observation_over t o).
  - pose proof (classify_spec t p b (reset_observation o) ∅ ∅ flags_rep_empty) as Hc. simpl in Hc.
    destruct (classify _ _ _ _ _) as [[s' F'] ev]. simpl.
    repeat case_match; simplify_eq; destruct Hc as (? & -> & _); simpl; auto.
  - pose proof (classify_spec t p b o F A HR) as Hc. simpl in Hc.
    destruct (classify _ _ _ _ _) as [[s' F'] ev]. simpl.
    repeat case_match; simplify_eq; destruct Hc as (? & -> & _); simpl; auto.
Qed.

(** ** Runs of the element *)

(** One packet with the two clock readings of its [push]. *)
Abbreviation input := (Z * Z * packet)%type.

Fixpoint push_all (ins : list input) (s : Classifier) (F : flags)
    : Classifier * flags * list event :=
  match ins with
  | [] => (s, F, [])
  | (t, t', p) :: rest =>
      let '(s, F, ev) := push t t' p s F in
      let '(s, F, ev') := push_all rest s F in (s, F, ev ++ ev')
  end.

Fixpoint verdicts (ins : list input) (s : Classifier) (F : flags) : list (verdict * packet) :=
  match ins with
  | [] => []
  | (t, t', p) :: rest =>
      (verdict_of t p s, p) :: (let '(s, F, _) := push t t' p s F in verdicts rest s F)
  end.

Fixpoint spec_all (vs : list (verdict * packet)) (A : gset flow) : list Z * gset flow :=
  match vs with
  | [] => ([], A)
  | (v, p) :: rest =>
      let '(port, A) := spec_push v p A in
      let '(ports, A) := spec_all rest A in (port :: ports, A)
  end.

Lemma outputs_app ev ev' : outputs (ev ++ ev') = outputs ev ++ outputs ev'.
Proof. unfold outputs. apply omap_app. Qed.

Lemma push_all_spec ins s F A :
  flags_rep F A ->
  let '(s', F', ev) := push_all ins s F in
  let '(ports, A') := spec_all (verdicts ins s F) A in
  flags_rep F' A' /\ outputs ev = ports.
Proof.
  revert s F A. induction ins as [|[[t t'] p] ins IH]; intros s F A HR; [done|]. simpl.
  pose proof (push_refines_spec t t' p s F A HR) as Hp.
  destruct (push t t' p s F) as [[s1 F1] ev1].
  destruct (spec_push (verdict_of t p s) p A) as [port A1]. destruct Hp as [HR1 Ho1].
  specialize (IH s1 F1 A1 HR1). destruct (push_all ins s1 F1) as [[s2 F2] ev2].
  destruct (spec_all (verdicts ins s1 F1) A1) as [ports A2]. destruct IH as [HR2 Ho2].
  split; [done|]. by rewrite outputs_app, Ho1, Ho2.
Qed.

(** ** Invariant of the behavior map *)

Definition behaviors_ok (m : list (Z * Z)) : Prop :=
  StronglySorted Z.lt m.*1 /\ Forall (fun v => v = 0 \/ v = 1 \/ v = 2) m.*2.

Lemma map_assign_keys m k v x : x ∈ (map_assign m k v).*1 <-> x = k \/ x ∈ m.*1.
Proof.
  induction m as [|[k' v'] m IH]; simpl; [set_solver|].
  destruct (Z.ltb_spec k k'); simpl; [set_solver|].
  destruct (Z.eqb_spec k k'); simpl; set_solver.
Qed.

Lemma map_assign_ok m k v :
  v = 0 \/ v = 1 \/ v = 2 -> behaviors_ok m -> behaviors_ok (map_assign m k v).
Proof.
  intros Hv. unfold behaviors_ok.
  induction m as [|[k' v'] m IH]; simpl; intros [Hs Hf];
    [split; [repeat constructor|by apply Forall_singleton]|].
  apply StronglySorted_inv in Hs as [Hs Hall]. apply Forall_cons in Hf as [Hf0 Hf].
  destruct (Z.ltb_spec k k'); simpl.
  - split; [|by rewrite !Forall_cons]. constructor; [by constructor|]. constructor; [done|].
    eapply Forall_impl; [done|]. simpl. lia.
  - destruct (Z.eqb_spec k k') as [->|]; simpl.
    + split; by constructor.
    + destruct (IH (conj Hs Hf)) as [H1 H2]. split; [|by constructor]. constructor; [done|].
      apply Forall_forall. intros x Hx. apply map_assign_keys in Hx as [-> | Hx]; [lia|].
      rewrite Forall_forall in Hall. auto.
Qed.

Lemma behavior_of_range d : behavior_of d = 0 \/ behavior_of d = 1 \/ behavior_of d = 2.
Proof. unfold behavior_of. repeat case_match; auto. Qed.

Lemma observe_ok t p s :
  behaviors_ok (current_behavior_map s) -> behaviors_ok (current_behavior_map (observe t p s)).
Proof.
  intros H. unfold observe.
  assert (Hc : current_behavior_map (count_low_rate t (track_behavior t (count_packet t p s)))
             = current_behavior_map (track_behavior t (count_packet t p s)))
    by (unfold count_low_rate; by case_match).
  rewrite Hc. unfold track_behavior. case_match; [|done]. simpl.
  apply map_assign_ok; [apply behavior_of_range|]. case_match; [split; constructor|done].
Qed.

Lemma classify_state t p b s F :
  let s' := (classify t p b s F).1.1 in
  current_behavior_map s' = current_behavior_map s
  /\ behavior_definitions s' = behavior_definitions s.
Proof. unfold classify. by repeat case_match. Qed.

(** The state after [push] keeps the map it observed, or an empty one. *)
Lemma push_behaviors t t' p s F :
  let s' := (push t t' p s F).1.1 in
  current_behavior_map s' = current_behavior_map (observe t p s)
  \/ current_behavior_map s' = [].
Proof.
  destruct (push_observe t t' p s F) as [shown ->]. set (o := observe t p s).
  destruct (iperf_packet p); [by left|]. destruct (skip_packet p o).
  { left. simpl. by destruct (is_other_protocol p). }
  destruct (observation_over t o); [right|left]; apply classify_state.
Qed.

(** One digit is printed for every recorded second. *)
Definition digit (v : Z) : ascii := if v =? 0 then "0"%char else if v =? 1 then "1"%char else "2"%char.

Lemma concat_cons x xs : String.concat "" (x :: xs) = String.append x (String.concat "" xs).
Proof.
  destruct xs; simpl; [|done]. induction x as [|a x IH]; [done|].
  change (String a x = String a (String.append x EmptyString)). by rewrite <- IH.
Qed.

Lemma behavior_string_digits m :
  behaviors_ok m ->
  get_current_behavior_string m = String.string_of_list_ascii (map (fun e => digit e.2) m).
Proof.
  intros [_ Hf]. unfold get_current_behavior_string.
  induction m as [|[k v] m IH]; [done|]. apply Forall_cons in Hf as [Hv Hf].
  cbn [map]. rewrite concat_cons, IH by done. simpl.
  destruct Hv as [H | [H | H]]; cbn [snd] in *; subst v; reflexivity.
Qed.

(** ** Search *)

Lemma prefix_of_spec n h : prefix_of n h = true <-> exists rest, h = n ++ rest.
Proof.
  revert h. induction n as [|x n IH]; intros [|y h]; simpl.
  - split; [by exists []|done].
  - split; [by exists (y :: h)|done].
  - split; [done|]. by intros [rest ?].
  - rewrite andb_true_iff, IH, Z.eqb_eq. split.
    + intros [-> [rest ->]]. by exists rest.
    + intros [rest [= -> ->]]. split; [done|by exists rest].
Qed.

Lemma memmem_occurs h n : memmem h n = true <-> exists before after, h = before ++ n ++ after.
Proof.
  induction h as [|y h IH]; cbn [memmem]; rewrite orb_true_iff, prefix_of_spec.
  - split; [intros [[r H]|]; [by exists [], r|done]|].
    intros (b & a & H). left. exists a. by destruct b.
  - rewrite IH. split.
    + intros [[r H]|(b & a & ->)]; [by exists [], r|by exists (y :: b), a].
    + intros ([|z b] & a & H); simpl in H; [left; by exists a|right; simplify_eq; by exists b, a].
Qed.

(** ** Properties *)

(** C2. The classifier refines its specification on every sequence of packets:
    started with an empty flag map, the ports of all events are the ports of
    the abstract machine that keeps a set of address pairs, and the string map
    represents that set at the end.  In particular every packet is sent to
    exactly one output, and flagging one direction of a flow flags both. *)
Theorem push_refinement ins s :
  let '(_, F, ev) := push_all ins s ∅ in
  let '(ports, A) := spec_all (verdicts ins s ∅) ∅ in
  outputs ev = ports /\ flags_rep F A.
Proof.
  pose proof (push_all_spec ins s ∅ ∅ flags_rep_empty) as H.
  destruct (push_all ins s ∅) as [[s' F] ev], (spec_all _ _) as [ports A]. tauto.
Qed.

(** A flow that has been flagged keeps going to the unthrottled output, in
    either direction, as long as the packet is not skipped (other protocol or
    quiet link) and the observation window has not ended. *)
Theorem flagged_flow_unthrottled t t' p s F A :
  flags_rep F A ->
  (src p, dst p) ∈ A \/ (dst p, src p) ∈ A ->
  skip_packet p (observe t p s) = false ->
  observation_over t (observe t p s) = false ->
  outputs (push t t' p s F).2 = [1]
  /\ flag_at (push t t' p s F).1.2 (suspected_ips_1 p) = true
  /\ flag_at (push t t' p s F).1.2 (suspected_ips_2 p) = true.
Proof.
  intros HR Hin Hskip Hover.
  pose proof (push_refines_spec t t' p s F A HR) as H.
  assert (Hin' : (src p, dst p) ∈ A) by (destruct Hin as [?|Hin]; [done|by apply (fr_sym _ _ HR) in Hin]).
  destruct (push t t' p s F) as [[s' F'] ev]. simpl.
  assert (Hspec : exists A', spec_push (verdict_of t p s) p A = (1, A') /\ (src p, dst p) ∈ A').
  { unfold spec_push, verdict_of. cbn [v_iperf v_skip v_over v_tool].
    unfold skip_packet in Hskip. rewrite Hskip, Hover.
    destruct (String.eqb _ _ || String.eqb _ _); [|case_decide; [by exists A|done]].
    exists (with_flow p A). split; [done|]. unfold with_flow. set_solver. }
  destruct Hspec as (A' & Hs & HA). rewrite Hs in H. destruct H as [[Hm Hsym] Ho].
  pose proof (length_ip_bytes p 26). pose proof (length_ip_bytes p 30).
  split; [done|]. rewrite key_1, key_2, !Hm by done. auto.
Qed.

(** The behavior map stays sorted by time with values 0, 1 and 2, over any
    sequence of packets, so the behavior string is one digit per second. *)
Theorem behavior_map_invariant ins s F :
  behaviors_ok (current_behavior_map s) ->
  let m := current_behavior_map (push_all ins s F).1.1 in
  behaviors_ok m
  /\ get_current_behavior_string m = String.string_of_list_ascii (map (fun e => digit e.2) m).
Proof.
  intros H0 m. assert (Hm : behaviors_ok m); [|split; [done|by apply behavior_string_digits]].
  subst m. revert s F H0.
  induction ins as [|[[t t'] p] ins IH]; intros s F H0; [done|]. simpl.
  pose proof (push_behaviors t t' p s F) as Hb. pose proof (observe_ok t p s H0) as Ho.
  destruct (push t t' p s F) as [[s1 F1] ev1]. simpl in Hb.
  assert (H1 : behaviors_ok (current_behavior_map s1))
    by (destruct Hb as [-> | ->]; [done|split; constructor]).
  specialize (IH s1 F1 H1). by destruct (push_all ins s1 F1) as [[s2 F2] ev2].
Qed.

(** What a change of rate is recorded as.  A rise of more than the
    threshold is an increase; only a drop smaller than the threshold is a
    decrease, so a drop of the threshold or more is recorded as constant. *)
Theorem behavior_of_cases d :
  behavior_of d =
    if 10 <? d then 2 else if (-10 <? d) && (d <? 0) then 0 else 1.
Proof.
  unfold behavior_of, burst_threshold. repeat bdestr; cbn [andb]; try done; lia.
Qed.

(** A TLS client hello is recognised exactly when one of the server names
    occurs in the searched bytes. *)
Theorem hello_spec p :
  is_measurement_tool_hello p = true <->
  exists name before after, name ∈ server_names
    /\ map (pkt_byte p) (seqZ 57 (tls_length p)) = before ++ name ++ after.
Proof.
  unfold is_measurement_tool_hello. rewrite existsb_exists. split.
  - intros (name & Hin & H). apply memmem_occurs in H as (b & a & H).
    exists name, b, a. split; [by apply list_elem_of_In|done].
  - intros (name & b & a & Hin & H). exists name. split; [by apply list_elem_of_In|].
    apply memmem_occurs. eauto.
Qed.

(** Counters: a packet that does not end the observation window adds one
    to exactly the counter of the output it is sent to. *)
Theorem counters_follow_output t t' p s F :
  skip_packet p (observe t p s) || negb (observation_over t (observe t p s)) = true ->
  exists port, outputs (push t t' p s F).2 = [port]
  /\ throttled_counter (push t t' p s F).1.1
     = (if port =? 0 then i32 (throttled_counter s + 1) else throttled_counter s)
  /\ unthrottled_counter (push t t' p s F).1.1
     = (if port =? 0 then unthrottled_counter s else i32 (unthrottled_counter s + 1)).
Proof.
  intros Hover. destruct (push_observe t t' p s F) as [shown ->]. set (o := observe t p s) in *.
  assert (Ho : throttled_counter o = throttled_counter s
            /\ unthrottled_counter o = unthrottled_counter s).
  { unfold o, observe, count_low_rate, track_behavior. by repeat case_match. }
  destruct Ho as [<- <-]. destruct (iperf_packet p); [by exists 1|].
  destruct (skip_packet p o) eqn:Hs; [exists 0; simpl; by destruct (is_other_protocol p)|].
  destruct (observation_over t o); [done|].
  unfold classify. cbv zeta. repeat case_match; simpl; (by exists 0) || by exists 1.
Qed.

(** ** The search runs past the end of a packet *)

(** A TCP packet of 60 bytes that claims a TLS record of 60 bytes at 57. *)
Definition tls_bytes : list Z :=
  replicate 12 0 ++ [8; 0] ++ replicate 9 0 ++ [6] ++ replicate 31 0 ++ [3; 1; 60; 0; 0].

(** The bytes after the packet hold "fast.com" in one buffer and zeros in the other. *)
Definition stale_buffer : packet :=
  mkPacket tls_bytes (fun i => if i <? 0 then 0 else vget (replicate 60 0 ++ fast_com_1 ++ replicate 60 0) i).

(** The output can depend on bytes that are not part of the packet: two
    packets with the same contents, in buffers that differ after the packet's
    end, are sent to different outputs. *)
Theorem push_depends_on_stale_bytes :
  same_contents stale_buffer (packet_of tls_bytes)
  /\ outputs (push 1000 1000 stale_buffer new_classifier ∅).2 = [1]
  /\ outputs (push 1000 1000 (packet_of tls_bytes) new_classifier ∅).2 = [0].
Proof. split_and!; vm_compute; reflexivity. Qed.

(** The measurement server the code flags is 45.147.210.189; a packet of the
    address the comment names, 145.147.210.189, is not flagged by its address. *)
Theorem iperf_address a :
  length a = 4%nat -> get_ip_string a = iperf_ip <-> a = [45; 147; 210; 189].
Proof.
  intros Ha. replace iperf_ip with (get_ip_string [45; 147; 210; 189]) by (vm_compute; reflexivity).
  split; [by apply get_ip_string_inj|by intros ->].
Qed.

(** ** Witnesses *)

(** A TCP packet from 10.0.0.1 to 10.0.0.2. *)
Definition demo_packet : packet :=
  packet_of (replicate 12 0 ++ [8; 0] ++ replicate 9 0 ++ [6; 0; 0; 10; 0; 0; 1; 10; 0; 0; 2]
             ++ replicate 30 0).

Lemma flagged_flow_unthrottled_witness :
  outputs (push 1000 1000 demo_packet new_classifier (flag_both demo_packet ∅)).2 = [1].
Proof.
  eapply flagged_flow_unthrottled.
  - apply flags_rep_both, flags_rep_empty.
  - left. unfold with_flow. set_solver.
  - vm_compute. reflexivity.
  - vm_compute. reflexivity.
Defined.

Lemma behavior_map_invariant_witness :
  behaviors_ok (current_behavior_map (push_all [(1000, 1000, demo_packet)] new_classifier ∅).1.1).
Proof. apply behavior_map_invariant. split; constructor. Defined.

Lemma counters_follow_output_witness :
  exists port, outputs (push 1000 1000 demo_packet new_classifier ∅).2 = [port]
  /\ throttled_counter (push 1000 1000 demo_packet new_classifier ∅).1.1
     = (if port =? 0 then i32 (0 + 1) else 0)
  /\ unthrottled_counter (push 1000 1000 demo_packet new_classifier ∅).1.1
     = (if port =? 0 then 0 else i32 (0 + 1)).
Proof. apply (counters_follow_output 1000 1000 demo_packet new_classifier ∅). vm_compute. reflexivity. Defined.

Lemma iperf_address_witness : get_ip_string [145; 147; 210; 189] <> iperf_ip.
Proof. intros H. apply iperf_address in H; [discriminate H|reflexivity]. Defined.
