(* ===== verification/Queue.v ===== *)
(** * Packet queues

    [Storage] (include/click/standard/storage.hh) and [SimpleQueue]
    (elements/standard/simplequeue.{hh,cc}): a ring buffer of [capacity + 1]
    cells between a head and a tail index.  The abstract queue is a list; the
    operations refine the list operations of a bounded FIFO.

    A packet is a value of any type.  Cells that hold no packet are never
    read; a fresh buffer is filled with a default. *)

From S2P Require Import Prelude Insn.

Section queue.
Context {pkt : Type} `{Inhabited pkt}.

Record SimpleQueue := mkQueue {
  capacity : Z;                  (** [_capacity], unsigned *)
  head : Z;                      (** [_head] *)
  tail : Z;                      (** [_tail] *)
  cells : list pkt;              (** [_q] *)
  drops : Z;                     (** [_drops] *)
  highwater_length : Z           (** [_highwater_length] *)
}.

(** ** Indices *)

Definition next_i (cap i : Z) : Z := if negb (i =? cap) then i + 1 else 0.
Definition prev_i (cap i : Z) : Z := if negb (i =? 0) then i - 1 else cap.

(** [Storage::size(head, tail)], in unsigned and signed 32-bit arithmetic *)
Definition storage_size (cap h t : Z) : Z :=
  let x := u32 (t - h) in
  if 0 <=? i32 x then i32 x else i32 (cap + x + 1).

Definition queue_size (q : SimpleQueue) : Z := storage_size (capacity q) (head q) (tail q).

Definition new_cells (cap : Z) : list pkt := replicate (Z.to_nat (cap + 1)) inhabitant.

(** [configure] and [initialize] *)
Definition new_queue (cap : Z) : SimpleQueue := mkQueue cap 0 0 (new_cells cap) 0 0.

Definition set_head (q : SimpleQueue) (h : Z) : SimpleQueue :=
  mkQueue (capacity q) h (tail q) (cells q) (drops q) (highwater_length q).

(** ** Operations *)

(** The common part of [enq] and [push]: [None] when the queue is full. *)
Definition store (q : SimpleQueue) (p : pkt) : option SimpleQueue :=
  let h := head q in
  let t := tail q in
  let nt := next_i (capacity q) t in
  if negb (nt =? h) then
    let s := storage_size (capacity q) h nt in
    Some (mkQueue (capacity q) h nt (vset (cells q) t p) (drops q)
            (if highwater_length q <? s then s else highwater_length q))
  else None.

Definition count_drop (q : SimpleQueue) : SimpleQueue :=
  mkQueue (capacity q) (head q) (tail q) (cells q) (i32 (drops q + 1)) (highwater_length q).

(** [enq]: a packet that does not fit is killed. *)
Definition enq (q : SimpleQueue) (p : pkt) : SimpleQueue * bool :=
  match store q p with Some q' => (q', true) | None => (count_drop q, false) end.

(** What [push] does with a packet besides storing it. *)
Inductive push_event := overflow_message | output_1 (p : pkt).

Definition push (q : SimpleQueue) (p : pkt) : SimpleQueue * list push_event :=
  match store q p with
  | Some q' => (q', [])
  | None => (count_drop q,
             (if (drops q =? 0) && (0 <? capacity q) then [overflow_message] else [])
             ++ [output_1 p])
  end.

Definition deq (q : SimpleQueue) : SimpleQueue * option pkt :=
  let h := head q in
  if negb (h =? tail q) then (set_head q (next_i (capacity q) h), Some (vget (cells q) h))
  else (q, None).

Definition pull (q : SimpleQueue) : SimpleQueue * option pkt := deq q.

(** [lifo_enq] returns the packet it killed to make room. *)
Definition lifo_enq (q : SimpleQueue) (p : pkt) : SimpleQueue * option pkt :=
  let h := head q in
  let t := tail q in
  let ph := prev_i (capacity q) h in
  let '(t', killed) :=
    if ph =? t then let t' := prev_i (capacity q) t in (t', Some (vget (cells q) t'))
    else (t, None) in
  (mkQueue (capacity q) ph t' (vset (cells q) ph p) (drops q) (highwater_length q), killed).

(** The first index from [trav] to [tail] whose packet passes the filter. *)
Fixpoint find_from (fuel : nat) (f : pkt -> bool) (q : SimpleQueue) (trav : Z) : option Z :=
  match fuel with
  | O => None
  | S fuel' =>
      if trav =? tail q then None
      else if f (vget (cells q) trav) then Some trav
      else find_from fuel' f q (next_i (capacity q) trav)
  end.

(** [while (trav != head()) { _q[trav] = _q[prev]; ... }] *)
Fixpoint shift_cells (fuel : nat) (cap h : Z) (c : list pkt) (trav : Z) : list pkt :=
  match fuel with
  | O => c
  | S fuel' =>
      if trav =? h then c
      else let prev := prev_i cap trav in
           shift_cells fuel' cap h (vset c trav (vget c prev)) prev
  end.

Definition yank1 (f : pkt -> bool) (q : SimpleQueue) : SimpleQueue * option pkt :=
  match find_from (length (cells q)) f q (head q) with
  | None => (q, None)
  | Some trav =>
      (mkQueue (capacity q) (next_i (capacity q) (head q)) (tail q)
         (shift_cells (length (cells q)) (capacity q) (head q) (cells q) trav)
         (drops q) (highwater_length q),
       Some (vget (cells q) trav))
  end.

Definition yank1_peek (f : pkt -> bool) (q : SimpleQueue) : option pkt :=
  match find_from (length (cells q)) f q (head q) with
  | None => None
  | Some trav => Some (vget (cells q) trav)
  end.

(** The loop of [yank], from the tail to the head. *)
Fixpoint yank_loop (fuel : nat) (f : pkt -> bool) (cap h : Z) (c : list pkt)
    (trav write_ptr : Z) (yanked : list pkt) : list pkt * Z * list pkt :=
  match fuel with
  | O => (c, write_ptr, yanked)
  | S fuel' =>
      if trav =? h then (c, write_ptr, yanked)
      else
        let trav := prev_i cap trav in
        if f (vget c trav)
        then yank_loop fuel' f cap h c trav write_ptr (vpush yanked (vget c trav))
        else
          let write_ptr := prev_i cap write_ptr in
          yank_loop fuel' f cap h (vset c write_ptr (vget c trav)) trav write_ptr yanked
  end.

Definition yank (f : pkt -> bool) (q : SimpleQueue) : SimpleQueue * list pkt :=
  let '(c, wp, yanked) :=
    yank_loop (length (cells q)) f (capacity q) (head q) (cells q) (tail q) (tail q) [] in
  (mkQueue (capacity q) wp (tail q) c (drops q) (highwater_length q), yanked).

(** [reset]: the packets that are pushed out, in order. *)
Fixpoint reset_loop (fuel : nat) (q : SimpleQueue) (out : list pkt) : SimpleQueue * list pkt :=
  match fuel with
  | O => (q, out)
  | S fuel' =>
      match pull q with
      | (q', Some p) => reset_loop fuel' q' (vpush out p)
      | (q', None) => (q', out)
      end
  end.

Definition reset (q : SimpleQueue) : SimpleQueue * list pkt :=
  reset_loop (S (length (cells q))) q [].

(** Copy packets from index [i] of [q] to the cells from [j] on, until the tail
    or the limit; returns the cells and where the copy stopped. *)
Fixpoint copy_cells (fuel : nat) (q : SimpleQueue) (limit i j : Z) (c : list pkt)
    : list pkt * Z * Z :=
  match fuel with
  | O => (c, i, j)
  | S fuel' =>
      if negb (i =? tail q) && negb (j =? limit)
      then copy_cells fuel' q limit (next_i (capacity q) i) (j + 1) (vset c j (vget (cells q) i))
      else (c, i, j)
  end.

(** The packets from [i] to the tail, which are killed. *)
Fixpoint rest_from (fuel : nat) (q : SimpleQueue) (i : Z) : list pkt :=
  match fuel with
  | O => []
  | S fuel' => if i =? tail q then []
               else vget (cells q) i :: rest_from fuel' q (next_i (capacity q) i)
  end.

(** [live_reconfigure] with a new capacity; returns the killed packets. *)
Definition live_reconfigure (q : SimpleQueue) (new_capacity : Z) : SimpleQueue * list pkt :=
  if new_capacity =? capacity q then (q, [])
  else
    let '(c, i, j) :=
      copy_cells (length (cells q)) q new_capacity (head q) 0 (new_cells new_capacity) in
    (mkQueue new_capacity 0 j c (drops q) (highwater_length q),
     rest_from (length (cells q)) q i).

(** [take_state] from another queue; [None] when this queue has been used. *)
Definition take_state (q other : SimpleQueue) : option (SimpleQueue * SimpleQueue * list pkt) :=
  if negb (tail q =? head q) || negb (head q =? 0) then None
  else
    let '(c, j, i) := copy_cells (length (cells other)) other (capacity q) (head other) 0 (cells q) in
    let q' := mkQueue (capacity q) 0 i c (drops q) (storage_size (capacity q) 0 i) in
    Some (q', mkQueue (capacity other) 0 0 (cells other) (drops other) (highwater_length other),
          rest_from (length (cells other)) other j).

(** [cleanup] kills what is left. *)
Definition cleanup (q : SimpleQueue) : list pkt := rest_from (length (cells q)) q (head q).

(** [reset_counts] of the write handler *)
Definition reset_counts (q : SimpleQueue) : SimpleQueue :=
  mkQueue (capacity q) (head q) (tail q) (cells q) 0 (queue_size q).
End queue.

Arguments SimpleQueue : clear implicits.
Arguments push_event : clear implicits.

(** ** The abstract queue *)

Section contents.
Context {pkt : Type} `{Inhabited pkt}.
Implicit Types (q : SimpleQueue pkt) (c : list pkt).

(** The cell [i] steps after [h]. *)
Definition pos (cap h i : Z) : Z := (h + i) mod (cap + 1).

(** The number of packets, without machine arithmetic. *)
Definition qlen q : Z := (tail q - head q) mod (capacity q + 1).

Definition ring (cap h : Z) (n : nat) c : list pkt :=
  map (fun i => vget c (pos cap h i)) (seqZ 0 (Z.of_nat n)).

(** The packets in the queue, first one first. *)
Definition contents q : list pkt := ring (capacity q) (head q) (Z.to_nat (qlen q)) (cells q).

Record queue_ok q : Prop := {
  qo_cap : 0 <= capacity q < 2147483647;
  qo_head : 0 <= head q <= capacity q;
  qo_tail : 0 <= tail q <= capacity q;
  qo_cells : vlen (cells q) = capacity q + 1
}.

Lemma next_pos cap h i : 0 <= cap -> next_i cap (pos cap h i) = pos cap h (i + 1).
Proof.
  intros Hc. unfold next_i, pos. pose proof (Z.mod_pos_bound (h + i) (cap + 1) ltac:(lia)) as Hb.
  replace (h + (i + 1)) with (h + i + 1) by lia.
  destruct (Z.eqb_spec ((h + i) mod (cap + 1)) cap) as [He|Hne]; cbn [negb].
  - rewrite <- Z.add_mod_idemp_l, He, Z.mod_same by lia. done.
  - rewrite <- (Z.add_mod_idemp_l (h + i)) by lia. rewrite (Z.mod_small (_ + 1)) by lia. done.
Qed.

Lemma prev_pos cap h i : 0 <= cap -> prev_i cap (pos cap h i) = pos cap h (i - 1).
Proof.
  intros Hc. unfold prev_i, pos. pose proof (Z.mod_pos_bound (h + i) (cap + 1) ltac:(lia)) as Hb.
  replace (h + (i - 1)) with (h + i + -1) by lia.
  destruct (Z.eqb_spec ((h + i) mod (cap + 1)) 0) as [He|Hne]; cbn [negb].
  - rewrite <- Z.add_mod_idemp_l, He by lia. rewrite Z.add_0_l.
    apply (Z.mod_unique _ _ (-1)); lia.
  - rewrite <- (Z.add_mod_idemp_l (h + i)) by lia. rewrite (Z.mod_small (_ + -1)) by lia. lia.
Qed.

Lemma pos_0 cap h : 0 <= h <= cap -> pos cap h 0 = h.
Proof. intros. unfold pos. rewrite Z.add_0_r. apply Z.mod_small. lia. Qed.

Lemma pos_range cap h i : 0 <= cap -> 0 <= pos cap h i <= cap.
Proof. intros. unfold pos. pose proof (Z.mod_pos_bound (h + i) (cap + 1) ltac:(lia)). lia. Qed.

Lemma pos_inj cap h i j :
  0 <= cap -> 0 <= i <= cap -> 0 <= j <= cap -> pos cap h i = pos cap h j -> i = j.
Proof.
  intros Hc Hi Hj He. unfold pos in He.
  assert (Hd : (i - j) mod (cap + 1) = 0).
  { replace (i - j) with ((h + i) - (h + j)) by lia. rewrite Zminus_mod, He, Z.sub_diag.
    apply Z.mod_0_l. lia. }
  apply Z.mod_divide in Hd; [|lia]. destruct Hd as [k Hk].
  assert (k = 0) by nia. lia.
Qed.

Lemma pos_add cap h i j : 0 <= cap -> pos cap (pos cap h i) j = pos cap h (i + j).
Proof. intros. unfold pos. rewrite Z.add_mod_idemp_l by lia. f_equal. lia. Qed.

Lemma qlen_range q : queue_ok q -> 0 <= qlen q <= capacity q.
Proof.
  intros [Hc _ _ _]. unfold qlen. pose proof (Z.mod_pos_bound (tail q - head q) (capacity q + 1) ltac:(lia)).
  lia.
Qed.

Lemma tail_pos q : queue_ok q -> tail q = pos (capacity q) (head q) (qlen q).
Proof.
  intros [Hc Hh Ht _]. unfold pos, qlen. rewrite Z.add_mod_idemp_r by lia.
  replace (head q + (tail q - head q)) with (tail q) by lia. by rewrite Z.mod_small by lia.
Qed.

Lemma length_contents q : queue_ok q -> vlen (contents q) = qlen q.
Proof.
  intros Hq. pose proof (qlen_range q Hq). unfold contents, ring, vlen.
  rewrite length_map, length_seqZ. lia.
Qed.

Lemma vget_ring cap h n c i :
  0 <= i < Z.of_nat n -> vget (ring cap h n c) i = vget c (pos cap h i).
Proof.
  intros Hi. apply vget_lookup; [lia|]. unfold ring. rewrite list_lookup_fmap.
  rewrite lookup_seqZ_lt by lia. cbn [fmap option_fmap option_map]. do 3 f_equal. lia.
Qed.

Lemma vlen_ring cap h n c : vlen (ring cap h n c) = Z.of_nat n.
Proof. unfold ring, vlen. rewrite length_map, length_seqZ. lia. Qed.

Lemma vget_contents q i :
  queue_ok q -> 0 <= i < qlen q -> vget (contents q) i = vget (cells q) (pos (capacity q) (head q) i).
Proof. intros Hq Hi. apply vget_ring. lia. Qed.

(** A queue is determined by its length and its cells. *)
Lemma contents_eq q l :
  queue_ok q -> vlen l = qlen q ->
  (forall i, 0 <= i < qlen q -> vget (cells q) (pos (capacity q) (head q) i) = vget l i) ->
  contents q = l.
Proof.
  intros Hq Hl Hg. apply vec_eq; [by rewrite length_contents|].
  intros i Hi. rewrite length_contents in Hi by done. rewrite vget_contents by done. auto.
Qed.

(** The length of a queue whose tail is [n] cells after its head. *)
Lemma qlen_pos q n :
  queue_ok q -> 0 <= n <= capacity q -> tail q = pos (capacity q) (head q) n -> qlen q = n.
Proof.
  intros Hq Hn Ht. pose proof (qlen_range q Hq).
  apply (pos_inj (capacity q) (head q)); [lia|done|done|]. by rewrite <- tail_pos.
Qed.

Lemma storage_size_spec cap h t :
  0 <= cap < 2147483647 -> 0 <= h <= cap -> 0 <= t <= cap ->
  storage_size cap h t = (t - h) mod (cap + 1).
Proof.
  intros Hc Hh Ht. unfold storage_size, i32, u32. change 4294967296 with (2147483648 * 2).
  destruct (Z.leb_spec h t).
  - rewrite !(Z.mod_small (t - h)) by lia. destruct (Z.ltb_spec (t - h) 2147483648); [|lia].
    by destruct (Z.leb_spec 0 (t - h)); [|lia].
  - assert ((t - h) mod (2147483648 * 2) = t - h + 2147483648 * 2) as ->.
    { rewrite <- (Z.mod_add _ 1) by lia. apply Z.mod_small. lia. }
    rewrite (Z.mod_small (t - h + 2147483648 * 2)) by lia.
    destruct (Z.ltb_spec (t - h + 2147483648 * 2) 2147483648); [lia|].
    destruct (Z.leb_spec 0 (t - h + 2147483648 * 2 - 2147483648 * 2)); [lia|].
    assert ((cap + (t - h + 2147483648 * 2) + 1) mod (2147483648 * 2) = cap + (t - h) + 1) as ->.
    { replace (cap + (t - h + 2147483648 * 2) + 1) with (cap + (t - h) + 1 + 1 * (2147483648 * 2)) by lia.
      rewrite Z.mod_add by lia. apply Z.mod_small. lia. }
    destruct (Z.ltb_spec (cap + (t - h) + 1) 2147483648); [|lia].
    assert ((t - h) mod (cap + 1) = t - h + (cap + 1)) as ->; [|lia].
    rewrite <- (Z.mod_add _ 1) by lia. rewrite Z.mul_1_l. apply Z.mod_small. lia.
Qed.

Lemma queue_size_spec q : queue_ok q -> queue_size q = vlen (contents q).
Proof.
  intros Hq. rewrite length_contents by done. destruct Hq. unfold queue_size. by apply storage_size_spec.
Qed.
End contents.

(** ** The operations on contents *)

Section operations.
Context {pkt : Type} `{Inhabited pkt}.
Implicit Types (q : SimpleQueue pkt) (c : list pkt).

Lemma new_queue_ok cap :
  0 <= cap < 2147483647 -> queue_ok (new_queue (pkt := pkt) cap) /\ contents (new_queue (pkt := pkt) cap) = [].
Proof.
  intros Hc. assert (Hq : queue_ok (new_queue (pkt := pkt) cap)).
  { constructor; simpl; try lia. unfold new_cells. rewrite vlen_replicate. lia. }
  split; [done|]. unfold contents, qlen, new_queue. simpl. by rewrite Z.mod_0_l by lia.
Qed.

(** The next tail meets the head exactly when the queue is full. *)
Lemma full_iff q :
  queue_ok q -> next_i (capacity q) (tail q) = head q <-> qlen q = capacity q.
Proof.
  intros Hq. pose proof (qlen_range q Hq) as Hl. pose proof Hq as [Hc Hh Ht _].
  rewrite (tail_pos q Hq) at 1. rewrite next_pos by lia. split.
  - intros He. destruct (decide (qlen q = capacity q)); [done|].
    rewrite <- (pos_0 (capacity q) (head q)) in He at 2 by done.
    apply pos_inj in He; lia.
  - intros ->. unfold pos. replace (head q + (capacity q + 1)) with (head q + 1 * (capacity q + 1)) by lia.
    rewrite Z.mod_add by lia. apply Z.mod_small. lia.
Qed.

Lemma store_spec q p :
  queue_ok q ->
  match store q p with
  | Some q' => queue_ok q' /\ capacity q' = capacity q /\ contents q' = contents q ++ [p]
      /\ vlen (contents q) < capacity q /\ drops q' = drops q
      /\ highwater_length q' = Z.max (highwater_length q) (vlen (contents q) + 1)
  | None => vlen (contents q) = capacity q
  end.
Proof.
  intros Hq. pose proof (full_iff q Hq) as Hfull. pose proof (qlen_range q Hq) as Hl.
  pose proof Hq as [Hc Hh Ht Hcl]. rewrite length_contents by done. unfold store.
  destruct (Z.eqb_spec (next_i (capacity q) (tail q)) (head q)) as [He|Hne]; cbn [negb]; [tauto|].
  assert (Hlt : qlen q < capacity q) by (destruct (decide (qlen q = capacity q)); [tauto|lia]).
  assert (Hnt : next_i (capacity q) (tail q) = pos (capacity q) (head q) (qlen q + 1)).
  { rewrite (tail_pos q Hq) at 1. by rewrite next_pos by lia. }
  assert (Hntr : 0 <= next_i (capacity q) (tail q) <= capacity q) by (rewrite Hnt; apply pos_range; lia).
  set (q' := mkQueue _ _ _ _ _ _). assert (Hq' : queue_ok q').
  { constructor; simpl; [done|done|done|]. by rewrite vlen_vset. }
  assert (Hlen' : qlen q' = qlen q + 1) by (apply qlen_pos; simpl; [done|lia|done]).
  split; [done|]. split; [done|]. split; [|split; [done|]; split; [done|]].
  - apply contents_eq; [done|rewrite vlen_app, length_contents, Hlen' by done; done|].
    rewrite Hlen'. intros i Hi. simpl. destruct (decide (i = qlen q)) as [->|Hi'].
    + rewrite <- (tail_pos q Hq), vget_vset_eq by lia.
      rewrite vget_app_r by (rewrite length_contents by done; lia).
      rewrite length_contents by done. by rewrite Z.sub_diag.
    + rewrite vget_app_l by (rewrite length_contents by done; lia).
      rewrite vget_contents by (done || lia).
      rewrite vget_vset_ne; [done| |lia|apply pos_range; lia].
      rewrite (tail_pos q Hq). intros He. apply pos_inj in He; lia.
  - simpl. rewrite storage_size_spec by done. rewrite Hnt.
    assert ((pos (capacity q) (head q) (qlen q + 1) - head q) mod (capacity q + 1) = qlen q + 1) as ->.
    { unfold pos. rewrite Zminus_mod_idemp_l. replace (head q + (qlen q + 1) - head q) with (qlen q + 1) by lia.
      apply Z.mod_small. lia. }
    destruct (Z.ltb_spec (highwater_length q) (qlen q + 1)); lia.
Qed.

Lemma deq_spec q :
  queue_ok q ->
  queue_ok (deq q).1 /\ capacity (deq q).1 = capacity q
  /\ (deq q).2 = hd_error (contents q) /\ contents (deq q).1 = tl (contents q).
Proof.
  intros Hq. pose proof (qlen_range q Hq) as Hl. pose proof Hq as [Hc Hh Ht Hcl].
  pose proof (length_contents q Hq) as Hlc. unfold deq.
  destruct (Z.eqb_spec (head q) (tail q)) as [He|Hne]; cbn [negb].
  - assert (Hz : qlen q = 0) by (unfold qlen; rewrite <- He, Z.sub_diag; apply Z.mod_0_l; lia).
    rewrite Hz in Hlc. cbn [fst snd]. destruct (contents q); [done|vlia].
  - assert (Hpos : 0 < qlen q).
    { destruct (decide (qlen q = 0)) as [Hz|]; [|lia]. exfalso. apply Hne.
      rewrite (tail_pos q Hq), Hz, pos_0 by done. done. }
    destruct (contents q) as [|x l] eqn:Ec; [vlia|]. simpl.
    assert (Hq' : queue_ok (set_head q (next_i (capacity q) (head q)))).
    { constructor; simpl; try done. unfold next_i. case_match; bprop; lia. }
    split; [done|]. split; [done|].
    assert (Hx : vget (cells q) (head q) = x).
    { rewrite <- (pos_0 (capacity q) (head q)) at 1 by done. rewrite <- vget_contents by (done || lia).
      by rewrite Ec. }
    split; [by rewrite Hx|].
    assert (Hnh : next_i (capacity q) (head q) = pos (capacity q) (head q) 1).
    { rewrite <- (pos_0 (capacity q) (head q)) at 1 by done. apply next_pos. lia. }
    assert (Hlen' : qlen (set_head q (next_i (capacity q) (head q))) = qlen q - 1).
    { apply qlen_pos; simpl; [done|lia|]. rewrite Hnh, pos_add by lia.
      rewrite (tail_pos q Hq) at 1. f_equal. lia. }
    apply contents_eq; [done|rewrite Hlen'; vlia|]. rewrite Hlen'. intros i Hi. simpl.
    rewrite Hnh, pos_add by lia. rewrite <- vget_contents by (done || lia).
    rewrite Ec, vget_cons_S by lia. f_equal. lia.
Qed.

Lemma pull_all q out fuel :
  queue_ok q -> vlen (contents q) < Z.of_nat fuel ->
  queue_ok (reset_loop fuel q out).1 /\ contents (reset_loop fuel q out).1 = []
  /\ (reset_loop fuel q out).2 = out ++ contents q.
Proof.
  revert q out. induction fuel as [|fuel IH]; intros q out Hq Hf; [pose proof (vlen_nonneg (contents q)); lia|].
  cbn [reset_loop]. unfold pull. pose proof (deq_spec q Hq) as (Hq' & _ & Hp & Hc).
  destruct (deq q) as [q' [p|]]; cbn [fst snd] in *; destruct (contents q) as [|x l] eqn:Ec; try done.
  - injection Hp as ->. destruct (IH q' (vpush out x) Hq') as (H1 & H2 & H3); [rewrite Hc; cbn; vlia|].
    rewrite H3, Hc. split; [done|]. split; [done|]. unfold vpush. by rewrite <- app_assoc.
  - by rewrite app_nil_r.
Qed.
End operations.

Section more_operations.
Context {pkt : Type} `{Inhabited pkt}.
Implicit Types (q : SimpleQueue pkt) (c : list pkt).

Lemma lifo_enq_spec q p :
  queue_ok q -> 0 < capacity q ->
  let '(q', killed) := lifo_enq q p in
  queue_ok q' /\ contents q' = p :: take (Z.to_nat (capacity q - 1)) (contents q)
  /\ killed = (if vlen (contents q) =? capacity q then last (contents q) else None).
Proof.
  intros Hq Hcap. pose proof (qlen_range q Hq) as Hl. pose proof Hq as [Hc Hh Ht Hcl].
  pose proof (length_contents q Hq) as Hlc. unfold lifo_enq.
  assert (Hph : prev_i (capacity q) (head q) = pos (capacity q) (head q) (capacity q)).
  { rewrite <- (pos_0 (capacity q) (head q)) at 1 by done. rewrite prev_pos by lia. unfold pos.
    replace (head q + capacity q) with (head q + (0 - 1) + 1 * (capacity q + 1)) by lia.
    by rewrite Z.mod_add by lia. }
  set (ph := prev_i (capacity q) (head q)) in *.
  assert (Hphr : 0 <= ph <= capacity q) by (rewrite Hph; apply pos_range; lia).
  assert (Hfull : (ph =? tail q) = (qlen q =? capacity q)).
  { rewrite (tail_pos q Hq), Hph. destruct (Z.eqb_spec (qlen q) (capacity q)) as [->|Hne].
    - apply Z.eqb_refl.
    - apply Z.eqb_neq. intros He. apply pos_inj in He; lia. }
  rewrite Hfull, Hlc. set (n := if qlen q =? capacity q then qlen q - 1 else qlen q).
  assert (Hn : 0 <= n <= capacity q - 1) by (unfold n; case_match; bprop; lia).
  assert (Ht' : (if qlen q =? capacity q then prev_i (capacity q) (tail q) else tail q)
                = pos (capacity q) (head q) n).
  { unfold n. case_match; [|by apply tail_pos]. rewrite (tail_pos q Hq), prev_pos by lia. done. }
  assert (Hgoal : forall killed, killed = (if qlen q =? capacity q then last (contents q) else None) ->
    let q' := mkQueue (capacity q) ph (pos (capacity q) (head q) n) (vset (cells q) ph p) (drops q)
                (highwater_length q) in
    queue_ok q' /\ contents q' = p :: take (Z.to_nat (capacity q - 1)) (contents q)
    /\ killed = (if qlen q =? capacity q then last (contents q) else None)).
  { intros killed Hk q'. assert (Hq' : queue_ok q').
    { constructor; simpl; [done|done|apply pos_range; lia|by rewrite vlen_vset]. }
    assert (Hpp : forall i, pos (capacity q) ph i = pos (capacity q) (head q) (i - 1)).
    { intros i. rewrite Hph, pos_add by lia. unfold pos.
      replace (head q + (capacity q + i)) with (head q + (i - 1) + 1 * (capacity q + 1)) by lia.
      by rewrite Z.mod_add by lia. }
    assert (Hlen' : qlen q' = n + 1).
    { apply qlen_pos; simpl; [done|lia|]. rewrite Hpp. f_equal. lia. }
    assert (Htake : vlen (take (Z.to_nat (capacity q - 1)) (contents q)) = n).
    { unfold vlen in *. rewrite length_take. unfold n. case_match; bprop; lia. }
    split; [done|]. split; [|done].
    apply contents_eq; [done|rewrite vlen_cons, Htake; lia|]. rewrite Hlen'. intros i Hi. simpl.
    rewrite Hpp. destruct (decide (i = 0)) as [->|Hi0].
    - replace (pos (capacity q) (head q) (0 - 1)) with ph.
      + rewrite vget_vset_eq by lia. done.
      + rewrite <- (pos_0 (capacity q) ph) by done. by rewrite Hpp.
    - rewrite vget_cons_S by lia. rewrite vget_vset_ne; [| |lia|apply pos_range; lia].
      + rewrite <- vget_contents by (done || (unfold n in *; case_match; bprop; lia)).
        symmetry. apply vget_lookup; [lia|]. rewrite lookup_take_lt by (unfold vlen in *; lia).
        apply vget_some. unfold n in *. case_match; bprop; lia.
      + rewrite Hph. intros He. apply pos_inj in He; lia. }
  destruct (Z.eqb_spec (qlen q) (capacity q)) as [He|Hne]; rewrite Ht'; apply Hgoal; [|done].
  f_equal. rewrite last_lookup. f_equal. unfold n. rewrite <- vget_contents by (done || lia).
  symmetry. replace (pred (length (contents q))) with (Z.to_nat (qlen q - 1)) by (unfold vlen in *; lia).
  apply vget_some. lia.
Qed.

(** ** Yanking *)

Lemma find_from_spec f q i fuel :
  queue_ok q -> 0 <= i <= qlen q -> qlen q - i <= Z.of_nat fuel ->
  match find_from fuel f q (pos (capacity q) (head q) i) with
  | None => forall j, i <= j < qlen q -> f (vget (contents q) j) = false
  | Some t => exists j, i <= j < qlen q /\ t = pos (capacity q) (head q) j
      /\ f (vget (contents q) j) = true /\ forall j', i <= j' < j -> f (vget (contents q) j') = false
  end.
Proof.
  intros Hq. pose proof (qlen_range q Hq) as Hl. pose proof Hq as [Hc _ _ _].
  revert i. induction fuel as [|fuel IH]; intros i Hi Hf; cbn [find_from]; [intros; lia|].
  rewrite (tail_pos q Hq). destruct (Z.eqb_spec (pos (capacity q) (head q) i)
    (pos (capacity q) (head q) (qlen q))) as [He|Hne].
  { apply pos_inj in He; [|lia..]. intros; lia. }
  assert (i <> qlen q) by (by intros ->). rewrite <- vget_contents by (done || lia).
  destruct (f (vget (contents q) i)) eqn:Ef.
  - exists i. split; [lia|]. split; [done|]. split; [done|]. intros; lia.
  - rewrite next_pos by lia. specialize (IH (i + 1) ltac:(lia) ltac:(lia)). case_match.
    + destruct IH as (j & Hj & -> & Hfj & Hb). exists j. split; [lia|]. split; [done|].
      split; [done|]. intros j' Hj'. destruct (decide (j' = i)) as [->|]; [done|]. apply Hb. lia.
    + intros j Hj. destruct (decide (j = i)) as [->|]; [done|]. apply IH. lia.
Qed.

Lemma shift_cells_spec cap h j c fuel :
  0 <= cap -> 0 <= h <= cap -> vlen c = cap + 1 -> 0 <= j <= cap -> j < Z.of_nat fuel ->
  let c' := shift_cells fuel cap h c (pos cap h j) in
  vlen c' = cap + 1
  /\ forall i, 0 <= i <= cap -> vget c' (pos cap h i)
       = if decide (0 < i <= j) then vget c (pos cap h (i - 1)) else vget c (pos cap h i).
Proof.
  intros Hc Hh. revert j c. induction fuel as [|fuel IH]; intros j c Hl Hj Hf; [lia|].
  cbn [shift_cells]. destruct (Z.eqb_spec (pos cap h j) h) as [He|Hne].
  - assert (j = 0) as ->.
    { rewrite <- (pos_0 cap h) in He at 2 by done. apply pos_inj in He; lia. }
    split; [done|]. intros i Hi. case_decide; [lia|done].
  - assert (j <> 0) by (intros ->; by rewrite pos_0 in Hne). rewrite prev_pos by lia.
    pose proof (pos_range cap h j ltac:(lia)).
    destruct (IH (j - 1) (vset c (pos cap h j) (vget c (pos cap h (j - 1))))) as [G1 G2];
      [by rewrite vlen_vset|lia|lia|].
    assert (Hother : forall k, 0 <= k <= cap -> k <> j ->
      vget (vset c (pos cap h j) (vget c (pos cap h (j - 1)))) (pos cap h k) = vget c (pos cap h k)).
    { intros k Hk Hkj. apply vget_vset_ne; [|lia|apply pos_range; lia].
      intros He. apply pos_inj in He; lia. }
    split; [done|]. intros i Hi. rewrite G2 by done. case_decide; case_decide; try lia.
    + apply Hother; lia.
    + assert (i = j) as -> by lia. apply vget_vset_eq. lia.
    + apply Hother; lia.
Qed.

Lemma yank1_spec f q :
  queue_ok q ->
  match yank1 f q with
  | (q', None) => q' = q /\ Forall (fun p => f p = false) (contents q)
  | (q', Some p) => queue_ok q' /\ exists l1 l2, contents q = l1 ++ p :: l2
      /\ Forall (fun p => f p = false) l1 /\ f p = true /\ contents q' = l1 ++ l2
  end.
Proof.
  intros Hq. pose proof (qlen_range q Hq) as Hl. pose proof Hq as [Hc Hh Ht Hcl].
  pose proof (length_contents q Hq) as Hlc. unfold yank1.
  pose proof (find_from_spec f q 0 (length (cells q)) Hq ltac:(lia)) as Hfind.
  rewrite pos_0 in Hfind by done. specialize (Hfind ltac:(unfold vlen in Hcl; lia)).
  destruct (find_from (length (cells q)) f q (head q)) as [t|].
  2:{ split; [done|]. apply Forall_lookup. intros i x Hx. apply lookup_lt_Some in Hx as Hi.
      specialize (Hfind (Z.of_nat i) ltac:(unfold vlen in Hlc; lia)). by rewrite (vget_nat _ _ _ Hx) in Hfind. }
  destruct Hfind as (j & Hj & -> & Hfj & Hbefore).
  destruct (shift_cells_spec (capacity q) (head q) j (cells q) (length (cells q))) as [Hs1 Hs2];
    [lia|done|done|lia|unfold vlen in Hcl; lia|].
  set (c' := shift_cells _ _ _ _ _) in *.
  assert (Hnh : next_i (capacity q) (head q) = pos (capacity q) (head q) 1).
  { rewrite <- (pos_0 (capacity q) (head q)) at 1 by done. apply next_pos. lia. }
  rewrite Hnh. set (q' := mkQueue _ _ _ _ _ _). assert (Hq' : queue_ok q').
  { constructor; simpl; [done|apply pos_range; lia|done|done]. }
  assert (Hlen' : qlen q' = qlen q - 1).
  { apply qlen_pos; simpl; [done|lia|]. rewrite pos_add by lia. rewrite (tail_pos q Hq) at 1. f_equal. lia. }
  split; [done|].
  assert (Hlk : contents q !! Z.to_nat j = Some (vget (contents q) j)) by (apply vget_some; lia).
  exists (take (Z.to_nat j) (contents q)), (drop (S (Z.to_nat j)) (contents q)).
  rewrite <- vget_contents by (done || lia).
  split; [symmetry; by apply take_drop_middle|]. split; [|split; [done|]].
  { apply Forall_lookup. intros i x Hx. apply lookup_take_Some in Hx as [Hx Hi].
    specialize (Hbefore (Z.of_nat i) ltac:(lia)). by rewrite (vget_nat _ _ _ Hx) in Hbefore. }
  assert (Hlt : length (take (Z.to_nat j) (contents q)) = Z.to_nat j).
  { rewrite length_take. unfold vlen in Hlc. lia. }
  apply contents_eq; [done| |].
  { rewrite Hlen'. unfold vlen in *. rewrite length_app, Hlt, length_drop. lia. }
  rewrite Hlen'. intros i Hi. simpl. rewrite pos_add by lia. rewrite Hs2 by lia.
  replace (1 + i - 1) with i by lia. symmetry. apply vget_lookup; [lia|]. case_decide as Hd.
  - rewrite lookup_app_l by (rewrite Hlt; lia). rewrite lookup_take_lt by lia.
    rewrite <- vget_contents by (done || lia). apply vget_some. lia.
  - rewrite lookup_app_r by (rewrite Hlt; lia). rewrite Hlt, lookup_drop.
    rewrite <- vget_contents by (done || lia).
    replace (S (Z.to_nat j) + (Z.to_nat i - Z.to_nat j))%nat with (Z.to_nat (1 + i)) by lia.
    apply vget_some. lia.
Qed.

(** ** Copying *)

Lemma rest_from_spec q i fuel :
  queue_ok q -> 0 <= i <= qlen q -> qlen q - i <= Z.of_nat fuel ->
  rest_from fuel q (pos (capacity q) (head q) i) = drop (Z.to_nat i) (contents q).
Proof.
  intros Hq. pose proof (qlen_range q Hq) as Hl. pose proof Hq as [Hc _ _ _].
  pose proof (length_contents q Hq) as Hlc. revert i. induction fuel as [|fuel IH]; intros i Hi Hf.
  - symmetry. apply drop_ge. unfold vlen in Hlc. lia.
  - cbn [rest_from]. rewrite (tail_pos q Hq).
    destruct (Z.eqb_spec (pos (capacity q) (head q) i) (pos (capacity q) (head q) (qlen q))) as [He|Hne].
    + apply pos_inj in He; [|lia..]. symmetry. apply drop_ge. unfold vlen in Hlc. lia.
    + assert (i <> qlen q) by (by intros ->). rewrite next_pos, IH by lia.
      rewrite <- vget_contents by (done || lia).
      rewrite (drop_S (contents q) (vget (contents q) i) (Z.to_nat i)) by (apply vget_some; lia).
      do 2 f_equal. lia.
Qed.

Lemma copy_cells_spec q limit i c fuel :
  queue_ok q -> 0 <= limit < vlen c -> 0 <= i <= Z.min (qlen q) limit ->
  Z.min (qlen q) limit - i < Z.of_nat fuel ->
  exists c', copy_cells fuel q limit (pos (capacity q) (head q) i) i c
    = (c', pos (capacity q) (head q) (Z.min (qlen q) limit), Z.min (qlen q) limit)
  /\ vlen c' = vlen c
  /\ forall k, 0 <= k -> vget c' k
       = if decide (i <= k < Z.min (qlen q) limit) then vget (contents q) k else vget c k.
Proof.
  intros Hq Hlim. pose proof (qlen_range q Hq) as Hl. pose proof Hq as [Hc _ _ _].
  set (n := Z.min (qlen q) limit). revert i c Hlim.
  induction fuel as [|fuel IH]; intros i c Hlim Hi Hf; [lia|].
  cbn [copy_cells]. rewrite (tail_pos q Hq).
  destruct (Z.eqb_spec (pos (capacity q) (head q) i) (pos (capacity q) (head q) (qlen q))) as [He|Hne].
  { apply pos_inj in He; [|lia..]. exists c. cbn [andb negb]. assert (i = n) as -> by lia. split; [done|].
    split; [done|]. intros k Hk. case_decide; [lia|done]. }
  assert (i <> qlen q) by (by intros ->). cbn [andb negb].
  destruct (Z.eqb_spec i limit) as [->|Hil]; cbn [negb].
  { exists c. assert (n = limit) as -> by lia. split; [done|]. split; [done|].
    intros k Hk. case_decide; [lia|done]. }
  rewrite next_pos by lia.
  destruct (IH (i + 1) (vset c i (vget (cells q) (pos (capacity q) (head q) i)))) as (c' & Hcp & Hlen & Hg);
    [rewrite vlen_vset; lia|lia|lia|].
  exists c'. split; [done|]. rewrite vlen_vset in Hlen. split; [done|]. intros k Hk. rewrite Hg by done.
  rewrite <- vget_contents by (done || lia).
  case_decide; case_decide; try lia; try done.
  - assert (k = i) as -> by lia. apply vget_vset_eq. lia.
  - apply vget_vset_ne; lia.
Qed.

(** A queue whose cells from 0 on hold the first packets of [l]. *)
Lemma filled_queue cap n c d hw (l : list pkt) :
  0 <= cap < 2147483647 -> 0 <= n <= cap -> n <= vlen l -> vlen c = cap + 1 ->
  (forall k, 0 <= k < n -> vget c k = vget l k) ->
  queue_ok (mkQueue cap 0 n c d hw) /\ contents (mkQueue cap 0 n c d hw) = take (Z.to_nat n) l.
Proof.
  intros Hc Hn Hnl Hl Hg. set (q := mkQueue cap 0 n c d hw).
  assert (Hq : queue_ok q) by (constructor; simpl; lia). split; [done|].
  assert (Hlen : qlen q = n).
  { unfold qlen. simpl. rewrite Z.sub_0_r. apply Z.mod_small. lia. }
  apply contents_eq; [done|unfold vlen in *; rewrite length_take, Hlen; lia|].
  rewrite Hlen. intros i Hi. simpl. unfold pos. rewrite Z.add_0_l, Z.mod_small by lia.
  rewrite Hg by lia. symmetry. apply vget_lookup; [lia|]. rewrite lookup_take_lt by lia.
  apply vget_some. lia.
Qed.

Lemma live_reconfigure_spec q new_capacity :
  queue_ok q -> 0 <= new_capacity < 2147483647 ->
  let '(q', killed) := live_reconfigure q new_capacity in
  queue_ok q' /\ capacity q' = new_capacity
  /\ contents q' = take (Z.to_nat new_capacity) (contents q)
  /\ killed = drop (Z.to_nat new_capacity) (contents q).
Proof.
  intros Hq Hnew. pose proof (qlen_range q Hq) as Hl. pose proof Hq as [Hc Hh Ht Hcl].
  pose proof (length_contents q Hq) as Hlc. unfold live_reconfigure.
  destruct (Z.eqb_spec new_capacity (capacity q)) as [->|Hne].
  { split; [done|]. split; [done|]. split; [symmetry; apply take_ge|symmetry; apply drop_ge]; unfold vlen in Hlc; lia. }
  assert (Hnc : vlen (new_cells (pkt := pkt) new_capacity) = new_capacity + 1)
    by (unfold new_cells; rewrite vlen_replicate; lia).
  set (n := Z.min (qlen q) new_capacity).
  destruct (copy_cells_spec q new_capacity 0 (new_cells new_capacity) (length (cells q)))
    as (c' & Hcp & Hlen & Hg); [done|lia|lia|unfold vlen in Hcl; lia|].
  rewrite pos_0 in Hcp by done. rewrite Hcp. fold n in Hg |- *.
  rewrite rest_from_spec by (done || lia || (unfold vlen in Hcl; lia)).
  destruct (filled_queue new_capacity n c' (drops q) (highwater_length q) (contents q)) as [G1 G2];
    [done|lia|lia|congruence|intros k Hk; rewrite Hg by lia; by case_decide; [|lia]|].
  split; [done|]. split; [done|]. rewrite G2.
  destruct (Z.leb_spec (qlen q) new_capacity).
  - assert (n = qlen q) as -> by lia. rewrite !take_ge, !drop_ge by (unfold vlen in Hlc; lia). done.
  - by assert (n = new_capacity) as -> by lia.
Qed.
End more_operations.

(** ** Yanking every match *)

Section yank.
Context {pkt : Type} `{Inhabited pkt}.
Implicit Types (q : SimpleQueue pkt) (c l : list pkt).

(** The cells from position [w] on hold [l]. *)
Definition holds (cap h : Z) c (w : Z) l : Prop :=
  forall k, 0 <= k < vlen l -> vget c (pos cap h (w + k)) = vget l k.

Lemma holds_cons cap h c w x l :
  0 <= w -> w + 1 + vlen l <= cap + 1 -> vlen c = cap + 1 ->
  holds cap h c (w + 1) l -> holds cap h (vset c (pos cap h w) x) w (x :: l).
Proof.
  intros Hw Hwl Hc Hl k Hk. rewrite vlen_cons in Hk. pose proof (vlen_nonneg l).
  pose proof (pos_range cap h w ltac:(lia)). destruct (decide (k = 0)) as [->|Hk0].
  - rewrite Z.add_0_r, vget_vset_eq by lia. done.
  - rewrite vget_cons_S by lia. rewrite vget_vset_ne; [| |lia|apply pos_range; lia].
    + rewrite <- Hl by lia. do 2 f_equal. lia.
    + intros He. apply pos_inj in He; lia.
Qed.

Lemma yank_loop_spec f cap h l c i w acc yanked fuel :
  0 <= cap -> 0 <= h <= cap -> vlen c = cap + 1 -> vlen l <= cap ->
  0 <= i <= w -> i <= vlen l -> w + vlen acc = vlen l -> i < Z.of_nat fuel ->
  (forall k, 0 <= k < i -> vget c (pos cap h k) = vget l k) -> holds cap h c w acc ->
  exists c' w', yank_loop fuel f cap h c (pos cap h i) (pos cap h w) yanked
    = (c', pos cap h w', yanked ++ rev (filter (fun x => f x = true) (take (Z.to_nat i) l)))
  /\ vlen c' = cap + 1 /\ 0 <= w'
  /\ let acc' := filter (fun x => f x = false) (take (Z.to_nat i) l) ++ acc in
     w' + vlen acc' = vlen l /\ holds cap h c' w' acc'.
Proof.
  intros Hcap Hh. revert c i w acc yanked.
  induction fuel as [|fuel IH]; intros c i w acc yanked Hc Hl Hi Hil Hw Hf Hlow Hacc; [lia|].
  cbn [yank_loop]. destruct (Z.eqb_spec (pos cap h i) h) as [He|Hne].
  { assert (i = 0) as ->.
    { rewrite <- (pos_0 cap h) in He at 2 by done. apply pos_inj in He; pose proof (vlen_nonneg acc); lia. }
    exists c, w. cbn. rewrite app_nil_r. split; [done|]. split; [done|]. split; [lia|]. done. }
  assert (i <> 0) by (intros ->; by rewrite pos_0 in Hne). rewrite !prev_pos by lia.
  pose proof (vlen_nonneg acc). rewrite Hlow by lia.
  assert (Htake : take (Z.to_nat i) l = take (Z.to_nat (i - 1)) l ++ [vget l (i - 1)]).
  { replace (Z.to_nat i) with (S (Z.to_nat (i - 1))) by lia. apply take_S_r. apply vget_some. lia. }
  rewrite Htake, !filter_app. destruct (f (vget l (i - 1))) eqn:Ef.
  - rewrite (filter_cons_True (fun x => f x = true)), (filter_cons_False (fun x => f x = false)) by congruence.
    cbn [filter list_filter]. rewrite app_nil_r, rev_app_distr. cbn [rev app].
    destruct (IH c (i - 1) w acc (vpush yanked (vget l (i - 1)))) as (c' & w' & G1 & G2);
      try lia; try done; [intros; apply Hlow; lia|].
    exists c', w'. rewrite G1. unfold vpush. rewrite <- app_assoc. done.
  - rewrite (filter_cons_False (fun x => f x = true)), (filter_cons_True (fun x => f x = false)) by congruence.
    cbn [filter list_filter]. rewrite app_nil_r.
    destruct (IH (vset c (pos cap h (w - 1)) (vget l (i - 1))) (i - 1) (w - 1) (vget l (i - 1) :: acc) yanked)
      as (c' & w' & G1 & G2); try lia.
    + by rewrite vlen_vset.
    + rewrite vlen_cons. lia.
    + intros k Hk. rewrite vget_vset_ne; [apply Hlow; lia| |apply pos_range; lia|apply pos_range; lia].
      intros He. apply pos_inj in He; lia.
    + apply holds_cons; [lia|lia|done|]. by replace (w - 1 + 1) with w by lia.
    + exists c', w'. rewrite G1. rewrite <- app_assoc. done.
Qed.

Lemma yank_spec f q :
  queue_ok q ->
  let '(q', yanked) := yank f q in
  queue_ok q' /\ capacity q' = capacity q /\ drops q' = drops q
  /\ highwater_length q' = highwater_length q
  /\ contents q' = filter (fun p => f p = false) (contents q)
  /\ yanked = rev (filter (fun p => f p = true) (contents q)).
Proof.
  intros Hq. pose proof (qlen_range q Hq) as Hl. pose proof Hq as [Hc Hh Ht Hcl].
  pose proof (length_contents q Hq) as Hlc. unfold yank.
  destruct (yank_loop_spec f (capacity q) (head q) (contents q) (cells q) (qlen q) (qlen q) [] []
    (length (cells q))) as (c' & w' & G1 & G2 & G3 & G4 & G5); try lia; try done.
  { rewrite Hlc, vlen_nil. lia. }
  { unfold vlen in Hcl. lia. }
  { intros k Hk. symmetry. by apply vget_contents. }
  { intros k Hk. unfold vlen in Hk. simpl in Hk. lia. }
  rewrite <- (tail_pos q Hq) in G1. rewrite G1. cbv zeta in G4, G5. rewrite app_nil_r in G4, G5.
  rewrite (take_ge (contents q)) in G1, G4, G5 |- * by (unfold vlen in Hlc; lia).
  set (l' := filter (fun x => f x = false) (contents q)) in *. pose proof (vlen_nonneg l').
  set (q' := mkQueue _ _ _ _ _ _). assert (Hq' : queue_ok q').
  { constructor; simpl; [done|apply pos_range; lia|done|done]. }
  split; [done|]. split; [done|]. split; [done|]. split; [done|]. split; [|done].
  assert (Hlen' : qlen q' = vlen l').
  { apply qlen_pos; simpl; [done|lia|]. rewrite pos_add by lia. rewrite (tail_pos q Hq) at 1. f_equal. lia. }
  apply contents_eq; [done|done|]. rewrite Hlen'. intros i Hi. simpl. rewrite pos_add by lia.
  by apply G5.
Qed.

Lemma take_state_spec q other :
  queue_ok q -> queue_ok other ->
  match take_state q other with
  | None => contents q <> [] \/ head q <> 0
  | Some (q', other', killed) =>
      queue_ok q' /\ capacity q' = capacity q
      /\ contents q' = take (Z.to_nat (capacity q)) (contents other)
      /\ killed = drop (Z.to_nat (capacity q)) (contents other)
      /\ highwater_length q' = vlen (contents q') /\ contents other' = []
  end.
Proof.
  intros Hq Ho. pose proof (qlen_range other Ho) as Hl. pose proof Hq as [Hc Hh Ht Hcl].
  pose proof Ho as [Hoc Hoh Hot Hocl]. pose proof (length_contents other Ho) as Hlc. unfold take_state.
  destruct (Z.eqb_spec (tail q) (head q)) as [He|Hne]; cbn [negb orb].
  2:{ left. intros Hnil. apply Hne. rewrite (tail_pos q Hq), <- (length_contents q Hq), Hnil. by apply pos_0. }
  destruct (Z.eqb_spec (head q) 0) as [Hz|Hne]; cbn [negb]; [|by right].
  set (n := Z.min (qlen other) (capacity q)).
  destruct (copy_cells_spec other (capacity q) 0 (cells q) (length (cells other)))
    as (c' & Hcp & Hlen & Hg); [done|lia|lia|unfold vlen in Hocl; lia|].
  rewrite pos_0 in Hcp by done. rewrite Hcp. fold n in Hg |- *.
  rewrite rest_from_spec by (done || lia || (unfold vlen in Hocl; lia)).
  destruct (filled_queue (capacity q) n c' (drops q) (storage_size (capacity q) 0 n) (contents other))
    as [G1 G2]; [done|lia|lia|congruence|intros k Hk; rewrite Hg by lia; by case_decide; [|lia]|].
  split; [done|]. split; [done|]. rewrite length_contents by done. rewrite G2.
  assert (Hn : take (Z.to_nat n) (contents other) = take (Z.to_nat (capacity q)) (contents other)
    /\ drop (Z.to_nat n) (contents other) = drop (Z.to_nat (capacity q)) (contents other)).
  { destruct (Z.leb_spec (qlen other) (capacity q)).
    - assert (n = qlen other) as -> by lia. rewrite !take_ge, !drop_ge by (unfold vlen in Hlc; lia). done.
    - by assert (n = capacity q) as -> by lia. }
  destruct Hn as [-> ->]. split; [done|]. split; [done|]. split.
  - cbn [highwater_length]. rewrite storage_size_spec by lia. done.
  - unfold contents, qlen. cbn. by rewrite Z.mod_0_l by lia.
Qed.
End yank.
