(* ===== verification/QueueSpec.v ===== *)
(** * The bounded FIFO that a packet queue implements

    The abstract queue is a list with a limit and two statistics.  Every
    operation of [SimpleQueue] is simulated by an operation on it, so any
    sequence of operations gives the same packets, drops and high-water mark. *)

From S2P Require Import Prelude Insn Queue.

Section fifo.
Context {pkt : Type} `{Inhabited pkt}.

Record fifo := mkFifo { limit : Z; items : list pkt; lost : Z; peak : Z }.

Inductive queue_op :=
  | op_push (p : pkt)
  | op_enq (p : pkt)
  | op_pull
  | op_lifo (p : pkt)
  | op_yank1 (f : pkt -> bool)
  | op_yank (f : pkt -> bool)
  | op_reset
  | op_reset_counts
  | op_reconfigure (new_capacity : Z).

Fixpoint remove_first (f : pkt -> bool) (l : list pkt) : list pkt * list pkt :=
  match l with
  | [] => ([], [])
  | x :: l' => if f x then (l', [x]) else let '(l'', out) := remove_first f l' in (x :: l'', out)
  end.

Definition with_items (s : fifo) (l : list pkt) : fifo := mkFifo (limit s) l (lost s) (peak s).

(** The new state and the packets that leave the queue: pulled, yanked, sent to
    output 1 or killed. *)
Definition fifo_step (s : fifo) (op : queue_op) : fifo * list pkt :=
  match op with
  | op_push p | op_enq p =>
      if vlen (items s) <? limit s
      then (mkFifo (limit s) (items s ++ [p]) (lost s) (Z.max (peak s) (vlen (items s) + 1)), [])
      else (mkFifo (limit s) (items s) (i32 (lost s + 1)) (peak s), [p])
  | op_pull => (with_items s (tl (items s)), take 1 (items s))
  | op_lifo p =>
      (with_items s (p :: take (Z.to_nat (limit s - 1)) (items s)),
       drop (Z.to_nat (limit s - 1)) (items s))
  | op_yank1 f => let '(l, out) := remove_first f (items s) in (with_items s l, out)
  | op_yank f => (with_items s (filter (fun p => f p = false) (items s)),
                  rev (filter (fun p => f p = true) (items s)))
  | op_reset => (with_items s [], items s)
  | op_reset_counts => (mkFifo (limit s) (items s) 0 (vlen (items s)), [])
  | op_reconfigure n => (mkFifo n (take (Z.to_nat n) (items s)) (lost s) (peak s),
                         drop (Z.to_nat n) (items s))
  end.

(** A LIFO insertion needs room for one packet; a capacity is a machine
    integer below the largest. *)
Definition op_ok (s : fifo) (op : queue_op) : bool :=
  match op with
  | op_lifo _ => 0 <? limit s
  | op_reconfigure n => (0 <=? n) && (n <? 2147483647)
  | _ => true
  end.

Definition event_packets (es : list (push_event pkt)) : list pkt :=
  es ≫= fun e => match e with overflow_message => [] | output_1 p => [p] end.

Definition run_op (q : SimpleQueue pkt) (op : queue_op) : SimpleQueue pkt * list pkt :=
  match op with
  | op_push p => let '(q', es) := push q p in (q', event_packets es)
  | op_enq p => let '(q', ok) := enq q p in (q', if ok then [] else [p])
  | op_pull => let '(q', p) := pull q in (q', option_list p)
  | op_lifo p => let '(q', p) := lifo_enq q p in (q', option_list p)
  | op_yank1 f => let '(q', p) := yank1 f q in (q', option_list p)
  | op_yank f => yank f q
  | op_reset => reset q
  | op_reset_counts => (reset_counts q, [])
  | op_reconfigure n => live_reconfigure q n
  end.

Fixpoint run_ops {S : Type} (step : S -> queue_op -> S * list pkt) (s : S) (ops : list queue_op)
    : S * list (list pkt) :=
  match ops with
  | [] => (s, [])
  | op :: ops' => let '(s', out) := step s op in
                  let '(s'', outs) := run_ops step s' ops' in (s'', out :: outs)
  end.

Fixpoint ops_ok (s : fifo) (ops : list queue_op) : bool :=
  match ops with
  | [] => true
  | op :: ops' => op_ok s op && ops_ok (fifo_step s op).1 ops'
  end.

Implicit Types (q : SimpleQueue pkt).

(** The abstraction function. *)
Definition abs q : fifo :=
  mkFifo (capacity q) (contents q) (drops q) (highwater_length q).

Definition simulates (q : SimpleQueue pkt) (op : queue_op) : Prop :=
  queue_ok (run_op q op).1 /\ abs (run_op q op).1 = (fifo_step (abs q) op).1
  /\ (run_op q op).2 = (fifo_step (abs q) op).2.

Lemma push_simulates q p : queue_ok q -> simulates q (op_push p) /\ simulates q (op_enq p).
Proof.
  intros Hq. unfold simulates. cbn [run_op fifo_step abs limit items]. unfold push, enq.
  pose proof (store_spec q p Hq) as Hs. destruct (store q p) as [q'|].
  - destruct Hs as (Hq' & Hcap & Hc & Hlt & Hd & Hhw).
    destruct (Z.ltb_spec (vlen (contents q)) (capacity q)); [|lia]. cbn [fst snd]. unfold abs.
    by rewrite Hcap, Hc, Hd, Hhw.
  - destruct (Z.ltb_spec (vlen (contents q)) (capacity q)); [lia|]. cbn [fst snd].
    assert (queue_ok (count_drop q)) by (by destruct Hq).
    split; [|done]. split; [done|]. split; [done|]. by case_match.
Qed.

Lemma deq_keeps q : drops (deq q).1 = drops q /\ highwater_length (deq q).1 = highwater_length q.
Proof. unfold deq. by case_match. Qed.

Lemma pull_simulates q : queue_ok q -> simulates q op_pull.
Proof.
  intros Hq. unfold simulates. cbn [run_op fifo_step]. unfold pull.
  pose proof (deq_spec q Hq) as (Hq' & Hcap & Hp & Hc). destruct (deq_keeps q) as [Hd Hhw].
  destruct (deq q) as [q' p]. cbn [fst snd] in *. split; [done|]. unfold abs, with_items. cbn.
  rewrite Hcap, Hc, Hd, Hhw, Hp. split; [done|]. by destruct (contents q).
Qed.

Lemma lifo_simulates q p : queue_ok q -> 0 < capacity q -> simulates q (op_lifo p).
Proof.
  intros Hq Hcap. unfold simulates. cbn [run_op fifo_step]. pose proof (lifo_enq_spec q p Hq Hcap) as Hs.
  assert (Hkeep : capacity (lifo_enq q p).1 = capacity q /\ drops (lifo_enq q p).1 = drops q
    /\ highwater_length (lifo_enq q p).1 = highwater_length q) by (unfold lifo_enq; by destruct (prev_i _ _ =? tail q)).
  pose proof (length_contents q Hq) as Hl. pose proof (qlen_range q Hq).
  destruct (lifo_enq q p) as [q' killed]. destruct Hs as (Hq' & Hc & Hk). destruct Hkeep as (K1 & K2 & K3).
  cbn [fst snd] in *. split; [done|]. unfold abs, with_items. cbn. rewrite K1, K2, K3, Hc.
  split; [done|]. rewrite Hk. destruct (Z.eqb_spec (vlen (contents q)) (capacity q)) as [He|Hne].
  - destruct (contents q) as [|x l _] eqn:Ec using rev_ind; [vlia|]. rewrite last_snoc.
    rewrite drop_app_ge by vlia. rewrite vlen_app in He.
    replace (Z.to_nat (capacity q - 1) - length l)%nat with 0%nat by vlia. done.
  - symmetry. apply drop_ge. unfold vlen in *. lia.
Qed.

Lemma remove_first_split f l1 x l2 :
  Forall (fun p => f p = false) l1 -> f x = true -> remove_first f (l1 ++ x :: l2) = (l1 ++ l2, [x]).
Proof.
  induction 1 as [|y l Hy _ IH]; intros Hx; cbn [app remove_first]; [by rewrite Hx|].
  by rewrite Hy, IH.
Qed.

Lemma remove_first_none f l : Forall (fun p => f p = false) l -> remove_first f l = (l, []).
Proof. induction 1 as [|y l Hy _ IH]; cbn [remove_first]; [done|]. by rewrite Hy, IH. Qed.

Lemma yank1_simulates q f : queue_ok q -> simulates q (op_yank1 f).
Proof.
  intros Hq. unfold simulates. cbn [run_op fifo_step]. pose proof (yank1_spec f q Hq) as Hs.
  assert (Hkeep : capacity (yank1 f q).1 = capacity q /\ drops (yank1 f q).1 = drops q
    /\ highwater_length (yank1 f q).1 = highwater_length q) by (unfold yank1; by destruct (find_from _ _ _ _)).
  destruct (yank1 f q) as [q' [p|]]; cbn [fst snd items abs] in *.
  - destruct Hs as (Hq' & l1 & l2 & -> & Hl1 & Hp & Hc). rewrite remove_first_split by done.
    cbn [fst snd]. destruct Hkeep as (K1 & K2 & K3). unfold abs, with_items. cbn.
    by rewrite Hc, K1, K2, K3.
  - destruct Hs as [-> Hf]. by rewrite remove_first_none by done.
Qed.

Lemma reset_simulates q : queue_ok q -> simulates q op_reset.
Proof.
  intros Hq. unfold simulates. cbn [run_op fifo_step]. unfold reset.
  destruct (pull_all q [] (S (length (cells q))) Hq) as (G1 & G2 & G3).
  { pose proof (length_contents q Hq). pose proof (qlen_range q Hq). destruct Hq. unfold vlen in *. lia. }
  assert (Hkeep : forall fuel q out, queue_ok q -> let q' := (reset_loop fuel q out).1 in
    capacity q' = capacity q /\ drops q' = drops q /\ highwater_length q' = highwater_length q).
  { clear. induction fuel as [|fuel IH]; intros q out Hq; [done|]. cbn [reset_loop]. unfold pull.
    pose proof (deq_spec q Hq) as (Hq' & Hc & _ & _). destruct (deq_keeps q) as [Hd Hw].
    destruct (deq q) as [q' [p|]]; cbn [fst snd] in *; [|done].
    destruct (IH q' (vpush out p) Hq') as (E1 & E2 & E3). cbv zeta. by rewrite E1, E2, E3. }
  destruct (Hkeep (S (length (cells q))) q [] Hq) as (K1 & K2 & K3).
  destruct (reset_loop _ _ _) as [q' out]. cbn [fst snd] in *. split; [done|].
  unfold abs, with_items. cbn. by rewrite K1, K2, K3, G2.
Qed.

Lemma op_simulates q op : queue_ok q -> op_ok (abs q) op = true -> simulates q op.
Proof.
  intros Hq Hok. destruct op; cbn [op_ok abs limit] in Hok; bprop.
  - by apply push_simulates.
  - by apply push_simulates.
  - by apply pull_simulates.
  - by apply lifo_simulates.
  - by apply yank1_simulates.
  - pose proof (yank_spec f q Hq) as Hs. unfold simulates. cbn [run_op fifo_step].
    destruct (yank f q) as [q' out]. destruct Hs as (Hq' & K1 & K2 & K3 & Hc & ->). cbn [fst snd].
    unfold abs, with_items. cbn. by rewrite K1, K2, K3, Hc.
  - by apply reset_simulates.
  - unfold simulates. cbn. rewrite <- queue_size_spec by done.
    split; [by destruct Hq|]. split; [|done]. unfold abs. cbn. f_equal.
  - pose proof (live_reconfigure_spec q new_capacity Hq ltac:(lia)) as Hs. unfold simulates. cbn [run_op fifo_step].
    assert (Hkeep : drops (live_reconfigure q new_capacity).1 = drops q
      /\ highwater_length (live_reconfigure q new_capacity).1 = highwater_length q).
    { unfold live_reconfigure. destruct (new_capacity =? capacity q); [done|]. by destruct (copy_cells _ _ _ _ _ _) as [[? ?] ?]. }
    destruct (live_reconfigure q new_capacity) as [q' killed]. cbn [fst snd] in *.
    destruct Hs as (Hq' & K1 & Hc & ->). destruct Hkeep as [K2 K3]. split; [done|].
    unfold abs. cbn. by rewrite K1, K2, K3, Hc.
Qed.

Lemma ops_simulate q ops :
  queue_ok q -> ops_ok (abs q) ops = true ->
  queue_ok (run_ops run_op q ops).1
  /\ abs (run_ops run_op q ops).1 = (run_ops fifo_step (abs q) ops).1
  /\ (run_ops run_op q ops).2 = (run_ops fifo_step (abs q) ops).2.
Proof.
  revert q. induction ops as [|op ops IH]; intros q Hq Hok; [done|].
  cbn [ops_ok] in Hok. bprop. destruct (op_simulates q op) as (Hq' & Ha & Ho); [done|done|].
  cbn [run_ops]. destruct (run_op q op) as [q' out]. destruct (fifo_step (abs q) op) as [s' out'].
  cbn [fst snd] in *. subst s' out'. destruct (IH q') as (G1 & G2 & G3); [done|done|].
  destruct (run_ops run_op q' ops) as [q'' outs]. destruct (run_ops fifo_step (abs q') ops) as [s'' outs'].
  cbn [fst snd] in *. by subst.
Qed.
End fifo.

Arguments fifo : clear implicits.
Arguments queue_op : clear implicits.

(** ** Properties *)


Definition sample_ops : list (queue_op Z) :=
  [op_push 1; op_push 2; op_push 3; op_pull; op_lifo 4; op_push 5;
   op_yank (fun x => x =? 2); op_reconfigure 1; op_yank1 (fun x => x =? 9); op_reset].


(** [Storage::size()], computed in 32-bit unsigned and signed arithmetic
    from the head and tail indices, is the number of packets in the queue for
    every capacity below 2^31 - 1, and never exceeds the capacity. *)
Theorem queue_size_correct {pkt : Type} `{Inhabited pkt} (q : SimpleQueue pkt) :
  queue_ok q -> queue_size q = vlen (contents q) /\ 0 <= queue_size q <= capacity q.
Proof.
  intros Hq. rewrite queue_size_spec, length_contents by done. split; [done|by apply qlen_range].
Qed.

Lemma queue_size_correct_witness :
  let q := (push (push (pull (push (new_queue (pkt := Z) 2) 1).1).1 2).1 3).1 in
  (head q = 1 /\ tail q = 0)
  /\ (queue_size q = vlen (contents q) /\ 0 <= queue_size q <= capacity q) /\ queue_size q = 2.
Proof.
  split; [done|]. split; [|done].
  apply (queue_size_correct (pkt := Z)). by constructor.
Defined.

(** When the router is reconfigured, a fresh queue takes over the packets of
    the old one in order, as many as its capacity allows; the rest are killed
    and the old queue is left empty, so no packet is in both or lost silently. *)
Theorem take_state_moves_packets {pkt : Type} `{Inhabited pkt} (q other : SimpleQueue pkt) :
  queue_ok q -> queue_ok other -> contents q = [] -> head q = 0 ->
  exists q' other' killed, take_state q other = Some (q', other', killed)
  /\ queue_ok q' /\ contents other = contents q' ++ killed
  /\ vlen (contents q') = Z.min (capacity q) (vlen (contents other)) /\ contents other' = [].
Proof.
  intros Hq Ho Hc Hh. pose proof (take_state_spec q other Hq Ho) as Hs. pose proof Hq as [Hcap _ _ _].
  destruct (take_state q other) as [[[q' other'] killed]|]; [|by destruct Hs].
  destruct Hs as (Hq' & _ & Hc' & -> & _ & Hoe). exists q', other', (drop (Z.to_nat (capacity q)) (contents other)).
  split; [done|]. split; [done|]. rewrite Hc'. split; [by rewrite take_drop|]. split; [|done].
  unfold vlen. rewrite length_take. lia.
Qed.

Lemma take_state_moves_packets_witness :
  let other := (push (push (push (new_queue (pkt := Z) 3) 7).1 8).1 9).1 in
  let q := new_queue (pkt := Z) 2 in
  (exists q' other' killed, take_state q other = Some (q', other', killed)
    /\ queue_ok q' /\ contents other = contents q' ++ killed
    /\ vlen (contents q') = Z.min (capacity q) (vlen (contents other)) /\ contents other' = [])
  /\ contents other = [7; 8; 9].
Proof.
  split; [|done]. apply (take_state_moves_packets (pkt := Z)); [by constructor|by constructor|done|done].
Defined.
