(* ===== verification/NoteQueue.v ===== *)
(** * Queues with notification

    [NotifierQueue], [FullNoteQueue] (the element named [Queue]),
    [QuickNoteQueue], [FrontDropQueue] and [MixedQueue] of elements/standard:
    a [SimpleQueue] with an ``empty'' signal that tells downstream tasks to
    sleep and, for the [FullNoteQueue] family, a ``full'' signal that tells
    upstream tasks to sleep.  A signal asleep while there is work is a stalled
    router: the invariant of this file excludes it. *)

From S2P Require Import Prelude Insn Queue QueueSpec.

(** ** Notifiers *)

(** An [ActiveNotifier]: its signal, and how often it rescheduled its listeners. *)
Record ActiveNotifier := mkNote { active : bool; reschedules : Z }.

Definition set_active (n : ActiveNotifier) (act schedule : bool) : ActiveNotifier :=
  mkNote act (if act && schedule && negb (active n) then reschedules n + 1 else reschedules n).

Definition wake (n : ActiveNotifier) : ActiveNotifier := set_active n true true.
Definition sleep (n : ActiveNotifier) : ActiveNotifier := set_active n false true.

Definition SLEEPINESS_TRIGGER : Z := 9.

Section note_queue.
Context {pkt : Type} `{Inhabited pkt}.

(** [HAVE_MULTITHREAD]: recheck the size after going to sleep. *)
Variable mt : bool.

(** The full signal exists in [FullNoteQueue] and its subclasses only; the
    other queues leave it alone. *)
Record NoteQueue := mkNQ {
  base : SimpleQueue pkt;
  sleepiness : Z;                (** [_sleepiness] *)
  empty_note : ActiveNotifier;   (** [_empty_note] *)
  full_note : ActiveNotifier     (** [_full_note] *)
}.

Definition new_note_queue (cap : Z) : NoteQueue :=
  mkNQ (new_queue cap) 0 (mkNote true 0) (set_active (mkNote true 0) true false).

Definition with_base (s : NoteQueue) (q : SimpleQueue pkt) : NoteQueue :=
  mkNQ q (sleepiness s) (empty_note s) (full_note s).
Definition with_empty (s : NoteQueue) (n : ActiveNotifier) : NoteQueue :=
  mkNQ (base s) (sleepiness s) n (full_note s).
Definition with_full (s : NoteQueue) (n : ActiveNotifier) : NoteQueue :=
  mkNQ (base s) (sleepiness s) (empty_note s) n.
Definition with_sleepiness (s : NoteQueue) (k : Z) : NoteQueue :=
  mkNQ (base s) k (empty_note s) (full_note s).

(** What every queue does with a packet that does not fit. *)
Definition overflow_events (q : SimpleQueue pkt) (p : pkt) : list (push_event pkt) :=
  (if (drops q =? 0) && (0 <? capacity q) then [overflow_message] else []) ++ [output_1 p].

Definition sleep_empty (s : NoteQueue) : NoteQueue :=
  let s := with_empty s (sleep (empty_note s)) in
  if mt && negb (queue_size (base s) =? 0) then with_empty s (wake (empty_note s)) else s.

(** ** [NotifierQueue] *)

Definition notifier_push (s : NoteQueue) (p : pkt) : NoteQueue * list (push_event pkt) :=
  match store (base s) p with
  | Some q' => let s := with_base s q' in (with_empty s (wake (empty_note s)), [])
  | None => (with_base s (count_drop (base s)), overflow_events (base s) p)
  end.

Definition notifier_pull (s : NoteQueue) : NoteQueue * option pkt :=
  let '(q', p) := deq (base s) in
  let s := with_base s q' in
  match p with
  | Some _ => (with_sleepiness s 0, p)
  | None =>
      if SLEEPINESS_TRIGGER <=? sleepiness s then (sleep_empty s, p)
      else (with_sleepiness s (sleepiness s + 1), p)
  end.

(** ** [FullNoteQueue] *)

Definition push_success (s : NoteQueue) (h t nt : Z) (p : pkt) : NoteQueue :=
  let q := base s in
  let sz := storage_size (capacity q) h nt in
  let q' := mkQueue (capacity q) (head q) nt (vset (cells q) t p) (drops q)
              (if highwater_length q <? sz then sz else highwater_length q) in
  let s := with_base s q' in
  let s := with_empty s (wake (empty_note s)) in
  if sz =? capacity q then
    let s := with_full s (sleep (full_note s)) in
    if mt && (queue_size (base s) <? capacity q) then with_full s (wake (full_note s)) else s
  else s.

Definition push_failure (s : NoteQueue) (p : pkt) : NoteQueue * list (push_event pkt) :=
  (with_base s (count_drop (base s)), overflow_events (base s) p).

Definition full_push (s : NoteQueue) (p : pkt) : NoteQueue * list (push_event pkt) :=
  let h := head (base s) in
  let t := tail (base s) in
  let nt := next_i (capacity (base s)) t in
  if negb (nt =? h) then (push_success s h t nt p, []) else push_failure s p.

Definition pull_success (s : NoteQueue) (h nh : Z) : NoteQueue * option pkt :=
  let p := vget (cells (base s)) h in
  let s := with_base s (set_head (base s) nh) in
  let s := with_sleepiness s 0 in
  (with_full s (wake (full_note s)), Some p).

Definition pull_failure (s : NoteQueue) : NoteQueue * option pkt :=
  if SLEEPINESS_TRIGGER <=? sleepiness s then (sleep_empty s, None)
  else (with_sleepiness s (sleepiness s + 1), None).

Definition full_pull (s : NoteQueue) : NoteQueue * option pkt :=
  let h := head (base s) in
  let t := tail (base s) in
  let nh := next_i (capacity (base s)) h in
  if negb (h =? t) then pull_success s h nh else pull_failure s.

Definition full_live_reconfigure (s : NoteQueue) (new_capacity : Z) : NoteQueue * list pkt :=
  let '(q', killed) := live_reconfigure (base s) new_capacity in
  let s := with_base s q' in
  (if queue_size q' <? capacity q' then with_full s (wake (full_note s)) else s, killed).

(** ** [QuickNoteQueue] *)

Definition quick_pull (s : NoteQueue) : NoteQueue * option pkt :=
  let h := head (base s) in
  let t := tail (base s) in
  let '(s, h, p) :=
    if negb (h =? t) then
      let h' := next_i (capacity (base s)) h in
      let s' := with_base s (set_head (base s) h') in
      (with_full s' (wake (full_note s')), h', Some (vget (cells (base s)) h))
    else (s, h, None) in
  (if h =? t then sleep_empty s else s, p).

(** ** [FrontDropQueue] *)

Definition bump_highwater (q : SimpleQueue pkt) : SimpleQueue pkt :=
  let sz := queue_size q in
  mkQueue (capacity q) (head q) (tail q) (cells q) (drops q)
    (if highwater_length q <? sz then sz else highwater_length q).

(** The end of [FrontDropQueue::push] and [MixedQueue::push]. *)
Definition after_insert (s : NoteQueue) : NoteQueue :=
  let s := with_base s (bump_highwater (base s)) in
  if (queue_size (base s) =? 1) && negb (active (empty_note s))
  then with_empty s (wake (empty_note s)) else s.

Definition front_push (s : NoteQueue) (p : pkt) : NoteQueue * list (push_event pkt) :=
  let q := base s in
  let t := tail q in
  let nt := next_i (capacity q) t in
  let '(q1, es) :=
    if nt =? head q
    then (set_head (count_drop q) (next_i (capacity q) nt), overflow_events q (vget (cells q) nt))
    else (q, []) in
  let q2 := mkQueue (capacity q1) (head q1) nt (vset (cells q1) t p) (drops q1) (highwater_length q1) in
  (after_insert (with_base s q2), es).

(** Copy packets from the tail backwards, to the cells below [j]. *)
Fixpoint copy_back (fuel : nat) (q : SimpleQueue pkt) (i j : Z) (c : list pkt) : list pkt * Z * Z :=
  match fuel with
  | O => (c, i, j)
  | S fuel' =>
      if negb (j =? 0) && negb (i =? head q)
      then let i := prev_i (capacity q) i in
           copy_back fuel' q i (j - 1) (vset c (j - 1) (vget (cells q) i))
      else (c, i, j)
  end.

(** The packets from [i] back to the head, which are killed. *)
Fixpoint back_from (fuel : nat) (q : SimpleQueue pkt) (i : Z) : list pkt :=
  match fuel with
  | O => []
  | S fuel' => if i =? head q then []
               else let i := prev_i (capacity q) i in vget (cells q) i :: back_from fuel' q i
  end.

Definition front_live_reconfigure (q : SimpleQueue pkt) (new_capacity : Z) : SimpleQueue pkt * list pkt :=
  if new_capacity =? capacity q then (q, [])
  else
    let '(c, i, j) := copy_back (length (cells q)) q (tail q) new_capacity (new_cells new_capacity) in
    (mkQueue new_capacity j new_capacity c (drops q) (highwater_length q),
     back_from (length (cells q)) q i).

Definition front_take_state (q other : SimpleQueue pkt)
    : option (SimpleQueue pkt * SimpleQueue pkt * list pkt) :=
  if negb (tail q =? head q) || negb (head q =? 0) then None
  else
    let '(c, j, i) := copy_back (length (cells other)) other (tail other) (capacity q) (cells q) in
    Some (mkQueue (capacity q) i (capacity q) c (drops q) (storage_size (capacity q) i (capacity q)),
          mkQueue (capacity other) 0 0 (cells other) (drops other) (highwater_length other),
          back_from (length (cells other)) other j).

(** ** [MixedQueue] *)

Definition mixed_push (s : NoteQueue) (port : Z) (p : pkt) : NoteQueue * list (push_event pkt) :=
  let q := base s in
  let h := head q in
  let t := tail q in
  let '(q1, es, oldp) :=
    if port =? 0 then
      let nt := next_i (capacity q) t in
      if nt =? h then (count_drop q, overflow_events q p, None)
      else (mkQueue (capacity q) h nt (vset (cells q) t p) (drops q) (highwater_length q), [], None)
    else
      let ph := prev_i (capacity q) h in
      let '(q0, es, oldp) :=
        if ph =? t then
          let t' := prev_i (capacity q) t in
          (mkQueue (capacity q) h t' (cells q) (i32 (drops q + 1)) (highwater_length q),
           if (drops q =? 0) && (0 <? capacity q) then [overflow_message] else [],
           Some (vget (cells q) t'))
        else (q, [], None) in
      (mkQueue (capacity q0) ph (tail q0) (vset (cells q0) ph p) (drops q0) (highwater_length q0),
       es, oldp) in
  let s := after_insert (with_base s q1) in
  (s, es ++ match oldp with Some o => [output_1 o] | None => [] end).
End note_queue.

Arguments NoteQueue : clear implicits.

(** ** Behaviour of [Queue] *)

Section behaviour.
Context {pkt : Type} `{Inhabited pkt} (mt : bool).
Implicit Types (s : NoteQueue pkt) (q : SimpleQueue pkt).

Lemma push_success_store s p :
  next_i (capacity (base s)) (tail (base s)) <> head (base s) ->
  store (base s) p
  = Some (base (push_success mt s (head (base s)) (tail (base s))
                  (next_i (capacity (base s)) (tail (base s))) p)).
Proof.
  intros Hne. unfold store, push_success. rewrite (proj2 (Z.eqb_neq _ _) Hne). cbn [negb]. f_equal.
  destruct (_ =? capacity (base s)); [|done]. by destruct (mt && _).
Qed.

(** [FullNoteQueue] stores and loses packets as [SimpleQueue] does. *)
Lemma full_push_base s p :
  base (full_push mt s p).1 = (push (base s) p).1 /\ (full_push mt s p).2 = (push (base s) p).2.
Proof.
  unfold full_push, push.
  destruct (Z.eqb_spec (next_i (capacity (base s)) (tail (base s))) (head (base s))) as [He|Hne];
    cbn [negb].
  - unfold store. by rewrite (proj2 (Z.eqb_eq _ _) He).
  - by rewrite (push_success_store s p Hne).
Qed.

Lemma sleep_empty_base s : base (sleep_empty mt s) = base s.
Proof. unfold sleep_empty. by case_match. Qed.

Lemma full_pull_base s :
  base (full_pull mt s).1 = (pull (base s)).1 /\ (full_pull mt s).2 = (pull (base s)).2.
Proof.
  unfold full_pull, pull, deq. destruct (negb _); [done|]. unfold pull_failure.
  case_match; [|done]. cbn [fst snd]. by rewrite sleep_empty_base.
Qed.

Lemma quick_pull_base s :
  base (quick_pull mt s).1 = (pull (base s)).1 /\ (quick_pull mt s).2 = (pull (base s)).2.
Proof.
  unfold quick_pull, pull, deq. destruct (negb _); cbn [fst snd];
    (case_match; [rewrite sleep_empty_base|]; done).
Qed.

(** ** No lost wake-up *)

(** A signal is asleep only when its side has nothing to do. *)
Record signals_ok s : Prop := {
  so_queue : queue_ok (base s);
  so_empty : active (empty_note s) = false -> contents (base s) = [];
  so_full : active (full_note s) = false -> vlen (contents (base s)) = capacity (base s)
}.

Lemma new_signals_ok cap : 0 <= cap < 2147483647 -> signals_ok (new_note_queue (pkt := pkt) cap).
Proof. intros Hc. destruct (new_queue_ok (pkt := pkt) cap Hc). by constructor. Qed.

Lemma full_push_signals s p : signals_ok s -> signals_ok (full_push mt s p).1.
Proof.
  intros [Hq He Hf]. unfold full_push. pose proof (store_spec (base s) p Hq) as Hs.
  destruct (Z.eqb_spec (next_i (capacity (base s)) (tail (base s))) (head (base s))) as [Heq|Hne];
    cbn [negb fst].
  { constructor; cbn; [by destruct Hq|done|done]. }
  rewrite (push_success_store s p Hne) in Hs. destruct Hs as (Hq' & Hcap & Hc & Hlt & _ & _).
  pose proof (queue_size_spec _ Hq') as Hsz. revert Hq' Hcap Hc Hsz. unfold push_success.
  destruct (Z.eqb_spec (storage_size (capacity (base s)) (head (base s))
    (next_i (capacity (base s)) (tail (base s)))) (capacity (base s))) as [Hfull|Hnf].
  - assert (Hpair : forall s1 s2 b, base s1 = base s2 -> base (if b : bool then s1 else s2) = base s2)
      by (by intros ? ? [] ?).
    destruct (mt && _); intros Hq' Hcap Hc Hsz; constructor; cbn in *; try done.
    intros _. rewrite <- Hsz. exact Hfull.
  - intros Hq' Hcap Hc Hsz. constructor; cbn in *; [done|done|]. intros Hfn. specialize (Hf Hfn). lia.
Qed.

Lemma sleep_empty_signals s :
  signals_ok s -> contents (base s) = [] -> signals_ok (sleep_empty mt s).
Proof. intros [Hq He Hf] Hc. unfold sleep_empty. by case_match; constructor. Qed.

Lemma deq_empty q : queue_ok q -> head q = tail q -> contents q = [].
Proof.
  intros Hq He. pose proof (deq_spec q Hq) as (_ & _ & Hp & _). unfold deq in Hp.
  rewrite He, Z.eqb_refl in Hp. by destruct (contents q).
Qed.

Lemma pull_success_signals s :
  signals_ok s -> head (base s) <> tail (base s) ->
  signals_ok (pull_success s (head (base s)) (next_i (capacity (base s)) (head (base s)))).1.
Proof.
  intros [Hq He Hf] Hne. pose proof (deq_spec (base s) Hq) as (Hq' & _ & Hp & Hc). unfold deq in *.
  rewrite (proj2 (Z.eqb_neq _ _) Hne) in *. cbn [negb fst snd] in *. constructor; cbn; [done| |done].
  intros Hen. rewrite Hc, (He Hen). done.
Qed.

Lemma full_pull_signals s : signals_ok s -> signals_ok (full_pull mt s).1.
Proof.
  intros Hs. unfold full_pull. destruct (Z.eqb_spec (head (base s)) (tail (base s))) as [Heq|Hne]; cbn [negb].
  - assert (contents (base s) = []) by (apply deq_empty; [apply Hs|done]). unfold pull_failure.
    case_match; cbn [fst]; [by apply sleep_empty_signals|]. by destruct Hs; constructor.
  - by apply pull_success_signals.
Qed.

Lemma quick_pull_signals s : signals_ok s -> signals_ok (quick_pull mt s).1.
Proof.
  intros Hs. unfold quick_pull.
  destruct (Z.eqb_spec (head (base s)) (tail (base s))) as [Heq|Hne]; cbn [negb fst].
  - rewrite Heq, Z.eqb_refl. apply sleep_empty_signals; [done|]. apply deq_empty; [apply Hs|done].
  - set (h' := next_i (capacity (base s)) (head (base s))).
    set (s1 := with_full (with_base s (set_head (base s) h')) (wake (full_note (with_base s (set_head (base s) h'))))).
    assert (Hs1 : signals_ok s1).
    { pose proof (pull_success_signals s Hs Hne) as [Hq1 He1 Hf1]. by constructor. }
    destruct (Z.eqb_spec h' (tail (base s))) as [Hlast|]; [|done].
    apply sleep_empty_signals; [done|]. apply deq_empty; [apply Hs1|done].
Qed.

Lemma full_reconfigure_signals s n :
  signals_ok s -> 0 <= n < 2147483647 -> signals_ok (full_live_reconfigure s n).1.
Proof.
  intros [Hq He Hf] Hn. unfold full_live_reconfigure.
  pose proof (live_reconfigure_spec (base s) n Hq Hn) as Hs.
  destruct (live_reconfigure (base s) n) as [q' killed]. destruct Hs as (Hq' & Hcap & Hc & _). cbn [fst].
  assert (Hen : active (empty_note s) = false -> contents q' = []).
  { intros Ha. rewrite Hc, (He Ha). apply take_nil. }
  pose proof (queue_size_spec q' Hq') as Hsz. pose proof (length_contents q' Hq').
  pose proof (qlen_range q' Hq').
  destruct (Z.ltb_spec (queue_size q') (capacity q')); constructor; cbn; try done. intros _. lia.
Qed.
End behaviour.

(** ** Insertion at a full queue *)

Section insertion.
Context {pkt : Type} `{Inhabited pkt} (mt : bool).
Implicit Types (s : NoteQueue pkt) (q : SimpleQueue pkt).

Lemma store_room q p :
  queue_ok q -> next_i (capacity q) (tail q) <> head q ->
  let q' := mkQueue (capacity q) (head q) (next_i (capacity q) (tail q)) (vset (cells q) (tail q) p)
              (drops q) (highwater_length q) in
  queue_ok q' /\ contents q' = contents q ++ [p] /\ vlen (contents q) < capacity q.
Proof.
  intros Hq Hne q'. pose proof (store_spec q p Hq) as Hs. unfold store in Hs.
  rewrite (proj2 (Z.eqb_neq _ _) Hne) in Hs. cbn [negb] in Hs. destruct Hs as (Hq' & _ & Hc & Hlt & _).
  split; [by destruct Hq'|]. split; [exact Hc|done].
Qed.

Lemma full_len q : queue_ok q -> next_i (capacity q) (tail q) = head q <-> vlen (contents q) = capacity q.
Proof. intros Hq. rewrite length_contents by done. by apply full_iff. Qed.

Lemma drop_front q :
  queue_ok q -> 0 < capacity q -> next_i (capacity q) (tail q) = head q ->
  let q' := set_head (count_drop q) (next_i (capacity q) (head q)) in
  queue_ok q' /\ contents q = vget (cells q) (head q) :: contents q'
  /\ next_i (capacity q') (tail q') <> head q'.
Proof.
  intros Hq Hcap Hfull q'. apply full_len in Hfull as Hlen; [|done].
  destruct (deq_spec q Hq) as (Hq' & _ & Hp & Hc). unfold deq in *.
  destruct (Z.eqb_spec (head q) (tail q)) as [He|Hne]; cbn [negb fst snd] in *.
  { destruct (contents q); [vlia|done]. }
  destruct (contents q) as [|x l] eqn:Ec; [vlia|]. injection Hp as Hp.
  assert (Hq2 : queue_ok q') by (by destruct Hq').
  assert (Hc2 : contents q' = l) by exact Hc.
  split; [done|]. split; [by rewrite Hc2, Hp|]. intros Hf2. apply full_len in Hf2; [|done].
  rewrite Hc2 in Hf2. change (capacity q') with (capacity q) in Hf2. vlia.
Qed.

Lemma after_insert_base s :
  queue_ok (base s) ->
  queue_ok (base (after_insert s)) /\ contents (base (after_insert s)) = contents (base s)
  /\ capacity (base (after_insert s)) = capacity (base s)
  /\ highwater_length (base (after_insert s))
     = Z.max (highwater_length (base s)) (vlen (contents (base s))).
Proof.
  intros Hq. assert (He : base (after_insert s) = bump_highwater (base s))
    by (unfold after_insert; by destruct (_ && _)).
  rewrite He. split; [by destruct Hq|]. split; [done|]. split; [done|].
  cbn [bump_highwater highwater_length]. rewrite queue_size_spec by done.
  destruct (Z.ltb_spec (highwater_length (base s)) (vlen (contents (base s)))); lia.
Qed.

Lemma after_insert_signal s p :
  queue_ok (base s) -> (active (empty_note s) = false -> contents (base s) = [p]) ->
  active (empty_note (after_insert s)) = true.
Proof.
  intros Hq Hinact. unfold after_insert.
  assert (Hb : queue_size (bump_highwater (base s)) = vlen (contents (base s)))
    by (rewrite <- queue_size_spec by done; done).
  cbn [with_base base empty_note]. rewrite Hb. destruct (active (empty_note s)) eqn:Ea.
  - cbn [negb]. by rewrite andb_false_r.
  - rewrite Hinact by done. done.
Qed.

Lemma overflow_packets q p : event_packets (overflow_events q p) = [p].
Proof. unfold overflow_events. by destruct (_ && _). Qed.

Lemma front_push_spec s p :
  queue_ok (base s) -> 0 < capacity (base s) ->
  let full := vlen (contents (base s)) =? capacity (base s) in
  let '(s', es) := front_push s p in
  queue_ok (base s') /\ capacity (base s') = capacity (base s)
  /\ contents (base s') = (if full then tl (contents (base s)) else contents (base s)) ++ [p]
  /\ event_packets es = (if full then take 1 (contents (base s)) else [])
  /\ ((active (empty_note s) = false -> contents (base s) = []) -> active (empty_note s') = true).
Proof.
  intros Hq Hcap. cbv zeta. unfold front_push.
  destruct (Z.eqb_spec (next_i (capacity (base s)) (tail (base s))) (head (base s))) as [Hf|Hnf].
  - pose proof (proj1 (full_len _ Hq) Hf) as Hlen. rewrite Hlen, Z.eqb_refl.
    destruct (drop_front (base s) Hq Hcap Hf) as (Hq1 & Hc1 & Hroom).
    destruct (store_room _ p Hq1 Hroom) as (Hq2 & Hc2 & _). cbn in Hq2, Hc2. rewrite <- Hf in Hq2, Hc2, Hc1.
    set (q2 := mkQueue _ _ _ _ _ _) in *.
    destruct (after_insert_base (with_base s q2) Hq2) as (G1 & G2 & G3 & _).
    split; [done|]. split; [done|]. rewrite G2, Hc1. cbn [with_base base tl take].
    split; [by rewrite Hc2|]. split; [by rewrite overflow_packets, Hf|].
    intros Hi. apply (after_insert_signal (with_base s q2) p Hq2). intros Ha.
    by specialize (Hi Ha).
  - pose proof (not_iff_compat (full_len _ Hq)) as Hlen. rewrite (proj2 (Z.eqb_neq _ _)) by tauto.
    destruct (store_room _ p Hq Hnf) as (Hq2 & Hc2 & _). set (q2 := mkQueue _ _ _ _ _ _) in *.
    destruct (after_insert_base (with_base s q2) Hq2) as (G1 & G2 & G3 & _).
    split; [done|]. split; [done|]. split; [by rewrite G2|]. split; [done|].
    intros Hi. apply (after_insert_signal (with_base s q2) p Hq2). intros Ha. cbn.
    by rewrite Hc2, (Hi Ha).
Qed.

Lemma mixed_push_spec s port p :
  queue_ok (base s) -> 0 < capacity (base s) ->
  let full := vlen (contents (base s)) =? capacity (base s) in
  let '(s', es) := mixed_push s port p in
  queue_ok (base s') /\ capacity (base s') = capacity (base s)
  /\ contents (base s') = (if port =? 0 then if full then contents (base s) else contents (base s) ++ [p]
                           else p :: take (Z.to_nat (capacity (base s) - 1)) (contents (base s)))
  /\ event_packets es = (if full then if port =? 0 then [p] else option_list (last (contents (base s))) else [])
  /\ ((active (empty_note s) = false -> contents (base s) = []) ->
      active (empty_note s') = false -> contents (base s') = []).
Proof.
  intros Hq Hcap. cbv zeta. unfold mixed_push. destruct (port =? 0).
  - destruct (Z.eqb_spec (next_i (capacity (base s)) (tail (base s))) (head (base s))) as [Hf|Hnf].
    + pose proof (proj1 (full_len _ Hq) Hf) as Hlen. rewrite Hlen, Z.eqb_refl.
      assert (Hq2 : queue_ok (count_drop (base s))) by (by destruct Hq).
      destruct (after_insert_base (with_base s (count_drop (base s))) Hq2) as (G1 & G2 & G3 & _).
      split; [done|]. split; [done|]. split; [by rewrite G2|]. rewrite app_nil_r.
      split; [by rewrite overflow_packets|]. intros Hi Ha. rewrite G2. apply Hi. revert Ha.
      unfold after_insert. by destruct (_ && _).
    + pose proof (not_iff_compat (full_len _ Hq)) as Hlen. rewrite (proj2 (Z.eqb_neq _ _)) by tauto.
      destruct (store_room _ p Hq Hnf) as (Hq2 & Hc2 & _). set (q2 := mkQueue _ _ _ _ _ _) in *.
      destruct (after_insert_base (with_base s q2) Hq2) as (G1 & G2 & G3 & _).
      split; [done|]. split; [done|]. split; [by rewrite G2|]. split; [done|].
      intros Hi. rewrite (after_insert_signal (with_base s q2) p Hq2); [done|]. intros Ha. cbn.
      by rewrite Hc2, (Hi Ha).
  - pose proof (lifo_enq_spec (base s) p Hq Hcap) as Hl. unfold lifo_enq in Hl.
    assert (Hsig : forall q2, queue_ok q2 ->
      contents q2 = p :: take (Z.to_nat (capacity (base s) - 1)) (contents (base s)) ->
      (active (empty_note s) = false -> contents (base s) = []) ->
      active (empty_note (after_insert (with_base s q2))) = true).
    { intros q2 Hq2 Hc2 Hi. apply (after_insert_signal (with_base s q2) p Hq2).
      intros Ha. cbn. by rewrite Hc2, (Hi Ha), take_nil. }
    destruct (prev_i (capacity (base s)) (head (base s)) =? tail (base s)).
    + destruct Hl as (Hq1 & Hc1 & Hk). destruct (vlen (contents (base s)) =? capacity (base s)); [|done].
      set (q2 := mkQueue _ (prev_i _ _) _ _ _ _). assert (Hq2 : queue_ok q2) by (by destruct Hq1).
      destruct (after_insert_base (with_base s q2) Hq2) as (G1 & G2 & G3 & _).
      split; [done|]. split; [done|]. split; [rewrite G2; exact Hc1|]. split.
      * rewrite <- Hk. by destruct (_ && _).
      * intros Hi. by rewrite Hsig.
    + destruct Hl as (Hq1 & Hc1 & Hk).
      assert (Hnf : (vlen (contents (base s)) =? capacity (base s)) = false).
      { destruct (Z.eqb_spec (vlen (contents (base s))) (capacity (base s))) as [He|]; [|done].
        symmetry in Hk. apply last_None in Hk. rewrite Hk, vlen_nil in He. lia. }
      rewrite Hnf. set (q2 := mkQueue _ (prev_i _ _) _ _ _ _) in *.
      destruct (after_insert_base (with_base s q2) Hq1) as (G1 & G2 & G3 & _).
      split; [done|]. split; [done|]. split; [by rewrite G2|]. split; [done|].
      intros Hi. by rewrite Hsig.
Qed.
End insertion.
