(* ===== verification/NoteQueueSpec.v ===== *)
(** * What the notifying queues promise

    The queue classes differ in which [push], [pull] and [live_reconfigure] they
    override.  [note_step] is the dispatch; the theorems are about arbitrary
    sequences of calls on a queue of any class. *)

From S2P Require Import Prelude Insn Queue QueueSpec NoteQueue.

(** ** Copying from the tail *)

Section back.
Context {pkt : Type} `{Inhabited pkt}.
Implicit Types (q : SimpleQueue pkt) (c l : list pkt).

Lemma back_from_spec q k fuel :
  queue_ok q -> 0 <= k <= qlen q -> k < Z.of_nat fuel ->
  back_from fuel q (pos (capacity q) (head q) k) = rev (take (Z.to_nat k) (contents q)).
Proof.
  intros Hq. pose proof (qlen_range q Hq). pose proof Hq as [Hc Hh _ _].
  pose proof (length_contents q Hq) as Hlc. revert k. induction fuel as [|fuel IH]; intros k Hk Hf; [lia|].
  cbn [back_from]. destruct (Z.eqb_spec (pos (capacity q) (head q) k) (head q)) as [He|Hne].
  - assert (k = 0) as ->; [|done].
    rewrite <- (pos_0 (capacity q) (head q)) in He at 2 by done. apply pos_inj in He; lia.
  - assert (k <> 0) by (intros ->; by rewrite pos_0 in Hne).
    rewrite prev_pos by lia. rewrite IH by lia. rewrite <- vget_contents by (done || lia).
    replace (Z.to_nat k) with (S (Z.to_nat (k - 1))) by lia.
    rewrite (take_S_r _ _ (vget (contents q) (k - 1))) by (apply vget_some; lia).
    by rewrite rev_app_distr.
Qed.

Lemma copy_back_spec q k j c fuel :
  queue_ok q -> 0 <= k <= qlen q -> 0 <= j <= vlen c -> k < Z.of_nat fuel ->
  let m := Z.min k j in
  exists c', copy_back fuel q (pos (capacity q) (head q) k) j c
    = (c', pos (capacity q) (head q) (k - m), j - m)
  /\ vlen c' = vlen c
  /\ (forall t, 0 <= t < m -> vget c' (j - m + t) = vget (contents q) (k - m + t))
  /\ (forall t, j <= t -> vget c' t = vget c t).
Proof.
  intros Hq. pose proof (qlen_range q Hq). pose proof Hq as [Hc Hh _ _].
  revert k j c. induction fuel as [|fuel IH]; intros k j c Hk Hj Hf m; [lia|].
  assert (Hstop : m = 0 -> exists c', (c, pos (capacity q) (head q) k, j)
    = (c', pos (capacity q) (head q) (k - m), j - m) /\ vlen c' = vlen c
    /\ (forall t, 0 <= t < m -> vget c' (j - m + t) = vget (contents q) (k - m + t))
    /\ (forall t, j <= t -> vget c' t = vget c t)).
  { intros Hm. rewrite Hm. exists c. rewrite !Z.sub_0_r. split; [done|]. split; [done|]. split; [intros; lia|done]. }
  cbn [copy_back]. destruct (Z.eqb_spec j 0) as [->|Hj0]; cbn [negb andb]; [apply Hstop; lia|].
  destruct (Z.eqb_spec (pos (capacity q) (head q) k) (head q)) as [He|Hne]; cbn [negb].
  { apply Hstop. rewrite <- (pos_0 (capacity q) (head q)) in He at 2 by done. apply pos_inj in He; lia. }
  assert (k <> 0) by (intros ->; by rewrite pos_0 in Hne). rewrite prev_pos by lia.
  rewrite <- vget_contents by (done || lia).
  destruct (IH (k - 1) (j - 1) (vset c (j - 1) (vget (contents q) (k - 1)))) as (c' & G1 & G2 & G3 & G4);
    [lia|rewrite vlen_vset; lia|lia|].
  cbv zeta in G1, G3. replace (Z.min (k - 1) (j - 1)) with (m - 1) in G1, G3 by lia.
  exists c'. split; [rewrite G1; f_equal; [f_equal; f_equal|]; lia|].
  rewrite vlen_vset in G2. split; [done|]. split.
  - intros t Ht. replace (j - m + t) with (j - 1 - (m - 1) + t) by lia.
    replace (k - m + t) with (k - 1 - (m - 1) + t) by lia.
    destruct (decide (t = m - 1)) as [->|]; [|apply G3; lia].
    replace (j - 1 - (m - 1) + (m - 1)) with (j - 1) by lia. rewrite G4 by lia.
    rewrite vget_vset_eq by lia. f_equal. lia.
  - intros t Ht. rewrite G4 by lia. apply vget_vset_ne; lia.
Qed.

(** A queue that occupies cells [h] to [t] without wrapping. *)
Lemma flat_queue cap h t c d hw l :
  0 <= cap < 2147483647 -> 0 <= h <= t -> t <= cap -> vlen c = cap + 1 -> vlen l = t - h ->
  (forall k, 0 <= k < t - h -> vget c (h + k) = vget l k) ->
  queue_ok (mkQueue cap h t c d hw) /\ contents (mkQueue cap h t c d hw) = l.
Proof.
  intros Hc Hh Ht Hl Hn Hg. set (q := mkQueue cap h t c d hw).
  assert (Hq : queue_ok q) by (constructor; simpl; lia). split; [done|].
  assert (Hlen : qlen q = t - h) by (unfold qlen; simpl; apply Z.mod_small; lia).
  apply contents_eq; [done|lia|]. rewrite Hlen. intros i Hi. simpl. unfold pos.
  rewrite Z.mod_small by lia. by apply Hg.
Qed.

Lemma front_copy q cap c d hw fuel :
  queue_ok q -> 0 <= cap < 2147483647 -> vlen c = cap + 1 -> qlen q < Z.of_nat fuel ->
  exists c' i j, copy_back fuel q (tail q) cap c = (c', i, j)
  /\ queue_ok (mkQueue cap j cap c' d hw)
  /\ contents (mkQueue cap j cap c' d hw) = drop (Z.to_nat (qlen q - cap)) (contents q)
  /\ back_from fuel q i = rev (take (Z.to_nat (qlen q - cap)) (contents q)).
Proof.
  intros Hq Hcap Hl Hf. pose proof (qlen_range q Hq). pose proof (length_contents q Hq) as Hlc.
  destruct (copy_back_spec q (qlen q) cap c fuel Hq ltac:(lia) ltac:(lia) ltac:(lia)) as (c' & G1 & G2 & G3 & _).
  rewrite <- tail_pos in G1 by done. cbv zeta in *. set (m := Z.min (qlen q) cap) in *.
  assert (Hm : Z.to_nat (qlen q - cap) = Z.to_nat (qlen q - m)) by lia. rewrite Hm.
  eexists c', _, _. split; [exact G1|].
  destruct (flat_queue cap (cap - m) cap c' d hw (drop (Z.to_nat (qlen q - m)) (contents q)))
    as [F1 F2]; try lia.
  - unfold vlen in *. rewrite length_drop. lia.
  - intros k Hk. rewrite G3 by lia. symmetry. apply vget_lookup; [lia|]. rewrite lookup_drop.
    replace (Z.to_nat (qlen q - m) + Z.to_nat k)%nat with (Z.to_nat (qlen q - m + k)) by lia.
    apply vget_some. lia.
  - split; [done|]. split; [done|]. apply back_from_spec; [done|lia|lia].
Qed.

Lemma front_live_reconfigure_spec q n :
  queue_ok q -> 0 <= n < 2147483647 ->
  let '(q', killed) := front_live_reconfigure q n in
  let lost := Z.to_nat (vlen (contents q) - n) in
  queue_ok q' /\ capacity q' = n /\ contents q' = drop lost (contents q)
  /\ killed = rev (take lost (contents q)).
Proof.
  intros Hq Hn. pose proof (qlen_range q Hq). pose proof (length_contents q Hq) as Hlc.
  unfold front_live_reconfigure. rewrite Hlc. destruct (Z.eqb_spec n (capacity q)) as [->|Hne].
  { replace (Z.to_nat (qlen q - capacity q)) with 0%nat by lia. by rewrite take_0, drop_0. }
  destruct (front_copy q n (new_cells n) (drops q) (highwater_length q) (length (cells q)))
    as (c' & i & j & -> & G1 & G2 & G3); try done.
  - unfold new_cells. rewrite vlen_replicate. lia.
  - destruct Hq. unfold vlen in *. lia.
Qed.

Lemma front_take_state_spec q other :
  queue_ok q -> queue_ok other -> contents q = [] -> head q = 0 ->
  exists q' other' killed, front_take_state q other = Some (q', other', killed)
  /\ let lost := Z.to_nat (vlen (contents other) - capacity q) in
     queue_ok q' /\ contents q' = drop lost (contents other) /\ contents other' = []
     /\ killed = rev (take lost (contents other))
     /\ highwater_length q' = vlen (contents q').
Proof.
  intros Hq Ho Hc Hh. unfold front_take_state. pose proof Ho as [Hoc _ _ Hocl]. pose proof Hq as [Hqc _ _ Hcl].
  pose proof (qlen_range other Ho). rewrite (length_contents other Ho).
  assert (Ht : tail q = head q).
  { rewrite (tail_pos q Hq), <- (length_contents q Hq), Hc. apply pos_0. apply Hq. }
  rewrite Ht, Z.eqb_refl, Hh. cbn [negb orb Z.eqb].
  destruct (front_copy other (capacity q) (cells q) (drops q) 0 (length (cells other)))
    as (c' & i & j & -> & G1 & G2 & G3); try done.
  { unfold vlen in *. lia. }
  eexists _, _, _. split; [done|]. cbv zeta. split; [by destruct G1|]. split; [exact G2|].
  split; [unfold contents, qlen; cbn; by rewrite Z.mod_0_l by lia|]. split; [done|].
  exact (queue_size_spec _ G1).
Qed.
End back.

(** ** Dispatch on the class of a queue *)

Inductive queue_class := NotifierQueue_c | FullNoteQueue_c | QuickNoteQueue_c | FrontDropQueue_c | MixedQueue_c.

Section dispatch.
Context {pkt : Type} `{Inhabited pkt} (mt : bool).

(** What a queue is asked to do: by its neighbours, by [live_reconfigure] and by the
    write handlers [reset] and [reset_counts]. *)
Inductive note_op := n_push (port : Z) (p : pkt) | n_pull | n_reconfigure (new_capacity : Z) | n_reset | n_reset_counts.

Definition class_push (c : queue_class) (s : NoteQueue pkt) (port : Z) (p : pkt)
    : NoteQueue pkt * list (push_event pkt) :=
  match c with
  | NotifierQueue_c => notifier_push s p
  | FullNoteQueue_c | QuickNoteQueue_c => full_push mt s p
  | FrontDropQueue_c => front_push s p
  | MixedQueue_c => mixed_push s port p
  end.

Definition class_pull (c : queue_class) (s : NoteQueue pkt) : NoteQueue pkt * option pkt :=
  match c with
  | NotifierQueue_c | FrontDropQueue_c | MixedQueue_c => notifier_pull mt s
  | FullNoteQueue_c => full_pull mt s
  | QuickNoteQueue_c => quick_pull mt s
  end.

Definition class_reconfigure (c : queue_class) (s : NoteQueue pkt) (n : Z) : NoteQueue pkt * list pkt :=
  match c with
  | NotifierQueue_c | MixedQueue_c => let '(q', killed) := live_reconfigure (base s) n in (with_base s q', killed)
  | FullNoteQueue_c | QuickNoteQueue_c => full_live_reconfigure s n
  | FrontDropQueue_c => let '(q', killed) := front_live_reconfigure (base s) n in (with_base s q', killed)
  end.

(** [SimpleQueue::reset] calls [pull], which is virtual: the pull of the class. *)
Fixpoint class_reset_loop (fuel : nat) (c : queue_class) (s : NoteQueue pkt) (out : list pkt) : NoteQueue pkt * list pkt :=
  match fuel with
  | O => (s, out)
  | S fuel' =>
      match class_pull c s with
      | (s', Some p) => class_reset_loop fuel' c s' (vpush out p)
      | (s', None) => (s', out)
      end
  end.

Definition class_reset (c : queue_class) (s : NoteQueue pkt) : NoteQueue pkt * list pkt :=
  class_reset_loop (S (length (cells (base s)))) c s [].

Definition note_step (c : queue_class) (s : NoteQueue pkt) (op : note_op) : NoteQueue pkt :=
  match op with
  | n_push port p => (class_push c s port p).1
  | n_pull => (class_pull c s).1
  | n_reconfigure n => (class_reconfigure c s n).1
  | n_reset => (class_reset c s).1
  | n_reset_counts => with_base s (reset_counts (base s))
  end.

Definition note_op_ok (op : note_op) : bool :=
  match op with n_reconfigure n => (0 <? n) && (n <? 2147483647) | _ => true end.

(** Only the [FullNoteQueue] family maintains the full signal. *)
Definition has_full_note (c : queue_class) : bool :=
  match c with FullNoteQueue_c | QuickNoteQueue_c => true | _ => false end.

Record class_inv (c : queue_class) (s : NoteQueue pkt) : Prop := {
  ci_queue : queue_ok (base s);
  ci_capacity : 0 < capacity (base s);
  ci_empty : active (empty_note s) = false -> contents (base s) = [];
  ci_full : has_full_note c = true -> active (full_note s) = false ->
            vlen (contents (base s)) = capacity (base s)
}.

Lemma class_signals c s : class_inv c s -> has_full_note c = true -> signals_ok s.
Proof. intros [] Hc. constructor; auto. Qed.

Lemma signals_class c s : signals_ok s -> 0 < capacity (base s) -> class_inv c s.
Proof. intros [] Hc. constructor; auto. Qed.

Lemma full_push_capacity (s : NoteQueue pkt) p : queue_ok (base s) -> capacity (base (full_push mt s p).1) = capacity (base s).
Proof.
  intros Hq. rewrite (proj1 (full_push_base mt s p)). unfold push. pose proof (store_spec (base s) p Hq) as Hs.
  destruct (store (base s) p); [by destruct Hs as (_ & Hc & _)|done].
Qed.

Lemma push_class_inv c s port p : class_inv c s -> class_inv c (class_push c s port p).1.
Proof.
  intros Hi. pose proof Hi as [Hq Hcap He Hf]. destruct c; cbn [class_push].
  - unfold notifier_push. pose proof (store_spec (base s) p Hq) as Hs.
    destruct (store (base s) p) as [q'|]; constructor; cbn; try done.
    + apply Hs.
    + by destruct Hs as (_ & -> & _).
    + by destruct Hq.
  - apply signals_class; [apply full_push_signals; by eapply class_signals|by rewrite full_push_capacity].
  - apply signals_class; [apply full_push_signals; by eapply class_signals|by rewrite full_push_capacity].
  - pose proof (front_push_spec s p Hq Hcap) as Hs. destruct (front_push s p) as [s' es].
    destruct Hs as (G1 & G2 & _ & _ & G3). constructor; cbn; [done|lia| |done]. intros Ha.
    rewrite (G3 He) in Ha. done.
  - pose proof (mixed_push_spec s port p Hq Hcap) as Hs. destruct (mixed_push s port p) as [s' es].
    destruct Hs as (G1 & G2 & _ & _ & G3). constructor; cbn; [done|lia|auto|done].
Qed.

Lemma pull_class_inv c s : class_inv c s -> class_inv c (class_pull c s).1.
Proof.
  intros Hi. pose proof Hi as [Hq Hcap He Hf]. pose proof (deq_spec (base s) Hq) as (D1 & D2 & D3 & D4).
  assert (Hnote : has_full_note c = false -> class_inv c (notifier_pull mt s).1).
  { intros Hc. unfold notifier_pull. destruct (deq (base s)) as [q' [p|]]; cbn [fst snd] in *.
    - constructor; cbn; [done|lia| |congruence]. intros Ha. by rewrite D4, (He Ha).
    - assert (Hnil : contents q' = []) by (rewrite D4; by destruct (contents (base s))).
      destruct (_ <=? _); cbn [fst]; [|constructor; cbn; [done|lia|done|congruence]].
      unfold sleep_empty. destruct (mt && _); constructor; cbn; try done; try lia; congruence. }
  destruct c; cbn [class_pull]; try by apply Hnote.
  - apply signals_class; [apply full_pull_signals; by eapply class_signals|].
    rewrite (proj1 (full_pull_base mt s)). unfold pull. lia.
  - apply signals_class; [apply quick_pull_signals; by eapply class_signals|].
    rewrite (proj1 (quick_pull_base mt s)). unfold pull. lia.
Qed.

Lemma reconfigure_class_inv c s n :
  0 < n < 2147483647 -> class_inv c s -> class_inv c (class_reconfigure c s n).1.
Proof.
  intros Hn Hi. pose proof Hi as [Hq Hcap He Hf].
  assert (Hplain : has_full_note c = false -> class_inv c
    (let '(q', killed) := live_reconfigure (base s) n in (with_base s q', killed)).1).
  { intros Hc. pose proof (live_reconfigure_spec (base s) n Hq ltac:(lia)) as Hs.
    destruct (live_reconfigure (base s) n) as [q' killed]. destruct Hs as (G1 & G2 & G3 & _).
    constructor; cbn; [done|lia| |congruence]. intros Ha. by rewrite G3, (He Ha), take_nil. }
  assert (Hfull : has_full_note c = true -> class_inv c (full_live_reconfigure s n).1).
  { intros Hc. apply signals_class.
    - apply full_reconfigure_signals; [by eapply class_signals|lia].
    - pose proof (live_reconfigure_spec (base s) n Hq ltac:(lia)) as Hs. unfold full_live_reconfigure.
      destruct (live_reconfigure (base s) n) as [q' killed]. destruct Hs as (_ & G2 & _).
      cbn [fst]. destruct (_ <? _); cbn; lia. }
  destruct c; cbn [class_reconfigure]; auto.
  pose proof (front_live_reconfigure_spec (base s) n Hq ltac:(lia)) as Hs.
  destruct (front_live_reconfigure (base s) n) as [q' killed]. destruct Hs as (G1 & G2 & G3 & _).
  constructor; cbn; [done|lia| |done]. intros Ha. by rewrite G3, (He Ha), drop_nil.
Qed.

Lemma class_pull_base c s : base (class_pull c s).1 = (pull (base s)).1 /\ (class_pull c s).2 = (pull (base s)).2.
Proof.
  assert (Hn : base (notifier_pull mt s).1 = (pull (base s)).1 /\ (notifier_pull mt s).2 = (pull (base s)).2).
  { unfold notifier_pull, pull. destruct (deq (base s)) as [q' [p|]]; [done|]. case_match; [|done]. cbn [fst snd]. by rewrite sleep_empty_base. }
  destruct c; cbn [class_pull]; [exact Hn|apply full_pull_base|apply quick_pull_base|exact Hn|exact Hn].
Qed.

Lemma class_reset_loop_base fuel c s out :
  base (class_reset_loop fuel c s out).1 = (reset_loop fuel (base s) out).1
  /\ (class_reset_loop fuel c s out).2 = (reset_loop fuel (base s) out).2.
Proof.
  revert s out. induction fuel as [|fuel IH]; intros s out; [done|]. cbn [class_reset_loop reset_loop].
  destruct (class_pull_base c s) as [Hb Hp]. destruct (class_pull c s) as [s' o], (pull (base s)) as [q' o']. cbn [fst snd] in *. subst.
  destruct o' as [p|]; [apply IH|done].
Qed.

(** The loop of [reset] ends with the queue empty and its packets out, in order. *)
Lemma class_reset_empties c s : queue_ok (base s) -> contents (base (class_reset c s).1) = [] /\ (class_reset c s).2 = contents (base s).
Proof.
  intros Hq. unfold class_reset. destruct (class_reset_loop_base (S (length (cells (base s)))) c s []) as [-> ->].
  pose proof (length_contents (base s) Hq). pose proof (qlen_range (base s) Hq). pose proof Hq as [_ _ _ Hc].
  destruct (pull_all (base s) [] (S (length (cells (base s)))) Hq) as (_ & G1 & G2); [|done]. unfold vlen in *. lia.
Qed.

Lemma reset_class_inv c s : class_inv c s -> class_inv c (class_reset c s).1.
Proof.
  unfold class_reset. generalize (S (length (cells (base s)))) as fuel. intros fuel. generalize (@nil pkt) as out. revert s.
  induction fuel as [|fuel IH]; intros s out Hi; [done|]. cbn [class_reset_loop]. apply pull_class_inv in Hi.
  destruct (class_pull c s) as [s' [p|]]; [by apply IH|done].
Qed.

Lemma reset_counts_class_inv c s : class_inv c s -> class_inv c (with_base s (reset_counts (base s))).
Proof. intros [Hq Hcap He Hf]. constructor; cbn; [by destruct Hq|done|done|done]. Qed.

Lemma note_steps_inv c s ops :
  class_inv c s -> forallb note_op_ok ops = true -> class_inv c (fold_left (note_step c) ops s).
Proof.
  revert s. induction ops as [|op ops IH]; intros s Hi Hok; [done|]. cbn [forallb fold_left] in *. bprop.
  apply IH; [|done]. destruct op; cbn [note_step note_op_ok] in *.
  - by apply push_class_inv.
  - by apply pull_class_inv.
  - apply reconfigure_class_inv; [bprop; lia|done].
  - by apply reset_class_inv.
  - by apply reset_counts_class_inv.
Qed.
End dispatch.

Arguments note_op : clear implicits.

(** ** Properties *)

(** C28. No wake-up is lost: after any sequence of pushes, pulls, changes to a positive
    capacity by [live_reconfigure], and writes to the handlers [reset] and
    [reset_counts], on a [NotifierQueue], [FullNoteQueue], [QuickNoteQueue],
    [FrontDropQueue] or [MixedQueue], a non-empty queue has its ``empty'' signal
    active, so downstream pulls from it; and a [FullNoteQueue] or [QuickNoteQueue],
    the two classes that have a ``full'' signal, has it active when it has room, so
    upstream pushes to it.  The functions [yank] and [yank1], which other elements may
    call, are not among these operations: they take packets without waking anybody
    ([yank_wakes_nobody]). *)
Theorem no_lost_wakeup {pkt : Type} `{Inhabited pkt} (mt : bool) (c : queue_class) (cap : Z)
    (ops : list (note_op pkt)) :
  0 < cap < 2147483647 -> forallb note_op_ok ops = true ->
  let s := fold_left (note_step mt c) ops (new_note_queue cap) in
  queue_ok (base s)
  /\ (contents (base s) <> [] -> active (empty_note s) = true)
  /\ (has_full_note c = true -> vlen (contents (base s)) < capacity (base s) -> active (full_note s) = true).
Proof.
  intros Hcap Hok s. destruct (note_steps_inv mt c (new_note_queue cap) ops) as [G1 G2 G3 G4]; [|done|].
  { apply signals_class; [apply new_signals_ok; lia|cbn; lia]. }
  fold s in G1, G2, G3, G4. split; [done|]. split.
  - intros Hne. destruct (active (empty_note s)); [done|]. by rewrite G3 in Hne.
  - intros Hc Hlt. destruct (active (full_note s)); [done|]. rewrite (G4 Hc) in Hlt by done. lia.
Qed.

Lemma no_lost_wakeup_witness :
  let ops := [n_push 0 1; n_push 0 2; n_reset; n_pull; n_pull; n_reset_counts; n_reconfigure 1; n_push 0 3] in
  let s := fold_left (note_step false QuickNoteQueue_c) ops (new_note_queue 2) in
  (queue_ok (base s)
   /\ (contents (base s) <> [] -> active (empty_note s) = true)
   /\ (has_full_note QuickNoteQueue_c = true -> vlen (contents (base s)) < capacity (base s) ->
       active (full_note s) = true))
  /\ active (empty_note s) = true /\ active (full_note s) = false /\ reschedules (empty_note s) = 1.
Proof.
  split; [|vm_compute; done].
  apply (no_lost_wakeup (pkt := Z) false QuickNoteQueue_c 2); [lia|vm_compute; reflexivity].
Defined.

(** [reset] on a full [Queue]: the packets go out and the full signal wakes, since
    [pull] is virtual, although the header file says that [reset] does no
    notification. *)
Example reset_notifies :
  let s := fold_left (note_step false FullNoteQueue_c) [n_push 0 1; n_push 0 2] (new_note_queue 2) in
  active (full_note s) = false
  /\ (class_reset false FullNoteQueue_c s).2 = [1; 2] /\ active (full_note (class_reset false FullNoteQueue_c s).1) = true.
Proof. vm_compute. done. Qed.

(** [yank] leaves the full signal asleep. *)
Example yank_wakes_nobody :
  let s := fold_left (note_step false FullNoteQueue_c) [n_push 0 1; n_push 0 2] (new_note_queue 2) in
  let s' := with_base s (yank (fun _ => true) (base s)).1 in
  contents (base s') = [] /\ active (full_note s') = false.
Proof. vm_compute. done. Qed.

(** ** The front-drop queue *)

Section front.
Context {pkt : Type} `{Inhabited pkt}.

(** Push packets in order; the packets sent to output 1, in order. *)
Fixpoint front_pushes (s : NoteQueue pkt) (l : list pkt) : NoteQueue pkt * list pkt :=
  match l with
  | [] => (s, [])
  | p :: l' => let '(s', es) := front_push s p in
               let '(s'', out) := front_pushes s' l' in (s'', event_packets es ++ out)
  end.

Lemma front_pushes_spec s l :
  queue_ok (base s) -> 0 < capacity (base s) ->
  let all := contents (base s) ++ l in
  let lost := Z.to_nat (vlen all - capacity (base s)) in
  let '(s', out) := front_pushes s l in
  queue_ok (base s') /\ contents (base s') = drop lost all /\ out = take lost all.
Proof.
  revert s. induction l as [|p l IH]; intros s Hq Hcap; cbv zeta.
  - pose proof (qlen_range _ Hq). pose proof (length_contents _ Hq). cbn [front_pushes].
    rewrite app_nil_r. replace (Z.to_nat _) with 0%nat by lia. by rewrite drop_0, take_0.
  - pose proof (qlen_range _ Hq). pose proof (length_contents _ Hq) as Hlc.
    pose proof (front_push_spec s p Hq Hcap) as Hs. cbn [front_pushes].
    destruct (front_push s p) as [s' es]. cbv zeta in Hs. destruct Hs as (G1 & G2 & G3 & G4 & _).
    pose proof (IH s' G1 ltac:(lia)) as Hr. cbv zeta in Hr. destruct (front_pushes s' l) as [s'' out].
    destruct Hr as (F1 & F2 & F3). split; [done|]. rewrite F2, F3, G2, G3, G4. clear F2 F3 G3 G4 IH.
    rewrite <- !app_assoc. cbn [app].
    destruct (Z.eqb_spec (vlen (contents (base s))) (capacity (base s))) as [He|Hne]; [|done].
    destruct (contents (base s)) as [|x r]; [vlia|]. cbn [tl take app].
    rewrite vlen_cons in He. rewrite (vlen_cons x). set (n := vlen (r ++ p :: l)).
    assert (Hn : n = vlen r + (vlen l + 1)) by (unfold n; by rewrite vlen_app, vlen_cons).
    pose proof (vlen_nonneg l).
    replace (Z.to_nat (n + 1 - capacity (base s))) with (S (Z.to_nat (n - capacity (base s)))) by lia. done.
Qed.
End front.

(** A [FrontDropQueue] keeps the newest packets: after pushing any list of
    packets to an empty queue, it holds the last [capacity] of them in order, and
    output 1 got exactly the older ones in order. *)
Theorem front_drop_keeps_newest {pkt : Type} `{Inhabited pkt} (cap : Z) (l : list pkt) :
  0 < cap < 2147483647 ->
  let '(s, out) := front_pushes (new_note_queue cap) l in
  out ++ contents (base s) = l /\ vlen (contents (base s)) = Z.min cap (vlen l).
Proof.
  intros Hcap. destruct (new_queue_ok (pkt := pkt) cap ltac:(lia)) as [Hq Hc].
  pose proof (front_pushes_spec (new_note_queue cap) l Hq ltac:(cbn; lia)) as Hs. cbv zeta in Hs.
  destruct (front_pushes (new_note_queue cap) l) as [s out]. destruct Hs as (_ & -> & ->).
  cbn [new_note_queue base]. rewrite Hc. cbn [app]. split; [apply take_drop|].
  unfold vlen. rewrite length_drop. cbn. lia.
Qed.

Lemma front_drop_keeps_newest_witness :
  let '(s, out) := front_pushes (new_note_queue 2) [1; 2; 3; 4; 5] in
  out ++ contents (base s) = [1; 2; 3; 4; 5] /\ vlen (contents (base s)) = Z.min 2 (vlen [1; 2; 3; 4; 5]).
Proof. apply (front_drop_keeps_newest (pkt := Z) 2 [1; 2; 3; 4; 5]). lia. Defined.

(** A [FrontDropQueue] of capacity 0, which the configuration accepts, sends
    to output 1 a cell that was never written: the first push reads the packet
    pointer of an empty queue. *)
Theorem front_drop_zero_capacity {pkt : Type} (garbage p : pkt) :
  let _ := populate garbage in
  event_packets (front_push (new_note_queue 0) p).2 = [garbage].
Proof. reflexivity. Qed.

(** ** Sleeping *)

Section sleeping.
Context {pkt : Type} `{Inhabited pkt} (mt : bool).

Definition pulls (n : nat) (s : NoteQueue pkt) : NoteQueue pkt :=
  Nat.iter n (fun s => (full_pull mt s).1) s.

Lemma failed_pull (s : NoteQueue pkt) :
  queue_ok (base s) -> contents (base s) = [] -> 0 <= sleepiness s <= SLEEPINESS_TRIGGER ->
  let s' := (full_pull mt s).1 in
  base s' = base s /\ sleepiness s' = Z.min SLEEPINESS_TRIGGER (sleepiness s + 1)
  /\ active (empty_note s') = if sleepiness s =? SLEEPINESS_TRIGGER then false else active (empty_note s).
Proof.
  intros Hq Hc Hs. unfold full_pull.
  assert (head (base s) = tail (base s)) as ->.
  { rewrite (tail_pos _ Hq), <- (length_contents _ Hq), Hc. symmetry. apply pos_0. apply Hq. }
  rewrite Z.eqb_refl. cbn [negb]. unfold pull_failure.
  destruct (Z.leb_spec SLEEPINESS_TRIGGER (sleepiness s)), (Z.eqb_spec (sleepiness s) SLEEPINESS_TRIGGER);
    try lia; cbn [fst].
  - unfold sleep_empty. cbn [with_empty base]. rewrite queue_size_spec, Hc by done. cbn [vlen length Z.of_nat Z.eqb negb].
    rewrite andb_false_r. cbn. split; [done|]. split; [lia|done].
  - cbn. split; [done|]. split; [lia|done].
Qed.
End sleeping.

(** The empty signal of a [Queue] goes to sleep exactly at the tenth
    consecutive pull that finds the queue empty, not before, and stays asleep:
    downstream elements may poll an empty queue nine times for free. *)
Theorem empty_signal_sleeps {pkt : Type} `{Inhabited pkt} (mt : bool) (s : NoteQueue pkt) (n : nat) :
  queue_ok (base s) -> contents (base s) = [] -> sleepiness s = 0 -> active (empty_note s) = true ->
  active (empty_note (pulls mt n s)) = (Z.of_nat n <=? SLEEPINESS_TRIGGER).
Proof.
  intros Hq Hc Hs Ha.
  enough (Hinv : base (pulls mt n s) = base s
    /\ sleepiness (pulls mt n s) = Z.min SLEEPINESS_TRIGGER (Z.of_nat n)
    /\ active (empty_note (pulls mt n s)) = (Z.of_nat n <=? SLEEPINESS_TRIGGER)) by apply Hinv.
  induction n as [|n IH]; [done|]. destruct IH as (G1 & G2 & G3). unfold pulls in *. rewrite Nat.iter_succ.
  set (t := Nat.iter n _ s) in *. pose proof (Zle_0_nat n).
  destruct (failed_pull mt t) as (F1 & F2 & F3); [by rewrite G1|by rewrite G1|unfold SLEEPINESS_TRIGGER in *; lia|].
  rewrite F1, F2, F3, G1, G2, G3. split; [done|]. unfold SLEEPINESS_TRIGGER in *. split; [lia|].
  destruct (Z.eqb_spec (Z.min 9 (Z.of_nat n)) 9), (Z.leb_spec (Z.of_nat n) 9), (Z.leb_spec (Z.of_nat (S n)) 9); lia || done.
Qed.

Lemma empty_signal_sleeps_witness :
  active (empty_note (pulls true 9 (new_note_queue (pkt := Z) 5))) = true
  /\ active (empty_note (pulls true 10 (new_note_queue (pkt := Z) 5))) = false.
Proof.
  split.
  - rewrite (empty_signal_sleeps true (new_note_queue (pkt := Z) 5) 9); [reflexivity|by constructor|done|done|done].
  - rewrite (empty_signal_sleeps true (new_note_queue (pkt := Z) 5) 10); [reflexivity|by constructor|done|done|done].
Defined.
