(* ===== verification/Rate.v ===== *)
(** * Rates and shapers

    [GapRate] (include/click/gaprate.hh, lib/gaprate.cc) and the elements that
    use it, [Shaper] and [BandwidthShaper] (elements/standard).  Time is a
    [Timestamp] with seconds and microseconds; the clock and the upstream
    element are arguments. *)

From stdpp Require Import sorting.
From S2P Require Import Prelude Insn.
Local Open Scope Z_scope.

Record Timestamp := mkTime { sec : Z; usec : Z }.

Definition UGAP_SHIFT : Z := 12.
Definition MAX_RATE : Z := Z.shiftl 1000000 UGAP_SHIFT.

Record GapRate := mkRate {
  ugap : Z;                      (** [_ugap], unsigned *)
  sec_count : Z;                 (** [_sec_count], int *)
  tv_sec : Z;                    (** [_tv_sec] *)
  rate : Z                       (** [_rate], unsigned *)
}.

Definition ugap_of (r : Z) : Z := if r =? 0 then u32 (MAX_RATE + 1) else MAX_RATE / r.

Definition initialize_rate (g : GapRate) (r : Z) : GapRate :=
  mkRate (ugap_of r) (sec_count g) (tv_sec g) r.

Definition rate_reset (g : GapRate) : GapRate := mkRate (ugap g) (sec_count g) (-1) (rate g).

(** [GapRate(r)]; the uninitialized counter is an argument. *)
Definition new_rate (r garbage : Z) : GapRate := rate_reset (initialize_rate (mkRate 0 garbage 0 0) r).

Definition set_rate (g : GapRate) (r : Z) (now : Timestamp) : GapRate :=
  let r := if MAX_RATE <? r then MAX_RATE else r in
  if negb (rate g =? r) then
    let g := initialize_rate g r in
    if (0 <=? tv_sec g) && negb (r =? 0)
    then mkRate (ugap g) (i32 (u32 (Z.shiftl (usec now) UGAP_SHIFT) / ugap g)) (tv_sec g) (rate g)
    else g
  else g.

(** [set_rate] with an error handler: whether an error is reported. *)
Definition set_rate_errh (g : GapRate) (r : Z) (now : Timestamp) : GapRate * bool :=
  (set_rate g r now, MAX_RATE <? r).

Definition need_of (g : GapRate) (u : Z) : Z := u32 (Z.shiftl u UGAP_SHIFT) / ugap g.

Definition need_update (g : GapRate) (now : Timestamp) : GapRate * bool :=
  let need := need_of g (usec now) in
  let g :=
    if tv_sec g <? 0 then
      mkRate (ugap g)
        (i32 (need + Z.b2z (ugap g / 2 <? u32 (u32 (Z.shiftl (usec now) UGAP_SHIFT) - u32 (need * ugap g)))))
        (sec now) (rate g)
    else if tv_sec g <? sec now then
      mkRate (ugap g) (if 0 <? sec_count g then i32 (sec_count g - rate g) else sec_count g) (sec now) (rate g)
    else g in
  (g, sec_count g <=? i32 need).

Definition update_with (g : GapRate) (delta : Z) : GapRate :=
  mkRate (ugap g) (i32 (sec_count g + delta)) (tv_sec g) (rate g).

Definition update (g : GapRate) : GapRate := update_with g 1.

Definition expiry (g : GapRate) : Timestamp :=
  if (tv_sec g <? 0) || (rate g =? 0) then mkTime 0 0
  else if sec_count g <? 0 then mkTime (tv_sec g) 0
  else
    let '(s, count) :=
      if rate g <=? sec_count g then (tv_sec g + sec_count g / rate g, sec_count g mod rate g)
      else (tv_sec g, sec_count g) in
    mkTime s (Z.shiftr (u32 (count * ugap g)) UGAP_SHIFT).

(** ** Shapers *)

Section shaper.
Context {pkt upstream : Type}.
Variable pull_input : upstream -> upstream * option pkt.
Variable length : pkt -> Z.

(** [Shaper::pull] at the given port and time. *)
Definition shaper_pull (g : GapRate) (up : upstream) (port : Z) (now : Timestamp)
    : GapRate * upstream * option pkt :=
  let '(g, need) := need_update g now in
  if (port =? 0) && need then
    match pull_input up with
    | (up, Some p) => (update g, up, Some p)
    | (up, None) => (g, up, None)
    end
  else if (port =? 1) && negb need then
    let '(up, p) := pull_input up in (g, up, p)
  else (g, up, None).

Definition bandwidth_pull (g : GapRate) (up : upstream) (now : Timestamp)
    : GapRate * upstream * option pkt :=
  let '(g, need) := need_update g now in
  if need then
    match pull_input up with
    | (up, Some p) => (update_with g (length p), up, Some p)
    | (up, None) => (g, up, None)
    end
  else (g, up, None).

(** Pulls at the given times; the packets that came out. *)
Fixpoint bandwidth_run (g : GapRate) (up : upstream) (ts : list Timestamp) : GapRate * upstream * list pkt :=
  match ts with
  | [] => (g, up, [])
  | now :: ts' =>
      let '(g, up, p) := bandwidth_pull g up now in
      let '(g, up, ps) := bandwidth_run g up ts' in (g, up, option_list p ++ ps)
  end.
End shaper.

(** ** Arithmetic of the gap *)

Definition time_ok (t : Timestamp) : Prop := 0 <= sec t < 2147483648 /\ 0 <= usec t < 1000000.

Definition time_le (t1 t2 : Timestamp) : Prop := sec t1 < sec t2 \/ (sec t1 = sec t2 /\ usec t1 <= usec t2).

Lemma max_rate_val : MAX_RATE = 4096000000.
Proof. reflexivity. Qed.

Lemma shifted u : 0 <= u < 1000000 -> u32 (Z.shiftl u UGAP_SHIFT) = u * 4096.
Proof.
  intros Hu. unfold UGAP_SHIFT. rewrite Z.shiftl_mul_pow2 by lia. change (2 ^ 12) with 4096.
  apply u32_small. lia.
Qed.

Lemma ugap_range r : 0 < r <= MAX_RATE -> 1 <= ugap_of r /\ ugap_of r * r <= MAX_RATE < (ugap_of r + 1) * r.
Proof.
  intros Hr. unfold ugap_of. destruct (Z.eqb_spec r 0); [lia|].
  pose proof (Z.div_mod MAX_RATE r ltac:(lia)). pose proof (Z.mod_pos_bound MAX_RATE r ltac:(lia)).
  assert (1 <= MAX_RATE / r) by (apply Z.div_le_lower_bound; lia). nia.
Qed.

(** What the counter is compared with, without machine arithmetic. *)
Definition need_at (r u : Z) : Z := u * 4096 / ugap_of r.

Lemma need_at_mono r u v : 0 < r <= MAX_RATE -> 0 <= u <= v -> 0 <= need_at r u <= need_at r v.
Proof.
  intros Hr Hu. destruct (ugap_range r Hr) as [Hg _]. unfold need_at. split.
  - apply Z.div_pos; lia.
  - apply Z.div_le_mono; lia.
Qed.

Lemma need_at_bound r u : 0 < r <= MAX_RATE -> 0 <= u < 1000000 -> 0 <= need_at r u < 2 * r.
Proof.
  intros Hr Hu. destruct (ugap_range r Hr) as [Hg1 Hg2]. split; [apply (need_at_mono r u u); lia|].
  unfold need_at. apply Z.div_lt_upper_bound; [lia|]. rewrite max_rate_val in *. nia.
Qed.

Lemma need_of_at g u :
  ugap g = ugap_of (rate g) -> 0 <= u < 1000000 -> need_of g u = need_at (rate g) u.
Proof. intros Hg Hu. unfold need_of. by rewrite Hg, shifted by done. Qed.

(** ** The rate bound *)

Section bound.
Context {pkt upstream : Type}.
Variable pull_input : upstream -> upstream * option pkt.
Variable length : pkt -> Z.
Variables (r L : Z).
Hypothesis r_range : 0 < r <= 536870912.
Hypothesis L_range : 1 <= L <= 536870912.

Let top : Z := need_at r 999999.

Lemma top_need u : 0 <= u < 1000000 -> 0 <= need_at r u <= top.
Proof. intros Hu. apply need_at_mono; [rewrite max_rate_val|]; lia. Qed.

Lemma top_bound : 0 <= top < 2 * r.
Proof. apply need_at_bound; [rewrite max_rate_val|]; lia. Qed.

(** A counter in use at time [t]. *)
Record running (g : GapRate) (t : Timestamp) : Prop := {
  rn_rate : rate g = r;
  rn_ugap : ugap g = ugap_of r;
  rn_sec : tv_sec g = sec t;
  rn_time : time_ok t;
  rn_low : - r < sec_count g;
  rn_high : sec_count g <= top + L
}.

Lemma need_update_running g t now :
  running g t -> time_ok now -> time_le t now ->
  let '(g', need) := need_update g now in
  running g' now
  /\ sec_count g' + r * (sec now - sec t) >= sec_count g
  /\ (need = true -> sec_count g' <= top).
Proof.
  intros [Hr Hu Hs Ht Hlow Hhigh] Hnow Hle. pose proof top_bound. unfold need_update.
  assert (Hneed : need_of g (usec now) = need_at r (usec now)) by (rewrite need_of_at; [by rewrite Hr|congruence|apply Hnow]).
  rewrite Hneed. pose proof (top_need (usec now) ltac:(apply Hnow)) as Hn.
  rewrite (i32_id (need_at r (usec now))) by lia.
  destruct Ht as [Ht1 Ht2]. destruct Hnow as [Hn1 Hn2]. unfold time_le in Hle.
  destruct (Z.ltb_spec (tv_sec g) 0); [lia|].
  destruct (Z.ltb_spec (tv_sec g) (sec now)) as [Hlt|Hge].
  - destruct (Z.ltb_spec 0 (sec_count g)); [rewrite i32_id by lia|]; (split; [constructor; cbn; try done; lia|]);
      cbn; (split; [nia|]); intros Hle'; bprop; lia.
  - split; [constructor; cbn; try done; lia|]. split; [nia|]. intros Hle'. bprop. lia.
Qed.

Lemma bandwidth_pull_running g up t now :
  (forall p, (pull_input up).2 = Some p -> 0 <= length p <= L) ->
  running g t -> time_ok now -> time_le t now ->
  let '(g', up', p) := bandwidth_pull pull_input length g up now in
  running g' now /\ sec_count g' + r * (sec now - sec t) >= sec_count g + from_option length 0 p.
Proof.
  intros Hlen Hg Hnow Hle. pose proof (need_update_running g t now Hg Hnow Hle) as Hn. unfold bandwidth_pull.
  destruct (need_update g now) as [g' need]. destruct Hn as (Hr & Hc & Hneed). pose proof top_bound.
  destruct need; [|by rewrite Z.add_0_r]. specialize (Hneed eq_refl).
  destruct (pull_input up) as [up' [p|]]; [|by rewrite Z.add_0_r]. destruct Hr. cbn.
  specialize (Hlen p eq_refl). unfold update_with. cbn. rewrite i32_id by lia. split; [|lia].
  constructor; cbn; try done; rewrite ?i32_id by lia; lia.
Qed.

Hypothesis length_range : forall p, 0 <= length p <= L.

Lemma bandwidth_run_running g up t ts :
  running g t -> Forall time_ok ts -> Sorted time_le (t :: ts) ->
  let '(g', up', ps) := bandwidth_run pull_input length g up ts in
  running g' (List.last ts t)
  /\ sec_count g' + r * (sec (List.last ts t) - sec t) >= sec_count g + foldr (fun p n => length p + n) 0 ps.
Proof.
  revert g up t. induction ts as [|now ts IH]; intros g up t Hg Hok Hs; [cbn; split; [done|lia]|].
  apply Forall_cons in Hok as [Hok1 Hok2]. apply Sorted_inv in Hs as [Hs1 Hs2]. apply HdRel_inv in Hs2.
  pose proof (bandwidth_pull_running g up t now (fun p _ => length_range p) Hg Hok1 Hs2) as Hp. cbn [bandwidth_run].
  destruct (bandwidth_pull pull_input length g up now) as [[g1 up1] p]. destruct Hp as [Hr1 Hc1].
  pose proof (IH g1 up1 now Hr1 Hok2 Hs1) as Hrec.
  destruct (bandwidth_run pull_input length g1 up1 ts) as [[g2 up2] ps]. destruct Hrec as [Hr2 Hc2].
  assert (Hlast : List.last (now :: ts) t = List.last ts now).
  { destruct ts as [|x ts]; [done|]. change (List.last (now :: x :: ts) t) with (List.last (x :: ts) t).
    clear. revert x. induction ts as [|y ts IH]; intros x; [done|]. apply (IH y). }
  rewrite Hlast. split; [done|]. destruct p as [p|]; cbn in *; nia.
Qed.

(** The first call after a reset starts the counter. *)
Lemma first_need_update g now :
  rate g = r -> ugap g = ugap_of r -> tv_sec g < 0 -> time_ok now ->
  running (need_update g now).1 now /\ need_at r (usec now) <= sec_count (need_update g now).1 <= need_at r (usec now) + 1.
Proof.
  intros Hr Hu Hs Hnow. pose proof top_bound. unfold need_update.
  assert (Hneed : need_of g (usec now) = need_at r (usec now)) by (rewrite need_of_at; [by rewrite Hr|congruence|apply Hnow]).
  rewrite Hneed. pose proof (top_need (usec now) ltac:(apply Hnow)) as Hn.
  rewrite (proj2 (Z.ltb_lt _ _) Hs). cbn [fst]. set (b := _ <? u32 _).
  assert (Hb : 0 <= Z.b2z b <= 1) by (destruct b; cbn; lia). cbn. rewrite i32_id by lia.
  split; [|lia]. constructor; cbn; try done; rewrite ?i32_id by lia; lia.
Qed.

Lemma fresh_bandwidth_run garbage up now ts :
  Forall time_ok (now :: ts) -> Sorted time_le (now :: ts) ->
  let '(_, _, ps) := bandwidth_run pull_input length (new_rate r garbage) up (now :: ts) in
  foldr (fun p n => length p + n) 0 ps
  <= r * (sec (List.last ts now) - sec now) + top - need_at r (usec now) + L.
Proof.
  intros Hok Hs. apply Forall_cons in Hok as [Hok1 Hok2].
  destruct (first_need_update (new_rate r garbage) now eq_refl eq_refl eq_refl Hok1) as [Hr Hc].
  set (g0 := (need_update (new_rate r garbage) now).1) in *.
  (* a second call at the same time changes nothing *)
  assert (Hsame : need_update g0 now = need_update (new_rate r garbage) now).
  { assert (Hg0 : need_update (new_rate r garbage) now = (g0, sec_count g0 <=? i32 (need_of (new_rate r garbage) (usec now))))
      by done.
    rewrite Hg0. unfold need_update at 1. destruct Hr as [R1 R2 R3 [R4 _] _ _].
    rewrite R3. rewrite (proj2 (Z.ltb_ge _ _)) by lia. rewrite Z.ltb_irrefl. done. }
  assert (Heq : bandwidth_run pull_input length (new_rate r garbage) up (now :: ts)
    = bandwidth_run pull_input length g0 up (now :: ts)).
  { cbn [bandwidth_run]. unfold bandwidth_pull. by rewrite Hsame. }
  rewrite Heq. pose proof (bandwidth_run_running g0 up now (now :: ts) Hr) as Hrun.
  rewrite Forall_cons in Hrun. specialize (Hrun (conj Hok1 Hok2)).
  assert (Hs2 : Sorted time_le (now :: now :: ts)).
  { constructor; [done|]. constructor. right. lia. }
  specialize (Hrun Hs2). destruct (bandwidth_run pull_input length g0 up (now :: ts)) as [[g' up'] ps].
  destruct Hrun as [[_ _ _ _ _ Hhigh] Hsum].
  assert (Hlast : List.last (now :: ts) now = List.last ts now) by (by destruct ts). rewrite Hlast in Hsum. lia.
Qed.
End bound.

(** ** Properties *)

(** C21. The bandwidth bound of [BandwidthShaper]: pulled at any non-decreasing
    times, from any upstream, the bytes that come out are at most the rate times
    the seconds elapsed, plus one second's worth less the part of the first
    second already over, plus one packet.  The surplus that rounding in the gap
    allows within a second is carried over, so it does not accumulate. *)
Theorem bandwidth_shaper_bound {pkt upstream : Type} (pull_input : upstream -> upstream * option pkt)
    (length : pkt -> Z) (r L garbage : Z) (up : upstream) (now : Timestamp) (ts : list Timestamp) :
  0 < r <= 536870912 -> 1 <= L <= 536870912 -> (forall p, 0 <= length p <= L) ->
  Forall time_ok (now :: ts) -> Sorted time_le (now :: ts) ->
  let '(_, _, ps) := bandwidth_run pull_input length (new_rate r garbage) up (now :: ts) in
  foldr (fun p n => length p + n) 0 ps
  <= r * (sec (List.last ts now) - sec now) + need_at r 999999 - need_at r (usec now) + L.
Proof. intros. by apply fresh_bandwidth_run. Qed.

Lemma bandwidth_shaper_bound_witness :
  let ts := [mkTime 5 999000; mkTime 5 999900; mkTime 6 0; mkTime 6 10; mkTime 6 2000] in
  let '(_, _, ps) := bandwidth_run (fun up : Z => (up + 1, Some 1500)) (fun p => Z.min 1500 (Z.max 0 p))
                       (new_rate 1250000 0) 0 (mkTime 5 998000 :: ts) in
  foldr (fun p n => Z.min 1500 (Z.max 0 p) + n) 0 ps
  <= 1250000 * (sec (List.last ts (mkTime 5 998000)) - sec (mkTime 5 998000))
     + need_at 1250000 999999 - need_at 1250000 (usec (mkTime 5 998000)) + 1500.
Proof.
  apply (bandwidth_shaper_bound (fun up : Z => (up + 1, Some 1500)) (fun p => Z.min 1500 (Z.max 0 p))
    1250000 1500 0 0 (mkTime 5 998000)); [lia|lia|intros; lia| |].
  - repeat constructor; cbn; lia.
  - repeat constructor; unfold time_le; cbn; lia.
Defined.

(** [expiry()] is at most one microsecond early: for a counter ahead of the
    true rate within the current second, [need_update] is false at every earlier
    time of that second and true from one microsecond after the time it returns. *)
Theorem expiry_tight (g : GapRate) (u : Z) :
  0 < rate g <= 536870912 -> ugap g = ugap_of (rate g) -> 0 <= tv_sec g ->
  0 < sec_count g < rate g -> 0 <= u < 1000000 ->
  let t := expiry g in
  sec t = tv_sec g
  /\ (u < usec t -> (need_update g (mkTime (tv_sec g) u)).2 = false)
  /\ (usec t < u -> (need_update g (mkTime (tv_sec g) u)).2 = true).
Proof.
  intros Hr Hg Hs Hc Hu. set (c := sec_count g) in *.
  destruct (ugap_range (rate g)) as [Hg1 Hg2]; [rewrite max_rate_val; lia|].
  pose proof (need_at_bound (rate g) u ltac:(rewrite max_rate_val; lia) Hu) as Hnb.
  assert (Hexp : expiry g = mkTime (tv_sec g) (c * ugap_of (rate g) / 4096)).
  { unfold expiry. fold c. rewrite (proj2 (Z.ltb_ge (tv_sec g) 0)), (proj2 (Z.eqb_neq (rate g) 0)) by lia. cbn [orb].
    rewrite (proj2 (Z.ltb_ge c 0)), (proj2 (Z.leb_gt (rate g) c)) by lia. f_equal.
    rewrite Hg, u32_small by (rewrite max_rate_val in *; nia). unfold UGAP_SHIFT.
    by rewrite Z.shiftr_div_pow2 by lia. }
  assert (Hneed : (need_update g (mkTime (tv_sec g) u)).2 = (c <=? need_at (rate g) u)).
  { unfold need_update. cbn [usec sec]. rewrite need_of_at by done.
    rewrite (proj2 (Z.ltb_ge (tv_sec g) 0)), Z.ltb_irrefl by lia. cbn [snd]. fold c. by rewrite i32_id by lia. }
  rewrite Hexp, Hneed. cbn [sec usec]. split; [done|]. unfold need_at. set (gap := ugap_of (rate g)) in *. split.
  - intros Hlt. apply Z.leb_gt. apply Z.div_lt_upper_bound; [lia|].
    pose proof (Z.mul_div_le (c * gap) 4096 ltac:(lia)). nia.
  - intros Hgt. apply Z.leb_le. apply Z.div_le_lower_bound; [lia|].
    pose proof (Z.mul_succ_div_gt (c * gap) 4096 ltac:(lia)). nia.
Qed.

Lemma expiry_tight_witness :
  let g := mkRate 3276 7 4 1250000 in
  (sec (expiry g) = 4
   /\ (6 < usec (expiry g) -> (need_update g (mkTime 4 6)).2 = false)
   /\ (usec (expiry g) < 6 -> (need_update g (mkTime 4 6)).2 = true))
  /\ expiry g = mkTime 4 5.
Proof.
  split; [|reflexivity]. apply (expiry_tight (mkRate 3276 7 4 1250000) 6); cbn; try lia. reflexivity.
Defined.

(** [expiry()] can be too early, against its comment: at 1250000 bytes per
    second with 7 bytes counted, [need_update] still answers false at the very
    time [expiry()] returned. *)
Theorem expiry_too_early :
  let g := mkRate (ugap_of 1250000) 7 4 1250000 in
  (need_update g (mkTime 4 0)).2 = false /\ (need_update g (expiry g)).2 = false.
Proof. by split. Qed.

(** A rate of 0 lets one event through when the reset falls in the first half
    of a second, although the comment in [need_update] excludes rate 0. *)
Theorem rate_zero_passes (garbage s u : Z) :
  0 <= s -> 0 <= u <= 500000 ->
  (need_update (new_rate 0 garbage) (mkTime s u)).2 = true.
Proof.
  intros Hs Hu. unfold need_update, need_of. cbn [new_rate rate_reset initialize_rate ugap tv_sec usec].
  rewrite shifted by lia. change (ugap_of 0) with 4096000001. rewrite Z.div_small by lia.
  cbn [Z.ltb Z.compare sec_count snd]. rewrite Z.mul_0_l. change (u32 0) with 0. rewrite Z.sub_0_r.
  rewrite u32_small by lia. change (4096000001 / 2) with 2048000000.
  rewrite (proj2 (Z.ltb_ge 2048000000 (u * 4096))) by lia. reflexivity.
Qed.

Lemma rate_zero_passes_witness : (need_update (new_rate 0 77) (mkTime 3 250000)).2 = true.
Proof. apply (rate_zero_passes 77 3 250000); lia. Defined.
