(* ===== verification/Sched.v ===== *)
(** * Pull schedulers

    [PrioSched], [RRSched] and [DRRSched] (elements/standard) choose which
    input to pull from; [RoundRobinSwitch] chooses an output to push to.  The
    elements upstream are an interface: a pull and an empty signal per port, and
    the laws a well-behaved upstream obeys.  Queues implement it. *)

From S2P Require Import Prelude Insn Queue QueueSpec NoteQueue NoteQueueSpec.

(** ** Upstream *)

(** Pulling from a port, and its empty signal. *)
Class Upstream (I pkt : Type) := {
  up_pull : I -> Z -> I * option pkt;
  up_signal : I -> Z -> bool
}.

(** A well-behaved upstream with [ports] ports: each port has a list of pending
    packets, a pull takes the first one, and a port whose signal is inactive has
    none. *)
Class LawfulUpstream (I pkt : Type) `{Upstream I pkt} (ports : Z) := {
  up_ok : I -> Prop;
  pending : I -> Z -> list pkt;
  up_pull_ok s i : up_ok s -> 0 <= i < ports -> up_ok (up_pull s i).1;
  up_pull_first s i : up_ok s -> 0 <= i < ports -> (up_pull s i).2 = hd_error (pending s i);
  up_pull_pending s i j : up_ok s -> 0 <= i < ports -> 0 <= j < ports ->
    pending (up_pull s i).1 j = if decide (j = i) then tl (pending s i) else pending s j;
  up_signal_empty s i : up_ok s -> 0 <= i < ports -> up_signal s i = false -> pending s i = []
}.

(** ** The schedulers *)

Section schedulers.
Context {I pkt : Type} `{Upstream I pkt}.
Variable length : pkt -> Z.
Variable ninputs : nat.

Abbreviation n := (Z.of_nat ninputs).

(** [if (_signals[i]) input(i).pull()] *)
Definition signal_pull (up : I) (i : Z) : I * option pkt :=
  if up_signal up i then up_pull up i else (up, None).

(** [PrioSched::pull]: the loop from input [i] on. *)
Fixpoint prio_from (fuel : nat) (up : I) (i : Z) : I * option pkt :=
  match fuel with
  | O => (up, None)
  | S fuel' =>
      match signal_pull up i with
      | (up, Some p) => (up, Some p)
      | (up, None) => prio_from fuel' up (i + 1)
      end
  end.

Definition prio_pull (up : I) : I * option pkt := prio_from ninputs up 0.

(** [RRSched::pull]: [_next] and the upstream. *)
Fixpoint rr_loop (fuel : nat) (next : Z) (up : I) (i : Z) : Z * I * option pkt :=
  match fuel with
  | O => (next, up, None)
  | S fuel' =>
      let '(up, p) := signal_pull up i in
      let i := i + 1 in
      let i := if n <=? i then 0 else i in
      match p with
      | Some p => (i, up, Some p)
      | None => rr_loop fuel' next up i
      end
  end.

Definition rr_pull (next : Z) (up : I) : Z * I * option pkt := rr_loop ninputs next up next.

(** ** [DRRSched] *)

Record portinfo := mkPort { phead : option pkt; deficit : Z }.

Record DRR := mkDRR { pi : list portinfo; drr_next : Z; quantum : Z; notifier : bool }.

Definition new_drr (q : Z) : DRR := mkDRR (replicate ninputs (mkPort None 0)) 0 q true.

#[export] Instance portinfo_inhabited : Inhabited portinfo := populate (mkPort None 0).

(** The packet an iteration looks at: the head kept from before, or a pull; and
    whether the port was on. *)
Definition drr_fetch (s : DRR) (up : I) : I * option pkt * bool :=
  match phead (vget (pi s) (drr_next s)) with
  | Some p => (up, Some p, true)
  | None =>
      if up_signal up (drr_next s)
      then let '(up, p) := up_pull up (drr_next s) in (up, p, true)
      else (up, None, false)
  end.

Definition drr_advance (s : DRR) : DRR :=
  let nx := if n <=? drr_next s + 1 then 0 else drr_next s + 1 in
  let pn := vget (pi s) nx in
  mkDRR (vset (pi s) nx (mkPort (phead pn) (u32 (deficit pn + quantum s)))) nx (quantum s) (notifier s).

Definition set_port (s : DRR) (x : portinfo) : DRR :=
  mkDRR (vset (pi s) (drr_next s) x) (drr_next s) (quantum s) (notifier s).

Definition set_notifier (s : DRR) (b : bool) : DRR := mkDRR (pi s) (drr_next s) (quantum s) b.

Fixpoint drr_loop (fuel : nat) (s : DRR) (up : I) (signals_on : bool) : DRR * I * option pkt :=
  match fuel with
  | O => (set_notifier s signals_on, up, None)
  | S fuel' =>
      let '(up, p, on) := drr_fetch s up in
      let signals_on := on || signals_on in
      let d := deficit (vget (pi s) (drr_next s)) in
      match p with
      | None => drr_loop fuel' (drr_advance (set_port s (mkPort None 0))) up signals_on
      | Some p =>
          if length p <=? d
          then (set_notifier (set_port s (mkPort None (d - length p))) true, up, Some p)
          else drr_loop fuel' (drr_advance (set_port s (mkPort (Some p) d))) up signals_on
      end
  end.

Definition drr_pull (s : DRR) (up : I) : DRR * I * option pkt := drr_loop ninputs s up false.

(** ** [RoundRobinSwitch::push]: the output the packet goes to *)

Definition rr_switch_push (next : Z) (noutputs : Z) : Z * Z :=
  (if noutputs <=? next + 1 then 0 else next + 1, next).
End schedulers.

Arguments portinfo : clear implicits.
Arguments DRR : clear implicits.

(** ** Correctness over a lawful upstream *)

Section correct.
Context {I pkt : Type} `{Hup : Upstream I pkt}.
Variable ninputs : nat.
Abbreviation n := (Z.of_nat ninputs).
Context `{Hlaw : !LawfulUpstream I pkt n}.

(** A signalled pull is a pull: an inactive port has nothing. *)
Lemma signal_pull_spec up i :
  up_ok up -> 0 <= i < n ->
  let '(up', p) := signal_pull up i in
  up_ok up' /\ p = hd_error (pending up i)
  /\ forall j, 0 <= j < n -> pending up' j = if decide (j = i) then tl (pending up i) else pending up j.
Proof.
  intros Hok Hi. unfold signal_pull. destruct (up_signal up i) eqn:Es.
  - pose proof (up_pull_ok up i Hok Hi). pose proof (up_pull_first up i Hok Hi).
    pose proof (fun j Hj => up_pull_pending up i j Hok Hi Hj). by destruct (up_pull up i).
  - pose proof (up_signal_empty up i Hok Hi Es) as He. rewrite He. split; [done|]. split; [done|].
    intros j Hj. case_decide; [by subst|done].
Qed.

(** A pull that found nothing changed nothing. *)
Lemma signal_pull_none up i up' :
  up_ok up -> 0 <= i < n -> signal_pull up i = (up', None) ->
  up_ok up' /\ pending up i = [] /\ forall j, 0 <= j < n -> pending up' j = pending up j.
Proof.
  intros Hok Hi He. pose proof (signal_pull_spec up i Hok Hi) as Hs. rewrite He in Hs.
  destruct Hs as (Hok' & Hn & Hp). assert (Hnil : pending up i = []) by (by destruct (pending up i)).
  split; [done|]. split; [done|]. intros j Hj. rewrite Hp by done. case_decide; [subst; by rewrite Hnil|done].
Qed.

(** [up'] is [up] after its port [j] lost its first packet [p]. *)
Definition took (up up' : I) (j : Z) (p : pkt) : Prop :=
  0 <= j < n /\ pending up j = p :: pending up' j
  /\ forall k, 0 <= k < n -> k <> j -> pending up' k = pending up k.

Lemma signal_pull_some up i up' p :
  up_ok up -> 0 <= i < n -> signal_pull up i = (up', Some p) -> up_ok up' /\ took up up' i p.
Proof.
  intros Hok Hi He. pose proof (signal_pull_spec up i Hok Hi) as Hs. rewrite He in Hs.
  destruct Hs as (Hok' & Hn & Hp). split; [done|]. split; [done|]. split.
  - rewrite Hp by done. rewrite decide_True by done. destruct (pending up i); [done|]. by injection Hn as ->.
  - intros k Hk Hne. rewrite Hp by done. by rewrite decide_False.
Qed.

Lemma took_transfer up0 up up' j p :
  (forall k, 0 <= k < n -> pending up k = pending up0 k) -> took up up' j p -> took up0 up' j p.
Proof.
  intros He (Hj & Hp & Ho). split; [done|]. split; [by rewrite <- He|]. intros k Hk Hne. rewrite Ho, He by done. done.
Qed.

Lemma prio_from_spec fuel up i :
  up_ok up -> 0 <= i -> i + Z.of_nat fuel = n ->
  match prio_from fuel up i with
  | (up', None) => up_ok up' /\ (forall j, i <= j < n -> pending up j = [])
                   /\ forall j, 0 <= j < n -> pending up' j = pending up j
  | (up', Some p) => up_ok up' /\ exists j, i <= j /\ took up up' j p /\ forall k, i <= k < j -> pending up k = []
  end.
Proof.
  revert up i. induction fuel as [|fuel IH]; intros up i Hok Hi Hf; cbn [prio_from].
  { split; [done|]. split; [intros; lia|done]. }
  destruct (signal_pull up i) as [up1 [p|]] eqn:Es.
  - destruct (signal_pull_some up i up1 p Hok ltac:(lia) Es) as [Hok1 Ht]. split; [done|].
    exists i. split; [lia|]. split; [done|]. intros; lia.
  - destruct (signal_pull_none up i up1 Hok ltac:(lia) Es) as (Hok1 & Hnil & Hsame).
    specialize (IH up1 (i + 1) Hok1 ltac:(lia) ltac:(lia)).
    destruct (prio_from fuel up1 (i + 1)) as [up2 [p|]]; destruct IH as [Hok2 IH]; (split; [done|]).
    + destruct IH as (j & Hij & Ht & Hb). exists j. split; [lia|]. split; [by eapply took_transfer|].
      intros k Hk. destruct (decide (k = i)) as [->|]; [done|]. rewrite <- Hsame by (destruct Ht; lia). apply Hb. lia.
    + destruct IH as [Hb Hs]. split; [|intros j Hj; rewrite Hs, Hsame by done; done].
      intros j Hj. destruct (decide (j = i)) as [->|]; [done|]. rewrite <- Hsame by lia. apply Hb. lia.
Qed.

(** The port [k] steps after [next]. *)
Definition turn (next k : Z) : Z := (next + k) mod n.

Lemma turn_next next k :
  0 <= next < n -> 0 <= k ->
  (if n <=? turn next k + 1 then 0 else turn next k + 1) = turn next (k + 1).
Proof.
  intros Hn Hk. unfold turn. pose proof (Z.mod_pos_bound (next + k) n ltac:(lia)).
  replace (next + (k + 1)) with (next + k + 1) by lia. rewrite <- (Z.add_mod_idemp_l (next + k)) by lia.
  destruct (Z.leb_spec n ((next + k) mod n + 1)).
  - assert ((next + k) mod n + 1 = n) as -> by lia. by rewrite Z.mod_same by lia.
  - by rewrite (Z.mod_small ((next + k) mod n + 1)) by lia.
Qed.

Lemma rr_loop_spec fuel next up i :
  up_ok up -> 0 <= next < n -> 0 <= i -> i + Z.of_nat fuel = n ->
  match rr_loop ninputs fuel next up (turn next i) with
  | (next', up', None) => up_ok up' /\ next' = next /\ (forall k, i <= k < n -> pending up (turn next k) = [])
                   /\ forall j, 0 <= j < n -> pending up' j = pending up j
  | (next', up', Some p) => up_ok up' /\ exists k, i <= k < n /\ took up up' (turn next k) p
      /\ next' = turn next (k + 1) /\ forall k', i <= k' < k -> pending up (turn next k') = []
  end.
Proof.
  intros Hok Hnext. revert up i Hok. induction fuel as [|fuel IH]; intros up i Hok Hi Hf; cbn [rr_loop].
  { split; [done|]. split; [done|]. split; [intros; lia|done]. }
  assert (Ht : forall k, 0 <= turn next k < n) by (intros; apply Z.mod_pos_bound; lia).
  destruct (signal_pull up (turn next i)) as [up1 [p|]] eqn:Es; rewrite turn_next by done.
  - destruct (signal_pull_some up _ up1 p Hok (Ht i) Es) as [Hok1 Htk]. split; [done|].
    exists i. split; [lia|]. split; [done|]. split; [done|]. intros; lia.
  - destruct (signal_pull_none up _ up1 Hok (Ht i) Es) as (Hok1 & Hnil & Hsame).
    specialize (IH up1 (i + 1) Hok1 ltac:(lia) ltac:(lia)).
    destruct (rr_loop ninputs fuel next up1 (turn next (i + 1))) as [[next2 up2] [p|]];
      destruct IH as [Hok2 IH]; (split; [done|]).
    + destruct IH as (k & Hk & Htk & -> & Hb). exists k. split; [lia|]. split; [by eapply took_transfer|].
      split; [done|]. intros k' Hk'. destruct (decide (k' = i)) as [->|]; [done|].
      rewrite <- Hsame by apply Ht. apply Hb. lia.
    + destruct IH as (-> & Hb & Hs). split; [done|]. split; [|intros j Hj; rewrite Hs, Hsame by done; done].
      intros k Hk. destruct (decide (k = i)) as [->|]; [done|]. rewrite <- Hsame by apply Ht. apply Hb. lia.
Qed.

(** [m] pulls in a row. *)
Fixpoint rr_iter (m : nat) (next : Z) (up : I) : Z * I :=
  match m with
  | O => (next, up)
  | S m' => let '(next', up', _) := rr_pull ninputs next up in rr_iter m' next' up'
  end.

Lemma turn_0 next : 0 <= next < n -> turn next 0 = next.
Proof. intros. unfold turn. rewrite Z.add_0_r. apply Z.mod_small. lia. Qed.

Lemma rr_pull_spec next up :
  up_ok up -> 0 <= next < n ->
  match rr_pull ninputs next up with
  | (next', up', None) => up_ok up' /\ next' = next /\ (forall k, 0 <= k < n -> pending up (turn next k) = [])
                   /\ forall j, 0 <= j < n -> pending up' j = pending up j
  | (next', up', Some p) => up_ok up' /\ exists k, 0 <= k < n /\ took up up' (turn next k) p
      /\ next' = turn next (k + 1) /\ forall k', 0 <= k' < k -> pending up (turn next k') = []
  end.
Proof.
  intros Hok Hn. pose proof (rr_loop_spec ninputs next up 0 Hok Hn ltac:(lia) ltac:(lia)) as Hs.
  by rewrite turn_0 in Hs by done.
Qed.

Lemma turn_turn next k i : 0 < n -> turn (turn next k) i = turn next (k + i).
Proof. intros. unfold turn. rewrite Z.add_mod_idemp_l by lia. f_equal. lia. Qed.

Lemma turn_inj next k k' : 0 <= k < n -> 0 <= k' < n -> turn next k = turn next k' -> k = k'.
Proof.
  intros Hk Hk' He. unfold turn in He.
  assert (Hd : (k - k') mod n = 0).
  { replace (k - k') with ((next + k) - (next + k')) by lia. rewrite Zminus_mod, He, Z.sub_diag.
    apply Z.mod_0_l. lia. }
  apply Z.mod_divide in Hd; [|lia]. destruct Hd as [q Hq]. assert (q = 0) by nia. lia.
Qed.

(** A waiting port [d] turns away is served after at most [d] other packets. *)
Lemma rr_reaches d next up :
  up_ok up -> 0 <= next < n -> Z.of_nat d < n -> pending up (turn next (Z.of_nat d)) <> [] ->
  exists m next1 up1 next2 up2 p, (m <= d)%nat /\ rr_iter m next up = (next1, up1)
  /\ rr_pull ninputs next1 up1 = (next2, up2, Some p)
  /\ took up1 up2 (turn next (Z.of_nat d)) p
  /\ pending up1 (turn next (Z.of_nat d)) = pending up (turn next (Z.of_nat d)).
Proof.
  revert next up. induction (lt_wf d) as [d _ IH]; intros next up Hok Hn Hd Hne.
  pose proof (rr_pull_spec next up Hok Hn) as Hs.
  destruct (rr_pull ninputs next up) as [[next' up'] [p|]] eqn:Ep.
  2:{ destruct Hs as (_ & _ & Hall & _). by rewrite Hall in Hne by lia. }
  destruct Hs as (Hok' & k & Hk & Ht & -> & Hb).
  destruct (Z.lt_trichotomy k (Z.of_nat d)) as [Hlt|[->|Hgt]].
  - assert (Hsame : pending up' (turn next (Z.of_nat d)) = pending up (turn next (Z.of_nat d))).
    { destruct Ht as (_ & _ & Ho). apply Ho; [apply Z.mod_pos_bound; lia|]. intros He.
      apply turn_inj in He; lia. }
    assert (Hturn : turn next (Z.of_nat d) = turn (turn next (k + 1)) (Z.of_nat (d - Z.to_nat (k + 1)))).
    { rewrite turn_turn by lia. f_equal. lia. }
    destruct (IH (d - Z.to_nat (k + 1))%nat ltac:(lia) (turn next (k + 1)) up' Hok'
      ltac:(apply Z.mod_pos_bound; lia) ltac:(lia)) as (m & n1 & u1 & n2 & u2 & p' & Hm & Hit & Hp & Htk & Hpd).
    { by rewrite <- Hturn, Hsame. }
    rewrite <- Hturn in Htk, Hpd. exists (S m), n1, u1, n2, u2, p'. split; [lia|]. cbn [rr_iter]. rewrite Ep.
    split; [done|]. split; [done|]. split; [done|]. by rewrite Hpd.
  - exists 0%nat, next, up, (turn next (Z.of_nat d + 1)), up', p. split; [lia|]. split; [done|].
    split; [done|]. done.
  - by rewrite Hb in Hne by lia.
Qed.
End correct.

(** ** Queues as upstream *)

(** One notifying queue per port. *)
#[export] Instance queues_upstream (pkt : Type) `{Inhabited pkt} : Upstream (list (NoteQueue pkt)) pkt := {
  up_pull qs i := let '(s, p) := full_pull true (nth (Z.to_nat i) qs (new_note_queue 1)) in
                  (<[Z.to_nat i := s]> qs, p);
  up_signal qs i := active (empty_note (nth (Z.to_nat i) qs (new_note_queue 1)))
}.

Section queues.
Context {pkt : Type} `{Inhabited pkt}.
Variable nports : nat.

Definition queues_ok (qs : list (NoteQueue pkt)) : Prop :=
  List.length qs = nports /\ Forall signals_ok qs.

Definition port_contents (qs : list (NoteQueue pkt)) (i : Z) : list pkt :=
  contents (base (nth (Z.to_nat i) qs (new_note_queue 1))).

Lemma nth_insert (qs : list (NoteQueue pkt)) i j s :
  (i < List.length qs)%nat ->
  nth j (<[i := s]> qs) (new_note_queue 1) = if decide (j = i) then s else nth j qs (new_note_queue 1).
Proof.
  intros Hi. rewrite !nth_lookup. case_decide as Hd.
  - subst. by rewrite list_lookup_insert_eq.
  - by rewrite list_lookup_insert_ne.
Qed.

Lemma queues_nth qs i : queues_ok qs -> 0 <= i < Z.of_nat nports -> signals_ok (nth (Z.to_nat i) qs (new_note_queue 1)).
Proof.
  intros [Hl Hf] Hi. rewrite Forall_forall in Hf. apply Hf, list_elem_of_In, nth_In. lia.
Qed.

#[export] Program Instance queues_lawful : LawfulUpstream (list (NoteQueue pkt)) pkt (Z.of_nat nports) := {
  up_ok := queues_ok;
  pending := port_contents
}.
Next Obligation.
  intros qs i Hok Hi. cbn. pose proof (full_pull_signals true _ (queues_nth qs i Hok Hi)) as Hs.
  destruct (full_pull true _) as [s p]. destruct Hok as [Hl Hf]. cbn [fst]. split; [by rewrite length_insert|].
  by apply Forall_insert.
Qed.
Next Obligation.
  intros qs i Hok Hi. cbn. destruct (queues_nth qs i Hok Hi) as [Hq _ _].
  destruct (full_pull_base true (nth (Z.to_nat i) qs (new_note_queue 1))) as [_ Hp].
  pose proof (deq_spec _ Hq) as (_ & _ & Hd & _). destruct (full_pull true _) as [s p]. cbn in *.
  by rewrite Hp.
Qed.
Next Obligation.
  intros qs i j Hok Hi Hj. cbn. destruct (queues_nth qs i Hok Hi) as [Hq _ _].
  destruct (full_pull_base true (nth (Z.to_nat i) qs (new_note_queue 1))) as [Hb _].
  pose proof (deq_spec _ Hq) as (_ & _ & _ & Hd). destruct (full_pull true _) as [s p]. cbn in *.
  unfold port_contents. rewrite nth_insert by (destruct Hok; lia).
  case_decide; case_decide; try lia; [|done]. rewrite Hb. apply Hd.
Qed.
Next Obligation.
  intros qs i Hok Hi Hs. destruct (queues_nth qs i Hok Hi) as [_ He _]. by apply He.
Qed.
End queues.

(** ** Properties *)

(** Priority scheduling: over any well-behaved upstream, a pull from
    [PrioSched] returns the first packet of the lowest-numbered input that has
    one, leaves every other input alone, and returns nothing only when every
    input is empty. *)
Theorem prio_pull_correct {I pkt : Type} `{Upstream I pkt} (ninputs : nat)
    `{!LawfulUpstream I pkt (Z.of_nat ninputs)} (up : I) :
  up_ok up ->
  match prio_pull ninputs up with
  | (up', Some p) => up_ok up' /\ exists j, took ninputs up up' j p /\ forall k, 0 <= k < j -> pending up k = []
  | (up', None) => forall j, 0 <= j < Z.of_nat ninputs -> pending up j = []
  end.
Proof.
  intros Hok. unfold prio_pull. pose proof (prio_from_spec ninputs ninputs up 0 Hok ltac:(lia) ltac:(lia)) as Hs.
  destruct (prio_from ninputs up 0) as [up' [p|]].
  - destruct Hs as (Hok' & j & _ & Ht & Hb). eauto.
  - apply Hs.
Qed.

Definition queue_of (l : list Z) : NoteQueue Z :=
  fold_left (fun s p => (full_push true s p).1) l (new_note_queue 10).

Lemma queue_of_signals l : signals_ok (queue_of l).
Proof.
  unfold queue_of. assert (Hs : signals_ok (new_note_queue (pkt := Z) 10)) by (apply new_signals_ok; lia).
  revert Hs. generalize (new_note_queue (pkt := Z) 10). induction l as [|p l IH]; intros s Hs; [done|].
  cbn [fold_left]. apply IH. by apply full_push_signals.
Qed.

Definition sample_queues : list (NoteQueue Z) := [queue_of []; queue_of [5; 6]; queue_of [7]].

Lemma sample_queues_ok : queues_ok 3 sample_queues.
Proof. split; [done|]. repeat (constructor; [apply queue_of_signals|]). constructor. Qed.

Lemma prio_pull_correct_witness :
  match prio_pull 3 sample_queues with
  | (up', Some p) => queues_ok 3 up'
      /\ exists j, took 3 sample_queues up' j p /\ forall k, 0 <= k < j -> port_contents sample_queues k = []
  | (up', None) => forall j, 0 <= j < 3 -> port_contents sample_queues j = []
  end /\ (prio_pull 3 sample_queues).2 = Some 5.
Proof. split; [|vm_compute; reflexivity]. exact (prio_pull_correct 3 sample_queues sample_queues_ok). Defined.

(** C38. Round-robin scheduling does not starve: over any well-behaved upstream
    with [n] inputs, an input that has a packet is served by one of the next [n]
    pulls, and until then its packets stay where they are. *)
Theorem rr_sched_fair {I pkt : Type} `{Upstream I pkt} (ninputs : nat)
    `{!LawfulUpstream I pkt (Z.of_nat ninputs)} (next : Z) (up : I) (j : Z) :
  up_ok up -> 0 <= next < Z.of_nat ninputs -> 0 <= j < Z.of_nat ninputs -> pending up j <> [] ->
  exists m next1 up1 next2 up2 p, (m < ninputs)%nat /\ rr_iter ninputs m next up = (next1, up1)
  /\ rr_pull ninputs next1 up1 = (next2, up2, Some p)
  /\ took ninputs up1 up2 j p /\ pending up1 j = pending up j.
Proof.
  intros Hok Hn Hj Hne. pose proof (Z.mod_pos_bound (j - next) (Z.of_nat ninputs) ltac:(lia)) as Hd.
  assert (Ht : turn ninputs next (Z.of_nat (Z.to_nat ((j - next) mod Z.of_nat ninputs))) = j).
  { unfold turn. rewrite Z2Nat.id by lia. rewrite Z.add_mod_idemp_r by lia.
    replace (next + (j - next)) with j by lia. by apply Z.mod_small. }
  destruct (rr_reaches ninputs (Z.to_nat ((j - next) mod Z.of_nat ninputs)) next up Hok Hn ltac:(lia))
    as (m & n1 & u1 & n2 & u2 & p & Hm & H1 & H2 & H3 & H4); rewrite Ht in *; [done|].
  exists m, n1, u1, n2, u2, p. split; [lia|]. done.
Qed.

Lemma rr_sched_fair_witness :
  exists m next1 up1 next2 up2 p, (m < 3)%nat /\ rr_iter 3 m 2 sample_queues = (next1, up1)
  /\ rr_pull 3 next1 up1 = (next2, up2, Some p) /\ took 3 up1 up2 1 p /\ port_contents up1 1 = port_contents sample_queues 1.
Proof.
  refine (rr_sched_fair (pkt := Z) 3 2 sample_queues 1 sample_queues_ok _ _ _); [lia|lia|].
  vm_compute. discriminate.
Defined.
