(* ===== verification/DrrFair.v ===== *)
(** * Fairness of deficit round robin

    [DRRSched] with an account per port: the quanta granted, the bytes sent and
    the deficit given up when the port had no packet.  The accounts do not
    influence the scheduler; they state its fairness. *)

From S2P Require Import Prelude Insn Queue Sched.

Record accounts := mkAcc { grants : Z -> Z; bytes_sent : Z -> Z; forfeited : Z -> Z }.

Definition bump (f : Z -> Z) (i d : Z) : Z -> Z := fun j => if decide (j = i) then f j + d else f j.

Definition no_accounts : accounts := mkAcc (fun _ => 0) (fun _ => 0) (fun _ => 0).

Section accounting.
Context {I pkt : Type} `{Upstream I pkt}.
Variable length : pkt -> Z.
Variable ninputs : nat.
Abbreviation n := (Z.of_nat ninputs).

Definition acc_advance (s : DRR pkt) (a : accounts) : accounts :=
  mkAcc (bump (grants a) (drr_next (drr_advance ninputs s)) 1) (bytes_sent a) (forfeited a).

(** [drr_loop] with accounts. *)
Fixpoint drr_loop_acc (fuel : nat) (s : DRR pkt) (up : I) (signals_on : bool) (a : accounts)
    : DRR pkt * I * option pkt * accounts :=
  match fuel with
  | O => (set_notifier s signals_on, up, None, a)
  | S fuel' =>
      let '(up, p, on) := drr_fetch s up in
      let signals_on := on || signals_on in
      let i := drr_next s in
      let d := deficit (vget (pi s) i) in
      match p with
      | None => drr_loop_acc fuel' (drr_advance ninputs (set_port s (mkPort None 0))) up signals_on
                  (acc_advance s (mkAcc (grants a) (bytes_sent a) (bump (forfeited a) i d)))
      | Some p =>
          if length p <=? d
          then (set_notifier (set_port s (mkPort None (d - length p))) true, up, Some p,
                mkAcc (grants a) (bump (bytes_sent a) i (length p)) (forfeited a))
          else drr_loop_acc fuel' (drr_advance ninputs (set_port s (mkPort (Some p) d))) up signals_on
                 (acc_advance s a)
      end
  end.

(** [m] pulls; the packets are dropped, the accounts kept. *)
Fixpoint drr_iter (m : nat) (s : DRR pkt) (up : I) (a : accounts) : DRR pkt * I * accounts :=
  match m with
  | O => (s, up, a)
  | S m' => let '(s, up, _, a) := drr_loop_acc ninputs s up false a in drr_iter m' s up a
  end.

(** The accounts are ghosts: erasing them gives [drr_loop]. *)
Lemma drr_loop_acc_erase fuel s up on a :
  (drr_loop_acc fuel s up on a).1 = drr_loop length ninputs fuel s up on.
Proof.
  revert s up on a. induction fuel as [|fuel IH]; intros s up on a; [done|].
  cbn [drr_loop_acc drr_loop]. destruct (drr_fetch s up) as [[up' [p|]] on']; [|apply IH].
  destruct (_ <=? _); [done|apply IH].
Qed.

Variables (q L : Z).
Hypothesis q_pos : 0 < q.
Hypothesis L_pos : 1 <= L.
Hypothesis sum_range : q + L < 4294967296.
Hypothesis length_range : forall p, 0 <= length p <= L.
Hypothesis inputs_pos : (0 < ninputs)%nat.

(** The books balance, quanta are dealt in turn, and deficits are small. *)
Record fair (s : DRR pkt) (a : accounts) : Prop := {
  f_ports : vlen (pi s) = n;
  f_next : 0 <= drr_next s < n;
  f_quantum : quantum s = q;
  f_deficit i : 0 <= i < n -> 0 <= deficit (vget (pi s) i)
                <= L - 1 + (if decide (i = drr_next s) then q else 0);
  f_balance i : 0 <= i < n ->
    q * grants a i = bytes_sent a i + deficit (vget (pi s) i) + forfeited a i;
  f_grants i : 0 <= i < n ->
    grants a i = grants a 0 + (if decide (1 <= i <= drr_next s) then 1 else 0);
  f_forfeited i : 0 <= forfeited a i
}.

Lemma new_drr_fair : fair (new_drr ninputs q) no_accounts.
Proof.
  assert (Hg : forall i, 0 <= i < n -> vget (replicate ninputs (mkPort (pkt := pkt) None 0)) i = mkPort None 0)
    by (intros i Hi; apply vget_replicate; lia).
  constructor; cbn; try done; try lia.
  - by rewrite vlen_replicate.
  - intros i Hi. rewrite Hg by done. cbn. case_decide; lia.
  - intros i Hi. rewrite Hg by done. cbn. lia.
  - intros i Hi. case_decide; lia.
Qed.

(** Moving on after the current port was left with a small deficit. *)
Lemma advance_fair s a x fd :
  fair s a -> 0 <= deficit x <= L - 1 -> 0 <= fd ->
  deficit x + fd = deficit (vget (pi s) (drr_next s)) ->
  fair (drr_advance ninputs (set_port s x))
       (acc_advance s (mkAcc (grants a) (bytes_sent a) (bump (forfeited a) (drr_next s) fd))).
Proof.
  intros Hf Hx Hfd Hsum. pose proof Hf as [Hp Hn Hq Hd Hb Hg Hfo].
  set (i0 := drr_next s) in *.
  set (nx := if n <=? i0 + 1 then 0 else i0 + 1).
  assert (Hnx : 0 <= nx < n) by (unfold nx; destruct (Z.leb_spec n (i0 + 1)); lia).
  assert (Hget : forall i, 0 <= i < n -> deficit (vget (vset (pi s) i0 x) i)
    = if decide (i = i0) then deficit x else deficit (vget (pi s) i)).
  { intros i Hi. case_decide as Hc; [subst; by rewrite vget_vset_eq by lia|by rewrite vget_vset_ne by lia]. }
  assert (Hsmall : forall i, 0 <= i < n -> 0 <= deficit (vget (vset (pi s) i0 x) i) <= L - 1).
  { intros i Hi. rewrite Hget by done. specialize (Hd i Hi). repeat case_decide; lia. }
  assert (Hadv : drr_advance ninputs (set_port s x)
    = mkDRR (vset (vset (pi s) i0 x) nx (mkPort (phead (vget (vset (pi s) i0 x) nx))
        (deficit (vget (vset (pi s) i0 x) nx) + q))) nx q (notifier s)).
  { unfold drr_advance, set_port. cbn. fold i0. fold nx. rewrite Hq.
    rewrite u32_small by (specialize (Hsmall nx Hnx); lia). done. }
  unfold acc_advance. assert (Hnext : drr_next (drr_advance ninputs s) = nx) by done. rewrite Hnext, Hadv.
  assert (Hget2 : forall i, 0 <= i < n -> deficit (vget (vset (vset (pi s) i0 x) nx
      (mkPort (phead (vget (vset (pi s) i0 x) nx)) (deficit (vget (vset (pi s) i0 x) nx) + q))) i)
    = deficit (vget (vset (pi s) i0 x) i) + if decide (i = nx) then q else 0).
  { intros i Hi. case_decide as Hc.
    - subst i. by rewrite vget_vset_eq by (rewrite vlen_vset; lia).
    - rewrite vget_vset_ne by (lia || done). lia. }
  constructor; cbn [pi drr_next quantum grants bytes_sent forfeited]; try done.
  - by rewrite !vlen_vset.
  - intros i Hi. rewrite Hget2 by done. specialize (Hsmall i Hi). case_decide; lia.
  - intros i Hi. rewrite Hget2, Hget by done. unfold bump. specialize (Hb i Hi).
    destruct (decide (i = i0)) as [->|], (decide (_ = nx)); lia.
  - intros i Hi. pose proof (Hg i Hi) as Hgi. unfold bump. unfold nx in *.
    destruct (Z.leb_spec n (i0 + 1)); repeat case_decide; lia.
  - intros i. unfold bump. specialize (Hfo i). case_decide; lia.
Qed.

Lemma drr_loop_fair fuel s up on a :
  fair s a -> let '(s', _, _, a') := drr_loop_acc fuel s up on a in fair s' a'.
Proof.
  revert s up on a. induction fuel as [|fuel IH]; intros s up on a Hf; cbn [drr_loop_acc].
  { by destruct Hf. }
  pose proof Hf as [Hp Hn Hq Hd Hb Hg Hfo]. pose proof (Hd _ Hn) as Hdn. rewrite decide_True in Hdn by done.
  destruct (drr_fetch s up) as [[up' [p|]] on'].
  - specialize (length_range p). destruct (Z.leb_spec (length p) (deficit (vget (pi s) (drr_next s)))).
    + constructor; cbn; try done; [by rewrite vlen_vset| |].
      * intros i Hi. specialize (Hd i Hi). destruct (decide (i = drr_next s)) as [->|].
        -- rewrite vget_vset_eq by lia. cbn. lia.
        -- rewrite vget_vset_ne by lia. lia.
      * intros i Hi. specialize (Hb i Hi). unfold bump. destruct (decide (i = drr_next s)) as [->|].
        -- rewrite vget_vset_eq by lia. cbn. lia.
        -- rewrite vget_vset_ne by lia. lia.
    + apply IH. pose proof (advance_fair s a (mkPort (Some p) (deficit (vget (pi s) (drr_next s)))) 0 Hf) as Hadv.
      cbn in Hadv. specialize (Hadv ltac:(lia) ltac:(lia) ltac:(lia)). destruct Hadv as [A1 A2 A3 A4 A5 A6 A7].
      constructor; try done. intros i Hi. specialize (A5 i Hi). cbn in A5 |- *. unfold bump at 2 in A5. case_decide; lia.
  - apply IH. apply advance_fair; cbn; try done; lia.
Qed.

Lemma drr_iter_fair m s up a :
  fair s a -> let '(s', _, a') := drr_iter m s up a in fair s' a'.
Proof.
  revert s up a. induction m as [|m IH]; intros s up a Hf; [done|]. cbn [drr_iter].
  pose proof (drr_loop_fair ninputs s up false a Hf) as Hl.
  destruct (drr_loop_acc ninputs s up false a) as [[[s' up'] p] a']. by apply IH.
Qed.
End accounting.

(** ** Properties *)

(** C29. Deficit round robin is fair in bytes: over any upstream whose packets are
    at most [L] bytes long, after any number of pulls, an input that always had a
    packet when it was looked at (it never forfeited a deficit) is fewer than
    [2 * quantum + L] bytes behind any other input. *)
Theorem drr_fair {I pkt : Type} `{Upstream I pkt} (length : pkt -> Z) (ninputs m : nat) (q L : Z) (up : I) (i j : Z) :
  0 < q -> 1 <= L -> q + L < 4294967296 -> (forall p, 0 <= length p <= L) ->
  0 <= i < Z.of_nat ninputs -> 0 <= j < Z.of_nat ninputs ->
  let '(_, _, a) := drr_iter length ninputs m (new_drr ninputs q) up no_accounts in
  forfeited a i = 0 -> bytes_sent a j < bytes_sent a i + 2 * q + L.
Proof.
  intros Hq HL Hsum Hlen Hi Hj.
  pose proof (drr_iter_fair length ninputs q L Hq HL Hsum Hlen ltac:(lia) m (new_drr ninputs q) up no_accounts
    (new_drr_fair ninputs q L Hq HL ltac:(lia))) as Hf.
  destruct (drr_iter _ _ _ _ _ _) as [[s up'] a]. intros Hz. destruct Hf as [_ _ _ Hd Hb Hg Hfo].
  pose proof (Hb i Hi). pose proof (Hb j Hj). pose proof (Hg i Hi). pose proof (Hg j Hj).
  pose proof (Hd i Hi). pose proof (Hd j Hj). specialize (Hfo j). repeat case_decide; nia.
Qed.

(** An upstream that always has packets: 1500 bytes at port 0, 40 elsewhere. *)
#[export] Instance busy_upstream : Upstream unit Z := {
  up_pull _ i := (tt, Some (if i =? 0 then 1500 else 40));
  up_signal _ _ := true
}.

Definition clamp (p : Z) : Z := Z.min 1500 (Z.max 0 p).

Lemma drr_fair_witness :
  (let '(_, _, a) := drr_iter clamp 2 100 (new_drr 2 500) tt no_accounts in
   forfeited a 0 = 0 -> bytes_sent a 1 < bytes_sent a 0 + 2 * 500 + 1500)
  /\ (let '(_, _, a) := drr_iter clamp 2 100 (new_drr 2 500) tt no_accounts in
      forfeited a 0 = 0 /\ bytes_sent a 0 = 3000 /\ bytes_sent a 1 = 3720).
Proof.
  split; [|vm_compute; done].
  apply (drr_fair clamp 2 100 500 1500 tt 0 1); try lia. intros p. unfold clamp. lia.
Defined.
