(* ===== verification/Stride.v ===== *)
(** * Stride scheduling

    [StrideSched] and [StrideSwitch] (click/elements/standard).  A client has a
    pass, which advances by its stride whenever it has its turn, and a list holds
    the clients in the order of their passes; a pass is a 32-bit word that wraps
    around.  The doubly linked list is the list of the indices of its clients. *)

From S2P Require Import Prelude Insn IntArg Queue QueueSpec NoteQueue NoteQueueSpec Sched.
From stdpp Require Import strings sorting.
Local Open Scope Z_scope.

Definition STRIDE1 : Z := 65536.
Definition MAX_TICKETS : Z := 32768.

(** [PASS_GT]: the sign of the difference as an [int]. *)
Definition PASS_GT (a b : Z) : bool := 0 <? i32 (a - b).

Record Client := mkClient { c_pass : Z; c_stride : Z; c_tickets : Z }.

Definition new_client : Client := mkClient 0 0 (-1).
#[export] Instance Client_inhabited : Inhabited Client := populate new_client.

Definition client_set_tickets (c : Client) (t : Z) : Client := mkClient (c_pass c) (if t =? 0 then 0 else STRIDE1 / t) t.
Definition stride (c : Client) : Client := mkClient (u32 (c_pass c + c_stride c)) (c_stride c) (c_tickets c).

(** [_all] and [_list]; [_all] is empty before the first [configure]. *)
Record StrideSched := mkStride { st_all : list Client; st_list : list Z }.
Definition new_stride : StrideSched := mkStride [] [].

(** [Client::insert]: in front of the first client whose pass is not smaller. *)
Fixpoint insert_client (all : list Client) (c : Z) (l : list Z) : list Z :=
  match l with
  | [] => [c]
  | d :: l' => if PASS_GT (c_pass (vget all c)) (c_pass (vget all d)) then d :: insert_client all c l' else c :: l
  end.

Definition remove_client (c : Z) (l : list Z) : list Z := List.filter (fun d => negb (d =? c)) l.

(** ** [configure] *)

Inductive stride_message := E_argument_count | E_not_tickets | E_negative_tickets | W_tickets_reduced | E_no_port.

Definition is_error (m : stride_message) : bool := match m with W_tickets_reduced => false | _ => true end.

(** The loop over the arguments, from client [i] on. *)
Fixpoint set_all (first : bool) (conf : list (list Z)) (i : Z) (all : list Client) (ms : list stride_message) : list Client * list stride_message :=
  match conf with
  | [] => (all, ms)
  | text :: conf' =>
      match int_arg true text with
      | None => set_all first conf' (i + 1) all (ms ++ [E_not_tickets])
      | Some v =>
          if i32 v <? 0 then set_all first conf' (i + 1) all (ms ++ [E_negative_tickets])
          else
            let '(v, ms) := if MAX_TICKETS <? i32 v then (MAX_TICKETS, ms ++ [W_tickets_reduced]) else (i32 v, ms) in
            let c := client_set_tickets (vget all i) v in
            set_all first conf' (i + 1) (vset all i (if first then stride c else c)) ms
      end
  end.

Definition configure (nclients : Z) (s : StrideSched) (conf : list (list Z)) : StrideSched * list stride_message :=
  if negb (vlen conf =? nclients) then (s, [E_argument_count])
  else
    let first := bool_decide (st_all s = []) in
    let all := if first then replicate (Z.to_nat nclients) new_client else st_all s in
    let '(all, ms) := set_all first conf 0 all [] in
    (** "insert into reverse order so they're run in forward order on ties" *)
    (mkStride all (for_down 0 nclients (fun i l => if negb (c_tickets (vget all i) =? 0) then insert_client all i l else l) []), ms).

(** [tickets] *)
Definition tickets (nclients : Z) (s : StrideSched) (port : Z) : Z :=
  if (0 <=? port) && (port <? nclients) then c_tickets (vget (st_all s) port) else -1.

(** [set_tickets] *)
Definition set_tickets (nclients : Z) (s : StrideSched) (port t : Z) : StrideSched * list stride_message :=
  if negb ((0 <=? port) && (port <? nclients)) then (s, [E_no_port])
  else if t <? 0 then (s, [E_negative_tickets])
  else
    let '(t, ms) := if MAX_TICKETS <? t then (MAX_TICKETS, [W_tickets_reduced]) else (t, []) in
    let old := c_tickets (vget (st_all s) port) in
    let c := client_set_tickets (vget (st_all s) port) t in
    let all := vset (st_all s) port c in
    if (t =? 0) && negb (old =? 0) then (mkStride all (remove_client port (st_list s)), ms)
    else if negb (t =? 0) && (old =? 0) then
      let pass := match st_list s with d :: _ => u32 (c_pass (vget all d) + c_stride c) | [] => 0 end in
      let all := vset all port (mkClient pass (c_stride c) t) in
      (mkStride all (insert_client all port (st_list s)), ms)
    else (mkStride all (st_list s), ms).

(** ** [pull] and [push] *)

Section pull.
Context {I pkt : Type} `{Upstream I pkt}.

(** The loop that finds a packet: the clients that had their turn, the others, the
    clients with their new passes. *)
Fixpoint pull_loop (l : list Z) (all : list Client) (up : I) : list Z * list Z * list Client * I * option pkt :=
  match l with
  | [] => ([], [], all, up, None)
  | c :: l' =>
      let '(up, p) := signal_pull up c in
      let all := vset all c (stride (vget all c)) in
      match p with
      | Some p => ([c], l', all, up, Some p)
      | None => let '(stridden, rest, all, up, p) := pull_loop l' all up in (c :: stridden, rest, all, up, p)
      end
  end.

Definition stride_pull (s : StrideSched) (up : I) : StrideSched * I * option pkt :=
  let '(stridden, rest, all, up, p) := pull_loop (st_list s) (st_all s) up in
  (mkStride all (fold_left (fun l c => insert_client all c l) stridden rest), up, p).
End pull.

(** [StrideSwitch::push]: the output the packet goes to, if there is one. *)
Definition stride_push (s : StrideSched) : StrideSched * option Z :=
  match st_list s with
  | c :: l' =>
      let all := vset (st_all s) c (stride (vget (st_all s) c)) in
      (mkStride all (insert_client all c l'), Some c)
  | [] => (s, None)
  end.

(** ** The order of the passes

    A pass is a number that does not wrap around, modulo 2^32; the order of two
    passes is right while they are less than 2^31 apart. *)

Lemma pass_gt_spec A B : - 2147483648 < A - B < 2147483648 -> PASS_GT (u32 A) (u32 B) = (B <? A).
Proof.
  intros Hd. unfold PASS_GT, i32. cbv zeta. assert (E : u32 (u32 A - u32 B) = u32 (A - B)) by (unfold u32; by rewrite <- Zminus_mod).
  rewrite E. unfold u32. destruct (Z.ltb_spec B A).
  - rewrite Z.mod_small by lia. rewrite (proj2 (Z.ltb_lt (A - B) 2147483648)) by lia. apply Z.ltb_lt. lia.
  - apply Z.ltb_ge. destruct (Z.eq_dec A B) as [-> |]; [rewrite Z.sub_diag; vm_compute; discriminate|].
    rewrite <- (Z.mod_add _ 1), Z.mod_small by lia. destruct (Z.ltb_spec (A - B + 1 * 4294967296) 2147483648); lia.
Qed.

Section order.
Context (all : list Client) (P : Z -> Z).
Abbreviation before := (fun a b => P a <= P b).

(** The clients of a list have the passes [P], which are close together. *)
Definition close (l : list Z) : Prop :=
  (forall c, c ∈ l -> c_pass (vget all c) = u32 (P c)) /\ forall a b, a ∈ l -> b ∈ l -> P a - P b < 2147483648.

Lemma close_gt l a b : close l -> a ∈ l -> b ∈ l -> PASS_GT (c_pass (vget all a)) (c_pass (vget all b)) = (P b <? P a).
Proof using Type.
  intros [Hp Hc] Ha Hb. rewrite !Hp by done. apply pass_gt_spec. pose proof (Hc a b Ha Hb). pose proof (Hc b a Hb Ha). lia.
Qed.

Lemma insert_perm c l : insert_client all c l ≡ₚ c :: l.
Proof using Type.
  induction l as [|d l IH]; cbn [insert_client]; [done|]. destruct (PASS_GT _ _); [|done]. rewrite IH. apply Permutation_swap.
Qed.

Lemma insert_sorted_passes c l : close (c :: l) -> StronglySorted before l -> StronglySorted before (insert_client all c l).
Proof using Type.
  induction l as [|d l IH]; intros Hcl Hs; cbn [insert_client]; [by repeat constructor|].
  apply StronglySorted_inv in Hs as [Hs Hd]. rewrite (close_gt (c :: d :: l)) by (done || by rewrite !elem_of_cons; auto).
  destruct (Z.ltb_spec (P d) (P c)) as [Hlt|Hge].
  - constructor.
    + apply IH; [|done]. destruct Hcl as [H1 H2]. split; [intros x Hx; apply H1|intros a b Ha Hb; apply H2]; rewrite !elem_of_cons in *; tauto.
    + rewrite insert_perm. constructor; [lia|done].
  - constructor; [by constructor|]. constructor; [done|]. eapply Forall_impl; [exact Hd|]. cbn. lia.
Qed.

Lemma reinsert stridden : forall l, close (stridden ++ l) -> StronglySorted before l ->
  let l' := fold_left (fun l c => insert_client all c l) stridden l in l' ≡ₚ stridden ++ l /\ StronglySorted before l'.
Proof using Type.
  induction stridden as [|c stridden IH]; intros l Hcl Hs; cbn [fold_left app]; [done|].
  assert (Hp : stridden ++ insert_client all c l ≡ₚ (c :: stridden) ++ l) by (rewrite insert_perm; cbn [app]; by rewrite <- Permutation_middle).
  destruct (IH (insert_client all c l)) as [H1 H2].
  - destruct Hcl as [C1 C2]. split; [intros x|intros a b]; rewrite !Hp; auto.
  - apply insert_sorted_passes; [|done]. destruct Hcl as [C1 C2]. split; [intros x Hx; apply C1; set_solver|intros a b Ha Hb; apply C2; set_solver].
  - split; [|done]. rewrite H1. exact Hp.
Qed.
End order.

(** ** Pulling *)

Section pulls.
Context {I pkt : Type} `{Hup : Upstream I pkt} (n : Z) `{Hlaw : !LawfulUpstream I pkt n}.

(** A client that has a packet. *)
Definition backlogged (up : I) (c : Z) : Prop := pending up c <> [].

Lemma signal_pull_lawful up c up' p : up_ok up -> 0 <= c < n -> signal_pull up c = (up', p) ->
  up_ok up' /\ p = hd_error (pending up c) /\ forall d, 0 <= d < n -> pending up' d = if decide (d = c) then tl (pending up c) else pending up d.
Proof using Type*.
  intros Hok Hc. unfold signal_pull. destruct (up_signal up c) eqn:Es.
  - intros E. pose proof (up_pull_ok up c Hok Hc) as H1. pose proof (up_pull_first up c Hok Hc) as H2. pose proof (fun d => up_pull_pending up c d Hok Hc) as H3.
    rewrite E in H1, H2, H3. cbn [fst snd] in *. auto.
  - intros [= <- <-]. pose proof (up_signal_empty up c Hok Hc Es) as Ee. rewrite Ee. split; [done|]. split; [done|].
    intros d Hd. case_decide; [by subst|done].
Qed.

(** The clients that have their turn are a prefix of the list; only the last of them
    is served, and a client with a packet that has its turn is served. *)
Lemma pull_loop_spec l : forall all up stridden rest all' up' p, up_ok up -> (forall c, c ∈ l -> 0 <= c < n /\ c < vlen all) -> NoDup l ->
  pull_loop l all up = (stridden, rest, all', up', p) ->
  l = stridden ++ rest /\ vlen all' = vlen all /\ up_ok up'
  /\ (forall c, 0 <= c < vlen all -> vget all' c = if bool_decide (c ∈ stridden) then stride (vget all c) else vget all c)
  /\ (forall c, 0 <= c < n -> pending up' c = if bool_decide (c ∈ stridden) then tl (pending up c) else pending up c)
  /\ (forall c d, c ∈ stridden -> backlogged up c -> d ∈ stridden -> backlogged up d -> c = d)
  /\ (forall c, c ∈ stridden -> backlogged up c -> forall a b, stridden = a ++ c :: b -> b = [])
  /\ (forall c, c ∈ rest -> exists d, d ∈ stridden /\ backlogged up d).
Proof using Type*.
  induction l as [|c l IH]; intros all up stridden rest all' up' p Hok Hl Hnd E; cbn [pull_loop] in E.
  { injection E as <- <- <- <- <-. repeat split; try done; intros; by apply elem_of_nil in H. }
  apply NoDup_cons in Hnd as [Hc Hnd]. destruct (Hl c ltac:(by left)) as [Hcn Hca].
  destruct (signal_pull up c) as [up1 p1] eqn:Es. apply signal_pull_lawful in Es as (Hok1 & -> & Hpend); [|done|done].
  set (all1 := vset all c (stride (vget all c))) in *. assert (Hall1 : vlen all1 = vlen all) by apply vlen_vset.
  assert (Hget1 : forall d, 0 <= d < vlen all -> vget all1 d = if decide (d = c) then stride (vget all c) else vget all d).
  { intros d Hd. unfold all1. case_decide as Hdc; [subst; apply vget_vset_eq; lia|apply vget_vset_ne; [congruence|lia|lia]]. }
  destruct (hd_error (pending up c)) as [q|] eqn:Eq.
  - injection E as <- <- <- <- <-. assert (Hb : backlogged up c) by (unfold backlogged; by intros E; rewrite E in Eq).
    split; [done|]. split; [done|]. split; [done|]. split; [|split; [|split; [|split]]].
    + intros d Hd. rewrite Hget1 by done. case_decide; case_bool_decide as Hin; rewrite list_elem_of_singleton in Hin; congruence.
    + intros d Hd. rewrite Hpend by done. case_decide; case_bool_decide as Hin; rewrite list_elem_of_singleton in Hin; congruence.
    + intros d e Hd _ He _. apply list_elem_of_singleton in Hd, He. congruence.
    + intros d Hd _ a b Eab. destruct a as [|? a]; [by injection Eab|]. by destruct a.
    + intros d _. exists c. split; [by apply list_elem_of_singleton|done].
  - assert (Hnb : pending up c = []) by (by destruct (pending up c)).
    destruct (pull_loop l all1 up1) as [[[[st1 rest1] all2] up2] p2] eqn:El. injection E as <- <- <- <- <-.
    assert (Hsame : forall d, 0 <= d < n -> pending up1 d = pending up d) by (intros d Hd; rewrite Hpend by done; case_decide; [by subst; rewrite Hnb|done]).
    apply IH in El as (I1 & I2 & I3 & I4 & I5 & I6 & I7 & I8); [|done|intros d Hd; rewrite Hall1; apply Hl; by right|done].
    assert (Hst : forall d, d ∈ st1 -> 0 <= d < n /\ d < vlen all) by (intros d Hd; apply Hl; right; rewrite I1; apply elem_of_app; by left).
    assert (Hrst : forall d, d ∈ rest1 -> 0 <= d < n /\ d < vlen all) by (intros d Hd; apply Hl; right; rewrite I1; apply elem_of_app; by right).
    assert (Hcst : c ∉ st1) by (intros Hin; apply Hc; rewrite I1; apply elem_of_app; by left).
    split; [by rewrite I1|]. split; [lia|]. split; [done|]. split; [|split; [|split; [|split]]].
    + intros d Hd. rewrite I4, Hget1 by lia. case_bool_decide as H1; case_decide as H2; case_bool_decide as H3; rewrite elem_of_cons in H3; subst; tauto || done.
    + intros d Hd. rewrite I5, Hsame by done. case_bool_decide as H1; case_bool_decide as H3; rewrite elem_of_cons in H3; try tauto.
      assert (d = c) as -> by tauto. by rewrite Hnb.
    + intros d e Hd Hbd He Hbe. apply elem_of_cons in Hd as [-> |Hd]; [done|]. apply elem_of_cons in He as [-> |He]; [done|].
      apply I6; try done; unfold backlogged; rewrite Hsame; try done; by apply Hst.
    + intros d Hd Hbd a b Eab. apply elem_of_cons in Hd as [-> |Hd]; [done|]. destruct a as [|a0 a]; cbn [app] in Eab; injection Eab as -> Eab; [by destruct Hbd|].
      apply (I7 d Hd) with a; [|done]. unfold backlogged. rewrite Hsame; [done|by apply Hst].
    + intros d Hd. destruct (I8 d Hd) as (e & He & Hb). exists e. split; [by right|]. unfold backlogged in *. by rewrite Hsame in Hb by (by apply Hst).
Qed.
(** What the packets taken from an input between two states number. *)
Definition taken (up up' : I) (c : Z) : Z := vlen (pending up c) - vlen (pending up' c).

(** The strides [w] do not change; the passes [P] are in order and at most [W]
    apart. *)
Context (w : Z -> Z) (w_range : forall c, 0 <= w c <= STRIDE1).

Record tracks (s : StrideSched) (P : Z -> Z) (W : Z) : Prop := {
  t_len : vlen (st_all s) = n;
  t_range c : c ∈ st_list s -> 0 <= c < n;
  t_nodup : NoDup (st_list s);
  t_pass c : c ∈ st_list s -> c_pass (vget (st_all s) c) = u32 (P c);
  t_stride c : c ∈ st_list s -> c_stride (vget (st_all s) c) = w c;
  t_sorted : StronglySorted (fun a b => P a <= P b) (st_list s);
  t_spread a b : a ∈ st_list s -> b ∈ st_list s -> P a - P b <= W
}.

(** The client [a] is at most a stride of its own in front of [b]. *)
Definition abreast (P : Z -> Z) (a b : Z) : Prop := P a <= P b + w a.

Lemma StronglySorted_app_split {A} (R : A -> A -> Prop) l1 l2 : StronglySorted R (l1 ++ l2) ->
  StronglySorted R l2 /\ forall a b, a ∈ l1 -> b ∈ l2 -> R a b.
Proof using Type.
  induction l1 as [|x l1 IH]; cbn [app]; intros Hs; [split; [done|]; intros a b Ha; by apply elem_of_nil in Ha|].
  apply StronglySorted_inv in Hs as [Hs Hx]. destruct (IH Hs) as [H1 H2]. split; [done|].
  intros a b Ha Hb. apply elem_of_cons in Ha as [-> |Ha]; [|by apply H2].
  pose proof (proj1 (Forall_forall _ _) Hx b) as Hxb. apply Hxb, elem_of_app. by right.
Qed.

Lemma stride_pull_step s P W up s' up' p : tracks s P W -> W + STRIDE1 < 2147483648 -> up_ok up -> stride_pull s up = (s', up', p) ->
  exists P', tracks s' P' (W + STRIDE1) /\ st_list s' ≡ₚ st_list s
  /\ (forall c, c ∈ st_list s -> backlogged up c -> P' c = P c + w c * taken up up' c)
  /\ forall a b, a ∈ st_list s -> b ∈ st_list s -> backlogged up a -> backlogged up b -> abreast P a b -> abreast P' a b.
Proof using Type*.
  intros [T1 T2 T3 T4 T5 T6 T7] HW Hok. unfold stride_pull.
  destruct (pull_loop (st_list s) (st_all s) up) as [[[[st rest] all] up1] p1] eqn:El. intros [= <- <- <-].
  apply pull_loop_spec in El as (I1 & I2 & I3 & I4 & I5 & I6 & I7 & I8); [|done|intros c Hc; rewrite T1; apply T2 in Hc; lia|done].
  set (P' := fun c => P c + if bool_decide (c ∈ st) then w c else 0).
  assert (HPle : forall c, P c <= P' c <= P c + STRIDE1) by (intros c; unfold P'; pose proof (w_range c); case_bool_decide; lia).
  rewrite I1 in T6, T3. destruct (StronglySorted_app_split _ _ _ T6) as [Hsr Hcross].
  assert (Hpass : forall c, c ∈ st_list s -> c_pass (vget all c) = u32 (P' c)).
  { intros c Hc. rewrite I4 by (rewrite T1; by apply T2). unfold P'. pose proof (T4 c Hc) as Hp. pose proof (T5 c Hc) as Hst.
    case_bool_decide; [|by rewrite Z.add_0_r]. cbn [c_pass stride]. rewrite Hp, Hst. unfold u32. by rewrite Zplus_mod_idemp_l. }
  assert (Hspread : forall a b, a ∈ st_list s -> b ∈ st_list s -> P' a - P' b <= W + STRIDE1).
  { intros a b Ha Hb. pose proof (T7 a b Ha Hb). pose proof (HPle a). pose proof (HPle b). lia. }
  assert (Hrest : StronglySorted (fun a b => P' a <= P' b) rest).
  { apply NoDup_app in T3 as (_ & Hdis & _). clear -Hsr Hdis. induction Hsr as [|c l Hs IH Hf]; constructor.
    - apply IH. intros x Hx Hin. eapply Hdis; [exact Hx|]. by right.
    - apply Forall_forall. rewrite Forall_forall in Hf. intros x Hx. specialize (Hf x Hx). unfold P'.
      rewrite !bool_decide_eq_false_2; [lia| |]; intros Hin; apply (Hdis _ Hin); [by right|by left]. }
  destruct (reinsert all P' st rest) as [Hperm Hsorted]; [|done|].
  { rewrite <- I1. split; [done|]. intros a b Ha Hb. pose proof (Hspread a b Ha Hb). lia. }
  rewrite <- I1 in Hperm. exists P'. split; [|split; [|split]].
  - constructor; cbn [st_all st_list]; [lia| | | | |done|]; intros *; rewrite ?Hperm; auto.
    + by rewrite I1.
    + intros Hc. rewrite I4 by (rewrite T1; by apply T2). case_bool_decide; cbn [c_stride stride]; by apply T5.
  - done.
  - intros c Hc Hb. unfold taken, P'. rewrite I5 by (by apply T2). unfold backlogged in Hb. case_bool_decide; [|lia].
    destruct (pending up c) as [|q l]; [done|]. cbn [tl]. unfold vlen. cbn [length]. lia.
  - intros a b Ha Hb Hba Hbb Hab. unfold abreast in *. pose proof (HPle b). rewrite I1 in Ha, Hb. unfold P'.
    case_bool_decide as Hast; [|fold (P' b); lia]. apply elem_of_app in Hb as [Hb|Hb].
    + rewrite (I6 a b Hast Hba Hb Hbb). rewrite bool_decide_eq_true_2 by done. pose proof (w_range b). lia.
    + pose proof (Hcross a b Hast Hb). fold (P' b). lia.
Qed.

(** Pulls from a sequence of upstream states, and what each client was served. *)
Fixpoint stride_run (s : StrideSched) (ups : list I) (served : Z -> Z) : StrideSched * (Z -> Z) :=
  match ups with
  | [] => (s, served)
  | up :: ups' => let '(s', up', _) := stride_pull s up in stride_run s' ups' (fun c => served c + taken up up' c)
  end.

(** The clients [B] have a packet whenever there is a pull; either there are few
    pulls, or every client is one of them. *)
Lemma stride_run_tracks (B : Z -> Prop) ups : forall s P W served s' served', tracks s P W ->
  (forall c, B c -> c ∈ st_list s) -> Forall (fun up => up_ok up /\ forall c, B c -> backlogged up c) ups ->
  (forall a b, B a -> B b -> abreast P a b) ->
  W + STRIDE1 * vlen ups < 2147483648 \/ W <= STRIDE1 /\ (forall c, c ∈ st_list s -> B c) ->
  stride_run s ups served = (s', served') ->
  exists P', (forall a b, B a -> B b -> abreast P' a b) /\ forall c, B c -> P' c - w c * served' c = P c - w c * served c.
Proof using Type*.
  induction ups as [|up ups IH]; intros s P W served s' served' Ht HB Hups Hab HW E; cbn [stride_run] in E.
  { injection E as <- <-. by exists P. }
  apply Forall_cons in Hups as [[Hok Hbk] Hups]. destruct (stride_pull s up) as [[s1 up1] p] eqn:Es.
  rewrite (vlen_cons up ups) in HW. pose proof (vlen_nonneg ups).
  destruct (stride_pull_step s P W up s1 up1 p Ht ltac:(unfold STRIDE1 in *; lia) Hok Es) as (P1 & Ht1 & Hl1 & Hs1 & Ha1).
  assert (Hab1 : forall a b, B a -> B b -> abreast P1 a b) by (intros a b Ha Hb; apply Ha1; auto).
  edestruct (IH s1 P1 (if bool_decide (W + STRIDE1 * (vlen ups + 1) < 2147483648) then W + STRIDE1 else STRIDE1)) as (P2 & H1 & H2); [| |done|exact Hab1| |exact E|].
  - case_bool_decide; [exact Ht1|]. destruct HW as [HW|[HW Hall]]; [lia|]. destruct Ht1 as [T1 T2 T3 T4 T5 T6 T7]. constructor; try done.
    intros a b. rewrite !Hl1. intros Ha Hb. pose proof (Hab1 a b (Hall a Ha) (Hall b Hb)) as Hd. unfold abreast in Hd. pose proof (w_range a). lia.
  - intros c Hc. rewrite Hl1. auto.
  - case_bool_decide as Hd; [left; lia|]. destruct HW as [HW|[HW Hall]]; [lia|]. right. split; [lia|]. intros c. rewrite Hl1. auto.
  - exists P2. split; [done|]. intros c Hc. rewrite H2 by done. rewrite Hs1 by auto. lia.
Qed.
End pulls.

(** ** Configuring *)

(** A client that was configured with [t] tickets. *)
Definition configured (t : Z) : Client := stride (client_set_tickets new_client t).

Lemma set_all_fresh conf : forall ts pre ms, map (int_arg true) conf = map Some ts -> Forall (fun t => 0 <= t <= MAX_TICKETS) ts ->
  set_all true conf (vlen pre) (pre ++ replicate (length conf) new_client) ms = (pre ++ map configured ts, ms).
Proof.
  induction conf as [|text conf IH]; intros [|t ts] pre ms Hm Ht; cbn [set_all map length replicate] in *.
  { by rewrite !app_nil_r. } { done. } { done. }
  injection Hm as Hv Hm.
  apply Forall_cons in Ht as [Ht Hts]. unfold MAX_TICKETS in Ht. rewrite Hv, i32_small by lia. rewrite (proj2 (Z.ltb_ge t 0)) by lia.
  rewrite (proj2 (Z.ltb_ge MAX_TICKETS t)) by (unfold MAX_TICKETS; lia). cbn [length replicate].
  assert (Hget : vget (pre ++ new_client :: replicate (length conf) new_client) (vlen pre) = new_client) by (apply vget_nat; by apply list_lookup_middle).
  assert (Hset : forall c, vset (pre ++ new_client :: replicate (length conf) new_client) (vlen pre) c = (pre ++ [c]) ++ replicate (length conf) new_client).
  { intros c. unfold vset, vlen. rewrite (proj2 (Z.leb_le 0 _)) by lia. rewrite Nat2Z.id, insert_app_r_alt by lia. rewrite Nat.sub_diag. by rewrite <- app_assoc. }
  rewrite Hget, Hset. replace (vlen pre + 1) with (vlen (pre ++ [configured t])) by apply vlen_vpush.
  fold (configured t). rewrite (IH ts) by done. by rewrite <- app_assoc.
Qed.

(** The stride of each client. *)
Definition share (ts : list Z) (c : Z) : Z := if vget ts c =? 0 then 0 else STRIDE1 / vget ts c.

(** The list of a fresh scheduler: the clients with tickets, in order. *)
Section fresh.
Context (ts : list Z) (ts_range : Forall (fun t => 0 <= t <= MAX_TICKETS) ts).
Abbreviation n := (vlen ts).
Abbreviation w := (share ts).

Lemma fresh_client c : 0 <= c < n -> vget (map configured ts) c = configured (vget ts c).
Proof using Type. intros Hc. apply vget_lookup; [lia|]. rewrite list_lookup_fmap, vget_some by done. done. Qed.

Lemma w_range c : 0 <= w c <= STRIDE1.
Proof using ts_range.
  unfold share. destruct (Z.eqb_spec (vget ts c) 0) as [|Hne]; [unfold STRIDE1; lia|].
  assert (Hr : 0 <= vget ts c).
  { destruct (decide (0 <= c < n)) as [Hc|Hc]; [|unfold vget; case_match; [|done]].
    - apply vget_some in Hc. by apply (Forall_lookup_1 _ _ _ _ ts_range) in Hc as [? _].
    - rewrite list_lookup_total_alt, lookup_ge_None_2; [done|unfold vlen in Hc; lia]. }
  pose proof (Z.div_le_upper_bound STRIDE1 (vget ts c) STRIDE1). pose proof (Z.div_pos STRIDE1 (vget ts c)). unfold STRIDE1 in *. nia.
Qed.

Lemma fresh_pass c : 0 <= c < n -> c_pass (vget (map configured ts) c) = u32 (w c) /\ c_stride (vget (map configured ts) c) = w c.
Proof using Type. intros Hc. rewrite fresh_client by done. unfold configured, client_set_tickets, share. by case_match. Qed.

Lemma fresh_list_spec (all := map configured ts) :
  let l := for_down 0 n (fun i l => if negb (c_tickets (vget all i) =? 0) then insert_client all i l else l) [] in
  NoDup l /\ (forall c, c ∈ l <-> 0 <= c < n /\ vget ts c <> 0) /\ StronglySorted (fun a b => w a <= w b) l.
Proof using ts_range.
  apply (for_down_inv (fun i l => NoDup l /\ (forall c, c ∈ l <-> i <= c < n /\ vget ts c <> 0) /\ StronglySorted (fun a b => w a <= w b) l)).
  { apply vlen_nonneg. }
  { split; [constructor|]. split; [|constructor]. intros c. split; [intros Hc; by apply elem_of_nil in Hc|lia]. }
  intros i l Hi (H1 & H2 & H3). replace (c_tickets (vget all i)) with (vget ts i) by (unfold all; by rewrite fresh_client by done).
  destruct (Z.eqb_spec (vget ts i) 0) as [Hz|Hz]; cbn [negb].
  - split; [done|]. split; [|done]. intros c. rewrite H2. destruct (decide (c = i)) as [-> |]; [lia|]. split; intros [? ?]; split; (lia || done).
  - assert (Hmem : forall c, c ∈ i :: l -> 0 <= c < n) by (intros c; rewrite elem_of_cons, H2; lia).
    pose proof (insert_perm all i l) as Hp. split; [rewrite Hp|split].
    + constructor; [|done]. rewrite H2. lia.
    + intros c. rewrite Hp, elem_of_cons, H2. destruct (decide (c = i)) as [-> |]; [split; [intros _; split; [lia|done]|intros _; by left]|].
      split; [intros [?|[? ?]]|intros [? ?]; right]; (split; [lia|done]) || done.
    + apply insert_sorted_passes; [|done]. split; [intros c Hc; by apply fresh_pass, Hmem|].
      intros a b _ _. pose proof (w_range a). pose proof (w_range b). unfold STRIDE1 in *. lia.
Qed.

Lemma configure_fresh conf : map (int_arg true) conf = map Some ts ->
  exists s, configure (vlen conf) new_stride conf = (s, []) /\ tracks (vlen conf) w s w STRIDE1
  /\ forall c, c ∈ st_list s <-> 0 <= c < vlen conf /\ 0 < vget ts c.
Proof using ts_range.
  intros Hconf. assert (Hlen : n = vlen conf) by (apply (f_equal length) in Hconf; rewrite !length_map in Hconf; unfold vlen; lia).
  pose proof (set_all_fresh conf ts [] [] Hconf ts_range) as Hset. cbn [app] in Hset. change (vlen (@nil Client)) with 0 in Hset.
  pose proof fresh_list_spec as (L1 & L2 & L3). rewrite Hlen in *. set (l := for_down _ _ _ _) in *.
  exists (mkStride (map configured ts) l). split; [|split].
  - unfold configure. rewrite Z.eqb_refl. cbn [negb st_all new_stride]. rewrite bool_decide_eq_true_2 by done.
    replace (Z.to_nat (vlen conf)) with (length conf) by (unfold vlen; lia). by rewrite Hset.
  - constructor; cbn [st_all st_list]; [unfold vlen in *; by rewrite length_map|..]; try done.
    + intros c Hc. by apply L2 in Hc as [? _].
    + intros c Hc. apply L2 in Hc as [Hc _]. apply fresh_pass; by rewrite ?Hlen.
    + intros c Hc. apply L2 in Hc as [Hc _]. apply fresh_pass; by rewrite ?Hlen.
    + intros a b _ _. pose proof (w_range a). pose proof (w_range b). lia.
  - intros c. cbn [st_list]. rewrite L2. split; intros [Hc Ht]; (split; [done|]); [|lia].
    pose proof (Forall_lookup_1 _ _ _ _ ts_range (vget_some ts c ltac:(lia))) as Hr. cbn in Hr. lia.
Qed.
End fresh.

(** An upstream whose inputs are lists of packets. *)
#[export] Instance lists_upstream {pkt : Type} : Upstream (Z -> list pkt) pkt := {
  up_pull u i := (fun j => if decide (j = i) then tl (u i) else u j, hd_error (u i));
  up_signal u i := match u i with [] => false | _ => true end
}.
#[export] Program Instance lists_lawful {pkt : Type} (n : Z) : LawfulUpstream (Z -> list pkt) pkt n := { up_ok _ := True; pending u := u }.
Next Obligation. done. Qed.
Next Obligation. done. Qed.
Next Obligation. done. Qed.
Next Obligation. intros pkt n u i _ _. cbn. by case_match. Qed.

(** What [StrideSwitch] does to its clients, [StrideSched] does when every input has
    a packet. *)
Definition all_busy (i : Z) : list Z := [i].

Lemma stride_push_pull s : let '(s', _, p) := stride_pull s all_busy in stride_push s = (s', p).
Proof. unfold stride_push, stride_pull. destruct s as [all [|c l]]; [done|]. cbn. done. Qed.

(** The outputs that [m] packets are pushed to. *)
Fixpoint stride_sends (s : StrideSched) (m : nat) : StrideSched * list (option Z) :=
  match m with
  | O => (s, [])
  | S m' => let '(s, out) := stride_push s in let '(s, outs) := stride_sends s m' in (s, out :: outs)
  end.

(** How often an output is among them. *)
Definition times_sent (outs : list (option Z)) (c : Z) : Z := vlen (List.filter (fun o => bool_decide (o = Some c)) outs).

Lemma sends_run n m : forall s served, exists s' outs served',
  stride_sends s m = (s', outs) /\ stride_run n s (replicate m all_busy) served = (s', served') /\ forall c, served' c = served c + times_sent outs c.
Proof.
  induction m as [|m IH]; intros s served; cbn [stride_sends stride_run replicate].
  { exists s, [], served. split; [done|]. split; [done|]. intros c. unfold times_sent, vlen. cbn. lia. }
  destruct s as [all l]. unfold stride_push, stride_pull. cbn [st_list st_all]. destruct l as [|d l].
  - cbn [pull_loop fold_left]. edestruct (IH (mkStride all []) (fun c => served c + taken n all_busy all_busy c)) as (s' & outs & served' & -> & -> & H).
    exists s', (None :: outs), served'. split; [done|]. split; [done|]. intros c. rewrite H. unfold taken, times_sent. cbn [List.filter]. rewrite bool_decide_eq_false_2 by done. lia.
  - cbn [pull_loop signal_pull up_signal lists_upstream all_busy up_pull hd_error fold_left tl].
    edestruct (IH (mkStride (vset all d (stride (vget all d))) (insert_client (vset all d (stride (vget all d))) d l))) as (s' & outs & served' & -> & -> & H).
    exists s', (Some d :: outs), served'. split; [done|]. split; [done|]. intros c. rewrite H. unfold taken, times_sent, all_busy. cbn [pending lists_lawful List.filter].
    destruct (decide (c = d)) as [-> |Hne]; [rewrite bool_decide_eq_true_2 by done; rewrite (vlen_cons (Some d)); change (vlen [d]) with 1; change (vlen (@nil Z)) with 0; lia|].
    rewrite bool_decide_eq_false_2 by congruence. lia.
Qed.

(** ** Properties *)

(** C36. Stride scheduling is fair.  A scheduler that was configured with the tickets
    [ts] pulls from any sequence of upstream states; of two inputs with tickets
    that have a packet at every pull, neither gets more than one packet ahead of its
    share, a share being [STRIDE1] divided by the tickets, rounded down.  Either
    there are at most 32766 pulls, or all inputs with tickets are busy. *)
Theorem stride_fair {I pkt : Type} `{Upstream I pkt} (conf : list (list Z)) (ts : list Z) `{!LawfulUpstream I pkt (vlen conf)}
    (ups : list I) (i j : Z) :
  map (int_arg true) conf = map Some ts -> Forall (fun t => 0 <= t <= MAX_TICKETS) ts ->
  0 <= i < vlen conf -> 0 <= j < vlen conf -> 0 < vget ts i -> 0 < vget ts j ->
  let busy c := Forall (fun up => pending up c <> []) ups in
  Forall up_ok ups -> busy i -> busy j -> vlen ups <= 32766 \/ (forall c, 0 <= c < vlen conf -> 0 < vget ts c -> busy c) ->
  let '(s, ms) := configure (vlen conf) new_stride conf in
  let '(_, served) := stride_run (vlen conf) s ups (fun _ => 0) in
  ms = [] /\ STRIDE1 / vget ts i * served i <= STRIDE1 / vget ts j * (served j + 1).
Proof.
  intros Hconf Hts Hi Hj Hti Htj busy Hok Hbi Hbj Hall.
  destruct (configure_fresh ts Hts conf Hconf) as (s & -> & Ht & Hl). destruct (stride_run _ _ _ _) as [s' served] eqn:Er. split; [done|].
  set (B := fun c => (0 <= c < vlen conf /\ 0 < vget ts c) /\ busy c).
  destruct (stride_run_tracks (vlen conf) (share ts) (w_range ts Hts) B ups s (share ts) STRIDE1 (fun _ => 0) s' served Ht) as (P & H1 & H2); [| | | |exact Er|].
  - intros c [Hc _]. by apply Hl.
  - apply Forall_forall. intros up Hup. split; [by apply (proj1 (Forall_forall _ _) Hok)|].
    intros c [_ Hc]. by apply (proj1 (Forall_forall _ _) Hc).
  - intros a b _ _. unfold abreast. pose proof (w_range ts Hts b). lia.
  - destruct Hall as [Hall|Hall]; [left; unfold STRIDE1; lia|]. right. split; [lia|]. intros c Hc. apply Hl in Hc. split; [done|]. destruct Hc. by apply Hall.
  - assert (Bi : B i) by done. assert (Bj : B j) by done. pose proof (H1 i j Bi Bj) as Ha. unfold abreast in Ha.
    pose proof (H2 i Bi) as E1. pose proof (H2 j Bj) as E2. unfold share in *. rewrite !(proj2 (Z.eqb_neq _ 0)) in * by lia. lia.
Qed.

(** "3", "1" and "0" tickets, input 2 never having its turn. *)
Definition three_one_zero : list (list Z) := [[51]; [49]; [48]].
Lemma stride_fair_witness :
  (let '(s, ms) := configure (vlen three_one_zero) new_stride three_one_zero in
   let '(_, served) := stride_run (vlen three_one_zero) s (replicate 40 all_busy) (fun _ => 0) in
   ms = [] /\ STRIDE1 / vget [3; 1; 0] 1 * served 1 <= STRIDE1 / vget [3; 1; 0] 0 * (served 0 + 1))
  /\ (let '(s, _) := configure 3 new_stride three_one_zero in
      let '(_, served) := stride_run 3 s (replicate 40 all_busy) (fun _ => 0) in map served [0; 1; 2] = [30; 10; 0]).
Proof.
  split; [|vm_compute; reflexivity].
  apply (stride_fair three_one_zero [3; 1; 0] (replicate 40 all_busy) 1 0); try (vm_compute; (reflexivity || (split; congruence))).
  - repeat constructor; vm_compute; congruence.
  - by apply Forall_forall.
  - apply Forall_forall. intros up Hup. apply elem_of_replicate in Hup as [-> _]. done.
  - apply Forall_forall. intros up Hup. apply elem_of_replicate in Hup as [-> _]. done.
  - left. vm_compute. congruence.
Defined.

(** C39. [StrideSwitch] spreads packets over its outputs as [StrideSched] does: after any
    number of packets no output with tickets has had more than one packet beyond its
    share in comparison with another. *)
Theorem stride_switch_fair (conf : list (list Z)) (ts : list Z) (m : nat) (i j : Z) :
  map (int_arg true) conf = map Some ts -> Forall (fun t => 0 <= t <= MAX_TICKETS) ts ->
  0 <= i < vlen conf -> 0 <= j < vlen conf -> 0 < vget ts i -> 0 < vget ts j ->
  let '(s, _) := configure (vlen conf) new_stride conf in
  let '(_, outs) := stride_sends s m in
  STRIDE1 / vget ts i * times_sent outs i <= STRIDE1 / vget ts j * (times_sent outs j + 1).
Proof.
  intros Hconf Hts Hi Hj Hti Htj.
  destruct (sends_run (vlen conf) m (configure (vlen conf) new_stride conf).1 (fun _ => 0)) as (s' & outs & served & Es & Er & Hsent).
  destruct (configure_fresh ts Hts conf Hconf) as (s & Ec & Ht & Hl). rewrite Ec in *. cbn [fst] in *. rewrite Es.
  set (B := fun c => 0 <= c < vlen conf /\ 0 < vget ts c).
  destruct (stride_run_tracks (vlen conf) (share ts) (w_range ts Hts) B (replicate m all_busy) s (share ts) STRIDE1 (fun _ => 0) s' served Ht) as (P & H1 & H2); [| | | |exact Er|].
  - intros c Hc. by apply Hl.
  - apply Forall_forall. intros up Hup. apply elem_of_replicate in Hup as [-> _]. split; [done|]. by intros c _.
  - intros a b _ _. unfold abreast. pose proof (w_range ts Hts b). lia.
  - right. split; [lia|]. intros c Hc. by apply Hl.
  - pose proof (H1 i j (conj Hi Hti) (conj Hj Htj)) as Ha. unfold abreast in Ha. pose proof (H2 i (conj Hi Hti)) as E1. pose proof (H2 j (conj Hj Htj)) as E2.
    rewrite Hsent in E1, E2. unfold share in *. rewrite !(proj2 (Z.eqb_neq _ 0)) in * by lia. lia.
Qed.

Lemma stride_switch_fair_witness :
  (let '(s, _) := configure (vlen three_one_zero) new_stride three_one_zero in
   let '(_, outs) := stride_sends s 40 in
   STRIDE1 / vget [3; 1; 0] 1 * times_sent outs 1 <= STRIDE1 / vget [3; 1; 0] 0 * (times_sent outs 0 + 1))
  /\ (stride_sends (configure 3 new_stride three_one_zero).1 8).2 = map Some [0; 0; 0; 1; 0; 0; 0; 1].
Proof.
  split; [|vm_compute; reflexivity].
  apply (stride_switch_fair three_one_zero [3; 1; 0] 40 1 0); try (vm_compute; (reflexivity || (split; congruence))).
  repeat constructor; vm_compute; congruence.
Defined.

(** Inputs that are idle keep their passes.  One with 32768 tickets that was idle
    for a hundred pulls then has all the turns (the first five thousand are computed
    here); one that was idle for 33000 pulls is taken to be 2^31 ahead, for [PASS_GT] has changed its
    sign, and has no turn at all until the other input has come round. *)
Definition many_one : list (list Z) := [[51; 50; 55; 54; 56]; [49]].
Definition first_idle (i : Z) : list Z := if i =? 0 then [] else [i].
Definition after_idling (idle busy : Z) : list Z :=
  let '(s, _) := configure 2 new_stride many_one in
  let '(s, _) := stride_run 2 s (replicate (Z.to_nat idle) first_idle) (fun _ => 0) in
  let '(_, served) := stride_run 2 s (replicate (Z.to_nat busy) all_busy) (fun _ => 0) in map served [0; 1].

Example stride_idle_saves : after_idling 100 5000 = [5000; 0].
Proof. vm_compute. reflexivity. Qed.

Example stride_idle_starves : after_idling 33000 5000 = [0; 5000].
Proof. vm_compute. reflexivity. Qed.
