(* ===== verification/IPRoute.v ===== *)
(** * IP prefixes and the linear routing table

    [IPAddress] prefixes (include/click/ipaddress.hh, lib/ipaddress.cc),
    [IPRoute] (elements/ip/iproutetable.hh) and [LinearIPLookup]
    (elements/ip/lineariplookup.cc): an array of routes in which each route
    points past the routes it cannot contain, and killed routes are reused. *)

From S2P Require Import Prelude Insn.
Local Open Scope word_scope.
Local Open Scope Z_scope.

(** ** [IPAddress]

    An address is the 32-bit word in network byte order that [addr()] returns. *)

Definition make_prefix (prefix_len : Z) : Z :=
  ntohl (if 0 <? prefix_len then u32 (4294967295 .<< (32 - prefix_len)) else 0).

(** [ffs_lsb]: one more than the index of the lowest set bit, or 0. *)
Fixpoint ffs_from (fuel : nat) (i x : Z) : Z :=
  match fuel with
  | O => 0
  | S fuel' => if Z.testbit x i then i + 1 else ffs_from fuel' (i + 1) x
  end.

Definition ffs_lsb (x : Z) : Z := ffs_from 32 0 x.

Definition mask_to_prefix_len (addr : Z) : Z :=
  let host_addr := ntohl addr in
  let prefix := ffs_lsb host_addr in
  if prefix =? 0 then 0
  else if host_addr =? u32 (4294967295 .<< (prefix - 1)) then 33 - prefix
  else -1.

Definition matches_prefix (a addr mask : Z) : bool := ((a .^ addr) .& mask) =? 0.
Definition mask_as_specific (m mask : Z) : bool := (m .& mask) =? mask.
Definition mask_more_specific (m mask : Z) : bool := (u32 (m .<< 1) .& mask) =? mask.

(** ** [IPRoute] *)

Record IPRoute := mkRoute { addr : Z; mask : Z; gw : Z; port : Z; extra : Z }.

#[export] Instance IPRoute_inhabited : Inhabited IPRoute := populate (mkRoute 0 0 0 (-1) 0).

Definition real (r : IPRoute) : bool := -2147483648 <? port r.

Definition kill (r : IPRoute) : IPRoute := mkRoute 0 4294967295 (gw r) (-2147483648) (extra r).

Definition contains (r : IPRoute) (a : Z) : bool := matches_prefix a (addr r) (mask r).

Definition contains_route (r r' : IPRoute) : bool :=
  matches_prefix (addr r') (addr r) (mask r) && mask_as_specific (mask r') (mask r).

Definition route_match (r r' : IPRoute) : bool :=
  (addr r =? addr r') && (mask r =? mask r') && ((port r <? 0) || ((gw r =? gw r') && (port r =? port r'))).

Definition set_extra (r : IPRoute) (e : Z) : IPRoute := mkRoute (addr r) (mask r) (gw r) (port r) e.

(** ** [LinearIPLookup] *)

Definition EEXIST : Z := 17.
Definition ENOENT : Z := 2.

Record LinearIPLookup := mkLinear {
  rt : list IPRoute;             (** [_t] *)
  zero_route : Z;                (** [_zero_route] *)
  last_addr : Z;                 (** [_last_addr], 0 when there is no cached lookup *)
  last_entry : Z;
  last_addr2 : Z;
  last_entry2 : Z
}.

Definition new_linear : LinearIPLookup := mkLinear [] (-1) 0 0 0 0.

(** The first loop of [add_route]: the index of the route with the same prefix,
    or else the slot to use. *)
Fixpoint scan_routes (r : IPRoute) (t : list IPRoute) (i size found : Z) : Z + Z :=
  match t with
  | [] => inr found
  | x :: t' =>
      if negb (real x) then scan_routes r t' (i + 1) size (if found =? size then i else found)
      else if (addr x =? addr r) && (mask x =? mask r) then inl i
      else scan_routes r t' (i + 1) size found
  end.

(** [for (i = found - 1; i >= 0; i--)]: routes before the slot that contain it. *)
Definition patch_before (t : list IPRoute) (r : IPRoute) (found : Z) : list IPRoute :=
  for_down 0 found (fun i t =>
    let x := vget t i in
    if contains_route x r && (found <? extra x) then vset t i (set_extra x found) else t) t.

(** [for (i = found + 1; ...; i++)]: the first later route the new one contains. *)
Fixpoint first_contained (r : IPRoute) (t : list IPRoute) (i : Z) : option Z :=
  match t with
  | [] => None
  | x :: t' => if contains_route r x && real x then Some i else first_contained r t' (i + 1)
  end.

Definition no_caches (s : LinearIPLookup) (t : list IPRoute) (z : Z) : LinearIPLookup :=
  mkLinear t z 0 (last_entry s) 0 (last_entry2 s).

(** [add_route]: the new state, the return value and the route replaced. *)
Definition add_route (s : LinearIPLookup) (r : IPRoute) (allow_replace : bool)
    : LinearIPLookup * Z * option IPRoute :=
  match scan_routes r (rt s) 0 (vlen (rt s)) (vlen (rt s)) with
  | inl i =>
      let x := vget (rt s) i in
      if negb allow_replace then (s, - EEXIST, Some x)
      else (mkLinear (vset (rt s) i (mkRoute (addr x) (mask x) (gw r) (port r) (extra x)))
              (zero_route s) (last_addr s) (last_entry s) (last_addr2 s) (last_entry2 s), 0, Some x)
  | inr found =>
      let t := if found =? vlen (rt s) then vpush (rt s) r else vset (rt s) found r in
      let t := vset t found (set_extra r 2147483647) in
      let t := patch_before t r found in
      let t := match first_contained r (drop (Z.to_nat (found + 1)) t) (found + 1) with
               | Some i => vset t found (set_extra (vget t found) i)
               | None => t
               end in
      let z := if (addr r =? 0) && (mask r =? 4294967295) then found else zero_route s in
      (no_caches s t z, 0, None)
  end.

Fixpoint find_match (r : IPRoute) (t : list IPRoute) (i : Z) : option Z :=
  match t with
  | [] => None
  | x :: t' => if route_match r x then Some i else find_match r t' (i + 1)
  end.

Definition remove_route (s : LinearIPLookup) (r : IPRoute) : LinearIPLookup * Z * option IPRoute :=
  match find_match r (rt s) 0 with
  | None => (s, - ENOENT, None)
  | Some i =>
      let old := vget (rt s) i in
      let t := vset (rt s) i (kill old) in
      let s1 :=
        if i =? zero_route s
        then mkLinear t (-1) (last_addr s) (last_entry s) (last_addr2 s) (last_entry2 s)
        else if i <? zero_route s then
          let zero := vget t (zero_route s) in
          let t := vset t (zero_route s) (kill zero) in
          (add_route (mkLinear t (zero_route s) (last_addr s) (last_entry s) (last_addr2 s) (last_entry2 s))
             zero false).1.1
        else mkLinear t (zero_route s) (last_addr s) (last_entry s) (last_addr2 s) (last_entry2 s) in
      (no_caches s1 (rt s1) (zero_route s1), 0, Some old)
  end.

(** The first route that contains the address, and the routes from [j] on that
    are at least as specific. *)
Fixpoint first_containing (a : Z) (t : list IPRoute) (i : Z) : option Z :=
  match t with
  | [] => None
  | x :: t' => if contains x a then Some i else first_containing a t' (i + 1)
  end.

Definition refine_entry (t : list IPRoute) (a : Z) (j found : Z) : Z :=
  if contains (vget t j) a && mask_as_specific (mask (vget t j)) (mask (vget t found)) then j else found.

Definition lookup_entry (t : list IPRoute) (a : Z) : Z :=
  match first_containing a t 0 with
  | Some i => for_up (extra (vget t i)) (vlen t) (refine_entry t a) i
  | None => -1
  end.

(** The output port and the gateway; -1 without a gateway when nothing matches. *)
Definition lookup_route (t : list IPRoute) (a : Z) : Z * option Z :=
  let ei := lookup_entry t a in
  if 0 <=? ei then (port (vget t ei), Some (gw (vget t ei))) else (-1, None).

(** [push] for a destination annotation: the state, and the port and new
    annotation, or [None] when the packet is killed. *)
Definition linear_push (s : LinearIPLookup) (a : Z) : LinearIPLookup * option (Z * Z) :=
  let '(s, ei) :=
    if negb (a =? 0) && (a =? last_addr s) then (s, last_entry s)
    else if negb (a =? 0) && (a =? last_addr2 s) then (s, last_entry2 s)
    else
      let ei := lookup_entry (rt s) a in
      if 0 <=? ei
      then (mkLinear (rt s) (zero_route s) a ei (last_addr s) (last_entry s), ei)
      else (s, ei) in
  if 0 <=? ei then
    let e := vget (rt s) ei in
    (s, Some (port e, if negb (gw e =? 0) then gw e else a))
  else (s, None).

(** ** Prefix masks *)

Definition prefix_mask (m : Z) : Prop := exists l, 0 <= l <= 32 /\ m = make_prefix l.

Lemma forall_len (P : Z -> bool) :
  forallb P (seqZ 0 33) = true -> forall l, 0 <= l <= 32 -> P l = true.
Proof. intros Hf l Hl. rewrite forallb_forall in Hf. apply Hf, list_elem_of_In, elem_of_seqZ. lia. Qed.

Lemma make_prefix_land l1 l2 :
  0 <= l1 <= 32 -> 0 <= l2 <= 32 -> make_prefix l1 .& make_prefix l2 = make_prefix (Z.min l1 l2).
Proof.
  intros H1 H2.
  assert (Hall : forallb (fun l1 => forallb (fun l2 =>
    make_prefix l1 .& make_prefix l2 =? make_prefix (Z.min l1 l2)) (seqZ 0 33)) (seqZ 0 33) = true)
    by (vm_compute; reflexivity).
  apply (forall_len _ Hall) in H1. apply (forall_len _ H1) in H2. by apply Z.eqb_eq.
Qed.

(** Prefix masks form a chain. *)
Lemma prefix_mask_total m1 m2 :
  prefix_mask m1 -> prefix_mask m2 -> mask_as_specific m1 m2 = true \/ mask_as_specific m2 m1 = true.
Proof.
  intros (l1 & H1 & ->) (l2 & H2 & ->). unfold mask_as_specific.
  rewrite (Z.land_comm (make_prefix l2)), make_prefix_land by done.
  destruct (Z.min_spec l1 l2) as [[_ ->]|[_ ->]]; rewrite Z.eqb_refl; auto.
Qed.

Lemma mask_as_specific_trans m1 m2 m3 :
  mask_as_specific m1 m2 = true -> mask_as_specific m2 m3 = true -> mask_as_specific m1 m3 = true.
Proof.
  unfold mask_as_specific. rewrite !Z.eqb_eq. intros H1 H2. rewrite <- H2 at 1.
  rewrite Z.land_assoc, H1. done.
Qed.

Lemma mask_as_specific_refl m : mask_as_specific m m = true.
Proof. unfold mask_as_specific. rewrite Z.land_diag. apply Z.eqb_refl. Qed.

Lemma mask_as_specific_antisym m1 m2 :
  mask_as_specific m1 m2 = true -> mask_as_specific m2 m1 = true -> m1 = m2.
Proof. unfold mask_as_specific. rewrite !Z.eqb_eq. intros H1 H2. rewrite <- H1, Z.land_comm. done. Qed.

Lemma matches_prefix_iff a p m : matches_prefix a p m = true <-> a .& m = p .& m.
Proof.
  unfold matches_prefix. rewrite Z.eqb_eq. split; intros Hm.
  - apply Z.bits_inj'. intros k Hk. rewrite !Z.land_spec.
    assert (Hb : Z.testbit ((a .^ p) .& m) k = false) by (rewrite Hm; apply Z.bits_0).
    rewrite Z.land_spec, Z.lxor_spec in Hb. by destruct (Z.testbit a k), (Z.testbit p k), (Z.testbit m k).
  - apply Z.bits_inj'. intros k Hk. rewrite Z.bits_0, Z.land_spec, Z.lxor_spec.
    assert (Hb : Z.testbit (a .& m) k = Z.testbit (p .& m) k) by (by rewrite Hm). rewrite !Z.land_spec in Hb.
    by destruct (Z.testbit a k), (Z.testbit p k), (Z.testbit m k).
Qed.

(** Two routes that contain the same address: the wider contains the other. *)
Lemma contains_nested r1 r2 a :
  contains r1 a = true -> contains r2 a = true -> mask_as_specific (mask r2) (mask r1) = true ->
  contains_route r1 r2 = true.
Proof.
  unfold contains, contains_route. rewrite !matches_prefix_iff. intros H1 H2 Hs. rewrite Hs, andb_true_r.
  apply matches_prefix_iff. unfold mask_as_specific in Hs. apply Z.eqb_eq in Hs.
  rewrite <- H1, <- Hs. rewrite !Z.land_assoc, <- H2. done.
Qed.

(** ** Well-formed tables *)

(** A prefix as [cp_ip_route] stores it, other than 0.0.0.0/32. *)
Definition prefix_ok (p m : Z) : Prop :=
  0 <= p < 4294967296 /\ prefix_mask m /\ p .& m = p /\ (p, m) <> (0, 4294967295).

Definition route_ok (r : IPRoute) : Prop := prefix_ok (addr r) (mask r) /\ 0 <= port r.

Definition killed (r : IPRoute) : Prop := addr r = 0 /\ mask r = 4294967295 /\ port r = -2147483648.

Record table_ok (t : list IPRoute) : Prop := {
  to_routes i : 0 <= i < vlen t -> route_ok (vget t i) \/ killed (vget t i);
  to_unique i j : 0 <= i < vlen t -> 0 <= j < vlen t -> real (vget t i) = true -> real (vget t j) = true ->
    addr (vget t i) = addr (vget t j) -> mask (vget t i) = mask (vget t j) -> i = j;
  to_after i : 0 <= i < vlen t -> i < extra (vget t i);
  to_next i j : 0 <= i -> i < j < vlen t -> real (vget t i) = true -> real (vget t j) = true ->
    contains_route (vget t i) (vget t j) = true -> extra (vget t i) <= j;
  to_size : vlen t < 2147483647
}.

Lemma route_ok_real r : route_ok r -> real r = true.
Proof. intros [_ Hp]. unfold real. apply Z.ltb_lt. lia. Qed.

Lemma killed_real r : killed r -> real r = false.
Proof. intros (_ & _ & Hp). unfold real. apply Z.ltb_ge. lia. Qed.

Lemma killed_contains r a : killed r -> 0 <= a < 4294967296 -> contains r a = true -> a = 0.
Proof.
  intros (K1 & K2 & _) Ha. unfold contains. rewrite matches_prefix_iff, K1, K2, Z.land_0_l.
  change 4294967295 with (Z.ones 32). rewrite Z.land_ones by lia. rewrite Z.mod_small by (change (2 ^ 32) with 4294967296; lia).
  done.
Qed.

Lemma contains_real t i a :
  table_ok t -> 0 <= i < vlen t -> 0 < a < 4294967296 -> contains (vget t i) a = true ->
  route_ok (vget t i) /\ real (vget t i) = true.
Proof.
  intros Ht Hi Ha Hc. destruct (to_routes t Ht i Hi) as [Hr|Hk].
  - split; [done|by apply route_ok_real].
  - apply killed_contains in Hc; [lia|done|lia].
Qed.

Lemma route_ok_mask r : route_ok r -> prefix_mask (mask r).
Proof. intros ((_ & Hm & _) & _). done. Qed.

(** ** Lookup *)

(** The longest prefix of the table that contains the address. *)
Definition best (t : list IPRoute) (a i : Z) : Prop :=
  0 <= i < vlen t /\ contains (vget t i) a = true
  /\ forall j, 0 <= j < vlen t -> contains (vget t j) a = true ->
     mask_as_specific (mask (vget t i)) (mask (vget t j)) = true.

Lemma first_containing_spec a t i0 :
  match first_containing a t i0 with
  | None => forall i, 0 <= i < vlen t -> contains (vget t i) a = false
  | Some k => i0 <= k < i0 + vlen t /\ contains (vget t (k - i0)) a = true
              /\ forall i, 0 <= i < k - i0 -> contains (vget t i) a = false
  end.
Proof.
  revert i0. induction t as [|x t IH]; intros i0; cbn [first_containing].
  { intros i Hi. unfold vlen in Hi. simpl in Hi. lia. }
  pose proof (vlen_nonneg t). rewrite vlen_cons. destruct (contains x a) eqn:Ec.
  - split; [lia|]. rewrite Z.sub_diag. split; [done|]. intros; lia.
  - specialize (IH (i0 + 1)). destruct (first_containing a t (i0 + 1)) as [k|].
    + destruct IH as (Hk & Hc & Hb). split; [lia|]. split.
      * rewrite vget_cons_S by lia. by replace (k - i0 - 1) with (k - (i0 + 1)) by lia.
      * intros i Hi. destruct (decide (i = 0)) as [->|]; [done|]. rewrite vget_cons_S by lia. apply Hb. lia.
    + intros i Hi. destruct (decide (i = 0)) as [->|]; [done|]. rewrite vget_cons_S by lia. apply IH. lia.
Qed.

(** The scan keeps the most specific route seen so far. *)
Lemma refine_scan t a lo i :
  table_ok t -> 0 < a < 4294967296 -> 0 <= i < vlen t -> contains (vget t i) a = true ->
  0 <= lo <= vlen t ->
  let k := for_up lo (vlen t) (refine_entry t a) i in
  0 <= k < vlen t /\ contains (vget t k) a = true
  /\ mask_as_specific (mask (vget t k)) (mask (vget t i)) = true
  /\ forall j, lo <= j < vlen t -> contains (vget t j) a = true ->
     mask_as_specific (mask (vget t k)) (mask (vget t j)) = true.
Proof.
  intros Ht Ha Hi Hc Hlo k.
  pose (P := fun (m : Z) (k : Z) => 0 <= k < vlen t /\ contains (vget t k) a = true
    /\ mask_as_specific (mask (vget t k)) (mask (vget t i)) = true
    /\ forall j, lo <= j < m -> contains (vget t j) a = true ->
       mask_as_specific (mask (vget t k)) (mask (vget t j)) = true).
  enough (Hp : P (vlen t) k) by exact Hp. unfold k. apply for_up_inv.
  - lia.
  - split; [done|]. split; [done|]. split; [apply mask_as_specific_refl|intros; lia].
  - intros m found Hm (Hf & Hcf & Hsf & Hbf). unfold refine_entry.
    destruct (contains (vget t m) a) eqn:Ecm; cbn [andb].
    + destruct (mask_as_specific (mask (vget t m)) (mask (vget t found))) eqn:Es.
      * split; [lia|]. split; [done|]. split; [by eapply mask_as_specific_trans|].
        intros j Hj Hcj. destruct (decide (j = m)) as [->|]; [apply mask_as_specific_refl|].
        eapply mask_as_specific_trans; [exact Es|]. apply Hbf; [lia|done].
      * split; [done|]. split; [done|]. split; [done|]. intros j Hj Hcj.
        destruct (decide (j = m)) as [->|]; [|apply Hbf; [lia|done]].
        destruct (contains_real t m a Ht ltac:(lia) Ha Ecm) as [Hrm _].
        destruct (contains_real t found a Ht ltac:(lia) Ha Hcf) as [Hrf _].
        destruct (prefix_mask_total (mask (vget t m)) (mask (vget t found))) as [|]; [by apply route_ok_mask..|congruence|done].
    + split; [done|]. split; [done|]. split; [done|]. intros j Hj Hcj.
      destruct (decide (j = m)) as [->|]; [congruence|]. apply Hbf; [lia|done].
Qed.

Lemma lookup_entry_best t a :
  table_ok t -> 0 < a < 4294967296 ->
  let ei := lookup_entry t a in
  (0 <= ei /\ best t a ei)
  \/ (ei = -1 /\ forall i, 0 <= i < vlen t -> contains (vget t i) a = false).
Proof.
  intros Ht Ha. unfold lookup_entry. pose proof (first_containing_spec a t 0) as Hf.
  destruct (first_containing a t 0) as [i|]; [|by right]. left.
  rewrite Z.sub_0_r in Hf. destruct Hf as (Hi & Hc & Hb). rewrite Z.add_0_l in Hi.
  destruct (contains_real t i a Ht Hi Ha Hc) as [Hri Hreal].
  pose proof (to_after t Ht i Hi) as Haft.
  assert (Hbefore : forall j, 0 <= j < extra (vget t i) -> j < vlen t -> contains (vget t j) a = true ->
    mask_as_specific (mask (vget t i)) (mask (vget t j)) = true).
  { intros j Hj Hjl Hcj. destruct (Z.lt_trichotomy j i) as [Hlt|[->|Hgt]].
    - by rewrite Hb in Hcj by lia.
    - apply mask_as_specific_refl.
    - destruct (contains_real t j a Ht ltac:(lia) Ha Hcj) as [Hrj Hrealj].
      destruct (prefix_mask_total (mask (vget t i)) (mask (vget t j))) as [|Hs]; [by apply route_ok_mask..|done|].
      pose proof (to_next t Ht i j ltac:(lia) ltac:(lia) Hreal Hrealj (contains_nested _ _ a Hc Hcj Hs)). lia. }
  destruct (Z.le_gt_cases (extra (vget t i)) (vlen t)) as [Hle|Hgt].
  - assert (Hrange : 0 <= extra (vget t i) <= vlen t) by lia.
    destruct (refine_scan t a (extra (vget t i)) i Ht Ha Hi Hc Hrange) as (K1 & K2 & K3 & K4).
    split; [lia|]. split; [done|]. split; [done|]. intros j Hj Hcj.
    destruct (Z.lt_ge_cases j (extra (vget t i))); [|apply K4; [lia|done]].
    eapply mask_as_specific_trans; [exact K3|]. apply Hbefore; [lia|lia|done].
  - rewrite for_up_nil by lia. split; [lia|]. split; [done|]. split; [done|]. intros j Hj Hcj.
    apply Hbefore; [lia|lia|done].
Qed.
