(* ===== verification/Addresses.v ===== *)
(** * Addresses in text

    [IPAddressArg], [IPPrefixArg] and [IPAddress::unparse] of
    click/lib/ipaddress.cc, [EtherAddressArg] and [EtherAddress::unparse_dash] and
    [unparse_colon] of click/lib/etheraddress.cc.  An IP address is the word that
    [addr()] returns, an Ethernet address its six bytes.  What a text that is not
    an address stands for in the configuration, [AddressInfo], is an interface. *)

From S2P Require Import Prelude Packet Insn Words ClassifierParse IPRoute IntArg.
From stdpp Require Import strings.
Local Open Scope word_scope.
Local Open Scope Z_scope.

(** ** [IPAddressArg] *)

(** The loop over the digits behind the first; [part] stays below 2560. *)
Fixpoint part_digits (s : list Z) (part : Z) : list Z * Z :=
  match s with
  | c :: rest => if isdigit c && (part <=? 255) then part_digits rest (part * 10 + c - 48) else (s, part)
  | [] => ([], part)
  end.

(** [basic_parse]: what is left, the bytes and their number; one unit of fuel for
    each of the four bytes that are missing. *)
Fixpoint basic_parse_loop (fuel : nat) (d : Z) (s : list Z) (value : list Z) : list Z * list Z * Z :=
  match fuel with
  | O => (s, value, d)
  | S fuel' =>
      match s with
      | c :: rest =>
          if (d =? 0) || (c =? 46) then
            match (if d =? 0 then s else rest) with
            | t :: rest' =>
                if isdigit t then
                  let '(s', part) := part_digits rest' (t - 48) in
                  if 255 <? part then (s, value, d) else basic_parse_loop fuel' (d + 1) s' (vset value d part)
                else (s, value, d)
            | [] => (s, value, d)
            end
          else (s, value, d)
      | [] => (s, value, d)
      end
  end.

Definition basic_parse (s : list Z) : list Z * list Z * Z := basic_parse_loop 4 0 s [0; 0; 0; 0].

(** The word whose bytes in memory are [v]. *)
Definition pack4 (v : list Z) : Z := le32 (vget v 0) (vget v 1) (vget v 2) (vget v 3).

(** [AddressInfo]: names of addresses in the context of an element. *)
Class AddressInfo := {
  query_ip : list Z -> option Z;
  query_ip_prefix : list Z -> option (Z * Z);
  query_ethernet : list Z -> option (list Z)
}.

Section addresses.
Context `{AddressInfo}.

Definition ip_parse (s : list Z) : option Z :=
  let '(rest, value, nbytes) := basic_parse s in
  if bool_decide (rest = []) && (nbytes =? 4) then Some (pack4 value) else query_ip s.

(** ** [IPPrefixArg] *)

(** [prefix_with_slash]: the address in front of the slash, the mask behind it. *)
Definition prefix_with_slash (left right : list Z) : option (Z * Z) :=
  let '(rest, value, nbytes) := basic_parse left in
  '(a, nbytes) ←
    if bool_decide (rest = []) then Some (pack4 value, nbytes) else a ← query_ip left; Some (a, 4);
  m ←
    match int_arg_base 10 true right with
    | Some v => let l := i32 v in if (0 <=? l) && (l <=? 32) then Some (make_prefix l) else ip_parse right
    | None => ip_parse right
    end;
  (** "check whether mask specifies more bits than user bothered to define" *)
  if (nbytes <? 4) && negb ((m .& make_prefix (nbytes * 8)) =? m) then None else Some (a, m).

(** The index of the last slash, or 0. *)
Fixpoint last_slash (n : nat) (s : list Z) : Z :=
  match n with
  | O => 0
  | S n' => if vget s (Z.of_nat n') =? 47 then Z.of_nat n' else last_slash n' s
  end.

Definition ip_prefix_parse (allow_bare_address : bool) (s : list Z) : option (Z * Z) :=
  let slash := last_slash (length s) s in
  let with_slash :=
    if negb (slash =? 0) && negb (slash + 1 =? vlen s)
    then prefix_with_slash (take (Z.to_nat slash) s) (drop (Z.to_nat (slash + 1)) s) else None in
  match with_slash with
  | Some r => Some r
  | None =>
      match (if allow_bare_address then ip_parse s else None) with
      | Some a => Some (a, 4294967295)
      | None => query_ip_prefix s
      end
  end.

(** ** [EtherAddressArg] *)

Definition hex_digit (c : Z) : option Z :=
  if (48 <=? c) && (c <=? 57) then Some (c - 48)
  else if (97 <=? c) && (c <=? 102) then Some (c - 97 + 10)
  else if (65 <=? c) && (c <=? 70) then Some (c - 65 + 10)
  else None.

(** Bytes, their index, the digits of this byte so far, and the separator.  A byte
    is written before it is read. *)
Record ether_state := mkEther { et_data : list Z; et_d : Z; et_p : Z; et_sep : Z }.

(** One turn of the loop; [None] is [break]. *)
Definition ether_step (st : ether_state) (c : Z) : option ether_state :=
  let '(mkEther data d p sep) := st in
  match hex_digit c with
  | Some digit =>
      if (p =? 2) || (d =? 6) then None
      else Some (mkEther (vset data d (((if p =? 0 then 0 else vget data d .<< 4) + digit) mod 256)) d (p + 1) sep)
  | None =>
      let sep := if (sep =? 0) && ((c =? 45) || (c =? 58)) then c else sep in
      if (c =? sep) && ((p =? 1) || (p =? 2)) && (d <? 5) then Some (mkEther data (d + 1) 0 sep) else None
  end.

Fixpoint ether_loop (s : list Z) (st : ether_state) : option ether_state :=
  match s with
  | [] => Some st
  | c :: rest => st' ← ether_step st c; ether_loop rest st'
  end.

Definition ether_parse (s : list Z) : option (list Z) :=
  match ether_loop s (mkEther (repeat 0 6) 0 0 0) with
  | Some st => if negb (et_p st =? 0) && (et_d st =? 5) then Some (et_data st) else query_ethernet s
  | None => query_ethernet s
  end.
End addresses.

(** ** Unparsing *)

(** ["%d"] of a byte, ["%02X"] of a byte. *)
Definition dec_byte (n : Z) : list Z :=
  if n <? 10 then [48 + n]
  else if n <? 100 then [48 + n / 10; 48 + n mod 10]
  else [48 + n / 100; 48 + n / 10 mod 10; 48 + n mod 10].

Definition hex_char (n : Z) : Z := if n <? 10 then 48 + n else 65 + (n - 10).
Definition hex_byte (n : Z) : list Z := [hex_char (n / 16); hex_char (n mod 16)].

Definition unparse (a : Z) : list Z :=
  dec_byte (byte_of a 0) ++ [46] ++ dec_byte (byte_of a 1) ++ [46] ++ dec_byte (byte_of a 2) ++ [46] ++ dec_byte (byte_of a 3).

Definition unparse_mask (a : Z) : list Z :=
  let prefix_len := mask_to_prefix_len a in if 0 <=? prefix_len then dec_byte prefix_len else unparse a.

Definition unparse_with_mask (a m : Z) : list Z := unparse a ++ [47] ++ unparse_mask m.

Definition unparse_ether (sep : Z) (e : list Z) : list Z :=
  hex_byte (vget e 0) ++ [sep] ++ hex_byte (vget e 1) ++ [sep] ++ hex_byte (vget e 2) ++ [sep]
  ++ hex_byte (vget e 3) ++ [sep] ++ hex_byte (vget e 4) ++ [sep] ++ hex_byte (vget e 5).

Definition unparse_dash : list Z -> list Z := unparse_ether 45.
Definition unparse_colon : list Z -> list Z := unparse_ether 58.

(** ** Reading what was written *)

(** No digit in front of the text. *)
Definition no_digit (s : list Z) : bool := match s with c :: _ => negb (isdigit c) | [] => true end.

Lemma part_digits_cons c s part : isdigit c = true -> part <= 255 -> part_digits (c :: s) part = part_digits s (part * 10 + c - 48).
Proof. intros Hc Hp. cbn [part_digits]. by rewrite Hc, (proj2 (Z.leb_le _ _) Hp). Qed.

Lemma part_digits_stop s part : no_digit s = true -> part_digits s part = (s, part).
Proof. destruct s as [|c s]; [done|]. cbn. by intros ->%negb_true_iff. Qed.

Lemma isdigit_add n : 0 <= n < 10 -> isdigit (48 + n) = true.
Proof. intros Hn. unfold isdigit. apply andb_true_iff. split; apply Z.leb_le; lia. Qed.

(** A byte in decimal: a first digit, and the digits behind it. *)
Lemma dec_byte_read n rest : 0 <= n < 256 -> no_digit rest = true ->
  exists c s, dec_byte n ++ rest = c :: s /\ isdigit c = true /\ part_digits s (c - 48) = (rest, n).
Proof.
  intros Hn Hr. unfold dec_byte. pose proof (Z.mod_pos_bound n 10 ltac:(lia)) as Hm. pose proof (Z.mod_pos_bound (n / 10) 10 ltac:(lia)) as Hm2.
  pose proof (Z.div_mod n 10 ltac:(lia)) as D1. pose proof (Z.div_mod (n / 10) 10 ltac:(lia)) as D2. rewrite Z.div_div in D2 by lia. change (10 * 10) with 100 in D2.
  destruct (Z.ltb_spec n 10); [|destruct (Z.ltb_spec n 100)]; eexists _, _; (split; [reflexivity|]).
  - rewrite isdigit_add by lia. split; [done|]. rewrite part_digits_stop by done. f_equal. lia.
  - assert (0 <= n / 10 < 10) by lia. rewrite isdigit_add by lia. split; [done|]. cbn [app].
    rewrite part_digits_cons, part_digits_stop by (done || lia || by apply isdigit_add). f_equal. lia.
  - assert (0 <= n / 100 < 10) by lia. rewrite isdigit_add by lia. split; [done|]. cbn [app].
    rewrite !part_digits_cons by (by apply isdigit_add || lia). rewrite part_digits_stop by done. f_equal. lia.
Qed.

Lemma basic_parse_first n rest fuel v : 0 <= n < 256 -> no_digit rest = true ->
  basic_parse_loop (S fuel) 0 (dec_byte n ++ rest) v = basic_parse_loop fuel 1 rest (vset v 0 n).
Proof.
  intros Hn Hr. destruct (dec_byte_read n rest Hn Hr) as (c & s & -> & Hc & Hp). cbn [basic_parse_loop].
  change (0 =? 0) with true. cbn [orb]. rewrite Hc, Hp. by rewrite (proj2 (Z.ltb_ge 255 n)) by lia.
Qed.

Lemma basic_parse_next n rest fuel d v : 0 < d -> 0 <= n < 256 -> no_digit rest = true ->
  basic_parse_loop (S fuel) d (46 :: dec_byte n ++ rest) v = basic_parse_loop fuel (d + 1) rest (vset v d n).
Proof.
  intros Hd Hn Hr. destruct (dec_byte_read n rest Hn Hr) as (c & s & -> & Hc & Hp). cbn [basic_parse_loop].
  change (46 =? 46) with true. rewrite orb_true_r, (proj2 (Z.eqb_neq d 0)) by lia. rewrite Hc, Hp. by rewrite (proj2 (Z.ltb_ge 255 n)) by lia.
Qed.

Lemma le32_byte_of a : 0 <= a < 4294967296 -> le32 (byte_of a 0) (byte_of a 1) (byte_of a 2) (byte_of a 3) = a.
Proof.
  intros Ha. rewrite le32_add by apply byte_of_range. unfold byte_of. change (Z.land ?x 255) with (Z.land x (Z.ones 8)).
  rewrite !Z.land_ones, !Z.shiftr_div_pow2 by lia. change (2 ^ (8 * 0)) with 1. change (2 ^ (8 * 1)) with 256. change (2 ^ (8 * 2)) with 65536.
  change (2 ^ (8 * 3)) with 16777216. change (2 ^ 8) with 256.
  pose proof (Z.div_mod a 256 ltac:(lia)). pose proof (Z.div_mod (a / 256) 256 ltac:(lia)). pose proof (Z.div_mod (a / 65536) 256 ltac:(lia)).
  rewrite !Z.div_div in * by lia. change (256 * 256) with 65536 in *. change (65536 * 256) with 16777216 in *. rewrite Z.div_1_r.
  rewrite (Z.mod_small (a / 16777216) 256) by (split; [apply Z.div_pos; lia|apply Z.div_lt_upper_bound; lia]). lia.
Qed.

Lemma basic_parse_unparse a : 0 <= a < 4294967296 ->
  basic_parse (unparse a) = ([], [byte_of a 0; byte_of a 1; byte_of a 2; byte_of a 3], 4).
Proof.
  intros Ha. unfold basic_parse, unparse. pose proof (byte_of_range a) as Hb. rewrite basic_parse_first by (done || apply Hb). cbn [app].
  do 2 rewrite basic_parse_next by (done || lia || apply Hb). rewrite <- (app_nil_r (dec_byte (byte_of a 3))).
  rewrite basic_parse_next by (done || lia || apply Hb). done.
Qed.

(** The invariant in the comment of [IPAddress::unparse]: the text of an
    address is read back as the address, whatever names are defined. *)
Theorem ip_unparse_parse `{AddressInfo} a : 0 <= a < 4294967296 -> ip_parse (unparse a) = Some a.
Proof.
  intros Ha. unfold ip_parse. rewrite basic_parse_unparse by done. rewrite bool_decide_true by done. cbn. f_equal. by apply le32_byte_of.
Qed.

Lemma ip_unparse_parse_witness : ip_parse (H := Build_AddressInfo (fun _ => None) (fun _ => None) (fun _ => None)) (chars "18.26.4.9") = Some 151263762
  /\ unparse 151263762 = chars "18.26.4.9" /\ ip_parse (H := Build_AddressInfo (fun _ => None) (fun _ => None) (fun _ => None)) (unparse 151263762) = Some 151263762.
Proof. split; [vm_compute; reflexivity|]. split; [vm_compute; reflexivity|]. apply ip_unparse_parse. lia. Defined.

(** *** Masks and prefixes *)

Lemma ffs_from_range fuel : forall i x, 0 <= i ->
  (ffs_from fuel i x = 0 /\ forall k, i <= k < i + Z.of_nat fuel -> Z.testbit x k = false) \/ i + 1 <= ffs_from fuel i x <= i + Z.of_nat fuel.
Proof.
  induction fuel as [|fuel IH]; intros i x Hi; cbn [ffs_from]; [left; split; [done|lia]|].
  destruct (Z.testbit x i) eqn:E; [right; lia|]. destruct (IH (i + 1) x ltac:(lia)) as [[E0 Hk]|]; [|right; lia].
  left. split; [done|]. intros k Hk'. destruct (Z.eq_dec k i) as [->|]; [done|]. apply Hk. lia.
Qed.

(** A mask with a prefix length is the mask of that length. *)
Lemma mask_len m : 0 <= m < 4294967296 -> 0 <= mask_to_prefix_len m ->
  mask_to_prefix_len m <= 32 /\ make_prefix (mask_to_prefix_len m) = m.
Proof.
  intros Hm. unfold mask_to_prefix_len. cbv zeta. pose proof (ntohl_range m) as Hh. set (h := ntohl m) in *.
  assert (Em : ntohl h = m) by (by apply ntohl_involutive).
  destruct (ffs_from_range 32 0 h ltac:(lia)) as [[Ez Hz]|Hr]; fold (ffs_lsb h) in *.
  - rewrite Ez. intros _. change (0 =? 0) with true. cbv iota. split; [lia|]. rewrite <- Em. assert (h = 0) as ->; [|done].
    apply Z.bits_inj'. intros k Hk. rewrite Z.bits_0. destruct (Z.lt_decidable k 32) as [|Hge]; [apply Hz; lia|].
    destruct (Z.eq_dec h 0) as [->|]; [apply Z.bits_0|]. apply Z.bits_above_log2; [lia|]. assert (Z.log2 h < 32) by (apply Z.log2_lt_pow2; lia). lia.
  - rewrite (proj2 (Z.eqb_neq (ffs_lsb h) 0)) by lia. destruct (Z.eqb_spec h (u32 (4294967295 .<< (ffs_lsb h - 1)))) as [E|]; [|lia].
    intros _. split; [lia|]. unfold make_prefix. rewrite (proj2 (Z.ltb_lt 0 _)) by lia. replace (32 - (33 - ffs_lsb h)) with (ffs_lsb h - 1) by lia. by rewrite <- E.
Qed.

Lemma dec_byte_int l : 0 <= l <= 32 -> int_arg_base 10 true (dec_byte l) = Some l.
Proof.
  intros Hl. assert (Hall : forallb (fun l => bool_decide (int_arg_base 10 true (dec_byte l) = Some l)) (seqZ 0 33) = true) by (vm_compute; reflexivity).
  pose proof (forall_len _ Hall l Hl) as E. by apply bool_decide_eq_true in E.
Qed.

(** A number ends in front of a character that is neither digit nor underscore. *)
Lemma span_loop_stops b s k : is_digit b (vget s k) = false -> vget s k <> 95 -> forall fuel i last, i <= k -> last <= k ->
  (span_loop fuel b s i last).2 <= k.
Proof.
  intros Hd Hu. induction fuel as [|fuel IH]; intros i last Hi Hl; cbn [span_loop]; [done|].
  destruct (i <? vlen s); [|done]. destruct (Z.eq_dec i k) as [->|].
  - by rewrite (proj2 (Z.eqb_neq _ _) Hu), Hd.
  - destruct (_ && _); [apply IH; lia|]. destruct (is_digit b (vget s i)); [apply IH; lia|done].
Qed.

Lemma int_stops s k : 2 <= k < vlen s -> is_digit 10 (vget s k) = false -> vget s k <> 95 -> int_arg_base 10 true s = None.
Proof.
  intros Hk Hd Hu. unfold int_arg_base, parse_int, span. set (i0 := if has_sign true s then 1 else 0). assert (0 <= i0 <= 1) by (unfold i0; destruct (has_sign true s); lia).
  assert (E : prefix_base s i0 10 = (i0, 10)) by done. rewrite E. pose proof (span_loop_stops 10 s k Hd Hu (length s) i0 (i0 - 1) ltac:(lia) ltac:(lia)) as Hs.
  destruct (span_loop _ _ _ _ _) as [i last]. cbn [snd] in Hs. set (xend := if negb (i =? i0) then last else if 1 <? i0 then i0 - 1 else 0).
  assert (Hx : xend <= k) by (unfold xend; destruct (negb _); [done|]; destruct (1 <? i0); lia).
  destruct (_ || _); [rewrite (proj2 (Z.eqb_neq 0 _)) by lia; done|]. cbv zeta. rewrite (proj2 (Z.eqb_neq xend _)) by lia. done.
Qed.

Lemma dec_byte_chars n : 0 <= n < 256 -> 1 <= vlen (dec_byte n) <= 3 /\ Forall (fun c => isdigit c = true) (dec_byte n).
Proof.
  intros Hn. unfold dec_byte. pose proof (Z.mod_pos_bound n 10 ltac:(lia)). pose proof (Z.mod_pos_bound (n / 10) 10 ltac:(lia)).
  destruct (Z.ltb_spec n 10); [|destruct (Z.ltb_spec n 100)]; (split; [unfold vlen; simpl; lia|]); repeat apply Forall_cons_2; try apply Forall_nil_2; apply isdigit_add; try lia.
  all: split; [apply Z.div_pos; lia|apply Z.div_lt_upper_bound; lia].
Qed.

Lemma no_slash s : Forall (fun c => isdigit c = true) s -> 47 ∉ s.
Proof. intros Hf Hin. rewrite Forall_forall in Hf. by specialize (Hf _ Hin). Qed.

Lemma unparse_no_slash a : 47 ∉ unparse a.
Proof.
  unfold unparse. pose proof (fun k => no_slash _ (proj2 (dec_byte_chars _ (byte_of_range a k)))) as H.
  rewrite !elem_of_app, !list_elem_of_singleton. intros [?|[?|[?|[?|[?|[?|?]]]]]]; try done; by eapply H.
Qed.

Lemma unparse_no_int a : int_arg_base 10 true (unparse a) = None.
Proof.
  pose proof (proj1 (dec_byte_chars _ (byte_of_range a 0))). pose proof (proj1 (dec_byte_chars _ (byte_of_range a 1))).
  set (l := dec_byte (byte_of a 0) ++ [46] ++ dec_byte (byte_of a 1)). set (r := dec_byte (byte_of a 2) ++ [46] ++ dec_byte (byte_of a 3)).
  assert (E : unparse a = l ++ 46 :: r) by (unfold unparse, l, r; by rewrite <- !app_assoc).
  assert (El : 3 <= vlen l) by (unfold l; rewrite !vlen_app; change (vlen [46]) with 1; lia).
  assert (Eg : vget (unparse a) (vlen l) = 46) by (rewrite E, vget_app_r, Z.sub_diag by lia; apply vget_cons_0).
  apply (int_stops _ (vlen l)); rewrite ?Eg; [|done|lia]. rewrite E, vlen_app, vlen_cons. pose proof (vlen_nonneg r). lia.
Qed.

(** What [prefix_with_slash] makes of the text of a mask. *)
Lemma mask_read `{AddressInfo} m : 0 <= m < 4294967296 ->
  match int_arg_base 10 true (unparse_mask m) with
  | Some v => let l := i32 v in if (0 <=? l) && (l <=? 32) then Some (make_prefix l) else ip_parse (unparse_mask m)
  | None => ip_parse (unparse_mask m)
  end = Some m.
Proof.
  intros Hm. unfold unparse_mask. cbv zeta. destruct (Z.leb_spec 0 (mask_to_prefix_len m)) as [Hl|_].
  - destruct (mask_len m Hm Hl) as [H32 E]. rewrite dec_byte_int by lia. assert (i32 (mask_to_prefix_len m) = mask_to_prefix_len m) as ->.
    { unfold i32, u32. rewrite Z.mod_small by lia. by rewrite (proj2 (Z.ltb_lt _ _)) by lia. }
    rewrite (proj2 (Z.leb_le 0 _)), (proj2 (Z.leb_le _ 32)) by lia. cbn [andb]. by rewrite E.
  - rewrite unparse_no_int. unfold ip_parse. rewrite basic_parse_unparse by done. rewrite bool_decide_true by done. cbn. f_equal. by apply le32_byte_of.
Qed.

Lemma last_slash_at l r : 47 ∉ r -> last_slash (length (l ++ (47 :: r))) (l ++ (47 :: r)) = vlen l.
Proof.
  intros Hr. assert (H : forall n, (n <= length r)%nat -> last_slash (length l + S n) (l ++ (47 :: r)) = vlen l).
  { induction n as [|n IH]; intros Hn.
    - rewrite Nat.add_1_r. cbn [last_slash]. fold (vlen l). rewrite vget_app_r, Z.sub_diag, vget_cons_0 by lia. done.
    - rewrite Nat.add_succ_r. cbn [last_slash]. rewrite vget_app_r by (unfold vlen; lia). replace (Z.of_nat (length l + S n) - vlen l) with (Z.of_nat n + 1) by (unfold vlen; lia).
      rewrite vget_cons_S, Z.add_simpl_r by lia. rewrite (proj2 (Z.eqb_neq _ 47)); [apply IH; lia|].
      intros E. apply Hr. rewrite <- E. apply elem_of_vget. exists (Z.of_nat n). split; [unfold vlen; lia|done]. }
  rewrite length_app. cbn [length]. by apply H.
Qed.

Lemma unparse_mask_chars m : 0 <= m < 4294967296 -> (47 ∉ unparse_mask m) /\ 0 < vlen (unparse_mask m).
Proof.
  intros Hm. unfold unparse_mask. cbv zeta. destruct (Z.leb_spec 0 (mask_to_prefix_len m)) as [Hl|_].
  - destruct (mask_len m Hm Hl) as [H32 _]. destruct (dec_byte_chars (mask_to_prefix_len m) ltac:(lia)) as [Hv Hf]. split; [by apply no_slash|lia].
  - split; [apply unparse_no_slash|]. pose proof (proj1 (dec_byte_chars _ (byte_of_range m 0))). unfold unparse. rewrite vlen_app. pose proof (vlen_nonneg ([46] ++ dec_byte (byte_of m 1) ++ [46] ++ dec_byte (byte_of m 2) ++ [46] ++ dec_byte (byte_of m 3))). lia.
Qed.

(** C31.  [unparse_with_mask] writes an address and a mask, as a prefix length when
    it is one, so that [IPPrefixArg] reads the same address and the same mask. *)
Theorem prefix_unparse_parse `{AddressInfo} bare a m : 0 <= a < 4294967296 -> 0 <= m < 4294967296 ->
  ip_prefix_parse bare (unparse_with_mask a m) = Some (a, m).
Proof.
  intros Ha Hm. unfold ip_prefix_parse, unparse_with_mask. destruct (unparse_mask_chars m Hm) as [Hns Hlen]. cbn [app].
  rewrite last_slash_at by done. pose proof (proj1 (dec_byte_chars _ (byte_of_range a 0))) as Hd.
  assert (Hu : 0 < vlen (unparse a)) by (unfold unparse; rewrite vlen_app; match goal with |- context [_ + vlen ?x] => pose proof (vlen_nonneg x) end; lia).
  cbv zeta. rewrite vlen_app, vlen_cons, (proj2 (Z.eqb_neq (vlen (unparse a)) 0)), (proj2 (Z.eqb_neq (vlen (unparse a) + 1) _)) by lia. cbn [negb andb].
  assert (E1 : take (Z.to_nat (vlen (unparse a))) (unparse a ++ (47 :: unparse_mask m)) = unparse a) by (unfold vlen; by rewrite Nat2Z.id, take_app_length).
  assert (E2 : drop (Z.to_nat (vlen (unparse a) + 1)) (unparse a ++ (47 :: unparse_mask m)) = unparse_mask m).
  { replace (Z.to_nat (vlen (unparse a) + 1)) with (length (unparse a) + 1)%nat by (unfold vlen; lia). by rewrite <- drop_drop, drop_app_length. }
  rewrite E1, E2. unfold prefix_with_slash. rewrite basic_parse_unparse, mask_read by done. rewrite bool_decide_true by done. cbn [mbind option_bind].
  change (4 <? 4) with false. cbn [andb]. do 2 f_equal. by apply le32_byte_of.
Qed.

Lemma prefix_unparse_parse_witness :
  unparse_with_mask 151263762 255 = chars "18.26.4.9/8"
  /\ ip_prefix_parse (H := Build_AddressInfo (fun _ => None) (fun _ => None) (fun _ => None)) false (unparse_with_mask 151263762 255) = Some (151263762, 255).
Proof. split; [vm_compute; reflexivity|]. apply prefix_unparse_parse; lia. Defined.

(** *** Ethernet addresses *)

Lemma hex_char_read n : 0 <= n < 16 -> hex_digit (hex_char n) = Some n.
Proof.
  intros Hn. assert (Hall : forallb (fun n => negb (n <? 16) || bool_decide (hex_digit (hex_char n) = Some n)) (seqZ 0 33) = true) by (vm_compute; reflexivity).
  pose proof (forall_len _ Hall n ltac:(lia)) as E. cbv beta in E. rewrite (proj2 (Z.ltb_lt n 16)) in E by lia. by apply bool_decide_eq_true in E.
Qed.

Lemma ether_step_digit data d p sep c digit : hex_digit c = Some digit -> p <> 2 -> d <> 6 ->
  ether_step (mkEther data d p sep) c
  = Some (mkEther (vset data d (((if p =? 0 then 0 else vget data d .<< 4) + digit) mod 256)) d (p + 1) sep).
Proof. intros E Hp Hd. unfold ether_step. by rewrite E, (proj2 (Z.eqb_neq p 2)), (proj2 (Z.eqb_neq d 6)). Qed.

(** Two digits write one byte. *)
Lemma ether_byte n rest data d sep : 0 <= n < 256 -> 0 <= d < 6 -> d < vlen data ->
  ether_loop (hex_byte n ++ rest) (mkEther data d 0 sep) = ether_loop rest (mkEther (vset data d n) d 2 sep).
Proof.
  intros Hn Hd Hl. pose proof (Z.mod_pos_bound n 16 ltac:(lia)). pose proof (Z.div_mod n 16 ltac:(lia)).
  assert (0 <= n / 16 < 16) by (split; [apply Z.div_pos; lia|apply Z.div_lt_upper_bound; lia]).
  unfold hex_byte. cbn [app ether_loop]. rewrite (ether_step_digit _ _ _ _ _ (n / 16)) by (lia || by apply hex_char_read).
  cbn [mbind option_bind]. rewrite (ether_step_digit _ _ _ _ _ (n mod 16)) by (lia || by apply hex_char_read).
  cbn [mbind option_bind]. change (0 + 1 =? 0) with false. change (0 =? 0) with true. cbv iota.
  rewrite vget_vset_eq by lia. do 2 f_equal. rewrite Z.add_0_l, (Z.mod_small (n / 16) 256), Z.shiftl_mul_pow2 by lia. rewrite Z.mod_small by lia.
  unfold vset. rewrite (proj2 (Z.leb_le 0 d)), list_insert_insert_eq by lia. f_equal. lia.
Qed.

(** A separator between two bytes: the first one decides which it is. *)
Lemma ether_sep c rest data d sep : c = 45 \/ c = 58 -> sep = 0 \/ sep = c -> d < 5 ->
  ether_loop (c :: rest) (mkEther data d 2 sep) = ether_loop rest (mkEther data (d + 1) 0 c).
Proof.
  intros Hc Hs Hd. cbn [ether_loop]. unfold ether_step. assert (hex_digit c = None) as -> by (by destruct Hc as [-> | ->]).
  assert ((if (sep =? 0) && ((c =? 45) || (c =? 58)) then c else sep) = c) as -> by (by destruct Hs as [-> | ->], Hc as [-> | ->]).
  rewrite Z.eqb_refl, (proj2 (Z.ltb_lt d 5)) by done. done.
Qed.

(** C33.  Both texts of an Ethernet address, in upper-case hexadecimal with dashes
    or with colons, are read back as the same six bytes. *)
Theorem ether_unparse_parse `{AddressInfo} e : vlen e = 6 -> Forall (fun x => 0 <= x < 256) e ->
  ether_parse (unparse_dash e) = Some e /\ ether_parse (unparse_colon e) = Some e.
Proof.
  intros Hl Hf. destruct e as [|b0 [|b1 [|b2 [|b3 [|b4 [|b5 [|? ?]]]]]]]; try (unfold vlen in Hl; simpl in Hl; lia).
  repeat (apply Forall_cons in Hf as [? Hf]). clear Hf.
  assert (H6 : forall sep, sep = 45 \/ sep = 58 -> ether_parse (unparse_ether sep [b0; b1; b2; b3; b4; b5]) = Some [b0; b1; b2; b3; b4; b5]).
  { intros sep Hs. unfold ether_parse, unparse_ether.
    change (vget [b0; b1; b2; b3; b4; b5] 0) with b0. change (vget [b0; b1; b2; b3; b4; b5] 1) with b1. change (vget [b0; b1; b2; b3; b4; b5] 2) with b2.
    change (vget [b0; b1; b2; b3; b4; b5] 3) with b3. change (vget [b0; b1; b2; b3; b4; b5] 4) with b4. change (vget [b0; b1; b2; b3; b4; b5] 5) with b5.
    rewrite ether_byte by (done || lia). cbn [app]. rewrite ether_sep by auto with lia.
    do 4 (rewrite ether_byte by (done || lia); rewrite ether_sep by auto with lia).
    rewrite <- (app_nil_r (hex_byte b5)), ether_byte by (done || lia). done. }
  split; apply H6; auto.
Qed.

Lemma ether_unparse_parse_witness :
  let e := [0; 26; 43; 60; 77; 255] in
  let db := Build_AddressInfo (fun _ => None) (fun _ => None) (fun _ => None) in
  unparse_dash e = chars "00-1A-2B-3C-4D-FF"
  /\ ether_parse (H := db) (unparse_dash e) = Some e /\ ether_parse (H := db) (unparse_colon e) = Some e.
Proof. cbv zeta. split; [vm_compute; reflexivity|]. apply ether_unparse_parse; [vm_compute; reflexivity|]. repeat constructor; lia. Defined.

(** ** Ranges *)

(** What is defined by name is a word, too. *)
Class LawfulAddresses `{AddressInfo} : Prop := {
  query_ip_word w a : query_ip w = Some a -> 0 <= a < 4294967296;
  query_prefix_word w a m : query_ip_prefix w = Some (a, m) -> 0 <= a < 4294967296 /\ 0 <= m < 4294967296;
  query_ethernet_bytes w e : query_ethernet w = Some e -> vlen e = 6 /\ Forall (fun x => 0 <= x < 256) e
}.

Lemma part_digits_nonneg s part : 0 <= part -> 0 <= (part_digits s part).2.
Proof.
  revert part. induction s as [|c s IH]; intros part Hp; cbn [part_digits]; [done|]. destruct (isdigit c && (part <=? 255)) eqn:E; [|done].
  apply IH. unfold isdigit in E. bprop. lia.
Qed.

Lemma Forall_vset {A} (P : A -> Prop) l i x : Forall P l -> P x -> Forall P (vset l i x).
Proof. intros Hl Hx. unfold vset. destruct (_ <=? _); [|done]. by apply Forall_insert. Qed.

Lemma basic_parse_bytes fuel : forall d s v, vlen v = 4 -> Forall (fun x => 0 <= x < 256) v ->
  let r := basic_parse_loop fuel d s v in vlen r.1.2 = 4 /\ Forall (fun x => 0 <= x < 256) r.1.2.
Proof.
  induction fuel as [|fuel IH]; intros d s v Hl Hv; cbn [basic_parse_loop]; [done|]. destruct s as [|c s]; [done|]. destruct (_ || _); [|done].
  destruct (if d =? 0 then c :: s else s) as [|t rest]; [done|]. destruct (isdigit t) eqn:Et; [|done].
  pose proof (part_digits_nonneg rest (t - 48)) as Hn. destruct (part_digits rest (t - 48)) as [s' part]. cbn [snd] in Hn.
  destruct (Z.ltb_spec 255 part); [done|]. apply IH; [by rewrite vlen_vset|]. apply Forall_vset; [done|].
  unfold isdigit in Et. bprop. specialize (Hn ltac:(lia)). lia.
Qed.

Lemma le32_word b0 b1 b2 b3 : 0 <= b0 < 256 -> 0 <= b1 < 256 -> 0 <= b2 < 256 -> 0 <= b3 < 256 -> 0 <= le32 b0 b1 b2 b3 < 4294967296.
Proof. intros ? ? ? ?. rewrite le32_add by done. lia. Qed.

Lemma vget_byte (v : list Z) i : 0 <= i < vlen v -> Forall (fun x => 0 <= x < 256) v -> 0 <= vget v i < 256.
Proof. intros Hi Hv. rewrite Forall_forall in Hv. apply Hv, elem_of_vget. by exists i. Qed.

Section ranges.
Context `{LawfulAddresses}.

Lemma pack4_word s : 0 <= pack4 (basic_parse s).1.2 < 4294967296.
Proof using Type.
  destruct (basic_parse_bytes 4 0 s [0; 0; 0; 0] eq_refl ltac:(repeat constructor; lia)) as [Hl Hv]. fold (basic_parse s) in *.
  unfold pack4. apply le32_word; apply vget_byte; first [done|lia].
Qed.

Lemma ip_parse_word s a : ip_parse s = Some a -> 0 <= a < 4294967296.
Proof using H0.
  unfold ip_parse. pose proof (pack4_word s) as Hp. destruct (basic_parse s) as [[rest v] n]. cbn [fst snd] in Hp.
  destruct (_ && _); [by intros [= <-]|apply query_ip_word].
Qed.

Lemma make_prefix_word l : 0 <= make_prefix l < 4294967296.
Proof using Type. apply ntohl_range. Qed.

Lemma ip_prefix_parse_word bare s a m : ip_prefix_parse bare s = Some (a, m) -> 0 <= a < 4294967296 /\ 0 <= m < 4294967296.
Proof using H0.
  unfold ip_prefix_parse. cbv zeta. destruct (if negb _ && _ then _ else None) as [[a' m']|] eqn:Ew.
  - intros [= <- <-]. destruct (_ && _) in Ew; [|done]. unfold prefix_with_slash in Ew. set (left := take _ s) in Ew. set (right := drop _ s) in Ew. pose proof (pack4_word left) as Hp.
    destruct (basic_parse left) as [[rest v] n]. cbn [fst snd] in Hp.
    destruct (if bool_decide (rest = []) then _ else _) as [[a1 n1]|] eqn:Ea; cbn [mbind option_bind] in Ew; [|done].
    assert (Ha : 0 <= a1 < 4294967296).
    { destruct (bool_decide _) in Ea; [by injection Ea as <- _|]. destruct (query_ip left) as [a2|] eqn:Eq; [|done]. injection Ea as <- _. by eapply query_ip_word. }
    destruct (match int_arg_base 10 true right with Some _ => _ | None => _ end) as [m1|] eqn:Em; cbn [mbind option_bind] in Ew; [|done].
    destruct (_ && _) in Ew; [done|]. injection Ew as <- <-. split; [done|].
    destruct (int_arg_base 10 true right); [destruct (_ && _) in Em; [injection Em as <-; apply make_prefix_word|]|]; by eapply ip_parse_word.
  - destruct (if bare then ip_parse s else None) as [a'|] eqn:Eb; [|apply query_prefix_word]. intros [= <- <-]. split; [|lia]. destruct bare; [|done]. by eapply ip_parse_word.
Qed.

Lemma ether_loop_bytes s : forall st st', ether_loop s st = Some st' -> vlen (et_data st) = 6 -> Forall (fun x => 0 <= x < 256) (et_data st) ->
  vlen (et_data st') = 6 /\ Forall (fun x => 0 <= x < 256) (et_data st').
Proof using Type.
  induction s as [|c s IH]; intros st st' E Hl Hf; cbn [ether_loop] in E; [by injection E as <-|].
  destruct (ether_step st c) as [st1|] eqn:Es; [|done]. cbn [mbind option_bind] in E. apply (IH _ _ E); destruct st as [data d p sep]; unfold ether_step in Es; cbn [et_data] in *.
  - destruct (hex_digit c); [destruct (_ || _) in Es|destruct (_ && _ && _) in Es]; try done; injection Es as <-; cbn [et_data]; [by rewrite vlen_vset|done].
  - destruct (hex_digit c); [destruct (_ || _) in Es|destruct (_ && _ && _) in Es]; try done; injection Es as <-; cbn [et_data]; [|done].
    apply Forall_vset; [done|]. apply Z.mod_pos_bound. lia.
Qed.

Lemma ether_parse_bytes s e : ether_parse s = Some e -> vlen e = 6 /\ Forall (fun x => 0 <= x < 256) e.
Proof using H0.
  unfold ether_parse. destruct (ether_loop _ _) as [st|] eqn:E; [|apply query_ethernet_bytes]. destruct (_ && _); [|apply query_ethernet_bytes].
  intros [= <-]. apply (ether_loop_bytes _ _ _ E); [done|]. repeat constructor; lia.
Qed.
End ranges.
