(* ===== verification/LinearRoute.v ===== *)
(** * The linear routing table implements longest-prefix matching

    The abstract table is a finite map from prefixes to gateways and ports.
    [LinearIPLookup] keeps its array well formed under any sequence of updates
    and lookups, answers updates as the map does and looks addresses up by
    longest prefix, with or without its caches. *)

From stdpp Require Import gmap.
From S2P Require Import Prelude Insn IPRoute.
Local Open Scope word_scope.
Local Open Scope Z_scope.

(** ** The abstract table *)

Abbreviation prefix := (Z * Z)%type.
Abbreviation hop := (Z * Z)%type.
Abbreviation routes := (gmap prefix hop).

Definition covers (k : prefix) (a : Z) : bool := matches_prefix a k.1 k.2.

(** The result of a longest-prefix lookup. *)
Definition lpm (M : routes) (a : Z) (o : option hop) : Prop :=
  match o with
  | None => forall k v, M !! k = Some v -> covers k a = false
  | Some v => exists k, M !! k = Some v /\ covers k a = true
      /\ forall k' v', M !! k' = Some v' -> covers k' a = true -> mask_as_specific k.2 k'.2 = true
  end.

Definition spec_add (M : routes) (r : IPRoute) (allow_replace : bool) : routes * Z * option hop :=
  let k := (addr r, mask r) in
  match M !! k with
  | Some v => if allow_replace then (<[k := (gw r, port r)]> M, 0, Some v) else (M, - EEXIST, Some v)
  | None => (<[k := (gw r, port r)]> M, 0, None)
  end.

Definition spec_remove (M : routes) (r : IPRoute) : routes * Z * option hop :=
  let k := (addr r, mask r) in
  match M !! k with
  | Some v => if (port r <? 0) || bool_decide (v = (gw r, port r)) then (delete k M, 0, Some v)
              else (M, - ENOENT, None)
  | None => (M, - ENOENT, None)
  end.

Definition hop_of (r : IPRoute) : hop := (gw r, port r).

(** ** Representation *)

Definition has (t : list IPRoute) (k : prefix) (v : hop) : Prop :=
  exists i, 0 <= i < vlen t /\ real (vget t i) = true /\ (addr (vget t i), mask (vget t i)) = k
            /\ hop_of (vget t i) = v.

Definition represents (t : list IPRoute) (M : routes) : Prop := forall k v, M !! k = Some v <-> has t k v.

(** What lookups depend on. *)
Definition shape (r : IPRoute) : Z * Z * Z := (addr r, mask r, extra r).

Lemma shape_eq x y : shape x = shape y -> addr x = addr y /\ mask x = mask y /\ extra x = extra y.
Proof. unfold shape. by intros [= -> -> ->]. Qed.

Lemma shape_get t t' i : map shape t = map shape t' -> shape (vget t i) = shape (vget t' i).
Proof.
  intros Hm. destruct (decide (0 <= i < vlen t)) as [Hi|Hi].
  - assert (Hl : vlen t = vlen t') by (unfold vlen; rewrite <- (length_map shape t), Hm, length_map; done).
    pose proof (vget_some t i Hi) as H1. pose proof (vget_some t' i ltac:(lia)) as H2.
    assert (Hs : map shape t !! Z.to_nat i = map shape t' !! Z.to_nat i) by (by rewrite Hm).
    rewrite !list_lookup_fmap, H1, H2 in Hs. by apply (inj Some) in Hs.
  - assert (Hl : vlen t = vlen t') by (unfold vlen; rewrite <- (length_map shape t), Hm, length_map; done).
    unfold vget. destruct (Z.leb_spec 0 i); [|done].
    rewrite !list_lookup_total_alt, !lookup_ge_None_2 by (unfold vlen in *; lia). done.
Qed.

Lemma first_containing_shape a t t' i :
  map shape t = map shape t' -> first_containing a t i = first_containing a t' i.
Proof.
  revert t' i. induction t as [|x t IH]; intros [|y t'] i Hm; try done.
  injection Hm as Hm1 Hm2 Hm3 Hm. cbn [first_containing]. unfold contains. rewrite Hm1, Hm2.
  destruct (matches_prefix _ _ _); [done|]. by apply IH.
Qed.

Lemma for_up_ext {S} lo hi (f g : Z -> S -> S) s :
  (forall i s, lo <= i < hi -> f i s = g i s) -> for_up lo hi f s = for_up lo hi g s.
Proof.
  intros He. destruct (Z.le_gt_cases lo hi) as [Hle|Hgt]; [|by rewrite !for_up_nil by lia].
  revert s. assert (Hn : exists n, hi - lo = Z.of_nat n) by (exists (Z.to_nat (hi - lo)); lia).
  destruct Hn as [n Hn]. revert lo He Hle Hn. induction n as [|n IH]; intros lo He Hle Hn s.
  - by rewrite !for_up_nil by lia.
  - rewrite !(for_up_cons lo hi) by lia. rewrite He by lia. apply IH; [intros; apply He; lia|lia|lia].
Qed.

Lemma lookup_entry_shape a t t' : map shape t = map shape t' -> lookup_entry t a = lookup_entry t' a.
Proof.
  intros Hm. unfold lookup_entry. rewrite (first_containing_shape a t t' 0 Hm).
  destruct (first_containing a t' 0) as [i|]; [|done].
  destruct (shape_eq _ _ (shape_get t t' i Hm)) as (_ & _ & ->).
  assert (Hl : vlen t = vlen t') by (unfold vlen; rewrite <- (length_map shape t), Hm, length_map; done).
  rewrite Hl. apply for_up_ext. intros j s _. unfold refine_entry, contains.
  destruct (shape_eq _ _ (shape_get t t' j Hm)) as (-> & -> & _).
  destruct (shape_eq _ _ (shape_get t t' s Hm)) as (_ & -> & _). done.
Qed.

(** ** Lookup on the abstract table *)

Lemma lookup_lpm t M a :
  table_ok t -> represents t M -> 0 < a < 4294967296 ->
  lpm M a (let ei := lookup_entry t a in if 0 <=? ei then Some (hop_of (vget t ei)) else None).
Proof.
  intros Ht Hr Ha. cbv zeta. destruct (lookup_entry_best t a Ht Ha) as [[Hei (Hi & Hc & Hb)]|[-> Hn]].
  - rewrite (proj2 (Z.leb_le _ _) Hei). set (ei := lookup_entry t a) in *.
    exists (addr (vget t ei), mask (vget t ei)). split; [|split; [done|]].
    + apply Hr. exists ei. destruct (contains_real t ei a Ht Hi Ha Hc). done.
    + intros k v Hk Hcov. apply Hr in Hk as (j & Hj & _ & <- & _). by apply Hb.
  - cbn. intros k v Hk. apply Hr in Hk as (j & Hj & _ & <- & _). by apply Hn.
Qed.

(** ** Adding a route *)

Definition same_prefix (x r : IPRoute) : bool := (addr x =? addr r) && (mask x =? mask r).

Lemma same_prefix_iff x r : same_prefix x r = true <-> (addr x, mask x) = (addr r, mask r).
Proof.
  unfold same_prefix. rewrite andb_true_iff, !Z.eqb_eq. split; [by intros [-> ->]|by intros [= -> ->]].
Qed.

Lemma scan_routes_spec r t i0 size found :
  i0 + vlen t = size ->
  match scan_routes r t i0 size found with
  | inl k => i0 <= k < size /\ real (vget t (k - i0)) = true /\ same_prefix (vget t (k - i0)) r = true
  | inr f => (forall i, 0 <= i < vlen t -> real (vget t i) = true -> same_prefix (vget t i) r = false)
      /\ (found <> size -> f = found)
      /\ (found = size -> f = size \/ (i0 <= f < size /\ real (vget t (f - i0)) = false))
  end.
Proof.
  revert i0 found. induction t as [|x t IH]; intros i0 found Hs; cbn [scan_routes].
  { split; [intros i Hi; unfold vlen in Hi; simpl in Hi; lia|]. split; [done|by left]. }
  rewrite vlen_cons in *. pose proof (vlen_nonneg t).
  assert (Hcons : forall k, i0 + 1 <= k -> vget (x :: t) (k - i0) = vget t (k - (i0 + 1))).
  { intros k Hk. rewrite vget_cons_S by lia. f_equal. lia. }
  assert (Hone : forall i, 0 <= i < vlen t + 1 -> i = 0 \/ (vget (x :: t) i = vget t (i - 1) /\ 0 <= i - 1 < vlen t)).
  { intros i Hi. destruct (decide (i = 0)); [by left|]. right. rewrite vget_cons_S by lia. split; [done|lia]. }
  destruct (real x) eqn:Er; cbn [negb].
  - change ((addr x =? addr r) && (mask x =? mask r)) with (same_prefix x r).
    destruct (same_prefix x r) eqn:Es.
    { split; [lia|]. rewrite Z.sub_diag. done. }
    specialize (IH (i0 + 1) found ltac:(lia)). destruct (scan_routes r t (i0 + 1) size found) as [k|f].
    + destruct IH as (Hk & Hrk & Hsk). rewrite !Hcons by lia. split; [lia|]. done.
    + destruct IH as (Hno & Hne & Heq). split; [|split; [done|]].
      * intros i Hi. destruct (Hone i Hi) as [->|[-> Hi']]; [by rewrite vget_cons_0|by apply Hno].
      * intros Hf. destruct (Heq Hf) as [->|[Hf1 Hf2]]; [by left|]. right. rewrite Hcons by lia. split; [lia|done].
  - specialize (IH (i0 + 1) (if found =? size then i0 else found) ltac:(lia)).
    destruct (scan_routes r t (i0 + 1) size (if found =? size then i0 else found)) as [k|f].
    + destruct IH as (Hk & Hrk & Hsk). rewrite !Hcons by lia. split; [lia|]. done.
    + destruct IH as (Hno & Hne & Heq). split; [|split].
      * intros i Hi. destruct (Hone i Hi) as [->|[-> Hi']]; [rewrite vget_cons_0; congruence|by apply Hno].
      * intros Hf. rewrite (proj2 (Z.eqb_neq _ _) Hf) in Hne. auto.
      * intros Hf. rewrite (proj2 (Z.eqb_eq _ _) Hf) in Hne. right. rewrite Hne by lia.
        rewrite Z.sub_diag, vget_cons_0. split; [lia|done].
Qed.

Lemma patch_before_spec t r found :
  0 <= found <= vlen t ->
  let t' := patch_before t r found in
  vlen t' = vlen t
  /\ forall i, 0 <= i < vlen t -> vget t' i
     = if decide (i < found /\ contains_route (vget t i) r = true /\ found < extra (vget t i))
       then set_extra (vget t i) found else vget t i.
Proof.
  intros Hf t'.
  pose (P := fun (m : Z) (u : list IPRoute) => vlen u = vlen t /\ forall i, 0 <= i < vlen t -> vget u i
    = if decide (m <= i < found /\ contains_route (vget t i) r = true /\ found < extra (vget t i))
      then set_extra (vget t i) found else vget t i).
  assert (Hp : P 0 t').
  { unfold t', patch_before. apply for_down_inv; [lia| |].
    - split; [done|]. intros i Hi. rewrite decide_False by lia. done.
    - intros m u Hm [Hl Hg]. assert (Hum : vget u m = vget t m) by (rewrite Hg by lia; by rewrite decide_False by lia).
      assert (Hother : forall i, i <> m -> 0 <= i < vlen t -> vget u i
        = if decide (m <= i < found /\ contains_route (vget t i) r = true /\ found < extra (vget t i))
          then set_extra (vget t i) found else vget t i).
      { intros i Hne Hi. rewrite Hg by done. case_decide as D1; case_decide as D2; try done; exfalso;
          [apply D2; split; [lia|apply D1]|apply D1; split; [lia|apply D2]]. }
      rewrite Hum. destruct (contains_route (vget t m) r && (found <? extra (vget t m))) eqn:Ec.
      + apply andb_true_iff in Ec as [Ec1 Ec2]. apply Z.ltb_lt in Ec2. split; [by rewrite vlen_vset|].
        intros i Hi. destruct (decide (i = m)) as [->|Hne].
        * rewrite vget_vset_eq by lia. rewrite decide_True by (split; [lia|done]). done.
        * rewrite vget_vset_ne by lia. by apply Hother.
      + split; [done|]. intros i Hi. destruct (decide (i = m)) as [->|Hne]; [|by apply Hother].
        rewrite Hum. rewrite decide_False; [done|]. intros (_ & H1 & H2).
        rewrite H1, (proj2 (Z.ltb_lt _ _) H2) in Ec. done. }
  destruct Hp as [Hl Hg]. split; [done|]. intros i Hi. rewrite Hg by done.
  case_decide as D1; case_decide as D2; try done; exfalso;
    [apply D2; split; [lia|apply D1]|apply D1; split; [lia|apply D2]].
Qed.

Lemma first_contained_spec r t i0 :
  match first_contained r t i0 with
  | None => forall i, 0 <= i < vlen t -> contains_route r (vget t i) = true -> real (vget t i) = true -> False
  | Some k => i0 <= k < i0 + vlen t
      /\ forall i, 0 <= i < k - i0 -> contains_route r (vget t i) = true -> real (vget t i) = true -> False
  end.
Proof.
  revert i0. induction t as [|x t IH]; intros i0; cbn [first_contained].
  { intros i Hi. unfold vlen in Hi. simpl in Hi. lia. }
  rewrite vlen_cons. pose proof (vlen_nonneg t). destruct (contains_route r x && real x) eqn:Ec.
  - split; [lia|]. intros; lia.
  - apply andb_false_iff in Ec. specialize (IH (i0 + 1)). destruct (first_contained r t (i0 + 1)) as [k|].
    + destruct IH as [Hk Hb]. split; [lia|]. intros i Hi. destruct (decide (i = 0)) as [->|].
      * rewrite vget_cons_0. intros; destruct Ec; congruence.
      * rewrite vget_cons_S by lia. apply Hb. lia.
    + intros i Hi. destruct (decide (i = 0)) as [->|].
      * rewrite vget_cons_0. intros; destruct Ec; congruence.
      * rewrite vget_cons_S by lia. apply IH. lia.
Qed.

Lemma vget_drop (t : list IPRoute) n i : 0 <= i -> vget (drop n t) i = vget t (Z.of_nat n + i).
Proof.
  intros Hi. unfold vget. destruct (Z.leb_spec 0 i), (Z.leb_spec 0 (Z.of_nat n + i)); try lia.
  rewrite !list_lookup_total_alt, lookup_drop. do 2 f_equal. lia.
Qed.

(** The table after a new route went into slot [found]. *)
Definition placed (t : list IPRoute) (r : IPRoute) (found : Z) : list IPRoute :=
  vset (if found =? vlen t then vpush t r else vset t found r) found (set_extra r 2147483647).

Lemma placed_get t r found :
  0 <= found <= vlen t ->
  vlen (placed t r found) = Z.max (vlen t) (found + 1)
  /\ forall i, 0 <= i < Z.max (vlen t) (found + 1) ->
     vget (placed t r found) i = if decide (i = found) then set_extra r 2147483647 else vget t i.
Proof.
  intros Hf. unfold placed. rewrite vlen_vset. destruct (Z.eqb_spec found (vlen t)) as [->|Hne].
  - rewrite vlen_vpush. split; [lia|]. intros i Hi. case_decide as Hd.
    + subst. apply vget_vset_eq. rewrite vlen_vpush. lia.
    + rewrite vget_vset_ne by lia. apply vget_vpush_lt. lia.
  - rewrite vlen_vset. split; [lia|]. intros i Hi. case_decide as Hd.
    + subst. apply vget_vset_eq. rewrite vlen_vset. lia.
    + by rewrite !vget_vset_ne by lia.
Qed.

Definition linked (t : list IPRoute) (r : IPRoute) (found : Z) : list IPRoute :=
  let t := patch_before (placed t r found) r found in
  match first_contained r (drop (Z.to_nat (found + 1)) t) (found + 1) with
  | Some i => vset t found (set_extra (vget t found) i)
  | None => t
  end.

(** Every other route keeps its prefix and hop; the links respect containment. *)
Lemma linked_get t r found :
  table_ok t -> vlen t < 2147483646 -> 0 <= found <= vlen t ->
  (found = vlen t \/ real (vget t found) = false) -> real r = true ->
  let t' := linked t r found in
  vlen t' = Z.max (vlen t) (found + 1)
  /\ (exists e, vget t' found = set_extra r e /\ found < e
      /\ forall j, found < j < vlen t' -> real (vget t j) = true -> contains_route r (vget t j) = true -> e <= j)
  /\ forall i, 0 <= i < vlen t' -> i <> found ->
     exists e, vget t' i = set_extra (vget t i) e /\ i < e <= extra (vget t i)
     /\ (i < found -> contains_route (vget t i) r = true -> e <= found).
Proof.
  intros Ht Hsz Hf Hslot Hreal t'. destruct (placed_get t r found Hf) as [Hl1 Hg1].
  set (t1 := placed t r found) in *.
  destruct (patch_before_spec t1 r found ltac:(lia)) as [Hl2 Hg2]. set (t2 := patch_before t1 r found) in *.
  assert (Hsame : forall i, 0 <= i < vlen t1 -> i <> found ->
     exists e, vget t2 i = set_extra (vget t i) e /\ i < e <= extra (vget t i)
     /\ (i < found -> contains_route (vget t i) r = true -> e <= found)).
  { intros i Hi Hne. assert (H1 : vget t1 i = vget t i) by (rewrite Hg1 by lia; by rewrite decide_False).
    rewrite Hg2 by lia. rewrite H1.
    assert (Hit : 0 <= i < vlen t) by lia. pose proof (to_after t Ht i Hit).
    case_decide as Hd.
    - exists found. split; [done|]. split; [lia|]. done.
    - exists (extra (vget t i)). split; [by destruct (vget t i)|]. split; [lia|]. intros H2 H3.
      destruct (Z.le_gt_cases (extra (vget t i)) found); [done|]. exfalso. apply Hd. split; [done|]. split; [done|lia]. }
  assert (Hfound : vget t2 found = set_extra r 2147483647).
  { rewrite Hg2 by lia. rewrite decide_False by lia. rewrite Hg1 by lia. by rewrite decide_True. }
  assert (Hlater : forall j, found < j < vlen t1 -> vget (drop (Z.to_nat (found + 1)) t2) (j - (found + 1)) = vget t2 j).
  { intros j Hj. rewrite vget_drop by lia. f_equal. lia. }
  assert (Hlen : vlen (drop (Z.to_nat (found + 1)) t2) = vlen t1 - (found + 1)).
  { unfold vlen in *. rewrite length_drop. lia. }
  pose proof (first_contained_spec r (drop (Z.to_nat (found + 1)) t2) (found + 1)) as Hfc.
  assert (Hkey : forall j, found < j < vlen t1 -> real (vget t j) = true -> contains_route r (vget t j) = true ->
    contains_route r (vget (drop (Z.to_nat (found + 1)) t2) (j - (found + 1))) = true
    /\ real (vget (drop (Z.to_nat (found + 1)) t2) (j - (found + 1))) = true).
  { intros j Hj Hrj Hcj. rewrite Hlater by done. destruct (Hsame j ltac:(lia) ltac:(lia)) as (e & -> & _). done. }
  unfold t', linked. fold t1. cbv zeta. fold t2.
  destruct (first_contained r (drop (Z.to_nat (found + 1)) t2) (found + 1)) as [k|].
  - destruct Hfc as [Hk Hb]. rewrite vlen_vset. split; [lia|]. split.
    + exists k. rewrite vget_vset_eq by lia. rewrite Hfound. split; [done|]. split; [lia|].
      intros j Hj Hrj Hcj. destruct (Z.le_gt_cases k j); [done|]. exfalso.
      destruct (Hkey j ltac:(lia) Hrj Hcj) as [G1 G2]. apply (Hb (j - (found + 1)) ltac:(lia) G1 G2).
    + intros i Hi Hne. rewrite vget_vset_ne by lia. apply Hsame; [lia|done].
  - split; [lia|]. split.
    + exists 2147483647. split; [done|]. split; [lia|]. intros j Hj Hrj Hcj. exfalso.
      destruct (Hkey j ltac:(lia) Hrj Hcj) as [G1 G2]. apply (Hfc (j - (found + 1)) ltac:(lia) G1 G2).
    + intros i Hi Hne. apply Hsame; [lia|done].
Qed.

Lemma add_new_ok t r found :
  table_ok t -> vlen t < 2147483646 -> 0 <= found <= vlen t ->
  (found = vlen t \/ real (vget t found) = false) -> route_ok r ->
  (forall i, 0 <= i < vlen t -> real (vget t i) = true -> same_prefix (vget t i) r = false) ->
  table_ok (linked t r found)
  /\ forall k v, has (linked t r found) k v <-> (k = (addr r, mask r) /\ v = hop_of r) \/ has t k v.
Proof.
  intros Ht Hsz Hf Hslot Hr Hnone.
  destruct (linked_get t r found Ht Hsz Hf Hslot (route_ok_real r Hr)) as (Hl & (e & Hge & He & Hje) & Hg).
  set (t' := linked t r found) in *.
  assert (Hin : forall i, 0 <= i < vlen t' -> i <> found -> 0 <= i < vlen t) by lia.
  assert (Hfp : forall i, 0 <= i < vlen t' -> i <> found -> real (vget t' i) = true -> 
    (addr (vget t' i), mask (vget t' i)) <> (addr r, mask r)).
  { intros i Hi Hne Hri Hk. destruct (Hg i Hi Hne) as (e' & Hge' & _). rewrite Hge' in Hri, Hk.
    change ((addr (vget t i), mask (vget t i)) = (addr r, mask r)) in Hk. apply same_prefix_iff in Hk.
    rewrite (Hnone i (Hin i Hi Hne) Hri) in Hk. done. }
  split; [constructor|].
  - intros i Hi. destruct (decide (i = found)) as [->|Hne].
    + left. rewrite Hge. exact Hr.
    + destruct (Hg i Hi Hne) as (e' & -> & _). apply (to_routes t Ht i). auto.
  - intros i j Hi Hj Hri Hrj Ha Hm.
    destruct (decide (i = found)) as [->|Hni], (decide (j = found)) as [->|Hnj]; [done| | |].
    + exfalso. apply (Hfp j Hj Hnj Hrj). rewrite <- Ha, <- Hm, Hge. done.
    + exfalso. apply (Hfp i Hi Hni Hri). rewrite Ha, Hm, Hge. done.
    + destruct (Hg i Hi Hni) as (ei & Gi & _), (Hg j Hj Hnj) as (ej & Gj & _).
      rewrite Gi in *. rewrite Gj in *. apply (to_unique t Ht); auto.
  - intros i Hi. destruct (decide (i = found)) as [->|Hne]; [by rewrite Hge|].
    destruct (Hg i Hi Hne) as (e' & -> & He' & _). cbn. lia.
  - intros i j Hi Hj Hri Hrj Hc.
    destruct (decide (i = found)) as [->|Hni], (decide (j = found)) as [->|Hnj]; [lia| | |].
    + destruct (Hg j ltac:(lia) Hnj) as (ej & Gj & _). rewrite Gj in *. rewrite Hge in *. cbn. by apply Hje.
    + destruct (Hg i ltac:(lia) Hni) as (ei & Gi & Hei & Hb). rewrite Gi in *. rewrite Hge in *. cbn.
      apply Hb; [lia|done].
    + destruct (Hg i ltac:(lia) Hni) as (ei & Gi & Hei & Hb), (Hg j ltac:(lia) Hnj) as (ej & Gj & _).
      rewrite Gi in *. rewrite Gj in *. cbn. pose proof (to_next t Ht i j Hi ltac:(lia) Hri Hrj Hc). lia.
  - lia.
  - intros k v. split.
    + intros (i & Hi & Hri & Hk & Hv). destruct (decide (i = found)) as [->|Hne].
      * left. rewrite Hge in Hk, Hv. done.
      * right. exists i. destruct (Hg i Hi Hne) as (e' & Ge & _). rewrite Ge in *. split; [auto|]. done.
    + intros [[-> ->]|(i & Hi & Hri & Hk & Hv)].
      * exists found. rewrite Hge. split; [lia|]. split; [by apply route_ok_real|]. done.
      * assert (Hne : i <> found).
        { intros ->. destruct Hslot as [->|Hs]; [lia|congruence]. }
        exists i. destruct (Hg i ltac:(lia) Hne) as (e' & Ge & _). rewrite Ge. split; [lia|]. done.
Qed.

(** ** Replacing and killing a route *)

Lemma update_ok t i x :
  table_ok t -> 0 <= i < vlen t -> i < extra x -> extra x = extra (vget t i) ->
  (killed x \/ (route_ok x /\ addr x = addr (vget t i) /\ mask x = mask (vget t i) /\ real (vget t i) = true)) ->
  table_ok (vset t i x).
Proof.
  intros Ht Hi Hex Hext Hx.
  assert (Hget : forall j, 0 <= j < vlen t -> vget (vset t i x) j = if decide (j = i) then x else vget t j).
  { intros j Hj. case_decide as Hd; [subst; by apply vget_vset_eq|by apply vget_vset_ne; lia]. }
  assert (Hreal : real x = true -> addr x = addr (vget t i) /\ mask x = mask (vget t i) /\ real (vget t i) = true).
  { intros Hr. destruct Hx as [Hk|[_ Hx]]; [|done]. by rewrite (killed_real x Hk) in Hr. }
  assert (Hkey : forall j, 0 <= j < vlen t -> real (vget (vset t i x) j) = true ->
    real (vget t j) = true /\ addr (vget (vset t i x) j) = addr (vget t j) /\ mask (vget (vset t i x) j) = mask (vget t j)).
  { intros j Hj. rewrite Hget by done. case_decide; [subst; intros Hr; destruct (Hreal Hr) as (? & ? & ?); done|done]. }
  constructor; rewrite ?vlen_vset.
  - intros j Hj. rewrite Hget by done. case_decide; [subst|by apply (to_routes t Ht)].
    destruct Hx as [Hk|[Hr _]]; auto.
  - intros j k Hj Hk Hrj Hrk Ha Hm. destruct (Hkey j Hj Hrj) as (? & ? & ?), (Hkey k Hk Hrk) as (? & ? & ?).
    apply (to_unique t Ht); auto; congruence.
  - intros j Hj. rewrite Hget by done. case_decide; [by subst|by apply (to_after t Ht)].
  - intros j k Hj Hk Hrj Hrk Hc. destruct (Hkey j ltac:(lia) Hrj) as (? & Ha & Hm), (Hkey k ltac:(lia) Hrk) as (? & Ha' & Hm').
    assert (Hc' : contains_route (vget t j) (vget t k) = true) by (unfold contains_route in *; congruence).
    pose proof (to_next t Ht j k Hj Hk). rewrite Hget by lia. case_decide; [subst; rewrite Hext|]; auto.
  - apply (to_size t Ht).
Qed.

Lemma has_update t i x k v :
  table_ok t -> 0 <= i < vlen t -> real (vget t i) = true ->
  (addr x, mask x) = (addr (vget t i), mask (vget t i)) \/ real x = false ->
  has (vset t i x) k v
  <-> if decide (k = (addr (vget t i), mask (vget t i))) then real x = true /\ v = hop_of x else has t k v.
Proof.
  intros Ht Hi Hri Hx.
  assert (Hget : forall j, 0 <= j < vlen t -> vget (vset t i x) j = if decide (j = i) then x else vget t j).
  { intros j Hj. case_decide as Hd; [subst; by apply vget_vset_eq|by apply vget_vset_ne; lia]. }
  unfold has. rewrite vlen_vset. split.
  - intros (j & Hj & Hrj & Hk & Hv). rewrite Hget in Hrj, Hk, Hv by done. destruct (decide (j = i)) as [->|Hne].
    + destruct Hx as [Hx|Hx]; [|congruence]. rewrite decide_True by congruence. done.
    + destruct (decide (k = _)) as [->|Hnk]; [|by exists j].
      exfalso. apply Hne. injection Hk as Ha Hm. apply (to_unique t Ht); auto.
  - destruct (decide (k = _)) as [->|Hnk].
    + intros [Hrx ->]. destruct Hx as [Hx|Hx]; [|congruence]. exists i. rewrite Hget by done.
      rewrite decide_True by done. done.
    + intros (j & Hj & Hrj & <- & Hv). exists j. rewrite Hget by done. rewrite decide_False by congruence. done.
Qed.

(** ** The element *)

Definition cache_ok (t : list IPRoute) (a e : Z) : Prop :=
  a = 0 \/ (0 < a < 4294967296 /\ e = lookup_entry t a /\ 0 <= e).

Record linear_ok (s : LinearIPLookup) : Prop := {
  lo_table : table_ok (rt s);
  lo_zero : zero_route s = -1;
  lo_cache : cache_ok (rt s) (last_addr s) (last_entry s);
  lo_cache2 : cache_ok (rt s) (last_addr2 s) (last_entry2 s)
}.

Lemma new_linear_ok : linear_ok new_linear /\ represents (rt new_linear) ∅.
Proof.
  split.
  - constructor; [|done|by left|by left]. constructor; cbn; unfold vlen; simpl; lia.
  - intros k v. rewrite lookup_empty. split; [done|]. intros (i & Hi & _). unfold vlen in Hi. simpl in Hi. lia.
Qed.

Lemma no_caches_ok s t : table_ok t -> linear_ok (no_caches s t (-1)).
Proof. intros Ht. constructor; [done|done|by left|by left]. Qed.

Lemma map_shape_vset t i x : 0 <= i < vlen t -> shape x = shape (vget t i) -> map shape (vset t i x) = map shape t.
Proof.
  intros Hi Hx. unfold vset. rewrite (proj2 (Z.leb_le 0 i)) by lia. apply list_eq. intros j.
  rewrite !list_lookup_fmap. destruct (decide (j = Z.to_nat i)) as [->|Hne].
  - rewrite list_lookup_insert_eq by (unfold vlen in Hi; lia). rewrite (vget_some t i Hi). cbn. by rewrite Hx.
  - by rewrite list_lookup_insert_ne.
Qed.

Lemma cache_shape t t' a e : map shape t' = map shape t -> cache_ok t a e -> cache_ok t' a e.
Proof. intros Hm [Hz|(Ha & He & H0)]; [by left|right]. by rewrite (lookup_entry_shape a t' t Hm). Qed.

(** The abstract lookup of the prefix at index [i]. *)
Lemma represents_at t M i :
  represents t M -> 0 <= i < vlen t -> real (vget t i) = true ->
  M !! (addr (vget t i), mask (vget t i)) = Some (hop_of (vget t i)).
Proof. intros Hr Hi Hri. apply Hr. by exists i. Qed.

Lemma represents_update t M i x :
  table_ok t -> represents t M -> 0 <= i < vlen t -> real (vget t i) = true ->
  (addr x, mask x) = (addr (vget t i), mask (vget t i)) -> real x = true ->
  represents (vset t i x) (<[(addr (vget t i), mask (vget t i)) := hop_of x]> M).
Proof.
  intros Ht Hr Hi Hri Hk Hrx k v. rewrite has_update by auto. case_decide as Hd.
  - subst k. rewrite lookup_insert_eq. split; [by intros [= <-]|by intros [_ ->]].
  - rewrite lookup_insert_ne by done. apply Hr.
Qed.

Lemma represents_kill t M i x :
  table_ok t -> represents t M -> 0 <= i < vlen t -> real (vget t i) = true -> real x = false ->
  represents (vset t i x) (delete (addr (vget t i), mask (vget t i)) M).
Proof.
  intros Ht Hr Hi Hri Hrx k v. rewrite has_update by auto. case_decide as Hd.
  - subst k. rewrite lookup_delete_eq. split; [done|]. intros [? _]. congruence.
  - rewrite lookup_delete_ne by done. apply Hr.
Qed.

Lemma add_route_spec s M r allow :
  linear_ok s -> represents (rt s) M -> route_ok r -> vlen (rt s) < 2147483646 ->
  let '(s', rc, old) := add_route s r allow in
  let '(M', rc', old') := spec_add M r allow in
  linear_ok s' /\ represents (rt s') M' /\ rc = rc' /\ hop_of <$> old = old' /\ vlen (rt s') <= vlen (rt s) + 1.
Proof.
  intros [Ht Hz Hc1 Hc2] Hr Hok Hsz. unfold add_route, spec_add.
  pose proof (scan_routes_spec r (rt s) 0 (vlen (rt s)) (vlen (rt s)) ltac:(lia)) as Hscan.
  destruct (scan_routes r (rt s) 0 (vlen (rt s)) (vlen (rt s))) as [i|found].
  - destruct Hscan as (Hi & Hri & Hsame). rewrite Z.sub_0_r in *. apply same_prefix_iff in Hsame.
    rewrite <- Hsame, (represents_at _ M i Hr Hi Hri).
    destruct allow; cbn [negb].
    2:{ split; [by constructor|]. split; [done|]. split; [done|]. split; [done|lia]. }
    set (x := mkRoute _ _ (gw r) (port r) _).
    assert (Hshape : map shape (vset (rt s) i x) = map shape (rt s)) by (by apply map_shape_vset).
    injection Hsame as Ha Hm. split; [constructor; cbn; [|done|by eapply cache_shape|by eapply cache_shape]|].
    + apply update_ok; [done|done|by apply (to_after _ Ht)|done|]. right. split; [|done].
      destruct Hok as [Hp Hport]. split; [|done]. cbn. by rewrite Ha, Hm.
    + split; [|split; [done|]; split; [done|]; cbn; rewrite vlen_vset; lia].
      apply (represents_update (rt s) M i x); try done. unfold real, x. cbn. apply Z.ltb_lt. destruct Hok; lia.
  - destruct Hscan as (Hnone & _ & Hslot). specialize (Hslot eq_refl).
    assert (Hf : 0 <= found <= vlen (rt s)) by (pose proof (vlen_nonneg (rt s)); lia).
    assert (Hslot' : found = vlen (rt s) \/ real (vget (rt s) found) = false).
    { destruct Hslot as [->|[_ Hs]]; [by left|right]. by rewrite Z.sub_0_r in Hs. }
    destruct (add_new_ok (rt s) r found Ht Hsz Hf Hslot' Hok Hnone) as [Ht' Hhas].
    assert (HM : M !! (addr r, mask r) = None).
    { destruct (M !! (addr r, mask r)) as [v|] eqn:EM; [|done]. apply Hr in EM as (i & Hi & Hri & Hk & _).
      apply same_prefix_iff in Hk. rewrite (Hnone i Hi Hri) in Hk. done. }
    rewrite HM. assert (Hzero : (addr r =? 0) && (mask r =? 4294967295) = false).
    { apply andb_false_iff. destruct Hok as [(_ & _ & _ & Hn) _].
      destruct (Z.eqb_spec (addr r) 0), (Z.eqb_spec (mask r) 4294967295); auto. congruence. }
    rewrite Hzero, Hz. change (match first_contained _ _ _ with Some _ => _ | None => _ end) with (linked (rt s) r found).
    split; [by apply no_caches_ok|]. split; [|split; [done|]; split; [done|]].
    + intros k v. cbn [no_caches rt]. rewrite Hhas. destruct (decide (k = (addr r, mask r))) as [->|Hne].
      * rewrite lookup_insert_eq. split; [intros [= <-]; by left|]. intros [[_ ->]|Hh]; [done|].
        apply Hr in Hh. congruence.
      * rewrite lookup_insert_ne by done. rewrite (Hr k v). split; [by right|]. intros [[? _]|?]; done.
    + cbn [no_caches rt]. destruct (linked_get (rt s) r found Ht Hsz Hf Hslot' (route_ok_real r Hok)) as [-> _]. lia.
Qed.

Lemma find_match_spec r t i0 :
  match find_match r t i0 with
  | None => forall i, 0 <= i < vlen t -> route_match r (vget t i) = false
  | Some k => i0 <= k < i0 + vlen t /\ route_match r (vget t (k - i0)) = true
  end.
Proof.
  revert i0. induction t as [|x t IH]; intros i0; cbn [find_match].
  { intros i Hi. unfold vlen in Hi. simpl in Hi. lia. }
  rewrite vlen_cons. pose proof (vlen_nonneg t). destruct (route_match r x) eqn:Em.
  - rewrite Z.sub_diag. split; [lia|done].
  - specialize (IH (i0 + 1)). destruct (find_match r t (i0 + 1)) as [k|].
    + destruct IH as [Hk Hm]. split; [lia|]. rewrite vget_cons_S by lia. by replace (k - i0 - 1) with (k - (i0 + 1)) by lia.
    + intros i Hi. destruct (decide (i = 0)) as [->|]; [done|]. rewrite vget_cons_S by lia. apply IH. lia.
Qed.

Lemma route_match_iff r x :
  route_match r x = true <-> (addr x, mask x) = (addr r, mask r)
    /\ ((port r <? 0) || bool_decide (hop_of x = (gw r, port r))) = true.
Proof.
  unfold route_match, hop_of. rewrite !andb_true_iff, !orb_true_iff, !andb_true_iff, !Z.eqb_eq, bool_decide_eq_true.
  split.
  - intros [[Ha Hm] Hg]. split; [congruence|]. destruct Hg as [Hg|[Hg Hp]]; [by left|right; congruence].
  - intros [[= Ha Hm] Hg]. split; [done|]. destruct Hg as [Hg|[= Hg Hp]]; [by left|by right].
Qed.

Lemma remove_route_spec s M r :
  linear_ok s -> represents (rt s) M -> prefix_ok (addr r) (mask r) ->
  let '(s', rc, old) := remove_route s r in
  let '(M', rc', old') := spec_remove M r in
  linear_ok s' /\ represents (rt s') M' /\ rc = rc' /\ hop_of <$> old = old' /\ vlen (rt s') = vlen (rt s).
Proof.
  intros [Ht Hz Hc1 Hc2] Hr Hok. unfold remove_route, spec_remove.
  pose proof (find_match_spec r (rt s) 0) as Hfind. destruct (find_match r (rt s) 0) as [i|].
  - destruct Hfind as [Hi Hm]. rewrite Z.sub_0_r in Hm. rewrite Z.add_0_l in Hi.
    apply route_match_iff in Hm as [Hk Hg].
    assert (Hri : real (vget (rt s) i) = true).
    { destruct (to_routes _ Ht i Hi) as [Hro|(K1 & K2 & _)]; [by apply route_ok_real|].
      exfalso. destruct Hok as (_ & _ & _ & Hn). congruence. }
    rewrite <- Hk, (represents_at _ M i Hr Hi Hri), Hg.
    rewrite Hz. rewrite (proj2 (Z.eqb_neq i (-1))), (proj2 (Z.ltb_ge i (-1))) by lia. cbn [rt zero_route].
    assert (Ht' : table_ok (vset (rt s) i (kill (vget (rt s) i)))).
    { apply update_ok; [done|done|by apply (to_after _ Ht)|done|]. by left. }
    split; [by apply no_caches_ok|]. split; [by apply represents_kill|]. split; [done|]. split; [done|].
    cbn. apply vlen_vset.
  - assert (HM : match M !! (addr r, mask r) with
      | Some v => (port r <? 0) || bool_decide (v = (gw r, port r)) = false | None => True end).
    { destruct (M !! (addr r, mask r)) as [v|] eqn:EM; [|done]. apply Hr in EM as (i & Hi & Hri & Hk & Hv).
      specialize (Hfind i Hi). apply not_true_iff_false. intros Hb. apply not_true_iff_false in Hfind. apply Hfind.
      apply route_match_iff. split; [done|]. by rewrite Hv. }
    destruct (M !! (addr r, mask r)) as [v|]; [rewrite HM|]; (split; [by constructor|]); done.
Qed.

(** What a packet for address [a] gets from the hop. *)
Definition forward (a : Z) (v : hop) : Z * Z := (v.2, if negb (v.1 =? 0) then v.1 else a).

Lemma linear_push_spec s M a :
  linear_ok s -> represents (rt s) M -> 0 < a < 4294967296 ->
  linear_ok (linear_push s a).1 /\ rt (linear_push s a).1 = rt s
  /\ (linear_push s a).2 = (let ei := lookup_entry (rt s) a in
                            if 0 <=? ei then Some (forward a (hop_of (vget (rt s) ei))) else None).
Proof.
  intros Hok Hr Ha. pose proof Hok as [Ht Hz Hc1 Hc2]. unfold linear_push. cbv zeta.
  rewrite (proj2 (Z.eqb_neq a 0)) by lia. cbn [negb andb].
  destruct (Z.eqb_spec a (last_addr s)) as [->|Hn1].
  { destruct Hc1 as [|(_ & -> & H0)]; [lia|]. by rewrite (proj2 (Z.leb_le _ _) H0). }
  destruct (Z.eqb_spec a (last_addr2 s)) as [->|Hn2].
  { destruct Hc2 as [|(_ & -> & H0)]; [lia|]. by rewrite (proj2 (Z.leb_le _ _) H0). }
  destruct (Z.leb_spec 0 (lookup_entry (rt s) a)) as [H0|H0].
  - rewrite (proj2 (Z.leb_le _ _) H0). split; [|done]. constructor; cbn; try done. by right.
  - rewrite (proj2 (Z.leb_gt _ _) H0). done.
Qed.

(** A packet for any address leaves the table alone; for 0.0.0.0 the caches are
    neither used nor filled with an address they answer for. *)
Lemma linear_push_keeps s M a :
  linear_ok s -> represents (rt s) M -> 0 <= a < 4294967296 ->
  linear_ok (linear_push s a).1 /\ rt (linear_push s a).1 = rt s.
Proof.
  intros Hok Hr Ha. destruct (decide (a = 0)) as [->|Hne].
  - destruct Hok as [Ht Hz Hc1 Hc2]. unfold linear_push. cbn [Z.eqb negb andb].
    destruct (0 <=? lookup_entry (rt s) 0) eqn:E; rewrite E; [|done]. split; [|done]. constructor; [done|done|by left|done].
  - destruct (linear_push_spec s M a Hok Hr ltac:(lia)) as (G1 & G2 & _). done.
Qed.

(** ** Sequences of commands *)

Inductive route_op :=
  | r_add (r : IPRoute) (allow_replace : bool)
  | r_remove (r : IPRoute)
  | r_push (a : Z).

(** Routes as [cp_ip_route] stores them, to any prefix but 0.0.0.0/32, and packets
    for any address. *)
Definition route_op_ok (op : route_op) : Prop :=
  match op with
  | r_add r _ => route_ok r
  | r_remove r => prefix_ok (addr r) (mask r)
  | r_push a => 0 <= a < 4294967296
  end.

(** The return value and old route of an update. *)
Definition linear_step (s : LinearIPLookup) (op : route_op) : LinearIPLookup * (Z * option hop) :=
  match op with
  | r_add r allow => let '(s', rc, old) := add_route s r allow in (s', (rc, hop_of <$> old))
  | r_remove r => let '(s', rc, old) := remove_route s r in (s', (rc, hop_of <$> old))
  | r_push a => ((linear_push s a).1, (0, None))
  end.

Definition spec_step (M : routes) (op : route_op) : routes * (Z * option hop) :=
  match op with
  | r_add r allow => let '(M', rc, old) := spec_add M r allow in (M', (rc, old))
  | r_remove r => let '(M', rc, old) := spec_remove M r in (M', (rc, old))
  | r_push _ => (M, (0, None))
  end.

Fixpoint run_routes {S} (step : S -> route_op -> S * (Z * option hop)) (s : S) (ops : list route_op)
    : S * list (Z * option hop) :=
  match ops with
  | [] => (s, [])
  | op :: ops' => let '(s', o) := step s op in let '(s'', os) := run_routes step s' ops' in (s'', o :: os)
  end.

Lemma linear_step_spec s M op :
  linear_ok s -> represents (rt s) M -> route_op_ok op -> vlen (rt s) < 2147483646 ->
  linear_ok (linear_step s op).1 /\ represents (rt (linear_step s op).1) (spec_step M op).1
  /\ (linear_step s op).2 = (spec_step M op).2 /\ vlen (rt (linear_step s op).1) <= vlen (rt s) + 1.
Proof.
  intros Hok Hr Hop Hsz. destruct op as [r allow|r|a]; cbn [linear_step spec_step route_op_ok] in *.
  - pose proof (add_route_spec s M r allow Hok Hr Hop Hsz) as Hs. destruct (add_route s r allow) as [[s' rc] old].
    destruct (spec_add M r allow) as [[M' rc'] old']. destruct Hs as (G1 & G2 & -> & <- & G3). done.
  - pose proof (remove_route_spec s M r Hok Hr Hop) as Hs. destruct (remove_route s r) as [[s' rc] old].
    destruct (spec_remove M r) as [[M' rc'] old']. destruct Hs as (G1 & G2 & -> & <- & G3).
    split; [done|]. split; [done|]. split; [done|]. cbn. lia.
  - destruct (linear_push_keeps s M a Hok Hr Hop) as (G1 & G2). cbn [fst snd]. rewrite G2.
    split; [done|]. split; [done|]. split; [done|]. lia.
Qed.

Lemma run_routes_spec s M ops :
  linear_ok s -> represents (rt s) M -> Forall route_op_ok ops -> vlen (rt s) + vlen ops < 2147483646 ->
  linear_ok (run_routes linear_step s ops).1
  /\ represents (rt (run_routes linear_step s ops).1) (run_routes spec_step M ops).1
  /\ (run_routes linear_step s ops).2 = (run_routes spec_step M ops).2.
Proof.
  revert s M. induction ops as [|op ops IH]; intros s M Hok Hr Hops Hsz; [done|].
  apply Forall_cons in Hops as [Hop Hops]. rewrite vlen_cons in Hsz. pose proof (vlen_nonneg ops).
  destruct (linear_step_spec s M op Hok Hr Hop ltac:(lia)) as (G1 & G2 & G3 & G4). cbn [run_routes].
  destruct (linear_step s op) as [s' o]. destruct (spec_step M op) as [M' o']. cbn [fst snd] in *. subst o'.
  destruct (IH s' M' G1 G2 Hops ltac:(lia)) as (F1 & F2 & F3).
  destruct (run_routes linear_step s' ops) as [s'' os]. destruct (run_routes spec_step M' ops) as [M'' os'].
  cbn [fst snd] in *. by subst.
Qed.

(** ** Properties *)

(** C6. [LinearIPLookup] is a longest-prefix-match table: after any sequence of
    additions (replacing or not) and removals of routes to prefixes other than
    0.0.0.0/32, and of packets for any address, the return values
    and replaced routes are those of a map from prefixes to next hops, and a
    lookup of any address other than 0.0.0.0, through [lookup_route] or through
    [push] with its two caches, gives the hop of the longest stored prefix that
    covers it.  The prefix and the address are left out because killed routes keep
    the prefix 0.0.0.0/32: [zero_route_matches_killed_route] and
    [zero_address_finds_killed_route] show what happens to them. *)
Theorem linear_longest_prefix (ops : list route_op) (a : Z) :
  Forall route_op_ok ops -> vlen ops < 2147483646 -> 0 < a < 4294967296 ->
  let '(s, rs) := run_routes linear_step new_linear ops in
  let '(M, rs') := run_routes spec_step ∅ ops in
  rs = rs' /\ exists o, lpm M a o
    /\ lookup_route (rt s) a = match o with Some (g, p) => (p, Some g) | None => (-1, None) end
    /\ (linear_push s a).2 = forward a <$> o.
Proof.
  intros Hops Hsz Ha. destruct new_linear_ok as [Hok0 Hr0].
  destruct (run_routes_spec new_linear ∅ ops Hok0 Hr0 Hops ltac:(change (vlen (rt new_linear)) with 0; lia)) as (Hok & Hr & Ho).
  destruct (run_routes linear_step new_linear ops) as [s rs]. destruct (run_routes spec_step ∅ ops) as [M rs'].
  cbn [fst snd] in *. split; [done|]. eexists. split; [exact (lookup_lpm (rt s) M a (lo_table s Hok) Hr Ha)|].
  destruct (linear_push_spec s M a Hok Hr Ha) as (_ & _ & ->). cbv zeta. unfold lookup_route.
  by destruct (0 <=? lookup_entry (rt s) a).
Qed.

Definition p10 : IPRoute := mkRoute (ntohl 167772160) (make_prefix 8) (ntohl 1) 1 0.
Definition p10_1 : IPRoute := mkRoute (ntohl 167837696) (make_prefix 16) (ntohl 2) 2 0.
Definition p10_1_2 : IPRoute := mkRoute (ntohl 167838208) (make_prefix 24) 0 3 0.
Definition sample_routes : list route_op :=
  [r_add p10_1 false; r_add p10 false; r_push (ntohl 167838212); r_add p10_1_2 false;
   r_push (ntohl 167838212); r_remove p10_1; r_add p10 false].

Lemma sample_routes_ok : Forall route_op_ok sample_routes.
Proof.
  assert (Hp : forall p l, 0 <= p < 4294967296 -> 0 <= l <= 32 -> p .& make_prefix l = p -> p <> 0 ->
    prefix_ok p (make_prefix l)).
  { intros p l Hp Hl Hm H0. split; [done|]. split; [by exists l|]. split; [done|]. congruence. }
  repeat apply List.Forall_cons; try apply List.Forall_nil; cbn [route_op_ok].
  all: try (split; [|cbn; lia]). all: try (apply Hp; vm_compute; done || (split; discriminate || reflexivity)).
  all: split; vm_compute; congruence.
Qed.

Lemma linear_longest_prefix_witness :
  (let '(s, rs) := run_routes linear_step new_linear sample_routes in
   let '(M, rs') := run_routes spec_step ∅ sample_routes in
   rs = rs' /\ exists o, lpm M (ntohl 167838212) o
     /\ lookup_route (rt s) (ntohl 167838212) = match o with Some (g, p) => (p, Some g) | None => (-1, None) end
     /\ (linear_push s (ntohl 167838212)).2 = forward (ntohl 167838212) <$> o)
  /\ lookup_route (rt (run_routes linear_step new_linear sample_routes).1) (ntohl 167838212) = (3, Some 0).
Proof.
  split; [|vm_compute; reflexivity].
  apply (linear_longest_prefix sample_routes (ntohl 167838212));
    [exact sample_routes_ok|unfold vlen; simpl; lia|split; vm_compute; reflexivity].
Defined.

(** A killed route still matches the address 0.0.0.0: after a route was
    removed from a table that also has a default route, the lookup of 0.0.0.0
    finds the killed slot and returns its port, -2147483648, instead of the
    default route's. *)
Theorem zero_address_finds_killed_route :
  let default := mkRoute 0 (make_prefix 0) 0 4 0 in
  let s := (run_routes linear_step new_linear [r_add p10 false; r_add default false; r_remove p10]).1 in
  (lookup_route (rt s) 0).1 = -2147483648 /\ (lookup_route (rt s) (ntohl 1)).1 = 4.
Proof. vm_compute. done. Qed.

(** A killed route is also taken for a route to 0.0.0.0/32: after 10.0.0.0/8 was added
    and removed, the removal of 0.0.0.0/32, which was never added, succeeds instead
    of returning [-ENOENT]. *)
Theorem zero_route_matches_killed_route :
  let zero := mkRoute 0 4294967295 0 (-1) 0 in
  (run_routes linear_step new_linear [r_add p10 false; r_remove p10; r_remove zero]).2
    = [(0, None); (0, Some (ntohl 1, 1)); (0, Some (ntohl 1, -2147483648))]
  /\ (run_routes spec_step ∅ [r_add p10 false; r_remove p10; r_remove zero]).2
    = [(0, None); (0, Some (ntohl 1, 1)); (- ENOENT, None)].
Proof. vm_compute. done. Qed.

(** Prefix lengths round-trip through masks: [mask_to_prefix_len] inverts
    [make_prefix] for every length from 0 to 32, and a mask for which it returns a
    positive length is the mask of that length, in host byte order. *)
Theorem prefix_len_roundtrip (l m : Z) :
  0 <= l <= 32 ->
  mask_to_prefix_len (make_prefix l) = l
  /\ (0 < l -> mask_to_prefix_len m = l -> ntohl m = ntohl (make_prefix l)).
Proof.
  intros Hl. split.
  - assert (Hall : forallb (fun l => mask_to_prefix_len (make_prefix l) =? l) (seqZ 0 33) = true)
      by (vm_compute; reflexivity). apply Z.eqb_eq. exact (forall_len _ Hall l Hl).
  - intros Hpos Hm. unfold mask_to_prefix_len in Hm.
    assert (Hback : forall k, 1 <= k <= 32 -> u32 (4294967295 .<< (k - 1)) = ntohl (make_prefix (33 - k))).
    { intros k Hk. assert (Hall : forallb (fun k => (k =? 0) || (u32 (4294967295 .<< (k - 1)) =? ntohl (make_prefix (33 - k))))
        (seqZ 0 33) = true) by (vm_compute; reflexivity).
      pose proof (forall_len _ Hall k ltac:(lia)) as Hk'. cbv beta in Hk'. apply orb_true_iff in Hk' as [?|?]; bprop; lia. }
    assert (Hffs : forall fuel i x, 0 <= i -> ffs_from fuel i x = 0 \/ i + 1 <= ffs_from fuel i x <= i + Z.of_nat fuel).
    { clear. induction fuel as [|fuel IH]; intros i x Hi; cbn [ffs_from]; [by left|].
      destruct (Z.testbit x i); [right; lia|]. destruct (IH (i + 1) x ltac:(lia)); [by left|right; lia]. }
    destruct (Z.eqb_spec (ffs_lsb (ntohl m)) 0) as [Hz|Hz].
    + lia.
    + destruct (Hffs 32%nat 0 (ntohl m) ltac:(lia)) as [?|Hr]; [done|]. fold (ffs_lsb (ntohl m)) in Hr.
      destruct (Z.eqb_spec (ntohl m) (u32 (4294967295 .<< (ffs_lsb (ntohl m) - 1)))) as [He|]; [|lia].
      rewrite He, Hback by lia. do 2 f_equal. lia.
Qed.

Lemma prefix_len_roundtrip_witness :
  mask_to_prefix_len (make_prefix 20) = 20
  /\ (0 < 20 -> mask_to_prefix_len 15794175 = 20 -> ntohl 15794175 = ntohl (make_prefix 20)).
Proof. apply (prefix_len_roundtrip 20 15794175). lia. Defined.

(** [mask_more_specific] is wrong on a little-endian machine: it shifts the
    word in network byte order, so a /20 is not reported as more specific than a
    /18, the example its comment gives. *)
Theorem mask_more_specific_wrong :
  mask_more_specific (make_prefix 20) (make_prefix 18) = false
  /\ mask_as_specific (make_prefix 20) (make_prefix 18) = true
  /\ mask_as_specific (make_prefix 18) (make_prefix 20) = false.
Proof. vm_compute. done. Qed.
