(* ===== verification/RouteTable.v ===== *)
(** * The routing-table superclass

    [IPRouteTable] (elements/ip/iproutetable.cc): configuration, lookup of
    packets, and the [ctrl] handler, which runs a batch of commands and rolls
    them back when one fails.  Subclasses provide the table; the interface below
    states what they promise, and [LinearIPLookup] implements it.  Lines are
    given after [cp_shift_spacevec] and [cp_ip_route] split and parsed them. *)

From stdpp Require Import gmap.
From S2P Require Import Prelude Insn IPRoute LinearRoute.
Local Open Scope Z_scope.

(** ** The interface *)

Class RouteTable (T : Type) := {
  table_add : T -> IPRoute -> bool -> T * Z * option IPRoute;
  table_remove : T -> IPRoute -> T * Z * option IPRoute;
  table_lookup : T -> Z -> Z * option Z
}.

(** [t] stores the routes [M] and has room for [n] more additions.  The route
    that a failed removal reports is not read by anyone. *)
Class LawfulTable (T : Type) `{RouteTable T} := {
  table_rep : nat -> T -> routes -> Prop;
  table_add_spec n t M r allow : table_rep (S n) t M -> route_ok r ->
    let '(t', rc, old) := table_add t r allow in
    let '(M', rc', old') := spec_add M r allow in
    table_rep n t' M' /\ rc = rc' /\ hop_of <$> old = old'
    /\ (forall x, old = Some x -> route_ok x /\ (addr x, mask x) = (addr r, mask r));
  table_remove_spec n t M r : table_rep n t M -> prefix_ok (addr r) (mask r) ->
    let '(t', rc, old) := table_remove t r in
    let '(M', rc', old') := spec_remove M r in
    table_rep n t' M' /\ rc = rc'
    /\ (0 <= rc -> hop_of <$> old = old'
        /\ forall x, old = Some x -> route_ok x /\ (addr x, mask x) = (addr r, mask r));
  table_lookup_spec n t M a : table_rep n t M -> 0 < a < 4294967296 ->
    exists o, lpm M a o
    /\ table_lookup t a = match o with Some (g, p) => (p, Some g) | None => (-1, None) end
}.

(** ** [IPRouteTable] *)

Inductive command := CMD_ADD | CMD_SET | CMD_REMOVE.

#[export] Instance command_eq_dec : EqDecision command.
Proof. solve_decision. Defined.

Definition EINVAL : Z := 22.

Section table.
Context {T : Type} `{RouteTable T}.
Variable noutputs : Z.

(** [configure] on the parsed arguments: the table, the result and the number of
    duplicates. *)
Fixpoint table_configure (t : T) (conf : list (option IPRoute)) (r eexist : Z) : T * Z * Z :=
  match conf with
  | [] => (t, r, eexist)
  | None :: conf' => table_configure t conf' (- EINVAL) eexist
  | Some route :: conf' =>
      if (port route <? 0) || (noutputs <=? port route) then table_configure t conf' (- EINVAL) eexist
      else
        let '(t', r1, _) := table_add t route false in
        if r1 <? 0 then
          if r1 =? - EEXIST then table_configure t' conf' r (eexist + 1) else table_configure t' conf' r1 eexist
        else table_configure t' conf' r eexist
  end.

(** [push] for a destination annotation: port and new annotation, or killed. *)
Definition table_push (t : T) (a : Z) : option (Z * Z) :=
  let '(p, g) := table_lookup t a in
  if 0 <=? p then Some (p, match g with Some g => if negb (g =? 0) then g else a | None => a end) else None.

(** [run_command]: the table, the result, and the entry for [old_routes]. *)
Definition run_command (t : T) (c : command) (parsed : option IPRoute)
    : T * Z * option (IPRoute * command) :=
  match parsed with
  | None => (t, - EINVAL, None)
  | Some route =>
      if (port route <? (if decide (c = CMD_REMOVE) then -1 else 0)) || (noutputs <=? port route)
      then (t, - EINVAL, None)
      else
        let '(t', r, old) := match c with
          | CMD_ADD => table_add t route false
          | CMD_SET => table_add t route true
          | CMD_REMOVE => table_remove t route
          end in
        (t', r,
         if 0 <=? r then
           Some (match old with
                 | Some x => if port x <? 0 then (route, CMD_ADD) else (x, c)
                 | None => (route, CMD_ADD)
                 end)
         else None)
  end.

(** A line of the [ctrl] handler. *)
Inductive ctrl_line :=
  | blank_line
  | bad_command
  | ctrl_command (c : command) (parsed : option IPRoute).

(** One entry of the [rollback] loop. *)
Definition undo (t : T) (u : IPRoute * command) : T :=
  match u.2 with
  | CMD_REMOVE => (table_add t u.1 false).1.1
  | CMD_ADD => (table_remove t u.1).1.1
  | CMD_SET => (table_add t u.1 true).1.1
  end.

(** [old_routes] is a stack, last entry first. *)
Definition rollback (t : T) (old_routes : list (IPRoute * command)) : T := fold_left undo old_routes t.

(** The loop of [ctrl_handler]; [None] when it does not end within [fuel] turns.
    A blank line is retried without moving on. *)
Fixpoint ctrl_loop (fuel : nat) (t : T) (lines : list ctrl_line) (old_routes : list (IPRoute * command))
    : option (T * Z) :=
  match fuel with
  | O => None
  | S fuel' =>
      match lines with
      | [] => Some (t, 0)
      | blank_line :: _ => ctrl_loop fuel' t lines old_routes
      | bad_command :: _ => Some (rollback t old_routes, - EINVAL)
      | ctrl_command c parsed :: lines' =>
          let '(t', r, u) := run_command t c parsed in
          let old_routes := match u with Some u => u :: old_routes | None => old_routes end in
          if r <? 0 then Some (rollback t' old_routes, r) else ctrl_loop fuel' t' lines' old_routes
      end
  end.

Definition ctrl_handler (fuel : nat) (t : T) (lines : list ctrl_line) : option (T * Z) :=
  ctrl_loop fuel t lines [].
End table.

(** ** Linear tables *)

#[export] Instance linear_table : RouteTable LinearIPLookup := {
  table_add := add_route;
  table_remove := remove_route;
  table_lookup s a := lookup_route (rt s) a
}.

Definition linear_rep (n : nat) (s : LinearIPLookup) (M : routes) : Prop :=
  linear_ok s /\ represents (rt s) M /\ vlen (rt s) + Z.of_nat n < 2147483646.

Lemma add_route_old s r allow s' rc x :
  linear_ok s -> add_route s r allow = (s', rc, Some x) ->
  route_ok x /\ (addr x, mask x) = (addr r, mask r).
Proof.
  intros [Ht _ _ _]. unfold add_route.
  pose proof (scan_routes_spec r (rt s) 0 (vlen (rt s)) (vlen (rt s)) ltac:(lia)) as Hscan.
  destruct (scan_routes r (rt s) 0 (vlen (rt s)) (vlen (rt s))) as [i|found]; [|done].
  destruct Hscan as (Hi & Hri & Hsame). rewrite Z.sub_0_r in *. apply same_prefix_iff in Hsame.
  assert (Hro : route_ok (vget (rt s) i)).
  { destruct (to_routes _ Ht i Hi) as [|Hk]; [done|]. by rewrite (killed_real _ Hk) in Hri. }
  destruct allow; cbn [negb]; by intros [= <- <- <-].
Qed.

Lemma remove_route_old s r s' rc x :
  linear_ok s -> prefix_ok (addr r) (mask r) -> remove_route s r = (s', rc, Some x) ->
  route_ok x /\ (addr x, mask x) = (addr r, mask r).
Proof.
  intros [Ht _ _ _] Hok. unfold remove_route. pose proof (find_match_spec r (rt s) 0) as Hf.
  destruct (find_match r (rt s) 0) as [i|]; [|done]. destruct Hf as [Hi Hm]. rewrite Z.sub_0_r in Hm.
  apply route_match_iff in Hm as [Hk _]. intros [= <- <- <-]. split; [|done].
  destruct (to_routes _ Ht i ltac:(lia)) as [|(K1 & K2 & _)]; [done|].
  exfalso. destruct Hok as (_ & _ & _ & Hn). congruence.
Qed.

#[export] Program Instance linear_lawful : LawfulTable LinearIPLookup := { table_rep := linear_rep }.
Next Obligation.
  intros n s M r allow (Hok & Hr & Hsz) Hro. cbn.
  pose proof (add_route_spec s M r allow Hok Hr Hro ltac:(lia)) as Hs.
  pose proof (add_route_old s r allow) as Hold.
  destruct (add_route s r allow) as [[s' rc] old]. destruct (spec_add M r allow) as [[M' rc'] old'].
  destruct Hs as (G1 & G2 & G3 & G4 & G5). split; [split; [done|]; split; [done|lia]|].
  split; [done|]. split; [done|]. intros x ->. by eapply Hold.
Qed.
Next Obligation.
  intros n s M r (Hok & Hr & Hsz) Hro. cbn.
  pose proof (remove_route_spec s M r Hok Hr Hro) as Hs.
  pose proof (remove_route_old s r) as Hold.
  destruct (remove_route s r) as [[s' rc] old]. destruct (spec_remove M r) as [[M' rc'] old'].
  destruct Hs as (G1 & G2 & G3 & G4 & G5). split; [split; [done|]; split; [done|lia]|].
  split; [done|]. split; [done|]. intros x ->. by eapply Hold.
Qed.
Next Obligation.
  intros n s M a (Hok & Hr & _) Ha. cbn.
  eexists. split; [exact (lookup_lpm (rt s) M a (lo_table s Hok) Hr Ha)|]. cbv zeta. unfold lookup_route.
  by destruct (0 <=? lookup_entry (rt s) a).
Qed.

(** ** Transactions *)

Section transactions.
Context {T : Type} `{LawfulTable T}.
Variable noutputs : Z.

Definition line_ok (l : ctrl_line) : Prop :=
  match l with
  | blank_line => False
  | bad_command => True
  | ctrl_command _ parsed => forall r, parsed = Some r -> prefix_ok (addr r) (mask r)
  end.

(** Undoing on the abstract table. *)
Definition spec_undo (M : routes) (u : IPRoute * command) : routes :=
  match u.2 with
  | CMD_REMOVE => (spec_add M u.1 false).1.1
  | CMD_ADD => (spec_remove M u.1).1.1
  | CMD_SET => (spec_add M u.1 true).1.1
  end.

Definition undo_ok (u : IPRoute * command) : Prop := route_ok u.1.

Lemma undo_rep n t M u :
  table_rep (S n) t M -> undo_ok u -> table_rep n (undo t u) (spec_undo M u) \/ table_rep (S n) (undo t u) (spec_undo M u).
Proof.
  intros Hr Hu. unfold undo, spec_undo. destruct u as [x c]. cbn [fst snd] in *. destruct c.
  - right. pose proof (table_remove_spec (S n) t M x Hr (proj1 Hu)) as Hs.
    destruct (table_remove t x) as [[t' rc] old]. destruct (spec_remove M x) as [[M' rc'] old']. apply Hs.
  - left. pose proof (table_add_spec n t M x true Hr Hu) as Hs.
    destruct (table_add t x true) as [[t' rc] old]. destruct (spec_add M x true) as [[M' rc'] old']. apply Hs.
  - left. pose proof (table_add_spec n t M x false Hr Hu) as Hs.
    destruct (table_add t x false) as [[t' rc] old]. destruct (spec_add M x false) as [[M' rc'] old']. apply Hs.
Qed.

Definition stores (t : T) (M : routes) : Prop := exists n, table_rep n t M.

Lemma rollback_rep n t M us :
  (length us <= n)%nat -> table_rep n t M -> Forall undo_ok us -> stores (rollback t us) (fold_left spec_undo us M).
Proof.
  revert n t M. induction us as [|u us IH]; intros n t M Hn Hr Hus; [by exists n|].
  apply Forall_cons in Hus as [Hu Hus]. cbn in Hn. destruct n as [|n]; [lia|].
  cbn [rollback fold_left]. destruct (undo_rep n t M u Hr Hu) as [Hu'|Hu'].
  - apply (IH n); [lia|done|done].
  - apply (IH (S n)); [lia|done|done].
Qed.

Lemma undo_add M r allow : 
  match M !! (addr r, mask r) with
  | None => spec_undo (spec_add M r allow).1.1 (r, CMD_ADD) = M
  | Some v => forall x, (addr x, mask x) = (addr r, mask r) -> hop_of x = v ->
      spec_undo (spec_add M r true).1.1 (x, CMD_SET) = M
  end.
Proof.
  destruct (M !! (addr r, mask r)) as [v|] eqn:EM.
  - intros x Hx Hv. unfold spec_undo, spec_add. cbn [fst snd]. rewrite EM. cbn [fst]. rewrite Hx, lookup_insert_eq.
    cbn [fst]. change (gw x, port x) with (hop_of x). rewrite Hv. rewrite insert_insert_eq. by apply insert_id.
  - unfold spec_undo, spec_add, spec_remove. cbn [fst snd]. rewrite EM. cbn [fst]. rewrite lookup_insert_eq.
    rewrite bool_decide_true, orb_true_r by done. cbn [fst]. rewrite delete_insert_eq. by apply delete_id.
Qed.

Lemma undo_remove M r x v :
  M !! (addr r, mask r) = Some v -> (addr x, mask x) = (addr r, mask r) -> hop_of x = v ->
  ((port r <? 0) || bool_decide (v = (gw r, port r))) = true ->
  spec_undo (spec_remove M r).1.1 (x, CMD_REMOVE) = M.
Proof.
  intros EM Hx Hv Hb. unfold spec_undo, spec_remove, spec_add. cbn [fst snd]. rewrite EM, Hb. cbn [fst].
  rewrite Hx, lookup_delete_eq. cbn [fst]. change (gw x, port x) with (hop_of x). rewrite Hv. by apply insert_delete_id.
Qed.

(** A successful command can be undone from what it recorded; a failed one
    changed nothing. *)
Lemma run_command_spec n t M c parsed :
  table_rep (S n) t M -> (forall r, parsed = Some r -> prefix_ok (addr r) (mask r)) ->
  let '(t', r, u) := run_command noutputs t c parsed in
  exists M', (table_rep n t' M' \/ table_rep (S n) t' M')
  /\ match u with
     | Some u => 0 <= r /\ undo_ok u /\ spec_undo M' u = M
     | None => r < 0 /\ M' = M
     end.
Proof.
  intros Hr Hp. unfold run_command. destruct parsed as [route|]; [|exists M; split; [by right|done]].
  destruct ((port route <? (if decide (c = CMD_REMOVE) then -1 else 0)) || (noutputs <=? port route)) eqn:Eb.
  { exists M. split; [by right|done]. }
  apply orb_false_iff in Eb as [Eport _]. specialize (Hp route eq_refl).
  assert (Hadd : forall allow, 0 <= port route -> c <> CMD_REMOVE -> (allow = true <-> c = CMD_SET) ->
    let '(t', r, old) := table_add t route allow in
    exists M', (table_rep n t' M' \/ table_rep (S n) t' M')
    /\ match (if 0 <=? r then Some (match old with
                 | Some x => if port x <? 0 then (route, CMD_ADD) else (x, c)
                 | None => (route, CMD_ADD) end) else None) with
       | Some u => 0 <= r /\ undo_ok u /\ spec_undo M' u = M
       | None => r < 0 /\ M' = M
       end).
  { intros allow Hport Hc Hset. pose proof (table_add_spec n t M route allow Hr (conj Hp Hport)) as Hs.
    pose proof (undo_add M route allow) as Hundo. unfold spec_add in Hs, Hundo.
    destruct (table_add t route allow) as [[t' r] old].
    destruct (M !! (addr route, mask route)) as [v|] eqn:EM.
    - destruct allow; destruct Hs as (G1 & -> & G3 & G4).
      + destruct old as [x|]; [|done]. injection G3 as G3. destruct (G4 x eq_refl) as [Hx1 Hx2].
        eexists. split; [by left|]. cbn [Z.leb Z.compare].
        rewrite (proj2 (Z.ltb_ge (port x) 0)) by (destruct Hx1; lia).
        rewrite (proj1 Hset eq_refl). split; [lia|]. split; [done|]. by apply Hundo.
      + eexists. split; [by left|]. cbn. done.
    - destruct Hs as (G1 & -> & G3 & G4). destruct old as [x|]; [done|]. eexists. split; [by left|].
      cbn [Z.leb Z.compare]. split; [lia|]. split; [done|]. exact Hundo. }
  destruct c; cbn [decide] in Eport.
  - pose proof (Hadd false ltac:(destruct (decide _) in Eport; [done|bprop; lia]) ltac:(done) ltac:(done)) as Hs.
    destruct (table_add t route false) as [[t' r] old]. exact Hs.
  - pose proof (Hadd true ltac:(destruct (decide _) in Eport; [done|bprop; lia]) ltac:(done) ltac:(done)) as Hs.
    destruct (table_add t route true) as [[t' r] old]. exact Hs.
  - pose proof (table_remove_spec (S n) t M route Hr Hp) as Hs. pose proof (undo_remove M route) as Hundo.
    unfold spec_remove in Hs, Hundo. destruct (table_remove t route) as [[t' r] old].
    destruct (M !! (addr route, mask route)) as [v|] eqn:EM.
    + destruct ((port route <? 0) || bool_decide (v = (gw route, port route))) eqn:Eb.
      * destruct Hs as (G1 & -> & G34). destruct (G34 ltac:(lia)) as [G3 G4]. destruct old as [x|]; [|done]. injection G3 as G3.
        destruct (G4 x eq_refl) as [Hx1 Hx2]. eexists. split; [by right|]. cbn [Z.leb Z.compare].
        rewrite (proj2 (Z.ltb_ge (port x) 0)) by (destruct Hx1; lia). split; [lia|]. split; [done|].
        by apply (Hundo x v).
      * destruct Hs as (G1 & -> & _). exists M. split; [by right|]. done.
    + destruct Hs as (G1 & -> & _). exists M. split; [by right|]. done.
Qed.

Lemma rep_weaken n (t : T) M' :
  table_rep n t M' \/ table_rep (S n) t M' -> exists m, (n <= m)%nat /\ table_rep m t M'.
Proof. intros [Hr|Hr]; [exists n|exists (S n)]; split; (lia || done). Qed.

Lemma ctrl_loop_atomic lines n t M M0 us fuel :
  table_rep n t M -> (2 * length lines + length us <= n)%nat -> (length lines < fuel)%nat ->
  Forall line_ok lines -> Forall undo_ok us -> fold_left spec_undo us M = M0 ->
  exists t' r, ctrl_loop noutputs fuel t lines us = Some (t', r) /\ (r < 0 -> stores t' M0).
Proof.
  revert n t M us fuel. induction lines as [|l lines IH]; intros n t M us fuel Hr Hn Hf Hl Hu HM.
  { destruct fuel; [lia|]. exists t, 0. split; [done|]. lia. }
  apply Forall_cons in Hl as [Hl Hls]. destruct fuel as [|fuel]; [cbn in Hf; lia|]. cbn [ctrl_loop].
  cbn [length] in Hn, Hf. destruct l as [| |c parsed]; [done| |].
  - eexists _, _. split; [done|]. intros _. rewrite <- HM. apply (rollback_rep n); [lia|done|done].
  - destruct n as [|n]; [lia|]. pose proof (run_command_spec n t M c parsed Hr Hl) as Hs.
    destruct (run_command noutputs t c parsed) as [[t' r] u]. destruct Hs as (M' & Hr' & Hu').
    apply rep_weaken in Hr' as (m & Hm & Hr').
    destruct u as [u|].
    + destruct Hu' as (Hr0 & Hok & Hundo). rewrite (proj2 (Z.ltb_ge r 0)) by lia.
      apply (IH m t' M' (u :: us) fuel); [done|cbn; lia|lia|done|by constructor|].
      cbn [fold_left]. by rewrite Hundo.
    + destruct Hu' as [Hr0 ->]. rewrite (proj2 (Z.ltb_lt r 0)) by lia. eexists _, _. split; [done|].
      intros _. rewrite <- HM. apply (rollback_rep m); [lia|done|done].
Qed.
End transactions.

(** ** Properties *)

(** C30. The [ctrl] handler is a transaction: on any table that implements the
    interface, a batch of commands without blank lines, on prefixes other than
    0.0.0.0/32, ends, and when any command fails (a parse error, a bad port, an existing or a missing route, an unknown
    command) the rollback leaves exactly the routes that were there before. *)
Theorem ctrl_handler_atomic {T : Type} `{LawfulTable T} (noutputs : Z) (n : nat) (t : T) (M : routes)
    (lines : list ctrl_line) :
  table_rep n t M -> (2 * length lines <= n)%nat -> Forall line_ok lines ->
  exists t' r, ctrl_handler noutputs (S (length lines)) t lines = Some (t', r) /\ (r < 0 -> stores t' M).
Proof.
  intros Hr Hn Hl. apply (ctrl_loop_atomic noutputs lines n t M M []); try done; [|lia].
  cbn [length]. lia.
Qed.

Definition sample_lines : list ctrl_line :=
  [ctrl_command CMD_ADD (Some p10); ctrl_command CMD_SET (Some p10_1); ctrl_command CMD_REMOVE (Some p10);
   ctrl_command CMD_ADD (Some p10_1)].

Lemma sample_lines_ok : Forall line_ok sample_lines.
Proof.
  pose proof sample_routes_ok as Hs. unfold sample_routes in Hs. rewrite !Forall_cons in Hs.
  destruct Hs as ([G1 _] & [G2 _] & _).
  repeat apply List.Forall_cons; try apply List.Forall_nil; intros r [= <-]; done.
Qed.

Lemma ctrl_handler_atomic_witness :
  (exists t' r, ctrl_handler 8 5 new_linear sample_lines = Some (t', r) /\ (r < 0 -> stores t' ∅))
  /\ snd <$> ctrl_handler 8 5 new_linear sample_lines = Some (-17).
Proof.
  split; [|vm_compute; reflexivity].
  refine (ctrl_handler_atomic 8 8 new_linear ∅ sample_lines _ _ sample_lines_ok); [|cbn; lia].
  destruct new_linear_ok as [G1 G2]. split; [done|]. split; [done|]. unfold vlen. simpl. lia.
Defined.

(** A blank line in a [ctrl] batch is never passed: the handler retries the
    same position for ever, whatever the table and however long it runs. *)
Theorem ctrl_blank_line_loops {T : Type} `{RouteTable T} (noutputs : Z) (t : T) (lines : list ctrl_line) (fuel : nat) :
  ctrl_handler noutputs fuel t (blank_line :: lines) = None.
Proof. unfold ctrl_handler. induction fuel as [|fuel IH]; [done|exact IH]. Qed.

(** [configure] keeps the first of two routes for the same prefix, although
    its warning says that routes were ``replaced by later versions''. *)
Theorem configure_keeps_first :
  let later := mkRoute (addr p10) (mask p10) 0 5 0 in
  let '(t, r, eexist) := table_configure 8 new_linear [Some p10; Some later] 0 0 in
  r = 0 /\ eexist = 1 /\ (table_lookup t (addr p10)).1 = port p10.
Proof. vm_compute. done. Qed.
