(* ===== verification/Cksum.v ===== *)
(** * Internet checksums

    [click_in_cksum] and its companions (lib/in_cksum.c,
    include/clicknet/ip.h): the one's-complement sum of the 16-bit words of a
    range of bytes, its incremental update, and the pseudoheader of transport
    protocols.  Words are read in memory order, as the code does. *)

From S2P Require Import Prelude Packet Insn.
Local Open Scope word_scope.
Local Open Scope Z_scope.

(** ** Halfwords in memory *)

(** [*(const uint16_t * )(l + i)] and the store to it. *)
Definition word16 (l : list Z) (i : Z) : Z := vget l i .| (vget l (i + 1) .<< 8).
Definition put16 (l : list Z) (i v : Z) : list Z := vset (vset l i (v .& 255)) (i + 1) ((v .>> 8) .& 255).

(** [htons] and [ntohs] on a little-endian machine. *)
Definition htons (v : Z) : Z := ((v .& 255) .<< 8) .| ((v .>> 8) .& 255).

(** ** in_cksum.c *)

(** [while (nleft > 1)] and the odd byte; [w] is what is left of the range. *)
Fixpoint sum_words (w : list Z) (sum : Z) : Z :=
  match w with
  | a :: b :: w' => sum_words w' (u32 (sum + (a .| (b .<< 8))))
  | [a] => u32 (sum + a)
  | [] => sum
  end.

Definition click_in_cksum (addr : list Z) (len : Z) : Z :=
  let sum := sum_words (take (Z.to_nat len) addr) 0 in
  let sum := u32 ((sum .& 65535) + (sum .>> 16)) in
  let sum := u32 (sum + (sum .>> 16)) in
  u16 (Z.lnot sum).

Definition click_in_cksum_pseudohdr_raw (csum src dst proto packet_len : Z) : Z :=
  let csum := u32 (Z.lnot csum) .& 65535 in
  let csum := u32 (csum + ((src .& 65535) + (src .>> 16))) in
  let csum := u32 (csum + ((dst .& 65535) + (dst .>> 16))) in
  let csum := u32 (csum + (htons packet_len + htons proto)) in
  let csum := u32 ((csum .& 65535) + (csum .>> 16)) in
  u32 (Z.lnot (csum + (csum .>> 16))) .& 65535.

Definition IPOPT_EOL : Z := 0.
Definition IPOPT_NOP : Z := 1.
Definition IPOPT_LSRR : Z := 131.
Definition IPOPT_SSRR : Z := 137.

(** The 32-bit word at [l + i], in memory order. *)
Definition word32 (l : list Z) (i : Z) : Z :=
  le32 (vget l i) (vget l (i + 1)) (vget l (i + 2)) (vget l (i + 3)).

(** The loop over the options, at [opt] bytes from [iph]: the destination in a
    source route, or [None]. *)
Fixpoint source_route (fuel : nat) (iph : list Z) (opt end_opt : Z) : option Z :=
  match fuel with
  | O => None
  | S fuel' =>
      if opt <? end_opt then
        if vget iph opt =? IPOPT_NOP then source_route fuel' iph (opt + 1) end_opt
        else if vget iph opt =? IPOPT_EOL then None
        else if (end_opt <=? opt + 1) || (vget iph (opt + 1) <? 2) || (end_opt <? opt + vget iph (opt + 1)) then None
        else if ((vget iph opt =? IPOPT_SSRR) || (vget iph opt =? IPOPT_LSRR)) && (7 <=? vget iph (opt + 1))
        then Some (word32 iph (opt + vget iph (opt + 1) - 4))
        else source_route fuel' iph (opt + vget iph (opt + 1)) end_opt
      else None
  end.

(** Fields of [struct click_ip]. *)
Definition ip_hl (ip : list Z) : Z := vget ip 0 .& 15.
Definition ip_v (ip : list Z) : Z := vget ip 0 .>> 4.
Definition ip_len (ip : list Z) : Z := word16 ip 2.
Definition ip_off (ip : list Z) : Z := word16 ip 6.
Definition ip_ttl (ip : list Z) : Z := vget ip 8.
Definition ip_p (ip : list Z) : Z := vget ip 9.
Definition ip_sum (ip : list Z) : Z := word16 ip 10.
Definition ip_src (ip : list Z) : Z := word32 ip 12.
Definition ip_dst (ip : list Z) : Z := word32 ip 16.

Definition sizeof_click_ip : Z := 20.

Definition click_in_cksum_pseudohdr_hard (csum : Z) (iph : list Z) (packet_len : Z) : Z :=
  match source_route 64 iph sizeof_click_ip (ip_hl iph .<< 2) with
  | Some daddr => click_in_cksum_pseudohdr_raw csum (ip_src iph) daddr (ip_p iph) packet_len
  | None => click_in_cksum_pseudohdr_raw csum (ip_src iph) (ip_dst iph) (ip_p iph) packet_len
  end.

Definition click_in_cksum_pseudohdr (data_csum : Z) (iph : list Z) (transport_len : Z) : Z :=
  if ip_hl iph =? 5
  then click_in_cksum_pseudohdr_raw data_csum (ip_src iph) (ip_dst iph) (ip_p iph) transport_len
  else click_in_cksum_pseudohdr_hard data_csum iph transport_len.

Definition click_update_in_cksum (csum old_hw new_hw : Z) : Z :=
  let sum := u32 ((Z.lnot csum .& 65535) + (Z.lnot old_hw .& 65535) + new_hw) in
  let sum := u32 ((sum .& 65535) + (sum .>> 16)) in
  u16 (Z.lnot (sum + (sum .>> 16))).

Definition click_update_zero_in_cksum_hard (csum : Z) (x : list Z) : Z :=
  if existsb (fun b => negb (b =? 0)) x then csum else u16 (Z.lnot 0).

Definition click_update_zero_in_cksum (csum : Z) (x : list Z) : Z :=
  if csum =? 0 then click_update_zero_in_cksum_hard csum x else csum.

(** ** One's-complement sums *)

Definition bytes_ok (l : list Z) : Prop := Forall (fun b => 0 <= b < 256) l.

Fixpoint word_sum (l : list Z) : Z :=
  match l with
  | a :: b :: l' => a + 256 * b + word_sum l'
  | [a] => a
  | [] => 0
  end.

(** The canonical one's-complement value: only 0 gives 0. *)
Definition ones16 (x : Z) : Z := if x =? 0 then 0 else (x - 1) mod 65535 + 1.

Lemma ones16_range x : 0 <= x -> 0 <= ones16 x <= 65535 /\ (ones16 x = 0 <-> x = 0).
Proof.
  intros Hx. unfold ones16. destruct (Z.eqb_spec x 0); [lia|].
  pose proof (Z.mod_pos_bound (x - 1) 65535 ltac:(lia)). lia.
Qed.

Lemma ones16_unique x y : 0 < x -> 1 <= y <= 65535 -> (exists q, x = y + 65535 * q) -> ones16 x = y.
Proof.
  intros Hx Hy (q & ->). unfold ones16. destruct (Z.eqb_spec (y + 65535 * q) 0); [lia|].
  replace (y + 65535 * q - 1) with (y - 1 + q * 65535) by lia. rewrite Z.mod_add, Z.mod_small by lia. lia.
Qed.

Lemma ones16_quot x : exists q, x = ones16 x + 65535 * q.
Proof.
  unfold ones16. destruct (Z.eqb_spec x 0); [exists 0; lia|]. exists ((x - 1) / 65535).
  pose proof (Z.div_mod (x - 1) 65535 ltac:(lia)). lia.
Qed.

(** Equal up to multiples of 65535 and both non-zero: equal sums. *)
Lemma ones16_eq x y : 0 < x -> 0 < y -> (exists q, x = y + 65535 * q) -> ones16 x = ones16 y.
Proof.
  intros Hx Hy (q & Hq). destruct (ones16_quot y) as [q' Hq']. pose proof (ones16_range y ltac:(lia)).
  apply ones16_unique; [done|lia|]. exists (q' + q). lia.
Qed.

Lemma low16 x : x .& 65535 = x mod 65536.
Proof. change 65535 with (Z.ones 16). by rewrite Z.land_ones by lia. Qed.

Lemma lnot16 x : 0 <= x <= 65535 -> Z.lnot x .& 65535 = 65535 - x.
Proof. intros Hx. rewrite low16. unfold Z.lnot. symmetry. apply (Z.mod_unique_pos _ _ (-1)); lia. Qed.

(** Folding the carries of a 32-bit sum. *)
Lemma fold_carries x :
  0 <= x < 4294967296 ->
  let s := u32 ((x .& 65535) + (x .>> 16)) in
  u16 (s + (s .>> 16)) = ones16 x /\ 0 <= s + (s .>> 16) < 4294967296 /\ u16 (Z.lnot (s + (s .>> 16))) = 65535 - ones16 x.
Proof.
  intros Hx. cbv zeta. rewrite low16, !Z.shiftr_div_pow2 by lia. change (2 ^ 16) with 65536.
  pose proof (Z.div_mod x 65536 ltac:(lia)) as Hd. pose proof (Z.mod_pos_bound x 65536 ltac:(lia)) as Hm.
  assert (Hq : 0 <= x / 65536 < 65536) by (split; [apply Z.div_pos; lia|apply Z.div_lt_upper_bound; lia]).
  set (a := x / 65536) in *. set (b := x mod 65536) in *. clearbody a b.
  assert (Hs : u32 (b + a) = b + a) by (apply Z.mod_small; lia). rewrite Hs. set (s := b + a) in *.
  assert (Hf : (s < 65536 /\ s / 65536 = 0) \/ (65536 <= s /\ s / 65536 = 1)).
  { destruct (Z.lt_ge_cases s 65536); [left|right]; (split; [done|]); Z.div_mod_to_equations; lia. }
  assert (Hu : u16 (s + s / 65536) = ones16 x).
  { unfold u16. destruct Hf as [[Hs1 ->]|[Hs1 ->]].
    - rewrite Z.add_0_r, Z.mod_small by lia. destruct (decide (x = 0)) as [->|]; [unfold ones16; cbn; lia|].
      symmetry. apply ones16_unique; [lia|lia|]. exists a. lia.
    - replace (s + 1) with (s - 65535 + 1 * 65536) by lia. rewrite Z.mod_add, Z.mod_small by lia.
      symmetry. apply ones16_unique; [lia|lia|]. exists (a + 1). lia. }
  split; [done|]. split; [lia|]. rewrite <- Hu. unfold u16, Z.lnot.
  pose proof (Z.div_mod (s + s / 65536) 65536 ltac:(lia)) as Hd2. pose proof (Z.mod_pos_bound (s + s / 65536) 65536 ltac:(lia)).
  set (t := (s + s / 65536) mod 65536) in *. symmetry.
  apply (Z.mod_unique_pos _ _ (-1 - (s + s / 65536) / 65536)); lia.
Qed.

Lemma two_bytes a b : 0 <= a < 256 -> a .| (b .<< 8) = a + 256 * b.
Proof. intros Ha. rewrite lor_shift_add by (change (2 ^ 8) with 256; lia). change (2 ^ 8) with 256. lia. Qed.

(** ** The sum of a range *)

Lemma pair_ind (P : list Z -> Prop) :
  P [] -> (forall a, P [a]) -> (forall a b l, P l -> P (a :: b :: l)) -> forall l, P l.
Proof.
  intros H0 H1 H2. fix IH 1. intros [|a [|b l]]; [exact H0|exact (H1 a)|exact (H2 a b l (IH l))].
Qed.

Lemma bytes_cons a l : bytes_ok (a :: l) <-> 0 <= a < 256 /\ bytes_ok l.
Proof. unfold bytes_ok. by rewrite Forall_cons. Qed.

Lemma bytes_get l i : bytes_ok l -> 0 <= i < vlen l -> 0 <= vget l i < 256.
Proof.
  intros Hl Hi. unfold bytes_ok in Hl. rewrite Forall_forall in Hl. apply Hl, elem_of_vget. by exists i.
Qed.

Lemma word_sum_range l : bytes_ok l -> 0 <= word_sum l <= 65535 * vlen l.
Proof.
  induction l as [|a|a b l IH] using pair_ind; rewrite ?bytes_cons; intros Hl; cbn [word_sum]; rewrite ?vlen_cons; change (vlen (@nil Z)) with 0.
  - lia.
  - lia.
  - destruct Hl as (Ha & Hb & Hl). specialize (IH Hl). pose proof (vlen_nonneg l). lia.
Qed.

Lemma word_sum_zero l : bytes_ok l -> word_sum l = 0 <-> Forall (fun b => b = 0) l.
Proof.
  induction l as [|a|a b l IH] using pair_ind; rewrite ?bytes_cons; intros Hl; cbn [word_sum]; rewrite ?Forall_cons.
  - split; [by intros _; apply List.Forall_nil|done].
  - split; [intros ->; split; [done|by apply List.Forall_nil]|by intros [-> _]].
  - destruct Hl as (Ha & Hb & Hl). pose proof (word_sum_range l Hl). rewrite <- (IH Hl). lia.
Qed.

Lemma sum_words_spec w sum :
  bytes_ok w -> 0 <= sum -> sum + word_sum w < 4294967296 -> sum_words w sum = sum + word_sum w.
Proof.
  revert sum. induction w as [|a|a b w IH] using pair_ind; intros sum; rewrite ?bytes_cons; intros Hw Hs Hb; cbn [sum_words word_sum] in *.
  - lia.
  - apply Z.mod_small. lia.
  - destruct Hw as (Ha & Hb' & Hw). rewrite two_bytes by done. pose proof (word_sum_range w Hw).
    unfold u32. rewrite Z.mod_small by lia. rewrite IH by (done || lia). lia.
Qed.

Lemma bytes_take n l : bytes_ok l -> bytes_ok (take n l).
Proof. apply Forall_take. Qed.

(** What [click_in_cksum] computes. *)
Lemma click_in_cksum_spec l len :
  bytes_ok l -> len <= 65536 -> click_in_cksum l len = 65535 - ones16 (word_sum (take (Z.to_nat len) l)).
Proof.
  intros Hl Hlen. unfold click_in_cksum. set (w := take (Z.to_nat len) l).
  assert (Hw : bytes_ok w) by by apply bytes_take. pose proof (word_sum_range w Hw) as Hr.
  assert (vlen w <= 65536) by (unfold w, vlen; rewrite length_take; lia).
  assert (Hlt : word_sum w < 4294967296) by lia.
  rewrite sum_words_spec by (done || lia). rewrite Z.add_0_l.
  destruct (fold_carries (word_sum w) ltac:(lia)) as (_ & Hf & Hu). cbv zeta in *.
  rewrite (Z.mod_small _ 4294967296 Hf : u32 _ = _). exact Hu.
Qed.

Lemma click_in_cksum_all l : bytes_ok l -> vlen l <= 65536 -> click_in_cksum l (vlen l) = 65535 - ones16 (word_sum l).
Proof.
  intros Hl Hlen. rewrite click_in_cksum_spec by done. rewrite take_ge; [done|]. unfold vlen. lia.
Qed.

(** ** Changing a word *)

Lemma vset_cons_S {A} (x y : A) (l : list A) i : 0 <= i -> vset (x :: l) (i + 1) y = x :: vset l i y.
Proof.
  intros Hi. unfold vset. rewrite (proj2 (Z.leb_le 0 i)), (proj2 (Z.leb_le 0 (i + 1))) by lia.
  by replace (Z.to_nat (i + 1)) with (S (Z.to_nat i)) by lia.
Qed.

Lemma vlen_put16 l i v : vlen (put16 l i v) = vlen l.
Proof. unfold put16. by rewrite !vlen_vset. Qed.

Lemma low_byte v : 0 <= v .& 255 < 256.
Proof. change 255 with (Z.ones 8). rewrite Z.land_ones by lia. by apply Z.mod_pos_bound. Qed.

Lemma bytes_vset l i b : bytes_ok l -> 0 <= b < 256 -> bytes_ok (vset l i b).
Proof. intros Hl Hb. unfold vset. destruct (0 <=? i); [|done]. by apply Forall_insert. Qed.

Lemma bytes_put16 l i v : bytes_ok l -> bytes_ok (put16 l i v).
Proof. intros Hl. unfold put16. do 2 (apply bytes_vset; [|apply low_byte]). done. Qed.

Lemma split16 v : 0 <= v < 65536 -> (v .& 255) + 256 * ((v .>> 8) .& 255) = v.
Proof.
  intros Hv. change 255 with (Z.ones 8). rewrite !Z.land_ones, Z.shiftr_div_pow2 by lia. change (2 ^ 8) with 256.
  Z.div_mod_to_equations. lia.
Qed.

Lemma word16_range l i : bytes_ok l -> 0 <= i -> i + 1 < vlen l -> word16 l i = vget l i + 256 * vget l (i + 1) /\ 0 <= word16 l i < 65536.
Proof.
  intros Hl Hi Hi1. pose proof (bytes_get l i Hl ltac:(lia)). pose proof (bytes_get l (i + 1) Hl ltac:(lia)).
  unfold word16. rewrite two_bytes by lia. lia.
Qed.

Lemma word_sum_put16 l k v :
  bytes_ok l -> (2 * Z.of_nat k + 1 < vlen l) -> 0 <= v < 65536 ->
  word_sum (put16 l (2 * Z.of_nat k) v) = word_sum l - word16 l (2 * Z.of_nat k) + v.
Proof.
  revert l. induction k as [|k IH]; intros l Hl Hk Hv.
  - destruct l as [|a [|b l]]; [unfold vlen in Hk; cbn in Hk; lia..|].
    apply bytes_cons in Hl as [Ha Hl]. change (2 * Z.of_nat 0) with 0. unfold put16, word16.
    change (vset (vset (a :: b :: l) 0 (v .& 255)) (0 + 1) ((v .>> 8) .& 255)) with ((v .& 255) :: ((v .>> 8) .& 255) :: l).
    change (vget (a :: b :: l) 0) with a. change (vget (a :: b :: l) (0 + 1)) with b. rewrite two_bytes by done.
    pose proof (split16 v Hv). cbn [word_sum]. lia.
  - destruct l as [|a [|b l]]; [unfold vlen in Hk; cbn in Hk; lia..|].
    rewrite !bytes_cons in Hl. destruct Hl as (Ha & Hb & Hl). rewrite !vlen_cons in Hk.
    specialize (IH l Hl ltac:(lia) Hv). unfold put16, word16 in *.
    replace (2 * Z.of_nat (S k)) with (2 * Z.of_nat k + 1 + 1) by lia.
    rewrite !vset_cons_S by lia. rewrite !vget_cons_S by lia.
    replace (2 * Z.of_nat k + 1 + 1 - 1 - 1) with (2 * Z.of_nat k) by lia.
    replace (2 * Z.of_nat k + 1 + 1 + 1 - 1 - 1) with (2 * Z.of_nat k + 1) by lia.
    cbn [word_sum]. lia.
Qed.

Lemma word_sum_app l1 l2 : Z.even (vlen l1) = true -> word_sum (l1 ++ l2) = word_sum l1 + word_sum l2.
Proof.
  induction l1 as [|a|a b l1 IH] using pair_ind; intros He; cbn [app word_sum].
  - done.
  - done.
  - rewrite IH; [lia|]. rewrite !vlen_cons in He. by replace (vlen l1 + 1 + 1) with (vlen l1 + 2) in He by lia; rewrite Z.even_add in He; destruct (Z.even (vlen l1)).
Qed.

(** ** Fuel *)

Lemma source_route_fuel fuel n iph opt end_opt :
  bytes_ok iph -> end_opt <= vlen iph -> 0 <= opt -> end_opt - opt < Z.of_nat fuel ->
  source_route (fuel + n) iph opt end_opt = source_route fuel iph opt end_opt.
Proof.
  intros Hb He. revert opt. induction fuel as [|fuel IH]; intros opt Ho Hf.
  - rewrite Nat.add_0_l. destruct n as [|n]; cbn [source_route]; [done|]. by rewrite (proj2 (Z.ltb_ge opt end_opt)) by lia.
  - cbn [source_route Nat.add]. destruct (Z.ltb_spec opt end_opt) as [Hlt|]; [|done].
    destruct (vget iph opt =? IPOPT_NOP); [by apply IH; lia|]. destruct (vget iph opt =? IPOPT_EOL); [done|].
    destruct (_ || _ || _) eqn:Eb; [done|]. bprop. destruct (_ && _); [done|]. apply IH; lia.
Qed.

(** ** All-zero ranges *)

Lemma some_nonzero l : existsb (fun b => negb (b =? 0)) l = false <-> Forall (fun b => b = 0) l.
Proof.
  rewrite Forall_forall, <- not_true_iff_false, existsb_exists. split.
  - intros Hn b Hb%list_elem_of_In. destruct (Z.eqb_spec b 0) as [|E]; [done|]. destruct Hn. exists b. split; [done|].
    by rewrite (proj2 (Z.eqb_neq _ _) E).
  - intros Hz (b & Hb%list_elem_of_In & Hn). by rewrite (Hz b Hb) in Hn.
Qed.

(** ** Properties *)

(** The checksum of a range, stored in the range where there was a zero, makes
    the range verify. *)
Lemma checksum_verifies l k :
  bytes_ok l -> vlen l <= 65536 -> 2 * Z.of_nat k + 1 < vlen l -> word16 l (2 * Z.of_nat k) = 0 ->
  click_in_cksum (put16 l (2 * Z.of_nat k) (click_in_cksum l (vlen l))) (vlen l) = 0.
Proof.
  intros Hl Hlen Hk H0. pose proof (word_sum_range l Hl) as Hr. rewrite (click_in_cksum_all l) by done.
  pose proof (ones16_range (word_sum l) ltac:(lia)) as [Ho _]. set (c := 65535 - ones16 (word_sum l)) in *.
  rewrite <- (vlen_put16 l (2 * Z.of_nat k) c). rewrite click_in_cksum_all by (apply bytes_put16 || rewrite vlen_put16; done).
  rewrite word_sum_put16 by (done || lia). rewrite H0. enough (ones16 (word_sum l - 0 + c) = 65535) by lia.
  destruct (ones16_quot (word_sum l)) as [q Hq]. apply ones16_unique; [|lia|exists q; lia].
  pose proof (proj2 (ones16_range (word_sum l) ltac:(lia))). lia.
Qed.

(** Whether a range verifies depends on its sum only. *)
Lemma cksum_zero_iff l :
  bytes_ok l -> vlen l <= 65536 -> click_in_cksum l (vlen l) = 0 <-> exists q, 0 < q /\ word_sum l = 65535 * q.
Proof.
  intros Hl Hlen. rewrite click_in_cksum_all by done. pose proof (word_sum_range l Hl).
  destruct (ones16_range (word_sum l) ltac:(lia)) as [Hr Hz]. destruct (ones16_quot (word_sum l)) as [q Hq]. split.
  - intros He. exists (q + 1). lia.
  - intros (q' & Hq' & He). rewrite He. enough (ones16 (65535 * q') = 65535) by lia. apply ones16_unique; [lia|lia|]. exists (q' - 1). lia.
Qed.

(** C24. Incremental checksum updates are exact: replacing one 16-bit word of any
    range of bytes and adjusting its checksum with [click_update_in_cksum] and
    [click_update_zero_in_cksum] gives the checksum of the new range; the second
    call matters only when the new range is all zero. *)
Theorem update_cksum_exact (l : list Z) (k : nat) (v : Z) :
  bytes_ok l -> vlen l <= 65536 -> 2 * Z.of_nat k + 1 < vlen l -> 0 <= v < 65536 ->
  let l' := put16 l (2 * Z.of_nat k) v in
  let csum' := click_update_in_cksum (click_in_cksum l (vlen l)) (word16 l (2 * Z.of_nat k)) v in
  click_update_zero_in_cksum csum' l' = click_in_cksum l' (vlen l')
  /\ (csum' = click_in_cksum l' (vlen l') \/ Forall (fun b => b = 0) l').
Proof.
  intros Hl Hlen Hk Hv l' csum'. pose proof (word_sum_range l Hl) as Hr.
  destruct (word16_range l (2 * Z.of_nat k) Hl ltac:(lia) Hk) as [_ Hw]. set (w := word16 l (2 * Z.of_nat k)) in *.
  assert (Hl' : bytes_ok l') by by apply bytes_put16. assert (Hlen' : vlen l' <= 65536) by (unfold l'; by rewrite vlen_put16).
  pose proof (word_sum_range l' Hl') as Hr'. assert (Hsum : word_sum l' = word_sum l - w + v) by by apply word_sum_put16.
  rewrite (click_in_cksum_all l') by done. destruct (ones16_range (word_sum l) ltac:(lia)) as [Ho Hoz].
  destruct (ones16_range (word_sum l') ltac:(lia)) as [Ho' Hoz'].
  assert (Hc : csum' = 65535 - ones16 (ones16 (word_sum l) + (65535 - w) + v)).
  { unfold csum', click_update_in_cksum. fold w. rewrite (click_in_cksum_all l) by done. rewrite !lnot16 by lia.
    replace (65535 - (65535 - ones16 (word_sum l))) with (ones16 (word_sum l)) by lia.
    rewrite (Z.mod_small (ones16 (word_sum l) + (65535 - w) + v) 4294967296 : _ -> u32 _ = _) by lia.
    apply (fold_carries (ones16 (word_sum l) + (65535 - w) + v)). lia. }
  destruct (ones16_quot (word_sum l)) as [q Hq].
  destruct (decide (word_sum l' = 0)) as [E|E].
  - assert (Hz : Forall (fun b => b = 0) l') by by apply word_sum_zero. split; [|by right].
    assert (csum' = 0) as ->.
    { rewrite Hc. enough (ones16 (ones16 (word_sum l) + (65535 - w) + v) = 65535) by lia.
      apply ones16_unique; [lia|lia|]. exists (- q). lia. }
    rewrite E. cbn [click_update_zero_in_cksum Z.eqb]. unfold click_update_zero_in_cksum_hard.
    by rewrite (proj2 (some_nonzero l') Hz).
  - assert (He : csum' = 65535 - ones16 (word_sum l')).
    { rewrite Hc. f_equal. apply ones16_eq; [lia|lia|]. exists (1 - q). lia. }
    split; [|by left]. unfold click_update_zero_in_cksum. destruct (Z.eqb_spec csum' 0) as [E0|]; [|done].
    unfold click_update_zero_in_cksum_hard. destruct (existsb _ l') eqn:Ex; [done|].
    exfalso. apply E. apply word_sum_zero; [done|]. by apply some_nonzero.
Qed.

Definition sample_header : list Z :=
  [69; 0; 0; 60; 28; 70; 64; 0; 64; 6; 177; 230; 172; 16; 10; 99; 172; 16; 10; 12].

Lemma sample_header_ok : bytes_ok sample_header.
Proof. unfold bytes_ok, sample_header. repeat (apply List.Forall_cons; [lia|]). apply List.Forall_nil. Qed.

Lemma update_cksum_exact_witness :
  let l' := put16 sample_header 8 1599 in
  let csum' := click_update_in_cksum (click_in_cksum sample_header (vlen sample_header)) (word16 sample_header 8) 1599 in
  click_update_zero_in_cksum csum' l' = click_in_cksum l' (vlen l')
  /\ (csum' = click_in_cksum l' (vlen l') \/ Forall (fun b => b = 0) l').
Proof. apply (update_cksum_exact sample_header 4 1599 sample_header_ok); unfold vlen; simpl; lia. Defined.

(** ** The pseudoheader *)

(** The bytes that precede a transport header in its checksum. *)
Definition pseudo_header (src dst : list Z) (proto len : Z) : list Z :=
  src ++ dst ++ [0; proto; len / 256; len mod 256].

Lemma word32_sum a b c d :
  bytes_ok [a; b; c; d] -> let w := le32 a b c d in
  (w .& 65535) + (w .>> 16) = word_sum [a; b; c; d] /\ 0 <= w < 4294967296.
Proof.
  unfold bytes_ok. rewrite !Forall_cons. intros (Ha & Hb & Hc & Hd & _). rewrite le32_add by done. cbv zeta.
  rewrite low16, Z.shiftr_div_pow2 by lia. change (2 ^ 16) with 65536. cbn [word_sum]. Z.div_mod_to_equations. lia.
Qed.

Lemma htons_sum v : 0 <= v < 65536 -> htons v = v / 256 + 256 * (v mod 256).
Proof.
  intros Hv. unfold htons. change 255 with (Z.ones 8). rewrite !Z.land_ones, Z.shiftr_div_pow2 by lia. change (2 ^ 8) with 256.
  rewrite (Z.mod_small (v / 256)) by (Z.div_mod_to_equations; lia). rewrite Z.lor_comm.
  rewrite two_bytes by (Z.div_mod_to_equations; lia). done.
Qed.

Lemma pseudohdr_raw_spec csum src dst proto len :
  0 <= csum <= 65535 -> 0 <= proto < 256 -> 0 <= len < 65536 ->
  0 <= (src .& 65535) + (src .>> 16) <= 131070 -> 0 <= (dst .& 65535) + (dst .>> 16) <= 131070 ->
  click_in_cksum_pseudohdr_raw csum src dst proto len
  = 65535 - ones16 ((65535 - csum) + ((src .& 65535) + (src .>> 16)) + ((dst .& 65535) + (dst .>> 16)) + (htons len + htons proto)).
Proof.
  intros Hc Hp Hl Hs Hd. unfold click_in_cksum_pseudohdr_raw.
  assert (Hlow : forall x, u32 x .& 65535 = x .& 65535).
  { intros x. rewrite !low16. unfold u32. change 4294967296 with (65536 * 65536). apply Z.mod_mod_divide. by exists 65536. }
  rewrite (Hlow (Z.lnot csum)), lnot16 by done. pose proof (htons_sum len Hl). pose proof (htons_sum proto ltac:(lia)).
  assert (0 <= htons len < 65536 /\ 0 <= htons proto < 65536) by (Z.div_mod_to_equations; lia).
  set (S1 := (src .& 65535) + (src .>> 16)) in *. set (S2 := (dst .& 65535) + (dst .>> 16)) in *. set (S3 := htons len + htons proto) in *.
  rewrite (Z.mod_small (65535 - csum + S1) 4294967296 : _ -> u32 _ = _) by lia.
  rewrite (Z.mod_small (65535 - csum + S1 + S2) 4294967296 : _ -> u32 _ = _) by lia.
  rewrite (Z.mod_small (65535 - csum + S1 + S2 + S3) 4294967296 : _ -> u32 _ = _) by lia.
  destruct (fold_carries (65535 - csum + S1 + S2 + S3) ltac:(lia)) as (_ & _ & Hf). cbv zeta in Hf. rewrite Hlow, low16. exact Hf.
Qed.

(** Applied to the checksum of some bytes, the adjustment gives that of those
    bytes preceded by the pseudoheader. *)
Lemma pseudohdr_raw_checksum (data src dst : list Z) (proto len : Z) :
  bytes_ok data -> vlen data <= 65524 -> bytes_ok src -> length src = 4%nat -> bytes_ok dst -> length dst = 4%nat ->
  0 <= proto < 256 -> 0 <= len < 65536 ->
  click_in_cksum_pseudohdr_raw (click_in_cksum data (vlen data)) (word32 src 0) (word32 dst 0) proto len
  = click_in_cksum (pseudo_header src dst proto len ++ data) (12 + vlen data).
Proof.
  intros Hd Hn Hs Hls Ht Hlt Hp Hl.
  destruct src as [|s0 [|s1 [|s2 [|s3 [|]]]]]; try done. destruct dst as [|t0 [|t1 [|t2 [|t3 [|]]]]]; try done.
  unfold word32. change (vget [s0; s1; s2; s3] 0) with s0. change (vget [s0; s1; s2; s3] (0 + 1)) with s1.
  change (vget [s0; s1; s2; s3] (0 + 2)) with s2. change (vget [s0; s1; s2; s3] (0 + 3)) with s3.
  change (vget [t0; t1; t2; t3] 0) with t0. change (vget [t0; t1; t2; t3] (0 + 1)) with t1.
  change (vget [t0; t1; t2; t3] (0 + 2)) with t2. change (vget [t0; t1; t2; t3] (0 + 3)) with t3.
  destruct (word32_sum s0 s1 s2 s3 Hs) as [Es _]. destruct (word32_sum t0 t1 t2 t3 Ht) as [Et _]. cbv zeta in Es, Et.
  pose proof (word_sum_range _ Hs) as Hrs. pose proof (word_sum_range _ Ht) as Hrt.
  change (vlen [s0; s1; s2; s3]) with 4 in Hrs. change (vlen [t0; t1; t2; t3]) with 4 in Hrt.
  assert (Hw : bytes_ok (pseudo_header [s0; s1; s2; s3] [t0; t1; t2; t3] proto len)).
  { unfold pseudo_header, bytes_ok. rewrite !Forall_app. split; [done|]. split; [done|].
    repeat (apply List.Forall_cons; [Z.div_mod_to_equations; lia|]). apply List.Forall_nil. }
  assert (Hb : bytes_ok (pseudo_header [s0; s1; s2; s3] [t0; t1; t2; t3] proto len ++ data)) by (unfold bytes_ok; by rewrite Forall_app).
  assert (Hlen : vlen (pseudo_header [s0; s1; s2; s3] [t0; t1; t2; t3] proto len ++ data) = 12 + vlen data) by (by rewrite vlen_app).
  rewrite <- Hlen, (click_in_cksum_all (_ ++ data)) by (done || lia). rewrite word_sum_app by done. rewrite (click_in_cksum_all data) by (done || lia).
  pose proof (word_sum_range data Hd) as Hr. destruct (ones16_range (word_sum data) ltac:(lia)) as [Ho Hoz].
  rewrite pseudohdr_raw_spec, Es, Et by (rewrite ?Es, ?Et; cbn [word_sum]; unfold bytes_ok in *; rewrite ?Forall_cons in *; lia).
  rewrite !htons_sum by lia. rewrite (Z.div_small proto 256), (Z.mod_small proto 256) by lia.
  set (H := word_sum (pseudo_header _ _ _ _)).
  assert (HH : H = word_sum [s0; s1; s2; s3] + word_sum [t0; t1; t2; t3] + (256 * proto) + (len / 256 + 256 * (len mod 256))).
  { unfold H, pseudo_header. cbn [app word_sum]. lia. }
  assert (HH0 : 0 <= H) by (apply word_sum_range in Hw; unfold H; lia).
  f_equal. destruct (ones16_quot (word_sum data)) as [q Hq].
  destruct (decide (H + word_sum data = 0)) as [E|E].
  - rewrite E. rewrite (proj2 Hoz) in * by lia. f_equal. lia.
  - apply ones16_eq; [|lia|exists (- q); lia]. destruct (decide (word_sum data = 0)) as [E0|E0]; lia.
Qed.

(** ** Options *)

(** Bytes [a] to [b] of a list. *)
Definition range (l : list Z) (a b : Z) : list Z := take (Z.to_nat (b - a)) (drop (Z.to_nat a) l).

Lemma vlen_range l a b : 0 <= a <= b -> b <= vlen l -> vlen (range l a b) = b - a.
Proof. intros Ha Hb. unfold range, vlen in *. rewrite length_take, length_drop. lia. Qed.

Lemma vget_range l a b i : 0 <= a -> 0 <= i < b - a -> b <= vlen l -> vget (range l a b) i = vget l (a + i).
Proof.
  intros Ha Hi Hb. unfold vget. rewrite (proj2 (Z.leb_le 0 i)), (proj2 (Z.leb_le 0 (a + i))) by lia.
  unfold range. rewrite !list_lookup_total_alt, lookup_take_lt, lookup_drop by lia. do 2 f_equal. lia.
Qed.

Lemma range_cons l a b : 0 <= a < b -> b <= vlen l -> range l a b = vget l a :: range l (a + 1) b.
Proof.
  intros Ha Hb. unfold range. replace (Z.to_nat (b - a)) with (S (Z.to_nat (b - (a + 1)))) by lia.
  rewrite (drop_S l (vget l a) (Z.to_nat a)) by (apply vget_some; lia). cbn [take].
  by replace (Z.to_nat (a + 1)) with (S (Z.to_nat a)) by lia.
Qed.

Lemma take_range l a b n : 0 <= a -> 0 <= n <= b - a -> take (Z.to_nat n) (range l a b) = range l a (a + n).
Proof. intros Ha Hn. unfold range. rewrite take_take. f_equal. lia. Qed.

Lemma drop_range l a b n : 0 <= a -> 0 <= n <= b - a -> drop (Z.to_nat n) (range l a b) = range l (a + n) b.
Proof.
  intros Ha Hn. unfold range. rewrite skipn_firstn_comm, drop_drop. f_equal; [lia|f_equal; lia].
Qed.

Lemma bytes_range l a b : bytes_ok l -> bytes_ok (range l a b).
Proof. intros Hl. unfold range. apply bytes_take. by apply Forall_drop. Qed.

(** The options of a header, without padding, up to an end or a malformed one. *)
Fixpoint options (fuel : nat) (o : list Z) : list (list Z) :=
  match fuel with
  | O => []
  | S fuel' =>
      match o with
      | [] => []
      | x :: o' =>
          if x =? IPOPT_NOP then options fuel' o'
          else if (x =? IPOPT_EOL) || (vlen o <? 2) || (vget o 1 <? 2) || (vlen o <? vget o 1) then []
          else take (Z.to_nat (vget o 1)) o :: options fuel' (drop (Z.to_nat (vget o 1)) o)
      end
  end.

Definition header_options (iph : list Z) : list (list Z) := options 64 (range iph 20 (4 * ip_hl iph)).

Definition is_source_route (o : list Z) : bool :=
  ((vget o 0 =? IPOPT_SSRR) || (vget o 0 =? IPOPT_LSRR)) && (7 <=? vlen o).

(** The last four bytes of the first source route, or the destination field. *)
Definition final_dst (iph : list Z) : list Z :=
  match find is_source_route (header_options iph) with
  | Some o => range o (vlen o - 4) (vlen o)
  | None => range iph 16 20
  end.

(** One turn of a loop over options. *)
Lemma options_step fuel l a b :
  bytes_ok l -> 0 <= a < b -> b <= vlen l ->
  options (S fuel) (range l a b)
  = if vget l a =? IPOPT_NOP then options fuel (range l (a + 1) b)
    else if (vget l a =? IPOPT_EOL) || (b <=? a + 1) || (vget l (a + 1) <? 2) || (b <? a + vget l (a + 1)) then []
    else range l a (a + vget l (a + 1)) :: options fuel (range l (a + vget l (a + 1)) b).
Proof.
  intros Hl Ha Hb. pose proof (range_cons l a b Ha Hb) as Hc. pose proof (vlen_range l a b ltac:(lia) Hb) as Hn.
  cbn [options]. rewrite Hc at 1. destruct (vget l a =? IPOPT_NOP); [done|]. destruct (vget l a =? IPOPT_EOL); [done|].
  rewrite Hn. cbn [orb]. destruct (Z.ltb_spec (b - a) 2) as [H2|H2]; destruct (Z.leb_spec b (a + 1)) as [H1|H1]; try lia; cbn [orb]; [done|].
  rewrite vget_range by lia. destruct (Z.ltb_spec (vget l (a + 1)) 2); [done|]. cbn [orb].
  destruct (Z.ltb_spec (b - a) (vget l (a + 1))) as [H3|H3]; destruct (Z.ltb_spec b (a + vget l (a + 1))) as [H4|H4]; try lia; [done|].
  by rewrite take_range, drop_range by lia.
Qed.

Lemma word32_range l a b i : 0 <= a -> 0 <= i -> i + 4 <= b - a -> b <= vlen l -> word32 (range l a b) i = word32 l (a + i).
Proof. intros Ha Hi Hb Hl. unfold word32. rewrite !vget_range by lia. by rewrite !Z.add_assoc. Qed.

Lemma options_nil fuel l a b : b <= a -> options fuel (range l a b) = [].
Proof.
  intros Hab. destruct fuel as [|fuel]; [done|]. unfold range. by replace (Z.to_nat (b - a)) with 0%nat by lia.
Qed.

(** The walk over the options stops at the first source route. *)
Lemma source_route_spec fuel l a b :
  bytes_ok l -> 0 <= a -> b <= vlen l ->
  source_route fuel l a b = (fun o => word32 o (vlen o - 4)) <$> find is_source_route (options fuel (range l a b)).
Proof.
  intros Hl Ha Hb. revert a Ha. induction fuel as [|fuel IH]; intros a Ha; [done|]. cbn [source_route].
  destruct (Z.ltb_spec a b) as [Hlt|Hge]; [|by rewrite options_nil by lia].
  rewrite options_step by (done || lia). destruct (vget l a =? IPOPT_NOP); [apply IH; lia|].
  destruct (vget l a =? IPOPT_EOL); [done|]. cbn [orb]. destruct (_ || _ || _) eqn:Eb; [done|]. bprop. cbn [find].
  set (n := vget l (a + 1)) in *. unfold is_source_route at 1. rewrite vlen_range, vget_range by lia.
  rewrite Z.add_0_r. replace (a + n - a) with n by lia. destruct (_ && _) eqn:Es.
  - cbn [fmap option_fmap option_map]. bprop. rewrite vlen_range by lia. replace (a + n - a) with n by lia.
    rewrite word32_range by lia. f_equal. f_equal. lia.
  - apply IH. lia.
Qed.

(** A header whose length field fits. *)
Definition header_ok (iph : list Z) : Prop := bytes_ok iph /\ 5 <= ip_hl iph /\ 4 * ip_hl iph <= vlen iph.

Lemma hl_range iph : ip_hl iph <= 15.
Proof.
  unfold ip_hl. change 15 with (Z.ones 4) at 1. rewrite Z.land_ones by lia. change (2 ^ 4) with 16.
  pose proof (Z.mod_pos_bound (vget iph 0) 16 ltac:(lia)). lia.
Qed.

(** The pseudoheader uses the final destination. *)
Lemma pseudohdr_dst csum iph len :
  header_ok iph ->
  click_in_cksum_pseudohdr csum iph len
  = click_in_cksum_pseudohdr_raw csum (word32 (range iph 12 16) 0) (word32 (final_dst iph) 0) (ip_p iph) len
  /\ length (final_dst iph) = 4%nat /\ bytes_ok (final_dst iph).
Proof.
  intros (Hb & H5 & Hl). unfold click_in_cksum_pseudohdr, click_in_cksum_pseudohdr_hard, final_dst, header_options.
  rewrite (word32_range iph 12 16) by lia. rewrite Z.shiftl_mul_pow2 by lia. change (2 ^ 2) with 4. rewrite (Z.mul_comm (ip_hl iph)).
  rewrite (source_route_spec 64 iph sizeof_click_ip) by (done || unfold sizeof_click_ip; lia). change sizeof_click_ip with 20.
  assert (Hd : word32 (range iph 16 20) 0 = ip_dst iph) by (rewrite word32_range by lia; done).
  assert (Hlen : length (range iph 16 20) = 4%nat) by (pose proof (vlen_range iph 16 20 ltac:(lia) ltac:(lia)); unfold vlen in *; lia).
  destruct (find is_source_route (options 64 (range iph 20 (4 * ip_hl iph)))) as [o|] eqn:Ef.
  - destruct (Z.eqb_spec (ip_hl iph) 5) as [E|_]; [by rewrite E, options_nil in Ef by lia|]. cbn [fmap option_fmap option_map].
    apply find_some in Ef as [Hin Hs]. unfold is_source_route in Hs. bprop.
    assert (Ho : bytes_ok o).
    { revert Hin. generalize 64%nat (range iph 20 (4 * ip_hl iph)) (bytes_range iph 20 (4 * ip_hl iph) Hb). clear.
      induction n as [|n IH]; intros l Hl Hin; [done|]. cbn [options] in Hin. destruct l as [|x l]; [done|].
      destruct (x =? IPOPT_NOP); [by apply (IH l); [apply bytes_cons in Hl as [_ ?]|]|].
      destruct (_ || _ || _ || _); [done|]. destruct Hin as [<-|Hin]; [by apply bytes_take|]. eapply IH; [|exact Hin]. by apply Forall_drop. }
    split; [|split; [|by apply bytes_range]].
    + rewrite word32_range by lia. by rewrite !Z.add_0_r.
    + pose proof (vlen_range o (vlen o - 4) (vlen o) ltac:(lia) ltac:(lia)) as Hr. unfold vlen in *. lia.
  - rewrite Hd. split; [|split; [done|by apply bytes_range]]. by destruct (ip_hl iph =? 5).
Qed.

(** The pseudoheader adjustment is a checksum: applied to the checksum of a
    transport header and its data, [click_in_cksum_pseudohdr] gives the checksum of
    those bytes preceded by the source address of the IP header, its final
    destination (the last address of a source route, if there is one), the protocol
    and the length. *)
Theorem pseudohdr_checksum (iph data : list Z) (len : Z) :
  header_ok iph -> bytes_ok data -> vlen data <= 65524 -> 0 <= len < 65536 ->
  click_in_cksum_pseudohdr (click_in_cksum data (vlen data)) iph len
  = click_in_cksum (pseudo_header (range iph 12 16) (final_dst iph) (ip_p iph) len ++ data) (12 + vlen data).
Proof.
  intros Hh Hd Hn Hl. destruct (pseudohdr_dst (click_in_cksum data (vlen data)) iph len Hh) as (-> & Hf & Hb).
  destruct Hh as (Hi & H5 & Hlen). pose proof (vlen_range iph 12 16 ltac:(lia) ltac:(lia)) as Hr.
  apply pseudohdr_raw_checksum; try done; [by apply bytes_range|unfold vlen in Hr; lia|]. apply bytes_get; [done|lia].
Qed.

(** A header with a no-operation and a loose source route. *)
Definition routed_header : list Z :=
  [71; 0; 0; 40; 28; 70; 64; 0; 64; 6; 0; 0; 172; 16; 10; 99; 172; 16; 10; 12; 1; 131; 7; 4; 10; 0; 0; 7].

Lemma pseudohdr_checksum_witness :
  click_in_cksum_pseudohdr (click_in_cksum [18; 52; 86] (vlen [18; 52; 86])) routed_header 3
  = click_in_cksum (pseudo_header (range routed_header 12 16) (final_dst routed_header) (ip_p routed_header) 3 ++ [18; 52; 86])
      (12 + vlen [18; 52; 86])
  /\ final_dst routed_header = [10; 0; 0; 7].
Proof.
  split; [|vm_compute; reflexivity]. apply (pseudohdr_checksum routed_header [18; 52; 86] 3).
  - split; [|split; vm_compute; discriminate]. unfold bytes_ok, routed_header. repeat (apply List.Forall_cons; [lia|]). apply List.Forall_nil.
  - repeat (apply List.Forall_cons; [lia|]). apply List.Forall_nil.
  - vm_compute. discriminate.
  - lia.
Defined.
