(* ===== verification/IPHeader.v ===== *)
(** * IP header elements

    [CheckIPHeader], [DecIPTTL], [MarkIPHeader] and [StripIPHeader]
    (elements/ip/): a router checks the header of a packet that arrives, routes it,
    and decrements its time to live with an incremental checksum update. *)

From S2P Require Import Prelude Packet Insn Cksum.
Local Open Scope word_scope.
Local Open Scope Z_scope.

(** ** Packets with annotations *)

Record ip_packet := mkIP {
  pkt : packet;
  network : Z;                   (** [network_header_offset()] *)
  transport : Z;                 (** [transport_header_offset()] *)
  dst_anno : Z                   (** the destination annotation *)
}.

(** The bytes an [ip_header()] pointer at offset [off] can reach, as far as an IP
    header goes; some may lie outside the packet. *)
Definition header_at (p : packet) (off : Z) : list Z := map (pkt_byte p) (seqZ off 60).

(** [p->take(n)] and [p->pull(n)]: the bytes given up stay in the buffer. *)
Definition pkt_take (p : packet) (n : Z) : packet :=
  mkPacket (take (Z.to_nat (pkt_length p - n)) (pkt_data p)) (pkt_byte p).
Definition pkt_pull (p : packet) (n : Z) : packet :=
  let n := Z.min n (pkt_length p) in
  mkPacket (drop (Z.to_nat n) (pkt_data p)) (fun i => pkt_byte p (i + n)).

Definition ip_header (p : ip_packet) : list Z := header_at (pkt p) (network p).

(** [set_ip_header(ip, hlen)] for a header at offset [off]. *)
Definition set_ip_header (p : ip_packet) (off hlen : Z) : ip_packet := mkIP (pkt p) off (off + hlen) (dst_anno p).

(** ** [CheckIPHeader] *)

Inductive Reason := MINISCULE_PACKET | BAD_VERSION | BAD_HLEN | BAD_IP_LEN | BAD_CHECKSUM | BAD_SADDR.

Definition reason_index (r : Reason) : Z :=
  match r with
  | MINISCULE_PACKET => 0 | BAD_VERSION => 1 | BAD_HLEN => 2 | BAD_IP_LEN => 3 | BAD_CHECKSUM => 4 | BAD_SADDR => 5
  end.

Record CheckIPHeader := mkCheck {
  offset : Z;                    (** [unsigned _offset] *)
  bad_src : list Z;
  good_dst : list Z;
  checksum : bool;
  drops : Z;
  reason_drops : option (list Z) (** allocated with DETAILS *)
}.

Definition new_check (offset : Z) (bad_src good_dst : list Z) (checksum details : bool) : CheckIPHeader :=
  mkCheck offset bad_src good_dst checksum 0 (if details then Some (replicate 6 0) else None).

(** [InterfacesArg::parse] on parsed words: broadcast and local addresses. *)
Fixpoint interfaces_words (words : list (option (Z * Z))) (src dst : list Z) : option (list Z * list Z) :=
  match words with
  | [] => Some (src ++ [0; 4294967295], dst)
  | Some (ip, m) :: words' => interfaces_words words' (vpush src ((ip .& m) .| not32 m)) (vpush dst ip)
  | None :: _ => None
  end.

Definition interfaces_arg (words : list (option (Z * Z))) : option (list Z * list Z) := interfaces_words words [] [].

(** [OldBadSrcArg::parse] on parsed addresses. *)
Definition old_bad_src (addresses : option (list Z)) : option (list Z) :=
  (fun l => l ++ [0; 4294967295]) <$> addresses.

(** [find(begin, end, x) < end] *)
Definition in_list (l : list Z) (x : Z) : bool := existsb (Z.eqb x) l.

(** [drop]: the packet goes to output 1, or is killed. *)
Definition check_drop (noutputs : Z) (s : CheckIPHeader) (r : Reason) (p : ip_packet)
    : CheckIPHeader * option ip_packet * list (Z * ip_packet) :=
  let rd := (fun l => vset l (reason_index r) (u32 (vget l (reason_index r) + 1))) <$> reason_drops s in
  (mkCheck (offset s) (bad_src s) (good_dst s) (checksum s) (u32 (drops s + 1)) rd,
   None, if noutputs =? 2 then [(1, p)] else []).

(** [simple_action]: the new state, the packet passed on, and the packets pushed. *)
Definition check_ip_header (noutputs : Z) (s : CheckIPHeader) (p : ip_packet)
    : CheckIPHeader * option ip_packet * list (Z * ip_packet) :=
  let ip := header_at (pkt p) (offset s) in
  let plen := u32 (pkt_length (pkt p) - offset s) in
  if i32 plen <? sizeof_click_ip then check_drop noutputs s MINISCULE_PACKET p
  else if negb (ip_v ip =? 4) then check_drop noutputs s BAD_VERSION p
  else
    let hlen := ip_hl ip .<< 2 in
    if hlen <? sizeof_click_ip then check_drop noutputs s BAD_HLEN p
    else
      let len := htons (ip_len ip) in
      if (plen <? len) || (len <? hlen) then check_drop noutputs s BAD_IP_LEN p
      else if checksum s && negb (click_in_cksum ip hlen =? 0) then check_drop noutputs s BAD_CHECKSUM p
      else if in_list (bad_src s) (ip_src ip) && negb (in_list (good_dst s) (ip_dst ip))
      then check_drop noutputs s BAD_SADDR p
      else
        let p := set_ip_header p (offset s) hlen in
        let q := if len <? plen then pkt_take (pkt p) (plen - len) else pkt p in
        (s, Some (mkIP q (network p) (transport p) (ip_dst ip)), []).

(** ** [MarkIPHeader] and [StripIPHeader] *)

Definition strip_ip_header (p : ip_packet) : ip_packet :=
  let n := Z.min (transport p) (pkt_length (pkt p)) in
  mkIP (pkt_pull (pkt p) (transport p)) (network p - n) (transport p - n) (dst_anno p).

Definition mark_ip_header (off : Z) (p : ip_packet) : ip_packet :=
  set_ip_header p off (ip_hl (header_at (pkt p) off) .<< 2).

(** ** [DecIPTTL] *)

Record DecIPTTL := mkDec { active : bool; multicast : bool; ttl_drops : Z }.

Definition new_dec : DecIPTTL := mkDec true true 0.

Definition is_multicast (a : Z) : bool := (a .& ntohl 4026531840) =? ntohl 3758096384.

(** The new bytes: the time to live and the checksum of the header at [off]. *)
Definition dec_bytes (l : list Z) (off : Z) (ip : list Z) : list Z :=
  let l := vset l (off + 8) (u8 (ip_ttl ip - 1)) in
  let sum := (Z.lnot (htons (ip_sum ip)) .& 65535) + 65279 in
  put16 l (off + 10) (u16 (Z.lnot (htons (sum + (sum .>> 16))))).

(** [simple_action]: the packet passed on, and the packets pushed. *)
Definition dec_ip_ttl (noutputs : Z) (s : DecIPTTL) (p : ip_packet) : DecIPTTL * option ip_packet * list (Z * ip_packet) :=
  if negb (active s) then (s, Some p, [])
  else
    let ip_in := ip_header p in
    if negb (multicast s) && is_multicast (ip_dst ip_in) then (s, Some p, [])
    else if ip_ttl ip_in <=? 1
    then (mkDec (active s) (multicast s) (u32 (ttl_drops s + 1)), None, if 1 <? noutputs then [(1, p)] else [])
    else
      let q := mkPacket (dec_bytes (pkt_data (pkt p)) (network p) ip_in) (outside (pkt p)) in
      (s, Some (mkIP q (network p) (transport p) (dst_anno p)), []).

(** ** The bytes of a header *)

Lemma vget_header p off i : 0 <= i < 60 -> vget (header_at p off) i = pkt_byte p (off + i).
Proof.
  intros Hi. unfold header_at. apply vget_lookup; [lia|]. rewrite list_lookup_fmap, lookup_seqZ_lt by lia. cbn. do 2 f_equal. lia.
Qed.

Lemma vget_drop_Z {A} `{Inhabited A} (l : list A) n i : 0 <= n -> 0 <= i -> vget (drop (Z.to_nat n) l) i = vget l (n + i).
Proof.
  intros Hn Hi. unfold vget. rewrite (proj2 (Z.leb_le 0 i)), (proj2 (Z.leb_le 0 (n + i))) by lia.
  rewrite !list_lookup_total_alt, lookup_drop. do 2 f_equal. lia.
Qed.

Lemma vlen_drop_Z {A} (l : list A) n : 0 <= n -> vlen (drop (Z.to_nat n) l) = Z.max 0 (vlen l - n).
Proof. intros Hn. unfold vlen. rewrite length_drop. lia. Qed.

Lemma pkt_byte_in p i : 0 <= i < pkt_length p -> pkt_byte p i = vget (pkt_data p) i.
Proof. intros Hi. unfold pkt_byte. by rewrite (proj2 (Z.leb_le 0 i)), (proj2 (Z.ltb_lt i (pkt_length p))) by lia. Qed.

(** The header as the code sees it and the bytes of the packet agree. *)
Lemma header_byte p off i :
  0 <= off -> 0 <= i < 60 -> i < vlen (drop (Z.to_nat off) (pkt_data p)) ->
  vget (header_at p off) i = vget (drop (Z.to_nat off) (pkt_data p)) i.
Proof.
  intros Ho Hi Hl. rewrite vlen_drop_Z in Hl by lia. rewrite vget_header, vget_drop_Z, pkt_byte_in; [done|unfold pkt_length; lia|lia..].
Qed.

Lemma vec_prefix (l l' : list Z) n :
  0 <= n -> n <= vlen l -> n <= vlen l' -> (forall i, 0 <= i < n -> vget l i = vget l' i) ->
  take (Z.to_nat n) l = take (Z.to_nat n) l'.
Proof.
  intros Hn Hl Hl' Hg. apply vec_eq; [unfold vlen in *; rewrite !length_take; lia|]. intros i Hi.
  assert (Hlt : vlen (take (Z.to_nat n) l) = n) by (unfold vlen in *; rewrite length_take; lia). rewrite Hlt in Hi.
  assert (Ht : forall k : list Z, vget (take (Z.to_nat n) k) i = vget k i).
  { intros k. unfold vget. rewrite (proj2 (Z.leb_le 0 i)) by lia. rewrite !list_lookup_total_alt, lookup_take_lt by lia. done. }
  rewrite !Ht. apply Hg. lia.
Qed.

Lemma cksum_prefix l l' n :
  0 <= n -> n <= vlen l -> n <= vlen l' -> (forall i, 0 <= i < n -> vget l i = vget l' i) -> click_in_cksum l n = click_in_cksum l' n.
Proof. intros. unfold click_in_cksum. by rewrite (vec_prefix l l' n). Qed.

Lemma ip_header_fields (l l' : list Z) :
  (forall i, 0 <= i < 20 -> vget l i = vget l' i) ->
  ip_v l = ip_v l' /\ ip_hl l = ip_hl l' /\ ip_len l = ip_len l' /\ ip_src l = ip_src l' /\ ip_dst l = ip_dst l'
  /\ ip_ttl l = ip_ttl l' /\ ip_sum l = ip_sum l'.
Proof.
  intros H. unfold ip_v, ip_hl, ip_len, ip_src, ip_dst, ip_ttl, ip_sum, word16, word32.
  rewrite !H by lia. done.
Qed.

Lemma vlen_header p off : vlen (header_at p off) = 60.
Proof. unfold header_at, vlen. by rewrite length_map, length_seqZ. Qed.

(** ** What a good header is *)

(** The total length of an IP packet, from the bytes of the field. *)
Definition total_length (d : list Z) : Z := 256 * vget d 2 + vget d 3.

(** The bytes [d] start with an IP header that the checks accept. *)
Record good_ip (s : CheckIPHeader) (d : list Z) : Prop := {
  gi_size : 20 <= vlen d;
  gi_version : vget d 0 / 16 = 4;
  gi_hlen : 5 <= vget d 0 mod 16;
  gi_total : 4 * (vget d 0 mod 16) <= total_length d <= vlen d;
  gi_cksum : checksum s = true -> exists q, 0 < q /\ word_sum (take (Z.to_nat (4 * (vget d 0 mod 16))) d) = 65535 * q;
  gi_source : ip_src d ∈ bad_src s -> ip_dst d ∈ good_dst s
}.

Lemma in_list_iff l x : in_list l x = true <-> x ∈ l.
Proof.
  unfold in_list. rewrite existsb_exists. split.
  - intros (y & Hy & He%Z.eqb_eq). apply list_elem_of_In in Hy. by subst.
  - intros Hx. exists x. split; [by apply list_elem_of_In|apply Z.eqb_refl].
Qed.

Lemma ip_fields d :
  bytes_ok d -> 20 <= vlen d ->
  ip_v d = vget d 0 / 16 /\ ip_hl d = vget d 0 mod 16 /\ htons (ip_len d) = total_length d
  /\ 0 <= total_length d < 65536.
Proof.
  intros Hd Hl. unfold ip_v, ip_hl, ip_len, total_length. rewrite Z.shiftr_div_pow2 by lia. change 15 with (Z.ones 4) at 1.
  rewrite Z.land_ones by lia. change (2 ^ 4) with 16. destruct (word16_range d 2 Hd ltac:(lia) ltac:(lia)) as [Hw Hr].
  pose proof (bytes_get d 2 Hd ltac:(lia)). pose proof (bytes_get d 3 Hd ltac:(lia)). change (2 + 1) with 3 in Hw.
  split; [done|]. split; [done|]. rewrite htons_sum by lia. rewrite Hw. split; [Z.div_mod_to_equations; lia|lia].
Qed.

Lemma cksum_zero_take d n :
  bytes_ok d -> 0 <= n <= vlen d -> n <= 65536 ->
  click_in_cksum d n = 0 <-> exists q, 0 < q /\ word_sum (take (Z.to_nat n) d) = 65535 * q.
Proof.
  intros Hd Hn Hs. assert (Hl : vlen (take (Z.to_nat n) d) = n) by (unfold vlen in *; rewrite length_take; lia).
  rewrite <- (cksum_zero_iff (take (Z.to_nat n) d)) by (by apply bytes_take || lia). rewrite Hl.
  unfold click_in_cksum. by rewrite take_take, Nat.min_id.
Qed.

Section check.
Variables (noutputs : Z) (s : CheckIPHeader) (p : ip_packet).
Let d := drop (Z.to_nat (offset s)) (pkt_data (pkt p)).

(** The state, packet and pushes of an accepted and of a refused packet. *)
Definition accepted (r : CheckIPHeader * option ip_packet * list (Z * ip_packet)) : Prop :=
  r = (s, Some (mkIP (if total_length d <? vlen d then pkt_take (pkt p) (vlen d - total_length d) else pkt p)
                  (offset s) (offset s + 4 * (vget d 0 mod 16)) (ip_dst d)), []).
Definition refused (r : CheckIPHeader * option ip_packet * list (Z * ip_packet)) : Prop :=
  drops r.1.1 = u32 (drops s + 1) /\ r.1.2 = None /\ r.2 = if noutputs =? 2 then [(1, p)] else [].

Lemma check_refused reason : refused (check_drop noutputs s reason p).
Proof. done. Qed.

Lemma check_ip_header_spec :
  pkt_ok (pkt p) -> 0 <= offset s < 2147483648 -> pkt_length (pkt p) < 2147483648 ->
  (good_ip s d /\ accepted (check_ip_header noutputs s p)) \/ (~ good_ip s d /\ refused (check_ip_header noutputs s p)).
Proof.
  intros [Hp _] Ho Hl. unfold check_ip_header. pose proof (vlen_nonneg (pkt_data (pkt p))).
  pose proof (vlen_drop_Z (pkt_data (pkt p)) (offset s) ltac:(lia)) as Hvd. fold d in Hvd. unfold pkt_length in *.
  set (ip := header_at (pkt p) (offset s)) in *.
  assert (Hplen : i32 (u32 (vlen (pkt_data (pkt p)) - offset s)) = vlen (pkt_data (pkt p)) - offset s).
  { rewrite i32_u32; lia. }
  rewrite Hplen. unfold sizeof_click_ip. destruct (Z.ltb_spec (vlen (pkt_data (pkt p)) - offset s) 20) as [H20|H20].
  { right. split; [|apply check_refused]. intros [Hs _ _ _ _ _]. lia. }
  assert (Hu : u32 (vlen (pkt_data (pkt p)) - offset s) = vlen d) by (unfold u32; rewrite Z.mod_small; lia). rewrite Hu.
  assert (Hd : bytes_ok d) by by apply Forall_drop.
  assert (Hget : forall i, 0 <= i < 60 -> i < vlen d -> vget ip i = vget d i) by (intros i Hi Hid; apply header_byte; lia || done).
  destruct (ip_header_fields ip d) as (-> & -> & -> & -> & -> & _); [intros i Hi; apply Hget; lia|].
  destruct (ip_fields d Hd ltac:(lia)) as (-> & -> & -> & Htot). pose proof (Z.mod_pos_bound (vget d 0) 16 ltac:(lia)) as Hhl.
  rewrite Z.shiftl_mul_pow2 by lia. change (2 ^ 2) with 4. rewrite (Z.mul_comm (vget d 0 mod 16)).
  destruct (Z.eqb_spec (vget d 0 / 16) 4) as [Hv|Hv]; cbn [negb]; [|right; split; [by intros []|apply check_refused]].
  destruct (Z.ltb_spec (4 * (vget d 0 mod 16)) 20) as [Hh|Hh]; [right; split; [intros []; lia|apply check_refused]|].
  destruct (Z.ltb_spec (vlen d) (total_length d)) as [Ht1|Ht1]; cbn [orb]; [right; split; [intros []; lia|apply check_refused]|].
  destruct (Z.ltb_spec (total_length d) (4 * (vget d 0 mod 16))) as [Ht2|Ht2]; [right; split; [intros []; lia|apply check_refused]|].
  assert (Hck : click_in_cksum ip (4 * (vget d 0 mod 16)) = 0 <->
    exists q, 0 < q /\ word_sum (take (Z.to_nat (4 * (vget d 0 mod 16))) d) = 65535 * q).
  { rewrite <- cksum_zero_take by (done || lia). rewrite (cksum_prefix ip d); [done|lia|unfold ip; rewrite vlen_header; lia|lia|].
    intros i Hi. apply Hget; lia. }
  destruct (checksum s && negb (click_in_cksum ip (4 * (vget d 0 mod 16)) =? 0)) eqn:Ec.
  { right. bprop. split; [|apply check_refused]. intros [_ _ _ _ Hc _]. rewrite <- Hck in Hc. auto. }
  destruct (in_list (bad_src s) (ip_src d) && negb (in_list (good_dst s) (ip_dst d))) eqn:Es.
  { right. split; [|apply check_refused]. intros [_ _ _ _ _ Hs]. apply andb_true_iff in Es as [E1 E2].
    apply in_list_iff in E1. apply negb_true_iff in E2. apply Hs, in_list_iff in E1. congruence. }
  left. split; [|done]. constructor; try done; try lia.
  - intros Hcs. apply Hck. rewrite Hcs in Ec. cbn in Ec. apply negb_false_iff in Ec. by apply Z.eqb_eq.
  - intros Hb%in_list_iff. rewrite Hb in Es. cbn in Es. apply negb_false_iff in Es. by apply in_list_iff.
Qed.
End check.

(** ** Decrementing the time to live *)

(** Swapping the bytes of a halfword multiplies it by 256, modulo 65535. *)
Lemma htons_mod v : 0 <= v < 65536 -> 0 <= htons v < 65536 /\ exists q, htons v = 256 * v + 65535 * q.
Proof.
  intros Hv. rewrite htons_sum by done. split; [Z.div_mod_to_equations; lia|]. exists (- (v / 256)).
  pose proof (Z.div_mod v 256 ltac:(lia)). lia.
Qed.

(** The new checksum is the old one plus one, modulo 65535: the word that holds
    the time to live went down by one. *)
Lemma dec_sum v :
  0 <= v < 65536 ->
  let sum := (Z.lnot (htons v) .& 65535) + 65279 in
  let v' := u16 (Z.lnot (htons (sum + (sum .>> 16)))) in
  0 <= v' < 65536 /\ exists q, v' = v + 1 + 65535 * q.
Proof.
  intros Hv. cbv zeta. destruct (htons_mod v Hv) as [Hr [q Hq]]. rewrite (lnot16 (htons v)) by lia.
  set (x := 65535 - htons v + 65279) in *. assert (Hx : 65279 <= x < 131072) by lia.
  assert (Hf : exists y, htons (x + (x .>> 16)) = htons y /\ 0 < y < 65536 /\ exists k, y = x + 65535 * k).
  { rewrite Z.shiftr_div_pow2 by lia. change (2 ^ 16) with 65536. destruct (Z.lt_ge_cases x 65536).
    - exists x. rewrite Z.div_small by lia. rewrite Z.add_0_r. split; [done|]. split; [lia|]. exists 0. lia.
    - exists (x + 1 - 65536). assert (x / 65536 = 1) as -> by (Z.div_mod_to_equations; lia). split.
      + unfold htons. change 255 with (Z.ones 8). rewrite !Z.land_ones, !Z.shiftr_div_pow2 by lia. change (2 ^ 8) with 256.
        f_equal; [f_equal|]; Z.div_mod_to_equations; lia.
      + split; [lia|]. exists (-1). lia. }
  destruct Hf as (y & Hy & Hyr & k & Hk). destruct (htons_mod y ltac:(lia)) as [Hr' [q' Hq']].
  assert (Hv' : u16 (Z.lnot (htons (x + (x .>> 16)))) = 65535 - htons y).
  { rewrite Hy. unfold u16, Z.lnot. symmetry. apply (Z.mod_unique_pos _ _ (-1)); lia. }
  rewrite Hv'. split; [lia|]. exists (v - 510 + 256 * q - 256 * k - q'). unfold x in *. lia.
Qed.

Lemma drop_vset {A} (l : list A) n i x : 0 <= n -> 0 <= i -> drop (Z.to_nat n) (vset l (n + i) x) = vset (drop (Z.to_nat n) l) i x.
Proof.
  intros Hn Hi. unfold vset. rewrite (proj2 (Z.leb_le 0 (n + i))), (proj2 (Z.leb_le 0 i)) by lia.
  rewrite drop_insert_ge by lia. f_equal. lia.
Qed.

Lemma take_vset {A} (l : list A) n i x : 0 <= i < n -> take (Z.to_nat n) (vset l i x) = vset (take (Z.to_nat n) l) i x.
Proof. intros Hi. unfold vset. rewrite (proj2 (Z.leb_le 0 i)) by lia. apply take_insert_lt. lia. Qed.

Lemma vset_same_get (l : list Z) i : 0 <= i < vlen l -> vset l i (vget l i) = l.
Proof.
  intros Hi. unfold vset. rewrite (proj2 (Z.leb_le 0 i)) by lia. apply list_insert_id. by apply vget_some.
Qed.

(** The new header bytes, with the checksum field before and after. *)
Definition dec_d (d : list Z) : list Z :=
  let sum := (Z.lnot (htons (ip_sum d)) .& 65535) + 65279 in
  put16 (vset d 8 (vget d 8 - 1)) 10 (u16 (Z.lnot (htons (sum + (sum .>> 16))))).

Lemma dec_bytes_drop l off ip :
  0 <= off -> let d := drop (Z.to_nat off) l in
  bytes_ok d -> 20 <= vlen d -> 2 <= vget d 8 -> ip_ttl ip = vget d 8 -> ip_sum ip = ip_sum d ->
  drop (Z.to_nat off) (dec_bytes l off ip) = dec_d d.
Proof.
  intros Ho d Hd Hl Ht E1 E2. unfold dec_bytes, dec_d, put16. rewrite E1, E2. pose proof (bytes_get d 8 Hd ltac:(lia)).
  rewrite <- !Z.add_assoc, !drop_vset by lia. fold d. unfold u8. by rewrite Z.mod_small by lia.
Qed.

Lemma word_sum_ttl h :
  bytes_ok h -> 20 <= vlen h -> 1 <= vget h 8 -> word_sum (vset h 8 (vget h 8 - 1)) = word_sum h - 1.
Proof.
  intros Hh Hl Ht. destruct (word16_range h 8 Hh ltac:(lia) ltac:(lia)) as [Hw Hr].
  pose proof (bytes_get h 8 Hh ltac:(lia)). pose proof (bytes_get h 9 Hh ltac:(lia)). change (8 + 1) with 9 in *.
  pose proof (word_sum_put16 h 4 (word16 h 8 - 1) Hh ltac:(lia) ltac:(lia)) as Hs. change (2 * Z.of_nat 4) with 8 in Hs.
  unfold put16 in Hs. change 255 with (Z.ones 8) in Hs.
  rewrite !Z.land_ones, Z.shiftr_div_pow2 in Hs by lia. change (2 ^ 8) with 256 in Hs. change (8 + 1) with 9 in Hs.
  replace ((word16 h 8 - 1) mod 256) with (vget h 8 - 1) in Hs by (Z.div_mod_to_equations; lia).
  replace ((word16 h 8 - 1) / 256 mod 256) with (vget h 9) in Hs by (Z.div_mod_to_equations; lia).
  assert (Hid : vset (vset h 8 (vget h 8 - 1)) 9 (vget h 9) = vset h 8 (vget h 8 - 1)).
  { rewrite <- (vget_vset_ne h 8 9 (vget h 8 - 1)) by lia. apply vset_same_get. rewrite vlen_vset. lia. }
  rewrite Hid in Hs. lia.
Qed.

(** The header still verifies. *)
Lemma dec_d_sum d n :
  bytes_ok d -> 20 <= n -> n <= vlen d -> 2 <= vget d 8 -> exists q, word_sum (take (Z.to_nat n) (dec_d d)) = word_sum (take (Z.to_nat n) d) + 65535 * q.
Proof.
  intros Hd Hn Hl Ht. unfold dec_d, put16. cbv zeta.
  destruct (word16_range d 10 Hd ltac:(lia) ltac:(lia)) as [_ Hv]. destruct (dec_sum (ip_sum d) Hv) as [Hv' [q Hq]]. cbv zeta in Hv', Hq.
  set (v' := u16 _) in *. rewrite !take_vset by lia. set (h := take (Z.to_nat n) d).
  assert (Hh : bytes_ok h) by by apply bytes_take. assert (Hlh : vlen h = n) by (unfold h, vlen in *; rewrite length_take; lia).
  assert (Hg : forall i, 0 <= i < n -> vget h i = vget d i).
  { intros i Hi. unfold h, vget. rewrite (proj2 (Z.leb_le 0 i)) by lia. rewrite !list_lookup_total_alt, lookup_take_lt by lia. done. }
  rewrite <- (Hg 8) by lia. change (vset (vset (vset h 8 (vget h 8 - 1)) 10 (v' .& 255)) (10 + 1) ((v' .>> 8) .& 255))
    with (put16 (vset h 8 (vget h 8 - 1)) (2 * Z.of_nat 5) v').
  assert (H8 : 0 <= vget h 8 - 1 < 256) by (pose proof (bytes_get h 8 Hh ltac:(lia)); rewrite Hg in * by lia; lia).
  rewrite word_sum_put16; [|by apply bytes_vset|rewrite vlen_vset; lia|lia].
  rewrite word_sum_ttl by (done || rewrite ?Hg; lia). change (2 * Z.of_nat 5) with 10. unfold word16.
  rewrite !(vget_vset_ne h 8) by lia. rewrite !Hg by lia. fold (word16 d 10) (ip_sum d). exists q. lia.
Qed.

Lemma vget_take_Z (l : list Z) n i : 0 <= i < n -> vget (take (Z.to_nat n) l) i = vget l i.
Proof.
  intros Hi. unfold vget. rewrite (proj2 (Z.leb_le 0 i)) by lia. rewrite !list_lookup_total_alt, lookup_take_lt by lia. done.
Qed.

Lemma vlen_take_Z (l : list Z) n : 0 <= n <= vlen l -> vlen (take (Z.to_nat n) l) = n.
Proof. intros Hn. unfold vlen in *. rewrite length_take. lia. Qed.

(** Being good depends on the header bytes and on the packet's length. *)
Lemma good_ip_cut s d :
  good_ip s d -> let d' := take (Z.to_nat (total_length d)) d in
  good_ip s d' /\ total_length d' = vlen d' /\ vlen d' = total_length d /\ forall i, 0 <= i < 20 -> vget d' i = vget d i.
Proof.
  intros [G1 G2 G3 G4 G5 G6] d'. assert (Hl : vlen d' = total_length d) by (apply vlen_take_Z; lia).
  assert (Hg : forall i, 0 <= i < 20 -> vget d' i = vget d i) by (intros i Hi; apply vget_take_Z; lia).
  assert (Ht : total_length d' = total_length d) by (unfold total_length; rewrite !Hg by lia; done).
  destruct (ip_header_fields d' d Hg) as (_ & _ & _ & Es & Ed & _).
  split; [|split; [lia|split; [done|exact Hg]]]. constructor; rewrite ?Ht, ?Hl, ?Es, ?Ed, ?(Hg 0) by lia; try done; [lia|lia|].
  intros Hc. unfold d'. rewrite take_take. rewrite Nat.min_l by lia. by apply G5.
Qed.

Lemma good_ip_dec s d :
  good_ip s d -> bytes_ok d -> 2 <= vget d 8 ->
  good_ip s (dec_d d) /\ total_length (dec_d d) = total_length d /\ vlen (dec_d d) = vlen d /\ bytes_ok (dec_d d)
  /\ vget (dec_d d) 8 = vget d 8 - 1
  /\ forall i, 0 <= i -> i <> 8 -> i <> 10 -> i <> 11 -> vget (dec_d d) i = vget d i.
Proof.
  intros Hgood Hd Ht. pose proof Hgood as [G1 G2 G3 G4 G5 G6].
  assert (Hg : forall i, 0 <= i -> i <> 8 -> i <> 10 -> i <> 11 -> vget (dec_d d) i = vget d i).
  { intros i Hi H8 H10 H11. unfold dec_d, put16. rewrite !vget_vset_ne by lia. done. }
  assert (Hv : vlen (dec_d d) = vlen d) by (unfold dec_d; by rewrite vlen_put16, vlen_vset).
  assert (Htot : total_length (dec_d d) = total_length d) by (unfold total_length; by rewrite !Hg by lia).
  assert (Hs : ip_src (dec_d d) = ip_src d /\ ip_dst (dec_d d) = ip_dst d) by (unfold ip_src, ip_dst, word32; by rewrite !Hg by lia).
  destruct Hs as [Es Ed]. pose proof (bytes_get d 8 Hd ltac:(lia)).
  split; [|split; [done|split; [done|split; [|split; [|exact Hg]]]]].
  - constructor; rewrite ?Hv, ?Htot, ?Es, ?Ed, ?(Hg 0) by lia; try done. intros Hc. destruct (G5 Hc) as (q & Hq & Hw).
    set (n := 4 * (vget d 0 mod 16)) in *. destruct (dec_d_sum d n Hd ltac:(lia) ltac:(lia) Ht) as [q' Hq'].
    exists (q + q'). split; [|lia]. assert (Hp : word_sum (take (Z.to_nat n) (dec_d d)) <> 0).
    { rewrite word_sum_zero.
      - intros Hz. rewrite Forall_forall in Hz. pose proof (Hg 0 ltac:(lia) ltac:(lia) ltac:(lia) ltac:(lia)) as H0.
        assert (Hn0 : vget d 0 <> 0) by (intros E; rewrite E in G3; change (0 mod 16) with 0 in G3; lia).
        apply Hn0. rewrite <- H0. rewrite <- (vget_take_Z (dec_d d) n 0) by lia. apply Hz, elem_of_vget. exists 0.
        split; [|done]. rewrite vlen_take_Z by lia. lia.
      - apply bytes_take. unfold dec_d. apply bytes_put16, bytes_vset; [done|lia]. }
    assert (Hb : bytes_ok (take (Z.to_nat n) (dec_d d))) by (apply bytes_take; unfold dec_d; apply bytes_put16, bytes_vset; [done|lia]).
    pose proof (word_sum_range _ Hb). lia.
  - unfold dec_d. apply bytes_put16, bytes_vset; [done|lia].
  - unfold dec_d, put16. rewrite (vget_vset_ne _ (10 + 1) 8), (vget_vset_ne _ 10 8) by lia. apply vget_vset_eq. lia.
Qed.

Lemma accepted_data p off d :
  0 <= off -> d = drop (Z.to_nat off) (pkt_data p) -> 20 <= vlen d -> 0 <= total_length d <= vlen d ->
  pkt_data (if total_length d <? vlen d then pkt_take p (vlen d - total_length d) else p)
  = take (Z.to_nat (off + total_length d)) (pkt_data p).
Proof.
  intros Ho Hd Hl Ht. pose proof (vlen_drop_Z (pkt_data p) off Ho) as Hv. rewrite <- Hd in Hv. unfold pkt_length, vlen in *.
  destruct (Z.ltb_spec (total_length d) (Z.of_nat (length d))).
  - unfold pkt_take, pkt_length, vlen. cbn [pkt_data]. f_equal. lia.
  - rewrite take_ge by lia. done.
Qed.

(** A packet without bytes after the datagram passes the check as it is. *)
Lemma check_again noutputs s pk :
  pkt_ok pk -> 0 <= offset s < 2147483648 -> pkt_length pk < 2147483648 ->
  let d := drop (Z.to_nat (offset s)) (pkt_data pk) in
  good_ip s d -> total_length d = vlen d ->
  let p := mkIP pk (offset s) (offset s + 4 * (vget d 0 mod 16)) (ip_dst d) in
  check_ip_header noutputs s p = (s, Some p, []).
Proof.
  intros Hp Ho Hl d Hg Ht p. destruct (check_ip_header_spec noutputs s p Hp Ho Hl) as [[_ ->]|[Hn _]]; [|done].
  unfold p. cbn [pkt]. fold d. by rewrite Ht, Z.ltb_irrefl.
Qed.

(** The packet that leaves the check. *)
Lemma check_passed noutputs s s1 p q out :
  pkt_ok (pkt p) -> 0 <= offset s < 2147483648 -> pkt_length (pkt p) < 2147483648 ->
  check_ip_header noutputs s p = (s1, Some q, out) ->
  let d := drop (Z.to_nat (offset s)) (pkt_data (pkt q)) in
  pkt_ok (pkt q) /\ pkt_length (pkt q) < 2147483648 /\ good_ip s d /\ total_length d = vlen d
  /\ q = mkIP (pkt q) (offset s) (offset s + 4 * (vget d 0 mod 16)) (ip_dst d).
Proof.
  intros Hp Ho Hl He. destruct (check_ip_header_spec noutputs s p Hp Ho Hl) as [[Hg Ha]|[_ (_ & Hn & _)]]; [|by rewrite He in Hn].
  rewrite He in Ha. unfold accepted in Ha. set (d0 := drop (Z.to_nat (offset s)) (pkt_data (pkt p))) in *.
  injection Ha as _ Hq _. pose proof (gi_size s d0 Hg). pose proof (gi_total s d0 Hg) as Htot. pose proof (gi_hlen s d0 Hg).
  pose proof (accepted_data (pkt p) (offset s) d0 ltac:(lia) eq_refl ltac:(lia) ltac:(lia)) as Hdata.
  assert (Hd : drop (Z.to_nat (offset s)) (pkt_data (pkt q)) = take (Z.to_nat (total_length d0)) d0).
  { rewrite Hq. cbn [pkt]. rewrite Hdata. rewrite Z2Nat.inj_add by lia. unfold d0. by rewrite take_drop_commute. }
  rewrite Hd. destruct (good_ip_cut s d0 Hg) as (G1 & G2 & G3 & G4). destruct (ip_header_fields _ _ G4) as (_ & _ & _ & _ & Ed & _).
  split; [|split; [|split; [done|split; [done|]]]].
  - rewrite Hq. cbn [pkt]. destruct (_ <? _); [|done]. destruct Hp as [Hp1 Hp2]. split; [by apply Forall_take|].
    intros i. cbn [outside pkt_take]. apply pkt_byte_range. by split.
  - rewrite Hq. cbn [pkt]. unfold pkt_length in *. rewrite Hdata. unfold vlen in *. rewrite length_take. lia.
  - rewrite Ed, G4 by lia. rewrite Hq at 1. by rewrite Hq.
Qed.

(** The packet with its time to live decremented passes the check again. *)
Lemma dec_checks noutputs s q :
  let header := fun pk : packet => drop (Z.to_nat (offset s)) (pkt_data pk) in
  let d := header (pkt q) in
  pkt_ok (pkt q) -> 0 <= offset s < 2147483648 -> pkt_length (pkt q) < 2147483648 -> good_ip s d -> total_length d = vlen d ->
  q = mkIP (pkt q) (offset s) (offset s + 4 * (vget d 0 mod 16)) (ip_dst d) ->
  ip_ttl (ip_header q) = vget d 8 -> ip_sum (ip_header q) = ip_sum d -> 1 < vget d 8 ->
  let r := mkIP (mkPacket (dec_bytes (pkt_data (pkt q)) (network q) (ip_header q)) (outside (pkt q))) (network q) (transport q) (dst_anno q) in
  check_ip_header noutputs s r = (s, Some r, [])
  /\ vget (header (pkt r)) 8 = vget d 8 - 1
  /\ forall i, 0 <= i -> i <> 8 -> i <> 10 -> i <> 11 -> vget (header (pkt r)) i = vget d i.
Proof.
  intros header d Hpq Ho Hlq Hg Ht Hq Ettl Esum Hgt r. unfold r. clear r.
  assert (Hnet : network q = offset s) by by rewrite Hq. rewrite Hnet. pose proof (gi_size s d Hg) as Hsize.
  assert (Hd : bytes_ok d) by (apply Forall_drop, Hpq).
  pose proof (dec_bytes_drop (pkt_data (pkt q)) (offset s) (ip_header q)) as Hdec. cbv zeta in Hdec. fold (header (pkt q)) d in Hdec.
  specialize (Hdec ltac:(lia) Hd ltac:(lia) ltac:(lia) Ettl Esum).
  set (l := dec_bytes (pkt_data (pkt q)) (offset s) (ip_header q)) in *.
  destruct (good_ip_dec s d Hg Hd ltac:(lia)) as (G1 & G2 & G3 & G4 & G5 & G6).
  assert (Hlen : vlen l = vlen (pkt_data (pkt q))) by (unfold l, dec_bytes; cbv zeta; by rewrite vlen_put16, vlen_vset).
  split; [|unfold header; cbn [pkt pkt_data]; rewrite Hdec; done].
  pose proof (check_again noutputs s (mkPacket l (outside (pkt q)))) as Hr. cbv zeta in Hr. cbn [pkt_data] in Hr. rewrite Hdec in Hr.
  assert (Ed : ip_dst (dec_d d) = ip_dst d) by (unfold ip_dst, word32; by rewrite !G6 by lia).
  rewrite Ed, (G6 0) in Hr by lia. rewrite Hq. cbn [transport dst_anno]. apply Hr; [|done|unfold pkt_length in *; cbn [pkt_data]; lia|done|lia].
  destruct Hpq as [Hb Hout]. split; [|done]. cbn [pkt_data]. unfold l, dec_bytes. apply bytes_put16, bytes_vset; [done|].
  unfold u8. apply Z.mod_pos_bound. lia.
Qed.

(** ** Properties *)

(** C25. [CheckIPHeader] accepts exactly the packets with a good IPv4 header:
    version 4, a header of at least 20 bytes, a total length between the header and
    the packet, a sum of one's-complement zero when checksums are on, and no bad
    source address unless the destination is exempt.  An accepted packet is cut to
    its total length and annotated with its header and destination; a refused one
    is counted and sent to output 1 or killed.  Nothing outside the packet matters. *)
Theorem check_ip_header_correct (noutputs : Z) (s : CheckIPHeader) (p : ip_packet) :
  pkt_ok (pkt p) -> 0 <= offset s < 2147483648 -> pkt_length (pkt p) < 2147483648 ->
  let d := drop (Z.to_nat (offset s)) (pkt_data (pkt p)) in
  match check_ip_header noutputs s p with
  | (s', Some q, out) => good_ip s d /\ s' = s /\ out = []
      /\ pkt_data (pkt q) = take (Z.to_nat (offset s + total_length d)) (pkt_data (pkt p))
      /\ network q = offset s /\ transport q = offset s + 4 * (vget d 0 mod 16) /\ dst_anno q = ip_dst d
  | (s', None, out) => ~ good_ip s d /\ drops s' = u32 (drops s + 1) /\ out = if noutputs =? 2 then [(1, p)] else []
  end.
Proof.
  intros Hp Ho Hl d. pose proof (vlen_drop_Z (pkt_data (pkt p)) (offset s) ltac:(lia)) as Hvd. fold d in Hvd.
  destruct (check_ip_header_spec noutputs s p Hp Ho Hl) as [[Hg Ha]|[Hg Ha]]; fold d in Hg.
  - rewrite Ha. fold d. do 3 (split; [done|]). split; [|done]. cbn [pkt].
    pose proof (gi_total s d Hg). pose proof (gi_hlen s d Hg). by apply accepted_data; [lia| |apply (gi_size s d Hg)|lia].
  - destruct (check_ip_header noutputs s p) as [[s' q] out]. destruct Ha as (H1 & H2 & H3). cbn [fst snd] in *. subst q. done.
Qed.

(** An Ethernet frame with an IP header and two bytes of padding. *)
Definition sample_frame : ip_packet := mkIP (packet_of (replicate 14 0 ++ sample_header ++ replicate 42 0)) 0 0 0.
Definition sample_check : CheckIPHeader := new_check 14 [0; 4294967295] [] true false.

Lemma sample_frame_ok : pkt_ok (pkt sample_frame).
Proof.
  split; [|intros i; cbn; lia]. cbn [pkt sample_frame packet_of pkt_data]. rewrite !Forall_app.
  split; [by apply Forall_replicate|]. split; [exact sample_header_ok|by apply Forall_replicate].
Qed.

Lemma check_ip_header_correct_witness :
  let d := drop (Z.to_nat (offset sample_check)) (pkt_data (pkt sample_frame)) in
  match check_ip_header 1 sample_check sample_frame with
  | (s', Some q, out) => good_ip sample_check d /\ s' = sample_check /\ out = []
      /\ pkt_data (pkt q) = take (Z.to_nat (offset sample_check + total_length d)) (pkt_data (pkt sample_frame))
      /\ network q = offset sample_check /\ transport q = offset sample_check + 4 * (vget d 0 mod 16) /\ dst_anno q = ip_dst d
  | (s', None, out) => ~ good_ip sample_check d /\ drops s' = u32 (drops sample_check + 1)
      /\ out = if 1 =? 2 then [(1, sample_frame)] else []
  end.
Proof.
  apply (check_ip_header_correct 1 sample_check sample_frame); [exact sample_frame_ok|cbn; lia|vm_compute; reflexivity].
Defined.

(** Does [DecIPTTL] count this packet?  Not when it is off, and not the packets to
    multicast addresses when they are exempt. *)
Definition counts_hops (t : DecIPTTL) (d : list Z) : bool := active t && (multicast t || negb (is_multicast (ip_dst d))).

(** C23. A packet that passed [CheckIPHeader] leaves [DecIPTTL] as follows.  If the
    element is off, or the packet goes to a multicast address and these are exempt,
    it is passed on as it is.  Otherwise, with a time to live of at most 1 it is
    counted and sent to output 1 or killed; and with a greater one it is passed on with
    the time to live exactly one lower, only the time to live and the checksum
    changed, and passes the same check again, as it is. *)
Theorem forwarding_keeps_valid (noutputs m : Z) (s s1 : CheckIPHeader) (t : DecIPTTL) (p q : ip_packet) (out : list (Z * ip_packet)) :
  pkt_ok (pkt p) -> 0 <= offset s < 2147483648 -> pkt_length (pkt p) < 2147483648 ->
  check_ip_header noutputs s p = (s1, Some q, out) ->
  let header := fun r : ip_packet => drop (Z.to_nat (offset s)) (pkt_data (pkt r)) in
  check_ip_header noutputs s q = (s, Some q, [])
  /\ if counts_hops t (header q) then
       if vget (header q) 8 <=? 1
       then dec_ip_ttl m t q = (mkDec (active t) (multicast t) (u32 (ttl_drops t + 1)), None, if 1 <? m then [(1, q)] else [])
       else exists r, dec_ip_ttl m t q = (t, Some r, [])
         /\ check_ip_header noutputs s r = (s, Some r, [])
         /\ vget (header r) 8 = vget (header q) 8 - 1
         /\ forall i, 0 <= i -> i <> 8 -> i <> 10 -> i <> 11 -> vget (header r) i = vget (header q) i
     else dec_ip_ttl m t q = (t, Some q, []).
Proof.
  intros Hp Ho Hl He header. destruct (check_passed noutputs s s1 p q out Hp Ho Hl He) as (Hpq & Hlq & Hg & Ht & Hq).
  fold (header q) in Hg, Ht, Hq. set (d := header q) in *.
  pose proof (check_again noutputs s (pkt q) Hpq Ho Hlq) as Hagain. cbv zeta in Hagain. fold (header q) d in Hagain.
  specialize (Hagain Hg Ht). rewrite <- Hq in Hagain. pose proof (gi_size s d Hg) as Hsize.
  assert (Hd : bytes_ok d) by (apply Forall_drop, Hpq). assert (Hnet : network q = offset s) by by rewrite Hq.
  split; [exact Hagain|].
  assert (Hf : ip_ttl (ip_header q) = vget d 8 /\ ip_sum (ip_header q) = ip_sum d /\ ip_dst (ip_header q) = ip_dst d).
  { destruct (ip_header_fields (ip_header q) d) as (_ & _ & _ & _ & E0 & E1 & E2); [|done].
    intros i Hi. unfold ip_header. rewrite Hnet. apply header_byte; [lia|lia|]. unfold d, header in Hsize. lia. }
  destruct Hf as (Ettl & Esum & Edst). unfold dec_ip_ttl, counts_hops. rewrite Ettl, Edst.
  destruct (active t); cbn [negb andb]; [|done].
  destruct (multicast t), (is_multicast (ip_dst d)); cbn [negb andb orb]; try done.
  all: destruct (Z.leb_spec (vget d 8) 1) as [Hle|Hgt]; [done|]; eexists; split; [reflexivity|]; cbn [pkt pkt_data].
  all: by apply (dec_checks noutputs s q).
Qed.

Definition checked_frame : ip_packet := default sample_frame (check_ip_header 1 sample_check sample_frame).1.2.

Lemma forwarding_keeps_valid_witness :
  let header := fun r : ip_packet => drop (Z.to_nat (offset sample_check)) (pkt_data (pkt r)) in
  vget (header checked_frame) 8 = 64
  /\ exists r, dec_ip_ttl 1 new_dec checked_frame = (new_dec, Some r, [])
    /\ check_ip_header 1 sample_check r = (sample_check, Some r, []) /\ vget (header r) 8 = 64 - 1
    /\ forall i, 0 <= i -> i <> 8 -> i <> 10 -> i <> 11 -> vget (header r) i = vget (header checked_frame) i.
Proof.
  assert (Ho : 0 <= offset sample_check < 2147483648) by (cbn; lia).
  assert (Hl : pkt_length (pkt sample_frame) < 2147483648) by (vm_compute; reflexivity).
  destruct (forwarding_keeps_valid 1 1 sample_check sample_check new_dec sample_frame checked_frame [] sample_frame_ok Ho Hl) as [_ H].
  { unfold checked_frame. vm_compute. reflexivity. }
  cbv zeta in *. set (b := counts_hops _ _) in H. assert (E : b = true) by (vm_compute; reflexivity). rewrite E in H.
  assert (Et : vget (drop (Z.to_nat (offset sample_check)) (pkt_data (pkt checked_frame))) 8 = 64) by (vm_compute; reflexivity).
  rewrite Et in H. split; [exact Et|exact H].
Defined.
