(* ===== verification/Fragment.v ===== *)
(** * IP fragmentation

    [IPFragmenter] (elements/ip/ipfragmenter.{hh,cc}): a packet that is longer
    than the MTU is cut into fragments, each a packet with its own header.  The
    output of [click_random()] is an argument; buffers can be allocated. *)

From S2P Require Import Prelude Packet Insn Words Cksum IPHeader.
Local Open Scope word_scope.
Local Open Scope Z_scope.

Definition IP_DF : Z := 16384.
Definition IP_MF : Z := 8192.
Definition IP_OFFMASK : Z := 8191.

(** Complement of a 16-bit word. *)
Definition not16 (x : Z) : Z := u16 (Z.lnot x).

(** ** [optcopy]: the bytes it writes *)

Fixpoint copy_options (fuel : nat) (ip : list Z) (oin oin_end : Z) (out : list Z) : list Z :=
  match fuel with
  | O => out
  | S fuel' =>
      if oin <? oin_end then
        if vget ip oin =? IPOPT_NOP then copy_options fuel' ip (oin + 1) oin_end out
        else if (vget ip oin =? IPOPT_EOL) || (oin + 1 =? oin_end) || (vget ip (oin + 1) <? 2)
                || (oin_end <? oin + vget ip (oin + 1)) then out
        else
          let n := vget ip (oin + 1) in
          copy_options fuel' ip (oin + n) oin_end
            (if negb (vget ip oin .& 128 =? 0) then out ++ range ip oin (oin + n) else out)
      else out
  end.

(** [for (; (outpos & 3) != 0; outpos++)] *)
Fixpoint pad_options (fuel : nat) (out : list Z) : list Z :=
  match fuel with
  | O => out
  | S fuel' => if negb (vlen out .& 3 =? 0) then pad_options fuel' (out ++ [IPOPT_EOL]) else out
  end.

Definition optcopy (ip : list Z) : list Z :=
  pad_options 3 (copy_options 64 ip sizeof_click_ip (sizeof_click_ip + (ip_hl ip .<< 2) - sizeof_click_ip) []).

(** ** [IPFragmenter] *)

Record IPFragmenter := mkFragmenter { honor_df : bool; mtu : Z; frag_drops : Z; frag_count : Z }.

(** [configure]: [None] when the MTU is refused. *)
Definition new_fragmenter (mtu : Z) (honor_df : bool) : option IPFragmenter :=
  if mtu <? 8 then None else Some (mkFragmenter honor_df mtu 0 0).

(** [(_mtu - hlen) & ~7] as an [int] *)
Definition room_for (mtu hlen : Z) : Z := i32 (u32 (mtu - hlen) .& u32 (Z.lnot 7)).

(** [ip->ip_sum = 0; ip->ip_sum = click_in_cksum(ip, hlen);] *)
Definition set_cksum (d : list Z) (hlen : Z) : list Z :=
  let d := put16 d 10 0 in put16 d 10 (click_in_cksum d hlen).

(** A packet whose DF bit is ignored gets a new identifier. *)
Definition clear_df (rand : Z) (d : list Z) : list Z :=
  if negb (ip_off d .& htons IP_DF =? 0)
  then let d := put16 d 4 (u16 rand) in put16 d 6 (ip_off d .& not16 (htons IP_DF))
  else d.

(** The header of the packet [d], in place, as the first fragment's. *)
Definition first_header (d : list Z) (hlen first_dlen : Z) : list Z :=
  let d := put16 d 2 (htons (hlen + first_dlen)) in
  let d := put16 d 6 (ip_off d .| htons IP_MF) in
  set_cksum d hlen.

Definition had_mf (d : list Z) : bool := negb (ip_off d .& htons IP_MF =? 0).

(** The header of a later fragment: the one of [ip], without its options, then
    the copied options. *)
Definition next_header (ip : list Z) (out_hlen out_dlen off : Z) (last : bool) : list Z :=
  let h := take 20 ip ++ optcopy ip in
  let h := vset h 0 ((ip_v h .<< 4) .| ((out_hlen .>> 2) .& 15)) in
  let h := put16 h 6 (htons (htons (ip_off ip) + (off .>> 3))) in
  let h := if last then put16 h 6 (ip_off h .& not16 (htons IP_MF)) else h in
  let h := put16 h 2 (htons (out_hlen + out_dlen)) in
  set_cksum h out_hlen.

(** The loop over the remaining fragments; [p] is the packet with the header [ip]. *)
Fixpoint next_fragments (fuel : nat) (mtu : Z) (p : ip_packet) (ip : list Z) (mf : bool) (out_hlen off in_dlen : Z)
    : list ip_packet :=
  match fuel with
  | O => []
  | S fuel' =>
      if off <? in_dlen then
        let out_dlen := room_for mtu out_hlen in
        let out_dlen := if in_dlen <? out_dlen + off then in_dlen - off else out_dlen in
        let h := next_header ip out_hlen out_dlen off ((in_dlen <=? out_dlen + off) && negb mf) in
        let payload := map (pkt_byte (pkt p)) (seqZ (transport p + off) out_dlen) in
        mkIP (packet_of (h ++ payload)) 0 out_hlen (dst_anno p)
        :: next_fragments fuel' mtu p ip mf out_hlen (off + out_dlen) in_dlen
      else []
  end.

(** [fragment]: the new state and the packets pushed. *)
Definition fragment (noutputs rand : Z) (s : IPFragmenter) (p_in : ip_packet) : IPFragmenter * list (Z * ip_packet) :=
  let ip_in := ip_header p_in in
  let hlen := ip_hl ip_in .<< 2 in
  let first_dlen := room_for (mtu s) hlen in
  let in_dlen := htons (ip_len ip_in) - hlen in
  if (negb (ip_off ip_in .& htons IP_DF =? 0) && honor_df s) || (first_dlen <? 8)
  then (mkFragmenter (honor_df s) (mtu s) (u32 (frag_drops s + 1)) (frag_count s),
        if 1 <? noutputs then [(1, p_in)] else [])
  else
    let n := network p_in in
    let d := clear_df rand (drop (Z.to_nat n) (pkt_data (pkt p_in))) in
    let ip := first_header d hlen first_dlen in
    let p := mkIP (mkPacket (take (Z.to_nat n) (pkt_data (pkt p_in)) ++ ip) (outside (pkt p_in)))
               n (transport p_in) (dst_anno p_in) in
    let first_fragment :=
      mkIP (pkt_take (pkt p) (pkt_length (pkt p) - n - hlen - first_dlen)) n (transport p) (dst_anno p) in
    let out_hlen := sizeof_click_ip + vlen (optcopy ip) in
    let rest := next_fragments (Z.to_nat in_dlen) (mtu s) p ip (had_mf d) out_hlen first_dlen in_dlen in
    let out := first_fragment :: rest in
    (mkFragmenter (honor_df s) (mtu s) (frag_drops s) (u32 (frag_count s + vlen out)), map (pair 0) out).

Definition fragmenter_push (noutputs rand : Z) (s : IPFragmenter) (p : ip_packet) : IPFragmenter * list (Z * ip_packet) :=
  if pkt_length (pkt p) - network p <=? i32 (mtu s) then (s, [(0, p)]) else fragment noutputs rand s p.

(** ** Halfwords *)

Lemma htons_testbit v k : 0 <= k < 16 -> Z.testbit (htons v) k = Z.testbit v ((k + 8) mod 16).
Proof.
  intros Hk. unfold htons. change 255 with (Z.ones 8). rewrite Z.lor_spec, Z.shiftl_spec, !Z.land_spec by lia.
  rewrite Z.shiftr_spec by lia. destruct (Z.lt_ge_cases k 8) as [H8|H8].
  - rewrite (Z.testbit_neg_r v (k - 8)) by lia. cbn [andb orb]. rewrite Z.testbit_ones_nonneg by lia.
    rewrite (proj2 (Z.ltb_lt k 8)), andb_true_r, Z.mod_small by lia. done.
  - rewrite !Z.testbit_ones_nonneg by lia. rewrite (proj2 (Z.ltb_ge k 8)), (proj2 (Z.ltb_lt (k - 8) 8)) by lia.
    rewrite andb_true_r, andb_false_r, orb_false_r. f_equal. Z.div_mod_to_equations. lia.
Qed.

Lemma htons_range v : 0 <= htons v < 65536.
Proof.
  unfold htons. pose proof (low_byte v). pose proof (low_byte (v .>> 8)).
  rewrite Z.lor_comm, lor_shift_add by (change (2 ^ 8) with 256; lia). change (2 ^ 8) with 256. lia.
Qed.

Lemma htons_involutive v : 0 <= v < 65536 -> htons (htons v) = v.
Proof.
  intros Hv. rewrite (htons_sum (htons v)) by apply htons_range. rewrite htons_sum by done. Z.div_mod_to_equations. lia.
Qed.

Lemma vget_put16_ne l i j v : 0 <= i -> 0 <= j -> j <> i -> j <> i + 1 -> vget (put16 l i v) j = vget l j.
Proof. intros. unfold put16. by rewrite !vget_vset_ne by lia. Qed.

Lemma word16_put16 l i v : 0 <= i -> i + 1 < vlen l -> word16 (put16 l i v) i = v mod 65536.
Proof.
  intros Hi Hl. unfold word16, put16. rewrite vget_vset_ne, vget_vset_eq, vget_vset_eq by (rewrite ?vlen_vset; lia).
  rewrite two_bytes by apply low_byte. change 255 with (Z.ones 8). rewrite !Z.land_ones, Z.shiftr_div_pow2 by lia.
  change (2 ^ 8) with 256. Z.div_mod_to_equations. lia.
Qed.

Lemma word16_put16_ne l i j v : 0 <= i -> 0 <= j -> i + 1 < j \/ j + 1 < i -> word16 (put16 l i v) j = word16 l j.
Proof. intros Hi Hj Hne. unfold word16. by rewrite !vget_put16_ne by lia. Qed.

(** ** The fields of a fragment *)

(** The flags and the offset, as a number. *)
Definition frag_field (d : list Z) : Z := 256 * vget d 6 + vget d 7.
Definition frag_offset (d : list Z) : Z := frag_field d mod 8192.
Definition more_fragments (d : list Z) : bool := Z.testbit (frag_field d) 13.
Definition dont_fragment (d : list Z) : bool := Z.testbit (frag_field d) 14.

Lemma frag_field_range d : bytes_ok d -> 8 <= vlen d -> 0 <= frag_field d < 65536.
Proof.
  intros Hd Hl. pose proof (bytes_get d 6 Hd ltac:(lia)). pose proof (bytes_get d 7 Hd ltac:(lia)). unfold frag_field. lia.
Qed.

Lemma frag_field_htons d : bytes_ok d -> 8 <= vlen d -> htons (ip_off d) = frag_field d.
Proof.
  intros Hd Hl. destruct (word16_range d 6 Hd ltac:(lia) ltac:(lia)) as [Hw Hr]. unfold ip_off. rewrite htons_sum by done. rewrite Hw.
  pose proof (bytes_get d 6 Hd ltac:(lia)). pose proof (bytes_get d 7 Hd ltac:(lia)). change (6 + 1) with 7.
  unfold frag_field. Z.div_mod_to_equations. lia.
Qed.

(** Storing the field. *)
Lemma frag_field_put d v k :
  bytes_ok d -> 8 <= vlen d -> 0 <= k < 16 -> Z.testbit (frag_field (put16 d 6 v)) k = Z.testbit v ((k + 8) mod 16).
Proof.
  intros Hd Hl Hk. rewrite <- frag_field_htons by (by apply bytes_put16 || rewrite vlen_put16). rewrite htons_testbit by done.
  unfold ip_off. rewrite word16_put16 by lia. change 65536 with (2 ^ 16). rewrite Z.mod_pow2_bits_low; [done|].
  pose proof (Z.mod_pos_bound (k + 8) 16 ltac:(lia)). lia.
Qed.

Lemma testbit_flag v i : 0 <= i < 16 -> negb (v .& htons (2 ^ i) =? 0) = Z.testbit v ((i + 8) mod 16).
Proof.
  intros Hi. assert (Hp : htons (2 ^ i) = 2 ^ ((i + 8) mod 16)).
  { assert (Hall : forallb (fun i => htons (2 ^ i) =? 2 ^ ((i + 8) mod 16)) (seqZ 0 16) = true) by (vm_compute; reflexivity).
    rewrite forallb_forall in Hall. apply Z.eqb_eq, Hall, list_elem_of_In, elem_of_seqZ. lia. }
  rewrite Hp. pose proof (Z.mod_pos_bound (i + 8) 16 ltac:(lia)) as Hj. set (j := (i + 8) mod 16) in *.
  destruct (Z.testbit v j) eqn:Eb.
  - destruct (Z.eqb_spec (v .& 2 ^ j) 0) as [E|]; [|done]. apply (f_equal (fun x => Z.testbit x j)) in E.
    rewrite Z.land_spec, Z.pow2_bits_true, Eb, Z.bits_0 in E by lia. done.
  - destruct (Z.eqb_spec (v .& 2 ^ j) 0) as [|E]; [done|]. exfalso. apply E. apply Z.bits_inj'. intros k Hk.
    rewrite Z.land_spec, Z.bits_0. destruct (decide (k = j)) as [->|Hne]; [by rewrite Eb|].
    rewrite Z.pow2_bits_false by lia. apply andb_false_r.
Qed.
