(* ===== verification/FragmentSpec.v ===== *)
(** * Fragments make up the packet

    The fragments that [IPFragmenter] emits are datagrams within the MTU with
    valid checksums, and whoever puts their payloads together by offset gets the
    payload of the packet back. *)

From S2P Require Import Prelude Packet Insn Words Cksum IPHeader Fragment.
Local Open Scope word_scope.
Local Open Scope Z_scope.

(** ** Datagrams *)

Definition ihl (d : list Z) : Z := vget d 0 mod 16.
Definition payload (d : list Z) : list Z := drop (Z.to_nat (4 * ihl d)) d.

(** The bytes of an IPv4 packet and nothing else. *)
Record datagram (d : list Z) : Prop := {
  dg_bytes : bytes_ok d;
  dg_version : vget d 0 / 16 = 4;
  dg_hlen : 5 <= ihl d;
  dg_header : 4 * ihl d <= vlen d;
  dg_total : total_length d = vlen d
}.

(** The fields that fragments share with the packet. *)
Definition same_flow (d f : list Z) : Prop :=
  forall i, i = 1 \/ 8 <= i <= 9 \/ 12 <= i <= 19 -> vget f i = vget d i.

Record fragment_ok (mtu : Z) (d : list Z) (id : Z) (f : list Z) : Prop := {
  fo_datagram : datagram f;
  fo_hlen : ihl f <= ihl d;
  fo_cksum : click_in_cksum f (4 * ihl f) = 0;
  fo_size : vlen f <= mtu;
  fo_flow : same_flow d f;
  fo_id : word16 f 4 = id;
  fo_df : dont_fragment f = false
}.

(** The fragments [fs], in order, carry [data] from offset [o] on; [mf] is the
    flag of the last one. *)
Fixpoint covers_data (o : Z) (mf : bool) (data : list Z) (fs : list (list Z)) : Prop :=
  match fs with
  | [] => False
  | [f] => frag_offset f = o /\ more_fragments f = mf /\ payload f = data /\ 0 < vlen data
  | f :: fs' => frag_offset f = o /\ more_fragments f = true
      /\ exists k rest, 0 < k /\ vlen (payload f) = 8 * k /\ data = payload f ++ rest /\ covers_data (o + k) mf rest fs'
  end.

Definition datagram_of (p : ip_packet) : list Z := drop (Z.to_nat (network p)) (pkt_data (pkt p)).

(** A packet in a sound buffer whose header annotations are set. *)
Record marked (p : ip_packet) : Prop := {
  mk_bytes : pkt_ok (pkt p);
  mk_network : 0 <= network p;
  mk_transport : transport p = network p + 4 * ihl (datagram_of p)
}.

(** ** Sizes *)

Lemma room_for_spec mtu hlen :
  -2147483648 <= mtu - hlen < 2147483648 -> room_for mtu hlen = (mtu - hlen) / 8 * 8.
Proof.
  intros Hx. unfold room_for. set (x := mtu - hlen) in *.
  change (u32 (Z.lnot 7)) with (Z.ones 29 .<< (32 - 29)).
  rewrite land_ones_shifted by (lia || apply Z.mod_pos_bound; lia). change (2 ^ (32 - 29)) with 8.
  rewrite <- (i32_u32 (x / 8 * 8)) by (Z.div_mod_to_equations; lia). f_equal. unfold u32.
  Z.div_mod_to_equations. lia.
Qed.

(** ** Options *)

Definition copied (o : list Z) : bool := negb (vget o 0 .& 128 =? 0).

Definition copied_options (ip : list Z) : list Z := concat (List.filter copied (header_options ip)).

Lemma copy_options_spec fuel ip a b out :
  bytes_ok ip -> 0 <= a -> b <= vlen ip ->
  copy_options fuel ip a b out = out ++ concat (List.filter copied (options fuel (range ip a b))).
Proof.
  intros Hi Ha Hb. revert a out Ha. induction fuel as [|fuel IH]; intros a out Ha; cbn [copy_options]; [by rewrite app_nil_r|].
  destruct (Z.ltb_spec a b) as [Hlt|Hge]; [|rewrite options_nil by lia; by rewrite app_nil_r].
  rewrite options_step by (done || lia). destruct (vget ip a =? IPOPT_NOP); [apply IH; lia|].
  assert (Heq : (a + 1 =? b) = (b <=? a + 1)) by (destruct (Z.eqb_spec (a + 1) b), (Z.leb_spec b (a + 1)); lia || done).
  rewrite Heq. destruct (_ || _ || _ || _) eqn:Eb; [by rewrite app_nil_r|]. bprop. rewrite IH by lia. cbn [List.filter].
  assert (Hc : copied (range ip a (a + vget ip (a + 1))) = negb (vget ip a .& 128 =? 0)).
  { unfold copied. rewrite vget_range by lia. by rewrite Z.add_0_r. }
  rewrite Hc. destruct (negb _); [|done]. cbn [concat]. by rewrite app_assoc.
Qed.

Lemma options_size fuel o : vlen (concat (List.filter copied (options fuel o))) <= vlen o.
Proof.
  revert o. induction fuel as [|fuel IH]; intros o; cbn [options]; [apply vlen_nonneg|].
  destruct o as [|x o]; [done|]. destruct (x =? IPOPT_NOP); [rewrite vlen_cons; specialize (IH o); lia|].
  destruct (_ || _ || _ || _) eqn:Eb; [apply vlen_nonneg|]. bprop. set (l := x :: o) in *. set (n := vget l 1) in *.
  specialize (IH (drop (Z.to_nat n) l)). rewrite vlen_drop_Z in IH by lia. cbn [List.filter].
  destruct (copied _); [|lia]. cbn [concat]. rewrite vlen_app, vlen_take_Z by lia. lia.
Qed.

Lemma options_bytes fuel o : bytes_ok o -> bytes_ok (concat (List.filter copied (options fuel o))).
Proof.
  revert o. induction fuel as [|fuel IH]; intros o Ho; cbn [options]; [apply List.Forall_nil|].
  destruct o as [|x o]; [apply List.Forall_nil|]. destruct (x =? IPOPT_NOP); [apply IH; by apply bytes_cons in Ho as [_ ?]|].
  destruct (_ || _ || _ || _); [apply List.Forall_nil|]. cbn [List.filter]. destruct (copied _); [|by apply IH, Forall_drop].
  cbn [concat]. apply Forall_app. split; [by apply bytes_take|by apply IH, Forall_drop].
Qed.

Lemma low2 x : x .& 3 = x mod 4.
Proof. change 3 with (Z.ones 2). by rewrite Z.land_ones by lia. Qed.

Lemma pad_options_spec fuel out :
  - vlen out mod 4 <= Z.of_nat fuel -> pad_options fuel out = out ++ replicate (Z.to_nat (- vlen out mod 4)) 0.
Proof.
  revert out. induction fuel as [|fuel IH]; intros out Hf; cbn [pad_options].
  - pose proof (Z.mod_pos_bound (- vlen out) 4 ltac:(lia)). replace (- vlen out mod 4) with 0 by lia. by rewrite app_nil_r.
  - rewrite low2. destruct (Z.eqb_spec (vlen out mod 4) 0) as [E|E]; cbn [negb].
    + replace (- vlen out mod 4) with 0 by (Z.div_mod_to_equations; lia). by rewrite app_nil_r.
    + assert (Hm : - vlen (out ++ [IPOPT_EOL]) mod 4 = - vlen out mod 4 - 1).
      { rewrite vlen_app. change (vlen [IPOPT_EOL]) with 1. Z.div_mod_to_equations. lia. }
      rewrite IH by lia. rewrite Hm, <- app_assoc. f_equal.
      replace (Z.to_nat (- vlen out mod 4)) with (S (Z.to_nat (- vlen out mod 4 - 1))) by (Z.div_mod_to_equations; lia). done.
Qed.

(** The options of later fragments: the ones marked for copying, padded. *)
Lemma optcopy_spec ip :
  bytes_ok ip -> 5 <= ihl ip -> ip_hl ip = ihl ip -> 4 * ihl ip <= vlen ip ->
  optcopy ip = copied_options ip ++ replicate (Z.to_nat (- vlen (copied_options ip) mod 4)) 0
  /\ vlen (optcopy ip) mod 4 = 0 /\ 0 <= vlen (optcopy ip) <= 4 * ihl ip - 20 /\ bytes_ok (optcopy ip).
Proof.
  intros Hi H5 Hh Hl. unfold optcopy, sizeof_click_ip. rewrite Z.shiftl_mul_pow2, Hh by lia. change (2 ^ 2) with 4.
  replace (20 + ihl ip * 4 - 20) with (4 * ihl ip) by lia. rewrite copy_options_spec by (done || lia). cbn [app].
  assert (Hc : concat (List.filter copied (options 64 (range ip 20 (4 * ihl ip)))) = copied_options ip)
    by (unfold copied_options, header_options; by rewrite Hh).
  rewrite Hc. pose proof (options_size 64 (range ip 20 (4 * ihl ip))) as Hs. rewrite Hc, vlen_range in Hs by lia.
  pose proof (Z.mod_pos_bound (- vlen (copied_options ip)) 4 ltac:(lia)). pose proof (vlen_nonneg (copied_options ip)).
  rewrite pad_options_spec by lia. rewrite vlen_app, vlen_replicate. split; [done|].
  split; [Z.div_mod_to_equations; lia|]. split; [Z.div_mod_to_equations; lia|].
  apply Forall_app. split; [|by apply Forall_replicate]. rewrite <- Hc. by apply options_bytes, bytes_range.
Qed.

(** ** Headers *)

Lemma take_put16 l n i v : 0 <= i -> i + 1 < n -> take (Z.to_nat n) (put16 l i v) = put16 (take (Z.to_nat n) l) i v.
Proof. intros Hi Hn. unfold put16. by rewrite !take_vset by lia. Qed.

Lemma cksum_take l n : 0 <= n <= vlen l -> click_in_cksum l n = click_in_cksum (take (Z.to_nat n) l) (vlen (take (Z.to_nat n) l)).
Proof. intros Hn. rewrite vlen_take_Z by done. unfold click_in_cksum. by rewrite take_take, Nat.min_id. Qed.

Lemma set_cksum_spec d n :
  bytes_ok d -> 12 <= n <= vlen d -> n <= 65536 ->
  click_in_cksum (set_cksum d n) n = 0 /\ bytes_ok (set_cksum d n) /\ vlen (set_cksum d n) = vlen d
  /\ forall i, 0 <= i -> i <> 10 -> i <> 11 -> vget (set_cksum d n) i = vget d i.
Proof.
  intros Hd Hn H16. unfold set_cksum. cbv zeta. split; [|split; [by do 2 apply bytes_put16|split; [by rewrite !vlen_put16|]]].
  - set (v := click_in_cksum (put16 d 10 0) n). rewrite cksum_take by (rewrite !vlen_put16; lia). rewrite take_put16 by lia.
    set (h := take (Z.to_nat n) (put16 d 10 0)). assert (Hlen : vlen h = n) by (apply vlen_take_Z; rewrite vlen_put16; lia).
    assert (Hv : v = click_in_cksum h (vlen h)) by (apply cksum_take; rewrite vlen_put16; lia).
    rewrite vlen_put16, Hv. change 10 with (2 * Z.of_nat 5) at 1. apply checksum_verifies; [by apply bytes_take, bytes_put16|lia|lia|].
    unfold h. rewrite take_put16 by lia. rewrite word16_put16 by (rewrite ?vlen_take_Z by lia; lia). done.
  - intros i Hi H10 H11. by rewrite !vget_put16_ne by lia.
Qed.

(** Fields are read from the bytes that hold them. *)
Lemma frag_field_bytes d d' : vget d' 6 = vget d 6 -> vget d' 7 = vget d 7 -> frag_field d' = frag_field d.
Proof. intros H6 H7. unfold frag_field. by rewrite H6, H7. Qed.

Lemma frag_offset_bits a b : (forall k, 0 <= k < 13 -> Z.testbit a k = Z.testbit b k) -> a mod 8192 = b mod 8192.
Proof.
  intros H. change 8192 with (2 ^ 13). apply Z.bits_inj'. intros k Hk. destruct (Z.lt_ge_cases k 13).
  - rewrite !Z.mod_pow2_bits_low by lia. apply H. lia.
  - by rewrite !Z.mod_pow2_bits_high by lia.
Qed.

Lemma frag_bit d k : bytes_ok d -> 8 <= vlen d -> 0 <= k < 16 -> Z.testbit (ip_off d) ((k + 8) mod 16) = Z.testbit (frag_field d) k.
Proof. intros Hd Hl Hk. rewrite <- frag_field_htons by done. by rewrite htons_testbit. Qed.

(** What a field looks like when one flag has been set or cleared. *)
Lemma not_flag_bit i k : 0 <= i < 16 -> 0 <= k < 16 -> Z.testbit (not16 (htons (2 ^ i))) ((k + 8) mod 16) = negb (k =? i).
Proof.
  intros Hi Hk. assert (Hall : forallb (fun i => forallb (fun k =>
    Bool.eqb (Z.testbit (not16 (htons (2 ^ i))) ((k + 8) mod 16)) (negb (k =? i))) (seqZ 0 16)) (seqZ 0 16) = true) by (vm_compute; reflexivity).
  rewrite forallb_forall in Hall. specialize (Hall i ltac:(apply list_elem_of_In, elem_of_seqZ; lia)). cbv beta in Hall.
  rewrite forallb_forall in Hall. specialize (Hall k ltac:(apply list_elem_of_In, elem_of_seqZ; lia)). by apply Bool.eqb_prop in Hall.
Qed.

Lemma flag_bit i k : 0 <= i < 16 -> 0 <= k < 16 -> Z.testbit (htons (2 ^ i)) ((k + 8) mod 16) = (k =? i).
Proof.
  intros Hi Hk. assert (Hall : forallb (fun i => forallb (fun k =>
    Bool.eqb (Z.testbit (htons (2 ^ i)) ((k + 8) mod 16)) (k =? i)) (seqZ 0 16)) (seqZ 0 16) = true) by (vm_compute; reflexivity).
  rewrite forallb_forall in Hall. specialize (Hall i ltac:(apply list_elem_of_In, elem_of_seqZ; lia)). cbv beta in Hall.
  rewrite forallb_forall in Hall. specialize (Hall k ltac:(apply list_elem_of_In, elem_of_seqZ; lia)). by apply Bool.eqb_prop in Hall.
Qed.

Lemma clear_df_spec rand d :
  bytes_ok d -> 20 <= vlen d -> let d' := clear_df rand d in
  bytes_ok d' /\ vlen d' = vlen d /\ (forall i, 0 <= i -> i < 4 \/ 7 < i -> vget d' i = vget d i)
  /\ (forall k, 0 <= k < 16 -> Z.testbit (frag_field d') k = if k =? 14 then false else Z.testbit (frag_field d) k)
  /\ word16 d' 4 = if dont_fragment d then u16 rand else word16 d 4.
Proof.
  intros Hd Hl. unfold clear_df, dont_fragment. rewrite <- (frag_bit d 14) by (done || lia).
  change IP_DF with (2 ^ 14). rewrite testbit_flag by lia. destruct (Z.testbit (ip_off d) ((14 + 8) mod 16)) eqn:E; cbv zeta.
  - set (d1 := put16 d 4 (u16 rand)). assert (Hd1 : bytes_ok d1) by by apply bytes_put16.
    assert (Hl1 : vlen d1 = vlen d) by apply vlen_put16. split; [by apply bytes_put16|]. split; [by rewrite vlen_put16|].
    split; [intros i Hi Hne; unfold d1; by rewrite !vget_put16_ne by lia|]. split.
    + intros k Hk. rewrite frag_field_put by (done || lia). rewrite Z.land_spec, not_flag_bit by lia.
      rewrite frag_bit by (done || lia). rewrite (frag_field_bytes d d1) by (unfold d1; by rewrite vget_put16_ne by lia).
      destruct (k =? 14); [apply andb_false_r|apply andb_true_r].
    + rewrite word16_put16_ne by lia. unfold d1. rewrite word16_put16 by lia. unfold u16. by rewrite Z.mod_mod by lia.
  - split; [done|]. split; [done|]. split; [done|]. split; [|done]. intros k Hk. destruct (Z.eqb_spec k 14) as [->|]; [|done].
    by rewrite <- frag_bit by (done || lia).
Qed.

Lemma total_length_put d v : 4 <= vlen d -> bytes_ok d -> 0 <= v < 65536 -> total_length (put16 d 2 (htons v)) = v.
Proof.
  intros Hl Hd Hv. assert (Hw : word16 (put16 d 2 (htons v)) 2 = htons v).
  { rewrite word16_put16 by lia. apply Z.mod_small, htons_range. }
  destruct (word16_range (put16 d 2 (htons v)) 2 (bytes_put16 _ _ _ Hd) ltac:(lia) ltac:(rewrite vlen_put16; lia)) as [Hb _].
  rewrite Hw in Hb. change (2 + 1) with 3 in Hb. pose proof (htons_sum v Hv).
  pose proof (bytes_get (put16 d 2 (htons v)) 2 (bytes_put16 _ _ _ Hd) ltac:(rewrite vlen_put16; lia)).
  pose proof (bytes_get (put16 d 2 (htons v)) 3 (bytes_put16 _ _ _ Hd) ltac:(rewrite vlen_put16; lia)).
  unfold total_length. Z.div_mod_to_equations. lia.
Qed.

Lemma first_header_spec d hlen first_dlen :
  bytes_ok d -> 20 <= hlen <= 60 -> hlen <= vlen d -> 0 <= first_dlen -> hlen + first_dlen < 65536 ->
  let d' := first_header d hlen first_dlen in
  bytes_ok d' /\ vlen d' = vlen d /\ click_in_cksum d' hlen = 0 /\ total_length d' = hlen + first_dlen
  /\ (forall i, 0 <= i -> i < 2 \/ 4 <= i < 6 \/ 8 <= i < 10 \/ 11 < i -> vget d' i = vget d i)
  /\ (forall k, 0 <= k < 16 -> Z.testbit (frag_field d') k = if k =? 13 then true else Z.testbit (frag_field d) k).
Proof.
  intros Hd Hh Hl Hf Ht. unfold first_header. cbv zeta. set (d1 := put16 d 2 (htons (hlen + first_dlen))).
  assert (Hd1 : bytes_ok d1) by by apply bytes_put16. assert (Hl1 : vlen d1 = vlen d) by apply vlen_put16.
  set (d2 := put16 d1 6 (ip_off d1 .| htons IP_MF)). assert (Hd2 : bytes_ok d2) by by apply bytes_put16.
  assert (Hl2 : vlen d2 = vlen d) by (unfold d2; by rewrite vlen_put16).
  destruct (set_cksum_spec d2 hlen Hd2 ltac:(lia) ltac:(lia)) as (G1 & G2 & G3 & G4). set (d3 := set_cksum d2 hlen) in *.
  split; [done|]. split; [lia|]. split; [done|]. split; [|split].
  - rewrite <- (total_length_put d (hlen + first_dlen)) by (done || lia). fold d1. unfold total_length.
    rewrite !G4 by lia. unfold d2. by rewrite !vget_put16_ne by lia.
  - intros i Hi Hne. rewrite G4 by lia. unfold d2, d1. by rewrite !vget_put16_ne by lia.
  - intros k Hk. rewrite (frag_field_bytes d2 d3) by (apply G4; lia). unfold d2. rewrite frag_field_put by (done || lia).
    rewrite Z.lor_spec. change IP_MF with (2 ^ 13). rewrite flag_bit by lia. rewrite frag_bit by (done || lia).
    rewrite (frag_field_bytes d d1) by (unfold d1; by rewrite vget_put16_ne by lia).
    destruct (k =? 13); [apply orb_true_r|apply orb_false_r].
Qed.

(** A header that [CheckIPHeader] lets through, at the start of [ip]. *)
Record good_header (ip : list Z) : Prop := {
  gh_bytes : bytes_ok ip;
  gh_version : vget ip 0 / 16 = 4;
  gh_hlen : 5 <= ihl ip;
  gh_fits : 4 * ihl ip <= vlen ip
}.

Lemma ihl_range ip : 0 <= ihl ip < 16.
Proof. unfold ihl. apply Z.mod_pos_bound. lia. Qed.

Lemma good_hl ip : good_header ip -> ip_hl ip = ihl ip /\ ip_v ip = 4.
Proof.
  intros [Hb Hv H5 Hf]. destruct (ip_fields ip Hb ltac:(lia)) as (E1 & E2 & _). by rewrite E1, E2.
Qed.

Section next.
Variables (ip : list Z) (out_hlen : Z).
Hypothesis Hgood : good_header ip.
Hypothesis Hout : out_hlen = 20 + vlen (optcopy ip).

Lemma out_hlen_spec : 20 <= out_hlen <= 4 * ihl ip /\ out_hlen mod 4 = 0 /\ bytes_ok (optcopy ip).
Proof using Hgood Hout.
  destruct Hgood as [Hb Hv H5 Hf]. destruct (good_hl ip Hgood) as [Hh _].
  destruct (optcopy_spec ip Hb H5 Hh Hf) as (_ & Hm & Hr & Hob). rewrite Hout.
  split; [lia|]. split; [Z.div_mod_to_equations; lia|done].
Qed.

(** The copied bytes, before any field is changed. *)
Lemma next_base :
  let h := take 20 ip ++ optcopy ip in
  bytes_ok h /\ vlen h = out_hlen /\ forall i, 0 <= i < 20 -> vget h i = vget ip i.
Proof using Hgood Hout.
  destruct Hgood as [Hb Hv H5 Hf]. destruct out_hlen_spec as (_ & _ & Hob).
  assert (Hl : vlen (take 20 ip) = 20) by (change 20%nat with (Z.to_nat 20); apply vlen_take_Z; lia).
  split; [apply Forall_app; split; [by apply bytes_take|done]|]. split; [rewrite vlen_app; lia|].
  intros i Hi. rewrite vget_app_l by lia. change 20%nat with (Z.to_nat 20). by apply vget_take_Z.
Qed.

Lemma next_first_byte : ((ip_v (take 20 ip ++ optcopy ip) .<< 4) .| ((out_hlen .>> 2) .& 15)) = 64 + out_hlen / 4.
Proof using Hgood Hout.
  destruct next_base as (Hb & Hl & Hg). destruct out_hlen_spec as (Hr & Hm & _). pose proof (ihl_range ip).
  assert (Hv : ip_v (take 20 ip ++ optcopy ip) = 4).
  { unfold ip_v. rewrite Hg by lia. destruct (good_hl ip Hgood) as [_ Hv]. exact Hv. }
  rewrite Hv. change 15 with (Z.ones 4). rewrite Z.land_ones, Z.shiftr_div_pow2 by lia. change (2 ^ 4) with 16. change (2 ^ 2) with 4.
  rewrite Z.mod_small by (Z.div_mod_to_equations; lia). rewrite Z.lor_comm, lor_shift_add by (change (2 ^ 4) with 16; Z.div_mod_to_equations; lia).
  change (2 ^ 4) with 16. lia.
Qed.

Lemma next_header_spec out_dlen off last :
  0 <= out_dlen -> out_hlen + out_dlen < 65536 ->
  let h := next_header ip out_hlen out_dlen off last in
  good_header h /\ vlen h = out_hlen /\ 4 * ihl h = out_hlen /\ click_in_cksum h out_hlen = 0 /\ total_length h = out_hlen + out_dlen
  /\ same_flow ip h /\ word16 h 4 = word16 ip 4
  /\ forall k, 0 <= k < 16 ->
     Z.testbit (frag_field h) k = if last && (k =? 13) then false else Z.testbit (frag_field ip + off / 8) k.
Proof using Hgood Hout.
  intros Hd Ht. destruct next_base as (Hb0 & Hl0 & Hg0). destruct out_hlen_spec as (Hr & Hm & _). pose proof (ihl_range ip) as Hir.
  unfold next_header. cbv zeta. rewrite next_first_byte. set (h0 := take 20 ip ++ optcopy ip) in *.
  set (h1 := vset h0 0 (64 + out_hlen / 4)).
  assert (Hb1 : bytes_ok h1) by (apply bytes_vset; [done|Z.div_mod_to_equations; lia]).
  assert (Hl1 : vlen h1 = out_hlen) by (unfold h1; by rewrite vlen_vset).
  set (w := htons (htons (ip_off ip) + (off .>> 3))). set (h2 := put16 h1 6 w).
  assert (Hb2 : bytes_ok h2) by by apply bytes_put16. assert (Hl2 : vlen h2 = out_hlen) by (unfold h2; by rewrite vlen_put16).
  set (h3 := if last then put16 h2 6 (ip_off h2 .& not16 (htons IP_MF)) else h2).
  assert (Hb3 : bytes_ok h3) by (unfold h3; destruct last; [by apply bytes_put16|done]).
  assert (Hl3 : vlen h3 = out_hlen) by (unfold h3; destruct last; [by rewrite vlen_put16|done]).
  set (h4 := put16 h3 2 (htons (out_hlen + out_dlen))).
  assert (Hb4 : bytes_ok h4) by by apply bytes_put16. assert (Hl4 : vlen h4 = out_hlen) by (unfold h4; by rewrite vlen_put16).
  destruct (set_cksum_spec h4 out_hlen Hb4 ltac:(lia) ltac:(lia)) as (G1 & G2 & G3 & G4). set (h5 := set_cksum h4 out_hlen) in *.
  assert (Hg : forall i, 0 <= i -> i < 2 \/ 4 <= i < 6 \/ 8 <= i < 10 \/ 11 < i -> vget h5 i = vget h1 i).
  { intros i Hi Hne. rewrite G4 by lia. unfold h4, h3, h2. rewrite vget_put16_ne by lia. destruct last; by rewrite !vget_put16_ne by lia. }
  assert (H0 : vget h5 0 = 64 + out_hlen / 4) by (rewrite Hg by lia; unfold h1; apply vget_vset_eq; lia).
  assert (Hih : ihl h5 = out_hlen / 4) by (unfold ihl; rewrite H0; Z.div_mod_to_equations; lia).
  assert (Hs : forall i, 1 <= i < 2 \/ 4 <= i < 6 \/ 8 <= i < 10 \/ 12 <= i < 20 -> vget h5 i = vget ip i).
  { intros i Hi. rewrite Hg by lia. unfold h1. rewrite vget_vset_ne by lia. apply Hg0. lia. }
  split; [constructor; [done|rewrite H0|rewrite Hih|rewrite Hih, G3]; Z.div_mod_to_equations; lia|].
  split; [lia|]. split; [rewrite Hih; Z.div_mod_to_equations; lia|]. split; [done|]. split; [|split; [|split]].
  - rewrite <- (total_length_put h3 (out_hlen + out_dlen)) by (done || lia). fold h4. unfold total_length. by rewrite !G4 by lia.
  - intros i Hi. apply Hs. lia.
  - unfold word16. by rewrite !Hs by lia.
  - intros k Hk. rewrite (frag_field_bytes h3 h5) by (rewrite G4 by lia; unfold h4; by rewrite vget_put16_ne by lia).
    assert (Hw : Z.testbit (frag_field h2) k = Z.testbit (frag_field ip + off / 8) k).
    { unfold h2. rewrite frag_field_put by (done || lia). unfold w. rewrite htons_testbit by (Z.div_mod_to_equations; lia).
      rewrite frag_field_htons, Z.shiftr_div_pow2 by (lia || apply Hgood || (destruct Hgood; lia)). f_equal. Z.div_mod_to_equations. lia. }
    unfold h3. destruct last; [|done]. rewrite frag_field_put by (done || lia). change IP_MF with (2 ^ 13).
    rewrite Z.land_spec, not_flag_bit by lia. rewrite frag_bit, Hw by (done || lia). cbn [andb].
    destruct (k =? 13); [apply andb_false_r|apply andb_true_r].
Qed.
End next.

(** ** The loop *)

Lemma field_add a k :
  0 <= a -> 0 <= k -> a mod 8192 + k < 8192 ->
  (a + k) mod 8192 = a mod 8192 + k /\ forall j, 13 <= j -> Z.testbit (a + k) j = Z.testbit a j.
Proof.
  intros Ha Hk Hs. pose proof (Z.div_mod a 8192 ltac:(lia)) as Hd. pose proof (Z.mod_pos_bound a 8192 ltac:(lia)).
  split; [symmetry; apply (Z.mod_unique_pos _ _ (a / 8192)); lia|]. intros j Hj.
  assert (Hq : (a + k) / 2 ^ 13 = a / 2 ^ 13).
  { change (2 ^ 13) with 8192. symmetry. apply (Z.div_unique_pos _ _ _ (a mod 8192 + k)); lia. }
  replace j with ((j - 13) + 13) by lia. rewrite <- !Z.div_pow2_bits by lia. by rewrite Hq.
Qed.

(** A packet assembled from a header and some data. *)
Lemma fragment_bytes h data :
  good_header h -> vlen h = 4 * ihl h -> bytes_ok data -> total_length h = vlen h + vlen data ->
  let f := h ++ data in
  datagram f /\ ihl f = ihl h /\ payload f = data /\ click_in_cksum f (4 * ihl h) = click_in_cksum h (4 * ihl h)
  /\ frag_field f = frag_field h /\ word16 f 4 = word16 h 4 /\ forall i, 0 <= i < 20 -> vget f i = vget h i.
Proof.
  intros [Hb Hv H5 _] Hl Hdata Ht f. pose proof (vlen_nonneg data).
  assert (Hg : forall i, 0 <= i < 4 * ihl h -> vget f i = vget h i) by (intros i Hi; apply vget_app_l; lia).
  assert (Hi : ihl f = ihl h) by (unfold ihl; rewrite Hg; [done|lia]).
  assert (Hf : vlen f = vlen h + vlen data) by apply vlen_app.
  split; [|split; [done|split; [|split; [|split; [|split]]]]].
  - constructor; [by apply Forall_app|rewrite Hg by lia; done|by rewrite Hi|rewrite Hi; lia|].
    unfold total_length in *. rewrite !Hg by lia. lia.
  - unfold payload. rewrite Hi, <- Hl. unfold f, vlen. by rewrite Nat2Z.id, drop_app_length.
  - apply cksum_prefix; lia || done.
  - apply frag_field_bytes; apply Hg; lia.
  - unfold word16. by rewrite !Hg by lia.
  - intros i Hi'. apply Hg. lia.
Qed.

Lemma range_cut l a b c : 0 <= a <= b -> b <= c -> c <= vlen l -> range l a c = range l a b ++ range l b c.
Proof.
  intros Ha Hb Hc. rewrite <- (take_drop (Z.to_nat (b - a)) (range l a c)). rewrite take_range, drop_range by lia.
  by replace (a + (b - a)) with b by lia.
Qed.

Lemma covers_snoc o b data f fs k rest :
  frag_offset f = o -> more_fragments f = true -> 0 < k -> vlen (payload f) = 8 * k -> data = payload f ++ rest ->
  covers_data (o + k) b rest fs -> covers_data o b data (f :: fs).
Proof. intros H1 H2 H3 H4 H5 H6. destruct fs as [|g fs]; [done|]. split; [done|]. split; [done|]. by exists k, rest. Qed.

Section loop.
Variables (mtu : Z) (p : ip_packet) (ip : list Z) (mf : bool).
Let hlen := 4 * ihl ip.
Let out_hlen := sizeof_click_ip + vlen (optcopy ip).
Let in_dlen := vlen ip - hlen.
Hypotheses (Hgood : good_header ip) (Hmf : more_fragments ip = true) (Hdf : dont_fragment ip = false)
  (Hsize : 8 * frag_offset ip + in_dlen <= 65536) (Hlen : vlen ip < 65536)
  (Hroom : 8 <= mtu - hlen) (Hmtu : mtu < 2147483648)
  (Hbytes : forall off n, 0 <= off -> 0 <= n -> off + n <= in_dlen ->
     map (pkt_byte (pkt p)) (seqZ (transport p + off) n) = range ip (hlen + off) (hlen + off + n)).

Lemma next_one off out_dlen :
  0 <= off -> off mod 8 = 0 -> 0 < out_dlen <= mtu - out_hlen -> off + out_dlen <= in_dlen ->
  let last := (in_dlen <=? out_dlen + off) && negb mf in
  let f := next_header ip out_hlen out_dlen off last ++ range ip (hlen + off) (hlen + off + out_dlen) in
  fragment_ok mtu ip (word16 ip 4) f /\ 4 * ihl f = out_hlen /\ frag_offset f = frag_offset ip + off / 8
  /\ more_fragments f = (if in_dlen <=? out_dlen + off then mf else true)
  /\ payload f = range ip (hlen + off) (hlen + off + out_dlen).
Proof using Hgood Hmf Hdf Hsize Hlen Hroom Hmtu.
  intros Ho H8 Hd Hfit last f. destruct (out_hlen_spec ip out_hlen Hgood eq_refl) as (Hr & _ & _). fold hlen in Hr.
  destruct Hgood as [Hb Hv H5 Hf].
  destruct (next_header_spec ip out_hlen Hgood eq_refl out_dlen off last ltac:(lia) ltac:(lia)) as (N1 & N2 & N3 & N4 & N5 & N6 & N7 & N8).
  set (h := next_header ip out_hlen out_dlen off last) in *. set (data := range ip (hlen + off) (hlen + off + out_dlen)) in *.
  assert (Hdl : vlen data = out_dlen) by (unfold data; rewrite vlen_range by lia; lia).
  destruct (fragment_bytes h data N1 ltac:(lia) ltac:(by apply bytes_range) ltac:(lia)) as (F1 & F2 & F3 & F4 & F5 & F6 & F7).
  fold f in F1, F2, F3, F4, F5, F6, F7. pose proof (frag_field_range ip Hb ltac:(lia)) as Hfr.
  assert (Hadd : frag_field ip mod 8192 + off / 8 < 8192) by (unfold frag_offset in Hsize; Z.div_mod_to_equations; lia).
  destruct (field_add (frag_field ip) (off / 8) ltac:(lia) ltac:(Z.div_mod_to_equations; lia) Hadd) as [A1 A2].
  split; [constructor; try done|split; [lia|split; [|split; [|done]]]].
  - unfold hlen in Hr. lia.
  - by rewrite F2, F4, N3.
  - unfold f. rewrite vlen_app. lia.
  - intros i Hi. rewrite F7 by lia. by apply N6.
  - congruence.
  - unfold dont_fragment in *. rewrite F5, N8, A2 by lia. by rewrite andb_false_r.
  - unfold frag_offset. rewrite F5, <- A1. apply frag_offset_bits. intros k Hk. rewrite N8 by lia.
    rewrite (proj2 (Z.eqb_neq k 13)) by lia. by rewrite andb_false_r.
  - unfold more_fragments in *. rewrite F5, N8, A2, Hmf by lia. unfold last. rewrite andb_true_r.
    by destruct (in_dlen <=? out_dlen + off), mf.
Qed.

Lemma next_fragments_spec fuel off :
  0 <= off < in_dlen -> off mod 8 = 0 -> in_dlen - off <= Z.of_nat fuel ->
  let fs := map datagram_of (next_fragments fuel mtu p ip mf out_hlen off in_dlen) in
  Forall marked (next_fragments fuel mtu p ip mf out_hlen off in_dlen) /\ Forall (fragment_ok mtu ip (word16 ip 4)) fs
  /\ covers_data (frag_offset ip + off / 8) mf (range ip (hlen + off) (vlen ip)) fs.
Proof using Hgood Hmf Hdf Hsize Hlen Hroom Hmtu Hbytes.
  revert off. induction fuel as [|fuel IH]; intros off Ho H8 Hf; [lia|].
  destruct (out_hlen_spec ip out_hlen Hgood eq_refl) as (Hr & _ & _). fold hlen in Hr. pose proof (ihl_range ip).
  pose proof (gh_hlen ip Hgood). pose proof (gh_fits ip Hgood).
  assert (Hrm : room_for mtu out_hlen = (mtu - out_hlen) / 8 * 8) by (apply room_for_spec; lia).
  cbn [next_fragments]. rewrite (proj2 (Z.ltb_lt off in_dlen)), Hrm by lia. cbv zeta. set (r := (mtu - out_hlen) / 8 * 8) in *.
  assert (Hr8 : 8 <= r <= mtu - out_hlen /\ r mod 8 = 0) by (unfold r; Z.div_mod_to_equations; lia).
  set (n := if in_dlen <? r + off then in_dlen - off else r).
  assert (Hn : 0 < n <= mtu - out_hlen /\ off + n <= in_dlen /\ (n = r \/ off + n = in_dlen)).
  { unfold n. destruct (Z.ltb_spec in_dlen (r + off)); lia. }
  destruct (next_one off n ltac:(lia) H8 ltac:(lia) ltac:(lia)) as (O1 & Oh & O2 & O3 & O4).
  cbn [map]. rewrite Hbytes by lia. unfold datagram_of at 1 3. cbn [pkt network packet_of pkt_data]. change (Z.to_nat 0) with 0%nat. rewrite !drop_0.
  set (f := next_header _ _ _ _ _ ++ _) in *. rewrite (Z.add_comm n off) in O3.
  assert (Hmk : marked (mkIP (packet_of f) 0 out_hlen (dst_anno p))).
  { constructor; [split; [apply O1|cbn; lia]|done|]. unfold datagram_of. cbn [pkt network transport packet_of pkt_data].
    change (Z.to_nat 0) with 0%nat. rewrite drop_0. lia. }
  assert (Hlast : off + n = in_dlen -> next_fragments fuel mtu p ip mf out_hlen (off + n) in_dlen = []).
  { intros ->. destruct fuel; [done|]. cbn [next_fragments]. by rewrite Z.ltb_irrefl. }
  destruct (decide (off + n = in_dlen)) as [E|E].
  - rewrite (Hlast E). do 2 (split; [by apply Forall_cons; split; [|apply List.Forall_nil]|]). rewrite E, Z.leb_refl in O3.
    split; [done|]. split; [done|]. rewrite O4. replace (hlen + off + n) with (vlen ip) by (unfold in_dlen in E; lia).
    split; [done|]. rewrite vlen_range by lia. lia.
  - destruct Hn as (Hn1 & Hn2 & [->|?]); [|done]. destruct (IH (off + r)) as (I0 & I1 & I2).
    + lia.
    + rewrite Z.add_mod, H8, (proj2 Hr8) by lia. done.
    + lia.
    + do 2 (split; [by apply Forall_cons|]). rewrite (proj2 (Z.leb_gt in_dlen (off + r))) in O3 by lia.
      apply (covers_snoc _ _ _ _ _ (r / 8) (range ip (hlen + (off + r)) (vlen ip))); [done|done|Z.div_mod_to_equations; lia| | |].
      * rewrite O4, vlen_range by lia. Z.div_mod_to_equations. lia.
      * rewrite O4. rewrite Z.add_assoc. apply range_cut; lia.
      * replace (frag_offset ip + off / 8 + r / 8) with (frag_offset ip + (off + r) / 8) by (Z.div_mod_to_equations; lia). done.
Qed.
End loop.

(** ** The first fragment *)

Section first.
Variables (rand : Z) (d : list Z) (first_dlen : Z).
Hypotheses (Hd : datagram d) (Hlen : vlen d < 65536)
  (Hfirst : 8 <= first_dlen /\ first_dlen mod 8 = 0) (Hfit : 4 * ihl d + first_dlen <= vlen d).
Let hlen := 4 * ihl d.
Let d1 := clear_df rand d.
Let ip := first_header d1 hlen first_dlen.
Let id := if dont_fragment d then u16 rand else word16 d 4.

(** The packet with the first fragment's header. *)
Lemma first_ip :
  bytes_ok ip /\ vlen ip = vlen d /\ click_in_cksum ip hlen = 0 /\ total_length ip = hlen + first_dlen
  /\ (forall i, 0 <= i -> i < 2 \/ 8 <= i < 10 \/ 11 < i -> vget ip i = vget d i) /\ word16 ip 4 = id
  /\ forall k, 0 <= k < 16 ->
     Z.testbit (frag_field ip) k = if k =? 13 then true else if k =? 14 then false else Z.testbit (frag_field d) k.
Proof using Hd Hlen Hfirst Hfit.
  destruct Hd as [Hb Hv H5 Hh Ht]. pose proof (ihl_range d).
  destruct (clear_df_spec rand d Hb ltac:(lia)) as (C1 & C2 & C3 & C4 & C5). fold d1 in C1, C2, C3, C4, C5.
  destruct (first_header_spec d1 hlen first_dlen C1 ltac:(unfold hlen; lia) ltac:(unfold hlen; lia) ltac:(lia) ltac:(unfold hlen; lia))
    as (F1 & F2 & F3 & F4 & F5 & F6). fold ip in F1, F2, F3, F4, F5, F6.
  split; [done|]. split; [lia|]. split; [done|]. split; [done|]. split; [|split].
  - intros i Hi Hne. rewrite F5 by lia. apply C3; lia.
  - unfold id. rewrite <- C5. unfold word16. by rewrite !F5 by lia.
  - intros k Hk. rewrite F6 by lia. destruct (k =? 13); [done|]. by apply C4.
Qed.

Lemma first_good : good_header ip /\ ihl ip = ihl d /\ frag_offset ip = frag_offset d
  /\ more_fragments ip = true /\ dont_fragment ip = false.
Proof using Hd Hlen Hfirst Hfit.
  destruct first_ip as (B1 & B2 & B3 & B4 & B5 & B6 & B7). destruct Hd as [Hb Hv H5 Hh Ht].
  assert (Hi : ihl ip = ihl d) by (unfold ihl; by rewrite B5 by lia).
  split; [constructor; [done|by rewrite B5 by lia|lia|lia]|]. split; [done|].
  split; [|unfold more_fragments, dont_fragment; by rewrite !B7 by lia].
  unfold frag_offset. apply frag_offset_bits. intros k Hk. rewrite B7 by lia.
  by rewrite (proj2 (Z.eqb_neq k 13)), (proj2 (Z.eqb_neq k 14)) by lia.
Qed.

Lemma first_range a b : 4 * ihl d <= a <= b -> b <= vlen d -> range ip a b = range d a b.
Proof using Hd Hlen Hfirst Hfit.
  intros Ha Hb. destruct first_ip as (_ & B2 & _ & _ & B5 & _). pose proof (dg_hlen d Hd).
  apply vec_eq; [rewrite !vlen_range by lia; done|]. intros i Hi. rewrite vlen_range in Hi by lia.
  rewrite !vget_range by lia. apply B5; lia.
Qed.

Lemma had_mf_spec : had_mf d1 = more_fragments d.
Proof using Hd.
  clear Hfirst Hfit. destruct Hd as [Hb Hv H5 Hh Ht]. destruct (clear_df_spec rand d Hb ltac:(lia)) as (C1 & C2 & _ & C4 & _). fold d1 in C1, C2, C4.
  unfold had_mf. change IP_MF with (2 ^ 13). rewrite testbit_flag, frag_bit by (done || lia). by rewrite C4 by lia.
Qed.

(** What the later fragments share with [ip] they share with the packet. *)
Lemma rest_ok mtu f : fragment_ok mtu ip (word16 ip 4) f -> fragment_ok mtu d id f.
Proof using Hd Hlen Hfirst Hfit.
  destruct first_good as (_ & Hih & _). destruct first_ip as (_ & _ & _ & _ & B5 & <- & _). intros [F1 Fh F2 F3 F4 F5 F6].
  constructor; try done; [lia|]. intros i Hi. rewrite F4 by done. apply B5; lia.
Qed.

Lemma first_fragment_ok mtu :
  hlen + first_dlen <= mtu ->
  let f := take (Z.to_nat (hlen + first_dlen)) ip in
  fragment_ok mtu d id f /\ frag_offset f = frag_offset d /\ more_fragments f = true
  /\ payload f = range d hlen (hlen + first_dlen).
Proof using Hd Hlen Hfirst Hfit.
  intros Hm f. destruct first_ip as (B1 & B2 & B3 & B4 & B5 & B6 & B7). destruct first_good as (G1 & G2 & G3 & G4 & G5).
  destruct Hd as [Hb Hv H5 Hh Ht]. assert (Hn : 0 <= hlen) by (unfold hlen; lia).
  assert (Hl : vlen f = hlen + first_dlen) by (apply vlen_take_Z; unfold hlen; lia).
  assert (Hg : forall i, 0 <= i < hlen + first_dlen -> vget f i = vget ip i) by (intros i Hi; by apply vget_take_Z).
  assert (Hi : ihl f = ihl d) by (unfold ihl; rewrite Hg, B5 by (unfold hlen; lia); done).
  assert (Hff : frag_field f = frag_field ip) by (apply frag_field_bytes; apply Hg; unfold hlen; lia).
  split; [constructor|split; [|split]].
  - constructor; [by apply bytes_take|rewrite Hg, B5 by (unfold hlen; lia); done|by rewrite Hi|rewrite Hi, Hl; unfold hlen; lia|].
    rewrite Hl, <- B4. unfold total_length. by rewrite !Hg by (unfold hlen; lia).
  - lia.
  - rewrite Hi. fold hlen. rewrite <- B3. apply cksum_prefix; try (unfold hlen; lia). intros i Hi'. apply Hg. lia.
  - lia.
  - intros i Hi'. rewrite Hg, B5 by (unfold hlen; lia). done.
  - rewrite <- B6. unfold word16. by rewrite !Hg by (unfold hlen; lia).
  - unfold dont_fragment in *. by rewrite Hff.
  - unfold frag_offset. by rewrite Hff.
  - unfold more_fragments in *. by rewrite Hff.
  - unfold payload. rewrite Hi. fold hlen. rewrite <- first_range by (unfold hlen; lia). unfold f, range.
    rewrite Z.add_simpl_l, take_drop_commute. do 2 f_equal. unfold hlen. lia.
Qed.
End first.

(** ** The element *)

Lemma next_fragments_anno fuel mtu p ip mf out_hlen off in_dlen :
  Forall (fun q => dst_anno q = dst_anno p) (next_fragments fuel mtu p ip mf out_hlen off in_dlen).
Proof.
  revert off. induction fuel as [|fuel IH]; intros off; cbn [next_fragments]; [constructor|].
  destruct (off <? in_dlen); constructor; [done|apply IH].
Qed.

(** The bytes behind the transport header of a packet that ends with [ip]. *)
Lemma transport_bytes pre ip out t hlen off n :
  t = vlen pre + hlen -> 0 <= hlen -> 0 <= off -> 0 <= n -> hlen + off + n <= vlen ip ->
  map (pkt_byte (mkPacket (pre ++ ip) out)) (seqZ (t + off) n) = range ip (hlen + off) (hlen + off + n).
Proof.
  intros -> Hh Ho Hn Hl. pose proof (vlen_nonneg pre).
  apply vec_eq; [rewrite vlen_range by lia; unfold vlen; rewrite length_map, length_seqZ; lia|].
  intros i Hi. assert (Hin : 0 <= i < n) by (unfold vlen in Hi; rewrite length_map, length_seqZ in Hi; lia).
  rewrite vget_range by lia.
  rewrite (vget_lookup _ _ (pkt_byte (mkPacket (pre ++ ip) out) (vlen pre + hlen + off + i)));
    [|lia|rewrite list_lookup_fmap, lookup_seqZ_lt by lia; cbn; do 2 f_equal; lia].
  rewrite pkt_byte_in by (unfold pkt_length; cbn [pkt_data]; rewrite vlen_app; lia). cbn [pkt_data].
  rewrite vget_app_r by lia. f_equal. lia.
Qed.

Lemma taken_bytes pre ip out n k m :
  n = vlen pre -> 0 <= m <= vlen ip -> k = vlen (pre ++ ip) - n - m ->
  drop (Z.to_nat n) (pkt_data (pkt_take (mkPacket (pre ++ ip) out) k)) = take (Z.to_nat m) ip.
Proof.
  intros -> Hm ->. unfold pkt_take, pkt_length. cbn [pkt_data]. rewrite vlen_app.
  replace (Z.to_nat (vlen pre + vlen ip - _)) with (length pre + Z.to_nat m)%nat by (unfold vlen; lia).
  rewrite take_app_add. unfold vlen at 1. rewrite Nat2Z.id. apply drop_app_length.
Qed.

Lemma payload_range d : 4 * ihl d <= vlen d -> payload d = range d (4 * ihl d) (vlen d).
Proof.
  intros H. pose proof (ihl_range d). unfold payload, range. symmetry. apply take_ge. unfold vlen in *. rewrite length_drop. lia.
Qed.

(** A datagram that is too long is cut. *)
Definition refuses (s : IPFragmenter) (d : list Z) : bool :=
  (dont_fragment d && honor_df s) || (mtu s - 4 * ihl d <? 8).

(** The identifier of the fragments. *)
Definition fragment_id (rand : Z) (d : list Z) : Z := if dont_fragment d then u16 rand else word16 d 4.

Section element.
Variables (noutputs rand : Z) (s : IPFragmenter) (p : ip_packet).
Let d := datagram_of p.
Hypotheses (Hp : pkt_ok (pkt p)) (Hn : 0 <= network p) (Hd : datagram d) (Ht : transport p = network p + 4 * ihl d)
  (Hmtu : 8 <= mtu s < 2147483648) (Hend : 8 * frag_offset d + (vlen d - 4 * ihl d) <= 65536).

Lemma header_of :
  ip_hl (ip_header p) .<< 2 = 4 * ihl d /\ htons (ip_len (ip_header p)) = vlen d
  /\ negb (ip_off (ip_header p) .& htons IP_DF =? 0) = dont_fragment d.
Proof using Hp Hn Hd.
  destruct Hd as [Hb Hv H5 Hh Htot]. assert (Hg : forall i, 0 <= i < 20 -> vget (ip_header p) i = vget d i).
  { intros i Hi. apply header_byte; [done|lia|]. fold (datagram_of p) d. lia. }
  destruct (ip_header_fields _ d Hg) as (_ & -> & -> & _). destruct (ip_fields d Hb ltac:(lia)) as (_ & E1 & E2 & _).
  rewrite E1, E2, Htot, Z.shiftl_mul_pow2 by lia. change (2 ^ 2) with 4. split; [unfold ihl; lia|]. split; [done|].
  assert (Ho : ip_off (ip_header p) = ip_off d) by (unfold ip_off, word16; by rewrite !Hg by lia).
  rewrite Ho. change IP_DF with (2 ^ 14). rewrite testbit_flag by lia. unfold dont_fragment. by apply frag_bit; lia || done.
Qed.

Lemma datagram_short : vlen d < 65536 /\ pkt_length (pkt p) = network p + vlen d.
Proof using Hp Hn Hd.
  destruct Hd as [Hb Hv H5 Hh Htot]. pose proof (bytes_get d 2 Hb ltac:(lia)). pose proof (bytes_get d 3 Hb ltac:(lia)).
  unfold total_length in Htot. split; [lia|]. unfold d, datagram_of in *. rewrite vlen_drop_Z in Hh by lia.
  pose proof (vlen_drop_Z (pkt_data (pkt p)) (network p) Hn). unfold pkt_length. lia.
Qed.

Lemma fragment_refused :
  refuses s d = true ->
  fragment noutputs rand s p
  = (mkFragmenter (honor_df s) (mtu s) (u32 (frag_drops s + 1)) (frag_count s), if 1 <? noutputs then [(1, p)] else []).
Proof using Hp Hn Hd Hmtu.
  intros Hr. destruct header_of as (E1 & E2 & E3). pose proof (ihl_range d). unfold fragment, refuses in *.
  rewrite E1, E3, room_for_spec by lia.
  assert (He : ((mtu s - 4 * ihl d) / 8 * 8 <? 8) = (mtu s - 4 * ihl d <? 8)).
  { destruct (Z.ltb_spec (mtu s - 4 * ihl d) 8), (Z.ltb_spec ((mtu s - 4 * ihl d) / 8 * 8) 8); Z.div_mod_to_equations; lia. }
  by rewrite He, Hr.
Qed.

Lemma fragment_cuts :
  refuses s d = false -> mtu s < vlen d ->
  exists fs, fragment noutputs rand s p
    = (mkFragmenter (honor_df s) (mtu s) (frag_drops s) (u32 (frag_count s + vlen fs)), map (pair 0) fs)
  /\ Forall (fun q => dst_anno q = dst_anno p) fs /\ Forall marked fs
  /\ Forall (fragment_ok (mtu s) d (fragment_id rand d)) (map datagram_of fs)
  /\ covers_data (frag_offset d) (more_fragments d) (payload d) (map datagram_of fs).
Proof using Hp Hn Hd Ht Hmtu Hend.
  intros Hr Hbig. destruct header_of as (E1 & E2 & E3). destruct datagram_short as [Hs Hpl]. pose proof (ihl_range d) as Hi.
  pose proof (dg_hlen d Hd) as H5. unfold refuses in Hr. apply orb_false_iff in Hr as [Hr1 Hr2]. apply Z.ltb_ge in Hr2.
  unfold fragment. rewrite E1, E2, E3, Hr1, room_for_spec by lia. cbn [orb].
  set (first_dlen := (mtu s - 4 * ihl d) / 8 * 8).
  assert (Hf : (8 <= first_dlen /\ first_dlen mod 8 = 0) /\ 4 * ihl d + first_dlen <= mtu s)
    by (unfold first_dlen; Z.div_mod_to_equations; lia).
  destruct Hf as [Hf Hfm]. rewrite (proj2 (Z.ltb_ge first_dlen 8)) by lia. cbv zeta. fold (datagram_of p) d.
  set (d1 := clear_df rand d). set (ip := first_header d1 (4 * ihl d) first_dlen).
  destruct (first_good rand d first_dlen Hd Hs Hf ltac:(lia)) as (G1 & G2 & G3 & G4 & G5). fold d1 ip in G1, G2, G3, G4, G5.
  destruct (first_ip rand d first_dlen Hd Hs Hf ltac:(lia)) as (B1 & B2 & _). fold d1 ip in B1, B2.
  destruct (first_fragment_ok rand d first_dlen Hd Hs Hf ltac:(lia) (mtu s) Hfm) as (F1 & F2 & F3 & F4). fold d1 ip in F1, F2, F3, F4.
  set (pre := take (Z.to_nat (network p)) (pkt_data (pkt p))) in *.
  assert (Hpre : vlen pre = network p) by (apply vlen_take_Z; unfold pkt_length in Hpl; pose proof (vlen_nonneg d); lia).
  set (q := mkIP (mkPacket (pre ++ ip) (outside (pkt p))) (network p) (transport p) (dst_anno p)).
  eexists. split; [reflexivity|]. split; [constructor; [done|apply (next_fragments_anno _ _ q)]|]. cbn [map]. unfold datagram_of at 1 3.
  assert (Hfirst : drop (Z.to_nat (network p)) (pkt_data (pkt_take (pkt q) (pkt_length (pkt q) - network p - 4 * ihl d - first_dlen)))
    = take (Z.to_nat (4 * ihl d + first_dlen)) ip) by (apply taken_bytes; unfold pkt_length; cbn [pkt q pkt_data]; rewrite ?vlen_app; lia).
  cbn [network pkt]. rewrite Hfirst.
  destruct (next_fragments_spec (mtu s) q ip (had_mf d1)) with (fuel := Z.to_nat (vlen d - 4 * ihl d)) (off := first_dlen) as (N0 & N1 & N2).
  all: rewrite ?G2, ?G3, ?B2; try done; try lia.
  { intros off n Ho Hn' Hl. apply transport_bytes; try lia. cbn [transport q]. lia. }
  assert (Hrange : range ip (4 * ihl d + first_dlen) (vlen d) = range d (4 * ihl d + first_dlen) (vlen d))
    by (apply first_range; done || lia).
  assert (Hmf : had_mf d1 = more_fragments d) by by apply had_mf_spec.
  rewrite B2, G2 in N0, N1, N2. rewrite Hmf in N0, N1, N2 |- *. rewrite G3, Hrange in N2. split; [|split].
  - constructor; [|done]. constructor; cbn [pkt network transport q dst_anno].
    + assert (Hpq : pkt_ok (pkt q)).
      { split; [|apply Hp]. cbn [q pkt pkt_data]. apply Forall_app. split; [apply Forall_take, Hp|done]. }
      split; [by apply Forall_take, Hpq|]. intros i. by apply pkt_byte_range.
    + done.
    + unfold datagram_of. cbn [pkt network]. cbn [pkt q] in Hfirst. rewrite Hfirst, Ht. unfold ihl at 2.
      rewrite vget_take_Z by lia. by rewrite <- G2.
  - constructor; [done|]. eapply Forall_impl; [exact N1|]. intros f Hfo. apply (rest_ok rand d first_dlen); done || lia.
  - apply (covers_snoc _ _ _ _ _ (first_dlen / 8) (range d (4 * ihl d + first_dlen) (vlen d))); [done|done|Z.div_mod_to_equations; lia| | |done].
    + rewrite F4, vlen_range by lia. Z.div_mod_to_equations. lia.
    + rewrite F4, (payload_range d) by lia. apply range_cut; lia.
Qed.
End element.

(** Whoever puts the payloads together by offset has the payload of the packet. *)
Lemma covers_concat o mf data fs : covers_data o mf data fs -> concat (map payload fs) = data.
Proof.
  revert o data. induction fs as [|f fs IH]; intros o data Hc; [done|]. destruct fs as [|g fs].
  - destruct Hc as (_ & _ & <- & _). apply app_nil_r.
  - destruct Hc as (_ & _ & k & rest & _ & _ & -> & Hc). cbn [map concat]. f_equal. by apply (IH (o + k)).
Qed.

(** C9.  A packet within the MTU passes unchanged.  A longer one is refused, on
    output 1 if there is one, when its DF bit is honoured or no 8 bytes of payload
    fit; else it is cut into fragments: each is a datagram within the MTU with a
    valid header checksum, DF clear, the addresses, protocol, TOS and TTL of the
    packet and its identifier (a random one when DF is overridden), and they carry
    its payload in order, at the right offsets, with MF set on all but the last,
    which keeps the flag of the packet, itself possibly a fragment. *)
Theorem fragments_carry_payload (noutputs rand : Z) (s : IPFragmenter) (p : ip_packet) :
  let d := datagram_of p in
  pkt_ok (pkt p) -> 0 <= network p -> datagram d -> transport p = network p + 4 * ihl d ->
  8 <= mtu s < 2147483648 -> 8 * frag_offset d + (vlen d - 4 * ihl d) <= 65536 ->
  let r := fragmenter_push noutputs rand s p in
  if vlen d <=? mtu s then r = (s, [(0, p)])
  else if refuses s d
  then r = (mkFragmenter (honor_df s) (mtu s) (u32 (frag_drops s + 1)) (frag_count s), if 1 <? noutputs then [(1, p)] else [])
  else exists fs,
    r = (mkFragmenter (honor_df s) (mtu s) (frag_drops s) (u32 (frag_count s + vlen fs)), map (pair 0) fs)
    /\ Forall (fun q => dst_anno q = dst_anno p) fs /\ Forall marked fs
    /\ Forall (fragment_ok (mtu s) d (fragment_id rand d)) (map datagram_of fs)
    /\ covers_data (frag_offset d) (more_fragments d) (payload d) (map datagram_of fs)
    /\ concat (map payload (map datagram_of fs)) = payload d.
Proof.
  intros d Hp Hn Hd Ht Hm He r. destruct (datagram_short p Hp Hn Hd) as [_ Hl]. fold d in Hl. subst r. unfold fragmenter_push.
  rewrite Hl, i32_id, Z.add_simpl_l by lia. destruct (Z.leb_spec (vlen d) (mtu s)) as [|Hbig]; [done|].
  destruct (refuses s d) eqn:Hr; [by apply fragment_refused|].
  destruct (fragment_cuts noutputs rand s p Hp Hn Hd Ht Hm He Hr Hbig) as (fs & H1 & H2 & H3 & H4 & H5).
  exists fs. do 5 (split; [done|]). by apply covers_concat in H5.
Qed.

(** Thirty bytes of payload behind an Ethernet header and an IP header with a
    router alert, to be sent in fragments of at most 44 bytes. *)
Definition long_datagram : list Z :=
  [70; 0; 0; 54; 18; 52; 0; 0; 64; 17; 0; 0; 10; 0; 0; 1; 10; 0; 0; 2; 148; 4; 0; 0] ++ seqZ 100 30.
Definition long_frame : ip_packet := mkIP (packet_of (replicate 14 0 ++ long_datagram)) 14 38 7.
Definition sample_fragmenter : IPFragmenter := mkFragmenter false 44 0 0.

Lemma long_frame_bytes : datagram_of long_frame = long_datagram.
Proof. vm_compute. reflexivity. Qed.

Lemma bytes_ok_dec l : forallb (fun b => (0 <=? b) && (b <? 256)) l = true -> bytes_ok l.
Proof.
  intros H. rewrite forallb_forall in H. apply List.Forall_forall. intros b Hb. specialize (H b Hb). bprop. lia.
Qed.

Lemma long_datagram_ok : datagram long_datagram.
Proof.
  constructor; [apply bytes_ok_dec; vm_compute; reflexivity|reflexivity|vm_compute; discriminate|vm_compute; discriminate|reflexivity].
Qed.

Lemma fragments_carry_payload_witness :
  let d := datagram_of long_frame in
  let r := fragmenter_push 1 0 sample_fragmenter long_frame in
  if vlen d <=? mtu sample_fragmenter then r = (sample_fragmenter, [(0, long_frame)])
  else if refuses sample_fragmenter d
  then r = (mkFragmenter false 44 (u32 (0 + 1)) 0, if 1 <? 1 then [(1, long_frame)] else [])
  else exists fs,
    r = (mkFragmenter false 44 0 (u32 (0 + vlen fs)), map (pair 0) fs)
    /\ Forall (fun q => dst_anno q = dst_anno long_frame) fs /\ Forall marked fs
    /\ Forall (fragment_ok 44 d (fragment_id 0 d)) (map datagram_of fs)
    /\ covers_data (frag_offset d) (more_fragments d) (payload d) (map datagram_of fs)
    /\ concat (map payload (map datagram_of fs)) = payload d.
Proof.
  apply (fragments_carry_payload 1 0 sample_fragmenter long_frame).
  - split; [apply bytes_ok_dec; vm_compute; reflexivity|intros i; cbn; lia].
  - cbn. lia.
  - rewrite long_frame_bytes. exact long_datagram_ok.
  - vm_compute. reflexivity.
  - cbn [mtu sample_fragmenter]. lia.
  - vm_compute. discriminate.
Defined.

Example long_frame_fragments :
  map (fun q => (q.1, vlen (datagram_of q.2), frag_offset (datagram_of q.2), more_fragments (datagram_of q.2)))
    (fragmenter_push 1 0 sample_fragmenter long_frame).2 = [(0, 40, 0, true); (0, 38, 2, false)].
Proof. vm_compute. reflexivity. Qed.
