(* ===== verification/Reassemble.v ===== *)
(** * IP reassembly

    [IPReassembler] (elements/ip/ipreassembler.{hh,cc}) keeps the fragments of a
    packet in one buffer, at their offsets.  What has arrived is a list of chunks;
    the first is in the annotations of the buffer, each of the others in the hole
    in front of it, where the chunk before it ends.  A call that would fail an
    assertion, follow a null pointer or never return gives [None].

    The contents of new memory are an argument, as is the clock; buffers can be
    allocated.  MAC header annotations are left out. *)

From S2P Require Import Prelude Packet Insn Words Cksum IPHeader Fragment.
Local Open Scope word_scope.
Local Open Scope Z_scope.

(** ** Memory of a packet *)

(** Storing a byte: some of the packet, some of the buffer around it. *)
Definition poke (p : packet) (i b : Z) : packet :=
  if (0 <=? i) && (i <? pkt_length p) then mkPacket (vset (pkt_data p) i b) (outside p)
  else mkPacket (pkt_data p) (fun j => if j =? i then b else outside p j).

Fixpoint pokes (p : packet) (i : Z) (l : list Z) : packet :=
  match l with
  | [] => p
  | b :: l' => pokes (poke p i b) (i + 1) l'
  end.

Definition peek16 (p : packet) (i : Z) : Z := pkt_byte p i .| (pkt_byte p (i + 1) .<< 8).
Definition poke16 (p : packet) (i v : Z) : packet := pokes p i [v .& 255; (v .>> 8) .& 255].

(** [put(n)] and [push(n)], the new bytes having the contents [junk]. *)
Definition pkt_put (p : packet) (junk : Z -> Z) (n : Z) : packet :=
  mkPacket (pkt_data p ++ map junk (seqZ 0 n)) (outside p).
Definition pkt_push (p : packet) (junk : Z -> Z) (n : Z) : packet :=
  mkPacket (map junk (seqZ 0 n) ++ pkt_data p) (fun i => outside p (i - n)).

Definition transport_length (p : ip_packet) : Z := pkt_length (pkt p) - transport p.
Definition network_length (p : ip_packet) : Z := pkt_length (pkt p) - network p.

(** ** Packets in reassembly *)

Record ChunkLink := mkChunk { c_off : Z; c_lastoff : Z }.

Record rpacket := mkR {
  rip : ip_packet;
  chunk : ChunkLink;             (** [PACKET_CHUNK] *)
  sec : Z;                       (** seconds of the timestamp *)
  mtu_val : Z                    (** the [MAX_MTU_ANNO] annotation *)
}.

Definition with_ip (q : rpacket) (p : ip_packet) : rpacket := mkR p (chunk q) (sec q) (mtu_val q).
Definition with_pkt (q : rpacket) (p : packet) : rpacket :=
  with_ip q (mkIP p (network (rip q)) (transport (rip q)) (dst_anno (rip q))).

Definition tlen (q : rpacket) : Z := transport_length (rip q).
Definition iph (q : rpacket) : list Z := ip_header (rip q).

Definition IP_ISFRAG (h : list Z) : bool := negb (ip_off h .& htons (IP_MF .| IP_OFFMASK) =? 0).
Definition IP_BYTE_OFF (h : list Z) : Z := (htons (ip_off h) .& IP_OFFMASK) .<< 3.
Definition has_mf (q : rpacket) : bool := negb (ip_off (iph q) .& htons IP_MF =? 0).
Definition ip_id (h : list Z) : Z := word16 h 4.

Definition set_ip_off (q : rpacket) (v : Z) : rpacket := with_pkt q (poke16 (pkt (rip q)) (network (rip q) + 6) v).

(** ** Chunks *)

(** Where a [ChunkLink] is. *)
Inductive chunk_ref := Anno | At (o : Z).

Definition read_chunk (q : rpacket) (r : chunk_ref) : ChunkLink :=
  match r with
  | Anno => chunk q
  | At o => let i := transport (rip q) + o in mkChunk (peek16 (pkt (rip q)) i) (peek16 (pkt (rip q)) (i + 2))
  end.

Definition write_chunk (q : rpacket) (r : chunk_ref) (c : ChunkLink) : rpacket :=
  match r with
  | Anno => mkR (rip q) c (sec q) (mtu_val q)
  | At o => let i := transport (rip q) + o in
      with_pkt q (poke16 (poke16 (pkt (rip q)) i (c_off c)) (i + 2) (c_lastoff c))
  end.

Definition next_chunk (q : rpacket) (r : chunk_ref) : option chunk_ref :=
  if tlen q <=? c_lastoff (read_chunk q r) then None else Some (At (c_lastoff (read_chunk q r))).

(** [while (chunk->lastoff < x) chunk = next_chunk(q, chunk);] *)
Fixpoint find_chunk (fuel : nat) (q : rpacket) (r : chunk_ref) (x : Z) : option chunk_ref :=
  match fuel with
  | O => None
  | S fuel' =>
      if c_lastoff (read_chunk q r) <? x
      then next_chunk q r ≫= fun r' => find_chunk fuel' q r' x
      else Some r
  end.

(** More turns than there can be chunks. *)
Definition chunk_fuel (q : rpacket) : nat := S (S (Z.to_nat (tlen q))).

(** ** The element *)

Definition NMAP : Z := 256.
Definition REAP_TIMEOUT : Z := 30.
Definition REAP_INTERVAL : Z := 10.
Definition IPH_MEM_USED : Z := 40.

Record IPReassembler := mkReassembler {
  rmap : list (list rpacket);
  reap_time : Z;
  frags_seen : Z;
  good_assem : Z;
  failed_assem : Z;
  bad_pkts : Z;
  mem_used : Z;
  mem_high_thresh : Z;
  mem_low_thresh : Z;
  mtu_anno : bool                (** [_mtu_anno >= 0] *)
}.

(** [configure] and [initialize] *)
Definition new_reassembler (himem : Z) (mtu_anno : bool) : IPReassembler :=
  mkReassembler (replicate 256 []) 0 0 0 0 0 0 himem (u32 ((himem .>> 2) * 3)) mtu_anno.

Definition with_map (s : IPReassembler) (m : list (list rpacket)) (mem : Z) : IPReassembler :=
  mkReassembler m (reap_time s) (frags_seen s) (good_assem s) (failed_assem s) (bad_pkts s) mem
    (mem_high_thresh s) (mem_low_thresh s) (mtu_anno s).

(** [cleanup]; the packets are killed. *)
Definition reassembler_cleanup (s : IPReassembler) : IPReassembler := with_map s (replicate 256 []) (mem_used s).

Definition bucketno (h : list Z) : Z := ip_id h mod NMAP.
Definition same_segment (h h2 : list Z) : bool :=
  (ip_id h =? ip_id h2) && (ip_p h =? ip_p h2) && (ip_src h =? ip_src h2) && (ip_dst h =? ip_dst h2).

(** [find_queue]: the position in the bucket and the packet there. *)
Fixpoint find_queue (h : list Z) (b : list rpacket) (i : Z) : option (Z * rpacket) :=
  match b with
  | [] => None
  | q :: b' => if same_segment h (iph q) then Some (i, q) else find_queue h b' (i + 1)
  end.

Definition bucket_set (s : IPReassembler) (n i : Z) (q : rpacket) (mem : Z) : IPReassembler :=
  with_map s (vset (rmap s) n (vset (vget (rmap s) n) i q)) mem.
Definition bucket_delete (s : IPReassembler) (n i : Z) (mem : Z) : IPReassembler :=
  with_map s (vset (rmap s) n (delete (Z.to_nat i) (vget (rmap s) n))) mem.

(** What [checked_output_push(1, q)] sends. *)
Definition to_second (noutputs : Z) (qs : list rpacket) : list (Z * rpacket) :=
  if 1 <? noutputs then map (pair 1) qs else [].

(** *** Reaping *)

Definition packet_mem (q : rpacket) : Z := IPH_MEM_USED + tlen q.

(** One bucket of [reap]: what stays, and what goes. *)
Fixpoint reap_bucket (kill_time : Z) (b : list rpacket) (mem : Z) : list rpacket * Z * list rpacket :=
  match b with
  | [] => ([], mem, [])
  | q :: b' =>
      if sec q <? kill_time then
        let '(k, m, gone) := reap_bucket kill_time b' (u32 (mem - packet_mem q)) in (k, m, q :: gone)
      else let '(k, m, gone) := reap_bucket kill_time b' mem in (q :: k, m, gone)
  end.

Fixpoint reap_buckets (kill_time : Z) (bs : list (list rpacket)) (mem : Z) : list (list rpacket) * Z * list rpacket :=
  match bs with
  | [] => ([], mem, [])
  | b :: bs' =>
      let '(k, m, gone) := reap_bucket kill_time b mem in
      let '(ks, m', gone') := reap_buckets kill_time bs' m in (k :: ks, m', gone ++ gone')
  end.

Definition reap (s : IPReassembler) (now : Z) : IPReassembler * list rpacket :=
  let '(m, mem, gone) := reap_buckets (now - REAP_TIMEOUT) (rmap s) (mem_used s) in
  (mkReassembler m (now + REAP_INTERVAL) (frags_seen s) (good_assem s) (failed_assem s) (bad_pkts s) mem
     (mem_high_thresh s) (mem_low_thresh s) (mtu_anno s), gone).

(** One bucket of [reap_overfull]; the flag says that enough memory is free. *)
Fixpoint overfull_bucket (low now delta : Z) (b : list rpacket) (mem : Z) : list rpacket * Z * list rpacket * bool :=
  match b with
  | [] => ([], mem, [], false)
  | q :: b' =>
      if (delta =? 0) || (sec q <? now - delta) then
        let mem := u32 (mem - packet_mem q) in
        if mem <=? low then (b', mem, [q], true)
        else let '(k, m, gone, stop) := overfull_bucket low now delta b' mem in (k, m, q :: gone, stop)
      else let '(k, m, gone, stop) := overfull_bucket low now delta b' mem in (q :: k, m, gone, stop)
  end.

Fixpoint overfull_buckets (low now delta : Z) (bs : list (list rpacket)) (mem : Z)
    : list (list rpacket) * Z * list rpacket * bool :=
  match bs with
  | [] => ([], mem, [], false)
  | b :: bs' =>
      let '(k, m, gone, stop) := overfull_bucket low now delta b mem in
      if stop : bool then (k :: bs', m, gone, true)
      else let '(ks, m', gone', stop) := overfull_buckets low now delta bs' m in (k :: ks, m', gone ++ gone', stop)
  end.

(** The deltas are 10, 5 and 0 seconds. *)
Fixpoint overfull_deltas (low now : Z) (deltas : list Z) (bs : list (list rpacket)) (mem : Z)
    : list (list rpacket) * Z * list rpacket :=
  match deltas with
  | [] => (bs, mem, [])
  | delta :: deltas' =>
      let '(bs', m, gone, stop) := overfull_buckets low now delta bs mem in
      if stop : bool then (bs', m, gone)
      else let '(bs'', m', gone') := overfull_deltas low now deltas' bs' m in (bs'', m', gone ++ gone')
  end.

Definition reap_overfull (s : IPReassembler) (now : Z) : IPReassembler * list rpacket :=
  let '(m, mem, gone) := overfull_deltas (mem_low_thresh s) now [10; 5; 0] (rmap s) (mem_used s) in
  (mkReassembler m (reap_time s) (frags_seen s) (good_assem s) (u32 (failed_assem s + vlen gone)) (bad_pkts s) mem
     (mem_high_thresh s) (mem_low_thresh s) (mtu_anno s), gone).

(** *** Making and extending a packet *)

(** The packet that [make_queue] links in for a first fragment [p]. *)
Definition queue_packet (s : IPReassembler) (junk : Z -> Z) (p : rpacket) : rpacket :=
  let p_off := IP_BYTE_OFF (iph p) in
  let p_lastoff := p_off + tlen p in
  let q :=
    if p_off =? 0 then p
    else
      let m := packet_of (map junk (seqZ 0 (20 + p_lastoff))) in
      let m := pokes m 0 (take 20 (iph p)) in
      let m := pokes m (20 + p_off) (map (pkt_byte (pkt (rip p))) (seqZ (transport (rip p)) (tlen p))) in
      mkR (mkIP m 0 20 0) (mkChunk 0 0) 0 0 in
  let q := set_ip_off q (ip_off (iph q) .& not16 (htons IP_OFFMASK)) in
  mkR (rip q) (mkChunk (u16 p_off) (u16 p_lastoff)) (sec q)
    (if mtu_anno s then u16 (network_length (rip q)) else mtu_val q).

Definition make_queue (s : IPReassembler) (junk : Z -> Z) (p : rpacket) : IPReassembler :=
  let n := bucketno (iph p) in
  with_map s (vset (rmap s) n (queue_packet s junk p :: vget (rmap s) n))
    (u32 (mem_used s + (IPH_MEM_USED + (IP_BYTE_OFF (iph p) + tlen p)))).

(** [put] and [take], then the chunk behind the old end. *)
Definition extend_queue (junk : Z -> Z) (q p : rpacket) (p_off p_lastoff : Z) : rpacket :=
  let old := tlen q in
  let want := p_lastoff - old + 8 + (if has_mf p then p_lastoff - p_off else 0) in
  let q := with_pkt q (pkt_put (pkt (rip q)) junk want) in
  let q := with_pkt q (pkt_take (pkt (rip q)) (tlen q - p_lastoff)) in
  write_chunk q (At old) (mkChunk (u16 p_lastoff) (u16 p_lastoff)).

(** "find chunks before and after p", "patch chunks" *)
Definition patch_chunks (q : rpacket) (p_off p_lastoff : Z) : option rpacket :=
  chunk ← find_chunk (chunk_fuel q) q Anno p_off;
  last ← find_chunk (chunk_fuel q) q chunk p_lastoff;
  let q :=
    if p_lastoff <? c_off (read_chunk q last) then
      let q := write_chunk q (At p_lastoff) (read_chunk q last) in
      write_chunk q chunk (mkChunk (c_off (read_chunk q chunk)) (u16 p_lastoff))
    else write_chunk q chunk (mkChunk (c_off (read_chunk q chunk)) (c_lastoff (read_chunk q last))) in
  Some (if p_off <? c_off (read_chunk q chunk)
        then write_chunk q chunk (mkChunk (u16 p_off) (c_lastoff (read_chunk q chunk))) else q).

Definition copy_payload (q p : rpacket) (p_off p_lastoff : Z) : rpacket :=
  with_pkt q (pokes (pkt (rip q)) (transport (rip q) + p_off)
    (map (pkt_byte (pkt (rip p))) (seqZ (transport (rip p)) (p_lastoff - p_off)))).

(** "copy p's annotations and IP header if it is the first packet" *)
Definition copy_first (s : IPReassembler) (junk : Z -> Z) (q p : rpacket) : rpacket :=
  let old_ip_off := ip_off (iph q) in
  let n := network (rip p) in
  let header_delta := n - network (rip q) in
  let m := pkt (rip q) in
  let m := if 0 <? header_delta then pkt_push m junk header_delta
           else if header_delta <? 0 then pkt_pull m (- header_delta) else m in
  let m := pokes m 0 (map (pkt_byte (pkt (rip p))) (seqZ 0 (transport (rip p)))) in
  let m := poke16 m (n + 6) old_ip_off in
  mkR (mkIP m n (n + (transport (rip p) - n)) (dst_anno (rip p))) (chunk q) (sec p)
    (if mtu_anno s then mtu_val q else mtu_val p).

(** [emit_whole_packet]: the packet *)
Definition whole_packet (q p : rpacket) : rpacket :=
  let n := network (rip q) in
  let q := with_pkt q (poke16 (pkt (rip q)) (n + 2) (htons (network_length (rip q)))) in
  let q := with_pkt q (poke16 (pkt (rip q)) (n + 10) 0) in
  let q := with_pkt q (poke16 (pkt (rip q)) (n + 10) (click_in_cksum (iph q) (ip_hl (iph q) .<< 2))) in
  mkR (rip q) (mkChunk 0 0) (sec p) (mtu_val q).

Definition emit_whole_packet (s : IPReassembler) (n i : Z) (q p : rpacket) : IPReassembler * rpacket :=
  let s' := bucket_delete s n i (u32 (mem_used s - packet_mem (whole_packet q p))) in
  (mkReassembler (rmap s') (reap_time s) (frags_seen s) (u32 (good_assem s + 1)) (failed_assem s) (bad_pkts s)
     (mem_used s') (mem_high_thresh s) (mem_low_thresh s) (mtu_anno s), whole_packet q p).

(** *** [simple_action] *)

(** Joining a fragment [p], cut to its length, to the packet [q] at position [i]
    of bucket [n]; the packet that has been completed, if it has. *)
Definition join_fragment (s : IPReassembler) (junk : Z -> Z) (n i : Z) (q p : rpacket) (p_off p_lastoff : Z)
    : option (IPReassembler * option rpacket) :=
  let q :=
    if mtu_anno s && (mtu_val q <? network_length (rip p))
    then mkR (rip q) (chunk q) (sec q) (u16 (network_length (rip p))) else q in
  let extend := tlen q <? p_lastoff in
  if extend && negb (has_mf q) then Some (bucket_set s n i q (mem_used s), None)
  else if extend && negb (tlen q .& 7 =? 0) then None
  else
    let mem := if extend then u32 (mem_used s + (p_lastoff - tlen q)) else mem_used s in
    let q := if extend then extend_queue junk q p p_off p_lastoff else q in
    q ← patch_chunks q p_off p_lastoff;
    let q := copy_payload q p p_off p_lastoff in
    let q := if p_off =? 0 then copy_first s junk q p else q in
    let q := if negb (has_mf p) then set_ip_off q (ip_off (iph q) .& not16 (htons IP_MF)) else q in
    let s := bucket_set s n i q mem in
    Some (if negb (has_mf q) && (c_off (chunk q) =? 0) && (c_lastoff (chunk q) =? tlen q)
          then let '(s, w) := emit_whole_packet s n i q p in (s, Some w) else (s, None)).

Definition count_frag (s : IPReassembler) (seen bad : Z) : IPReassembler :=
  mkReassembler (rmap s) (reap_time s) (u32 (frags_seen s + seen)) (good_assem s) (failed_assem s) (u32 (bad_pkts s + bad))
    (mem_used s) (mem_high_thresh s) (mem_low_thresh s) (mtu_anno s).

Definition simple_action (noutputs clock : Z) (junk : Z -> Z) (s : IPReassembler) (p : rpacket)
    : option (IPReassembler * option rpacket * list (Z * rpacket)) :=
  if negb (IP_ISFRAG (iph p)) then Some (s, Some p, [])
  else
    let s := count_frag s 1 0 in
    let p := if sec p =? 0 then mkR (rip p) (chunk p) clock (mtu_val p) else p in
    let '(s, gone) := if reap_time s <=? sec p then reap s (sec p) else (s, []) in
    let p_off := IP_BYTE_OFF (iph p) in
    let p_lastoff := p_off + htons (ip_len (iph p)) - (ip_hl (iph p) .<< 2) in
    if (65535 <? p_lastoff) || (p_lastoff <=? p_off) || (negb (p_lastoff .& 7 =? 0) && has_mf p)
       || (tlen p <? p_lastoff - p_off)
    then Some (count_frag s 0 1, None, to_second noutputs gone)
    else
      let p := with_pkt p (pkt_take (pkt (rip p)) (tlen p - (p_lastoff - p_off))) in
      let '(s, gone') := if mem_high_thresh s <? mem_used s then reap_overfull s (sec p) else (s, []) in
      let out := to_second noutputs (gone ++ gone') in
      let n := bucketno (iph p) in
      match find_queue (iph p) (vget (rmap s) n) 0 with
      | None => Some (make_queue s junk p, None, out)
      | Some (i, q) => '(s, w) ← join_fragment s junk n i q p p_off p_lastoff; Some (s, w, out)
      end.

(** *** [check] *)

Fixpoint check_chunks (fuel : nat) (q : rpacket) (r : chunk_ref) (off : Z) : bool :=
  match fuel with
  | O => false
  | S fuel' =>
      let c := read_chunk q r in
      if (c_lastoff c <=? c_off c) || (tlen q <? c_lastoff c) || (negb (off =? 0) && (c_off c <? off + 8)) then false
      else match next_chunk q r with
           | None => true
           | Some r' => check_chunks fuel' q r' (c_lastoff c)
           end
  end.

Definition check_packet (b : Z) (q : rpacket) : bool := (bucketno (iph q) =? b) && check_chunks (chunk_fuel q) q Anno 0.

(** The memory of the packets of a bucket, and of all of them. *)
Definition mem_of (b : list rpacket) : Z := sumf packet_mem b.
Definition total_mem (bs : list (list rpacket)) : Z := sumf mem_of bs.

(** Whether [check] reports nothing. *)
Definition check (s : IPReassembler) : bool :=
  forallb (fun b => forallb (check_packet b) (vget (rmap s) b)) (seqZ 0 NMAP) && (u32 (total_mem (rmap s)) =? mem_used s).
