(* ===== verification/ReassembleSpec.v ===== *)
(** * Reassembly puts fragments together

    How the chunks in the buffer of an [IPReassembler] packet represent the
    intervals that have arrived, and what each step does to them. *)

From S2P Require Import Prelude Packet Insn Words Cksum IPHeader Fragment FragmentSpec Reassemble.
Local Open Scope word_scope.
Local Open Scope Z_scope.

(** ** Memory *)

Lemma pkt_length_poke p i b : pkt_length (poke p i b) = pkt_length p.
Proof. unfold poke, pkt_length. destruct (_ && _); [apply vlen_vset|done]. Qed.

Lemma pkt_byte_poke p i b j : pkt_byte (poke p i b) j = if j =? i then b else pkt_byte p j.
Proof.
  unfold pkt_byte. rewrite pkt_length_poke. unfold poke. destruct (Z.leb_spec 0 i), (Z.ltb_spec i (pkt_length p)); cbn [andb pkt_data outside].
  1: { destruct (Z.eqb_spec j i) as [->|Hne].
       - rewrite (proj2 (Z.leb_le 0 i)), (proj2 (Z.ltb_lt i (pkt_length p))) by lia. cbn [andb]. apply vget_vset_eq. done.
       - by destruct (Z.leb_spec 0 j), (Z.ltb_spec j (pkt_length p)); cbn [andb]; rewrite ?vget_vset_ne by lia. }
  all: destruct (Z.eqb_spec j i) as [Heq|Hne]; destruct (Z.leb_spec 0 j), (Z.ltb_spec j (pkt_length p)); cbn [andb]; lia || done.
Qed.

Lemma pkt_length_pokes p i l : pkt_length (pokes p i l) = pkt_length p.
Proof. revert p i. induction l as [|b l IH]; intros p i; cbn [pokes]; [done|]. by rewrite IH, pkt_length_poke. Qed.

Lemma pkt_byte_pokes p i l j :
  pkt_byte (pokes p i l) j = if (i <=? j) && (j <? i + vlen l) then vget l (j - i) else pkt_byte p j.
Proof.
  revert p i. induction l as [|b l IH]; intros p i; cbn [pokes].
  - change (vlen (@nil Z)) with 0. destruct (Z.leb_spec i j), (Z.ltb_spec j (i + 0)); lia || done.
  - rewrite IH, pkt_byte_poke, vlen_cons. pose proof (vlen_nonneg l).
    destruct (Z.eqb_spec j i) as [->|Hne].
    + rewrite (proj2 (Z.leb_gt (i + 1) i)), (proj2 (Z.leb_le i i)), (proj2 (Z.ltb_lt i (i + (vlen l + 1)))) by lia.
      cbn [andb]. by rewrite Z.sub_diag, vget_cons_0.
    + destruct (Z.leb_spec (i + 1) j), (Z.ltb_spec j (i + 1 + vlen l)), (Z.leb_spec i j), (Z.ltb_spec j (i + (vlen l + 1)));
        cbn [andb]; try lia; try done.
      rewrite vget_cons_S by lia. f_equal. lia.
Qed.

Lemma pkt_byte_take p n j : 0 <= n <= pkt_length p -> pkt_byte (pkt_take p n) j = pkt_byte p j.
Proof.
  intros Hn. unfold pkt_take. unfold pkt_byte at 1. unfold pkt_length at 1. cbn [pkt_data outside].
  rewrite vlen_take_Z by (unfold pkt_length in *; lia).
  destruct (Z.leb_spec 0 j), (Z.ltb_spec j (pkt_length p - n)); cbn [andb]; try done.
  rewrite vget_take_Z by lia. by rewrite pkt_byte_in by lia.
Qed.

Lemma pkt_length_take p n : 0 <= n <= pkt_length p -> pkt_length (pkt_take p n) = pkt_length p - n.
Proof. intros Hn. unfold pkt_length, pkt_take in *. cbn [pkt_data]. apply vlen_take_Z. unfold pkt_length in *. lia. Qed.

Lemma vlen_junk (junk : Z -> Z) n : 0 <= n -> vlen (map junk (seqZ 0 n)) = n.
Proof. intros Hn. unfold vlen. rewrite length_map, length_seqZ. lia. Qed.

Lemma vget_map_seqZ (f : Z -> Z) a n i : 0 <= i < n -> vget (map f (seqZ a n)) i = f (a + i).
Proof.
  intros Hi. apply vget_lookup; [lia|]. rewrite list_lookup_fmap, lookup_seqZ_lt by lia. cbn. do 2 f_equal. lia.
Qed.

Lemma pkt_length_put p junk n : 0 <= n -> pkt_length (pkt_put p junk n) = pkt_length p + n.
Proof. intros Hn. unfold pkt_length, pkt_put. cbn [pkt_data]. by rewrite vlen_app, vlen_junk. Qed.

Lemma pkt_byte_put p junk n j :
  0 <= n -> pkt_byte (pkt_put p junk n) j =
    if (pkt_length p <=? j) && (j <? pkt_length p + n) then junk (j - pkt_length p) else pkt_byte p j.
Proof.
  intros Hn. unfold pkt_byte. rewrite pkt_length_put by done. unfold pkt_put, pkt_length. cbn [pkt_data outside].
  pose proof (vlen_nonneg (pkt_data p)).
  destruct (Z.leb_spec 0 j), (Z.ltb_spec j (vlen (pkt_data p) + n)), (Z.leb_spec (vlen (pkt_data p)) j), (Z.ltb_spec j (vlen (pkt_data p)));
    cbn [andb]; try lia; try done.
  - rewrite vget_app_r, vget_map_seqZ by lia. done.
  - by rewrite vget_app_l by lia.
Qed.

Lemma pkt_length_push p junk n : 0 <= n -> pkt_length (pkt_push p junk n) = pkt_length p + n.
Proof. intros Hn. unfold pkt_length, pkt_push. cbn [pkt_data]. rewrite vlen_app, vlen_junk by done. lia. Qed.

Lemma pkt_byte_push p junk n j :
  0 <= n -> pkt_byte (pkt_push p junk n) j = if (0 <=? j) && (j <? n) then junk j else pkt_byte p (j - n).
Proof.
  intros Hn. unfold pkt_byte. rewrite pkt_length_push by done. unfold pkt_push, pkt_length. cbn [pkt_data outside].
  pose proof (vlen_nonneg (pkt_data p)).
  destruct (Z.leb_spec 0 j), (Z.ltb_spec j (vlen (pkt_data p) + n)), (Z.ltb_spec j n), (Z.leb_spec 0 (j - n)),
    (Z.ltb_spec (j - n) (vlen (pkt_data p))); cbn [andb]; try lia; try done.
  - rewrite vget_app_l, vget_map_seqZ by (rewrite ?vlen_junk; lia). done.
  - rewrite vget_app_r by (rewrite vlen_junk; lia). by rewrite vlen_junk by lia.
Qed.

Lemma pkt_length_pull p n : 0 <= n <= pkt_length p -> pkt_length (pkt_pull p n) = pkt_length p - n.
Proof.
  intros Hn. unfold pkt_pull. rewrite Z.min_l by lia. unfold pkt_length in *. cbn [pkt_data]. rewrite vlen_drop_Z by lia. lia.
Qed.

Lemma pkt_byte_pull p n j : 0 <= n <= pkt_length p -> pkt_byte (pkt_pull p n) j = pkt_byte p (j + n).
Proof.
  intros Hn. unfold pkt_byte at 1. rewrite pkt_length_pull by done. unfold pkt_pull. rewrite Z.min_l by lia. cbn [pkt_data outside].
  destruct (Z.leb_spec 0 j), (Z.ltb_spec j (pkt_length p - n)); cbn [andb]; try done.
  rewrite vget_drop_Z by lia. rewrite pkt_byte_in by lia. f_equal. lia.
Qed.

(** ** Chunks in the buffer *)

(** The bytes behind the transport header. *)
Definition qbyte (q : rpacket) (o : Z) : Z := pkt_byte (pkt (rip q)) (transport (rip q) + o).

(** A step that changes the buffer from the transport header on, and no length. *)
Record same_shape (q q' : rpacket) : Prop := {
  sh_length : pkt_length (pkt (rip q')) = pkt_length (pkt (rip q));
  sh_network : network (rip q') = network (rip q);
  sh_transport : transport (rip q') = transport (rip q);
  sh_dst : dst_anno (rip q') = dst_anno (rip q);
  sh_sec : sec q' = sec q;
  sh_mtu : mtu_val q' = mtu_val q
}.

Lemma same_shape_refl q : same_shape q q.
Proof. by constructor. Qed.
Lemma same_shape_trans q1 q2 q3 : same_shape q1 q2 -> same_shape q2 q3 -> same_shape q1 q3.
Proof. intros [] []. constructor; congruence. Qed.
#[local] Hint Resolve same_shape_refl : click.

Lemma shape_tlen q q' : same_shape q q' -> tlen q' = tlen q.
Proof. intros []. unfold tlen, transport_length. congruence. Qed.

Lemma shape_pokes q i l : same_shape q (with_pkt q (pokes (pkt (rip q)) i l)).
Proof. constructor; try done. apply pkt_length_pokes. Qed.

Lemma qbyte_pokes q i l o :
  qbyte (with_pkt q (pokes (pkt (rip q)) (transport (rip q) + i) l)) o =
    if (i <=? o) && (o <? i + vlen l) then vget l (o - i) else qbyte q o.
Proof.
  unfold qbyte, with_pkt, with_ip. cbn [rip pkt transport]. rewrite pkt_byte_pokes.
  replace (transport (rip q) + o - (transport (rip q) + i)) with (o - i) by lia.
  assert (E1 : (transport (rip q) + i <=? transport (rip q) + o) = (i <=? o)) by (destruct (Z.leb_spec i o), (Z.leb_spec (transport (rip q) + i) (transport (rip q) + o)); lia || done).
  assert (E2 : (transport (rip q) + o <? transport (rip q) + i + vlen l) = (o <? i + vlen l))
    by (destruct (Z.ltb_spec o (i + vlen l)), (Z.ltb_spec (transport (rip q) + o) (transport (rip q) + i + vlen l)); lia || done).
  by rewrite E1, E2.
Qed.

Lemma write_chunk_pokes q o c :
  write_chunk q (At o) c = with_pkt q (pokes (pkt (rip q)) (transport (rip q) + o)
    [c_off c .& 255; (c_off c .>> 8) .& 255; c_lastoff c .& 255; (c_lastoff c .>> 8) .& 255]).
Proof. unfold write_chunk, poke16. cbn [pokes]. do 2 f_equal; try lia. f_equal; lia. Qed.

Lemma shape_write q r c : same_shape q (write_chunk q r c).
Proof. destruct r; [by constructor|]. rewrite write_chunk_pokes. apply shape_pokes. Qed.

Lemma qbyte_write q r c i :
  (forall o, r = At o -> i < o \/ o + 4 <= i) -> qbyte (write_chunk q r c) i = qbyte q i.
Proof.
  destruct r as [|o]; intros H; [done|]. specialize (H o eq_refl). rewrite write_chunk_pokes, qbyte_pokes.
  change (vlen _) with 4. destruct (Z.leb_spec o i), (Z.ltb_spec i (o + 4)); cbn [andb]; lia || done.
Qed.

Lemma chunk_write q o c : chunk (write_chunk q (At o) c) = chunk q.
Proof. done. Qed.

Lemma read_at q o : read_chunk q (At o) =
  mkChunk (qbyte q o .| (qbyte q (o + 1) .<< 8)) (qbyte q (o + 2) .| (qbyte q (o + 3) .<< 8)).
Proof. unfold read_chunk, peek16, qbyte. f_equal; [f_equal; do 2 f_equal; lia|f_equal; [f_equal; lia|do 2 f_equal; lia]]. Qed.

Definition chunk_ok (c : ChunkLink) : Prop := 0 <= c_off c < 65536 /\ 0 <= c_lastoff c < 65536.

Lemma join16 v : 0 <= v < 65536 -> (v .& 255) .| (((v .>> 8) .& 255) .<< 8) = v.
Proof. intros Hv. rewrite two_bytes by apply low_byte. by apply split16. Qed.

Lemma read_write q r c : chunk_ok c -> read_chunk (write_chunk q r c) r = c.
Proof.
  intros [H1 H2]. destruct r as [|o]; [done|]. rewrite read_at, write_chunk_pokes, !qbyte_pokes. change (vlen _) with 4.
  destruct (Z.leb_spec o o), (Z.leb_spec o (o + 1)), (Z.leb_spec o (o + 2)), (Z.leb_spec o (o + 3)); try lia.
  destruct (Z.ltb_spec o (o + 4)), (Z.ltb_spec (o + 1) (o + 4)), (Z.ltb_spec (o + 2) (o + 4)), (Z.ltb_spec (o + 3) (o + 4)); try lia.
  cbn [andb]. replace (o - o) with 0 by lia. replace (o + 1 - o) with 1 by lia. replace (o + 2 - o) with 2 by lia. replace (o + 3 - o) with 3 by lia.
  destruct c as [c1 c2]. cbn [c_off c_lastoff] in *. f_equal; by apply join16.
Qed.

(** Chunks are read from their own bytes. *)
Lemma read_same q q' r :
  (r = Anno -> chunk q' = chunk q) -> (forall o i, r = At o -> o <= i < o + 4 -> qbyte q' i = qbyte q i) ->
  read_chunk q' r = read_chunk q r.
Proof.
  intros H1 H2. destruct r as [|o]; [by apply H1|]. rewrite !read_at.
  rewrite (H2 o o), (H2 o (o + 1)), (H2 o (o + 2)), (H2 o (o + 3)) by (done || lia). done.
Qed.

(** The chunks [cs] are linked from [r] on. *)
Fixpoint links (q : rpacket) (r : chunk_ref) (cs : list ChunkLink) : Prop :=
  match cs with
  | [] => True
  | c :: cs' => read_chunk q r = c /\ links q (At (c_lastoff c)) cs'
  end.

(** Where the chunk behind [pre] is. *)
Fixpoint loc (r : chunk_ref) (pre : list ChunkLink) : chunk_ref :=
  match pre with
  | [] => r
  | c :: pre' => loc (At (c_lastoff c)) pre'
  end.

Lemma links_app q r pre cs : links q r (pre ++ cs) <-> links q r pre /\ links q (loc r pre) cs.
Proof.
  revert r. induction pre as [|c pre IH]; intros r; cbn [app links loc]; [tauto|]. rewrite IH. tauto.
Qed.

(** Intervals in order, from [lo] on. *)
Fixpoint sorted (lo : Z) (cs : list ChunkLink) : Prop :=
  match cs with
  | [] => True
  | c :: cs' => lo <= c_off c <= c_lastoff c /\ sorted (c_lastoff c + 1) cs'
  end.

(** Where [cs] ends. *)
Fixpoint end_of (x : Z) (cs : list ChunkLink) : Z :=
  match cs with
  | [] => x
  | c :: cs' => end_of (c_lastoff c) cs'
  end.

Lemma end_of_app x cs1 cs2 : end_of x (cs1 ++ cs2) = end_of (end_of x cs1) cs2.
Proof. revert x. induction cs1 as [|c cs1 IH]; intros x; cbn [app end_of]; auto. Qed.

Lemma sorted_app lo cs1 cs2 :
  sorted lo (cs1 ++ cs2) <-> sorted lo cs1 /\ sorted (end_of (lo - 1) cs1 + 1) cs2.
Proof.
  revert lo. induction cs1 as [|c cs1 IH]; intros lo; cbn [app sorted end_of].
  - rewrite Z.sub_add. tauto.
  - rewrite IH. rewrite Z.add_simpl_r. tauto.
Qed.

Lemma sorted_end lo cs : sorted lo cs -> lo - 1 <= end_of (lo - 1) cs.
Proof.
  revert lo. induction cs as [|c cs IH]; intros lo; cbn [sorted end_of]; [lia|]. intros [H1 H2]. apply IH in H2.
  rewrite Z.add_simpl_r in H2. lia.
Qed.

Lemma sorted_weaken lo lo' cs : lo' <= lo -> sorted lo cs -> sorted lo' cs.
Proof. destruct cs as [|c cs]; cbn [sorted]; [done|]. intros H [H1 H2]. split; [lia|done]. Qed.

Lemma sorted_bounds lo cs c : sorted lo cs -> c ∈ cs -> lo <= c_off c <= c_lastoff c /\ c_lastoff c <= end_of (lo - 1) cs.
Proof.
  revert lo. induction cs as [|d cs IH]; intros lo Hs Hc; [by apply elem_of_nil in Hc|]. cbn [sorted end_of] in *.
  destruct Hs as [H1 H2]. pose proof (sorted_end _ _ H2) as He. rewrite Z.add_simpl_r in He.
  apply elem_of_cons in Hc as [->|Hc]; [lia|]. specialize (IH _ H2 Hc). rewrite Z.add_simpl_r in IH. lia.
Qed.

Lemma sorted_length lo cs : sorted lo cs -> Z.of_nat (length cs) <= end_of (lo - 1) cs - (lo - 1).
Proof.
  revert lo. induction cs as [|c cs IH]; intros lo; cbn [sorted end_of length]; [lia|]. intros [H1 H2]. apply IH in H2.
  rewrite Z.add_simpl_r in H2. lia.
Qed.

(** Finding the chunk that ends at [x] or behind. *)
Lemma find_chunk_spec fuel q r cs lo x :
  links q r cs -> sorted lo cs -> end_of (lo - 1) cs = tlen q -> lo <= x <= tlen q -> (length cs < fuel)%nat ->
  exists pre c rest, cs = pre ++ c :: rest /\ find_chunk fuel q r x = Some (loc r pre)
    /\ Forall (fun c => c_lastoff c < x) pre /\ x <= c_lastoff c.
Proof.
  revert fuel r lo. induction cs as [|c cs IH]; intros fuel r lo Hl Hs He Hx Hf; cbn [end_of sorted links length] in *; [lia|].
  destruct fuel as [|fuel]; [lia|]. destruct Hl as [Hr Hl], Hs as [Hc Hs]. cbn [find_chunk]. rewrite Hr.
  destruct (Z.ltb_spec (c_lastoff c) x) as [Hlt|Hge]; [|by exists [], c, cs].
  unfold next_chunk. rewrite Hr, (proj2 (Z.leb_gt (tlen q) (c_lastoff c))) by lia. cbn [mbind option_bind].
  destruct (IH fuel (At (c_lastoff c)) (c_lastoff c + 1)) as (pre & d & rest & -> & Hfind & Hpre & Hd);
    [done|done|by rewrite Z.add_simpl_r|lia|lia|].
  exists (c :: pre), d, rest. split; [done|]. split; [done|]. split; [by constructor|done].
Qed.

(** Chunks behind [o] do not see changes in front of it. *)
Lemma links_above q q' o cs :
  (forall i, o <= i -> qbyte q' i = qbyte q i) -> sorted (o + 1) cs -> links q (At o) cs -> links q' (At o) cs.
Proof.
  revert o. induction cs as [|c cs IH]; intros o Hi Hs Hl; [done|]. cbn [links sorted] in *. destruct Hl as [Hr Hl], Hs as [H1 H2].
  split.
  - rewrite <- Hr. apply read_same; [done|]. intros o' i [= <-] Hi'. apply Hi. lia.
  - apply IH; [|done|done]. intros i Hi'. apply Hi. lia.
Qed.

Definition ends_aligned (cs : list ChunkLink) : Prop := Forall (fun c => c_lastoff c mod 8 = 0) cs.

(** Chunks in front of [x], the last of which ends there, do not see changes behind it. *)
Lemma links_below_at q q' o cs :
  o mod 8 = 0 -> ends_aligned cs -> (forall i, i < end_of o cs -> qbyte q' i = qbyte q i) -> sorted (o + 1) cs ->
  links q (At o) cs -> links q' (At o) cs.
Proof.
  revert o. induction cs as [|c cs IH]; intros o Ho Ha Hi Hs Hl; [done|]. cbn [links sorted end_of] in *.
  destruct Hl as [Hr Hl], Hs as [H1 H2]. apply Forall_cons in Ha as [Ha1 Ha2].
  pose proof (sorted_end _ _ H2) as He. rewrite Z.add_simpl_r in He. split.
  - rewrite <- Hr. apply read_same; [done|]. intros o' i [= <-] Hi'. apply Hi. Z.div_mod_to_equations. lia.
  - by apply IH.
Qed.

Lemma links_below q q' cs :
  ends_aligned cs -> (cs <> [] -> chunk q' = chunk q) -> (forall i, i < end_of (-1) cs -> qbyte q' i = qbyte q i) -> sorted 0 cs ->
  links q Anno cs -> links q' Anno cs.
Proof.
  intros Ha Hc Hi Hs Hl. destruct cs as [|c cs]; [done|]. cbn [links sorted end_of] in *. destruct Hl as [Hr Hl], Hs as [H1 H2].
  apply Forall_cons in Ha as [Ha1 Ha2]. split.
  - rewrite <- Hr. by apply Hc.
  - by apply (links_below_at q).
Qed.

Lemma loc_cases pre : (pre = [] /\ loc Anno pre = Anno) \/ (pre <> [] /\ loc Anno pre = At (end_of (-1) pre)).
Proof.
  destruct pre as [|c pre]; [by left|]. right. split; [done|]. cbn [loc end_of]. generalize (c_lastoff c). induction pre as [|d pre IH]; intros x; [done|].
  cbn [loc end_of]. apply IH.
Qed.

Lemma loc_app r cs1 cs2 : loc r (cs1 ++ cs2) = loc (loc r cs1) cs2.
Proof. revert r. induction cs1 as [|c cs1 IH]; intros r; cbn [app loc]; auto. Qed.

Lemma end_of_lt x y cs : y < x -> Forall (fun c => c_lastoff c < x) cs -> end_of y cs < x.
Proof. revert y. induction cs as [|c cs IH]; intros y Hy Hc; [done|]. apply Forall_cons in Hc as [H1 H2]. cbn [end_of]. by apply IH. Qed.

Lemma end_of_aligned x cs : cs <> [] -> ends_aligned cs -> end_of x cs mod 8 = 0.
Proof.
  revert x. induction cs as [|c cs IH]; intros x Hne Ha; [done|]. apply Forall_cons in Ha as [H1 H2]. cbn [end_of].
  destruct cs as [|d cs]; [done|]. by apply IH.
Qed.

(** ** Patching the chunks *)

(** Storing a chunk, then lowering where it starts. *)
Lemma store_chunk_spec q r m a :
  chunk_ok m -> 0 <= a < 65536 ->
  let q2 := write_chunk q r m in
  let q3 := if a <? c_off (read_chunk q2 r) then write_chunk q2 r (mkChunk (u16 a) (c_lastoff (read_chunk q2 r))) else q2 in
  read_chunk q3 r = mkChunk (Z.min a (c_off m)) (c_lastoff m) /\ same_shape q q3
  /\ (forall i, (forall o, r = At o -> i < o \/ o + 4 <= i) -> qbyte q3 i = qbyte q i) /\ (r <> Anno -> chunk q3 = chunk q).
Proof.
  intros Hm Ha q2 q3. unfold q3. assert (E : read_chunk q2 r = m) by by apply read_write. rewrite E.
  assert (Hu : u16 a = a) by (apply Z.mod_small; lia). rewrite Hu. destruct (Z.ltb_spec a (c_off m)).
  - split; [rewrite read_write by (split; [done|apply Hm]); by rewrite Z.min_l by lia|].
    split; [exact (same_shape_trans _ _ _ (shape_write _ _ _) (shape_write _ _ _))|]. split; [intros i Hi; rewrite qbyte_write by done; by apply qbyte_write|]. by destruct r.
  - split; [rewrite E, Z.min_r by lia; by destruct m|]. split; [apply shape_write|]. split; [intros i Hi; by apply qbyte_write|by destruct r].
Qed.

(** What becomes of [pre ++ c :: .. l :: post] when [a, b) is added. *)
Definition joined (a b : Z) (pre : list ChunkLink) (c l : ChunkLink) (post : list ChunkLink) : list ChunkLink :=
  pre ++ (if b <? c_off l then [mkChunk (Z.min a (c_off c)) b; l] else [mkChunk (Z.min a (c_off c)) (c_lastoff l)]) ++ post.

(** The bytes that patching may change. *)
Definition patched (b : Z) (pre : list ChunkLink) (l : ChunkLink) (i : Z) : Prop :=
  (pre <> [] /\ end_of (-1) pre <= i < end_of (-1) pre + 4) \/ (b < c_off l /\ b <= i < b + 4).

Lemma loc_at pre x :
  ends_aligned pre -> x mod 8 = 0 -> 0 <= x -> Forall (fun c => c_lastoff c < x) pre ->
  forall o, loc Anno pre = At o -> o = end_of (-1) pre /\ pre <> [] /\ o + 8 <= x.
Proof.
  intros Ha Hx H0 Hpre o Ho. destruct (loc_cases pre) as [[_ E]|[Hne E]]; rewrite E in Ho; [done|]. injection Ho as <-.
  pose proof (end_of_aligned (-1) pre Hne Ha). pose proof (end_of_lt x (-1) pre ltac:(lia) Hpre).
  split; [done|]. split; [done|]. Z.div_mod_to_equations. lia.
Qed.

(** The list up to a chunk that has been stored, once [a, b) has been filled in. *)
Lemma relink q q3 q'' pre m tail a b :
  links q Anno pre -> ends_aligned pre -> sorted 0 pre -> a mod 8 = 0 -> 0 <= a -> Forall (fun c => c_lastoff c < a) pre ->
  read_chunk q3 (loc Anno pre) = m -> (loc Anno pre <> Anno -> chunk q3 = chunk q) ->
  (forall i, i < end_of (-1) pre -> qbyte q3 i = qbyte q i) ->
  chunk q'' = chunk q3 -> (forall i, ~ a <= i < b -> qbyte q'' i = qbyte q3 i) ->
  links q'' (At (c_lastoff m)) tail -> links q'' Anno (pre ++ m :: tail).
Proof.
  intros L Ha Hs H8 H0 Hlt Hm Hc Hq3 Hc'' Hq'' Ht. pose proof (end_of_lt a (-1) pre ltac:(lia) Hlt) as He. apply links_app. split.
  - apply (links_below q); [done| |intros i Hi; rewrite Hq'', Hq3 by lia; done|done|done].
    intros Hne. rewrite Hc''. apply Hc. destruct (loc_cases pre) as [[E _]|[_ ->]]; done.
  - split; [|done]. rewrite <- Hm. apply read_same; [done|]. intros o i Ho Hi.
    destruct (loc_at pre a Ha H8 H0 Hlt o Ho) as (_ & _ & ?). apply Hq''. lia.
Qed.

Lemma not_patched b pre l i :
  ~ patched b pre l i <->
  (pre <> [] -> i < end_of (-1) pre \/ end_of (-1) pre + 4 <= i) /\ (b < c_off l -> i < b \/ b + 4 <= i).
Proof.
  unfold patched. split.
  - intros H. split; [intros Hne; destruct (Z.lt_ge_cases i (end_of (-1) pre)), (Z.lt_ge_cases i (end_of (-1) pre + 4)); try lia; exfalso; apply H; left; lia || done|].
    intros Hb. destruct (Z.lt_ge_cases i b), (Z.lt_ge_cases i (b + 4)); try lia.
  - intros [H1 H2] [[Hne Hi]|[Hb Hi]]; [specialize (H1 Hne)|specialize (H2 Hb)]; lia.
Qed.

Section patch.
Variables (q : rpacket) (cs : list ChunkLink) (a b : Z).
Hypotheses (Hlinks : links q Anno cs) (Hsorted : sorted 0 cs) (Hend : end_of (-1) cs = tlen q) (Hlen : tlen q < 65536)
  (Hab : 0 <= a < b) (Hb : b <= tlen q) (Ha8 : a mod 8 = 0)
  (Hgap : forall c, c ∈ cs -> b < c_off c -> c_off c mod 8 = 0 /\ b mod 8 = 0)
  (Hends : forall c, c ∈ cs -> c_lastoff c < tlen q -> c_lastoff c mod 8 = 0).

Lemma chunks_found :
  exists pre c rest mid l post, cs = pre ++ c :: rest /\ c :: rest = mid ++ l :: post
    /\ Forall (fun c => c_lastoff c < a) pre /\ a <= c_lastoff c /\ Forall (fun c => c_lastoff c < b) mid /\ b <= c_lastoff l
    /\ find_chunk (chunk_fuel q) q Anno a = Some (loc Anno pre)
    /\ find_chunk (chunk_fuel q) q (loc Anno pre) b = Some (loc Anno (pre ++ mid)).
Proof using Hlinks Hsorted Hend Hlen Hab Hb.
  pose proof (sorted_length 0 cs Hsorted) as Hn. change (0 - 1) with (-1) in Hn.
  assert (Hfuel : (length cs < chunk_fuel q)%nat) by (unfold chunk_fuel; lia).
  destruct (find_chunk_spec (chunk_fuel q) q Anno cs 0 a Hlinks Hsorted Hend ltac:(lia) Hfuel) as (pre & c & rest & E1 & F1 & P1 & C1).
  pose proof Hlinks as Hl. rewrite E1 in Hl. apply links_app in Hl as [Hl1 Hl2].
  pose proof Hsorted as Hs. rewrite E1 in Hs. apply sorted_app in Hs as [Hs1 Hs2]. change (0 - 1) with (-1) in Hs2.
  pose proof Hend as He. rewrite E1, end_of_app in He.
  pose proof (end_of_lt a (-1) pre ltac:(lia) P1) as Hlo.
  destruct (find_chunk_spec (chunk_fuel q) q (loc Anno pre) (c :: rest) (end_of (-1) pre + 1) b) as (mid & l & post & E2 & F2 & P2 & C2);
    [done|done|by rewrite Z.add_simpl_r|lia| |].
  { rewrite E1, length_app in Hfuel. lia. }
  exists pre, c, rest, mid, l, post. rewrite loc_app. done.
Qed.

Lemma patch_chunks_spec :
  exists pre c rest mid l post q', cs = pre ++ c :: rest /\ c :: rest = mid ++ l :: post
    /\ Forall (fun c => c_lastoff c < a) pre /\ a <= c_lastoff c /\ Forall (fun c => c_lastoff c < b) mid /\ b <= c_lastoff l
    /\ patch_chunks q a b = Some q' /\ same_shape q q'
    /\ (forall i, ~ patched b pre l i -> qbyte q' i = qbyte q i)
    /\ forall q'', chunk q'' = chunk q' -> (forall i, ~ a <= i < b -> qbyte q'' i = qbyte q' i) ->
       links q'' Anno (joined a b pre c l post).
Proof using All.
  destruct chunks_found as (pre & c & rest & mid & l & post & E1 & E2 & P1 & C1 & P2 & C2 & F1 & F2).
  exists pre, c, rest, mid, l, post.
  assert (Hc : c ∈ cs) by (rewrite E1; set_solver). assert (Hl : l ∈ cs) by (rewrite E1, E2; set_solver).
  pose proof (sorted_bounds 0 cs c Hsorted Hc) as Bc. pose proof (sorted_bounds 0 cs l Hsorted Hl) as Bl.
  change (0 - 1) with (-1) in Bc, Bl. assert (Hok : chunk_ok c /\ chunk_ok l) by (unfold chunk_ok; lia). destruct Hok as [Okc Okl].
  assert (Hpre : ends_aligned pre).
  { apply List.Forall_forall. intros d Hd%list_elem_of_In. apply Hends; [rewrite E1; set_solver|].
    rewrite Forall_forall in P1. specialize (P1 d Hd). lia. }
  pose proof (end_of_lt a (-1) pre ltac:(lia) P1) as Hea.
  pose proof (loc_at pre a Hpre Ha8 ltac:(lia) P1) as Hloc.
  pose proof Hsorted as Hs. rewrite E1, E2 in Hs. apply sorted_app in Hs as [Hs1 Hs2]. apply sorted_app in Hs2 as [_ [_ Hs3]].
  pose proof Hlinks as L. rewrite E1, E2, app_assoc in L. apply links_app in L as [L1 [Rl L2]].
  pose proof Hlinks as L. rewrite E1 in L. apply links_app in L as [L3 [Rc _]].
  unfold patch_chunks. rewrite F1. cbn [mbind option_bind]. rewrite F2. cbn [mbind option_bind]. rewrite Rl.
  destruct (Z.ltb_spec b (c_off l)) as [Hgt|Hle].
  - destruct (Hgap l Hl Hgt) as [Hl8 Hb8]. assert (Hbl : b + 8 <= c_off l) by (Z.div_mod_to_equations; lia).
    set (q1 := write_chunk q (At b) l). assert (Hq1 : read_chunk q1 (loc Anno pre) = c).
    { rewrite <- Rc. apply read_same; [done|]. intros o i Ho Hi. destruct (Hloc o Ho) as (_ & _ & ?). apply qbyte_write. intros o' [= <-]. lia. }
    assert (Hub : u16 b = b) by (apply Z.mod_small; lia). rewrite Hq1, Hub. set (m := mkChunk (c_off c) b).
    destruct (store_chunk_spec q1 (loc Anno pre) m a ltac:(unfold chunk_ok; cbn; lia) ltac:(lia)) as (S1 & S2 & S3 & S4).
    set (q3 := if a <? _ then _ else _) in *. exists q3. do 7 (split; [done|]).
    split; [exact (same_shape_trans _ _ _ (shape_write _ _ _) S2)|].
    assert (Hq3 : forall i, ~ patched b pre l i -> qbyte q3 i = qbyte q i).
    { intros i [Hi1 Hi2]%not_patched. rewrite S3; [|intros o Ho; destruct (Hloc o Ho) as (-> & Hne & _); auto].
      apply qbyte_write. intros o [= <-]. auto. }
    split; [done|]. intros q'' Hc'' Hq''. unfold joined. rewrite (proj2 (Z.ltb_lt b (c_off l))) by lia. cbn [app].
    apply (relink q q3 q'' pre _ (l :: post) a b); try done; [lia| |].
    { intros i Hi. apply Hq3, not_patched. lia. }
    split.
    + rewrite <- (read_write q (At b) l) by done. fold q1. cbn [c_lastoff m]. apply read_same; [done|]. intros o i [= <-] Hi.
      rewrite Hq'' by lia. apply S3. intros o Ho. destruct (Hloc o Ho) as (_ & _ & ?). lia.
    + apply (links_above q); [|done|done]. intros i Hi. rewrite Hq'' by lia. apply Hq3, not_patched. lia.
  - set (m := mkChunk (c_off (read_chunk q (loc Anno pre))) (c_lastoff l)).
    destruct (store_chunk_spec q (loc Anno pre) m a ltac:(unfold chunk_ok, m; rewrite Rc; cbn; unfold chunk_ok in *; lia) ltac:(lia)) as (S1 & S2 & S3 & S4).
    set (q3 := if a <? _ then _ else _) in *. exists q3. do 8 (split; [done|]).
    assert (Hq3 : forall i, ~ patched b pre l i -> qbyte q3 i = qbyte q i).
    { intros i [Hi1 _]%not_patched. apply S3. intros o Ho. destruct (Hloc o Ho) as (-> & Hne & _); auto. }
    split; [done|]. intros q'' Hc'' Hq''. unfold joined. rewrite (proj2 (Z.ltb_ge b (c_off l))) by lia. cbn [app].
    apply (relink q q3 q'' pre _ post a b); try done; [lia|by rewrite S1; unfold m; rewrite Rc|intros i Hi; apply Hq3, not_patched; lia|].
    cbn [c_lastoff]. apply (links_above q); [|done|done]. intros i Hi. rewrite Hq'' by lia. apply Hq3, not_patched. split; [|lia].
    intros Hne. destruct (loc_cases pre) as [[? _]|[_ E]]; [done|]. destruct (Hloc _ E) as (_ & _ & ?). lia.
Qed.
End patch.

(** ** Intervals *)

Definition within (c : ChunkLink) (o : Z) : Prop := c_off c <= o < c_lastoff c.
Definition covers (cs : list ChunkLink) (o : Z) : Prop := Exists (fun c => within c o) cs.

(** A chunk of a packet of which [T] bytes are there. *)
Definition proper (T : Z) (c : ChunkLink) : Prop :=
  c_off c < c_lastoff c /\ c_off c mod 8 = 0 /\ (c_lastoff c < T -> c_lastoff c mod 8 = 0).

(** The chunks of a packet: in order, apart, and up to [T]. *)
Record canonical (T : Z) (cs : list ChunkLink) : Prop := {
  cn_sorted : sorted 0 cs;
  cn_end : end_of (-1) cs = T;
  cn_proper : Forall (proper T) cs
}.

Lemma covers_app cs1 cs2 o : covers (cs1 ++ cs2) o <-> covers cs1 o \/ covers cs2 o.
Proof. apply Exists_app. Qed.

Lemma covers_cons c cs o : covers (c :: cs) o <-> within c o \/ covers cs o.
Proof. apply Exists_cons. Qed.

Lemma covers_bound lo cs o : sorted lo cs -> covers cs o -> lo <= o < end_of (lo - 1) cs.
Proof.
  intros Hs Hc. apply Exists_exists in Hc as (c & Hc & Ho). destruct (sorted_bounds lo cs c Hs Hc) as [H1 H2].
  unfold within in Ho. lia.
Qed.

Section join.
Variables (T a b : Z) (pre : list ChunkLink) (c : ChunkLink) (rest mid : list ChunkLink) (l : ChunkLink) (post : list ChunkLink).
Let cs := pre ++ c :: rest.
Hypotheses (Hmid : c :: rest = mid ++ l :: post) (Hs : sorted 0 cs) (Hend : end_of (-1) cs = T)
  (Hpre : Forall (fun c => c_lastoff c < a) pre) (Hc : a <= c_lastoff c)
  (Hm : Forall (fun c => c_lastoff c < b) mid) (Hl : b <= c_lastoff l) (Hab : 0 <= a < b) (Hb : b <= T).

Lemma join_pre : sorted 0 pre /\ end_of (-1) pre + 1 <= c_off c <= c_lastoff c.
Proof using Hs. clear -Hs. apply sorted_app in Hs as [H1 [H2 _]]. done. Qed.

Lemma join_mid : sorted (c_off c) mid /\ c_off c <= c_off l <= c_lastoff l /\ sorted (c_lastoff l + 1) post.
Proof using Hs Hmid.
  clear -Hs Hmid. apply sorted_app in Hs as [_ H]. assert (H' : sorted (c_off c) (c :: rest)) by (destruct H as [H0 H]; cbn [sorted]; split; [lia|done]).
  rewrite Hmid in H'. apply sorted_app in H' as [H1 [H2 H3]]. pose proof (sorted_end _ _ H1). split; [done|]. split; [lia|done].
Qed.

Lemma covers_joined o : covers (joined a b pre c l post) o <-> covers cs o \/ a <= o < b.
Proof using Hs Hmid Hpre Hc Hm Hl Hab.
  destruct join_pre as [_ P2], join_mid as (Q1 & Q2 & _). unfold joined, cs. rewrite Hmid, !covers_app, !covers_cons.
  assert (Hmid' : covers mid o -> c_off c <= o < b).
  { intros Hx. apply Exists_exists in Hx as (d & Hd & Hx). rewrite Forall_forall in Hm. specialize (Hm d Hd).
    destruct (sorted_bounds _ _ d Q1 Hd). unfold within in Hx. lia. }
  assert (Hcm : c_off c <= o < c_lastoff c -> covers mid o \/ within l o).
  { intros Hx. destruct mid as [|d mid']; [cbn in Hmid; injection Hmid as <- _; by right|]. cbn in Hmid. injection Hmid as <- _. left. by left. }
  destruct (Z.ltb_spec b (c_off l)) as [Hlt|Hge].
  - rewrite !covers_cons. unfold within in *. cbn [c_off c_lastoff]. assert (covers [] o <-> False) as -> by (unfold covers; by rewrite Exists_nil).
    destruct (decide (c_off c <= o < c_lastoff c)) as [Hin|Hout]; [specialize (Hcm Hin)|clear Hcm]; split; intuition lia.
  - rewrite !covers_cons. unfold within in *. cbn [c_off c_lastoff]. assert (covers [] o <-> False) as -> by (unfold covers; by rewrite Exists_nil).
    destruct (decide (c_off c <= o < c_lastoff c)) as [Hin|Hout]; [specialize (Hcm Hin)|clear Hcm]; split; intuition lia.
Qed.

Lemma joined_canonical :
  a mod 8 = 0 -> (forall d, d ∈ cs -> proper T d \/ c_off d = T /\ b = T) -> (b < T -> b mod 8 = 0) ->
  canonical T (joined a b pre c l post).
Proof using Hs Hmid Hend Hpre Hc Hm Hl Hab Hb.
  intros Ha8 Hd Hb8. destruct join_pre as [P1 P2], join_mid as (Q1 & Q2 & Q3). pose proof (end_of_lt a (-1) pre ltac:(lia) Hpre) as He.
  assert (Hpc : proper T c \/ c_off c = T /\ b = T) by (apply Hd; unfold cs; set_solver).
  assert (Hpl : proper T l \/ c_off l = T /\ b = T) by (apply Hd; unfold cs; rewrite Hmid; set_solver).
  assert (Hmin : Z.min a (c_off c) mod 8 = 0 /\ end_of (-1) pre + 1 <= Z.min a (c_off c) <= a).
  { split; [|lia]. destruct (Z.min_spec a (c_off c)) as [[_ ->]|[? ->]]; [done|]. destruct Hpc as [Hpc|]; [apply Hpc|lia]. }
  assert (Hends : end_of (c_lastoff l) post = T).
  { revert Hend. unfold cs. rewrite Hmid, !end_of_app. done. }
  assert (Hpost : Forall (proper T) post).
  { apply Forall_forall. intros d Hdp. destruct (Hd d) as [|[E1 E2]]; [unfold cs; rewrite Hmid; set_solver|done|].
    destruct (sorted_bounds _ _ d Q3 Hdp) as [B1 B2]. lia. }
  assert (Hlast : c_lastoff l <= T) by (pose proof (sorted_end _ _ Q3) as H; rewrite Z.add_simpl_r in H; lia).
  unfold joined. destruct (Z.ltb_spec b (c_off l)) as [Hlt|Hge]; cbn [app].
  - destruct Hpl as [Hpl|]; [|lia]. constructor.
    + apply sorted_app. change (0 - 1) with (-1). split; [done|]. cbn [sorted c_off c_lastoff]. split; [lia|]. split; [lia|done].
    + by rewrite end_of_app.
    + apply Forall_app. split; [apply Forall_forall; intros d Hdp|constructor; [|by constructor]].
      * destruct (Hd d) as [|[E1 E2]]; [unfold cs; set_solver|done|]. rewrite Forall_forall in Hpre. specialize (Hpre d Hdp).
        destruct (sorted_bounds _ _ d P1 Hdp). lia.
      * unfold proper. cbn [c_off c_lastoff]. split; [lia|]. split; [apply Hmin|done].
  - constructor.
    + apply sorted_app. change (0 - 1) with (-1). split; [done|]. cbn [sorted c_off c_lastoff]. split; [lia|done].
    + by rewrite end_of_app.
    + apply Forall_app. split; [apply Forall_forall; intros d Hdp|constructor; [|done]].
      * destruct (Hd d) as [|[E1 E2]]; [unfold cs; set_solver|done|]. rewrite Forall_forall in Hpre. specialize (Hpre d Hdp).
        destruct (sorted_bounds _ _ d P1 Hdp). lia.
      * unfold proper. cbn [c_off c_lastoff]. split; [lia|]. split; [apply Hmin|]. intros Hlt. destruct Hpl as [Hpl|]; [by apply Hpl|lia].
Qed.
End join.
