(* ===== verification/ReassembleJoin.v ===== *)
(** * Joining fragments

    A packet in reassembly holds the bytes of its datagram in the intervals that
    have arrived; joining another fragment keeps that so. *)

From S2P Require Import Prelude Packet Insn Words Cksum IPHeader Fragment FragmentSpec Reassemble ReassembleSpec.
Local Open Scope word_scope.
Local Open Scope Z_scope.

(** ** Bytes in range *)

Definition in_range (p : packet) : Prop := forall i, 0 <= pkt_byte p i < 256.
Definition junk_ok (junk : Z -> Z) : Prop := forall i, 0 <= junk i < 256.


Lemma in_range_pokes p i l : bytes_ok l -> in_range p -> in_range (pokes p i l).
Proof.
  intros Hl Hp j. rewrite pkt_byte_pokes. destruct (_ && _) eqn:E; [|apply Hp]. bprop. apply bytes_get; [done|lia].
Qed.
Lemma in_range_poke16 p i v : in_range p -> in_range (poke16 p i v).
Proof. intros Hp. apply in_range_pokes; [|done]. repeat constructor; apply low_byte. Qed.
Lemma in_range_take p n : 0 <= n <= pkt_length p -> in_range p -> in_range (pkt_take p n).
Proof. intros Hn Hp j. rewrite pkt_byte_take by done. apply Hp. Qed.
Lemma in_range_put p junk n : 0 <= n -> junk_ok junk -> in_range p -> in_range (pkt_put p junk n).
Proof. intros Hn Hj Hp j. rewrite pkt_byte_put by done. destruct (_ && _); [apply Hj|apply Hp]. Qed.
Lemma in_range_push p junk n : 0 <= n -> junk_ok junk -> in_range p -> in_range (pkt_push p junk n).
Proof. intros Hn Hj Hp j. rewrite pkt_byte_push by done. destruct (_ && _); [apply Hj|apply Hp]. Qed.
Lemma in_range_pull p n : 0 <= n <= pkt_length p -> in_range p -> in_range (pkt_pull p n).
Proof. intros Hn Hp j. rewrite pkt_byte_pull by done. apply Hp. Qed.
Lemma in_range_map p a n : in_range p -> bytes_ok (map (pkt_byte p) (seqZ a n)).
Proof. intros Hp. apply List.Forall_forall. intros b (i & <- & _)%in_map_iff. apply Hp. Qed.
Lemma in_range_write q r c : in_range (pkt (rip q)) -> in_range (pkt (rip (write_chunk q r c))).
Proof. intros Hq. destruct r; [done|]. cbn [write_chunk rip with_pkt with_ip pkt]. by do 2 apply in_range_poke16. Qed.

(** ** Headers *)

Lemma iph_byte q k : 0 <= k < 60 -> vget (iph q) k = pkt_byte (pkt (rip q)) (network (rip q) + k).
Proof. apply vget_header. Qed.

Lemma vlen_iph q : vlen (iph q) = 60.
Proof. apply vlen_header. Qed.

Lemma bytes_iph q : in_range (pkt (rip q)) -> bytes_ok (iph q).
Proof. apply in_range_map. Qed.

Lemma iph_poke16 q k v :
  0 <= k -> k + 1 < 60 -> iph (with_pkt q (poke16 (pkt (rip q)) (network (rip q) + k) v)) = put16 (iph q) k v.
Proof.
  intros Hk Hk'. apply vec_eq; [by rewrite vlen_put16, !vlen_iph|]. intros i Hi. rewrite vlen_iph in Hi. rewrite iph_byte by lia.
  cbn [rip with_pkt with_ip pkt network]. unfold poke16. rewrite pkt_byte_pokes. change (vlen _) with 2.
  set (n := network (rip q)). destruct (Z.leb_spec (n + k) (n + i)), (Z.ltb_spec (n + i) (n + k + 2)); cbn [andb].
  2-4: rewrite vget_put16_ne by lia; by rewrite iph_byte by lia.
  replace (n + i - (n + k)) with (i - k) by lia. unfold put16. destruct (decide (i = k)) as [->|Hne].
  - rewrite Z.sub_diag, vget_vset_ne, vget_vset_eq by (rewrite ?vlen_iph; lia). done.
  - replace (i - k) with 1 by lia. replace i with (k + 1) by lia. rewrite vget_vset_eq by (rewrite vlen_vset, vlen_iph; lia). done.
Qed.

(** A header without options of a fragment of [D] at offset [off]. *)
Record whole_header (D : list Z) (id : Z) (h : list Z) (off : Z) (mf : bool) : Prop := {
  wh_first : vget h 0 = 69;
  wh_flow : same_flow D h;
  wh_id : word16 h 4 = id;
  wh_df : dont_fragment h = false;
  wh_offset : frag_offset h = off;
  wh_mf : more_fragments h = mf
}.

Lemma mask_bit m n k : 0 <= n <= 16 -> 0 <= k < 16 -> m = 2 ^ n - 1 -> Z.testbit (htons m) ((k + 8) mod 16) = (k <? n).
Proof.
  intros Hn Hk ->. assert (Hall : forallb (fun n => forallb (fun k =>
    Bool.eqb (Z.testbit (htons (2 ^ n - 1)) ((k + 8) mod 16)) (k <? n)) (seqZ 0 16)) (seqZ 0 17) = true) by (vm_compute; reflexivity).
  rewrite forallb_forall in Hall. specialize (Hall n ltac:(apply list_elem_of_In, elem_of_seqZ; lia)). cbv beta in Hall.
  rewrite forallb_forall in Hall. specialize (Hall k ltac:(apply list_elem_of_In, elem_of_seqZ; lia)). by apply Bool.eqb_prop in Hall.
Qed.

Lemma not_mask_bit m n k : 0 <= n <= 16 -> 0 <= k < 16 -> m = 2 ^ n - 1 -> Z.testbit (not16 (htons m)) ((k + 8) mod 16) = negb (k <? n).
Proof.
  intros Hn Hk Hm. unfold not16, u16. change 65536 with (2 ^ 16). pose proof (Z.mod_pos_bound (k + 8) 16 ltac:(lia)).
  rewrite Z.mod_pow2_bits_low, Z.lnot_spec by lia. by rewrite (mask_bit m n).
Qed.

Lemma has_mf_spec q : in_range (pkt (rip q)) -> has_mf q = more_fragments (iph q).
Proof.
  intros Hq. unfold has_mf, more_fragments. change IP_MF with (2 ^ 13). rewrite testbit_flag by lia.
  apply frag_bit; [by apply bytes_iph|rewrite vlen_iph; lia|lia].
Qed.

Lemma byte_off_spec q : in_range (pkt (rip q)) -> IP_BYTE_OFF (iph q) = 8 * frag_offset (iph q).
Proof.
  intros Hq. unfold IP_BYTE_OFF, IP_OFFMASK, frag_offset. rewrite frag_field_htons by (first [by apply bytes_iph | rewrite vlen_iph; lia]).
  change 8191 with (Z.ones 13). rewrite Z.land_ones, Z.shiftl_mul_pow2 by lia. change (2 ^ 13) with 8192. change (2 ^ 3) with 8. lia.
Qed.

Lemma is_frag_spec q : in_range (pkt (rip q)) -> IP_ISFRAG (iph q) = negb ((frag_offset (iph q) =? 0) && negb (more_fragments (iph q))).
Proof.
  intros Hq. unfold IP_ISFRAG. change (IP_MF .| IP_OFFMASK) with (2 ^ 14 - 1). f_equal. pose proof (bytes_iph q Hq) as Hb.
  assert (H8 : 8 <= vlen (iph q)) by (rewrite vlen_iph; lia). set (h := iph q) in *.
  assert (Hbit : forall k, 0 <= k < 16 -> Z.testbit (ip_off h .& htons (2 ^ 14 - 1)) ((k + 8) mod 16) = Z.testbit (frag_field h) k && (k <? 14)).
  { intros k Hk. rewrite Z.land_spec, (mask_bit _ 14) by (done || lia). by rewrite frag_bit. }
  unfold frag_offset, more_fragments. change 8192 with (2 ^ 13). destruct (Z.eqb_spec (ip_off h .& htons (2 ^ 14 - 1)) 0) as [E|E].
  - rewrite E in Hbit. assert (Hz : forall k, 0 <= k < 14 -> Z.testbit (frag_field h) k = false).
    { intros k Hk. specialize (Hbit k ltac:(lia)). rewrite Z.bits_0, (proj2 (Z.ltb_lt k 14)), andb_true_r in Hbit by lia. done. }
    rewrite (Hz 13) by lia. cbn [negb]. rewrite andb_true_r. symmetry. apply Z.eqb_eq. apply Z.bits_inj'. intros k Hk. rewrite Z.bits_0.
    destruct (Z.lt_ge_cases k 13); [rewrite Z.mod_pow2_bits_low by lia; apply Hz; lia|by rewrite Z.mod_pow2_bits_high by lia].
  - symmetry. apply andb_false_iff. destruct (Z.testbit (frag_field h) 13) eqn:E13; [by right|left]. apply Z.eqb_neq. intros Hm. apply E.
    apply Z.bits_inj'. intros j Hj. rewrite Z.bits_0. destruct (Z.lt_ge_cases j 16).
    + specialize (Hbit ((j + 8) mod 16) ltac:(apply Z.mod_pos_bound; lia)).
      replace (((j + 8) mod 16 + 8) mod 16) with j in Hbit by (Z.div_mod_to_equations; lia). rewrite Hbit.
      set (k := (j + 8) mod 16) in *. destruct (Z.ltb_spec k 14); [|apply andb_false_r]. rewrite andb_true_r.
      assert (0 <= k) by (apply Z.mod_pos_bound; lia). destruct (decide (k = 13)) as [->|]; [done|].
      rewrite <- (Z.mod_pow2_bits_low _ 13) by lia. by rewrite Hm, Z.bits_0.
    + rewrite Z.land_spec. destruct (word16_range h 6 Hb ltac:(lia) ltac:(lia)) as [_ Hr]. unfold ip_off.
      rewrite <- (Z.mod_small (word16 h 6) (2 ^ 16)) by (change (2 ^ 16) with 65536; lia). by rewrite Z.mod_pow2_bits_high by lia.
Qed.

Lemma field_mask h v k :
  bytes_ok h -> 8 <= vlen h -> 0 <= k < 16 ->
  Z.testbit (frag_field (put16 h 6 (ip_off h .& v))) k = Z.testbit (frag_field h) k && Z.testbit v ((k + 8) mod 16).
Proof. intros Hb Hl Hk. rewrite frag_field_put by done. by rewrite Z.land_spec, frag_bit. Qed.

Lemma whole_same D id h h' off mf :
  (forall k, 0 <= k < 20 -> vget h' k = vget h k) -> whole_header D id h off mf -> whole_header D id h' off mf.
Proof.
  intros Hg [W1 W2 W3 W4 W5 W6]. assert (Hf : frag_field h' = frag_field h) by (apply frag_field_bytes; apply Hg; lia).
  unfold dont_fragment, frag_offset, more_fragments in *. constructor; unfold dont_fragment, frag_offset, more_fragments; rewrite ?Hf; try done.
  - by rewrite Hg by lia.
  - intros i Hi. rewrite Hg by lia. by apply W2.
  - unfold word16. by rewrite !Hg by lia.
Qed.

(** Changing the flags leaves the other fields alone. *)
Lemma whole_flags D id h v mf mf' off :
  bytes_ok h -> 20 <= vlen h -> whole_header D id h off mf ->
  (forall k, 13 <= k < 16 -> Z.testbit v ((k + 8) mod 16) = if k =? 13 then mf' else true) ->
  (off = 0 \/ forall k, 0 <= k < 13 -> Z.testbit v ((k + 8) mod 16) = false) ->
  whole_header D id (put16 h 6 (ip_off h .& v)) 0 (mf && mf').
Proof.
  intros Hb Hl [W1 W2 W3 W4 W5 W6] Hv Hoff. unfold dont_fragment, frag_offset, more_fragments in *.
  assert (Hg : forall i, 0 <= i -> i <> 6 -> i <> 7 -> vget (put16 h 6 (ip_off h .& v)) i = vget h i)
    by (intros i H0 H6 H7; apply vget_put16_ne; lia).
  constructor.
  - by rewrite Hg by lia.
  - intros i Hi. rewrite Hg by lia. by apply W2.
  - unfold word16. by rewrite !Hg by lia.
  - unfold dont_fragment. rewrite field_mask, W4 by (done || lia). done.
  - unfold frag_offset. change 0 with (0 mod 8192). apply frag_offset_bits. intros k Hk. rewrite field_mask, Z.bits_0 by (done || lia).
    destruct Hoff as [E|E]; [|rewrite E by lia; apply andb_false_r].
    rewrite E in W5. rewrite <- (Z.mod_pow2_bits_low _ 13) by lia. change (2 ^ 13) with 8192. by rewrite W5, Z.bits_0.
  - unfold more_fragments. rewrite field_mask, Hv, W6 by (done || lia). done.
Qed.

(** ** Pieces of a datagram *)

Section datagram.
Variables (pay D : list Z) (id : Z).
Hypothesis Hpay : vlen pay <= 65515.

(** A fragment that carries the bytes [a, b) of the payload. *)
Record piece (p : rpacket) (a b : Z) : Prop := {
  pc_range : in_range (pkt (rip p));
  pc_network : 0 <= network (rip p);
  pc_transport : transport (rip p) = network (rip p) + 20;
  pc_size : tlen p = b - a;
  pc_bounds : 0 <= a < b /\ b <= vlen pay;
  pc_aligned : a mod 8 = 0 /\ (b < vlen pay -> b mod 8 = 0);
  pc_fragment : 0 < a \/ b < vlen pay;
  pc_header : whole_header D id (iph p) (a / 8) (b <? vlen pay);
  pc_total : htons (ip_len (iph p)) = 20 + (b - a);
  pc_data : forall o, a <= o < b -> qbyte p (o - a) = vget pay o
}.

(** A packet in reassembly; [cs] are the intervals that have arrived. *)
Record partial (q : rpacket) (cs : list ChunkLink) : Prop := {
  pt_range : in_range (pkt (rip q));
  pt_network : 0 <= network (rip q);
  pt_transport : transport (rip q) = network (rip q) + 20;
  pt_size : 0 < tlen q <= vlen pay;
  pt_links : links q Anno cs;
  pt_canonical : canonical (tlen q) cs;
  pt_open : tlen q < vlen pay -> tlen q mod 8 = 0;
  pt_header : whole_header D id (iph q) 0 (tlen q <? vlen pay);
  pt_data : forall o, covers cs o -> qbyte q o = vget pay o
}.

Lemma piece_mf p a b : piece p a b -> has_mf p = (b <? vlen pay).
Proof. intros Hp. rewrite has_mf_spec by apply Hp. apply (pc_header p a b Hp). Qed.

(** Bytes of the header and of the payload, seen from the transport header. *)
Lemma iph_qbyte q k : transport (rip q) = network (rip q) + 20 -> 0 <= k < 60 -> vget (iph q) k = qbyte q (k - 20).
Proof. intros Ht Hk. rewrite iph_byte by done. unfold qbyte. f_equal. lia. Qed.

(** Steps in the buffer behind the header. *)
Lemma whole_step q q' off mf :
  same_shape q q' -> transport (rip q) = network (rip q) + 20 -> (forall i, i < 0 -> qbyte q' i = qbyte q i) ->
  whole_header D id (iph q) off mf -> whole_header D id (iph q') off mf.
Proof.
  intros [S1 S2 S3 _ _ _] Ht Hi. apply whole_same. intros k Hk. rewrite !iph_qbyte by (lia || congruence). apply Hi. lia.
Qed.

(** *** A new packet *)

Lemma one_chunk q a b :
  chunk q = mkChunk a b -> tlen q = b -> 0 <= a < b -> a mod 8 = 0 ->
  links q Anno [mkChunk a b] /\ canonical (tlen q) [mkChunk a b].
Proof.
  intros Hc Ht Hab Ha. split; [by split|]. rewrite Ht. constructor; [by cbn; lia|done|].
  constructor; [|done]. unfold proper. cbn. lia.
Qed.

Lemma covers_one a b o : covers [mkChunk a b] o <-> a <= o < b.
Proof. rewrite covers_cons. unfold covers, within. rewrite Exists_nil. cbn. tauto. Qed.

Lemma shape_qbyte_iph q v i : 0 <= i -> transport (rip q) = network (rip q) + 20 -> qbyte (set_ip_off q v) i = qbyte q i.
Proof using.
  intros Hi Ht. unfold set_ip_off, poke16. replace (network (rip q) + 6) with (transport (rip q) + -14) by lia.
  rewrite qbyte_pokes. change (vlen _) with 2. destruct (Z.leb_spec (-14) i), (Z.ltb_spec i (-14 + 2)); cbn [andb]; lia || done.
Qed.

(** The packet that a new queue starts from, before its flags are set. *)
Definition queue_base (junk : Z -> Z) (p : rpacket) (a b : Z) : rpacket :=
  if a =? 0 then p
  else mkR (mkIP (pokes (pokes (packet_of (map junk (seqZ 0 (20 + b)))) 0 (take 20 (iph p))) (20 + a)
    (map (pkt_byte (pkt (rip p))) (seqZ (transport (rip p)) (tlen p)))) 0 20 0) (mkChunk 0 0) 0 0.

Lemma in_range_junk junk n : junk_ok junk -> 0 <= n -> in_range (packet_of (map junk (seqZ 0 n))).
Proof using.
  intros Hj Hn i. unfold pkt_byte, packet_of, pkt_length. cbn [pkt_data outside]. destruct (_ && _) eqn:E; [|lia]. bprop.
  rewrite vlen_junk in * by done. rewrite vget_map_seqZ by lia. apply Hj.
Qed.

Lemma queue_base_spec junk p a b :
  junk_ok junk -> piece p a b -> let q := queue_base junk p a b in
  in_range (pkt (rip q)) /\ 0 <= network (rip q) /\ transport (rip q) = network (rip q) + 20 /\ tlen q = b
  /\ (forall k, 0 <= k < 20 -> vget (iph q) k = vget (iph p) k) /\ (forall o, a <= o < b -> qbyte q o = vget pay o).
Proof using.
  intros Hj Hp. destruct Hp as [Q1 Q2 Q3 Q4 Q5 Q6 Q7 Q8 Q9 Q10]. unfold queue_base.
  destruct (Z.eqb_spec a 0) as [->|Ha]; cbv zeta.
  { do 3 (split; [done|]). split; [lia|]. split; [done|]. intros o Ho. rewrite <- Q10 by done. f_equal. lia. }
  assert (H20 : vlen (take 20 (iph p)) = 20) by (change 20%nat with (Z.to_nat 20); apply vlen_take_Z; rewrite vlen_iph; lia).
  assert (Hd : vlen (map (pkt_byte (pkt (rip p))) (seqZ (transport (rip p)) (tlen p))) = b - a) by (unfold vlen; rewrite length_map, length_seqZ; lia).
  cbn [rip pkt network transport]. split; [|split; [lia|split; [lia|split; [|split]]]].
  - apply in_range_pokes; [by apply in_range_map|]. apply in_range_pokes; [by apply bytes_take, bytes_iph|]. apply in_range_junk; [done|lia].
  - unfold tlen, transport_length. cbn [rip pkt transport]. rewrite !pkt_length_pokes. unfold pkt_length, packet_of. cbn [pkt_data].
    rewrite vlen_junk by lia. lia.
  - intros k Hk. rewrite iph_byte by lia. cbn [rip pkt network]. rewrite !pkt_byte_pokes, Hd, H20.
    rewrite (proj2 (Z.leb_gt (20 + a) (0 + k))), (proj2 (Z.leb_le 0 (0 + k))), (proj2 (Z.ltb_lt (0 + k) (0 + 20))) by lia. cbn [andb].
    change 20%nat with (Z.to_nat 20). rewrite vget_take_Z by lia. f_equal. lia.
  - intros o Ho. unfold qbyte. cbn [rip pkt transport]. rewrite pkt_byte_pokes, Hd.
    rewrite (proj2 (Z.leb_le (20 + a) (20 + o))), (proj2 (Z.ltb_lt (20 + o) (20 + a + (b - a)))) by lia. cbn [andb].
    rewrite vget_map_seqZ by lia. rewrite <- Q10 by done. unfold qbyte. f_equal. lia.
Qed.

Lemma queue_packet_spec s junk p a b :
  junk_ok junk -> piece p a b -> partial (queue_packet s junk p) [mkChunk a b].
Proof using Hpay.
  intros Hj Hp. destruct (queue_base_spec junk p a b Hj Hp) as (B1 & B2 & B3 & B4 & B5 & B6).
  destruct Hp as [Q1 Q2 Q3 Q4 Q5 Q6 Q7 Q8 Q9 Q10].
  assert (E : IP_BYTE_OFF (iph p) = a /\ a + tlen p = b) by (rewrite byte_off_spec, (wh_offset _ _ _ _ _ Q8) by done; Z.div_mod_to_equations; lia). destruct E as [E1 E2].
  unfold queue_packet. rewrite E1, E2. cbv zeta. fold (queue_base junk p a b). set (q0 := queue_base junk p a b) in *.
  set (v := ip_off (iph q0) .& not16 (htons IP_OFFMASK)). set (q1 := set_ip_off q0 v).
  assert (Hu : u16 a = a /\ u16 b = b) by (split; apply Z.mod_small; lia). destruct Hu as [-> ->].
  assert (Hsh : same_shape q0 q1) by apply shape_pokes. pose proof (shape_tlen _ _ Hsh) as Ht. destruct Hsh as [S1 S2 S3 _ _ _].
  set (q := mkR (rip q1) _ _ _). destruct (one_chunk q a b) as [L C]; [done|change (tlen q1 = b); lia|lia|lia|].
  constructor; cbn [q rip].
  - apply in_range_poke16, B1.
  - lia.
  - lia.
  - change (tlen q) with (tlen q1). lia.
  - done.
  - done.
  - change (tlen q) with (tlen q1). rewrite Ht, B4. apply Q6.
  - change (tlen q) with (tlen q1). change (iph q) with (iph q1). rewrite Ht, B4. unfold q1, set_ip_off. rewrite iph_poke16 by lia.
    rewrite <- (andb_true_r (b <? vlen pay)). unfold v. apply (whole_flags D id (iph q0) _ (b <? vlen pay) true (a / 8)).
    + by apply bytes_iph.
    + rewrite vlen_iph. lia.
    + by apply (whole_same D id (iph p)).
    + intros k Hk. change IP_OFFMASK with (2 ^ 13 - 1). rewrite (not_mask_bit _ 13) by (done || lia). rewrite (proj2 (Z.ltb_ge k 13)) by lia. by destruct (k =? 13).
    + right. intros k Hk. change IP_OFFMASK with (2 ^ 13 - 1). rewrite (not_mask_bit _ 13) by (done || lia). by rewrite (proj2 (Z.ltb_lt k 13)) by lia.
  - intros o Ho%covers_one. change (qbyte q o) with (qbyte q1 o). unfold q1. rewrite shape_qbyte_iph by lia. by apply B6.
Qed.

(** *** Making room *)

(** A packet with room for a fragment that ends at [b]: its last chunk may be
    the empty one behind the bytes that have arrived. *)
Record ready (b : Z) (mf : bool) (q : rpacket) (cs : list ChunkLink) : Prop := {
  rd_range : in_range (pkt (rip q));
  rd_network : 0 <= network (rip q);
  rd_transport : transport (rip q) = network (rip q) + 20;
  rd_size : 0 < tlen q <= vlen pay /\ b <= tlen q;
  rd_links : links q Anno cs;
  rd_sorted : sorted 0 cs;
  rd_end : end_of (-1) cs = tlen q;
  rd_chunks : forall c, c ∈ cs -> proper (tlen q) c \/ c_off c = tlen q /\ b = tlen q;
  rd_header : whole_header D id (iph q) 0 mf;
  rd_flag : mf && (b <? vlen pay) = (tlen q <? vlen pay);
  rd_data : forall o, covers cs o -> qbyte q o = vget pay o
}.

Lemma partial_ready q cs b : partial q cs -> b <= tlen q -> ready b (tlen q <? vlen pay) q cs.
Proof using.
  intros [P1 P2 P3 P4 P5 [C1 C2 C3] P7 P8 P9] Hb. constructor; try done; [|].
  - intros c Hc. left. rewrite Forall_forall in C3. by apply C3.
  - destruct (Z.ltb_spec (tlen q) (vlen pay)); [|done]. by rewrite (proj2 (Z.ltb_lt b (vlen pay))) by lia.
Qed.

(** More room at the end. *)
Definition grown (junk : Z -> Z) (q p : rpacket) (a b : Z) : rpacket :=
  let q1 := with_pkt q (pkt_put (pkt (rip q)) junk (b - tlen q + 8 + (if has_mf p then b - a else 0))) in
  with_pkt q1 (pkt_take (pkt (rip q1)) (tlen q1 - b)).

Lemma grown_spec junk q p a b :
  junk_ok junk -> in_range (pkt (rip q)) -> 0 <= transport (rip q) -> 0 <= tlen q < b -> a < b ->
  let q' := grown junk q p a b in
  in_range (pkt (rip q')) /\ network (rip q') = network (rip q) /\ transport (rip q') = transport (rip q) /\ tlen q' = b
  /\ chunk q' = chunk q /\ forall i, i < tlen q -> qbyte q' i = qbyte q i.
Proof using.
  intros Hj Hr H0 Ht Hab. unfold grown. set (n := b - tlen q + 8 + _). assert (Hn : b - tlen q + 8 <= n) by (unfold n; destruct (has_mf p); lia).
  set (q1 := with_pkt q (pkt_put (pkt (rip q)) junk n)). cbv zeta.
  assert (Hl : pkt_length (pkt (rip q1)) = pkt_length (pkt (rip q)) + n) by (apply pkt_length_put; lia).
  assert (Htl : tlen q1 = tlen q + n) by (unfold tlen, transport_length in *; rewrite Hl; cbn [transport q1 with_pkt with_ip rip]; lia).
  assert (Hk : 0 <= tlen q1 - b <= pkt_length (pkt (rip q1))) by (unfold tlen, transport_length in *; lia).
  set (q' := with_pkt q1 (pkt_take (pkt (rip q1)) (tlen q1 - b))). split; [apply in_range_take; [done|]; by apply in_range_put; lia || done|].
  do 2 (split; [done|]). split; [|split; [done|]].
  - unfold tlen at 1, transport_length. cbn [q' with_pkt with_ip rip pkt transport]. rewrite pkt_length_take by done.
    unfold tlen, transport_length in *. cbn [q1 with_pkt with_ip rip transport] in *. lia.
  - intros i Hi. unfold qbyte. cbn [q' with_pkt with_ip rip pkt transport]. rewrite pkt_byte_take by done.
    cbn [q1 with_pkt with_ip rip pkt transport]. rewrite pkt_byte_put by lia.
    unfold tlen, transport_length in *. rewrite (proj2 (Z.leb_gt _ _)) by lia. done.
Qed.

Lemma extend_spec junk q p a b cs :
  junk_ok junk -> partial q cs -> piece p a b -> tlen q < b ->
  ready b true (extend_queue junk q p a b) (cs ++ [mkChunk b b]).
Proof using Hpay.
  intros Hj [P1 P2 P3 P4 P5 [C1 C2 C3] P7 P8 P9] Hp Ht. pose proof (pc_bounds p a b Hp) as [B1 B2].
  destruct (grown_spec junk q p a b Hj P1 ltac:(lia) ltac:(lia) ltac:(lia)) as (G1 & G2 & G3 & G4 & G5 & G6).
  unfold extend_queue. cbv zeta. fold (grown junk q p a b). set (q1 := grown junk q p a b) in *.
  assert (Hu : u16 b = b) by (apply Z.mod_small; lia). rewrite Hu. set (c := mkChunk b b). set (q2 := write_chunk q1 (At (tlen q)) c).
  pose proof (shape_write q1 (At (tlen q)) c) as Hsh. fold q2 in Hsh. pose proof (shape_tlen _ _ Hsh) as Ht2. destruct Hsh as [S1 S2 S3 _ _ _].
  assert (Hq : forall i, i < tlen q -> qbyte q2 i = qbyte q i) by (intros i Hi; rewrite <- G6 by done; apply qbyte_write; intros o [= <-]; lia).
  specialize (P7 ltac:(lia)). constructor.
  - by apply in_range_write.
  - lia.
  - lia.
  - lia.
  - apply links_app. split.
    + apply (links_below q); [|by intros _|intros i Hi; apply Hq; lia|done|done].
      apply Forall_forall. intros d Hd. rewrite Forall_forall in C3. destruct (C3 d Hd) as (_ & _ & D3).
      destruct (sorted_bounds 0 cs d C1 Hd) as [_ D4]. change (0 - 1) with (-1) in D4. destruct (decide (c_lastoff d = tlen q)) as [->|]; [done|]. apply D3. lia.
    + assert (Hloc : loc Anno cs = At (tlen q)).
      { destruct (loc_cases cs) as [[-> _]|[_ ->]]; [cbn in C2; lia|by rewrite C2]. }
      rewrite Hloc. split; [|done]. apply read_write. unfold chunk_ok. cbn. lia.
  - apply sorted_app. split; [done|]. change (0 - 1) with (-1). rewrite C2. cbn. lia.
  - rewrite end_of_app. cbn [end_of c c_lastoff]. lia.
  - intros d Hd. apply elem_of_app in Hd as [Hd| ->%list_elem_of_singleton]; [left|right; cbn [c c_off]; lia].
    rewrite Forall_forall in C3. destruct (C3 d Hd) as (D1 & D2 & D3). split; [done|]. split; [done|]. intros _.
    destruct (sorted_bounds 0 cs d C1 Hd) as [_ D4]. change (0 - 1) with (-1) in D4. destruct (decide (c_lastoff d = tlen q)) as [->|]; [done|]. apply D3. lia.
  - rewrite (proj2 (Z.ltb_lt (tlen q) (vlen pay))) in P8 by lia. apply (whole_same D id (iph q)); [|done].
    intros k Hk. rewrite !iph_qbyte by lia. apply Hq. lia.
  - rewrite Ht2, G4. done.
  - intros o Ho. apply covers_app in Ho as [Ho|Ho]; [|apply covers_one in Ho; lia].
    pose proof (covers_bound 0 cs o C1 Ho) as Hb. change (0 - 1) with (-1) in Hb. rewrite Hq by lia. by apply P9.
Qed.

(** *** Filling in a fragment *)

Lemma in_range_patch q a b q' : patch_chunks q a b = Some q' -> in_range (pkt (rip q)) -> in_range (pkt (rip q')).
Proof using.
  unfold patch_chunks. destruct (find_chunk _ q Anno a) as [r|]; cbn [mbind option_bind]; [|done].
  destruct (find_chunk _ q r b) as [r'|]; cbn [mbind option_bind]; [|done]. intros [= <-] Hq.
  destruct (b <? _), (a <? _); repeat first [apply in_range_write | apply in_range_poke16]; done.
Qed.

(** Bytes that have arrived are not where a chunk is stored. *)
Lemma covered_unpatched q cs a b pre c rest mid l post o :
  ready b true q cs \/ ready b false q cs -> 0 <= a < b -> a mod 8 = 0 -> (b < vlen pay -> b mod 8 = 0) ->
  cs = pre ++ c :: rest -> c :: rest = mid ++ l :: post ->
  Forall (fun c => c_lastoff c < a) pre -> a <= c_lastoff c -> Forall (fun c => c_lastoff c < b) mid -> b <= c_lastoff l ->
  covers cs o -> ~ patched b pre l o.
Proof using Hpay.
  intros Hr Hab Ha8 Hb8 E1 E2 F1 C1 F2 C2 Ho. assert (Hrd : exists mf, ready b mf q cs) by (destruct Hr; by eexists).
  clear Hr. destruct Hrd as [mf [_ _ _ R4 _ Hs He Hch _ _ _]]. apply not_patched.
  assert (Hc : c ∈ cs) by (rewrite E1; set_solver). assert (Hl : l ∈ cs) by (rewrite E1, E2; set_solver).
  pose proof Hs as Hs'. rewrite E1 in Hs'. destruct (join_pre pre c rest Hs') as [P1 P2].
  destruct (join_mid pre c rest mid l post E2 Hs') as (Q1 & Q2 & Q3).
  pose proof (sorted_bounds 0 cs l Hs Hl) as [_ Bl]. change (0 - 1) with (-1) in Bl.
  apply Exists_exists in Ho as (d & Hd & Ho). unfold within in Ho. pose proof (Hch d Hd) as Hdp. split.
  - intros Hne. assert (Hpa : ends_aligned pre).
    { apply Forall_forall. intros x Hx. rewrite Forall_forall in F1. specialize (F1 x Hx). destruct (Hch x ltac:(rewrite E1; set_solver)) as [Hx'|Hx'].
      - apply Hx'. lia.
      - destruct (sorted_bounds _ _ x P1 Hx). lia. }
    pose proof (end_of_aligned (-1) pre Hne Hpa) as He8. rewrite E1 in Hd. apply elem_of_app in Hd as [Hd|Hd].
    + left. destruct (sorted_bounds _ _ d P1 Hd) as [_ H]. change (0 - 1) with (-1) in H. lia.
    + right. assert (c_off c <= c_off d).
      { apply elem_of_cons in Hd as [->|Hd]; [lia|]. rewrite E1 in Hs. apply sorted_app in Hs as [_ [_ Hs]]. destruct (sorted_bounds _ _ d Hs Hd). lia. }
      destruct (Hch c Hc) as [(_ & H8 & _)|Hc']; [Z.div_mod_to_equations; lia|]. rewrite E1 in He. rewrite <- E1 in He.
      destruct (sorted_bounds 0 cs d Hs ltac:(rewrite E1; set_solver)) as [_ Hd2]. change (0 - 1) with (-1) in Hd2. lia.
  - intros Hlt. rewrite E1 in Hd. apply elem_of_app in Hd as [Hd|Hd]; [rewrite Forall_forall in F1; specialize (F1 d Hd); lia|].
    rewrite E2 in Hd. apply elem_of_app in Hd as [Hd|Hd]; [rewrite Forall_forall in F2; specialize (F2 d Hd); lia|]. right.
    assert (c_off l <= c_off d) by (apply elem_of_cons in Hd as [->|Hd]; [lia|destruct (sorted_bounds _ _ d Q3 Hd); lia]).
    destruct (Hch l Hl) as [(_ & H8 & _)|Hl']; [|lia]. specialize (Hb8 ltac:(lia)). Z.div_mod_to_equations. lia.
Qed.

Lemma qbyte_copy q p a b i :
  0 <= b - a -> qbyte (copy_payload q p a b) i = if (a <=? i) && (i <? b) then qbyte p (i - a) else qbyte q i.
Proof using.
  intros Hab. unfold copy_payload. rewrite qbyte_pokes.
  assert (Hl : vlen (map (pkt_byte (pkt (rip p))) (seqZ (transport (rip p)) (b - a))) = b - a) by (unfold vlen; rewrite length_map, length_seqZ; lia).
  rewrite Hl. replace (a + (b - a)) with b by lia. destruct (Z.leb_spec a i), (Z.ltb_spec i b); cbn [andb]; try done.
  rewrite vget_map_seqZ by lia. done.
Qed.

Lemma fill_spec mf q cs p a b :
  ready b mf q cs -> piece p a b ->
  exists q1 cs', patch_chunks q a b = Some q1 /\
    let q2 := copy_payload q1 p a b in
    same_shape q q2 /\ in_range (pkt (rip q2)) /\ links q2 Anno cs' /\ canonical (tlen q2) cs'
    /\ (forall o, covers cs' o <-> covers cs o \/ a <= o < b)
    /\ whole_header D id (iph q2) 0 mf /\ forall o, covers cs' o -> qbyte q2 o = vget pay o.
Proof using Hpay.
  intros Hr Hp. pose proof Hr as [R1 R2 R3 R4 R5 R6 R7 R8 R9 R10 R11]. pose proof (pc_bounds p a b Hp) as [B1 B2].
  destruct (pc_aligned p a b Hp) as [Ha8 Hb8].
  destruct (patch_chunks_spec q cs a b) as (pre & c & rest & mid & l & post & q1 & E1 & E2 & F1 & C1 & F2 & C2 & Hpatch & Hsh & Hq1 & Hl); try done; try lia.
  { intros d Hd Hlt. destruct (R8 d Hd) as [(_ & H8 & _)|?]; [|lia]. split; [done|]. apply Hb8.
    destruct (sorted_bounds 0 cs d R6 Hd) as [Hx0 Hx]. change (0 - 1) with (-1) in Hx. lia. }
  { intros d Hd Hlt. destruct (R8 d Hd) as [(_ & _ & H8)|[Hx ?]]; [by apply H8|]. destruct (sorted_bounds 0 cs d R6 Hd). lia. }
  exists q1, (joined a b pre c l post). split; [done|]. set (q2 := copy_payload q1 p a b).
  assert (Hsh2 : same_shape q q2) by exact (same_shape_trans _ _ _ Hsh (shape_pokes _ _ _)). pose proof (shape_tlen _ _ Hsh2) as Ht.
  assert (Hq2 : forall i, ~ a <= i < b -> qbyte q2 i = qbyte q1 i).
  { intros i Hi. unfold q2. rewrite qbyte_copy by lia. destruct (Z.leb_spec a i), (Z.ltb_spec i b); cbn [andb]; lia || done. }
  rewrite E1 in R6, R7. assert (Hun : forall o, covers cs o -> ~ patched b pre l o).
  { intros o. apply (covered_unpatched q cs a b pre c rest mid l post); try done. by destruct mf; [left|right]. }
  assert (Hcov : forall o, covers (joined a b pre c l post) o <-> covers cs o \/ a <= o < b).
  { rewrite E1. intros o. by apply (covers_joined a b pre c rest mid l post). }
  split; [done|]. split; [|split; [|split; [|split; [done|split]]]].
  - apply in_range_pokes; [by apply in_range_map, Hp|]. by apply (in_range_patch q a b).
  - by apply Hl.
  - rewrite Ht. apply (joined_canonical (tlen q) a b pre c rest mid l post); try done; try lia. by rewrite <- E1.
  - apply (whole_step q); [done|done| |done]. intros i Hi. rewrite Hq2 by lia. apply Hq1, not_patched. split; [|lia].
    intros Hne. left. apply sorted_app in R6 as [R6 _]. destruct pre as [|x pre]; [done|]. cbn [end_of]. destruct R6 as [R6 R6'].
    pose proof (sorted_end _ _ R6') as Hx. rewrite Z.add_simpl_r in Hx. lia.
  - intros o Ho. destruct (decide (a <= o < b)) as [Hin|Hout].
    + unfold q2. rewrite qbyte_copy by lia. rewrite (proj2 (Z.leb_le a o)), (proj2 (Z.ltb_lt o b)) by lia. by apply Hp.
    + apply Hcov in Ho as [Ho|Ho]; [|done]. rewrite Hq2, Hq1 by auto. by apply R11.
Qed.

(** *** The first fragment brings the header *)

Lemma word16_bytes l i :
  bytes_ok l -> 0 <= i -> i + 1 < vlen l -> word16 l i .& 255 = vget l i /\ (word16 l i .>> 8) .& 255 = vget l (i + 1).
Proof using.
  intros Hl Hi Hn. destruct (word16_range l i Hl Hi Hn) as [-> _]. pose proof (bytes_get l i Hl ltac:(lia)). pose proof (bytes_get l (i + 1) Hl ltac:(lia)).
  change 255 with (Z.ones 8). rewrite !Z.land_ones, Z.shiftr_div_pow2 by lia. change (2 ^ 8) with 256.
  split; Z.div_mod_to_equations; lia.
Qed.

(** The buffer of [q] moved so that the network header is where it is in [p]. *)
Definition aligned (junk : Z -> Z) (q p : rpacket) : packet :=
  let delta := network (rip p) - network (rip q) in
  if 0 <? delta then pkt_push (pkt (rip q)) junk delta
  else if delta <? 0 then pkt_pull (pkt (rip q)) (- delta) else pkt (rip q).

Lemma aligned_spec junk q p :
  junk_ok junk -> in_range (pkt (rip q)) -> 0 <= network (rip p) -> 0 <= network (rip q) <= pkt_length (pkt (rip q)) ->
  let delta := network (rip p) - network (rip q) in
  in_range (aligned junk q p) /\ pkt_length (aligned junk q p) = pkt_length (pkt (rip q)) + delta
  /\ forall i, network (rip p) <= i -> pkt_byte (aligned junk q p) i = pkt_byte (pkt (rip q)) (i - delta).
Proof using.
  intros Hj Hq Hp Hn delta. unfold aligned. fold delta.
  destruct (Z.ltb_spec 0 delta) as [Hd|Hd]; [|destruct (Z.ltb_spec delta 0) as [Hd'|Hd']].
  - split; [apply in_range_push; lia || done|]. split; [apply pkt_length_push; lia|]. intros i Hi. rewrite pkt_byte_push by lia.
    destruct (Z.leb_spec 0 i), (Z.ltb_spec i delta); cbn [andb]; lia || done.
  - split; [apply in_range_pull; lia || done|]. split; [rewrite pkt_length_pull by lia; lia|]. intros i Hi. by rewrite pkt_byte_pull by lia.
  - split; [done|]. split; [lia|]. intros i Hi. f_equal. lia.
Qed.

Lemma copy_first_spec s junk q p b mf :
  junk_ok junk -> piece p 0 b -> in_range (pkt (rip q)) -> 0 <= network (rip q) -> transport (rip q) = network (rip q) + 20 -> 0 <= tlen q ->
  whole_header D id (iph q) 0 mf ->
  let q' := copy_first s junk q p in
  in_range (pkt (rip q')) /\ 0 <= network (rip q') /\ transport (rip q') = network (rip q') + 20 /\ tlen q' = tlen q /\ chunk q' = chunk q
  /\ (forall i, 0 <= i -> qbyte q' i = qbyte q i) /\ whole_header D id (iph q') 0 mf.
Proof using Hpay.
  intros Hj Hp Hr Hn Ht Hl Hh. destruct Hp as [P1 P2 P3 P4 P5 P6 P7 P8 P9 P10].
  assert (Hnl : network (rip q) <= pkt_length (pkt (rip q))) by (unfold tlen, transport_length in Hl; lia).
  destruct (aligned_spec junk q p Hj Hr P2 ltac:(lia)) as (A1 & A2 & A3). unfold copy_first. cbv zeta. fold (aligned junk q p).
  set (n := network (rip p)) in *. set (old := ip_off (iph q)). set (l := map (pkt_byte (pkt (rip p))) (seqZ 0 (transport (rip p)))).
  assert (Hvl : vlen l = n + 20) by (unfold l, vlen; rewrite length_map, length_seqZ; lia).
  set (m := poke16 (pokes (aligned junk q p) 0 l) (n + 6) old).
  assert (Hm : forall i, pkt_byte m i = if (n + 6 <=? i) && (i <? n + 8) then vget [old .& 255; (old .>> 8) .& 255] (i - (n + 6))
    else if (0 <=? i) && (i <? n + 20) then pkt_byte (pkt (rip p)) i else pkt_byte (aligned junk q p) i).
  { intros i. unfold m, poke16. rewrite !pkt_byte_pokes, Hvl. change (vlen _) with 2. replace (n + 6 + 2) with (n + 8) by lia.
    destruct (_ && _); [done|]. rewrite Z.add_0_l. destruct (Z.leb_spec 0 i), (Z.ltb_spec i (n + 20)); cbn [andb]; try done.
    unfold l. rewrite vget_map_seqZ by lia. f_equal. lia. }
  split; [|cbn [rip pkt network transport]; split; [done|split; [lia|split; [|split; [done|split]]]]].
  - apply in_range_poke16, in_range_pokes; [by apply in_range_map|done].
  - unfold tlen, transport_length in *. cbn [rip pkt transport]. unfold m, poke16. rewrite !pkt_length_pokes, A2. lia.
  - intros i Hi. unfold qbyte. cbn [rip pkt transport]. rewrite Hm.
    rewrite (proj2 (Z.ltb_ge (n + (transport (rip p) - n) + i) (n + 8))), (proj2 (Z.ltb_ge (n + (transport (rip p) - n) + i) (n + 20))) by lia.
    rewrite !andb_false_r. rewrite A3 by lia. f_equal. lia.
  - set (q' := mkR _ _ _ _). assert (Hg : forall k, 0 <= k < 20 -> k <> 6 -> k <> 7 -> vget (iph q') k = vget (iph p) k).
    { intros k Hk H6 H7. rewrite !iph_byte by lia. cbn [q' rip pkt network]. rewrite Hm.
      destruct (Z.leb_spec (n + 6) (n + k)), (Z.ltb_spec (n + k) (n + 8)); cbn [andb]; try lia;
        by rewrite (proj2 (Z.leb_le 0 (n + k))), (proj2 (Z.ltb_lt (n + k) (n + 20))) by lia. }
    destruct (word16_bytes (iph q) 6) as [W1 W2]; [by apply bytes_iph|lia|rewrite vlen_iph; lia|]. fold (ip_off (iph q)) old in W1, W2.
    assert (H6 : vget (iph q') 6 = vget (iph q) 6 /\ vget (iph q') 7 = vget (iph q) 7).
    { rewrite <- W1. change (6 + 1) with 7 in W2. rewrite <- W2. rewrite !(iph_byte q') by lia. cbn [q' rip pkt network]. rewrite !Hm.
      rewrite (proj2 (Z.leb_le (n + 6) (n + 6))), (proj2 (Z.leb_le (n + 6) (n + 7))), (proj2 (Z.ltb_lt (n + 6) (n + 8))), (proj2 (Z.ltb_lt (n + 7) (n + 8))) by lia.
      cbn [andb]. replace (n + 6 - (n + 6)) with 0 by lia. replace (n + 7 - (n + 6)) with 1 by lia. done. }
    destruct H6 as [H6 H7]. pose proof (frag_field_bytes (iph q) (iph q') H6 H7) as Hff.
    destruct P8 as [X1 X2 X3 _ _ _], Hh as [_ _ _ Y4 Y5 Y6]. unfold dont_fragment, frag_offset, more_fragments in *.
    constructor; unfold dont_fragment, frag_offset, more_fragments; rewrite ?Hff; try done.
    + by rewrite Hg by lia.
    + intros i Hi. rewrite Hg by lia. by apply X2.
    + unfold word16. by rewrite !Hg by lia.
Qed.

(** *** Joining *)

(** A packet in reassembly whose MF flag is [mf]. *)
Record filled (mf : bool) (q : rpacket) (cs : list ChunkLink) : Prop := {
  fl_range : in_range (pkt (rip q));
  fl_network : 0 <= network (rip q);
  fl_transport : transport (rip q) = network (rip q) + 20;
  fl_size : 0 < tlen q <= vlen pay;
  fl_links : links q Anno cs;
  fl_canonical : canonical (tlen q) cs;
  fl_header : whole_header D id (iph q) 0 mf;
  fl_data : forall o, covers cs o -> qbyte q o = vget pay o
}.

Lemma links_data q q' cs :
  chunk q' = chunk q -> (forall i, 0 <= i -> qbyte q' i = qbyte q i) -> sorted 0 cs -> links q Anno cs -> links q' Anno cs.
Proof using.
  intros Hc Hi Hs Hl. destruct cs as [|c cs]; [done|]. cbn [links sorted] in *. destruct Hl as [Hr Hl], Hs as [H1 H2].
  split; [by rewrite <- Hr|]. apply (links_above q); [|done|done]. intros i Hi'. apply Hi. lia.
Qed.

Lemma filled_move mf mf' q q' cs :
  filled mf q cs -> in_range (pkt (rip q')) -> 0 <= network (rip q') -> transport (rip q') = network (rip q') + 20 -> tlen q' = tlen q ->
  chunk q' = chunk q -> (forall i, 0 <= i -> qbyte q' i = qbyte q i) -> whole_header D id (iph q') 0 mf' -> filled mf' q' cs.
Proof using.
  intros [F1 F2 F3 F4 F5 F6 F7 F8] H1 H2 H3 H4 H5 H6 H7. constructor; try done; rewrite ?H4; try done.
  - apply (links_data q); try done. by apply cn_sorted in F6.
  - intros o Ho. pose proof (covers_bound 0 cs o (cn_sorted _ _ F6) Ho). rewrite H6 by lia. by apply F8.
Qed.

Lemma filled_clear_mf mf q cs :
  filled mf q cs -> filled false (set_ip_off q (ip_off (iph q) .& not16 (htons IP_MF))) cs.
Proof using.
  intros Hf. pose proof Hf as [F1 F2 F3 F4 F5 F6 F7 F8]. set (v := ip_off (iph q) .& _).
  assert (Hsh : same_shape q (set_ip_off q v)) by apply shape_pokes. pose proof (shape_tlen _ _ Hsh) as Ht. destruct Hsh as [S1 S2 S3 _ _ _].
  apply (filled_move mf false q); try done; try lia.
  - by apply in_range_poke16.
  - intros i Hi. by apply shape_qbyte_iph.
  - unfold set_ip_off. rewrite iph_poke16 by lia. rewrite <- (andb_false_r mf). unfold v.
    apply (whole_flags D id (iph q) _ mf false 0); [by apply bytes_iph|rewrite vlen_iph; lia|done| |by left].
    intros k Hk. change IP_MF with (2 ^ 13). rewrite not_flag_bit by lia. by destruct (k =? 13).
Qed.

Lemma filled_partial q cs :
  filled (tlen q <? vlen pay) q cs -> (tlen q < vlen pay -> tlen q mod 8 = 0) -> partial q cs.
Proof using. intros [F1 F2 F3 F4 F5 F6 F7 F8] Ho. by constructor. Qed.

Lemma partial_anno q cs m : partial q cs -> partial (mkR (rip q) (chunk q) (sec q) m) cs.
Proof using.
  intros [P1 P2 P3 P4 P5 P6 P7 P8 P9]. constructor; try done. apply (links_data q); try done. apply P6.
Qed.

(** What [join_fragment] makes of the packet, before it is seen to be complete. *)
Definition joined_packet (s : IPReassembler) (junk : Z -> Z) (q p : rpacket) (a b : Z) : option rpacket :=
  let q := if tlen q <? b then extend_queue junk q p a b else q in
  q ← patch_chunks q a b;
  let q := copy_payload q p a b in
  let q := if a =? 0 then copy_first s junk q p else q in
  Some (if negb (has_mf p) then set_ip_off q (ip_off (iph q) .& not16 (htons IP_MF)) else q).

Lemma joined_packet_spec s junk q p a b cs :
  junk_ok junk -> partial q cs -> piece p a b ->
  exists q' cs', joined_packet s junk q p a b = Some q' /\ partial q' cs' /\ tlen q' = Z.max b (tlen q)
    /\ forall o, covers cs' o <-> covers cs o \/ a <= o < b.
Proof using Hpay.
  intros Hj Hq Hp. pose proof (pc_bounds p a b Hp) as [B1 B2]. destruct (pc_aligned p a b Hp) as [Ha8 Hb8]. unfold joined_packet.
  assert (Hr : exists mf cs1, ready b mf (if tlen q <? b then extend_queue junk q p a b else q) cs1
    /\ tlen (if tlen q <? b then extend_queue junk q p a b else q) = Z.max b (tlen q) /\ forall o, covers cs1 o <-> covers cs o).
  { destruct (Z.ltb_spec (tlen q) b) as [Hlt|Hge].
    - exists true, (cs ++ [mkChunk b b]). pose proof (extend_spec junk q p a b cs Hj Hq Hp Hlt) as He. split; [done|]. split.
      + rewrite <- (rd_end _ _ _ _ He), end_of_app. cbn [end_of c_lastoff]. lia.
      + intros o. rewrite covers_app, covers_one. intuition lia.
    - exists (tlen q <? vlen pay), cs. split; [by apply partial_ready|]. split; [lia|done]. }
  destruct Hr as (mf & cs1 & Hr & Ht1 & Hcov1). set (q1 := if tlen q <? b then _ else _) in *.
  destruct (fill_spec mf q1 cs1 p a b Hr Hp) as (q2 & cs' & -> & F1 & F2 & F3 & F4 & F5 & F6 & F7). cbn [mbind option_bind].
  set (q3 := copy_payload q2 p a b) in *. pose proof (shape_tlen _ _ F1) as Ht3. destruct F1 as [S1 S2 S3 _ _ _].
  pose proof Hr as [R1 R2 R3 R4 _ _ _ _ _ R10 _].
  assert (Hfill : filled mf q3 cs') by (constructor; try done; try lia).
  set (q4 := if a =? 0 then copy_first s junk q3 p else q3).
  assert (H4 : filled mf q4 cs' /\ tlen q4 = tlen q3).
  { unfold q4. destruct (Z.eqb_spec a 0) as [->|]; [|done].
    destruct (copy_first_spec s junk q3 p b mf) as (C1 & C2 & C3 & C4 & C5 & C6 & C7); try done; try lia. split; [|done].
    by apply (filled_move mf mf q3). }
  destruct H4 as [H4 Ht4]. eexists. exists cs'. split; [reflexivity|]. rewrite (piece_mf p a b Hp).
  assert (Hm : filled (mf && (b <? vlen pay)) (if negb (b <? vlen pay) then set_ip_off q4 (ip_off (iph q4) .& not16 (htons IP_MF)) else q4) cs').
  { destruct (b <? vlen pay); cbn [negb]; [by rewrite andb_true_r|rewrite andb_false_r; by apply (filled_clear_mf mf)]. }
  assert (Ht : tlen (if negb (b <? vlen pay) then set_ip_off q4 (ip_off (iph q4) .& not16 (htons IP_MF)) else q4) = tlen q1).
  { destruct (b <? vlen pay); cbn [negb]; [lia|]. rewrite (shape_tlen q4) by apply shape_pokes. lia. }
  set (q5 := if negb _ then _ else _) in *. rewrite R10 in Hm. split; [|split; [lia|intros o; by rewrite F5, Hcov1]].
  apply filled_partial; [by rewrite Ht|]. intros Hlt. rewrite Ht, Ht1. destruct (Z.max_spec b (tlen q)) as [[? ->]|[? ->]]; [apply Hq; lia|apply Hb8; lia].
Qed.
End datagram.
