(* ===== verification/ReassembleWhole.v ===== *)
(** * Whole packets

    When a packet in reassembly is complete, and what [emit_whole_packet] makes
    of it. *)

From S2P Require Import Prelude Packet Insn Words Cksum IPHeader Fragment FragmentSpec Reassemble ReassembleSpec ReassembleJoin.
Local Open Scope word_scope.
Local Open Scope Z_scope.

(** "Are we done with this packet?" *)
Definition is_complete (q : rpacket) : bool := negb (has_mf q) && (c_off (chunk q) =? 0) && (c_lastoff (chunk q) =? tlen q).

Section datagram.
Variables (pay D : list Z) (id : Z).
Hypothesis Hpay : vlen pay <= 65515.
Let partial := partial pay D id.
Let piece := piece pay D id.

(** All of the payload has arrived. *)
Definition all_covered (cs : list ChunkLink) : Prop := forall o, 0 <= o < vlen pay -> covers cs o.

Lemma complete_spec q cs : partial q cs -> is_complete q = true <-> all_covered cs.
Proof using Hpay.
  intros [P1 P2 P3 P4 P5 [C1 C2 C3] P7 P8 P9]. unfold is_complete. rewrite has_mf_spec, (wh_mf _ _ _ _ _ P8) by done.
  destruct cs as [|c cs]; [cbn in C2; lia|]. destruct P5 as [E _]. cbn [read_chunk] in E. rewrite E.
  cbn [sorted] in C1. destruct C1 as [H1 H2]. split.
  - intros Hc. bprop. intros o Ho. apply covers_cons. left. unfold within. lia.
  - intros Ha. apply Forall_cons in C3 as [(D1 & _) C3].
    assert (Hfirst : c_off c = 0).
    { specialize (Ha 0 ltac:(lia)). apply covers_cons in Ha as [Ha|Ha]; [unfold within in Ha; lia|].
      pose proof (covers_bound _ _ _ H2 Ha). lia. }
    assert (Hlast : vlen pay <= c_lastoff c).
    { destruct (Z.lt_ge_cases (c_lastoff c) (vlen pay)) as [Hlt|]; [|done]. specialize (Ha (c_lastoff c) ltac:(lia)).
      apply covers_cons in Ha as [Ha|Ha]; [unfold within in Ha; lia|]. pose proof (covers_bound _ _ _ H2 Ha). lia. }
    cbn [end_of] in C2. pose proof (sorted_end _ _ H2) as He. rewrite Z.add_simpl_r in He.
    rewrite (proj2 (Z.ltb_ge (tlen q) (vlen pay))), (proj2 (Z.eqb_eq (c_off c) 0)) by lia. apply Z.eqb_eq. lia.
Qed.

Lemma complete_size q cs : partial q cs -> all_covered cs -> tlen q = vlen pay.
Proof using.
  intros Hq Ha. pose proof (pt_size _ _ _ _ _ Hq) as Hsz. specialize (Ha (vlen pay - 1) ltac:(lia)).
  pose proof (pt_canonical _ _ _ _ _ Hq) as [C1 C2 _]. pose proof (covers_bound 0 cs _ C1 Ha) as Hbd. change (0 - 1) with (-1) in Hbd. lia.
Qed.

(** A datagram put together again. *)
Record reassembled (w : list Z) : Prop := {
  ra_datagram : datagram w;
  ra_cksum : click_in_cksum w (4 * ihl w) = 0;
  ra_flow : same_flow D w;
  ra_id : word16 w 4 = id;
  ra_df : dont_fragment w = false;
  ra_offset : frag_offset w = 0;
  ra_mf : more_fragments w = false;
  ra_payload : payload w = pay
}.

Lemma iph_poke_at q n k v : n = network (rip q) -> 0 <= k -> k + 1 < 60 -> iph (with_pkt q (poke16 (pkt (rip q)) (n + k) v)) = put16 (iph q) k v.
Proof using. intros ->. apply iph_poke16. Qed.
Lemma iph_mkR q c t m : iph (mkR (rip q) c t m) = iph q.
Proof using. done. Qed.

Lemma whole_iph q p : iph (whole_packet q p) = set_cksum (put16 (iph q) 2 (htons (network_length (rip q)))) (ip_hl (iph q) .<< 2).
Proof using.
  unfold whole_packet. cbv zeta. rewrite iph_mkR.
  rewrite !iph_poke_at by (lia || reflexivity). unfold set_cksum. cbv zeta.
  assert (Eh : forall h v, ip_hl (put16 (put16 h 2 v) 10 0) = ip_hl h) by (intros h v; unfold ip_hl; by rewrite !vget_put16_ne by lia).
  by rewrite Eh.
Qed.

Lemma whole_qbyte q p i : 0 <= i -> transport (rip q) = network (rip q) + 20 -> qbyte (whole_packet q p) i = qbyte q i.
Proof using.
  intros Hi Ht. unfold whole_packet, qbyte. cbn [rip with_pkt with_ip pkt transport]. unfold poke16. rewrite !pkt_byte_pokes.
  change (vlen _) with 2. rewrite !(proj2 (Z.ltb_ge (transport (rip q) + i) _)) by lia. by rewrite !andb_false_r.
Qed.

Lemma whole_range q p : in_range (pkt (rip q)) -> in_range (pkt (rip (whole_packet q p))).
Proof using. intros Hq. by do 3 apply in_range_poke16. Qed.

Lemma whole_length q p :
  pkt_length (pkt (rip (whole_packet q p))) = pkt_length (pkt (rip q)) /\ network (rip (whole_packet q p)) = network (rip q)
  /\ transport (rip (whole_packet q p)) = transport (rip q).
Proof using. split; [|done]. unfold whole_packet. cbn [rip with_pkt with_ip pkt]. unfold poke16. by rewrite !pkt_length_pokes. Qed.

(** The bytes of a packet behind its network header. *)
Lemma vget_datagram q i : 0 <= network (rip q) -> 0 <= i < network_length (rip q) -> vget (datagram_of (rip q)) i = pkt_byte (pkt (rip q)) (network (rip q) + i).
Proof using.
  intros Hn Hi. unfold datagram_of, network_length in *. rewrite vget_drop_Z by lia. by rewrite pkt_byte_in by lia.
Qed.

(** It has the size of the packet it was made from. *)
Lemma whole_mem q p : packet_mem (whole_packet q p) = packet_mem q.
Proof using. destruct (whole_length q p) as (L1 & _ & L3). unfold packet_mem, tlen, transport_length. by rewrite L1, L3. Qed.

Lemma vlen_datagram q : 0 <= network (rip q) -> 0 <= network_length (rip q) -> vlen (datagram_of (rip q)) = network_length (rip q).
Proof using. intros Hn Hl. unfold datagram_of, network_length, pkt_length in *. rewrite vlen_drop_Z by lia. lia. Qed.

Lemma bytes_datagram q : in_range (pkt (rip q)) -> 0 <= network (rip q) -> 0 <= network_length (rip q) -> bytes_ok (datagram_of (rip q)).
Proof using.
  intros Hr Hn Hl. apply Forall_lookup. intros i x Hx. pose proof (vget_nat _ _ _ Hx) as Hv. apply lookup_lt_Some in Hx.
  pose proof (vlen_datagram q Hn Hl) as Hd. unfold vlen in Hd. rewrite vget_datagram in Hv by lia. rewrite <- Hv. apply Hr.
Qed.

Lemma whole_packet_spec q p cs :
  partial q cs -> all_covered cs -> reassembled (datagram_of (rip (whole_packet q p))).
Proof using Hpay.
  intros Hq Ha. pose proof (complete_size q cs Hq Ha) as Ht. destruct Hq as [P1 P2 P3 P4 P5 P6 P7 P8 P9]. destruct (whole_length q p) as (L1 & L2 & L3). set (w := whole_packet q p) in *.
  assert (Hnl : network_length (rip q) = 20 + vlen pay /\ network_length (rip w) = 20 + vlen pay).
  { unfold tlen, transport_length, network_length in *. rewrite L1, L2. lia. }
  destruct Hnl as [Hn Hnw]. set (d := datagram_of (rip w)). assert (Hd : vlen d = 20 + vlen pay) by (unfold d; rewrite vlen_datagram; lia).
  pose proof (whole_range q p P1) as Hr. fold w in Hr. pose proof (bytes_datagram w Hr ltac:(lia) ltac:(lia)) as Hb. fold d in Hb.
  pose proof (bytes_iph q P1) as Hbq. pose proof (vlen_iph q) as Hlq. destruct P8 as [W1 W2 W3 W4 W5 W6].
  set (h := put16 (iph q) 2 (htons (20 + vlen pay))). assert (Hbh : bytes_ok h) by by apply bytes_put16.
  assert (Hlh : vlen h = 60) by (unfold h; by rewrite vlen_put16).
  assert (Hhl : ip_hl (iph q) .<< 2 = 20) by (unfold ip_hl; by rewrite W1).
  destruct (set_cksum_spec h 20 Hbh ltac:(lia) ltac:(lia)) as (G1 & G2 & G3 & G4).
  assert (Hw : iph w = set_cksum h 20) by (unfold w; by rewrite whole_iph, Hhl, Hn).
  assert (Hg : forall k, 0 <= k < 20 -> vget d k = vget (set_cksum h 20) k).
  { intros k Hk. unfold d. rewrite vget_datagram by lia. rewrite <- Hw. by rewrite iph_byte by lia. }
  assert (Hk : forall k, 0 <= k < 20 -> k < 2 \/ 3 < k < 10 \/ 11 < k -> vget d k = vget (iph q) k).
  { intros k Hk Hne. rewrite Hg, G4 by lia. unfold h. by rewrite vget_put16_ne by lia. }
  assert (Hi : ihl d = 5) by (unfold ihl; by rewrite Hk, W1 by lia).
  assert (Hff : frag_field d = frag_field (iph q)) by (apply frag_field_bytes; apply Hk; lia).
  assert (Htot : total_length d = 20 + vlen pay).
  { rewrite <- (total_length_put (iph q) (20 + vlen pay)) by (done || lia). fold h. unfold total_length. by rewrite !Hg, !G4 by lia. }
  constructor.
  - constructor; [done|rewrite Hk, W1 by lia; done|lia|lia|lia].
  - rewrite Hi. rewrite <- G1. apply cksum_prefix; try lia. intros i Hi'. apply Hg. lia.
  - intros i Hi'. rewrite Hk by lia. by apply W2.
  - rewrite <- W3. unfold word16. by rewrite !Hk by lia.
  - unfold dont_fragment in *. by rewrite Hff.
  - unfold frag_offset in *. by rewrite Hff.
  - unfold more_fragments in *. rewrite Hff, W6. apply Z.ltb_ge. lia.
  - unfold payload. rewrite Hi. apply vec_eq; [rewrite vlen_drop_Z by lia; lia|]. intros i Hi'. rewrite vlen_drop_Z in Hi' by lia.
    rewrite vget_drop_Z by lia. unfold d. rewrite vget_datagram by lia. rewrite <- (P9 i) by (apply Ha; lia).
    rewrite <- (whole_qbyte q p) by lia. fold w. unfold qbyte. f_equal. lia.
Qed.
End datagram.
