(* ===== verification/ReassembleState.v ===== *)
(** * The reassembler

    Any traffic of fragments: what [IPReassembler] emits is what was fragmented,
    and its own [check] never reports an error. *)

From S2P Require Import Prelude Packet Insn Words Cksum IPHeader Fragment FragmentSpec Reassemble ReassembleSpec ReassembleJoin ReassembleWhole.
Local Open Scope word_scope.
Local Open Scope Z_scope.

Lemma u32_diff a b : u32 (u32 a - b) = u32 (a - b).
Proof. unfold u32. by rewrite Zminus_mod_idemp_l. Qed.
Lemma u32_sum a b : u32 (u32 a + b) = u32 (a + b).
Proof. unfold u32. by rewrite Zplus_mod_idemp_l. Qed.
Lemma u32_u32 a : u32 (u32 a) = u32 a.
Proof. unfold u32. apply Z.mod_mod. lia. Qed.

(** ** Reaping *)

(** What is left of some packets, what has gone, and the memory counted for them. *)
Definition shrunk (b k gone : list rpacket) (mem m : Z) : Prop :=
  (forall q, q ∈ k \/ q ∈ gone -> q ∈ b) /\ (u32 mem = mem -> u32 m = m) /\ u32 m = u32 (mem - (mem_of b - mem_of k)).

Lemma shrunk_refl b mem : shrunk b b [] mem mem.
Proof. split; [set_solver|]. split; [done|]. f_equal. lia. Qed.

Lemma shrunk_drop q b k gone mem m : shrunk b k gone (u32 (mem - packet_mem q)) m -> shrunk (q :: b) k (q :: gone) mem m.
Proof.
  intros (H1 & H2 & H3). split; [set_solver|]. split; [intros _; apply H2, u32_u32|]. rewrite H3, u32_diff. unfold mem_of. rewrite sumf_cons. f_equal. lia.
Qed.

Lemma shrunk_keep q b k gone mem m : shrunk b k gone mem m -> shrunk (q :: b) (q :: k) gone mem m.
Proof.
  intros (H1 & H2 & H3). split; [set_solver|]. split; [done|]. rewrite H3. unfold mem_of. rewrite !sumf_cons. f_equal. lia.
Qed.

Lemma reap_bucket_spec kt b mem : let '(k, m, gone) := reap_bucket kt b mem in shrunk b k gone mem m.
Proof.
  revert mem. induction b as [|q b IH]; intros mem; cbn [reap_bucket]; [apply shrunk_refl|]. destruct (sec q <? kt).
  - specialize (IH (u32 (mem - packet_mem q))). destruct (reap_bucket kt b _) as [[k m] gone]. by apply shrunk_drop.
  - specialize (IH mem). destruct (reap_bucket kt b mem) as [[k m] gone]. by apply shrunk_keep.
Qed.

Lemma overfull_bucket_spec low now delta b mem :
  let '(k, m, gone, _) := overfull_bucket low now delta b mem in shrunk b k gone mem m.
Proof.
  revert mem. induction b as [|q b IH]; intros mem; cbn [overfull_bucket]; [apply shrunk_refl|]. destruct (_ || _).
  - destruct (_ <=? low); [apply shrunk_drop, shrunk_refl|]. specialize (IH (u32 (mem - packet_mem q))).
    destruct (overfull_bucket low now delta b _) as [[[k m] gone] stop]. by apply shrunk_drop.
  - specialize (IH mem). destruct (overfull_bucket low now delta b mem) as [[[k m] gone] stop]. by apply shrunk_keep.
Qed.

(** The same of all buckets. *)
Definition shrunk_all (bs ks : list (list rpacket)) (gone : list rpacket) (mem m : Z) : Prop :=
  Forall2 (fun b k => forall q, q ∈ k -> q ∈ b) bs ks /\ (forall q, q ∈ gone -> exists b, b ∈ bs /\ q ∈ b)
  /\ (u32 mem = mem -> u32 m = m) /\ u32 m = u32 (mem - (total_mem bs - total_mem ks)).

Lemma shrunk_all_refl bs mem : shrunk_all bs bs [] mem mem.
Proof.
  split; [by apply Forall_Forall2_diag, Forall_true|]. split; [set_solver|]. split; [done|]. f_equal. lia.
Qed.

Lemma shrunk_all_cons b k gone bs ks gone' mem m m' :
  shrunk b k gone mem m -> shrunk_all bs ks gone' m m' -> shrunk_all (b :: bs) (k :: ks) (gone ++ gone') mem m'.
Proof.
  intros (H1 & H2 & H3) (G1 & G2 & G3 & G4). split; [constructor; [set_solver|done]|]. split; [|split; [auto|]].
  - intros q [Hq|Hq]%elem_of_app; [exists b; set_solver|]. destruct (G2 q Hq) as (b' & ? & ?). exists b'. set_solver.
  - rewrite G4. unfold total_mem. rewrite !sumf_cons. rewrite <- u32_diff, H3, u32_diff. f_equal. lia.
Qed.

Lemma shrunk_all_trans bs ks ls gone gone' mem m m' :
  shrunk_all bs ks gone mem m -> shrunk_all ks ls gone' m m' -> shrunk_all bs ls (gone ++ gone') mem m'.
Proof.
  intros (H1 & H2 & H3 & H4) (G1 & G2 & G3 & G4). split; [|split; [|split; [auto|]]].
  - eapply Forall2_trans; [|exact H1|exact G1]. cbn. auto.
  - intros q [Hq|Hq]%elem_of_app; [auto|]. destruct (G2 q Hq) as (k & Hk & Hqk). apply list_elem_of_lookup in Hk as [i Hi].
    destruct (Forall2_lookup_r _ _ _ _ _ H1 Hi) as (b & Hb & Hbk). exists b. split; [by apply (list_elem_of_lookup_2 _ i)|auto].
  - rewrite G4. rewrite <- u32_diff, H4, u32_diff. f_equal. lia.
Qed.

Lemma reap_buckets_spec kt bs mem : let '(ks, m, gone) := reap_buckets kt bs mem in shrunk_all bs ks gone mem m.
Proof.
  revert mem. induction bs as [|b bs IH]; intros mem; cbn [reap_buckets]; [apply shrunk_all_refl|].
  pose proof (reap_bucket_spec kt b mem) as Hb. destruct (reap_bucket kt b mem) as [[k m] gone].
  specialize (IH m). destruct (reap_buckets kt bs m) as [[ks m'] gone']. by eapply shrunk_all_cons.
Qed.

Lemma overfull_buckets_spec low now delta bs mem :
  let '(ks, m, gone, _) := overfull_buckets low now delta bs mem in shrunk_all bs ks gone mem m.
Proof.
  revert mem. induction bs as [|b bs IH]; intros mem; cbn [overfull_buckets]; [apply shrunk_all_refl|].
  pose proof (overfull_bucket_spec low now delta b mem) as Hb. destruct (overfull_bucket low now delta b mem) as [[[k m] gone] [|]].
  - rewrite <- (app_nil_r gone). eapply shrunk_all_cons; [exact Hb|apply shrunk_all_refl].
  - specialize (IH m). destruct (overfull_buckets low now delta bs m) as [[[ks m'] gone'] stop]. by eapply shrunk_all_cons.
Qed.

Lemma overfull_deltas_spec low now ds bs mem :
  let '(ks, m, gone) := overfull_deltas low now ds bs mem in shrunk_all bs ks gone mem m.
Proof.
  revert bs mem. induction ds as [|d ds IH]; intros bs mem; cbn [overfull_deltas]; [apply shrunk_all_refl|].
  pose proof (overfull_buckets_spec low now d bs mem) as Hb. destruct (overfull_buckets low now d bs mem) as [[[k m] gone] [|]]; [done|].
  specialize (IH k m). destruct (overfull_deltas low now ds k m) as [[ks m'] gone']. by eapply shrunk_all_trans.
Qed.

(** ** Flows *)

#[export] Instance rpacket_inhabited : Inhabited rpacket := populate (mkR (mkIP (packet_of []) 0 0 0) (mkChunk 0 0) 0 0).

(** What tells the packets that fragments belong to apart. *)
Definition flow_of (h : list Z) : Z * Z * Z * Z := (ip_id h, ip_p h, ip_src h, ip_dst h).

Lemma same_segment_spec h h2 : same_segment h h2 = true <-> flow_of h = flow_of h2.
Proof.
  unfold same_segment, flow_of. split.
  - intros H. bprop. congruence.
  - intros [= -> -> -> ->]. by rewrite !Z.eqb_refl.
Qed.

Lemma flow_whole D id h o mf : whole_header D id h o mf -> flow_of h = (id, vget D 9, word32 D 12, word32 D 16).
Proof.
  intros [_ Hf Hid _ _ _]. unfold flow_of, ip_id, ip_p, ip_src, ip_dst, word32. rewrite Hid.
  by rewrite !(Hf 9), !(Hf 12), !(Hf (12 + 1)), !(Hf (12 + 2)), !(Hf (12 + 3)), !(Hf 16), !(Hf (16 + 1)), !(Hf (16 + 2)), !(Hf (16 + 3)) by lia.
Qed.

Lemma find_queue_spec h b i :
  match find_queue h b i with
  | Some (j, q) => i <= j < i + vlen b /\ vget b (j - i) = q /\ q ∈ b /\ flow_of h = flow_of (iph q)
  | None => forall q, q ∈ b -> flow_of h <> flow_of (iph q)
  end.
Proof.
  revert i. induction b as [|q b IH]; intros i; cbn [find_queue]; [intros q Hq; by apply elem_of_nil in Hq|].
  rewrite vlen_cons. pose proof (vlen_nonneg b). destruct (same_segment h (iph q)) eqn:E.
  - apply same_segment_spec in E. rewrite Z.sub_diag, vget_cons_0. split; [lia|]. split; [done|]. split; [set_solver|done].
  - specialize (IH (i + 1)). destruct (find_queue h b (i + 1)) as [[j r]|].
    + destruct IH as (H1 & H2 & H3 & H4). split; [lia|]. rewrite vget_cons_S by lia. replace (j - i - 1) with (j - (i + 1)) by lia.
      split; [done|]. split; [set_solver|done].
    + intros r [->|Hr]%elem_of_cons; [|by apply IH]. intros Hf%same_segment_spec. congruence.
Qed.

Lemma vget_vset_in {A} `{Inhabited A} (l : list A) i j x :
  0 <= i < vlen l -> 0 <= j -> vget (vset l i x) j = if decide (j = i) then x else vget l j.
Proof.
  intros Hi Hj. rewrite vget_vset by lia. destruct (decide (j = i)) as [->|Hne]; [by rewrite decide_True by lia|].
  by rewrite decide_False by lia.
Qed.

Lemma elem_of_vset {A} `{Inhabited A} (l : list A) i x y : y ∈ vset l i x -> y ∈ l \/ y = x.
Proof.
  unfold vset. destruct (0 <=? i); [|by left]. intros Hy. apply list_elem_of_lookup in Hy as [k Hk].
  destruct (decide (k = Z.to_nat i)) as [->|Hne].
  - destruct (decide (Z.to_nat i < length l)%nat); [rewrite list_lookup_insert_eq in Hk by done; right; congruence|].
    rewrite list_insert_ge in Hk by lia. left. by apply list_elem_of_lookup_2 in Hk.
  - rewrite list_lookup_insert_ne in Hk by done. left. by apply list_elem_of_lookup_2 in Hk.
Qed.

Lemma elem_of_delete {A} (l : list A) (i : nat) y : y ∈ delete i l -> y ∈ l.
Proof.
  rewrite delete_take_drop. intros [Hy|Hy]%elem_of_app; [by apply elem_of_take in Hy as (k & Hk & _); apply list_elem_of_lookup_2 in Hk|].
  apply list_elem_of_lookup in Hy as [k Hk]. rewrite lookup_drop in Hk. by apply list_elem_of_lookup_2 in Hk.
Qed.

Lemma bucketno_range h : 0 <= bucketno h < 256.
Proof. unfold bucketno, NMAP. apply Z.mod_pos_bound. lia. Qed.

Lemma mem_of_cons q b : mem_of (q :: b) = packet_mem q + mem_of b.
Proof. done. Qed.
Lemma mem_of_vset b i q : 0 <= i < vlen b -> mem_of (vset b i q) = mem_of b - packet_mem (vget b i) + packet_mem q.
Proof. apply sumf_vset. Qed.
Lemma mem_of_delete b i : 0 <= i < vlen b -> mem_of (delete (Z.to_nat i) b) = mem_of b - packet_mem (vget b i).
Proof. intros Hi. unfold mem_of, vget. rewrite (proj2 (Z.leb_le 0 i)) by lia. apply sumf_delete. unfold vlen in Hi. lia. Qed.
Lemma total_mem_vset bs n b : 0 <= n < vlen bs -> total_mem (vset bs n b) = total_mem bs - mem_of (vget bs n) + mem_of b.
Proof. apply sumf_vset. Qed.

(** ** The invariant *)

Section traffic.
(** The datagram that is fragmented in each flow: its payload and its header. *)
Variables (pays heads : Z * Z * Z * Z -> list Z).
Hypothesis Hpays : forall k, vlen (pays k) <= 65515.

Definition good (q : rpacket) (cs : list ChunkLink) : Prop :=
  partial (pays (flow_of (iph q))) (heads (flow_of (iph q))) (ip_id (iph q)) q cs.

(** A fragment, with any padding behind it. *)
Definition trimmed (p : rpacket) (n : Z) : rpacket := with_pkt p (pkt_take (pkt (rip p)) (tlen p - n)).
Definition fragment_of (p : rpacket) (a b : Z) : Prop :=
  in_range (pkt (rip p)) /\ 0 <= transport (rip p) /\ b - a <= tlen p
  /\ piece (pays (flow_of (iph p))) (heads (flow_of (iph p))) (ip_id (iph p)) (trimmed p (b - a)) a b.

Record inv (s : IPReassembler) : Prop := {
  iv_buckets : vlen (rmap s) = 256;
  iv_packets : forall n q, 0 <= n < 256 -> q ∈ vget (rmap s) n -> bucketno (iph q) = n /\ exists cs, good q cs;
  iv_mem : mem_used s = u32 (total_mem (rmap s))
}.

Lemma new_reassembler_inv himem m : inv (new_reassembler himem m).
Proof using.
  constructor; [done| |done]. intros n q Hn Hq. unfold new_reassembler in Hq. cbn [rmap] in Hq.
  rewrite vget_replicate in Hq by lia. by apply elem_of_nil in Hq.
Qed.

Lemma shrunk_all_inv s s' gone :
  inv s -> shrunk_all (rmap s) (rmap s') gone (mem_used s) (mem_used s') ->
  inv s' /\ forall q, q ∈ gone -> exists cs, good q cs.
Proof using.
  intros [I1 I2 I3] (H1 & H2 & H3 & H4). assert (Hlen : vlen (rmap s') = 256) by (unfold vlen in *; rewrite <- (Forall2_length _ _ _ H1); done).
  split; [constructor; [done| |]|].
  - intros n q Hn Hq. apply I2; [done|]. assert (Hk : rmap s' !! Z.to_nat n = Some (vget (rmap s') n)) by (apply vget_some; lia).
    destruct (Forall2_lookup_r _ _ _ _ _ H1 Hk) as (b & Hb & Hbk). apply Hbk in Hq. apply vget_nat in Hb.
    rewrite Z2Nat.id in Hb by lia. by rewrite Hb.
  - rewrite <- H3 by (rewrite I3; apply u32_u32). rewrite H4, I3, u32_diff. f_equal. lia.
  - intros q Hq. destruct (H2 q Hq) as (b & Hb & Hqb). apply elem_of_vget in Hb as (n & Hn & Hb).
    assert (q ∈ vget (rmap s) n) as Hq' by congruence. destruct (I2 n q ltac:(lia) Hq'). done.
Qed.

Lemma reap_inv s now : inv s -> let '(s', gone) := reap s now in inv s' /\ forall q, q ∈ gone -> exists cs, good q cs.
Proof using.
  intros Hs. unfold reap. pose proof (reap_buckets_spec (now - REAP_TIMEOUT) (rmap s) (mem_used s)) as H.
  destruct (reap_buckets _ _ _) as [[m mem] gone]. by apply (shrunk_all_inv s).
Qed.

Lemma reap_overfull_inv s now : inv s -> let '(s', gone) := reap_overfull s now in inv s' /\ forall q, q ∈ gone -> exists cs, good q cs.
Proof using.
  intros Hs. unfold reap_overfull. pose proof (overfull_deltas_spec (mem_low_thresh s) now [10; 5; 0] (rmap s) (mem_used s)) as H.
  destruct (overfull_deltas _ _ _ _ _) as [[m mem] gone]. by apply (shrunk_all_inv s).
Qed.

(** *** Joining *)

Lemma join_fragment_spec s junk n i q p a b cs (pay D : list Z) id :
  vlen pay <= 65515 -> junk_ok junk -> partial pay D id q cs -> piece pay D id p a b -> u32 (mem_used s) = mem_used s ->
  exists q' cs', partial pay D id q' cs' /\ (forall o, covers cs' o <-> covers cs o \/ a <= o < b)
    /\ join_fragment s junk n i q p a b =
       let s1 := bucket_set s n i q' (u32 (mem_used s + (packet_mem q' - packet_mem q))) in
       Some (if is_complete q' then let '(s2, w) := emit_whole_packet s1 n i q' p in (s2, Some w) else (s1, None)).
Proof using.
  clear Hpays. intros Hpay Hj Hq Hp Hmem. unfold join_fragment.
  set (q0 := if mtu_anno s && _ then mkR (rip q) (chunk q) (sec q) (u16 (network_length (rip p))) else q).
  assert (Hq0 : partial pay D id q0 cs /\ tlen q0 = tlen q) by (unfold q0; destruct (_ && _); [split; [by apply partial_anno|done]|done]).
  destruct Hq0 as [Hq0 Ht0]. destruct (joined_packet_spec pay D id Hpay s junk q0 p a b cs Hj Hq0 Hp) as (q' & cs' & E & P & T & C).
  exists q', cs'. split; [done|]. split; [done|]. pose proof (pc_bounds _ _ _ _ _ _ Hp) as [B1 B2].
  assert (Hext : (tlen q0 <? b) && negb (has_mf q0) = false /\ (tlen q0 <? b) && negb (tlen q0 .& 7 =? 0) = false).
  { destruct (Z.ltb_spec (tlen q0) b) as [Hlt|]; [|done]. cbn [andb]. destruct Hq0 as [Q1 _ _ _ _ _ Q7 Q8 _].
    rewrite has_mf_spec, (wh_mf _ _ _ _ _ Q8), (proj2 (Z.ltb_lt (tlen q0) (vlen pay))) by (done || lia). split; [done|].
    change 7 with (Z.ones 3). rewrite Z.land_ones by lia. change (2 ^ 3) with 8. by rewrite Q7 by lia. }
  destruct Hext as [-> ->]. unfold joined_packet in E. destruct (patch_chunks _ a b) as [q2|]; cbn [mbind option_bind] in *; [|done].
  injection E as E. rewrite E. cbv zeta.
  assert (Hm : (if tlen q0 <? b then u32 (mem_used s + (b - tlen q0)) else mem_used s) = u32 (mem_used s + (packet_mem q' - packet_mem q))).
  { unfold packet_mem. rewrite T, Ht0. destruct (Z.ltb_spec (tlen q) b).
    - f_equal. lia.
    - rewrite <- Hmem at 1. f_equal. lia. }
  rewrite Hm. unfold is_complete. by destruct (_ && _ && _).
Qed.

(** Putting a packet into its bucket, and taking it out. *)
Lemma bucket_set_inv s n i q q' :
  inv s -> 0 <= n < 256 -> 0 <= i < vlen (vget (rmap s) n) -> vget (vget (rmap s) n) i = q ->
  bucketno (iph q') = n -> (exists cs, good q' cs) -> inv (bucket_set s n i q' (u32 (mem_used s + (packet_mem q' - packet_mem q)))).
Proof using.
  intros [I1 I2 I3] Hn Hi Hq Hb Hg. constructor; cbn [bucket_set with_map rmap mem_used].
  - by rewrite vlen_vset.
  - intros m r Hm Hr. rewrite vget_vset_in in Hr by lia. destruct (decide (m = n)) as [->|Hne]; [|by apply I2].
    apply elem_of_vset in Hr as [Hr| ->]; [by apply I2|done].
  - rewrite I3, u32_sum. f_equal. rewrite total_mem_vset, mem_of_vset, Hq by lia. lia.
Qed.

Lemma bucket_delete_inv s n i q :
  inv s -> 0 <= n < 256 -> 0 <= i < vlen (vget (rmap s) n) -> vget (vget (rmap s) n) i = q ->
  inv (bucket_delete s n i (u32 (mem_used s - packet_mem q))).
Proof using.
  intros [I1 I2 I3] Hn Hi Hq. constructor; cbn [bucket_delete with_map rmap mem_used].
  - by rewrite vlen_vset.
  - intros m r Hm Hr. rewrite vget_vset_in in Hr by lia. destruct (decide (m = n)) as [->|Hne]; [|by apply I2].
    apply I2; [done|]. by apply elem_of_delete in Hr.
  - rewrite I3, u32_diff. f_equal. rewrite total_mem_vset, mem_of_delete, Hq by lia. lia.
Qed.

Lemma make_queue_inv s junk p a b :
  inv s -> junk_ok junk -> piece (pays (flow_of (iph p))) (heads (flow_of (iph p))) (ip_id (iph p)) p a b -> inv (make_queue s junk p).
Proof using Hpays.
  intros [I1 I2 I3] Hj Hp. pose proof (queue_packet_spec _ _ _ (Hpays _) s junk p a b Hj Hp) as Hq. set (q := queue_packet s junk p) in *.
  assert (Hf : flow_of (iph q) = flow_of (iph p)) by (rewrite (flow_whole _ _ _ _ _ (pt_header _ _ _ _ _ Hq)); symmetry; apply (flow_whole _ _ _ _ _ (pc_header _ _ _ _ _ _ Hp))).
  assert (Hid : ip_id (iph q) = ip_id (iph p)) by (unfold flow_of in Hf; congruence).
  assert (Hn : bucketno (iph q) = bucketno (iph p)) by (unfold bucketno; by rewrite Hid).
  pose proof (bucketno_range (iph p)) as Hr. unfold make_queue. fold q. constructor; cbn [with_map rmap mem_used].
  - by rewrite vlen_vset.
  - intros m r Hm Hrr. rewrite vget_vset_in in Hrr by lia. destruct (decide (m = bucketno (iph p))) as [->|Hne]; [|by apply I2].
    apply elem_of_cons in Hrr as [->|Hrr]; [|by apply I2]. split; [done|]. exists [mkChunk a b]. unfold good. by rewrite Hf, Hid.
  - rewrite I3, u32_sum. f_equal. rewrite total_mem_vset, mem_of_cons by lia. unfold packet_mem.
    rewrite byte_off_spec, (wh_offset _ _ _ _ _ (pc_header _ _ _ _ _ _ Hp)) by apply Hp.
    assert (Ht : tlen q = b).
    { pose proof (cn_end _ _ (pt_canonical _ _ _ _ _ Hq)) as He. cbn in He. done. }
    rewrite Ht, (pc_size _ _ _ _ _ _ Hp). pose proof (pc_aligned _ _ _ _ _ _ Hp) as [Ha8 _]. Z.div_mod_to_equations. lia.
Qed.

(** *** A packet arrives *)

Lemma iph_trimmed p n : 0 <= tlen p - n -> 0 <= n -> 0 <= transport (rip p) -> iph (trimmed p n) = iph p.
Proof using.
  intros H1 H2 H3. apply vec_eq; [by rewrite !vlen_iph|]. intros i Hi. rewrite vlen_iph in Hi. rewrite !iph_byte by lia.
  cbn [trimmed with_pkt with_ip rip pkt network]. apply pkt_byte_take. unfold tlen, transport_length in *. lia.
Qed.

Lemma piece_rip pay D id p p' a b : rip p' = rip p -> piece pay D id p a b -> piece pay D id p' a b.
Proof using.
  intros E [P1 P2 P3 P4 P5 P6 P7 P8 P9 P10]. unfold tlen, iph, qbyte in *. rewrite <- E in *. by constructor.
Qed.

(** The edges that [simple_action] computes. *)
Lemma fragment_edges p a b :
  fragment_of p a b -> IP_BYTE_OFF (iph p) = a /\ a + htons (ip_len (iph p)) - (ip_hl (iph p) .<< 2) = b
  /\ has_mf p = (b <? vlen (pays (flow_of (iph p)))).
Proof using.
  intros (H1 & H2 & H3 & Hp). pose proof (pc_bounds _ _ _ _ _ _ Hp) as [B1 _]. pose proof (iph_trimmed p (b - a) ltac:(lia) ltac:(lia) H2) as Hi.
  pose proof (pc_header _ _ _ _ _ _ Hp) as Hw. pose proof (pc_total _ _ _ _ _ _ Hp) as Ht. pose proof (pc_aligned _ _ _ _ _ _ Hp) as [Ha _].
  rewrite Hi in Hw, Ht. rewrite byte_off_spec, (wh_offset _ _ _ _ _ Hw), Ht, has_mf_spec, (wh_mf _ _ _ _ _ Hw) by done.
  unfold ip_hl. rewrite (wh_first _ _ _ _ _ Hw). change ((69 .& 15) .<< 2) with 20. split; [Z.div_mod_to_equations; lia|]. split; [lia|done].
Qed.

(** What is sent to output 1 is a packet in reassembly. *)
Definition given_up (out : list (Z * rpacket)) : Prop := Forall (fun pq => pq.1 = 1 /\ exists cs, good pq.2 cs) out.

Lemma given_up_second noutputs gone : (forall q, q ∈ gone -> exists cs, good q cs) -> given_up (to_second noutputs gone).
Proof using.
  intros H. unfold to_second. destruct (1 <? noutputs); [|by constructor]. apply Forall_forall. intros pq Hpq.
  apply list_elem_of_fmap in Hpq as (q & -> & Hq). split; [done|by apply H].
Qed.

Lemma count_frag_inv s seen bad : inv s -> inv (count_frag s seen bad).
Proof using. intros [I1 I2 I3]. by constructor. Qed.

Lemma joined_step s junk p a b :
  inv s -> junk_ok junk -> piece (pays (flow_of (iph p))) (heads (flow_of (iph p))) (ip_id (iph p)) p a b ->
  exists s' w, (let n := bucketno (iph p) in
    match find_queue (iph p) (vget (rmap s) n) 0 with
    | None => Some (make_queue s junk p, None)
    | Some (i, q) => join_fragment s junk n i q p a b
    end) = Some (s', w) /\ inv s'
  /\ match w with
     | None => True
     | Some w => reassembled (pays (flow_of (iph p))) (heads (flow_of (iph p))) (ip_id (iph p)) (datagram_of (rip w))
     end.
Proof using Hpays.
  intros Hs Hj Hp. cbv zeta. set (n := bucketno (iph p)). pose proof (bucketno_range (iph p)) as Hn. fold n in Hn.
  pose proof (find_queue_spec (iph p) (vget (rmap s) n) 0) as Hf. destruct (find_queue _ _ 0) as [[i q]|].
  2: { do 2 eexists. split; [reflexivity|]. split; [by apply (make_queue_inv s junk p a b)|done]. }
  destruct Hf as (Hi & Hv & Hq & Hk). rewrite Z.sub_0_r in Hv. destruct (iv_packets s Hs n q Hn Hq) as [Hb [cs Hg]].
  assert (Hid : ip_id (iph q) = ip_id (iph p)) by (unfold flow_of in Hk; congruence). unfold good in Hg. rewrite <- Hk, Hid in Hg.
  set (pay := pays (flow_of (iph p))) in *. set (D := heads (flow_of (iph p))) in *. set (id := ip_id (iph p)) in *.
  assert (Hmem : u32 (mem_used s) = mem_used s) by (rewrite (iv_mem s Hs); apply u32_u32).
  destruct (join_fragment_spec s junk n i q p a b cs pay D id (Hpays _) Hj Hg Hp Hmem) as (q' & cs' & Hq' & Hcov & ->). cbv zeta.
  assert (Hk' : flow_of (iph q') = flow_of (iph p)).
  { rewrite (flow_whole _ _ _ _ _ (pt_header _ _ _ _ _ Hq')). symmetry. apply (flow_whole _ _ _ _ _ (pc_header _ _ _ _ _ _ Hp)). }
  assert (Hid' : ip_id (iph q') = id) by (unfold flow_of in Hk'; unfold id; congruence).
  set (s1 := bucket_set s n i q' _). assert (Hs1 : inv s1).
  { apply (bucket_set_inv s n i q q'); try done; try lia; [unfold n, bucketno; by rewrite Hid'|].
    exists cs'. unfold good. by rewrite Hk', Hid'. }
  destruct (is_complete q') eqn:Hc; [|by do 2 eexists].
  assert (Ha : all_covered pay cs') by by apply (complete_spec pay D id (Hpays _) q' cs' Hq').
  do 2 eexists. split; [reflexivity|]. split; [|by apply (whole_packet_spec pay D id (Hpays _) q' p cs')].
  assert (Hd : inv (bucket_delete s1 n i (u32 (mem_used s1 - packet_mem (whole_packet q' p))))).
  { rewrite whole_mem. assert (Hvs : vget (rmap s1) n = vset (vget (rmap s) n) i q').
    { cbn [s1 bucket_set with_map rmap]. rewrite vget_vset_in by (rewrite ?(iv_buckets s Hs); lia). by rewrite decide_True. }
    apply bucket_delete_inv; [done|done|rewrite Hvs, vlen_vset; lia|]. rewrite Hvs. apply vget_vset_eq. lia. }
  destruct Hd as [D1 D2 D3]. by constructor.
Qed.

(** [simple_action] once a timestamp has been seen to. *)
Definition stamped (clock : Z) (p : rpacket) : rpacket :=
  if sec p =? 0 then mkR (rip p) (chunk p) clock (mtu_val p) else p.

Lemma stamped_fragment clock p a b : fragment_of p a b -> fragment_of (stamped clock p) a b /\ iph (stamped clock p) = iph p.
Proof using.
  intros Hab. unfold stamped. destruct (sec p =? 0); [|done]. split; [|done]. destruct Hab as (H1 & H2 & H3 & H4). do 3 (split; [done|]).
  by apply (piece_rip _ _ _ (trimmed p (b - a))).
Qed.

(** A fragment goes through to its queue. *)
Lemma simple_action_fragment noutputs clock junk s p a b :
  fragment_of p a b -> IP_ISFRAG (iph p) = true ->
  simple_action noutputs clock junk s p =
    let p1 := stamped clock p in
    let s := count_frag s 1 0 in
    let '(s, gone) := if reap_time s <=? sec p1 then reap s (sec p1) else (s, []) in
    let p2 := trimmed p1 (b - a) in
    let '(s, gone') := if mem_high_thresh s <? mem_used s then reap_overfull s (sec p2) else (s, []) in
    let out := to_second noutputs (gone ++ gone') in
    let n := bucketno (iph p2) in
    match find_queue (iph p2) (vget (rmap s) n) 0 with
    | None => Some (make_queue s junk p2, None, out)
    | Some (i, q) => '(s, w) ← join_fragment s junk n i q p2 a b; Some (s, w, out)
    end.
Proof using Hpays.
  intros Hab Hfrag. unfold simple_action. rewrite Hfrag. cbn [negb]. cbv zeta. fold (stamped clock p).
  destruct (stamped_fragment clock p a b Hab) as [Hp1 _]. set (p1 := stamped clock p) in *.
  destruct (if reap_time _ <=? sec p1 then _ else _) as [s2 gone].
  destruct (fragment_edges p1 a b Hp1) as (-> & -> & Hmf). destruct Hp1 as (R1 & R2 & R3 & R4).
  pose proof (pc_bounds _ _ _ _ _ _ R4) as [B1 B2]. pose proof (pc_aligned _ _ _ _ _ _ R4) as [A1 A2]. pose proof (Hpays (flow_of (iph p1))) as Hlen.
  assert (Hbad : (65535 <? b) || (b <=? a) || (negb (b .& 7 =? 0) && has_mf p1) || (tlen p1 <? b - a) = false).
  { rewrite (proj2 (Z.ltb_ge 65535 b)), (proj2 (Z.leb_gt b a)), (proj2 (Z.ltb_ge (tlen p1) (b - a))), orb_false_r by lia. cbn [orb].
    rewrite Hmf. destruct (Z.ltb_spec b (vlen (pays (flow_of (iph p1))))); [|apply andb_false_r].
    change 7 with (Z.ones 3). rewrite Z.land_ones by lia. change (2 ^ 3) with 8. by rewrite A2 by lia. }
  by rewrite Hbad.
Qed.

Lemma simple_action_step noutputs clock junk s p :
  inv s -> junk_ok junk -> (IP_ISFRAG (iph p) = true -> exists a b, fragment_of p a b) ->
  exists s' w out, simple_action noutputs clock junk s p = Some (s', w, out) /\ inv s' /\ given_up out
  /\ if IP_ISFRAG (iph p)
     then match w with
          | None => True
          | Some w => reassembled (pays (flow_of (iph p))) (heads (flow_of (iph p))) (ip_id (iph p)) (datagram_of (rip w))
          end
     else s' = s /\ w = Some p /\ out = [].
Proof using Hpays.
  intros Hs Hj Hp. destruct (IP_ISFRAG (iph p)) eqn:Hfrag.
  2: { unfold simple_action. rewrite Hfrag. do 3 eexists. split; [reflexivity|]. split; [done|]. split; [by constructor|done]. }
  destruct (Hp eq_refl) as (a & b & Hab). rewrite (simple_action_fragment _ _ _ _ _ a b Hab Hfrag). clear Hp. cbv zeta.
  destruct (stamped_fragment clock p a b Hab) as [Hp1 Hi]. set (p1 := stamped clock p) in *. rewrite <- Hi in *. clear Hi Hab.
  set (s1 := count_frag s 1 0). assert (Hs1 : inv s1) by by apply count_frag_inv.
  assert (Hr : let '(s2, gone) := if reap_time s1 <=? sec p1 then reap s1 (sec p1) else (s1, []) in inv s2 /\ forall q, q ∈ gone -> exists cs, good q cs).
  { destruct (reap_time s1 <=? sec p1); [by apply reap_inv|]. split; [done|set_solver]. }
  destruct (if reap_time s1 <=? sec p1 then reap s1 (sec p1) else (s1, [])) as [s2 gone]. destruct Hr as [Hs2 Hg].
  destruct Hp1 as (R1 & R2 & R3 & R4). pose proof (pc_bounds _ _ _ _ _ _ R4) as [B1 B2]. set (p2 := trimmed p1 (b - a)) in *.
  assert (Hi : iph p2 = iph p1) by (apply iph_trimmed; lia).
  assert (Hr : let '(s3, gone') := if mem_high_thresh s2 <? mem_used s2 then reap_overfull s2 (sec p2) else (s2, []) in inv s3 /\ forall q, q ∈ gone' -> exists cs, good q cs).
  { destruct (mem_high_thresh s2 <? mem_used s2); [by apply reap_overfull_inv|]. split; [done|set_solver]. }
  destruct (if mem_high_thresh s2 <? mem_used s2 then reap_overfull s2 (sec p2) else (s2, [])) as [s3 gone']. destruct Hr as [Hs3 Hg'].
  assert (Hout : given_up (to_second noutputs (gone ++ gone'))) by (apply given_up_second; intros q [Hq|Hq]%elem_of_app; auto).
  rewrite <- Hi in *. destruct (joined_step s3 junk p2 a b Hs3 Hj R4) as (s' & w & Hstep & Hs' & Hw). cbv zeta in Hstep.
  exists s', w, (to_second noutputs (gone ++ gone')). split; [|by auto].
  destruct (find_queue (iph p2) _ 0) as [[i q]|]; [|by injection Hstep as -> ->]. by rewrite Hstep.
Qed.

(** *** [check] *)

Lemma check_chunks_spec q cs fuel r off lo :
  cs <> [] -> links q r cs -> sorted lo cs -> end_of (lo - 1) cs = tlen q -> Forall (proper (tlen q)) cs ->
  off = 0 \/ off mod 8 = 0 /\ lo = off + 1 -> (length cs < fuel)%nat -> check_chunks fuel q r off = true.
Proof using.
  clear Hpays. revert fuel r off lo. induction cs as [|c cs IH]; intros fuel r off lo Hne Hl Hs He Hp Ho Hf; [done|].
  destruct fuel as [|fuel]; [lia|]. cbn [check_chunks links sorted end_of length] in *. destruct Hl as [Hr Hl], Hs as [Hc Hs].
  apply Forall_cons in Hp as [(P1 & P2 & P3) Hp]. pose proof (sorted_end _ _ Hs) as Hse. rewrite Z.add_simpl_r in Hse. rewrite Hr.
  rewrite (proj2 (Z.leb_gt (c_lastoff c) (c_off c))), (proj2 (Z.ltb_ge (tlen q) (c_lastoff c))) by lia. cbn [orb].
  assert (Hgap : negb (off =? 0) && (c_off c <? off + 8) = false).
  { destruct (Z.eqb_spec off 0); [done|]. cbn [negb andb]. apply Z.ltb_ge. destruct Ho as [|[Ho Hlo]]; [done|]. Z.div_mod_to_equations. lia. }
  rewrite Hgap. unfold next_chunk. rewrite Hr. destruct (Z.leb_spec (tlen q) (c_lastoff c)) as [|Hlt]; [done|].
  apply (IH fuel _ _ (c_lastoff c + 1)); try done.
  - intros ->. cbn in He. lia.
  - by rewrite Z.add_simpl_r.
  - right. split; [by apply P3|done].
  - lia.
Qed.

Lemma check_inv s : inv s -> check s = true.
Proof using.
  intros [I1 I2 I3]. unfold check. rewrite I3, Z.eqb_refl, andb_true_r. apply forallb_forall. intros n Hn%list_elem_of_In%elem_of_seqZ.
  apply forallb_forall. intros q Hq%list_elem_of_In. unfold NMAP in Hn. destruct (I2 n q ltac:(lia) Hq) as [Hb [cs [_ _ _ P4 P5 [C1 C2 C3] _ _ _]]].
  unfold check_packet. rewrite Hb, Z.eqb_refl. cbn [andb]. pose proof (sorted_length 0 cs C1) as Hlen. change (0 - 1) with (-1) in Hlen.
  apply (check_chunks_spec q cs _ _ _ 0); try done; [intros ->; cbn in C2; lia|by left|]. unfold chunk_fuel. lia.
Qed.

(** Any number of packets, with the clock and the contents of new memory. *)
Definition arrival : Type := Z * (Z -> Z) * rpacket.

Fixpoint run (noutputs : Z) (s : IPReassembler) (ps : list arrival) : option (IPReassembler * list (option rpacket * list (Z * rpacket))) :=
  match ps with
  | [] => Some (s, [])
  | (clock, junk, p) :: ps' =>
      '(s, w, out) ← simple_action noutputs clock junk s p;
      '(s, outs) ← run noutputs s ps';
      Some (s, (w, out) :: outs)
  end.

Definition arrival_ok (x : arrival) : Prop := junk_ok x.1.2 /\ (IP_ISFRAG (iph x.2) = true -> exists a b, fragment_of x.2 a b).

(** What may come out when [p] has come in. *)
Definition output_ok (x : arrival) (o : option rpacket * list (Z * rpacket)) : Prop :=
  let p := x.2 in let k := flow_of (iph p) in
  given_up o.2 /\
  if IP_ISFRAG (iph p)
  then match o.1 with None => True | Some w => reassembled (pays k) (heads k) (ip_id (iph p)) (datagram_of (rip w)) end
  else o = (Some p, []).

Lemma run_inv noutputs s ps :
  inv s -> Forall arrival_ok ps -> exists s' outs, run noutputs s ps = Some (s', outs) /\ inv s' /\ Forall2 output_ok ps outs.
Proof using Hpays.
  revert s. induction ps as [|[[clock junk] p] ps IH]; intros s Hs Hps; cbn [run]; [by do 2 eexists|].
  apply Forall_cons in Hps as [[Hj Hp] Hps]. cbn [fst snd] in Hj, Hp.
  destruct (simple_action_step noutputs clock junk s p Hs Hj Hp) as (s1 & w & out & -> & Hs1 & Hout & Hw). cbn [mbind option_bind].
  destruct (IH s1 Hs1 Hps) as (s2 & outs & -> & Hs2 & Houts). cbn [mbind option_bind]. do 2 eexists. split; [reflexivity|]. split; [done|].
  constructor; [|done]. split; [done|]. cbn [fst snd]. destruct (IP_ISFRAG (iph p)); [done|]. by destruct Hw as (_ & -> & ->).
Qed.
End traffic.
