(* ===== verification/ReassembleTrip.v ===== *)
(** * From fragments back to the packet

    The fragments that [IPFragmenter] makes of a packet, in any order, through an
    [IPReassembler]. *)

From S2P Require Import Prelude Packet Insn Words Cksum IPHeader Fragment FragmentSpec Reassemble ReassembleSpec ReassembleJoin.
From S2P Require Import ReassembleWhole ReassembleState.
Local Open Scope word_scope.
Local Open Scope Z_scope.

(** ** Fragments are pieces *)

(** A packet that comes in. *)
Definition incoming (t : Z) (p : ip_packet) : rpacket := mkR p (mkChunk 0 0) t 0.

Lemma in_range_pkt p : pkt_ok p -> in_range p.
Proof. intros Hp i. by apply pkt_byte_range. Qed.

Lemma piece_trimmed pay D id p a b : piece pay D id p a b -> piece pay D id (trimmed p (b - a)) a b.
Proof.
  intros [P1 P2 P3 P4 P5 P6 P7 P8 P9 P10]. set (p' := trimmed p (b - a)).
  assert (Hn : tlen p - (b - a) = 0) by lia. pose proof (vlen_nonneg (pkt_data (pkt (rip p)))) as Hl. fold (pkt_length (pkt (rip p))) in Hl.
  assert (Hb : forall i, pkt_byte (pkt (rip p')) i = pkt_byte (pkt (rip p)) i).
  { intros i. unfold p', trimmed. rewrite Hn. cbn [with_pkt with_ip rip pkt]. apply pkt_byte_take. lia. }
  assert (Hlen : pkt_length (pkt (rip p')) = pkt_length (pkt (rip p))).
  { unfold p', trimmed. rewrite Hn. cbn [with_pkt with_ip rip pkt]. rewrite pkt_length_take by lia. lia. }
  assert (Hi : iph p' = iph p) by (apply iph_trimmed; lia).
  constructor; rewrite ?Hi; try done.
  - intros i. rewrite Hb. apply P1.
  - unfold tlen, transport_length in *. rewrite Hlen. done.
  - intros o Ho. unfold qbyte. rewrite Hb. by apply P10.
Qed.

Lemma fragment_is_piece mtu D id pay t p a b :
  marked p -> fragment_ok mtu D id (datagram_of p) -> ihl D = 5 -> vlen (datagram_of p) < vlen pay + 20 ->
  8 * frag_offset (datagram_of p) = a -> payload (datagram_of p) = range pay a b -> 0 <= a < b -> b <= vlen pay ->
  (b < vlen pay -> (b - a) mod 8 = 0) -> more_fragments (datagram_of p) = (b <? vlen pay) ->
  piece pay D id (incoming t p) a b.
Proof.
  intros [M1 M2 M3] [F1 Fh F2 F3 F4 F5 F6] HD Hsmall Ha Hpay Hab Hb Hb8 Hmf. set (f := datagram_of p) in *.
  pose proof F1 as [G1 G2 G3 G4 G5]. assert (Hi : ihl f = 5) by lia. set (q := incoming t p).
  assert (Hlf : vlen f = 20 + (b - a)).
  { assert (E : vlen (payload f) = b - a) by (rewrite Hpay; apply vlen_range; lia). unfold payload in E. rewrite vlen_drop_Z in E by lia. lia. }
  assert (Hnl : pkt_length (pkt p) = network p + vlen f).
  { unfold f, datagram_of, pkt_length in *. rewrite vlen_drop_Z in * by lia. lia. }
  assert (Hk : forall k, 0 <= k < 20 -> vget (iph q) k = vget f k).
  { intros k Hk. apply (header_byte (pkt p) (network p)); [done|lia|]. fold (datagram_of p) f. lia. }
  assert (Hw : whole_header D id (iph q) (a / 8) (b <? vlen pay)).
  { apply (whole_same D id f); [done|]. constructor; try done; [|rewrite <- Ha; rewrite Z.mul_comm, Z.div_mul by lia; done].
    unfold ihl in Hi. Z.div_mod_to_equations. lia. }
  assert (Hrange : in_range (pkt (rip q))) by by apply in_range_pkt.
  constructor; try done.
  - cbn [q incoming rip]. lia.
  - unfold tlen, transport_length. cbn [q incoming rip]. lia.
  - rewrite <- Ha. split; [by rewrite Z.mul_comm, Z.mod_mul by lia|]. intros Hlt. specialize (Hb8 Hlt). Z.div_mod_to_equations. lia.
  - lia.
  - destruct (ip_header_fields (iph q) f Hk) as (_ & _ & -> & _). destruct (ip_fields f G1 ltac:(lia)) as (_ & _ & -> & _). lia.
  - intros o Ho. unfold qbyte. cbn [q incoming rip]. rewrite M3, Hi. replace (vget pay o) with (vget (range pay a b) (o - a)) by (rewrite vget_range by lia; f_equal; lia). rewrite <- Hpay.
    unfold payload. rewrite Hi, vget_drop_Z by lia. unfold f, datagram_of. rewrite vget_drop_Z by lia. rewrite pkt_byte_in by lia. f_equal. lia.
Qed.

(** Intervals one behind the other, from [lo] to [hi]. *)
Fixpoint chained (lo hi : Z) (ivs : list (Z * Z)) : Prop :=
  match ivs with
  | [] => lo = hi
  | (a, b) :: ivs' => a = lo /\ a < b <= hi /\ chained b hi ivs'
  end.

(** What a fragment holds. *)
Definition holds_interval (pay f : list Z) (iv : Z * Z) : Prop :=
  8 * frag_offset f = iv.1 /\ payload f = range pay iv.1 iv.2 /\ 0 <= iv.1 < iv.2 /\ iv.2 <= vlen pay
  /\ (iv.2 < vlen pay -> (iv.2 - iv.1) mod 8 = 0) /\ more_fragments f = (iv.2 <? vlen pay).

Lemma covers_intervals pay o fs :
  0 <= o -> 8 * o <= vlen pay -> covers_data o false (range pay (8 * o) (vlen pay)) fs ->
  exists ivs, Forall2 (holds_interval pay) fs ivs /\ chained (8 * o) (vlen pay) ivs.
Proof.
  revert o. induction fs as [|f fs IH]; intros o Ho Hl Hc; [done|]. destruct fs as [|g fs].
  - destruct Hc as (C1 & C2 & C3 & C4). rewrite vlen_range in C4 by lia. exists [(8 * o, vlen pay)]. split.
    + constructor; [|constructor]. unfold holds_interval. cbn [fst snd]. split; [lia|]. split; [done|]. split; [lia|]. split; [lia|].
      split; [lia|]. by rewrite Z.ltb_irrefl.
    + cbn. lia.
  - destruct Hc as (C1 & C2 & k & rest & C3 & C4 & C5 & C6).
    assert (Hle : 8 * o + 8 * k <= vlen pay).
    { apply (f_equal vlen) in C5. rewrite vlen_range, vlen_app in C5 by lia. pose proof (vlen_nonneg rest). lia. }
    assert (Hsplit : payload f = range pay (8 * o) (8 * (o + k)) /\ rest = range pay (8 * (o + k)) (vlen pay)).
    { assert (Hn : 8 * (o + k) = 8 * o + 8 * k) by lia. rewrite Hn, <- (take_range pay (8 * o) (vlen pay) (8 * k)) by lia.
      rewrite <- (drop_range pay (8 * o) (vlen pay) (8 * k)), C5 by lia.
      assert (Hnat : Z.to_nat (8 * k) = length (payload f)) by (unfold vlen in C4; lia). rewrite Hnat, take_app_length, drop_app_length. done. }
    destruct Hsplit as [S1 S2]. rewrite S2 in C6. destruct (IH (o + k)) as (ivs & I1 & I2); [lia|lia|done|].
    assert (Hlt : 8 * (o + k) < vlen pay).
    { inversion I1 as [|x y xs ys Hxy _ Ex Ey]. subst. destruct y as [y1 y2]. destruct I2 as (E & I2 & _). destruct Hxy as (_ & _ & Hy & Hy2 & _). cbn in *. lia. }
    exists ((8 * o, 8 * (o + k)) :: ivs). split; [constructor; [|done]|cbn; split; [done|split; [lia|done]]].
    unfold holds_interval. cbn [fst snd]. split; [lia|]. split; [done|]. split; [lia|]. split; [lia|].
    split; [intros _; replace (8 * (o + k) - 8 * o) with (k * 8) by lia; by rewrite Z.mod_mul by lia|]. rewrite C2. symmetry. by apply Z.ltb_lt.
Qed.

(** ** One flow through a reassembler *)

Section flow.
Variables (pay D : list Z) (id : Z).
Hypothesis Hpay : vlen pay <= 65515.

(** The packets of bucket [n] are [b], and there are no others. *)
Record only (s : IPReassembler) (n : Z) (b : list rpacket) : Prop := {
  on_buckets : vlen (rmap s) = 256;
  on_packets : forall m, 0 <= m < 256 -> vget (rmap s) m = if decide (m = n) then b else [];
  on_mem : mem_used s = mem_of b
}.

(** The reassembler has seen the bytes [C] of the datagram. *)
Definition stage (s : IPReassembler) (C : Z -> Prop) : Prop :=
  (only s (id mod 256) [] /\ forall o, ~ C o)
  \/ exists q cs, only s (id mod 256) [q] /\ partial pay D id q cs /\ forall o, covers cs o <-> C o.

(** The settings that a fragment does not change. *)
Definition same_settings (s s' : IPReassembler) : Prop := reap_time s' = reap_time s /\ mem_high_thresh s' = mem_high_thresh s.

Lemma piece_flow p a b : piece pay D id p a b -> bucketno (iph p) = id mod 256 /\ ip_id (iph p) = id.
Proof using.
  intros Hp. pose proof (wh_id _ _ _ _ _ (pc_header _ _ _ _ _ _ Hp)) as Hid. unfold bucketno, ip_id. by rewrite Hid.
Qed.

Lemma piece_is_frag p a b : piece pay D id p a b -> IP_ISFRAG (iph p) = true.
Proof using.
  intros Hp. rewrite is_frag_spec, (wh_mf _ _ _ _ _ (pc_header _ _ _ _ _ _ Hp)), (wh_offset _ _ _ _ _ (pc_header _ _ _ _ _ _ Hp)) by apply Hp.
  pose proof (pc_bounds _ _ _ _ _ _ Hp). pose proof (pc_aligned _ _ _ _ _ _ Hp) as [Ha _].
  destruct (pc_fragment _ _ _ _ _ _ Hp); destruct (Z.eqb_spec (a / 8) 0), (Z.ltb_spec b (vlen pay)); cbn; try done; Z.div_mod_to_equations; lia.
Qed.

(** No reaping, so the fragment goes straight to its queue. *)
Lemma quiet_action noutputs clock junk s p a b :
  piece pay D id p a b -> 0 < sec p < reap_time s -> mem_used s <= mem_high_thresh s ->
  simple_action noutputs clock junk s p =
    let s := count_frag s 1 0 in let p := trimmed p (b - a) in
    match find_queue (iph p) (vget (rmap s) (id mod 256)) 0 with
    | None => Some (make_queue s junk p, None, [])
    | Some (i, q) => '(s, w) ← join_fragment s junk (id mod 256) i q p a b; Some (s, w, [])
    end.
Proof using Hpay.
  intros Hp Hsec Hm. destruct (piece_flow p a b Hp) as [Hn Hid]. pose proof (pc_bounds _ _ _ _ _ _ Hp). pose proof (pc_size _ _ _ _ _ _ Hp).
  pose proof (pc_network _ _ _ _ _ _ Hp). pose proof (pc_transport _ _ _ _ _ _ Hp). pose proof (piece_trimmed _ _ _ _ _ _ Hp) as Hp2.
  assert (Hf : fragment_of (fun _ => pay) (fun _ => D) p a b).
  { split; [apply Hp|]. split; [lia|]. split; [lia|]. by rewrite Hid. }
  rewrite (simple_action_fragment (fun _ => pay) (fun _ => D) (fun _ => Hpay) _ _ _ _ _ a b Hf (piece_is_frag p a b Hp)). cbv zeta.
  assert (Est : stamped clock p = p) by (unfold stamped; by rewrite (proj2 (Z.eqb_neq (sec p) 0)) by lia). rewrite Est.
  assert (Ert : (reap_time (count_frag s 1 0) <=? sec p) = false) by (apply Z.leb_gt; cbn; lia). rewrite Ert.
  assert (Emem : (mem_high_thresh (count_frag s 1 0) <? mem_used (count_frag s 1 0)) = false) by (apply Z.ltb_ge; cbn; lia). rewrite Emem.
  rewrite (iph_trimmed p (b - a)) by lia. rewrite Hn. cbn [app]. assert (Eout : to_second noutputs [] = []) by (unfold to_second; by destruct (1 <? noutputs)).
  by rewrite Eout.
Qed.

Lemma only_set s s' n b b' :
  0 <= n < 256 -> only s n b -> rmap s' = vset (rmap s) n b' -> mem_used s' = mem_of b' -> only s' n b'.
Proof using.
  intros Hn [O1 O2 O3] Hr Hm. constructor; [by rewrite Hr, vlen_vset| |done].
  intros m Hm'. rewrite Hr, vget_vset_in, O2 by lia. by destruct (decide (m = n)).
Qed.

Lemma partial_mem q cs : partial pay D id q cs -> 0 < packet_mem q <= 40 + vlen pay.
Proof using. intros Hq. pose proof (pt_size _ _ _ _ _ Hq). unfold packet_mem, IPH_MEM_USED. lia. Qed.

Lemma stage_step noutputs clock junk s p a b C :
  stage s C -> piece pay D id p a b -> junk_ok junk -> 0 < sec p < reap_time s -> 40 + vlen pay <= mem_high_thresh s ->
  exists s' w, simple_action noutputs clock junk s p = Some (s', w, []) /\ same_settings s s'
  /\ ((w = None /\ stage s' (fun o => C o \/ a <= o < b) /\ ~ forall o, 0 <= o < vlen pay -> C o \/ a <= o < b)
      \/ (exists w', w = Some w' /\ reassembled pay D id (datagram_of (rip w')) /\ stage s' (fun _ => False)
          /\ forall o, 0 <= o < vlen pay -> C o \/ a <= o < b)).
Proof using Hpay.
  intros Hst Hp Hj Hsec Hhigh. set (n := id mod 256). assert (Hn : 0 <= n < 256) by (apply Z.mod_pos_bound; lia).
  assert (Hmem : 0 <= mem_used s <= 40 + vlen pay).
  { destruct Hst as [[O _]|(q & cs & O & Hq & _)]; rewrite (on_mem _ _ _ O); [cbn; pose proof (vlen_nonneg pay); lia|].
    pose proof (partial_mem q cs Hq). change (mem_of [q]) with (packet_mem q + 0). lia. }
  rewrite (quiet_action noutputs clock junk s p a b Hp Hsec ltac:(lia)). cbv zeta. fold n.
  pose proof (pc_bounds _ _ _ _ _ _ Hp) as [B1 B2]. pose proof (pc_aligned _ _ _ _ _ _ Hp) as [A1 _].
  set (p2 := trimmed p (b - a)). assert (Hp2 : piece pay D id p2 a b) by by apply piece_trimmed.
  destruct (piece_flow p2 a b Hp2) as [Hbn Hid]. fold n in Hbn. set (s1 := count_frag s 1 0).
  destruct Hst as [[O HC]|(q & cs & O & Hq & Hcov)].
  - assert (E : vget (rmap s1) n = []) by (change (rmap s1) with (rmap s); rewrite (on_packets _ _ _ O) by lia; by rewrite decide_True).
    rewrite E. cbn [find_queue]. do 2 eexists. split; [reflexivity|]. split; [done|]. left. split; [done|].
    pose proof (queue_packet_spec pay D id Hpay s1 junk p2 a b Hj Hp2) as Hq. split.
    + right. exists (queue_packet s1 junk p2), [mkChunk a b]. split; [|split; [done|]].
      * apply (only_set s _ n [] [queue_packet s1 junk p2]); [done|done|cbn [make_queue with_map rmap]; by rewrite Hbn, E|].
        cbn [make_queue with_map mem_used]. rewrite byte_off_spec, (wh_offset _ _ _ _ _ (pc_header _ _ _ _ _ _ Hp2)), (pc_size _ _ _ _ _ _ Hp2) by apply Hp2.
        change (mem_of [?q]) with (packet_mem q + 0). unfold packet_mem. pose proof (cn_end _ _ (pt_canonical _ _ _ _ _ Hq)) as He. cbn [end_of c_lastoff] in He.
        rewrite <- He. change (mem_used s1) with (mem_used s). rewrite (on_mem _ _ _ O). unfold u32, IPH_MEM_USED. cbn [mem_of sumf foldr].
        rewrite Z.mod_small; Z.div_mod_to_equations; lia.
      * intros o. rewrite covers_one. specialize (HC o). tauto.
    + intros Hall. pose proof (Hall 0 ltac:(lia)) as H0. pose proof (Hall (vlen pay - 1) ltac:(lia)) as H1.
      pose proof (HC 0). pose proof (HC (vlen pay - 1)). destruct (pc_fragment _ _ _ _ _ _ Hp); intuition lia.
  - assert (E : vget (rmap s1) n = [q]) by (change (rmap s1) with (rmap s); rewrite (on_packets _ _ _ O) by lia; by rewrite decide_True).
    rewrite E. cbn [find_queue]. assert (Hseg : same_segment (iph p2) (iph q) = true).
    { apply same_segment_spec. rewrite (flow_whole _ _ _ _ _ (pt_header _ _ _ _ _ Hq)). apply (flow_whole _ _ _ _ _ (pc_header _ _ _ _ _ _ Hp2)). }
    rewrite Hseg. assert (Hu : mem_used s1 = packet_mem q) by (change (mem_used s1) with (mem_used s); rewrite (on_mem _ _ _ O); change (mem_of [q]) with (packet_mem q + 0); lia).
    pose proof (partial_mem q cs Hq) as Hmq.
    destruct (join_fragment_spec s1 junk n 0 q p2 a b cs pay D id Hpay Hj Hq Hp2) as (q' & cs' & Hq' & Hcov' & ->).
    { rewrite Hu. apply Z.mod_small. lia. }
    pose proof (partial_mem q' cs' Hq') as Hmq'. rewrite Hu. replace (packet_mem q + (packet_mem q' - packet_mem q)) with (packet_mem q') by lia.
    assert (Hum : u32 (packet_mem q') = packet_mem q') by (apply Z.mod_small; lia). rewrite Hum. cbn [mbind option_bind].
    assert (Hiff : all_covered pay cs' <-> forall o, 0 <= o < vlen pay -> C o \/ a <= o < b).
    { unfold all_covered. split; intros Ha o Ho; [rewrite <- Hcov, <- Hcov'; auto|rewrite Hcov', Hcov; auto]. }
    assert (Ob : only (bucket_set s1 n 0 q' (packet_mem q')) n [q']).
    { apply (only_set s _ n [q] [q']); [done|done|cbn [bucket_set with_map rmap]; by rewrite E|]. cbn [bucket_set with_map mem_used].
      change (mem_of [q']) with (packet_mem q' + 0). lia. }
    set (s2 := bucket_set s1 n 0 q' (packet_mem q')) in *. destruct (is_complete q') eqn:Hc.
    + assert (Ha : all_covered pay cs') by by apply (complete_spec pay D id Hpay q' cs' Hq'). do 2 eexists. split; [reflexivity|]. split; [done|]. right.
      exists (whole_packet q' p2). split; [done|]. split; [by apply (whole_packet_spec pay D id Hpay q' p2 cs')|]. split; [|by apply Hiff].
      left. split; [|tauto]. apply (only_set s2 _ n [q'] []); [done|done| |].
      * cbn [emit_whole_packet bucket_delete with_map rmap]. rewrite (on_packets _ _ _ Ob) by lia. by rewrite decide_True.
      * cbn [emit_whole_packet bucket_delete with_map mem_used]. rewrite whole_mem. change (mem_used s2) with (packet_mem q'). by rewrite Z.sub_diag.
    + do 2 eexists. split; [reflexivity|]. split; [done|]. left. split; [done|]. split.
      * right. exists q', cs'. split; [done|]. split; [done|]. intros o. by rewrite Hcov', Hcov.
      * intros Ha%Hiff. apply (complete_spec pay D id Hpay q' cs' Hq') in Ha. congruence.
Qed.

(** The bytes that [C] and the intervals [ivs] make up. *)
Definition seen (C : Z -> Prop) (ivs : list (Z * Z)) (o : Z) : Prop := C o \/ Exists (fun iv => iv.1 <= o < iv.2) ivs.
Definition all_seen (C : Z -> Prop) (ivs : list (Z * Z)) : Prop := forall o, 0 <= o < vlen pay -> seen C ivs o.

Definition arrives (rt : Z) (x : arrival) (iv : Z * Z) : Prop :=
  piece pay D id x.2 iv.1 iv.2 /\ junk_ok x.1.2 /\ 0 < sec x.2 < rt.

Lemma run_flow noutputs ps ivs s C :
  stage s C -> Forall2 (arrives (reap_time s)) ps ivs -> 40 + vlen pay <= mem_high_thresh s -> ps <> [] ->
  all_seen C ivs -> (forall pre x post, ivs = pre ++ x :: post -> ~ all_seen C pre) ->
  exists s' w, run noutputs s ps = Some (s', replicate (length ps - 1) (None, []) ++ [(Some w, [])])
    /\ reassembled pay D id (datagram_of (rip w)).
Proof using Hpay.
  revert ivs s C. induction ps as [|[[clock junk] p] ps IH]; intros ivs s C Hst Hps Hhigh Hne Hall Hpart; [done|]. clear Hne.
  inversion Hps as [|x iv xs ivs' (Hp & Hj & Hsec) Hps' E1 E2]. subst. destruct iv as [a b]. cbn [fst snd] in *. cbn [run].
  destruct (stage_step noutputs clock junk s p a b C Hst Hp Hj Hsec Hhigh) as (s1 & w & -> & [Hs1 Hs2] & Hw). cbn [mbind option_bind].
  destruct ps as [|p' ps].
  - inversion Hps'. subst. destruct Hw as [(_ & _ & Hno)|(w' & -> & Hr & _ & _)].
    + exfalso. apply Hno. intros o Ho. destruct (Hall o Ho) as [|Hx]; [by left|right]. apply Exists_cons in Hx as [|Hx]; [done|by apply Exists_nil in Hx].
    + exists s1, w'. done.
  - destruct Hw as [(-> & Hst1 & _)|(w' & _ & _ & _ & Hyes)].
    2: { exfalso. inversion Hps' as [|y iv ys ivs'' _ _ E1 E2]. subst. apply (Hpart [(a, b)] iv ivs'' eq_refl). intros o Ho.
         destruct (Hyes o Ho); [by left|right]. by apply Exists_cons; left. }
    destruct (IH ivs' s1 (fun o => C o \/ a <= o < b)) as (s2 & w & -> & Hr); try done; [by rewrite Hs1|by rewrite Hs2| | |].
    + intros o Ho. destruct (Hall o Ho) as [|Hx]; [by left; left|]. apply Exists_cons in Hx as [|Hx]; [by left; right|by right].
    + intros pre x post -> Ha. apply (Hpart ((a, b) :: pre) x post eq_refl). intros o Ho. destruct (Ha o Ho) as [[|]|Hx]; [by left|right|right].
      * by apply Exists_cons; left.
      * by apply Exists_cons; right.
    + cbn [mbind option_bind length]. exists s2, w. split; [|done]. do 2 f_equal. cbn [length]. rewrite !Nat.sub_succ, Nat.sub_0_r. done.
Qed.
End flow.

(** ** Intervals in another order *)

Definition count_at (o : Z) (ivs : list (Z * Z)) : Z := sumf (fun iv => if (iv.1 <=? o) && (o <? iv.2) then 1 else 0) ivs.

Lemma chained_count lo hi ivs o : lo <= hi -> chained lo hi ivs -> count_at o ivs = if (lo <=? o) && (o <? hi) then 1 else 0.
Proof.
  revert lo. induction ivs as [|[a b] ivs IH]; intros lo Hl Hc.
  - cbn [chained] in Hc. subst. cbn. destruct (Z.leb_spec hi o), (Z.ltb_spec o hi); lia || done.
  - destruct Hc as (-> & Hab & Hc). unfold count_at. rewrite sumf_cons. fold (count_at o ivs). rewrite (IH b) by (done || lia). cbn [fst snd].
    destruct (Z.leb_spec lo o), (Z.ltb_spec o b), (Z.leb_spec b o), (Z.ltb_spec o hi); cbn [andb]; lia.
Qed.

Lemma count_at_perm o ivs ivs' : ivs ≡ₚ ivs' -> count_at o ivs = count_at o ivs'.
Proof. induction 1; unfold count_at in *; rewrite ?sumf_cons; lia. Qed.

Lemma count_at_exists o ivs : 0 < count_at o ivs <-> Exists (fun iv : Z * Z => iv.1 <= o < iv.2) ivs.
Proof.
  assert (Hn : forall l, 0 <= count_at o l).
  { induction l as [|iv l IH]; [done|]. unfold count_at in *. rewrite sumf_cons. destruct (_ && _); lia. }
  induction ivs as [|iv ivs IH]; [rewrite Exists_nil; cbn; lia|]. unfold count_at in *. rewrite sumf_cons, Exists_cons, <- IH.
  specialize (Hn ivs). destruct (Z.leb_spec iv.1 o), (Z.ltb_spec o iv.2); cbn [andb]; intuition lia.
Qed.

(** Each of them is needed. *)
Lemma chained_needed pay lo hi ivs pre x post :
  0 <= lo -> hi = vlen pay -> lo <= hi -> chained lo hi ivs -> ivs ≡ₚ pre ++ x :: post -> Forall (fun iv : Z * Z => lo <= iv.1 < iv.2 /\ iv.2 <= hi) ivs ->
  ~ all_seen pay (fun _ => False) pre.
Proof.
  intros Hlo -> Hl Hc Hperm Hb Ha. assert (Hx : lo <= x.1 < x.2 /\ x.2 <= vlen pay).
  { rewrite Hperm in Hb. apply Forall_app in Hb as [_ Hb]. by apply Forall_cons in Hb as [Hb _]. }
  pose proof (chained_count lo _ ivs x.1 Hl Hc) as Hn. rewrite (count_at_perm _ _ _ Hperm) in Hn. unfold count_at in Hn. rewrite sumf_app, sumf_cons in Hn.
  fold (count_at x.1 pre) (count_at x.1 post) in Hn. destruct (Ha x.1 ltac:(lia)) as [[]|Hs]. apply count_at_exists in Hs.
  assert (Hp : 0 <= count_at x.1 post) by (clear; induction post as [|iv l IH]; [done|]; unfold count_at in *; rewrite sumf_cons; destruct (_ && _); lia).
  rewrite (proj2 (Z.leb_le x.1 x.1)), (proj2 (Z.ltb_lt x.1 x.2)), (proj2 (Z.leb_le lo x.1)), (proj2 (Z.ltb_lt x.1 (vlen pay))) in Hn by lia.
  cbn [andb] in Hn. lia.
Qed.

(** ** The whole way *)

(** A reassembler that has reaped once, at [t - 10]. *)
Definition fresh (himem : Z) (m : bool) (t : Z) : IPReassembler :=
  mkReassembler (replicate 256 []) t 0 0 0 0 0 himem (u32 ((himem .>> 2) * 3)) m.

Lemma first_arrival noutputs clock junk himem m p :
  IP_ISFRAG (iph p) = true -> 0 < sec p ->
  simple_action noutputs clock junk (new_reassembler himem m) p = simple_action noutputs clock junk (fresh himem m (sec p + 10)) p.
Proof.
  intros Hf Hs. unfold simple_action. rewrite Hf. cbn [negb]. rewrite (proj2 (Z.eqb_neq (sec p) 0)) by lia. cbv zeta.
  change (reap_time (count_frag (new_reassembler himem m) 1 0)) with 0. rewrite (proj2 (Z.leb_le 0 (sec p))) by lia.
  change (reap_time (count_frag (fresh himem m (sec p + 10)) 1 0)) with (sec p + 10). rewrite (proj2 (Z.leb_gt (sec p + 10) (sec p))) by lia.
  done.
Qed.

Lemma fresh_stage pay D himem m t id : stage pay D id (fresh himem m t) (fun _ => False).
Proof.
  left. split; [|auto]. constructor; [done| |done]. intros n Hn. unfold fresh. cbn [rmap]. rewrite vget_replicate by lia. by destruct (decide _).
Qed.

(** The interval of a fragment. *)
Definition interval_of (f : list Z) : Z * Z := (8 * frag_offset f, 8 * frag_offset f + vlen (payload f)).

Lemma interval_holds pay f iv : holds_interval pay f iv -> iv = interval_of f.
Proof.
  intros (H1 & H2 & H3 & H4 & _). unfold interval_of. rewrite H2, vlen_range by lia. destruct iv as [a b]. cbn [fst snd] in *. f_equal; lia.
Qed.

(** Time of the first arrival. *)
Definition start (arrivals : list arrival) : Z := match arrivals with [] => 0 | x :: _ => sec x.2 end.

Section trip.
Variables (rand : Z) (s : IPFragmenter) (p : ip_packet) (fs : list ip_packet).
Let d := datagram_of p.
Hypotheses (Hd : datagram d) (H5 : ihl d = 5) (Hbig : mtu s < vlen d)
  (Hmk : Forall marked fs) (Hok : Forall (fragment_ok (mtu s) d (fragment_id rand d)) (map datagram_of fs))
  (Hcov : covers_data 0 false (payload d) (map datagram_of fs)).

Lemma payload_size : vlen (payload d) = vlen d - 20 /\ vlen (payload d) <= 65515.
Proof using Hd H5.
  destruct Hd as [G1 G2 G3 G4 G5]. unfold payload. rewrite H5, vlen_drop_Z by lia.
  pose proof (bytes_get d 2 G1 ltac:(lia)). pose proof (bytes_get d 3 G1 ltac:(lia)). unfold total_length in G5. lia.
Qed.

Lemma trip_intervals :
  Forall (fun f => holds_interval (payload d) f (interval_of f)) (map datagram_of fs)
  /\ chained 0 (vlen (payload d)) (map interval_of (map datagram_of fs)).
Proof using Hcov.
  pose proof (vlen_nonneg (payload d)). destruct (covers_intervals (payload d) 0 (map datagram_of fs)) as (ivs & I1 & I2); [lia|lia| |].
  { change (8 * 0) with 0. assert (E : range (payload d) 0 (vlen (payload d)) = payload d).
    { unfold range. rewrite drop_0. apply take_ge. unfold vlen. lia. }
    by rewrite E. }
  assert (E : ivs = map interval_of (map datagram_of fs)).
  { clear -I1. induction I1 as [|f iv l l' Hf _ IH]; [done|]. cbn [map]. by rewrite <- IH, <- (interval_holds _ _ _ Hf). }
  rewrite <- E. split; [|done]. clear -I1. induction I1 as [|f iv l l' Hf _ IH]; constructor; [|done]. by rewrite <- (interval_holds _ _ _ Hf).
Qed.

(** A fragment that arrives. *)
Lemma trip_arrives arrivals x :
  map (fun x : arrival => rip x.2) arrivals ≡ₚ fs -> x ∈ arrivals -> junk_ok x.1.2 -> 0 < sec x.2 < start arrivals + 10 ->
  arrives (payload d) d (fragment_id rand d) (start arrivals + 10) x (interval_of (datagram_of (rip x.2))).
Proof using Hd H5 Hbig Hmk Hok Hcov.
  intros Hperm Hx Hj Hs. assert (Hq : rip x.2 ∈ fs) by (rewrite <- Hperm; by apply (list_elem_of_fmap_2 (fun x : arrival => rip x.2))).
  destruct trip_intervals as [Hiv _]. pose proof (proj1 (Forall_forall _ _) Hmk _ Hq) as Hmq.
  assert (Hf : datagram_of (rip x.2) ∈ map datagram_of fs) by by apply list_elem_of_fmap_2.
  destruct (proj1 (Forall_forall _ _) Hiv _ Hf) as (V1 & V2 & V3 & V4 & V5 & V6).
  pose proof (proj1 (Forall_forall _ _) Hok _ Hf) as Hof. destruct payload_size as [Hp1 Hp2].
  split; [|done]. apply (piece_rip _ _ _ (incoming (sec x.2) (rip x.2))); [done|].
  apply (fragment_is_piece (mtu s)); try done. pose proof (fo_size _ _ _ _ Hof). lia.
Qed.
End trip.

(** C10.  The fragments that [IPFragmenter] makes of a datagram without options go,
    in any order, into a fresh [IPReassembler] with nothing coming out until the last
    one arrives; then the datagram comes out: a valid header with the identifier of
    the fragments, no fragment flags, the addresses, protocol, TOS and TTL of the
    original, and its payload.  All fragments arrive with a time stamp that is set and
    is less than ten seconds, the interval between two [reap]s, behind that of the
    first arrival, and the datagram fits below the high mark of the memory ([HIMEM]):
    a reap in between may throw a partial datagram out, and not only after the 30
    seconds of the documentation ([reaped_early]). *)
Theorem fragments_reassemble (noutputs noutputs' rand himem : Z) (m : bool) (s : IPFragmenter) (p : ip_packet) (arrivals : list arrival) :
  let d := datagram_of p in
  pkt_ok (pkt p) -> 0 <= network p -> datagram d -> transport p = network p + 20 -> ihl d = 5 ->
  frag_offset d = 0 -> more_fragments d = false -> 8 <= mtu s < vlen d -> refuses s d = false -> 20 + vlen d <= himem ->
  map (fun x : arrival => rip x.2) arrivals ≡ₚ map snd (fragmenter_push noutputs rand s p).2 ->
  Forall (fun x : arrival => junk_ok x.1.2 /\ 0 < sec x.2 < start arrivals + 10) arrivals ->
  exists s' w, run noutputs' (new_reassembler himem m) arrivals = Some (s', replicate (length arrivals - 1) (None, []) ++ [(Some w, [])])
    /\ reassembled (payload d) d (fragment_id rand d) (datagram_of (rip w)).
Proof.
  intros d Hp Hn Hd Ht H5 Hoff Hmf Hm Hr Hhi Hperm Harr. destruct (payload_size p Hd H5) as [Hl1 Hl2]. fold d in Hl1, Hl2.
  destruct (datagram_short p Hp Hn Hd) as [Hs Hpl]. fold d in Hs, Hpl.
  destruct (fragment_cuts noutputs rand s p Hp Hn Hd ltac:(fold d; lia) ltac:(lia) ltac:(fold d; lia) Hr ltac:(fold d; lia)) as (fs & E & F1 & F2 & F3 & F4).
  fold d in F3, F4. rewrite Hoff, Hmf in F4. unfold fragmenter_push in Hperm. rewrite Hpl, i32_id, Z.add_simpl_l in Hperm by lia.
  rewrite (proj2 (Z.leb_gt (vlen d) (mtu s))), E in Hperm by lia. cbn [snd] in Hperm. rewrite map_map in Hperm. cbn [snd] in Hperm. rewrite map_id in Hperm.
  destruct (trip_intervals p fs F4) as [V1 V2]. fold d in V1, V2. pose proof (vlen_nonneg (payload d)).
  set (ivs := map (fun x : arrival => interval_of (datagram_of (rip x.2))) arrivals).
  assert (Hivs : ivs ≡ₚ map interval_of (map datagram_of fs)) by (unfold ivs; rewrite <- Hperm, !map_map; done).
  assert (Ha : Forall2 (arrives (payload d) d (fragment_id rand d) (start arrivals + 10)) arrivals ivs).
  { apply Forall2_fmap_r, Forall_Forall2_diag, Forall_forall. intros x Hx. destruct (proj1 (Forall_forall _ _) Harr x Hx) as [Hj Hsx].
    by apply (trip_arrives rand s p fs Hd H5 ltac:(fold d; lia) F2 F3 F4). }
  destruct arrivals as [|[[clock junk] q] arrivals'].
  { apply Permutation_nil_l in Hperm. subst fs. done. }
  assert (Hfirst : run noutputs' (new_reassembler himem m) ((clock, junk, q ) :: arrivals')
    = run noutputs' (fresh himem m (sec q + 10)) ((clock, junk, q) :: arrivals')).
  { cbn [run]. rewrite first_arrival; [done| |].
    - inversion Ha as [|x iv xs ys (Hx & _ & _) _ E1 E2]. subst. by apply piece_is_frag in Hx.
    - apply Forall_cons in Harr as [[_ Hx] _]. cbn in Hx. lia. }
  enough (exists s' w, run noutputs' (fresh himem m (sec q + 10)) ((clock, junk, q) :: arrivals')
      = Some (s', replicate (length ((clock, junk, q) :: arrivals') - 1) (None, []) ++ [(Some w, [])])
    /\ reassembled (payload d) d (fragment_id rand d) (datagram_of (rip w))) as (s' & w & Hrun & Hw)
    by (exists s', w; split; [|exact Hw]; etransitivity; [exact Hfirst|]; exact Hrun).
  apply (run_flow (payload d) d (fragment_id rand d) Hl2 noutputs' _ ivs _ (fun _ => False));
    [apply fresh_stage|exact Ha|cbn [fresh mem_high_thresh]; lia|done| |].
  - intros o Ho. right. apply count_at_exists. rewrite (count_at_perm _ _ _ Hivs), (chained_count 0 (vlen (payload d))) by (done || lia).
    by rewrite (proj2 (Z.leb_le 0 o)), (proj2 (Z.ltb_lt o (vlen (payload d)))) by lia.
  - intros pre x post Ex. apply (chained_needed (payload d) 0 (vlen (payload d)) (map interval_of (map datagram_of fs)) pre x post); try done.
    + by rewrite <- Hivs, Ex.
    + apply Forall_fmap. eapply Forall_impl; [exact V1|]. intros f (_ & _ & V3 & V4 & _). cbn [compose]. split; [exact V3|exact V4].
Qed.

(** Fifty bytes of payload, cut at 44 bytes and put together again from the last
    fragment to the first. *)
Definition trip_datagram : list Z :=
  [69; 0; 0; 70; 18; 52; 0; 0; 64; 17; 0; 0; 10; 0; 0; 1; 10; 0; 0; 2] ++ seqZ 100 50.
Definition trip_frame : ip_packet := mkIP (packet_of (replicate 14 0 ++ trip_datagram)) 14 34 7.
Definition no_junk (i : Z) : Z := 0.
Definition trip_arrivals : list arrival :=
  map (fun p => (0, no_junk, incoming 5 p)) (rev (map snd (fragmenter_push 1 0 sample_fragmenter trip_frame).2)).

Lemma trip_frame_bytes : datagram_of trip_frame = trip_datagram.
Proof. vm_compute. reflexivity. Qed.

Lemma trip_datagram_ok : datagram trip_datagram.
Proof.
  constructor; [apply bytes_ok_dec; vm_compute; reflexivity|reflexivity|vm_compute; discriminate|vm_compute; discriminate|reflexivity].
Qed.

Lemma trip_frame_ok : pkt_ok (pkt trip_frame).
Proof. split; [apply bytes_ok_dec; vm_compute; reflexivity|intros i; cbn; lia]. Qed.

Lemma trip_arrivals_perm :
  map (fun x : arrival => rip x.2) trip_arrivals ≡ₚ map snd (fragmenter_push 1 0 sample_fragmenter trip_frame).2.
Proof.
  unfold trip_arrivals. rewrite map_map. cbn [snd rip incoming]. rewrite map_id, <- Permutation_rev. done.
Qed.

Lemma trip_arrivals_times : Forall (fun x : arrival => junk_ok x.1.2 /\ 0 < sec x.2 < start trip_arrivals + 10) trip_arrivals.
Proof.
  assert (E : start trip_arrivals = 5) by (vm_compute; reflexivity). rewrite E. unfold trip_arrivals. apply Forall_fmap, Forall_forall.
  intros p _. split; [intros i; cbn; unfold no_junk; lia|cbn; lia].
Qed.

Lemma fragments_reassemble_witness :
  exists s' w, run 2 (new_reassembler 1000 true) trip_arrivals = Some (s', replicate (length trip_arrivals - 1) (None, []) ++ [(Some w, [])])
    /\ reassembled (payload (datagram_of trip_frame)) (datagram_of trip_frame) (fragment_id 0 (datagram_of trip_frame)) (datagram_of (rip w)).
Proof.
  apply (fragments_reassemble 1 2 0 1000 true sample_fragmenter trip_frame trip_arrivals);
    rewrite ?trip_frame_bytes; try (vm_compute; reflexivity).
  - exact trip_frame_ok.
  - cbn. lia.
  - exact trip_datagram_ok.
  - split; [cbn; lia|reflexivity].
  - change (vlen trip_datagram) with 70. lia.
  - exact trip_arrivals_perm.
  - exact trip_arrivals_times.
Defined.

(** ** Any traffic *)

(** A piece of the datagram of its flow is a fragment. *)
Lemma piece_fragment pays heads p a b :
  piece (pays (flow_of (iph p))) (heads (flow_of (iph p))) (ip_id (iph p)) p a b -> fragment_of pays heads p a b.
Proof.
  intros Hp. destruct Hp as [P1 P2 P3 P4 P5 P6 P7 P8 P9 P10] eqn:E. split; [done|]. split; [lia|]. split; [lia|].
  apply piece_trimmed. exact Hp.
Qed.

(** C11.  Whatever mixture of flows comes in, with fragments duplicated, overlapping,
    late or missing and with unfragmented packets among them, at any times and under
    any memory limit, [IPReassembler]
    never fails, and never lets its own [check] find anything.  An unfragmented
    packet goes through unchanged.  What comes out for a fragment is the whole
    datagram of its flow, and what is thrown out are partial datagrams.  Each
    fragment is a piece of the one datagram of its flow, possibly with padding behind
    it ([fragment_of]): its header has no options (first byte 0x45) and the
    don't-fragment flag clear, its length is right, it starts at a multiple of eight
    bytes, and it ends at one or at the end of the payload, of at most 65515 bytes.
    Without these conditions [check] can fail ([options_out_of_order],
    [chunk_over_data]). *)
Theorem reassembly_sound (pays heads : Z * Z * Z * Z -> list Z) (noutputs himem : Z) (m : bool) (ps : list arrival) :
  (forall k, vlen (pays k) <= 65515) -> Forall (arrival_ok pays heads) ps ->
  exists s outs, run noutputs (new_reassembler himem m) ps = Some (s, outs) /\ check s = true
    /\ Forall2 (output_ok pays heads) ps outs.
Proof.
  intros Hpays Hps. destruct (run_inv pays heads Hpays noutputs _ ps (new_reassembler_inv pays heads himem m) Hps) as (s & outs & Hr & Hi & Ho).
  exists s, outs. split; [done|]. split; [|done]. by apply (check_inv pays heads).
Qed.

(** The fragments above, each twice, and the packet itself. *)
Definition mixed_arrivals : list arrival :=
  trip_arrivals ++ (0, no_junk, incoming 5 trip_frame) :: trip_arrivals.

Lemma trip_fragments x : x ∈ trip_arrivals -> exists a b, fragment_of (fun _ => payload trip_datagram) (fun _ => trip_datagram) x.2 a b.
Proof.
  intros Hx. pose proof (proj1 (Forall_forall _ _) trip_arrivals_times x Hx) as [Hj Hs]. pose proof trip_frame_bytes as Eb.
  pose proof trip_datagram_ok as Hd. rewrite <- Eb in Hd.
  destruct (fragment_cuts 1 0 sample_fragmenter trip_frame trip_frame_ok) as (fs & E & F1 & F2 & F3 & F4);
    [cbn; lia|done|by rewrite Eb|cbn; lia|rewrite Eb; vm_compute; discriminate|rewrite Eb; done|rewrite Eb; vm_compute; done|].
  assert (Ep : map (fun x : arrival => rip x.2) trip_arrivals ≡ₚ fs).
  { rewrite trip_arrivals_perm. replace (fragmenter_push 1 0 sample_fragmenter trip_frame) with (fragment 1 0 sample_fragmenter trip_frame)
      by (vm_compute; reflexivity).
    rewrite E. cbn [snd]. rewrite map_map, map_id. done. }
  rewrite Eb in F4. change (frag_offset trip_datagram) with 0 in F4. change (more_fragments trip_datagram) with false in F4. rewrite <- Eb in F4.
  destruct (trip_arrives 0 sample_fragmenter trip_frame fs Hd ltac:(by rewrite Eb) ltac:(by rewrite Eb) F2 F3 F4 trip_arrivals x Ep Hx Hj Hs) as [Hp _].
  pose proof (piece_flow _ _ _ _ _ _ Hp) as [_ Hid]. rewrite <- Hid, Eb in Hp. do 2 eexists. apply piece_fragment. exact Hp.
Qed.

Lemma reassembly_sound_witness :
  exists s outs, run 2 (new_reassembler 1000 true) mixed_arrivals = Some (s, outs) /\ check s = true
    /\ Forall2 (output_ok (fun _ => payload trip_datagram) (fun _ => trip_datagram)) mixed_arrivals outs.
Proof.
  apply (reassembly_sound (fun _ => payload trip_datagram) (fun _ => trip_datagram) 2 1000 true mixed_arrivals).
  - intros _. vm_compute. discriminate.
  - assert (Ht : Forall (arrival_ok (fun _ => payload trip_datagram) (fun _ => trip_datagram)) trip_arrivals).
    { apply Forall_forall. intros x Hx. split; [exact (proj1 (proj1 (Forall_forall _ _) trip_arrivals_times x Hx))|].
      intros _. by apply trip_fragments. }
    apply Forall_app. split; [exact Ht|]. constructor; [|exact Ht]. split; [intros i; cbn; unfold no_junk; lia|].
    intros H. vm_compute in H. discriminate.
Defined.

(** ** Outside these theorems *)

(** The arrival at time [t] of the [k]th fragment, cut at 44 bytes, of a packet. *)
Definition fragment_at (p : ip_packet) (k : nat) (t : Z) : list arrival :=
  map (fun p => (0, no_junk, incoming t p)) (take 1 (drop k (map snd (fragmenter_push 1 0 sample_fragmenter p).2))).

(** A first fragment with options that comes in behind another fragment moves the
    transport header of the buffer by the length of the options: the datagram is
    never completed, and [check] finds its chunk behind the end of the buffer. *)
Example options_out_of_order :
  match run 2 (new_reassembler 1000 true) (fragment_at long_frame 1 5 ++ fragment_at long_frame 0 5) with
  | Some (s, outs) =>
      outs = [(None, []); (None, [])] /\ check s = false
      /\ map (fun q => (chunk q, tlen q, has_mf q)) (concat (rmap s)) = [(mkChunk 0 30, 26, false)]
  | None => False
  end.
Proof. vm_compute. repeat split. Qed.

Example options_in_order :
  match run 2 (new_reassembler 1000 true) (fragment_at long_frame 0 5 ++ fragment_at long_frame 1 5) with
  | Some (s, [(None, []); (Some w, [])]) => check s = true /\ payload (datagram_of (rip w)) = seqZ 100 30
  | _ => False
  end.
Proof. vm_compute. repeat split. Qed.

(** The same datagram with another identifier. *)
Definition other_frame : ip_packet := mkIP (poke (pkt long_frame) 19 53) 14 38 7.

(** A buffer made for a fragment that is not the first has no timestamp: the next
    [reap] throws it out, here after a second. *)
Example reaped_early :
  match run 2 (new_reassembler 1000 true) (fragment_at trip_frame 0 100 ++ fragment_at other_frame 1 109 ++ fragment_at trip_frame 0 110) with
  | Some (_, [(None, []); (None, []); (None, [(1, q)])]) => sec q = 0 /\ chunk q = mkChunk 16 30
  | _ => False
  end.
Proof. vm_compute. repeat split. Qed.

(** A fragment of the flow of [trip_frame]: [n] bytes of contents [b] at [8 * off]. *)
Definition odd_fragment (off : Z) (mf : bool) (n b : Z) : arrival :=
  (0, no_junk, incoming 5 (mkIP (packet_of (replicate 14 0
    ++ [69; 0; 0; 20 + n; 18; 52; if mf then 32 else 0; off; 64; 17; 0; 0; 10; 0; 0; 1; 10; 0; 0; 2] ++ replicate (Z.to_nat n) b)) 14 34 0)).

(** A last fragment that ends inside a hole, less than four bytes before its end:
    the chunk written behind it overwrites data that has arrived. *)
Example chunk_over_data :
  match run 2 (new_reassembler 1000 true) [odd_fragment 0 true 8 1; odd_fragment 4 true 8 2; odd_fragment 1 false 23 3] with
  | Some (s, _) => check s = false /\ map (fun q => map (fun i => qbyte q i) (seqZ 28 6)) (concat (rmap s)) = [[3; 3; 3; 32; 0; 40]]
  | None => False
  end.
Proof. vm_compute. repeat split. Qed.
