(* ===== verification/Radix.v ===== *)
(** * The radix routing table

    [RadixIPLookup] (elements/ip/radixiplookup.{hh,cc}): a trie of five levels,
    of 16 and then four times 4 address bits.  A node keeps, in the order of a
    binary heap, the key of the longest prefix of its level that covers each
    range of its buckets; the leaves of the heap are the buckets.  Keys combine
    the index of a route and the index of its gateway and port.

    A zeroed array is a finite map with default 0; allocation succeeds. *)

From stdpp Require Import gmap.
From S2P Require Import Prelude Insn IPRoute.
Local Open Scope word_scope.
Local Open Scope Z_scope.

(** ** Nodes *)

Inductive Radix := mkRadix (key_map : gmap Z Z) (children : gmap Z Radix).

Definition key_map (r : Radix) : gmap Z Z := let '(mkRadix ks _) := r in ks.
Definition children (r : Radix) : gmap Z Radix := let '(mkRadix _ cs) := r in cs.

Definition make_radix : Radix := mkRadix ∅ ∅.

Definition bitshift (level : Z) : Z := vget [16; 12; 8; 4; 0] level.
Definition nbuckets (level : Z) : Z := vget [65536; 16; 16; 16; 16] level.

(** [key_for(i, level)]: an inner key, or the key of bucket [i - n]. *)
Definition key_for (r : Radix) (i : Z) : Z := default 0 (key_map r !! i).
Definition set_key (r : Radix) (i key : Z) : Radix := mkRadix (<[i := key]> (key_map r)) (children r).
Definition set_child (r : Radix) (i : Z) (c : Radix) : Radix := mkRadix (key_map r) (<[i := c]> (children r)).

(** [for (int x = nmasked; x > 1; x /= 2) i1 /= 2;] *)
Fixpoint halve (fuel : nat) (x i : Z) : Z :=
  match fuel with
  | O => i
  | S fuel' => if 1 <? x then halve fuel' (x / 2) (i / 2) else i
  end.

(** The two loops that replace a key below index [i1]. *)
Definition replace_row (r : Radix) (i1 nmasked replace_key key : Z) : Radix :=
  for_up i1 (i1 + nmasked) (fun x r => if key_for r x =? replace_key then set_key r x key else r) r.

Fixpoint replace_rows (fuel : nat) (n : Z) (r : Radix) (i1 nmasked replace_key key : Z) : Radix :=
  match fuel with
  | O => r
  | S fuel' =>
      if i1 <? n * 2
      then replace_rows fuel' n (replace_row r i1 nmasked replace_key key) (i1 * 2) (nmasked * 2) replace_key key
      else r
  end.

(** The part of [change] for a prefix that ends in this node, at index [i1]. *)
Definition change_here (n : Z) (r : Radix) (i1 key : Z) (set : bool) : Radix * Z :=
  let replace_key := key_for r i1 in
  let prev_key :=
    if negb (replace_key =? 0) && (3 <? i1) && (key_for r (i1 / 2) =? replace_key) then 0 else replace_key in
  let key := if (key =? 0) && (3 <? i1) then key_for r (i1 / 2) else key in
  (if negb (prev_key =? key) && ((prev_key =? 0) || set) then replace_rows 18 n r i1 1 replace_key key else r,
   prev_key).

(** [change], on a tree of at most [fuel] levels. *)
Fixpoint change (fuel : nat) (r : Radix) (addr mask key : Z) (set : bool) (level : Z) : Radix * Z :=
  match fuel with
  | O => (r, 0)
  | S fuel' =>
      let shift := bitshift level in
      let n := nbuckets level in
      let i1 := (addr .>> shift) .& (n - 1) in
      if negb (mask .& ((1 .<< shift) - 1) =? 0) then
        let '(c, prev) := change fuel' (default make_radix (children r !! i1)) addr mask key set (level + 1) in
        (set_child r i1 c, prev)
      else
        let nmasked := n - ((mask .>> shift) .& (n - 1)) in
        change_here n r (halve 17 nmasked (n + i1)) key set
  end.

Fixpoint lookup (fuel : nat) (r : option Radix) (cur addr level : Z) : Z :=
  match fuel, r with
  | S fuel', Some r =>
      let i1 := (addr .>> bitshift level) .& (nbuckets level - 1) in
      let k := key_for r (nbuckets level + i1) in
      lookup fuel' (children r !! i1) (if negb (k =? 0) then k else cur) addr (level + 1)
  | _, _ => cur
  end.

(** ** The element *)

Definition combine_key (key lookup_key : Z) : Z := i32 ((lookup_key .<< 24) .| key).
Definition get_key (comb : Z) : Z := comb .& 16777215.
Definition get_lookup_key (comb : Z) : Z := u32 (comb .& 4278190080) .>> 24.

Record RadixIPLookup := mkRIL {
  rv : list IPRoute;             (** [_v] *)
  vfree : Z;                     (** [_vfree] *)
  lookups : list (Z * Z);        (** [_lookup]: gateway and port *)
  default_key : Z;               (** [_default_key] *)
  radix : Radix                  (** [_radix] *)
}.

Definition new_radix_table : RadixIPLookup := mkRIL [] (-1) [] 0 make_radix.

(** [find_lookup_key]: one more than the index of the gateway and port, or 0. *)
Fixpoint find_lookup_from (l : list (Z * Z)) (g p i : Z) : Z :=
  match l with
  | [] => 0
  | x :: l' => if (x.1 =? g) && (x.2 =? p) then i + 1 else find_lookup_from l' g p (i + 1)
  end.

Definition find_lookup_key (s : RadixIPLookup) (g p : Z) : Z := find_lookup_from (lookups s) g p 0.

(** [_v[i].extra = e] *)
Definition link_free (v : list IPRoute) (i e : Z) : list IPRoute := vset v i (set_extra (vget v i) e).

Definition radix_add (s : RadixIPLookup) (r : IPRoute) (set : bool) : RadixIPLookup * Z * option IPRoute :=
  let found := if vfree s <? 0 then vlen (rv s) else vfree s in
  let lookup_key := find_lookup_key s (gw r) (port r) in
  let lookup_key := if lookup_key =? 0 then vlen (lookups s) + 1 else lookup_key in
  let key := combine_key (found + 1) lookup_key in
  let '(rx, dk, last_key) :=
    if negb (mask r =? 0) then
      let '(rx, last) := change 5 (radix s) (ntohl (addr r)) (ntohl (mask r)) key set 0 in
      (rx, default_key s, get_key last)
    else
      let last := get_key (default_key s) in
      (radix s, if (last =? 0) || set then key else default_key s, last) in
  let old := if negb (last_key =? 0) then Some (vget (rv s) (last_key - 1)) else None in
  if negb (last_key =? 0) && negb set then (mkRIL (rv s) (vfree s) (lookups s) dk rx, - EEXIST, old)
  else
    let ls := if lookup_key =? vlen (lookups s) + 1 then vpush (lookups s) (gw r, port r) else lookups s in
    let '(v, free) :=
      if found =? vlen (rv s) then (vpush (rv s) r, vfree s)
      else (vset (rv s) found r, extra (vget (rv s) found)) in
    let v := link_free v found (-1) in
    let '(v, free) := if negb (last_key =? 0) then (link_free v (last_key - 1) free, last_key - 1) else (v, free) in
    (mkRIL v free ls dk rx, 0, old).

Definition radix_remove (s : RadixIPLookup) (r : IPRoute) : RadixIPLookup * Z * option IPRoute :=
  let '(rx, last_key) :=
    if negb (mask r =? 0) then
      let '(rx, last) := change 5 (radix s) (ntohl (addr r)) (ntohl (mask r)) 0 false 0 in (rx, get_key last)
    else (radix s, get_key (default_key s)) in
  let old := if negb (last_key =? 0) then Some (vget (rv s) (last_key - 1)) else None in
  if (last_key =? 0) || negb (route_match r (vget (rv s) (last_key - 1)))
  then (mkRIL (rv s) (vfree s) (lookups s) (default_key s) rx, - ENOENT, old)
  else
    let v := link_free (rv s) (last_key - 1) (vfree s) in
    if negb (mask r =? 0)
    then (mkRIL v (last_key - 1) (lookups s) (default_key s)
            (change 5 rx (ntohl (addr r)) (ntohl (mask r)) 0 true 0).1, 0, old)
    else (mkRIL v (last_key - 1) (lookups s) 0 rx, 0, old).

(** The port, and the gateway when something matches. *)
Definition radix_lookup_route (s : RadixIPLookup) (a : Z) : Z * option Z :=
  let key := lookup 5 (Some (radix s)) (default_key s) (ntohl a) 0 in
  let lookup_key := get_lookup_key key in
  if negb (lookup_key =? 0)
  then (snd (vget (lookups s) (lookup_key - 1)), Some (fst (vget (lookups s) (lookup_key - 1))))
  else (-1, None).

Definition flush_table (s : RadixIPLookup) : RadixIPLookup := mkRIL [] (-1) (lookups s) 0 make_radix.

(** [for (int j = _vfree; j >= 0; j = _v[j].extra) _v[j].kill();] *)
Fixpoint kill_free (fuel : nat) (v : list IPRoute) (j : Z) : list IPRoute :=
  match fuel with
  | O => v
  | S fuel' => if 0 <=? j then kill_free fuel' (vset v j (kill (vget v j))) (extra (vget v j)) else v
  end.

(** [dump_routes]: the free slots are killed, and the real routes listed. *)
Definition dump_routes (s : RadixIPLookup) : RadixIPLookup * list IPRoute :=
  let v := kill_free (length (rv s)) (rv s) (vfree s) in
  (mkRIL v (vfree s) (lookups s) (default_key s) (radix s), filter (fun r => real r = true) v).
