(* ===== verification/RadixTree.v ===== *)
(** * The trie of the radix table is a longest-prefix map

    A prefix of [l] bits is coded by the number whose binary digits are a one
    and those bits, so halving a code drops a bit, and the heap index of a code in
    a node differs from it by a multiple of a power of two.  A map [K] from codes
    to keys (0 for none) describes a trie: the key at a heap index is the key of
    the longest prefix of that node's level that leads there.  [change] updates
    the map at one code and [lookup] follows it, as long as the nonzero keys of
    the map are distinct: the code recognises a key that was inherited from a
    shorter prefix by comparing it with the parent's. *)

From stdpp Require Import gmap.
From S2P Require Import Prelude Insn IPRoute Radix.
Local Open Scope word_scope.
Local Open Scope Z_scope.

(** ** Codes *)

Lemma div_pow_add y a b : 0 <= a -> 0 <= b -> y / 2 ^ (a + b) = y / 2 ^ a / 2 ^ b.
Proof. intros Ha Hb. rewrite Z.pow_add_r, Z.div_div by lia. done. Qed.

(** [y] has only one number of digits. *)
Lemma div_pow_inj y k m b : 0 <= k -> 0 <= m -> 0 < b -> y / 2 ^ k = b -> y / 2 ^ m = b -> k = m.
Proof.
  assert (Hlt : forall k m, 0 <= k -> k < m -> 0 < b -> y / 2 ^ k = b -> y / 2 ^ m = b -> False).
  { intros k' m' Hk Hm Hb Ek Em. replace m' with (k' + (m' - k')) in Em by lia.
    rewrite div_pow_add, Ek in Em by lia.
    assert (2 <= 2 ^ (m' - k')) by (change 2 with (2 ^ 1) at 1; apply Z.pow_le_mono_r; lia).
    pose proof (Z.div_lt b (2 ^ (m' - k')) ltac:(lia) ltac:(lia)). lia. }
  intros Hk Hm Hb Ek Em. destruct (Z.lt_trichotomy k m) as [|[|]]; [exfalso; eauto|done|exfalso; eauto].
Qed.

(** The key of the longest prefix of [y] that drops fewer than [k] digits. *)
Fixpoint best_key (K : Z -> Z) (k : nat) (y : Z) : Z :=
  match k with
  | O => 0
  | S k' => if K y =? 0 then best_key K k' (y / 2) else K y
  end.

Lemma div_half y m : 0 <= m -> y / 2 / 2 ^ m = y / 2 ^ (m + 1).
Proof. intros. rewrite Z.add_comm, div_pow_add by lia. done. Qed.

Lemma best_key_app K k1 k2 y :
  best_key K (k2 + k1) y = if best_key K k2 y =? 0 then best_key K k1 (y / 2 ^ Z.of_nat k2) else best_key K k2 y.
Proof.
  revert y. induction k2 as [|k2 IH]; intros y; cbn [best_key Nat.add].
  { by rewrite Z.eqb_refl, Z.pow_0_r, Z.div_1_r. }
  destruct (Z.eqb_spec (K y) 0) as [E|E].
  - rewrite IH. rewrite div_half by lia. by replace (Z.of_nat (S k2)) with (Z.of_nat k2 + 1) by lia.
  - by rewrite (proj2 (Z.eqb_neq _ _) E).
Qed.

Lemma best_key_ext K K' k y :
  (forall m, 0 <= m < Z.of_nat k -> K' (y / 2 ^ m) = K (y / 2 ^ m)) -> best_key K' k y = best_key K k y.
Proof.
  revert y. induction k as [|k IH]; intros y H; cbn [best_key]; [done|].
  pose proof (H 0 ltac:(lia)) as H0. rewrite Z.pow_0_r, Z.div_1_r in H0. rewrite H0.
  rewrite IH; [done|]. intros m Hm. rewrite div_half by lia. apply H. lia.
Qed.

(** The key found is that of the longest prefix that has one. *)
Lemma best_key_longest K k y :
  (best_key K k y = 0 /\ forall m, 0 <= m < Z.of_nat k -> K (y / 2 ^ m) = 0)
  \/ exists m, 0 <= m < Z.of_nat k /\ best_key K k y = K (y / 2 ^ m) /\ best_key K k y <> 0
        /\ forall m', 0 <= m' < m -> K (y / 2 ^ m') = 0.
Proof.
  revert y. induction k as [|k IH]; intros y; cbn [best_key]; [left; split; [done|lia]|].
  assert (Hstep : forall P : Z -> Prop, P 0 -> (forall m, 0 <= m -> P (m + 1)) -> forall m, 0 <= m -> P m).
  { intros P H0 H1 m Hm. destruct (decide (m = 0)) as [->|]; [done|]. replace m with (m - 1 + 1) by lia. apply H1. lia. }
  assert (H0 : y / 2 ^ 0 = y) by (by rewrite Z.pow_0_r, Z.div_1_r).
  destruct (Z.eqb_spec (K y) 0) as [E|E].
  - destruct (IH (y / 2)) as [[Hz Hn]|(m & Hm & He & Hne & Hb)].
    + left. split; [done|]. intros m [Hm Hlt]. revert m Hm Hlt. apply (Hstep (fun m => m < _ -> _)); [by rewrite H0|].
      intros m Hm Hlt. rewrite <- div_half by lia. apply Hn. lia.
    + right. exists (m + 1). rewrite div_half in He by lia. split; [lia|]. split; [done|]. split; [done|].
      intros m' [Hm' Hlt]. revert m' Hm' Hlt. apply (Hstep (fun m' => m' < _ -> _)); [by rewrite H0|].
      intros m' Hm' Hlt. rewrite <- div_half by lia. apply Hb. lia.
  - right. exists 0. rewrite H0. split; [lia|]. split; [done|]. split; [done|lia].
Qed.

Lemma best_key_where K k y :
  best_key K k y = 0 \/ exists m, 0 <= m < Z.of_nat k /\ best_key K k y = K (y / 2 ^ m) /\ best_key K k y <> 0.
Proof. destruct (best_key_longest K k y) as [[? _]|(m & ? & ? & ? & _)]; [by left|right; by exists m]. Qed.

Lemma best_key_zero K k y : (forall m, 0 <= m < Z.of_nat k -> K (y / 2 ^ m) = 0) -> best_key K k y = 0.
Proof.
  intros H. destruct (best_key_where K k y) as [|(m & Hm & He & Hn)]; [done|]. rewrite H in He by done. lia.
Qed.

(** [K] with the key at [c] replaced. *)
Definition put_key (K : Z -> Z) (c key : Z) : Z -> Z := fun y => if y =? c then key else K y.

Definition distinct_keys (K : Z -> Z) : Prop := forall x y, K x = K y -> K x <> 0 -> x = y.

(** ** Tries described by a map *)

Definition depth (level : Z) : Z := vget [16; 4; 4; 4; 4] level.
(** The number of bits above a level. *)
Definition base (level : Z) : Z := vget [0; 16; 20; 24; 28; 32] level.

Definition node_ok (K : Z -> Z) (level b : Z) (r : Radix) : Prop :=
  forall k y, (1 <= k)%nat -> Z.of_nat k <= depth level -> y / 2 ^ Z.of_nat k = b ->
  key_for r (y - (b - 1) * 2 ^ Z.of_nat k) = best_key K k y.

Definition below (b y : Z) : Prop := exists k, 1 <= k /\ y / 2 ^ k = b.

Fixpoint tree_ok (fuel : nat) (K : Z -> Z) (level b : Z) (r : option Radix) : Prop :=
  match fuel with
  | O => r = None
  | S fuel' =>
      match r with
      | None => forall y, below b y -> K y = 0
      | Some r => node_ok K level b r
                  /\ forall j, 0 <= j < nbuckets level -> tree_ok fuel' K (level + 1) (b * nbuckets level + j) (children r !! j)
      end
  end.

Lemma level_facts level :
  0 <= level < 5 ->
  nbuckets level = 2 ^ depth level /\ bitshift level = 32 - base level - depth level
  /\ 1 <= depth level <= 16 /\ 0 <= base level /\ base level + depth level <= 32
  /\ base (level + 1) = base level + depth level /\ (level = 4 -> base level + depth level = 32).
Proof.
  intros Hl. assert (level = 0 \/ level = 1 \/ level = 2 \/ level = 3 \/ level = 4) as Hc by lia.
  destruct Hc as [->|[->|[->|[->| ->]]]]; vm_compute; split_and!; intros; done || discriminate.
Qed.

Lemma below_child b D j y : 0 <= D -> 0 <= j < 2 ^ D -> below (b * 2 ^ D + j) y -> exists k, D < k /\ y / 2 ^ k = b.
Proof.
  intros HD Hj (k & Hk & Hy). exists (k + D). split; [lia|]. rewrite div_pow_add, Hy by lia.
  rewrite Z.div_add_l by lia. rewrite Z.div_small by lia. lia.
Qed.

Lemma node_ok_ext K K' level b r :
  (forall y k, 1 <= k <= depth level -> y / 2 ^ k = b -> K' y = K y) -> node_ok K level b r -> node_ok K' level b r.
Proof.
  intros H Hn k y Hk Hd Hy. rewrite (Hn k y Hk Hd Hy). symmetry. apply best_key_ext.
  intros m Hm. apply (H _ (Z.of_nat k - m)); [lia|]. rewrite <- div_pow_add by lia.
  by replace (m + (Z.of_nat k - m)) with (Z.of_nat k) by lia.
Qed.

Lemma tree_ok_ext fuel K K' level b r :
  0 <= level -> level + Z.of_nat fuel <= 5 ->
  (forall y, below b y -> K' y = K y) -> tree_ok fuel K level b r -> tree_ok fuel K' level b r.
Proof.
  revert level b r. induction fuel as [|fuel IH]; intros level b r Hl Hf H Ht; [done|].
  destruct (level_facts level ltac:(lia)) as (En & _ & Hd & _). cbn [tree_ok] in *. destruct r as [r|].
  - destruct Ht as [Hn Hc]. split.
    + eapply node_ok_ext; [|done]. intros y k Hk Hy. apply H. exists k. split; [lia|done].
    + intros j Hj. apply IH; [lia|lia| |by apply Hc]. intros y Hy. apply H.
      rewrite En in Hy, Hj. apply below_child in Hy as (k & Hk & Hy); [|lia|lia]. exists k. split; [lia|done].
  - intros y Hy. rewrite H by done. by apply Ht.
Qed.

(** A missing child is as good as an empty one. *)
Lemma tree_ok_make fuel K level b :
  0 <= level -> level + Z.of_nat (S fuel) <= 5 -> tree_ok (S fuel) K level b None ->
  tree_ok (S fuel) K level b (Some make_radix).
Proof.
  intros Hl Hf Ht. cbn [tree_ok] in *.
  destruct (level_facts level ltac:(lia)) as (En & _ & Hd & _). split.
  - intros k y Hk _ Hy. unfold key_for. cbn. rewrite lookup_empty. cbn. symmetry. apply best_key_zero.
    intros m Hm. apply Ht. exists (Z.of_nat k - m). split; [lia|]. rewrite <- div_pow_add by lia.
    by replace (m + (Z.of_nat k - m)) with (Z.of_nat k) by lia.
  - intros j Hj. cbn [children make_radix]. rewrite lookup_empty. destruct fuel as [|fuel]; [done|]. cbn.
    intros y Hy. apply Ht. rewrite En in Hy, Hj. apply below_child in Hy as (k & Hk & Hy); [|lia|lia].
    exists k. split; [lia|done].
Qed.

(** ** [change] within a node *)

Lemma key_for_set r i key y : key_for (set_key r i key) y = if decide (y = i) then key else key_for r y.
Proof.
  unfold key_for, set_key. cbn. destruct (decide (y = i)) as [->|Hne].
  - by rewrite lookup_insert_eq.
  - by rewrite lookup_insert_ne.
Qed.

Definition swap_key (old key x : Z) : Z := if x =? old then key else x.

Lemma swap_key_idem old key x : swap_key old key (swap_key old key x) = swap_key old key x.
Proof. unfold swap_key. destruct (Z.eqb_spec x old); [by destruct (Z.eqb_spec key old)|]. by rewrite (proj2 (Z.eqb_neq _ _)). Qed.

Lemma replace_row_spec r i nm old key :
  0 <= nm ->
  children (replace_row r i nm old key) = children r
  /\ forall y, key_for (replace_row r i nm old key) y
     = if decide (i <= y < i + nm) then swap_key old key (key_for r y) else key_for r y.
Proof.
  intros Hnm. unfold replace_row.
  pose (P := fun (x : Z) (r' : Radix) => children r' = children r
    /\ forall y, key_for r' y = if decide (i <= y < x) then swap_key old key (key_for r y) else key_for r y).
  enough (Hp : P (i + nm) (for_up i (i + nm) (fun x r => if key_for r x =? old then set_key r x key else r) r)) by exact Hp.
  apply for_up_inv; [lia| |].
  - split; [done|]. intros y. destruct (decide (i <= y < i)); [lia|done].
  - intros x r' Hx [Hc Hk]. pose proof (Hk x) as Hkx. destruct (decide (i <= x < x)); [lia|]. rewrite Hkx.
    split; [by destruct (key_for r x =? old)|]. intros y. destruct (Z.eqb_spec (key_for r x) old) as [E|E].
    + rewrite key_for_set, Hk. destruct (decide (y = x)) as [->|].
      * destruct (decide (i <= x < x + 1)); [|lia]. unfold swap_key. by rewrite E, Z.eqb_refl.
      * destruct (decide (i <= y < x)), (decide (i <= y < x + 1)); done || lia.
    + rewrite Hk. destruct (decide (y = x)) as [->|].
      * destruct (decide (i <= x < x)), (decide (i <= x < x + 1)); try lia. unfold swap_key. by rewrite (proj2 (Z.eqb_neq _ _) E).
      * destruct (decide (i <= y < x)), (decide (i <= y < x + 1)); done || lia.
Qed.

(** Index [y] of a node with [n] buckets lies under the [nm] indices from [i]. *)
Definition under (n i nm y : Z) : Prop := exists m, 0 <= m /\ i * 2 ^ m < n * 2 /\ i * 2 ^ m <= y < (i + nm) * 2 ^ m.

Lemma under_row n i nm y : i < n * 2 -> under n i nm y <-> i <= y < i + nm \/ under n (i * 2) (nm * 2) y.
Proof.
  intros Hn. split.
  - intros (m & Hm & Hi & Hy). destruct (decide (m = 0)) as [->|].
    + left. rewrite Z.pow_0_r in Hy. lia.
    + right. exists (m - 1). replace m with (1 + (m - 1)) in Hi, Hy by lia. rewrite Z.pow_add_r in Hi, Hy by lia.
      change (2 ^ 1) with 2 in *. split; [lia|]. split; [lia|]. rewrite <- Z.mul_add_distr_r. lia.
  - intros [Hy|(m & Hm & Hi & Hy)].
    + exists 0. rewrite Z.pow_0_r. lia.
    + exists (1 + m). rewrite Z.pow_add_r by lia. change (2 ^ 1) with 2. split; [lia|].
      rewrite <- Z.mul_add_distr_r in Hy. lia.
Qed.

Lemma replace_rows_spec fuel n r i nm old key :
  0 <= nm -> 0 < i -> n * 2 <= i * 2 ^ Z.of_nat fuel ->
  children (replace_rows fuel n r i nm old key) = children r
  /\ forall y, exists b : bool, (b = true <-> under n i nm y)
     /\ key_for (replace_rows fuel n r i nm old key) y = if b then swap_key old key (key_for r y) else key_for r y.
Proof.
  revert r i nm. induction fuel as [|fuel IH]; intros r i nm Hnm Hi Hf; cbn [replace_rows].
  { rewrite Z.pow_0_r in Hf. split; [done|]. intros y. exists false. split; [|done]. split; [done|].
    intros (m & Hm & Hlt & _). assert (1 <= 2 ^ m) by (apply (Z.pow_le_mono_r 2 0 m); lia). nia. }
  destruct (Z.ltb_spec i (n * 2)) as [Hlt|Hge].
  - destruct (replace_row_spec r i nm old key Hnm) as [Hc Hk].
    destruct (IH (replace_row r i nm old key) (i * 2) (nm * 2)) as [Hc' Hk']; [lia|lia| |].
    { rewrite Nat2Z.inj_succ, Z.pow_succ_r in Hf by lia. lia. }
    split; [by rewrite Hc'|]. intros y. destruct (Hk' y) as (b & Hb & ->). rewrite Hk.
    exists (bool_decide (i <= y < i + nm) || b). split.
    + rewrite under_row by done. rewrite orb_true_iff, bool_decide_eq_true, Hb. done.
    + case_bool_decide as Hd; destruct (decide (i <= y < i + nm)); try done; destruct b; try done. apply swap_key_idem.
  - split; [done|]. intros y. exists false. split; [|done]. split; [done|].
    intros (m & Hm & Hlt & _). assert (1 <= 2 ^ m) by (apply (Z.pow_le_mono_r 2 0 m); lia). nia.
Qed.

(** Within a node, the indices under the one of code [c] are those of the codes
    that extend [c]. *)
Lemma under_code D b c k y k' :
  1 <= k <= D -> 1 <= k' <= D -> 0 < b -> c / 2 ^ k = b -> y / 2 ^ k' = b ->
  under (2 ^ D) (c - (b - 1) * 2 ^ k) 1 (y - (b - 1) * 2 ^ k') <-> k <= k' /\ y / 2 ^ (k' - k) = c.
Proof.
  intros Hk Hk' Hb Hc Hy.
  assert (Hci : 2 ^ k <= c - (b - 1) * 2 ^ k < 2 * 2 ^ k).
  { pose proof (Z.div_mod c (2 ^ k) ltac:(lia)). pose proof (Z.mod_pos_bound c (2 ^ k) ltac:(lia)). rewrite Hc in *. nia. }
  assert (Hyi : 2 ^ k' <= y - (b - 1) * 2 ^ k' < 2 * 2 ^ k').
  { pose proof (Z.div_mod y (2 ^ k') ltac:(lia)). pose proof (Z.mod_pos_bound y (2 ^ k') ltac:(lia)). rewrite Hy in *. nia. }
  assert (Hshift : forall m, 0 <= m -> m = k' - k ->
    (c - (b - 1) * 2 ^ k) * 2 ^ m <= y - (b - 1) * 2 ^ k' < (c - (b - 1) * 2 ^ k + 1) * 2 ^ m <-> y / 2 ^ m = c).
  { intros m Hm ->. assert (Hp : 2 ^ k' = 2 ^ k * 2 ^ (k' - k)) by (rewrite <- Z.pow_add_r by lia; f_equal; lia).
    pose proof (Z.div_mod y (2 ^ (k' - k)) ltac:(lia)). pose proof (Z.mod_pos_bound y (2 ^ (k' - k)) ltac:(lia)).
    rewrite Hp. split.
    - intros Hr. symmetry. apply (Z.div_unique_pos y (2 ^ (k' - k)) c (y - c * 2 ^ (k' - k))); nia.
    - intros <-. nia. }
  split.
  - intros (m & Hm & Hlt & Hr).
    assert (m = k' - k) as ->.
    { assert (H1 : 2 ^ (k + m) < 2 ^ (k' + 1)) by (rewrite !Z.pow_add_r by lia; change (2 ^ 1) with 2; nia).
      assert (H2 : 2 ^ k' < 2 ^ (k + m + 1)) by (rewrite !Z.pow_add_r by lia; change (2 ^ 1) with 2; nia).
      apply Z.pow_lt_mono_r_iff in H1, H2; lia. }
    split; [lia|]. by apply Hshift.
  - intros [Hle Hyc]. exists (k' - k). split; [lia|]. apply Hshift in Hyc; [|lia|done]. split; [|done].
    assert (2 ^ k' <= 2 ^ D) by (apply Z.pow_le_mono_r; lia). lia.
Qed.

Lemma div_pow_pos y k t b : 0 <= t <= k -> 0 < b -> y / 2 ^ k = b -> 0 < y / 2 ^ t.
Proof.
  intros Ht Hb Hy. replace k with (t + (k - t)) in Hy by lia. rewrite div_pow_add in Hy by lia.
  destruct (Z.lt_ge_cases 0 (y / 2 ^ t)) as [|Hle]; [done|].
  pose proof (Z.div_le_mono (y / 2 ^ t) 0 (2 ^ (k - t)) ltac:(lia) Hle) as H0. rewrite Z.div_0_l in H0; lia.
Qed.

Lemma best_key_put_ne K c key k y :
  (forall m, 0 <= m < Z.of_nat k -> y / 2 ^ m <> c) -> best_key (put_key K c key) k y = best_key K k y.
Proof. intros H. apply best_key_ext. intros m Hm. unfold put_key. by rewrite (proj2 (Z.eqb_neq _ _) (H m Hm)). Qed.

(** The key that [change] writes: an erased prefix inherits its parent's. *)
Definition new_key (K : Z -> Z) (k : nat) (c key : Z) : Z := if key =? 0 then best_key K (pred k) (c / 2) else key.

Section node.
Variables (K : Z -> Z) (b c : Z) (k : nat).
Hypotheses (HK : distinct_keys K) (Hb : 0 < b) (Hk : (1 <= k)%nat) (Hc : c / 2 ^ Z.of_nat k = b).

Lemma best_key_parent : best_key K k c = if K c =? 0 then best_key K (pred k) (c / 2) else K c.
Proof using Hk. clear Hc. destruct k; [lia|done]. Qed.

Lemma parent_distinct : K c <> 0 -> best_key K (pred k) (c / 2) <> K c.
Proof.
  intros Hn He. destruct (best_key_where K (pred k) (c / 2)) as [|(m & Hm & Hv & _)]; [congruence|].
  rewrite div_half in Hv by lia. rewrite Hv in He. pose proof (HK _ _ He ltac:(congruence)) as Heq.
  assert (Hpos : 0 < c).
  { pose proof (div_pow_pos c (Z.of_nat k) 0 b ltac:(lia) Hb Hc) as Hp. by rewrite Z.pow_0_r, Z.div_1_r in Hp. }
  assert (m + 1 = 0); [|lia]. apply (div_pow_inj c _ _ c); rewrite ?Z.pow_0_r, ?Z.div_1_r; lia || done.
Qed.

Lemma best_key_put key k' y :
  y / 2 ^ Z.of_nat k' = b ->
  best_key (put_key K c key) k' y
  = if decide ((k <= k')%nat /\ y / 2 ^ Z.of_nat (k' - k) = c)
    then swap_key (best_key K k c) (new_key K k c key) (best_key K k' y) else best_key K k' y.
Proof.
  intros Hy. destruct (decide _) as [[Hle Hyc]|Hno].
  - assert (Hin : forall m t, 0 <= m -> 0 <= t <= Z.of_nat k' -> y / 2 ^ m = y / 2 ^ t -> m = t).
    { intros m t Hm Ht He. eapply (div_pow_inj y m t); [lia|lia| |exact He|done]. eapply div_pow_pos; [|exact Hb|exact Hy]. lia. }
    assert (Hkey : best_key (put_key K c key) k c = new_key K k c key).
    { destruct k as [|k0]; [lia|]. cbn [best_key pred new_key]. unfold new_key, pred. unfold put_key at 1 3.
      rewrite Z.eqb_refl. destruct (key =? 0); [|done]. apply best_key_put_ne. intros m Hm Heq.
      rewrite div_half in Heq by lia. rewrite <- Hyc, <- div_pow_add in Heq by lia. apply Hin in Heq; lia. }
    pose proof (best_key_app K k (k' - k) y) as H1. pose proof (best_key_app (put_key K c key) k (k' - k) y) as H2.
    replace (k' - k + k)%nat with k' in H1, H2 by lia. rewrite H1, H2, Hyc, Hkey. clear H1 H2.
    rewrite best_key_put_ne.
    2:{ intros m Hm Heq. rewrite <- Hyc in Heq. apply Hin in Heq; lia. }
    destruct (Z.eqb_spec (best_key K (k' - k) y) 0) as [E|E].
    + unfold swap_key. by rewrite Z.eqb_refl.
    + unfold swap_key. rewrite (proj2 (Z.eqb_neq _ _)); [done|]. intros He.
      destruct (best_key_where K (k' - k) y) as [|(m & Hm & Hv & _)]; [done|].
      destruct (best_key_where K k c) as [|(m' & Hm' & Hv' & _)]; [congruence|].
      assert (Hmm : y / 2 ^ m = c / 2 ^ m') by (apply HK; congruence).
      rewrite <- Hyc, <- div_pow_add in Hmm by lia. symmetry in Hmm. apply Hin in Hmm; lia.
  - apply best_key_put_ne. intros m Hm Heq. apply Hno. rewrite <- Heq, <- div_pow_add in Hc by lia.
    assert (m + Z.of_nat k = Z.of_nat k') by (eapply div_pow_inj; [| |exact Hb|exact Hc|exact Hy]; lia).
    split; [lia|]. by replace (Z.of_nat (k' - k)) with m by lia.
Qed.

(** The index of a code above 3 is that of a prefix with a parent in the node. *)
Lemma index_gt_3 : (3 <? c - (b - 1) * 2 ^ Z.of_nat k) = (1 <? k)%nat.
Proof using Hb Hk Hc.
  pose proof (Z.div_mod c (2 ^ Z.of_nat k) ltac:(lia)). pose proof (Z.mod_pos_bound c (2 ^ Z.of_nat k) ltac:(lia)).
  rewrite Hc in *. destruct (Nat.ltb_spec 1 k) as [H1|H1].
  - apply Z.ltb_lt. assert (2 ^ 2 <= 2 ^ Z.of_nat k) by (apply Z.pow_le_mono_r; lia). change (2 ^ 2) with 4 in *. nia.
  - apply Z.ltb_ge. assert (k = 1%nat) as -> by lia. change (2 ^ Z.of_nat 1) with 2 in *. lia.
Qed.

Lemma index_parent : (1 < k)%nat -> (c - (b - 1) * 2 ^ Z.of_nat k) / 2 = c / 2 - (b - 1) * 2 ^ Z.of_nat (pred k).
Proof.
  intros H1. replace (Z.of_nat k) with (Z.of_nat (pred k) + 1) by lia. rewrite Z.pow_add_r by lia. change (2 ^ 1) with 2.
  replace (c - (b - 1) * (2 ^ Z.of_nat (pred k) * 2)) with (c + - ((b - 1) * 2 ^ Z.of_nat (pred k)) * 2) by lia.
  rewrite Z.div_add by lia. lia.
Qed.
End node.

(** What [change] does to the map: an add without [set] keeps an existing key. *)
Definition change_map (K : Z -> Z) (c key : Z) (set : bool) : Z -> Z :=
  if negb (K c =? 0) && negb set then K else put_key K c key.

Lemma put_key_same K c y : put_key K c (K c) y = K y.
Proof. unfold put_key. by destruct (Z.eqb_spec y c) as [->|]. Qed.

(** When the keys to remove and to write coincide the map stays as it is. *)
Lemma change_map_same K c k key set y :
  (K c <> 0 -> best_key K (pred k) (c / 2) <> K c) ->
  negb (K c =? new_key K k c key) && ((K c =? 0) || set) = false -> change_map K c key set y = K y.
Proof.
  intros Hp Eb. unfold change_map, new_key in *. destruct (Z.eqb_spec (K c) 0) as [E|E]; cbn [negb andb orb] in *.
  - rewrite andb_true_r in Eb. apply negb_false_iff, Z.eqb_eq in Eb. rewrite <- (put_key_same K c y).
    destruct (Z.eqb_spec key 0) as [->|]; congruence.
  - destruct set; [|done]. rewrite andb_true_r in Eb. apply negb_false_iff, Z.eqb_eq in Eb. cbn [negb].
    rewrite <- (put_key_same K c y). destruct (Z.eqb_spec key 0) as [->|]; [|congruence]. exfalso. apply Hp; congruence.
Qed.

(** The keys that [change] reads at index [i] of a node. *)
Lemma change_here_keys K level b r c k key :
  distinct_keys K -> node_ok K level b r -> 0 < b -> (1 <= k)%nat -> Z.of_nat k <= depth level -> c / 2 ^ Z.of_nat k = b ->
  let i := c - (b - 1) * 2 ^ Z.of_nat k in
  key_for r i = best_key K k c
  /\ (if negb (key_for r i =? 0) && (3 <? i) && (key_for r (i / 2) =? key_for r i) then 0 else key_for r i) = K c
  /\ (if (key =? 0) && (3 <? i) then key_for r (i / 2) else key) = new_key K k c key.
Proof.
  intros HK Hn Hb Hk Hd Hc i. assert (Hri : key_for r i = best_key K k c) by (apply Hn; done).
  assert (Hparent : (1 < k)%nat -> key_for r (i / 2) = best_key K (pred k) (c / 2)).
  { intros H1. unfold i. rewrite index_parent by done. apply Hn; [lia|lia|].
    rewrite div_half by lia. by replace (Z.of_nat (pred k) + 1) with (Z.of_nat k) by lia. }
  split; [done|]. rewrite Hri. unfold i at 1 3. rewrite (index_gt_3 b c k Hb Hk Hc), (best_key_parent K c k Hk). split.
  - pose proof (parent_distinct K b c k HK Hb Hk Hc) as Hp. destruct (Z.eqb_spec (K c) 0) as [E|E].
    + destruct (Nat.ltb_spec 1 k) as [H1|H1].
      * rewrite Hparent, Z.eqb_refl, andb_true_r by done.
        destruct (Z.eqb_spec (best_key K (pred k) (c / 2)) 0); cbn [negb andb]; congruence.
      * replace k with 1%nat by lia. cbn. congruence.
    + destruct (Nat.ltb_spec 1 k) as [H1|H1]; [|by rewrite andb_false_r].
      rewrite Hparent, (proj2 (Z.eqb_neq _ (K c))), andb_false_r by auto. done.
  - unfold new_key. destruct (Z.eqb_spec key 0) as [->|]; [|done].
    destruct (Nat.ltb_spec 1 k) as [H1|H1]; [by apply Hparent|]. by replace k with 1%nat by lia.
Qed.

Lemma change_here_spec K level b r c k key set :
  distinct_keys K -> node_ok K level b r -> 0 <= level < 5 -> 0 < b -> (1 <= k)%nat -> Z.of_nat k <= depth level ->
  c / 2 ^ Z.of_nat k = b ->
  let '(r', prev) := change_here (nbuckets level) r (c - (b - 1) * 2 ^ Z.of_nat k) key set in
  prev = K c /\ children r' = children r /\ node_ok (change_map K c key set) level b r'.
Proof.
  intros HK Hn Hl Hb Hk Hd Hc. destruct (level_facts level Hl) as (En & _ & HD & _). unfold change_here.
  destruct (change_here_keys K level b r c k key HK Hn Hb Hk Hd Hc) as (Hri & -> & ->).
  set (i := c - (b - 1) * 2 ^ Z.of_nat k) in *. split; [done|].
  destruct (negb (K c =? new_key K k c key) && ((K c =? 0) || set)) eqn:Eb.
  - assert (Hm : change_map K c key set = put_key K c key).
    { unfold change_map. apply andb_true_iff in Eb as [_ Eb]. by destruct (K c =? 0), set. }
    rewrite Hm.
    assert (Hi : 0 < i).
    { unfold i. pose proof (Z.div_mod c (2 ^ Z.of_nat k) ltac:(lia)). pose proof (Z.mod_pos_bound c (2 ^ Z.of_nat k) ltac:(lia)).
      rewrite Hc in *. nia. }
    destruct (replace_rows_spec 18 (nbuckets level) r i 1 (key_for r i) (new_key K k c key)) as [G1 G2]; [lia|done| |].
    { rewrite En. assert (2 ^ depth level <= 2 ^ 16) by (apply Z.pow_le_mono_r; lia). change (2 ^ 16) with 65536 in *.
      change (2 ^ Z.of_nat 18) with 262144. lia. }
    split; [done|]. intros k' y Hk' Hd' Hy. destruct (G2 (y - (b - 1) * 2 ^ Z.of_nat k')) as (bb & Hbb & ->).
    rewrite En in Hbb. unfold i in Hbb. rewrite under_code in Hbb by (lia || done).
    rewrite (best_key_put K b c k HK Hb Hk Hc) by done. rewrite Hri, (Hn k' y Hk' Hd' Hy).
    destruct (decide _) as [[D1 D2]|D].
    + rewrite Nat2Z.inj_sub in D2 by done. rewrite (proj2 Hbb); [done|]. split; [lia|done].
    + destruct bb; [|done]. destruct D. destruct (proj1 Hbb eq_refl) as [D1 D2]. rewrite Nat2Z.inj_sub by lia. split; [lia|done].
  - split; [done|]. eapply node_ok_ext; [|done]. intros y m Hm Hy. apply (change_map_same K c k); [|done].
    by apply (parent_distinct K b c k HK Hb Hk Hc).
Qed.

(** ** [change] and [lookup] across levels *)

Definition host_mask (l : Z) : Z := u32 (4294967295 .<< (32 - l)).

(** The code of the first [l] bits of an address. *)
Definition code (a l : Z) : Z := (2 ^ 32 + a) / 2 ^ (32 - l).

Lemma forall_level (P : Z -> bool) : forallb P (seqZ 0 5) = true -> forall l, 0 <= l < 5 -> P l = true.
Proof. intros Hf l Hl. rewrite forallb_forall in Hf. apply Hf, list_elem_of_In, elem_of_seqZ. lia. Qed.

(** What the mask tests of [change] decide. *)
Lemma mask_tests level l :
  0 <= level < 5 -> 0 <= l <= 32 ->
  (host_mask l .& ((1 .<< bitshift level) - 1) =? 0) = (l <=? base level + depth level)
  /\ (base level < l <= base level + depth level ->
      nbuckets level - ((host_mask l .>> bitshift level) .& (nbuckets level - 1)) = 2 ^ (base level + depth level - l)).
Proof.
  intros Hlev Hl.
  assert (Hall : forallb (fun level => forallb (fun l =>
    Bool.eqb (host_mask l .& ((1 .<< bitshift level) - 1) =? 0) (l <=? base level + depth level)
    && (negb ((base level <? l) && (l <=? base level + depth level))
        || (nbuckets level - ((host_mask l .>> bitshift level) .& (nbuckets level - 1)) =? 2 ^ (base level + depth level - l))))
    (seqZ 0 33)) (seqZ 0 5) = true) by (vm_compute; reflexivity).
  pose proof (forall_len _ (forall_level _ Hall level Hlev) l Hl) as H. cbv beta in H.
  apply andb_true_iff in H as [H1 H2]. apply Bool.eqb_prop in H1. split; [done|]. intros [H3 H4].
  apply Z.ltb_lt in H3. apply Z.leb_le in H4. rewrite H3, H4 in H2. by apply Z.eqb_eq.
Qed.

Lemma halve_spec fuel t i : (t <= fuel)%nat -> halve fuel (2 ^ Z.of_nat t) i = i / 2 ^ Z.of_nat t.
Proof.
  revert t i. induction fuel as [|fuel IH]; intros t i Ht; cbn [halve].
  { replace t with 0%nat by lia. by rewrite Z.pow_0_r, Z.div_1_r. }
  destruct t as [|t]; [by rewrite Z.pow_0_r, Z.div_1_r|].
  assert (Hp : 2 ^ Z.of_nat (S t) = 2 * 2 ^ Z.of_nat t) by (rewrite Nat2Z.inj_succ, Z.pow_succ_r; lia).
  rewrite Hp. rewrite (proj2 (Z.ltb_lt 1 _)) by lia. rewrite (Z.mul_comm 2), Z.div_mul by lia. rewrite IH by lia.
  rewrite Z.div_div by lia. by rewrite Z.mul_comm.
Qed.

(** The bucket of an address at a level, and its code. *)
Lemma bucket level a :
  0 <= level < 5 -> 0 <= a < 2 ^ 32 ->
  let i1 := (a .>> bitshift level) .& (nbuckets level - 1) in
  0 <= i1 < nbuckets level /\ code a (base level) * nbuckets level + i1 = code a (base (level + 1)).
Proof.
  intros Hl Ha i1. destruct (level_facts level Hl) as (En & Es & HD & HB & Hle & Hnext & _).
  unfold i1, code. rewrite En, Es. replace (2 ^ depth level - 1) with (Z.ones (depth level)) by (rewrite Z.ones_equiv; lia).
  rewrite Z.land_ones, Z.shiftr_div_pow2 by lia. split; [apply Z.mod_pos_bound; lia|]. rewrite Hnext.
  replace (32 - (base level + depth level)) with (32 - base level - depth level) by lia.
  set (s := 32 - base level - depth level). replace (32 - base level) with (s + depth level) by lia.
  rewrite div_pow_add by lia. set (x := (2 ^ 32 + a) / 2 ^ s).
  replace ((a / 2 ^ s) mod 2 ^ depth level) with (x mod 2 ^ depth level).
  { pose proof (Z.div_mod x (2 ^ depth level) ltac:(lia)). lia. }
  unfold x. replace (2 ^ 32) with (2 ^ base level * 2 ^ depth level * 2 ^ s) by (rewrite <- !Z.pow_add_r by lia; f_equal; lia).
  rewrite Z.div_add_l by lia. rewrite Z.add_comm, Z.mod_add by lia. done.
Qed.

Lemma code_div a l l' : 0 <= l' <= l -> l <= 32 -> code a l / 2 ^ (l - l') = code a l'.
Proof. intros Hl Hl'. unfold code. rewrite <- div_pow_add by lia. do 2 f_equal. lia. Qed.

Lemma code_pos a l : 0 <= a -> 0 <= l <= 32 -> 0 < code a l.
Proof.
  intros Ha Hl. unfold code. apply Z.div_str_pos. split; [lia|].
  assert (2 ^ (32 - l) <= 2 ^ 32) by (apply Z.pow_le_mono_r; lia). lia.
Qed.

Lemma change_map_ne K c key set y : y <> c -> change_map K c key set y = K y.
Proof. intros Hne. unfold change_map. destruct (_ && _); [done|]. unfold put_key. by rewrite (proj2 (Z.eqb_neq _ _) Hne). Qed.

Lemma set_child_ok K c key set level b r i1 r' fuel l :
  0 <= level -> level + Z.of_nat (S fuel) <= 5 -> 0 < b -> 0 <= i1 < nbuckets level ->
  depth level < l -> c / 2 ^ l = b -> c / 2 ^ (l - depth level) = b * nbuckets level + i1 ->
  tree_ok (S fuel) K level b (Some r) ->
  tree_ok fuel (change_map K c key set) (level + 1) (b * nbuckets level + i1) (Some r') ->
  tree_ok (S fuel) (change_map K c key set) level b (Some (set_child r i1 r')).
Proof.
  intros Hl Hf Hb Hi Hd Hc Hci [Hn Hch] Hr'. destruct (level_facts level ltac:(lia)) as (En & _ & HD & _).
  cbn [tree_ok]. split.
  - eapply node_ok_ext; [|exact Hn]. intros y k Hk Hy. apply change_map_ne. intros ->.
    assert (k = l) by (eapply div_pow_inj; [| |exact Hb|exact Hy|exact Hc]; lia). lia.
  - intros j Hj. cbn [set_child children]. destruct (decide (j = i1)) as [->|Hne]; [by rewrite lookup_insert_eq|].
    rewrite lookup_insert_ne by done. apply (tree_ok_ext fuel K); [lia|lia| |by apply Hch].
    intros y Hy. apply change_map_ne. intros ->. destruct Hy as (k & Hk & Hy).
    rewrite En in Hi, Hj, Hy, Hci. pose proof (f_equal (fun x => x / 2 ^ depth level) Hy) as Hy'. cbv beta in Hy'.
    rewrite <- div_pow_add, Z.div_add_l, (Z.div_small j), Z.add_0_r in Hy' by lia.
    assert (k + depth level = l) by (eapply div_pow_inj; [| |exact Hb|exact Hy'|exact Hc]; lia).
    replace (l - depth level) with k in Hci by lia. rewrite Hci in Hy. lia.
Qed.

Lemma change_spec fuel K level r a l key set :
  distinct_keys K -> 0 <= level -> level + Z.of_nat fuel = 5 -> 0 <= a < 2 ^ 32 -> base level < l <= 32 ->
  tree_ok fuel K level (code a (base level)) (Some r) ->
  let '(r', prev) := change fuel r a (host_mask l) key set level in
  prev = K (code a l) /\ tree_ok fuel (change_map K (code a l) key set) level (code a (base level)) (Some r').
Proof.
  intros HK. revert level r. induction fuel as [|fuel IH]; intros level r Hl Hf Ha Hlen Ht; [done|].
  destruct (level_facts level ltac:(lia)) as (En & Es & HD & HB & Hle & Hnext & Hlast).
  destruct (mask_tests level l ltac:(lia) ltac:(lia)) as [Hmask Hnm].
  destruct (bucket level a ltac:(lia) Ha) as [Hi1 Hcode].
  pose proof (code_pos a (base level) ltac:(lia) ltac:(lia)) as Hb.
  cbn [change]. rewrite Hmask. set (i1 := (a .>> bitshift level) .& (nbuckets level - 1)) in *.
  destruct (Z.leb_spec l (base level + depth level)) as [Hin|Hout]; cbn [negb].
  - rewrite Hnm by lia. destruct Ht as [Hn Hch].
    pose proof (change_here_spec K level (code a (base level)) r (code a l) (Z.to_nat (l - base level)) key set
      HK Hn ltac:(lia) Hb ltac:(lia) ltac:(lia)) as Hs. rewrite !Z2Nat.id in Hs by lia.
    rewrite code_div in Hs by lia. specialize (Hs eq_refl).
    replace (halve 17 (2 ^ (base level + depth level - l)) (nbuckets level + i1))
      with (code a l - (code a (base level) - 1) * 2 ^ (l - base level)).
    2:{ rewrite <- (Z2Nat.id (base level + depth level - l)) by lia. rewrite halve_spec by lia. rewrite Z2Nat.id by lia.
        rewrite <- (code_div a (base level + depth level) l) by lia. rewrite <- Hnext, <- Hcode, En.
        replace (nbuckets level) with (2 ^ depth level) by done. set (t := base level + depth level - l).
        replace (base (level + 1) - l) with t by lia.
        replace (2 ^ depth level) with (2 ^ (l - base level) * 2 ^ t) by (rewrite <- Z.pow_add_r by lia; f_equal; lia).
        rewrite Z.mul_assoc, !Z.div_add_l by lia. lia. }
    destruct (change_here _ _ _ _ _) as [r' prev]. destruct Hs as (-> & Hcr & Hn'). split; [done|].
    split; [done|]. intros j Hj. rewrite Hcr. apply (tree_ok_ext fuel K); [lia|lia| |by apply Hch].
    intros y Hy. apply change_map_ne. intros ->. rewrite En in Hy, Hj. apply below_child in Hy as (k & Hk & Hy); [|lia|lia].
    assert (k = l - base level); [|lia]. eapply div_pow_inj; [| |exact Hb|exact Hy|apply code_div]; lia.
  - assert (level < 4) by (destruct (decide (level = 4)); [specialize (Hlast ltac:(done))|]; lia).
    destruct fuel as [|fuel]; [lia|].
    assert (Hchild : tree_ok (S fuel) K (level + 1) (code a (base (level + 1))) (Some (default make_radix (children r !! i1)))).
    { rewrite <- Hcode. destruct Ht as [_ Hch]. specialize (Hch i1 Hi1). destruct (children r !! i1) as [ch|]; [done|].
      apply tree_ok_make; [lia|lia|done]. }
    pose proof (IH (level + 1) _ ltac:(lia) ltac:(lia) Ha ltac:(lia) Hchild) as Hs.
    destruct (change (S fuel) _ a _ key set (level + 1)) as [c prev]. destruct Hs as [-> Hs]. split; [done|].
    apply (set_child_ok K _ key set level _ r i1 c (S fuel) (l - base level)); try done; try lia.
    + apply code_div; lia.
    + rewrite Hcode. replace (l - base level - depth level) with (l - base (level + 1)) by lia. apply code_div; lia.
    + by rewrite Hcode.
Qed.

Lemma lookup_spec fuel K level r a cur :
  0 <= level -> level + Z.of_nat fuel = 5 -> 0 <= a < 2 ^ 32 -> tree_ok fuel K level (code a (base level)) r ->
  lookup fuel r cur a level
  = let best := best_key K (Z.to_nat (32 - base level)) (code a 32) in if best =? 0 then cur else best.
Proof.
  revert level r cur. induction fuel as [|fuel IH]; intros level r cur Hl Hf Ha Ht.
  { assert (level = 5) as -> by lia. by rewrite (Ht : r = None). }
  destruct (level_facts level ltac:(lia)) as (En & Es & HD & HB & Hle & Hnext & Hlast).
  destruct r as [r|]; cbn [lookup tree_ok] in *.
  - destruct Ht as [Hn Hch]. destruct (bucket level a ltac:(lia) Ha) as [Hi1 Hcode].
    set (i1 := (a .>> bitshift level) .& (nbuckets level - 1)) in *.
    rewrite (IH (level + 1)); [|lia|lia|done|rewrite <- Hcode; by apply Hch].
    assert (Hk : key_for r (nbuckets level + i1) = best_key K (Z.to_nat (depth level)) (code a (base (level + 1)))).
    { rewrite <- (Hn (Z.to_nat (depth level)) (code a (base (level + 1)))); rewrite ?Z2Nat.id by lia; [|lia|lia|].
      - rewrite <- Hcode, En. f_equal. lia.
      - rewrite <- Hcode, En. rewrite Z.div_add_l, Z.div_small by lia. lia. }
    pose proof (best_key_app K (Z.to_nat (depth level)) (Z.to_nat (32 - base (level + 1))) (code a 32)) as Happ.
    replace (Z.to_nat (32 - base (level + 1)) + Z.to_nat (depth level))%nat with (Z.to_nat (32 - base level)) in Happ by lia.
    rewrite Z2Nat.id, code_div in Happ by lia. rewrite Happ, Hk. cbv zeta.
    destruct (Z.eqb_spec (best_key K (Z.to_nat (32 - base (level + 1))) (code a 32)) 0) as [E|E].
    + by destruct (_ =? 0).
    + by rewrite (proj2 (Z.eqb_neq _ _) E).
  - rewrite best_key_zero; [done|]. intros m Hm. apply Ht. exists (32 - base level - m). split; [lia|].
    rewrite <- div_pow_add by lia. replace (m + (32 - base level - m)) with (32 - base level) by lia. apply code_div; lia.
Qed.
