(* ===== verification/RadixTable.v ===== *)
(** * The radix routing table implements longest-prefix matching

    [RadixIPLookup] keeps a vector of routes with a free list, a vector of
    gateways and ports, and the trie.  The trie's map sends the code of each stored
    prefix to the combined key of its slot and hop.  Under any sequence of updates
    the element is a [LawfulTable], with the same abstract table as the linear
    one. *)

From stdpp Require Import gmap.
From S2P Require Import Prelude Packet Words Insn IPRoute LinearRoute RouteTable Radix RadixTree.
Local Open Scope word_scope.
Local Open Scope Z_scope.

(** ** The code of a prefix *)

Definition pcode (k : prefix) : Z := code (ntohl k.1) (mask_to_prefix_len k.2).

Definition key_of (r : IPRoute) : prefix := (addr r, IPRoute.mask r).

Lemma prefix_mask_len m :
  prefix_mask m -> 0 <= mask_to_prefix_len m <= 32 /\ m = make_prefix (mask_to_prefix_len m).
Proof.
  intros (l & Hl & ->). assert (Hall : forallb (fun l => mask_to_prefix_len (make_prefix l) =? l) (seqZ 0 33) = true)
    by (vm_compute; reflexivity).
  pose proof (forall_len _ Hall l Hl) as H. cbv beta in H. apply Z.eqb_eq in H. rewrite H. exact (conj Hl eq_refl).
Qed.

Lemma mask_host l :
  0 <= l <= 32 -> ntohl (make_prefix l) = Z.ones l .<< (32 - l) /\ (make_prefix l =? 0) = (l =? 0)
    /\ 0 <= make_prefix l < 4294967296 /\ (0 < l -> ntohl (make_prefix l) = host_mask l).
Proof.
  intros Hl. assert (Hall : forallb (fun l => (ntohl (make_prefix l) =? Z.ones l .<< (32 - l))
    && Bool.eqb (make_prefix l =? 0) (l =? 0) && ((0 <=? make_prefix l) && (make_prefix l <? 4294967296))
    && ((l =? 0) || (ntohl (make_prefix l) =? host_mask l))) (seqZ 0 33) = true) by (vm_compute; reflexivity).
  pose proof (forall_len _ Hall l Hl) as H. cbv beta in H. rewrite !andb_true_iff in H.
  destruct H as [[[H1 H2] [H3 H4]] H5]. apply Z.eqb_eq in H1. apply Bool.eqb_prop in H2. bprop.
  split; [done|]. split; [done|]. split; [lia|]. intros Hpos. apply orb_true_iff in H5 as [H5|H5]; bprop; lia.
Qed.

Lemma code_eq a b l :
  0 <= l <= 32 -> code a l = code b l <-> a / 2 ^ (32 - l) = b / 2 ^ (32 - l).
Proof.
  intros Hl. unfold code. replace (2 ^ 32) with (2 ^ l * 2 ^ (32 - l)) by (rewrite <- Z.pow_add_r by lia; f_equal; lia).
  rewrite !Z.div_add_l by lia. lia.
Qed.

Lemma code_zero a : 0 <= a < 2 ^ 32 -> code a 0 = 1.
Proof. intros Ha. unfold code. rewrite Z.sub_0_r. symmetry. apply (Z.div_unique_pos _ _ _ a); lia. Qed.

Lemma code_length a b l l' :
  0 <= a < 2 ^ 32 -> 0 <= b < 2 ^ 32 -> 0 <= l <= 32 -> 0 <= l' <= 32 -> code a l = code b l' -> l = l'.
Proof.
  intros Ha Hb Hl Hl' He. pose proof (code_div a l 0 ltac:(lia) ltac:(lia)) as H1.
  pose proof (code_div b l' 0 ltac:(lia) ltac:(lia)) as H2. rewrite code_zero, Z.sub_0_r in H1, H2 by done.
  rewrite <- He in H2. refine (div_pow_inj (code a l) l l' 1 _ _ _ H1 H2); lia.
Qed.

(** A prefix covers the addresses whose code extends its own. *)
Lemma covers_code k a :
  0 <= k.1 < 4294967296 -> prefix_mask k.2 -> 0 <= a < 4294967296 ->
  covers k a = true <-> code (ntohl a) (mask_to_prefix_len k.2) = pcode k.
Proof.
  intros Hk Hm Ha. destruct (prefix_mask_len _ Hm) as [Hl Em]. unfold covers, pcode. rewrite matches_prefix_iff.
  destruct (mask_host _ Hl) as (Eh & _ & Hr & _). rewrite <- Em in Eh, Hr. rewrite code_eq by done.
  assert (Hinj : a .& k.2 = k.1 .& k.2 <-> ntohl a .& ntohl k.2 = ntohl k.1 .& ntohl k.2).
  { rewrite <- !ntohl_land by done. split; [congruence|]. intros He. apply (f_equal ntohl) in He.
    assert (Hlr : forall x, 0 <= x < 4294967296 -> 0 <= x .& k.2 < 4294967296).
    { intros x Hx. split; [apply Z.land_nonneg; lia|]. rewrite <- (Z2N.id x), <- (Z2N.id k.2) by lia.
      eapply Z.le_lt_trans; [|apply Hx]. rewrite Z2N.id by lia. apply Z.ldiff_le; [lia|].
      apply Z.bits_inj'. intros n Hn. rewrite Z.ldiff_spec, Z.land_spec, Z.bits_0, !Z2N.id by lia.
      by destruct (Z.testbit x n), (Z.testbit k.2 n). }
    rewrite !ntohl_involutive in He by auto. done. }
  rewrite Hinj, Eh, !land_ones_shifted by (done || apply ntohl_range). 
  assert (0 < 2 ^ (32 - mask_to_prefix_len k.2)) by (apply Z.pow_pos_nonneg; lia). split; [|congruence].
  intros He. apply Z.mul_cancel_r in He; [done|lia].
Qed.

Lemma pcode_inj k k' : prefix_ok k.1 k.2 -> prefix_ok k'.1 k'.2 -> pcode k = pcode k' -> k = k'.
Proof.
  intros (Hr & Hm & Hp & _) (Hr' & Hm' & Hp' & _) He.
  destruct (prefix_mask_len _ Hm) as [Hl Em]. destruct (prefix_mask_len _ Hm') as [Hl' Em'].
  assert (Hlen : mask_to_prefix_len k.2 = mask_to_prefix_len k'.2)
    by (eapply code_length; [| | | |exact He]; lia || apply ntohl_range).
  assert (Hm2 : k.2 = k'.2) by congruence.
  assert (Hc : covers k k'.1 = true).
  { apply covers_code; [done|done|done|]. rewrite He. unfold pcode. by rewrite Hlen. }
  apply matches_prefix_iff in Hc. rewrite Hp, Hm2, Hp' in Hc. destruct k, k'. cbn in *. congruence.
Qed.

Lemma mask_as_specific_len l l' :
  0 <= l <= 32 -> 0 <= l' <= 32 -> mask_as_specific (make_prefix l) (make_prefix l') = (l' <=? l).
Proof.
  intros Hl Hl'. assert (Hall : forallb (fun l => forallb (fun l' =>
    Bool.eqb (mask_as_specific (make_prefix l) (make_prefix l')) (l' <=? l)) (seqZ 0 33)) (seqZ 0 33) = true)
    by (vm_compute; reflexivity).
  pose proof (forall_len _ (forall_len _ Hall l Hl) l' Hl') as H. by apply Bool.eqb_prop in H.
Qed.

(** ** Combined keys *)

Lemma combine_key_keys i lk :
  1 <= i < 16777216 -> 0 <= lk < 256 ->
  get_key (combine_key i lk) = i /\ get_lookup_key (combine_key i lk) = lk /\ combine_key i lk <> 0.
Proof.
  intros Hi Hlk. unfold combine_key. rewrite Z.lor_comm, lor_shift_add by (change (2 ^ 24) with 16777216; lia).
  change (2 ^ 24) with 16777216. set (x := i + lk * 16777216).
  assert (Hx : exists q, i32 x = x + q * 4294967296 /\ (q = 0 \/ q = -1)).
  { unfold i32, u32. rewrite Z.mod_small by lia. destruct (x <? 2147483648); [exists 0|exists (-1)]; lia. }
  destruct Hx as (q & Hx & Hq). rewrite Hx.
  assert (Hg : get_key (x + q * 4294967296) = i).
  { unfold get_key. change 16777215 with (Z.ones 24). rewrite Z.land_ones by lia. change (2 ^ 24) with 16777216.
    unfold x. Z.div_mod_to_equations; lia. }
  split; [done|]. split.
  - unfold get_lookup_key, u32. change 4294967296 with (2 ^ 32) at 2. rewrite <- Z.land_ones by lia.
    rewrite <- Z.land_assoc, (Z.land_comm 4278190080), Z.land_assoc, Z.land_ones by lia. change (2 ^ 32) with 4294967296.
    rewrite Z.mod_add, Z.mod_small by lia. rewrite Z.shiftr_land. change (4278190080 .>> 24) with (Z.ones 8).
    rewrite Z.land_ones, Z.shiftr_div_pow2 by lia. change (2 ^ 24) with 16777216. change (2 ^ 8) with 256.
    unfold x. Z.div_mod_to_equations; lia.
  - intros H0. rewrite H0 in Hg. cbn in Hg. unfold get_key in Hg. rewrite Z.land_0_l in Hg. lia.
Qed.

(** ** The free list *)

Fixpoint chain (v : list IPRoute) (f : Z) (fl : list Z) : Prop :=
  match fl with
  | [] => f < 0
  | i :: fl' => f = i /\ 0 <= i < vlen v /\ chain v (extra (vget v i)) fl'
  end.

Lemma chain_ext v v' f fl :
  vlen v <= vlen v' -> (forall i, i ∈ fl -> extra (vget v' i) = extra (vget v i)) -> chain v f fl -> chain v' f fl.
Proof.
  revert f. induction fl as [|i fl IH]; intros f Hl He Hc; cbn [chain] in *; [done|].
  destruct Hc as (-> & Hi & Hc). split; [done|]. split; [lia|]. rewrite He by set_solver. apply IH; [done| |done]. set_solver.
Qed.

Lemma chain_range v f fl i : chain v f fl -> i ∈ fl -> 0 <= i < vlen v.
Proof.
  revert f. induction fl as [|j fl IH]; intros f Hc Hi; [set_solver|]. destruct Hc as (_ & Hj & Hc).
  apply elem_of_cons in Hi as [->|Hi]; [done|eauto].
Qed.

Lemma vlen_link_free v i e : vlen (link_free v i e) = vlen v.
Proof. apply vlen_vset. Qed.

Lemma vget_link_free v i e : 0 <= i < vlen v -> vget (link_free v i e) i = set_extra (vget v i) e.
Proof. intros Hi. by apply vget_vset_eq. Qed.

Lemma vget_link_free_ne v i j e : i <> j -> 0 <= i -> 0 <= j -> vget (link_free v i e) j = vget v j.
Proof. apply vget_vset_ne. Qed.

(** Putting a slot at the head of the free list. *)
Lemma chain_release v f fl o :
  chain v f fl -> 0 <= o < vlen v -> o ∉ fl -> chain (link_free v o f) o (o :: fl).
Proof.
  intros Hc Ho Hno. cbn [chain]. rewrite vlen_link_free, vget_link_free by done. split; [done|]. split; [done|].
  cbn [set_extra extra]. apply (chain_ext v); [by rewrite vlen_link_free| |done].
  intros i Hi. pose proof (chain_range _ _ _ _ Hc Hi). rewrite vget_link_free_ne; [done| |lia|lia]. congruence.
Qed.

(** The slot of a new route: the head of the free list, or a new one. *)
Lemma chain_take v f fl r :
  chain v f fl -> NoDup fl ->
  let found := if f <? 0 then vlen v else f in
  let '(v1, f1) := if found =? vlen v then (vpush v r, f) else (vset v found r, extra (vget v found)) in
  let v2 := link_free v1 found (-1) in
  exists fl1, chain v2 f1 fl1 /\ NoDup fl1 /\ (found ∉ fl1) /\ (fl1 ⊆ fl)
    /\ (forall i, i ∈ fl -> i = found \/ i ∈ fl1) /\ (found ∈ fl \/ found = vlen v)
    /\ vget v2 found = set_extra r (-1) /\ vlen v <= vlen v2 <= vlen v + 1 /\ 0 <= found < vlen v2
    /\ (forall i, 0 <= i < vlen v -> i <> found -> vget v2 i = vget v i)
    /\ (forall i, 0 <= i < vlen v2 -> i <> found -> 0 <= i < vlen v).
Proof.
  intros Hc Hnd found. pose proof (vlen_nonneg v). destruct fl as [|h fl]; cbn [chain] in Hc.
  - unfold found. rewrite (proj2 (Z.ltb_lt f 0)), Z.eqb_refl by lia. exists [].
    assert (Hl : vlen (vpush v r) = vlen v + 1) by apply vlen_vpush. rewrite vlen_link_free, vget_link_free, vget_vpush_eq, Hl by lia.
    split_and!; try done; (done || set_solver || lia || (by right) || (by apply NoDup_nil_2) || idtac).
    intros i Hi Hne. rewrite vget_link_free_ne, vget_vpush_lt; lia || done.
  - destruct Hc as (-> & Hh & Hc). apply NoDup_cons in Hnd as [Hnh Hnd].
    unfold found. rewrite (proj2 (Z.ltb_ge h 0)), (proj2 (Z.eqb_neq h (vlen v))) by lia. exists fl.
    rewrite vlen_link_free, vget_link_free, vlen_vset, vget_vset_eq by (rewrite ?vlen_vset; lia).
    assert (Hrest : forall i, 0 <= i < vlen v -> i <> h -> vget (link_free (vset v h r) h (-1)) i = vget v i).
    { intros i Hi Hne. rewrite vget_link_free_ne, vget_vset_ne; lia || done. }
    split_and!; try done; try set_solver; try lia; try (left; by left).
    apply (chain_ext v); [by rewrite vlen_link_free, vlen_vset| |done].
    intros i Hi. rewrite Hrest; [done|by eapply chain_range|]. by intros ->.
Qed.

(** ** Slots *)

(** The slot of a key, and the route in it. *)
Definition slot (key : Z) : Z := get_key key - 1.

(** Key [key] stands for a stored route whose prefix has code [c]. *)
Record entry_ok (v : list IPRoute) (ls : list hop) (c key : Z) : Prop := {
  eo_slot : 0 <= slot key < vlen v;
  eo_lookup : 1 <= get_lookup_key key <= vlen ls;
  eo_route : route_ok (vget v (slot key));
  eo_code : pcode (key_of (vget v (slot key))) = c;
  eo_hop : vget ls (get_lookup_key key - 1) = hop_of (vget v (slot key))
}.

(** Map [K] of keys, free list [fl] and the slot [lim] of a route that was taken
    out of the map but not yet freed. *)
Record slots_ok (K : Z -> Z) (fl : list Z) (lim : option Z) (v : list IPRoute) (f : Z) (ls : list hop) (M : routes)
    : Prop := {
  so_keys c : K c <> 0 -> entry_ok v ls c (K c);
  so_chain : chain v f fl;
  so_nodup : NoDup fl;
  so_free i c : i ∈ fl -> K c <> 0 -> slot (K c) <> i;
  so_used i : 0 <= i < vlen v -> i ∈ fl \/ (exists c, K c <> 0 /\ slot (K c) = i) \/ lim = Some i;
  so_limbo o : lim = Some o -> 0 <= o < vlen v /\ (o ∉ fl) /\ forall c, K c <> 0 -> slot (K c) <> o;
  so_rep k x : M !! k = Some x <-> exists c, K c <> 0 /\ key_of (vget v (slot (K c))) = k /\ hop_of (vget v (slot (K c))) = x
}.

Lemma slots_ok_ext K K' fl lim v f ls M : (forall c, K' c = K c) -> slots_ok K fl lim v f ls M -> slots_ok K' fl lim v f ls M.
Proof.
  intros He [H1 H2 H3 H4 H5 H6 H7]. constructor; try done.
  - intros c. rewrite He. apply H1.
  - intros i c. rewrite He. apply H4.
  - intros i Hi. destruct (H5 i Hi) as [|[(c & Hc)|]]; [by left| |by right; right]. right; left. exists c. by rewrite He.
  - intros o Ho. destruct (H6 o Ho) as (G1 & G2 & G3). split; [done|]. split; [done|]. intros c. rewrite He. apply G3.
  - intros k x. rewrite H7. split; intros (c & Hc); exists c; [by rewrite He|by rewrite He in Hc].
Qed.

Section slots.
Context {K : Z -> Z} {fl : list Z} {lim : option Z} {v : list IPRoute} {f : Z} {ls : list hop} {M : routes}.
Hypothesis Hok : slots_ok K fl lim v f ls M.

Lemma slot_inj x y : K x <> 0 -> K y <> 0 -> slot (K x) = slot (K y) -> x = y.
Proof using Hok.
  intros Hx Hy He. rewrite <- (eo_code _ _ _ _ (so_keys _ _ _ _ _ _ _ Hok x Hx)).
  rewrite <- (eo_code _ _ _ _ (so_keys _ _ _ _ _ _ _ Hok y Hy)). by rewrite He.
Qed.

Lemma slots_distinct : distinct_keys K.
Proof using Hok. intros x y He Hx. apply slot_inj; congruence. Qed.

(** What the map holds for a prefix. *)
Lemma slots_lookup k :
  prefix_ok k.1 k.2 ->
  M !! k = if K (pcode k) =? 0 then None else Some (hop_of (vget v (slot (K (pcode k))))).
Proof using Hok.
  intros Hk. destruct (Z.eqb_spec (K (pcode k)) 0) as [E|E].
  - destruct (M !! k) as [x|] eqn:EM; [|done]. apply (so_rep _ _ _ _ _ _ _ Hok) in EM as (c & Hc & Hkc & _).
    rewrite <- Hkc in E. rewrite (eo_code _ _ _ _ (so_keys _ _ _ _ _ _ _ Hok c Hc)) in E. done.
  - apply (so_rep _ _ _ _ _ _ _ Hok). exists (pcode k). split; [done|]. split; [|done].
    destruct (so_keys _ _ _ _ _ _ _ Hok _ E) as [_ _ [Hr _] Hc _]. by apply pcode_inj.
Qed.

Lemma slots_key k : prefix_ok k.1 k.2 -> K (pcode k) <> 0 -> key_of (vget v (slot (K (pcode k)))) = k.
Proof using Hok.
  intros Hk E. destruct (so_keys _ _ _ _ _ _ _ Hok _ E) as [_ _ [Hr _] Hc _]. by apply pcode_inj.
Qed.

(** Taking a route out of the map. *)
Lemma slots_forget c :
  lim = None -> K c <> 0 ->
  slots_ok (put_key K c 0) fl (Some (slot (K c))) v f ls (delete (key_of (vget v (slot (K c)))) M).
Proof using Hok.
  intros Hlim Hc. pose proof slot_inj as Hinj. destruct Hok as [H1 H2 H3 H4 H5 H6 H7].
  assert (Hp : forall y, put_key K c 0 y <> 0 <-> K y <> 0 /\ y <> c).
  { intros y. unfold put_key. destruct (Z.eqb_spec y c); [subst|]; split; intros; try done; by intuition. }
  assert (Hq : forall y, y <> c -> put_key K c 0 y = K y).
  { intros y Hy. unfold put_key. by rewrite (proj2 (Z.eqb_neq _ _) Hy). }
  constructor; try done.
  - intros y [Hy Hne]%Hp. rewrite Hq by done. by apply H1.
  - intros i y Hi [Hy Hne]%Hp. rewrite Hq by done. by apply H4.
  - intros i Hi. destruct (H5 i Hi) as [|[(y & Hy & Hs)|]]; [by left| |congruence]. right.
    destruct (decide (y = c)) as [->|Hne]; [right; congruence|left; exists y]. by rewrite Hp, Hq.
  - intros o [= <-]. split; [by apply H1|]. split; [intros Hi; by apply (H4 _ c Hi)|].
    intros y [Hy Hne]%Hp. rewrite Hq by done. intros Hs. apply Hne. by apply Hinj.
  - intros k x. rewrite lookup_delete_Some, H7. split.
    + intros (Hne & y & Hy & Hk & Hx). assert (y <> c) by congruence. exists y. by rewrite Hp, Hq.
    + intros (y & [Hy Hne]%Hp & Hk & Hx). rewrite Hq in Hk, Hx by done. split; [|by exists y]. rewrite <- Hk. intros He.
      apply Hne. rewrite <- (eo_code _ _ _ _ (H1 y Hy)), <- (eo_code _ _ _ _ (H1 c Hc)). by rewrite He.
Qed.

(** Freeing the slot in limbo. *)
Lemma slots_release o :
  lim = Some o -> slots_ok K (o :: fl) None (link_free v o f) o ls M.
Proof using Hok.
  intros Hlim. destruct Hok as [H1 H2 H3 H4 H5 H6 H7]. destruct (H6 o Hlim) as (Ho & Hno & Hu).
  assert (Hv : forall c, K c <> 0 -> vget (link_free v o f) (slot (K c)) = vget v (slot (K c))).
  { intros c Hc. apply vget_link_free_ne; [intros He; by apply (Hu c)|lia|apply H1, Hc]. }
  constructor.
  - intros c Hc. destruct (H1 c Hc) as [G1 G2 G3 G4 G5]. constructor; rewrite ?Hv, ?vlen_link_free by done; done.
  - by apply chain_release.
  - by apply NoDup_cons.
  - intros i c [->|Hi]%elem_of_cons Hc; [by apply Hu|by apply H4].
  - intros i. rewrite vlen_link_free. intros Hi. destruct (H5 i Hi) as [|[Hc|]]; [left; by right|right; by left|].
    left. rewrite Hlim in H. injection H as ->. by left.
  - done.
  - intros k x. rewrite H7. split; intros (c & Hc & Hk); exists c; (split; [done|]); [by rewrite Hv|by rewrite Hv in Hk].
Qed.

(** Storing a new route under a free code. *)
Lemma slots_take c key r ls' :
  let found := if f <? 0 then vlen v else f in
  K c = 0 -> key <> 0 -> slot key = found -> route_ok r -> pcode (key_of r) = c ->
  vlen ls <= vlen ls' -> (forall j, 0 <= j < vlen ls -> vget ls' j = vget ls j) ->
  1 <= get_lookup_key key <= vlen ls' -> vget ls' (get_lookup_key key - 1) = hop_of r ->
  let '(v1, f1) := if found =? vlen v then (vpush v r, f) else (vset v found r, extra (vget v found)) in
  let v2 := link_free v1 found (-1) in
  exists fl1, slots_ok (put_key K c key) fl1 lim v2 f1 ls' (<[key_of r := hop_of r]> M)
    /\ vlen v2 <= vlen v + 1 /\ (forall i, 0 <= i < vlen v -> i <> found -> vget v2 i = vget v i).
Proof using Hok.
  intros found Hc Hkey Hslot Hr Hcode Hls Hlsv Hlk Hhop. pose proof Hok as [H1 H2 H3 H4 H5 H6 H7].
  pose proof (chain_take v f fl r H2 H3) as Ht. cbv zeta in Ht. fold found in Ht.
  destruct (if found =? vlen v then _ else _) as [v1 f1]. set (v2 := link_free v1 found (-1)) in *.
  destruct Ht as (fl1 & G1 & G2 & G3 & G4 & G5 & G6 & G7 & G8 & G9 & G10 & G11). exists fl1. split; [|split; [lia|done]].
  assert (Hused : forall y, K y <> 0 -> slot (K y) <> found).
  { intros y Hy. destruct G6 as [Hf|Hf]; [by apply H4|]. pose proof (eo_slot _ _ _ _ (H1 y Hy)). lia. }
  assert (Hv : forall y, K y <> 0 -> vget v2 (slot (K y)) = vget v (slot (K y))).
  { intros y Hy. apply G10; [by apply H1|by apply Hused]. }
  assert (Hq : forall y, K y <> 0 -> put_key K c key y = K y).
  { intros y Hy. unfold put_key. destruct (Z.eqb_spec y c); [congruence|done]. }
  assert (Hn : put_key K c key c = key) by (unfold put_key; by rewrite Z.eqb_refl).
  assert (Hcase : forall y, put_key K c key y <> 0 -> y = c \/ K y <> 0).
  { intros y. unfold put_key. destruct (Z.eqb_spec y c); [by left|by right]. }
  constructor; try done.
  - intros y Hy. destruct (Hcase y Hy) as [->|Hy'].
    + rewrite Hn. constructor; rewrite ?Hslot, ?G7; done.
    + rewrite Hq by done. destruct (H1 y Hy') as [E1 E2 E3 E4 E5]. constructor; rewrite ?Hv by done; [lia|lia|done|done|].
      rewrite Hlsv by lia. done.
  - intros i y Hi Hy. destruct (Hcase y Hy) as [->|Hy'].
    + rewrite Hn, Hslot. by intros ->.
    + rewrite Hq by done. apply H4; [by apply G4|done].
  - intros i Hi. destruct (decide (i = found)) as [->|Hne]; [right; left; exists c; by rewrite Hn|].
    destruct (H5 i (G11 i Hi Hne)) as [Hf|[(y & Hy & Hs)|]]; [|right; left; exists y; by rewrite Hq|by right; right].
    left. by destruct (G5 i Hf).
  - intros o Ho. destruct (H6 o Ho) as (E1 & E2 & E3). split; [lia|]. split; [intros Hf; by apply E2, G4|].
    intros y Hy. destruct (Hcase y Hy) as [->|Hy'].
    + rewrite Hn, Hslot. intros ->. destruct G6; [done|lia].
    + rewrite Hq by done. by apply E3.
  - intros k x. rewrite lookup_insert_Some, H7. split.
    + intros [[<- <-]|[Hne (y & Hy & Hk)]].
      * exists c. rewrite Hn, Hslot, G7. done.
      * exists y. rewrite Hq, Hv by done. done.
    + intros (y & Hy & Hk). destruct (Hcase y Hy) as [->|Hy'].
      * rewrite Hn, Hslot, G7 in Hk. left. done.
      * rewrite Hq, Hv in Hk by done. right. split; [|by exists y]. intros He. apply Hy'.
        destruct Hk as [Hk _]. rewrite <- Hk in He. rewrite He, (eo_code _ _ _ _ (H1 y Hy')) in Hcode. congruence.
Qed.
End slots.

(** ** The element *)

Record radix_ok (s : RadixIPLookup) (M : routes) (K : Z -> Z) (fl : list Z) : Prop := {
  ri_tree : tree_ok 5 K 0 1 (Some (radix s));
  ri_default : K 1 = default_key s;
  ri_slots : slots_ok K fl None (rv s) (vfree s) (lookups s) M
}.

Lemma entry_get_key v ls c key : entry_ok v ls c key -> (get_key key =? 0) = false.
Proof. intros [Hs _ _ _ _]. unfold slot in Hs. apply Z.eqb_neq. lia. Qed.

Lemma slots_get_key K fl lim v f ls M c :
  slots_ok K fl lim v f ls M -> (get_key (K c) =? 0) = (K c =? 0).
Proof.
  intros Hok. destruct (Z.eqb_spec (K c) 0) as [->|E]; [done|]. by eapply entry_get_key, so_keys.
Qed.

(** The trie or the default key, at the code of a prefix. *)
Lemma radix_change K rx dk r key set :
  distinct_keys K -> tree_ok 5 K 0 1 (Some rx) -> K 1 = dk -> prefix_ok (addr r) (IPRoute.mask r) ->
  let c := pcode (key_of r) in
  let K' := change_map K c key set in
  if IPRoute.mask r =? 0
  then c = 1 /\ tree_ok 5 K' 0 1 (Some rx)
  else let '(rx', prev) := change 5 rx (ntohl (addr r)) (ntohl (IPRoute.mask r)) key set 0 in
       prev = K c /\ tree_ok 5 K' 0 1 (Some rx') /\ K' 1 = dk.
Proof.
  intros HK Ht Hd (Ha & Hm & _ & _). destruct (prefix_mask_len _ Hm) as [Hl Em]. cbv zeta.
  destruct (mask_host _ Hl) as (_ & Hz & _ & Hh). rewrite <- Em in Hz, Hh. rewrite Hz.
  pose proof (ntohl_range (addr r)) as Hr. unfold pcode, key_of. cbn [fst snd].
  destruct (Z.eqb_spec (mask_to_prefix_len (IPRoute.mask r)) 0) as [E|E].
  - rewrite E, code_zero by done. split; [done|]. apply (tree_ok_ext 5 K); [lia|lia| |done].
    intros y (k & Hk & Hy). apply change_map_ne. intros ->. rewrite Z.div_small in Hy; [lia|].
    split; [lia|]. apply Z.pow_gt_1; lia.
  - rewrite Hh by lia. pose proof (change_spec 5 K 0 rx (ntohl (addr r)) (mask_to_prefix_len (IPRoute.mask r)) key set HK
      ltac:(lia) ltac:(lia) Hr ltac:(change (base 0) with 0; lia)) as Hs. change (base 0) with 0 in Hs. rewrite code_zero in Hs by done.
    specialize (Hs Ht). destruct (change 5 rx _ _ key set 0) as [rx' prev]. destruct Hs as [-> Hs].
    split; [done|]. split; [done|]. rewrite change_map_ne; [done|]. intros He.
    rewrite <- (code_zero (ntohl (addr r))) in He by done. apply code_length in He; lia || done.
Qed.

Lemma find_lookup_spec l g p i :
  0 <= i ->
  (find_lookup_from l g p i = 0 /\ (g, p) ∉ l)
  \/ (i + 1 <= find_lookup_from l g p i <= i + vlen l /\ vget l (find_lookup_from l g p i - 1 - i) = (g, p)).
Proof.
  revert i. induction l as [|x l IH]; intros i Hi; cbn [find_lookup_from]; [left; split; [done|set_solver]|].
  rewrite vlen_cons. pose proof (vlen_nonneg l). destruct ((x.1 =? g) && (x.2 =? p)) eqn:E.
  - right. bprop. split; [lia|]. replace (i + 1 - 1 - i) with 0 by lia. destruct x. cbn in *. by subst.
  - destruct (IH (i + 1) ltac:(lia)) as [[Hz Hn]|[Hr Hv]]; [left|right].
    + split; [done|]. intros [<-|]%elem_of_cons; [|done]. cbn in E. by rewrite !Z.eqb_refl in E.
    + split; [lia|]. rewrite vget_cons_S by lia. by replace (find_lookup_from l g p (i + 1) - 1 - i - 1) with (find_lookup_from l g p (i + 1) - 1 - (i + 1)) by lia.
Qed.

(** Whether an update makes the vector of gateways and ports grow. *)
Definition lookups_step (s s' : RadixIPLookup) (h : hop) : Prop :=
  lookups s' = lookups s \/ ((h ∉ lookups s) /\ lookups s' = vpush (lookups s) h).

(** The hop of a new route, in the vector after the update. *)
Lemma lookup_key_spec s r :
  let lk := find_lookup_key s (gw r) (port r) in
  let lk := if lk =? 0 then vlen (lookups s) + 1 else lk in
  let ls := if lk =? vlen (lookups s) + 1 then vpush (lookups s) (gw r, port r) else lookups s in
  1 <= lk <= vlen ls /\ vget ls (lk - 1) = hop_of r
  /\ (ls = lookups s \/ ((hop_of r ∉ lookups s) /\ ls = vpush (lookups s) (hop_of r)))
  /\ vlen (lookups s) <= vlen ls /\ (forall j, 0 <= j < vlen (lookups s) -> vget ls j = vget (lookups s) j).
Proof.
  unfold find_lookup_key. pose proof (vlen_nonneg (lookups s)).
  destruct (find_lookup_spec (lookups s) (gw r) (port r) 0 ltac:(lia)) as [[-> Hn]|[Hr Hv]]; cbv zeta.
  - rewrite Z.eqb_refl, Z.eqb_refl, vlen_vpush. split; [lia|]. split; [by rewrite vget_vpush_eq by lia|].
    split; [by right|]. split; [lia|]. intros j Hj. by apply vget_vpush_lt.
  - rewrite (proj2 (Z.eqb_neq _ 0)), (proj2 (Z.eqb_neq _ (vlen (lookups s) + 1))) by lia.
    split; [lia|]. rewrite Z.sub_0_r in Hv. split; [done|]. split; [by left|]. split; [lia|done].
Qed.

(** The room for one more route. *)
Definition has_room (s : RadixIPLookup) (h : hop) : Prop :=
  vlen (rv s) < 16777215 /\ vlen (lookups s) <= 255 /\ (h ∈ lookups s \/ vlen (lookups s) < 255).

Lemma put_put_key K c key y : put_key (put_key K c 0) c key y = put_key K c key y.
Proof. unfold put_key. by destruct (y =? c). Qed.

(** The slots after an accepted addition. *)
Lemma radix_store s M K fl r (key : Z) (v1 : list IPRoute) (f1 : Z) (ls : list hop) :
  slots_ok K fl None (rv s) (vfree s) (lookups s) M -> route_ok r ->
  let found := if vfree s <? 0 then vlen (rv s) else vfree s in
  let c := pcode (key_of r) in
  key <> 0 -> slot key = found -> vlen (lookups s) <= vlen ls ->
  (forall j, 0 <= j < vlen (lookups s) -> vget ls j = vget (lookups s) j) ->
  1 <= get_lookup_key key <= vlen ls -> vget ls (get_lookup_key key - 1) = hop_of r ->
  (v1, f1) = (if found =? vlen (rv s) then (vpush (rv s) r, vfree s)
              else (vset (rv s) found r, extra (vget (rv s) found))) ->
  let '(v, f) := if negb (get_key (K c) =? 0)
                 then (link_free (link_free v1 found (-1)) (get_key (K c) - 1) f1, get_key (K c) - 1)
                 else (link_free v1 found (-1), f1) in
  (exists fl', slots_ok (put_key K c key) fl' None v f ls (<[key_of r := hop_of r]> M)) /\ vlen v <= vlen (rv s) + 1.
Proof.
  intros Hok Hr found c Hkey Hslot Hls Hlsv Hlk Hhop Hv. rewrite (slots_get_key _ _ _ _ _ _ _ c Hok).
  destruct (Z.eqb_spec (K c) 0) as [E|E]; cbn [negb].
  - pose proof (slots_take Hok c key r ls E Hkey Hslot Hr eq_refl Hls Hlsv Hlk Hhop) as Ht. cbv zeta in Ht.
    fold found in Ht. rewrite <- Hv in Ht. destruct Ht as (fl1 & Ht & Hlen & _). split; [by exists fl1|lia].
  - pose proof (slots_forget Hok c eq_refl E) as Hf. pose proof (slots_key Hok (key_of r) (proj1 Hr) E) as Hk. fold c in Hk. rewrite Hk in Hf.
    pose proof (slots_take Hf c key r ls ltac:(unfold put_key; by rewrite Z.eqb_refl) Hkey Hslot Hr eq_refl Hls Hlsv Hlk Hhop) as Ht.
    cbv zeta in Ht. fold found in Ht. rewrite <- Hv in Ht. destruct Ht as (fl1 & Ht & Hlen & _).
    split; [|by rewrite vlen_link_free]. exists (slot (K c) :: fl1). rewrite insert_delete_eq in Ht.
    eapply slots_ok_ext; [intros y; symmetry; apply put_put_key|]. by apply (slots_release Ht).
Qed.

Lemma change_map_keep K c key set : K c <> 0 -> set = false -> change_map K c key set = K.
Proof. intros Hc ->. unfold change_map. by rewrite (proj2 (Z.eqb_neq _ _) Hc). Qed.

Lemma change_map_put K c key set : K c = 0 \/ set = true -> change_map K c key set = put_key K c key.
Proof. intros [Hc| ->]; unfold change_map; [by rewrite Hc|]. by rewrite andb_false_r. Qed.

(** The trie and the default key after the first part of [add_route]. *)
Lemma radix_add_change s M K fl r key set :
  radix_ok s M K fl -> route_ok r ->
  let c := pcode (key_of r) in
  let '(rx, dk, last) :=
    if negb (IPRoute.mask r =? 0) then
      let '(rx, last) := change 5 (radix s) (ntohl (addr r)) (ntohl (IPRoute.mask r)) key set 0 in
      (rx, default_key s, get_key last)
    else
      let last := get_key (default_key s) in
      (radix s, if (last =? 0) || set then key else default_key s, last) in
  last = get_key (K c) /\ tree_ok 5 (change_map K c key set) 0 1 (Some rx) /\ change_map K c key set 1 = dk.
Proof.
  intros [Ht Hd Hs] Hr c. pose proof (radix_change K (radix s) (default_key s) r key set (slots_distinct Hs) Ht Hd (proj1 Hr)) as Hc.
  cbv zeta in Hc. fold c in Hc. destruct (IPRoute.mask r =? 0); cbn [negb].
  - destruct Hc as [Hc1 Hc]. rewrite Hc1 in *. rewrite <- Hd. split; [done|]. split; [done|].
    rewrite (slots_get_key _ _ _ _ _ _ _ 1 Hs). unfold change_map, put_key. by destruct (K 1 =? 0), set.
  - destruct (change 5 (radix s) _ _ key set 0) as [rx prev]. by destruct Hc as (-> & Hc1 & Hc2).
Qed.

Lemma radix_add_spec s M K fl r allow :
  radix_ok s M K fl -> route_ok r -> has_room s (hop_of r) ->
  let '(s', rc, old) := radix_add s r allow in
  let '(M', rc', old') := spec_add M r allow in
  (exists K' fl', radix_ok s' M' K' fl') /\ rc = rc' /\ hop_of <$> old = old'
  /\ (forall x, old = Some x -> route_ok x /\ key_of x = key_of r)
  /\ vlen (rv s') <= vlen (rv s) + 1 /\ lookups_step s s' (hop_of r).
Proof.
  intros Hok Hr [Hroom1 [Hroom2 Hroom3]]. pose proof Hok as [Ht Hd Hs]. unfold radix_add, spec_add. fold (key_of r).
  destruct (lookup_key_spec s r) as (L1 & L2 & L3 & L4 & L5). cbv zeta in *.
  set (lk0 := find_lookup_key s (gw r) (port r)) in *. set (lk := if lk0 =? 0 then vlen (lookups s) + 1 else lk0) in *.
  set (ls := if lk =? vlen (lookups s) + 1 then vpush (lookups s) (gw r, port r) else lookups s) in *.
  set (found := if vfree s <? 0 then vlen (rv s) else vfree s).
  assert (Hlk : lk < 256).
  { destruct L3 as [El|[Hn El]]; rewrite El in L1; [lia|]. rewrite vlen_vpush in L1. destruct Hroom3; [done|lia]. }
  assert (Hfound : 0 <= found < 16777215).
  { unfold found. destruct (Z.ltb_spec (vfree s) 0); [pose proof (vlen_nonneg (rv s)); lia|].
    pose proof (so_chain _ _ _ _ _ _ _ Hs) as Hc. destruct fl as [|i fl0]; cbn in Hc; [lia|]. lia. }
  destruct (combine_key_keys (found + 1) lk) as (C1 & C2 & C3); [lia|lia|]. set (key := combine_key (found + 1) lk) in *.
  pose proof (radix_add_change s M K fl r key allow Hok Hr) as Hch. cbv zeta in Hch.
  destruct (if negb (IPRoute.mask r =? 0) then _ else _) as [[rx dk] last]. destruct Hch as (-> & Ht' & Hd').
  rewrite (slots_lookup Hs (key_of r) (proj1 Hr)). rewrite (slots_get_key _ _ _ _ _ _ _ (pcode (key_of r)) Hs).
  set (c := pcode (key_of r)) in *.
  pose proof (radix_store s M K fl r key) as Hst. cbv zeta in Hst. fold found c ls in Hst.
  destruct (if found =? vlen (rv s) then _ else _) as [v1 f1] eqn:Ev.
  specialize (Hst v1 f1 ls Hs Hr C3 ltac:(unfold slot; lia) L4 L5 ltac:(lia) ltac:(rewrite C2; done) eq_refl).
  rewrite (slots_get_key _ _ _ _ _ _ _ c Hs) in Hst.
  assert (Hlast : get_key (K c) - 1 = slot (K c)) by done.
  destruct (Z.eqb_spec (K c) 0) as [E|E]; cbn [negb andb].
  - destruct Hst as ((fl' & Hst) & Hlen). rewrite change_map_put in Ht', Hd' by (by left).
    split; [exists (put_key K c key), fl'; by constructor|]. split; [done|]. split; [done|]. split; [done|]. split; [done|].
    exact L3.
  - pose proof (so_keys _ _ _ _ _ _ _ Hs c E) as [_ _ Hro _ _].
    assert (Hold : forall x, Some (vget (rv s) (get_key (K c) - 1)) = Some x -> route_ok x /\ key_of x = key_of r).
    { intros x [= <-]. split; [done|]. by apply (slots_key Hs (key_of r) (proj1 Hr)). }
    destruct allow; cbn [negb].
    + destruct Hst as ((fl' & Hst) & Hlen). rewrite change_map_put in Ht', Hd' by (by right).
      split; [exists (put_key K c key), fl'; by constructor|]. do 4 (split; [done|]). exact L3.
    + rewrite change_map_keep in Ht', Hd' by done.
      split; [exists K, fl; by constructor|]. do 3 (split; [done|]). split; [cbn; lia|]. by left.
Qed.

Lemma change_map_probe K c y : change_map K c 0 false y = K y.
Proof.
  unfold change_map, put_key. destruct (Z.eqb_spec (K c) 0) as [E|E]; [cbn|done]. destruct (Z.eqb_spec y c) as [->|]; congruence.
Qed.

(** The first part of [remove_route] finds the key and changes nothing. *)
Lemma radix_probe s M K fl r :
  radix_ok s M K fl -> prefix_ok (addr r) (IPRoute.mask r) ->
  let '(rx, last) :=
    if negb (IPRoute.mask r =? 0) then
      let '(rx, last) := change 5 (radix s) (ntohl (addr r)) (ntohl (IPRoute.mask r)) 0 false 0 in (rx, get_key last)
    else (radix s, get_key (default_key s)) in
  last = get_key (K (pcode (key_of r))) /\ tree_ok 5 K 0 1 (Some rx).
Proof.
  intros [Ht Hd Hs] Hr. pose proof (radix_change K (radix s) (default_key s) r 0 false (slots_distinct Hs) Ht Hd Hr) as Hc.
  cbv zeta in Hc. destruct (IPRoute.mask r =? 0); cbn [negb].
  - destruct Hc as [-> _]. by rewrite Hd.
  - destruct (change 5 (radix s) _ _ 0 false 0) as [rx prev]. destruct Hc as (-> & Hc & _). split; [done|].
    eapply tree_ok_ext; [lia|lia| |exact Hc]. intros y _. symmetry. apply change_map_probe.
Qed.

Lemma radix_remove_spec s M K fl r :
  radix_ok s M K fl -> prefix_ok (addr r) (IPRoute.mask r) ->
  let '(s', rc, old) := radix_remove s r in
  let '(M', rc', old') := spec_remove M r in
  (exists K' fl', radix_ok s' M' K' fl') /\ rc = rc'
  /\ (0 <= rc -> hop_of <$> old = old' /\ forall x, old = Some x -> route_ok x /\ key_of x = key_of r)
  /\ vlen (rv s') = vlen (rv s) /\ lookups s' = lookups s.
Proof.
  intros Hok Hr. pose proof Hok as [Ht Hd Hs]. unfold radix_remove, spec_remove. fold (key_of r).
  pose proof (radix_probe s M K fl r Hok Hr) as Hp. destruct (if negb (IPRoute.mask r =? 0) then _ else _) as [rx last].
  destruct Hp as [-> Hrx]. rewrite (slots_lookup Hs (key_of r) Hr), (slots_get_key _ _ _ _ _ _ _ (pcode (key_of r)) Hs).
  set (c := pcode (key_of r)) in *. destruct (Z.eqb_spec (K c) 0) as [E|E]; cbn [negb orb].
  { split; [exists K, fl; by constructor|]. split; [done|]. split; [unfold ENOENT; intros; lia|done]. }
  pose proof (so_keys _ _ _ _ _ _ _ Hs c E) as [Hslot _ Hro _ _]. pose proof (slots_key Hs (key_of r) Hr E) as Hkey. fold c in Hkey.
  change (get_key (K c) - 1) with (slot (K c)). set (x := vget (rv s) (slot (K c))) in *.
  pose proof (route_match_iff r x) as Hm. fold (key_of x) (key_of r) in Hm.
  destruct ((port r <? 0) || bool_decide (hop_of x = (gw r, port r))).
  - rewrite (proj2 Hm) by done. cbn [negb]. pose proof (slots_release (slots_forget Hs c eq_refl E) _ eq_refl) as Hrel.
    fold x in Hrel. rewrite Hkey in Hrel.
    pose proof (radix_change K rx (default_key s) r 0 true (slots_distinct Hs) Hrx Hd Hr) as Hc. cbv zeta in Hc. fold c in Hc.
    rewrite change_map_put in Hc by (by right).
    assert (Hold : hop_of <$> Some x = Some (hop_of x) /\ forall y, Some x = Some y -> route_ok y /\ key_of y = key_of r).
    { split; [done|]. by intros y [= <-]. }
    destruct (IPRoute.mask r =? 0); cbn [negb].
    + destruct Hc as [Hc1 Hc]. split; [|split; [done|]; split; [done|]; split; [apply vlen_link_free|done]].
      eexists _, _. constructor; [exact Hc| |exact Hrel]. by rewrite Hc1.
    + destruct (change 5 rx _ _ 0 true 0) as [rx' prev]. destruct Hc as (_ & Hc1 & Hc2).
      split; [|split; [done|]; split; [done|]; split; [apply vlen_link_free|done]].
      eexists _, _. by constructor; [exact Hc1| |exact Hrel].
  - assert (route_match r x = false) as -> by (apply not_true_iff_false; intros Hf; by apply Hm in Hf as [_ ?]). cbn [negb].
    split; [exists K, fl; by constructor|]. split; [done|]. split; [unfold ENOENT; intros; lia|done].
Qed.

(** ** Lookup *)

Lemma radix_lookup_lpm s M K fl a :
  radix_ok s M K fl -> 0 <= a < 4294967296 ->
  exists o, lpm M a o
    /\ radix_lookup_route s a = match o with Some (g, p) => (p, Some g) | None => (-1, None) end.
Proof.
  intros [Ht Hd Hs] Ha. unfold radix_lookup_route. pose proof (ntohl_range a) as Hr.
  rewrite (lookup_spec 5 K 0) by (lia || done || by rewrite code_zero). cbv zeta.
  change (Z.to_nat (32 - base 0)) with 32%nat. rewrite <- Hd.
  assert (Hkey : (if best_key K 32 (code (ntohl a) 32) =? 0 then K 1 else best_key K 32 (code (ntohl a) 32))
                 = best_key K 33 (code (ntohl a) 32)).
  { rewrite (best_key_app K 1 32). destruct (_ =? 0); [|done]. change (Z.of_nat 32) with (32 - 0).
    rewrite code_div, code_zero by (lia || done). cbn [best_key]. by destruct (Z.eqb_spec (K 1) 0). }
  rewrite Hkey. clear Hkey.
  assert (Hcov : forall k x, M !! k = Some x -> covers k a = true ->
    0 <= mask_to_prefix_len k.2 <= 32 /\ k.2 = make_prefix (mask_to_prefix_len k.2)
    /\ K (code (ntohl a) 32 / 2 ^ (32 - mask_to_prefix_len k.2)) <> 0).
  { intros k x Hk Hcov. apply (so_rep _ _ _ _ _ _ _ Hs) in Hk as (c & Hc & Hkc & _).
    destruct (so_keys _ _ _ _ _ _ _ Hs c Hc) as [_ _ [(Hka & Hkm & _) _] Hcode _]. rewrite Hkc in Hcode.
    apply (f_equal fst) in Hkc as Hk1. apply (f_equal snd) in Hkc as Hk2. cbn [key_of fst snd] in Hk1, Hk2.
    rewrite Hk1 in Hka. rewrite Hk2 in Hkm. destruct (prefix_mask_len _ Hkm) as [Hl Em]. split; [done|]. split; [done|].
    rewrite code_div by lia. apply covers_code in Hcov; [|done|done|done]. congruence. }
  destruct (best_key_longest K 33 (code (ntohl a) 32)) as [[-> Hnone]|(m & Hm & He & Hne & Hlong)].
  - exists None. split; [|done]. intros k x Hk. apply not_true_iff_false. intros Hc.
    destruct (Hcov k x Hk Hc) as (Hl & _ & Hn). apply Hn, Hnone. lia.
  - set (key := best_key K 33 (code (ntohl a) 32)) in *.
    assert (Hc : key = K (code (ntohl a) (32 - m))) by (rewrite He, <- (code_div (ntohl a) 32 (32 - m)) by lia; do 3 f_equal; lia).
    rewrite Hc in Hne. pose proof (so_keys _ _ _ _ _ _ _ Hs _ Hne) as Hent. rewrite <- Hc in Hent, Hne.
    destruct Hent as [G1 G2 [(Hka & Hkm & _) _] G4 G5]. set (x := vget (rv s) (slot key)) in *.
    rewrite (proj2 (Z.eqb_neq (get_lookup_key key) 0)) by lia. cbn [negb]. rewrite G5.
    destruct (prefix_mask_len _ Hkm) as [Hl Em]. pose proof G4 as Hlen. unfold pcode in Hlen.
    apply code_length in Hlen; [|apply ntohl_range|done|done|lia]. cbn [key_of snd] in Hlen.
    exists (Some (hop_of x)). split; [|done]. exists (key_of x). split_and!.
    + apply (so_rep _ _ _ _ _ _ _ Hs). exists (code (ntohl a) (32 - m)). rewrite <- Hc. done.
    + apply covers_code; [done|done|done|]. cbn [key_of snd]. rewrite Hlen. congruence.
    + intros k' x' Hk' Hc'. destruct (Hcov k' x' Hk' Hc') as (Hl' & Em' & Hn'). cbn [key_of snd]. rewrite Em, Em'.
      rewrite mask_as_specific_len by done. apply Z.leb_le. rewrite Hlen.
      destruct (Z.lt_ge_cases (32 - m) (mask_to_prefix_len k'.2)) as [Hlt|]; [|lia]. destruct Hn'. apply Hlong. lia.
Qed.

(** ** The empty table and listings *)

Lemma radix_empty_ok ls : radix_ok (mkRIL [] (-1) ls 0 make_radix) ∅ (fun _ => 0) [].
Proof.
  constructor; [by apply tree_ok_make|done|]. constructor; try done.
  - by apply NoDup_nil_2.
  - intros i Hi. unfold vlen in Hi. cbn in Hi. lia.
  - intros k x. rewrite lookup_empty. split; [done|]. by intros (c & Hc & _).
Qed.

Lemma kill_free_spec fuel v f fl :
  chain v f fl -> NoDup fl -> (length fl <= fuel)%nat ->
  vlen (kill_free fuel v f) = vlen v
  /\ (forall i, i ∈ fl -> vget (kill_free fuel v f) i = kill (vget v i))
  /\ (forall i, 0 <= i -> i ∉ fl -> vget (kill_free fuel v f) i = vget v i).
Proof.
  revert fuel v f. induction fl as [|o fl IH]; intros fuel v f Hc Hnd Hf; cbn [chain] in Hc.
  { assert (kill_free fuel v f = v) as -> by (destruct fuel; cbn; [done|]; by rewrite (proj2 (Z.leb_gt 0 f)) by lia).
    split; [done|]. split; [set_solver|done]. }
  destruct fuel as [|fuel]; [cbn in Hf; lia|]. destruct Hc as (-> & Ho & Hc). apply NoDup_cons in Hnd as [Hno Hnd].
  cbn [kill_free]. rewrite (proj2 (Z.leb_le 0 o)) by lia.
  assert (Hne : forall i, 0 <= i -> i <> o -> vget (vset v o (kill (vget v o))) i = vget v i)
    by (intros i Hi Hio; apply vget_vset_ne; lia).
  assert (Hin : forall i, i ∈ fl -> 0 <= i /\ i <> o).
  { intros i Hi. split; [apply (chain_range _ _ _ _ Hc Hi)|by intros ->]. }
  destruct (IH fuel (vset v o (kill (vget v o))) (extra (vget v o))) as (G1 & G2 & G3); [|done|cbn in Hf; lia|].
  { apply (chain_ext v); [by rewrite vlen_vset| |done]. intros i Hi. destruct (Hin i Hi). by rewrite Hne. }
  split; [by rewrite G1, vlen_vset|]. split.
  - intros i [->|Hi]%elem_of_cons; [rewrite G3 by (done || lia); by apply vget_vset_eq|].
    rewrite G2 by done. destruct (Hin i Hi). by rewrite Hne.
  - intros i Hi Hni. rewrite G3 by set_solver. apply Hne; set_solver.
Qed.

Lemma chain_length v f fl : chain v f fl -> NoDup fl -> (length fl <= length v)%nat.
Proof.
  intros Hc Hnd. assert (Hs : fl ⊆+ seqZ 0 (vlen v)).
  { apply NoDup_submseteq; [done|]. intros i Hi. apply elem_of_seqZ. by apply (chain_range _ _ _ _ Hc Hi). }
  apply submseteq_length in Hs. rewrite length_seqZ in Hs. unfold vlen in Hs. lia.
Qed.

(** A listing changes nothing that matters and shows the stored routes. *)
Lemma dump_routes_spec s M K fl :
  radix_ok s M K fl ->
  let '(s', l) := dump_routes s in
  radix_ok s' M K fl /\ forall k h, M !! k = Some h <-> exists x, x ∈ l /\ key_of x = k /\ hop_of x = h.
Proof.
  intros [Ht Hd [H1 H2 H3 H4 H5 H6 H7]]. unfold dump_routes.
  destruct (kill_free_spec (length (rv s)) (rv s) (vfree s) fl H2 H3 (chain_length _ _ _ H2 H3)) as (G1 & G2 & G3).
  set (v := kill_free (length (rv s)) (rv s) (vfree s)) in *.
  assert (Hv : forall c, K c <> 0 -> vget v (slot (K c)) = vget (rv s) (slot (K c))).
  { intros c Hc. apply G3; [by apply H1|]. intros Hi. by apply (H4 _ c Hi). }
  assert (Hrep : forall k x, M !! k = Some x <-> exists c, K c <> 0 /\ key_of (vget v (slot (K c))) = k /\ hop_of (vget v (slot (K c))) = x).
  { intros k x. rewrite H7. split; intros (c & Hc & Hk); exists c; (split; [done|]); [by rewrite Hv|by rewrite Hv in Hk]. }
  split.
  - constructor; [done|done|]. cbn [rv vfree lookups]. constructor; try done.
    + intros c Hc. destruct (H1 c Hc) as [E1 E2 E3 E4 E5]. constructor; rewrite ?Hv by done; lia || done.
    + apply (chain_ext (rv s)); [lia| |done]. intros i Hi. by rewrite G2.
    + rewrite G1. done.
  - intros k h. rewrite Hrep. split.
    + intros (c & Hc & Hk). exists (vget v (slot (K c))). split; [|done]. apply list_elem_of_filter. split.
      * rewrite Hv by done. apply route_ok_real, H1, Hc.
      * apply elem_of_vget. exists (slot (K c)). split; [|done]. rewrite G1. apply H1, Hc.
    + intros (x & [Hx Hi]%list_elem_of_filter & Hk). apply elem_of_vget in Hi as (i & Hi & <-). rewrite G1 in Hi.
      destruct (H5 i Hi) as [Hf|[(c & Hc & <-)|]]; [|by exists c|done].
      rewrite G2 in Hx by done. done.
Qed.

(** ** The interface *)

#[export] Instance radix_table : RouteTable RadixIPLookup := {
  table_add := radix_add;
  table_remove := radix_remove;
  table_lookup := radix_lookup_route
}.

Definition radix_rep (n : nat) (s : RadixIPLookup) (M : routes) : Prop :=
  (exists K fl, radix_ok s M K fl) /\ vlen (rv s) + Z.of_nat n <= 16777215 /\ vlen (lookups s) + Z.of_nat n <= 255.

Lemma lookups_step_len s s' h : lookups_step s s' h -> vlen (lookups s') <= vlen (lookups s) + 1.
Proof. intros [-> | [_ ->]]; [lia|]. rewrite vlen_vpush. lia. Qed.

#[export] Program Instance radix_lawful : LawfulTable RadixIPLookup := { table_rep := radix_rep }.
Next Obligation.
  intros n s M r allow ((K & fl & Hok) & Hv & Hl) Hr. cbn.
  pose proof (radix_add_spec s M K fl r allow Hok Hr ltac:(unfold has_room; lia)) as Hs.
  destruct (radix_add s r allow) as [[s' rc] old]. destruct (spec_add M r allow) as [[M' rc'] old'].
  destruct Hs as (G1 & G2 & G3 & G4 & G5 & G6%lookups_step_len).
  split; [|done]. split; [done|lia].
Qed.
Next Obligation.
  intros n s M r ((K & fl & Hok) & Hv & Hl) Hr. cbn.
  pose proof (radix_remove_spec s M K fl r Hok Hr) as Hs.
  destruct (radix_remove s r) as [[s' rc] old]. destruct (spec_remove M r) as [[M' rc'] old'].
  destruct Hs as (G1 & G2 & G3 & G4 & G5). rewrite <- G4, <- G5 in *. split; [|done]. split; [done|lia].
Qed.
Next Obligation.
  intros n s M a ((K & fl & Hok) & _ & _) Ha. cbn. by apply (radix_lookup_lpm s M K fl a); [|lia].
Qed.

(** ** Sequences of commands *)

(** The route that a failed removal reports is dropped, as its callers do. *)
Definition radix_step (s : RadixIPLookup) (op : route_op) : RadixIPLookup * (Z * option hop) :=
  match op with
  | r_add r allow => let '(s', rc, old) := radix_add s r allow in (s', (rc, hop_of <$> old))
  | r_remove r => let '(s', rc, old) := radix_remove s r in (s', (rc, if rc <? 0 then None else hop_of <$> old))
  | r_push _ => (s, (0, None))
  end.

(** The gateways and ports that a sequence of commands mentions. *)
Definition op_hops (ops : list route_op) : gset hop :=
  list_to_set (omap (fun op => match op with r_add r _ => Some (hop_of r) | _ => None end) ops).

(** The table is sound, and its vector of hops has no duplicates and stays within [H]. *)
Definition radix_inv (H : gset hop) (s : RadixIPLookup) (M : routes) : Prop :=
  (exists K fl, radix_ok s M K fl) /\ NoDup (lookups s) /\ forall h, h ∈ lookups s -> h ∈ H.

Lemma lookups_bound (H : gset hop) (l : list hop) : NoDup l -> (forall h, h ∈ l -> h ∈ H) -> vlen l <= Z.of_nat (size H).
Proof.
  intros Hnd Hin. assert (Hs : list_to_set l ⊆ H) by (intros h Hh; apply Hin; by apply elem_of_list_to_set in Hh).
  apply subseteq_size in Hs. rewrite size_list_to_set in Hs by done. unfold vlen. lia.
Qed.

Lemma lookups_step_inv (H : gset hop) s s' h :
  NoDup (lookups s) -> (forall x, x ∈ lookups s -> x ∈ H) -> h ∈ H -> lookups_step s s' h ->
  NoDup (lookups s') /\ forall x, x ∈ lookups s' -> x ∈ H.
Proof.
  intros Hnd Hin Hh [-> | [Hn ->]]; [done|]. unfold vpush. split.
  - apply NoDup_app. split; [done|]. split; [set_solver|]. apply NoDup_singleton.
  - intros x [Hx|Hx]%elem_of_app; [by apply Hin|]. apply list_elem_of_singleton in Hx as ->. done.
Qed.

Lemma radix_step_spec H s M op :
  radix_inv H s M -> route_op_ok op -> vlen (rv s) < 16777215 -> (size H <= 255)%nat ->
  (forall r allow, op = r_add r allow -> hop_of r ∈ H) ->
  radix_inv H (radix_step s op).1 (spec_step M op).1 /\ (radix_step s op).2 = (spec_step M op).2
  /\ vlen (rv (radix_step s op).1) <= vlen (rv s) + 1.
Proof.
  intros ((K & fl & Hok) & Hnd & Hin) Hop Hv HH Hh. destruct op as [r allow|r|a]; cbn [radix_step spec_step route_op_ok] in *.
  - specialize (Hh r allow eq_refl). pose proof (lookups_bound H (lookups s) Hnd Hin) as Hb.
    assert (Hroom : has_room s (hop_of r)).
    { split; [done|]. split; [lia|]. destruct (decide (hop_of r ∈ lookups s)) as [|Hno]; [by left|right].
      pose proof (lookups_bound H (hop_of r :: lookups s)) as Hb'. rewrite vlen_cons in Hb'.
      enough (vlen (lookups s) + 1 <= Z.of_nat (size H)) by lia. apply Hb'; [by apply NoDup_cons|].
      intros h [->|Hx]%elem_of_cons; [done|by apply Hin]. }
    pose proof (radix_add_spec s M K fl r allow Hok Hop Hroom) as Hs. destruct (radix_add s r allow) as [[s' rc] old].
    destruct (spec_add M r allow) as [[M' rc'] old']. destruct Hs as (G1 & -> & <- & _ & G5 & G6). cbn [fst snd].
    split; [|done]. split; [done|]. by eapply lookups_step_inv.
  - pose proof (radix_remove_spec s M K fl r Hok Hop) as Hs. unfold spec_remove in *.
    destruct (radix_remove s r) as [[s' rc] old]. destruct (M !! (addr r, IPRoute.mask r)) as [v|]; [destruct (_ || _)|];
      destruct Hs as (G1 & -> & G3 & G4 & G5); cbn [fst snd]; unfold radix_inv; rewrite G5.
    all: split; [done|]; split; [|lia].
    + by rewrite (proj1 (G3 ltac:(lia))).
    + done.
    + done.
  - cbn [fst snd]. split; [|split; [done|lia]]. split; [by exists K, fl|done].
Qed.

Lemma run_radix_spec H s M ops :
  radix_inv H s M -> Forall route_op_ok ops -> vlen (rv s) + vlen ops <= 16777215 -> (size H <= 255)%nat -> op_hops ops ⊆ H ->
  radix_inv H (run_routes radix_step s ops).1 (run_routes spec_step M ops).1
  /\ (run_routes radix_step s ops).2 = (run_routes spec_step M ops).2.
Proof.
  revert s M. induction ops as [|op ops IH]; intros s M Hi Hops Hsz HH Hsub; [done|].
  apply Forall_cons in Hops as [Hop Hops]. rewrite vlen_cons in Hsz. pose proof (vlen_nonneg ops).
  assert (Hsub' : op_hops ops ⊆ H) by (unfold op_hops in *; destruct op; cbn in Hsub; set_solver).
  destruct (radix_step_spec H s M op Hi Hop ltac:(lia) HH) as (G1 & G2 & G3).
  { intros r allow ->. unfold op_hops in Hsub. cbn in Hsub. set_solver. }
  cbn [run_routes]. destruct (radix_step s op) as [s' o]. destruct (spec_step M op) as [M' o']. cbn [fst snd] in *. subst o'.
  destruct (IH s' M' G1 Hops ltac:(lia) HH Hsub') as [F1 F2].
  destruct (run_routes radix_step s' ops) as [s'' os]. destruct (run_routes spec_step M' ops) as [M'' os'].
  cbn [fst snd] in *. by subst.
Qed.

(** ** Properties *)

(** C7. [RadixIPLookup] is a longest-prefix-match table: after any sequence of
    additions (replacing or not) and removals of routes to prefixes other than
    0.0.0.0/32 that mentions at most 255 gateways and ports, the return values and replaced routes are those of a map
    from prefixes to next hops, the lookup of any address gives the hop of the
    longest stored prefix that covers it, and [dump_routes] lists exactly the
    stored routes. *)
Theorem radix_longest_prefix (ops : list route_op) (a : Z) :
  Forall route_op_ok ops -> vlen ops <= 16777215 -> (size (op_hops ops) <= 255)%nat -> 0 <= a < 4294967296 ->
  let '(s, rs) := run_routes radix_step new_radix_table ops in
  let '(M, rs') := run_routes spec_step ∅ ops in
  rs = rs'
  /\ (exists o, lpm M a o
      /\ radix_lookup_route s a = match o with Some (g, p) => (p, Some g) | None => (-1, None) end)
  /\ forall k h, M !! k = Some h <-> exists x, x ∈ (dump_routes s).2 /\ key_of x = k /\ hop_of x = h.
Proof.
  intros Hops Hsz HH Ha.
  assert (Hi0 : radix_inv (op_hops ops) new_radix_table ∅).
  { split; [eexists _, _; apply (radix_empty_ok [])|]. split; [by apply NoDup_nil_2|]. cbn. set_solver. }
  pose proof (run_radix_spec (op_hops ops) new_radix_table ∅ ops Hi0 Hops ltac:(change (vlen (rv new_radix_table)) with 0; lia) HH ltac:(done)) as [Hi Hr].
  destruct (run_routes radix_step new_radix_table ops) as [s rs]. destruct (run_routes spec_step ∅ ops) as [M rs'].
  cbn [fst snd] in *. split; [done|]. destruct Hi as ((K & fl & Hok) & _ & _). split; [by eapply radix_lookup_lpm|].
  pose proof (dump_routes_spec s M K fl Hok) as Hd. destruct (dump_routes s) as [s' l]. apply Hd.
Qed.

Lemma radix_longest_prefix_witness :
  (let '(s, rs) := run_routes radix_step new_radix_table sample_routes in
   let '(M, rs') := run_routes spec_step ∅ sample_routes in
   rs = rs'
   /\ (exists o, lpm M (ntohl 167838212) o
       /\ radix_lookup_route s (ntohl 167838212) = match o with Some (g, p) => (p, Some g) | None => (-1, None) end)
   /\ forall k h, M !! k = Some h <-> exists x, x ∈ (dump_routes s).2 /\ key_of x = k /\ hop_of x = h)
  /\ radix_lookup_route (run_routes radix_step new_radix_table sample_routes).1 (ntohl 167838212) = (3, Some 0).
Proof.
  split; [|vm_compute; reflexivity].
  exact (radix_longest_prefix sample_routes (ntohl 167838212) sample_routes_ok
    ltac:(unfold vlen; simpl; lia) ltac:(vm_compute; lia) ltac:(split; vm_compute; done)).
Defined.

(** The vector of gateways and ports is never shrunk, not even by a flush: a
    table through which 255 routes with different gateways passed one after the
    other, and which was then flushed, cannot hold a route with another gateway.
    [combine_key] asserts that this does not happen; without the assertion the
    route is stored but never found. *)
Definition gateways (n : Z) : list route_op :=
  flat_map (fun i => let r := mkRoute (addr p10) (IPRoute.mask p10) i 1 0 in [r_add r false; r_remove r]) (seqZ 1 n).

Theorem radix_hop_leak :
  let s := flush_table (run_routes radix_step new_radix_table (gateways 255)).1 in
  let '(s', rc, _) := radix_add s (mkRoute (addr p10) (IPRoute.mask p10) 256 1 0) false in
  vlen (lookups s) = 255 /\ rc = 0 /\ radix_lookup_route s' (addr p10) = (-1, None).
Proof. vm_compute. done. Qed.
