(* ===== verification/QSort.v ===== *)
(** * [click_qsort]

    The iterative quicksort of lib/glue.cc (Bentley and McIlroy): insertion sort
    for short ranges, a pseudomedian pivot, a partition that gathers elements
    equal to the pivot at both ends, and an explicit stack of ranges with the
    longer one pushed first.

    The array is a list and a pointer into it an index.  Elements are exchanged
    whole: [cq_swapfunc] exchanges two ranges of them. *)

From S2P Require Import Prelude.

Section qsort.
Context {A : Type} `{Inhabited A}.
Variable compar : A -> A -> Z.

Definition cq_swap (l : list A) (i j : Z) : list A :=
  let t := vget l i in vset (vset l i (vget l j)) j t.

Definition cq_med3 (l : list A) (a b c : Z) : Z :=
  let ab := compar (vget l a) (vget l b) in
  let bc := compar (vget l b) (vget l c) in
  if ab <? 0 then
    if bc <? 0 then b else if compar (vget l a) (vget l c) <? 0 then c else a
  else
    if 0 <? bc then b else if 0 <? compar (vget l a) (vget l c) then c else a.

Definition cq_swapfunc (l : list A) (a b n : Z) : list A :=
  for_up 0 n (fun k l => cq_swap l (a + k) (b + k)) l.

(** ** Insertion sort for tiny arrays *)

Fixpoint sink (fuel : nat) (a pj : Z) (l : list A) : list A :=
  match fuel with
  | O => l
  | S fuel' =>
      if (a <? pj) && (0 <? compar (vget l (pj - 1)) (vget l pj))
      then sink fuel' a (pj - 1) (cq_swap l pj (pj - 1))
      else l
  end.

Definition insertion_sort (a n : Z) (l : list A) : list A :=
  for_up (a + 1) (a + n) (fun pi l => sink (Z.to_nat (pi - a)) a pi l) l.

(** ** Pivot *)

Definition choose_pivot (l : list A) (a n : Z) : Z :=
  let pm := a + n / 2 in
  if 7 <? n then
    let p1 := a in
    let p2 := a + (n - 1) in
    if 40 <? n then
      let offset := n / 8 in
      let p1 := cq_med3 l p1 (p1 + offset) (p1 + 2 * offset) in
      let pm := cq_med3 l (pm - offset) pm (pm + offset) in
      let p2 := cq_med3 l (p2 - 2 * offset) (p2 - offset) p2 in
      cq_med3 l p1 pm p2
    else cq_med3 l p1 pm p2
  else pm.

(** ** Partition *)

Record part := mkPart { p_l : list A; p_a : Z; p_b : Z; p_c : Z; p_d : Z }.

Fixpoint scan_up (fuel : nat) (piv : A) (s : part) : part :=
  match fuel with
  | O => s
  | S fuel' =>
      let r := compar (vget (p_l s) (p_b s)) piv in
      if (p_b s <=? p_c s) && (r <=? 0) then
        scan_up fuel' piv
          (if r =? 0
           then mkPart (cq_swap (p_l s) (p_a s) (p_b s)) (p_a s + 1) (p_b s + 1) (p_c s) (p_d s)
           else mkPart (p_l s) (p_a s) (p_b s + 1) (p_c s) (p_d s))
      else s
  end.

Fixpoint scan_down (fuel : nat) (piv : A) (s : part) : part :=
  match fuel with
  | O => s
  | S fuel' =>
      let r := compar (vget (p_l s) (p_c s)) piv in
      if (p_b s <=? p_c s) && (0 <=? r) then
        scan_down fuel' piv
          (if r =? 0
           then mkPart (cq_swap (p_l s) (p_c s) (p_d s)) (p_a s) (p_b s) (p_c s - 1) (p_d s - 1)
           else mkPart (p_l s) (p_a s) (p_b s) (p_c s - 1) (p_d s))
      else s
  end.

(** How many elements the scans have not looked at. *)
Definition unseen (s : part) : nat := Z.to_nat (p_c s - p_b s + 1).

Fixpoint partition (fuel : nat) (piv : A) (s : part) : option part :=
  match fuel with
  | O => None
  | S fuel' =>
      let s := scan_up (unseen s) piv s in
      let s := scan_down (unseen s) piv s in
      if p_c s <? p_b s then Some s
      else partition fuel' piv
             (mkPart (cq_swap (p_l s) (p_b s) (p_c s)) (p_a s) (p_b s + 1) (p_c s - 1) (p_d s))
  end.

(** Swap the extreme ranges, which are equal to the pivot, into the middle. *)
Definition gather (s : part) (a n : Z) : list A :=
  let pn := a + n in
  let m := if p_a s - a <? p_b s - p_a s then p_a s - a else p_b s - p_a s in
  let l := if m =? 0 then p_l s else cq_swapfunc (p_l s) a (p_b s - m) m in
  let m := if p_d s - p_c s <? pn - p_d s - 1 then p_d s - p_c s else pn - p_d s - 1 in
  if m =? 0 then l else cq_swapfunc l (p_b s) (pn - m) m.

(** ** The loop over the stack *)

Inductive qresult :=
| q_done (l : list A)
| q_assert
| q_fuel.

Definition CQ_STACKSIZ : Z := (8 * 8 + 1) * 2.

(** The two subranges, biggest first, on top of the rest of the stack. *)
Definition push_ranges (stack : list (Z * Z)) (s0 s1 s2 s3 : Z) : list (Z * Z) :=
  let '(s0, s1, s2, s3) := if s1 - s0 <? s3 - s2 then (s2, s3, s0, s1) else (s0, s1, s2, s3) in
  if negb (s2 =? s3) then (s2, s3) :: (s0, s1) :: stack else (s0, s1) :: stack.

Fixpoint qsort_loop (fuel : nat) (l : list A) (stack : list (Z * Z)) : qresult :=
  match fuel with
  | O => q_fuel
  | S fuel' =>
      match stack with
      | [] => q_done l
      | (lo, hi) :: stack =>
          let n := hi - lo in
          if n <? 7 then qsort_loop fuel' (insertion_sort lo n l) stack
          else
            let l := cq_swap l lo (choose_pivot l lo n) in
            match partition (Z.to_nat n) (vget l lo) (mkPart l (lo + 1) (lo + 1) (lo + (n - 1)) (lo + (n - 1))) with
            | None => q_fuel
            | Some s =>
                let l := gather s lo n in
                if (p_b s =? p_a s) && (p_d s =? p_c s) then qsort_loop fuel' l stack
                else if 2 * vlen stack + 4 <? CQ_STACKSIZ then
                  qsort_loop fuel' l
                    (push_ranges stack lo (lo + (p_b s - p_a s)) (hi - (p_d s - p_c s)) hi)
                else q_assert
            end
      end
  end.

Definition click_qsort (l : list A) : qresult :=
  qsort_loop (2 * length l + 2) l [(0, vlen l)].
End qsort.

Arguments qresult : clear implicits.

(** [click_compare<T>] *)
Definition click_compare (a b : Z) : Z := if a <? b then -1 else if b <? a then 1 else 0.

(** The array after [click_qsort(T *base, size_t n)]. *)
Definition click_sorted (l : list Z) : list Z :=
  match click_qsort click_compare l with q_done l' => l' | _ => l end.
