(* ===== verification/QSortCorrect.v ===== *)
(** * [click_qsort] sorts

    Every change [click_qsort] makes is an exchange of two elements of the range
    it is working on ([within]).  With any comparison function it completes,
    within its fixed stack, with a permutation of the array; with a comparison
    function that is a total preorder the array is sorted. *)

From stdpp Require Import sorting.
From S2P Require Import Prelude QSort.

(** ** Exchanges inside a range *)

Section within.
Context {A : Type} `{Inhabited A}.
Implicit Types (l : list A).

Lemma cq_swap_len l i j : vlen (cq_swap l i j) = vlen l.
Proof. unfold cq_swap. by rewrite !vlen_vset. Qed.

Lemma cq_swap_get l i j k :
  0 <= i < vlen l -> 0 <= j < vlen l -> 0 <= k ->
  vget (cq_swap l i j) k = if decide (k = j) then vget l i else if decide (k = i) then vget l j else vget l k.
Proof.
  intros Hi Hj Hk. unfold cq_swap. rewrite vget_vset, vlen_vset by lia.
  destruct (decide (k = j)) as [->|Hkj]; [by rewrite decide_True by lia|].
  rewrite decide_False by lia. rewrite vget_vset by lia.
  destruct (decide (k = i)) as [->|Hki]; [by rewrite decide_True by lia|by rewrite decide_False by lia].
Qed.

Lemma cq_swap_perm l i j : 0 <= i < vlen l -> 0 <= j < vlen l -> cq_swap l i j ≡ₚ l.
Proof.
  intros Hi Hj. unfold cq_swap, vset. destruct (Z.leb_spec 0 i); [|lia]. destruct (Z.leb_spec 0 j); [|lia].
  pose proof (vget_some l i Hi) as Ei. pose proof (vget_some l j Hj) as Ej.
  destruct (decide (Z.to_nat i = Z.to_nat j)) as [E|Hne].
  - rewrite E in *. rewrite Ei in Ej. injection Ej as Ej. rewrite list_insert_insert_eq.
    by rewrite list_insert_id by done.
  - apply Permutation_inj. split; [by rewrite !length_insert|].
    exists (fun n => if decide (n = Z.to_nat i) then Z.to_nat j
                     else if decide (n = Z.to_nat j) then Z.to_nat i else n). split.
    + intros x y. repeat case_decide; intros; subst; congruence.
    + intros n. destruct (decide (n = Z.to_nat i)) as [->|Hni].
      * rewrite list_lookup_insert_ne by done. rewrite list_lookup_insert_eq by (by apply lookup_lt_Some in Ei).
        done.
      * destruct (decide (n = Z.to_nat j)) as [->|Hnj].
        -- rewrite list_lookup_insert_eq; [done|]. rewrite length_insert. by apply lookup_lt_Some in Ej.
        -- by rewrite !list_lookup_insert_ne by done.
Qed.

(** [l'] is [l] after exchanges of elements of [[lo, hi)]. *)
Inductive within (lo hi : Z) : list A -> list A -> Prop :=
| within_refl l : within lo hi l l
| within_swap l l' i j :
    within lo hi l l' -> lo <= i < hi -> lo <= j < hi -> within lo hi l (cq_swap l' i j).

Lemma within_trans lo hi l1 l2 l3 : within lo hi l1 l2 -> within lo hi l2 l3 -> within lo hi l1 l3.
Proof. intros H1. induction 1; [done|]. constructor; auto. Qed.

Lemma within_mono lo hi lo' hi' l l' : lo' <= lo -> hi <= hi' -> within lo hi l l' -> within lo' hi' l l'.
Proof. intros ? ?. induction 1; constructor; auto; lia. Qed.

Lemma within_one lo hi l i j : lo <= i < hi -> lo <= j < hi -> within lo hi l (cq_swap l i j).
Proof. intros. apply within_swap; [apply within_refl|done|done]. Qed.

Lemma within_len lo hi l l' : within lo hi l l' -> vlen l' = vlen l.
Proof. induction 1; [done|]. by rewrite cq_swap_len. Qed.

Lemma within_perm lo hi l l' : 0 <= lo -> hi <= vlen l -> within lo hi l l' -> l' ≡ₚ l.
Proof.
  intros Hlo Hhi. induction 1 as [|l l' i j Hw IH Hi Hj]; [done|]. specialize (IH Hhi).
  rewrite cq_swap_perm; [done| |]; rewrite (within_len _ _ _ _ Hw); lia.
Qed.

Lemma within_outside lo hi l l' k :
  0 <= lo -> hi <= vlen l -> within lo hi l l' -> 0 <= k -> k < lo \/ hi <= k -> vget l' k = vget l k.
Proof.
  intros Hlo Hhi Hw Hk Hout. induction Hw as [|l l' i j Hw IH Hi Hj]; [done|].
  rewrite cq_swap_get by (rewrite ?(within_len _ _ _ _ Hw); lia).
  rewrite !decide_False by lia. by apply IH.
Qed.

Lemma within_inside lo hi l l' k :
  0 <= lo -> hi <= vlen l -> within lo hi l l' -> lo <= k < hi ->
  exists k', lo <= k' < hi /\ vget l' k = vget l k'.
Proof.
  intros Hlo Hhi Hw. revert k. induction Hw as [|l l' i j Hw IH Hi Hj]; intros k Hk; [by exists k|].
  rewrite cq_swap_get by (rewrite ?(within_len _ _ _ _ Hw); lia).
  destruct (decide (k = j)); [by apply IH|]. destruct (decide (k = i)); by apply IH.
Qed.

(** Exchanging two disjoint ranges of [n] elements. *)
Lemma cq_swapfunc_spec l a b n :
  0 <= n -> 0 <= a -> a + n <= b -> b + n <= vlen l ->
  let l' := cq_swapfunc l a b n in
  within a (b + n) l l'
  /\ forall k, 0 <= k -> vget l' k =
       if decide (a <= k < a + n) then vget l (k - a + b)
       else if decide (b <= k < b + n) then vget l (k - b + a) else vget l k.
Proof.
  intros Hn Ha Hab Hb l'. subst l'. unfold cq_swapfunc.
  set (P := fun c l' => within a (b + n) l l' /\ forall k, 0 <= k -> vget l' k =
       if decide (a <= k < a + c) then vget l (k - a + b)
       else if decide (b <= k < b + c) then vget l (k - b + a) else vget l k).
  apply (for_up_inv P); unfold P; [lia| |].
  - split; [constructor|]. intros k Hk. by rewrite !decide_False by lia.
  - intros c l' Hc [Hw Hg]. split; [constructor; [done|lia|lia]|]. intros k Hk.
    pose proof (within_len _ _ _ _ Hw) as Hl. rewrite cq_swap_get by lia.
    destruct (decide (k = b + c)) as [->|Hkb].
    { rewrite Hg by lia. rewrite (decide_False (P := a <= b + c < _)) by lia.
      rewrite (decide_True (P := b <= b + c < _)) by lia. rewrite !decide_False by lia. f_equal. lia. }
    destruct (decide (k = a + c)) as [->|Hka].
    { rewrite Hg by lia. rewrite (decide_True (P := a <= a + c < a + (c + 1))) by lia.
      rewrite !decide_False by lia. f_equal. lia. }
    rewrite Hg by lia. destruct (decide (a <= k < a + c)), (decide (a <= k < a + (c + 1))); try lia; [done|].
    destruct (decide (b <= k < b + c)), (decide (b <= k < b + (c + 1))); try lia; done.
Qed.
(** Exchanging the ends of two adjacent zones swaps the zones. *)
Lemma swap_zones l x y z m (P Q : A -> Prop) :
  0 <= x <= y -> y <= z <= vlen l -> m = Z.min (y - x) (z - y) ->
  (forall k, x <= k < y -> P (vget l k)) -> (forall k, y <= k < z -> Q (vget l k)) ->
  let l' := if m =? 0 then l else cq_swapfunc l x (z - m) m in
  within x z l l'
  /\ (forall k, x <= k < x + (z - y) -> Q (vget l' k))
  /\ (forall k, x + (z - y) <= k < z -> P (vget l' k)).
Proof.
  intros Hx Hz Hm HP HQ. cbv zeta. destruct (Z.eqb_spec m 0) as [Hm0|Hm0].
  { split; [apply within_refl|]. split; intros k Hk; [apply HQ|apply HP]; lia. }
  destruct (cq_swapfunc_spec l x (z - m) m) as [Hw Hg]; [lia..|].
  replace (z - m + m) with z in * by lia. split; [done|].
  split; intros k Hk; rewrite Hg by lia; repeat case_decide; first [apply HQ; lia|apply HP; lia].
Qed.
End within.

Section any_comparison.
Context {A : Type} `{Inhabited A}.
Variable compar : A -> A -> Z.
Implicit Types (l : list A).

Lemma sink_within fuel a hi pj l : pj < hi -> within a hi l (sink compar fuel a pj l).
Proof.
  revert pj l. induction fuel as [|fuel IH]; intros pj l Hp; cbn [sink]; [apply within_refl|].
  destruct (Z.ltb_spec a pj); [|apply within_refl]. cbn [andb]. case_match; [|apply within_refl].
  eapply within_trans; [apply (within_one a hi l pj (pj - 1)); lia|]. apply IH. lia.
Qed.

Lemma insertion_sort_within a n l : 0 <= n -> within a (a + n) l (insertion_sort compar a n l).
Proof.
  intros Hn. unfold insertion_sort. destruct (decide (n = 0)) as [->|]; [rewrite for_up_nil by lia; apply within_refl|].
  apply (for_up_inv (fun _ l' => within a (a + n) l l')); [lia|apply within_refl|].
  intros pi l' Hpi Hw. eapply within_trans; [exact Hw|]. apply sink_within. lia.
Qed.

Lemma cq_med3_one l a b c : cq_med3 compar l a b c = a \/ cq_med3 compar l a b c = b \/ cq_med3 compar l a b c = c.
Proof. unfold cq_med3. repeat case_match; auto. Qed.

Lemma choose_pivot_range l a n : 7 <= n -> a <= choose_pivot compar l a n < a + n.
Proof.
  intros Hn. assert (Hmed : forall x y z, a <= x < a + n -> a <= y < a + n -> a <= z < a + n ->
    a <= cq_med3 compar l x y z < a + n).
  { intros x y z ? ? ?. destruct (cq_med3_one l x y z) as [->|[->| ->]]; done. }
  assert (H2 : 2 * (n / 2) <= n < 2 * (n / 2) + 2) by (pose proof (Z.div_mod n 2); pose proof (Z.mod_pos_bound n 2); lia).
  assert (H8 : 8 * (n / 8) <= n < 8 * (n / 8) + 8) by (pose proof (Z.div_mod n 8); pose proof (Z.mod_pos_bound n 8); lia).
  unfold choose_pivot. destruct (Z.ltb_spec 7 n); [|lia]. destruct (Z.ltb_spec 40 n); repeat apply Hmed; lia.
Qed.

(** ** The partition *)

Record part_inv (l0 : list A) (a n : Z) (piv : A) (s : part) : Prop := {
  pi_within : within (a + 1) (a + n) l0 (p_l s);
  pi_order : a + 1 <= p_a s /\ p_a s <= p_b s /\ p_b s <= p_c s + 1 /\ p_c s <= p_d s /\ p_d s <= a + n - 1;
  pi_left k : a + 1 <= k < p_a s -> compar (vget (p_l s) k) piv = 0;
  pi_lt k : p_a s <= k < p_b s -> compar (vget (p_l s) k) piv < 0;
  pi_gt k : p_c s < k <= p_d s -> 0 < compar (vget (p_l s) k) piv;
  pi_right k : p_d s < k < a + n -> compar (vget (p_l s) k) piv = 0
}.

Section part.
Variables (l0 : list A) (a n : Z) (piv : A).
Hypothesis (a_pos : 0 <= a) (n_fits : a + n <= vlen l0).

Lemma part_len s : part_inv l0 a n piv s -> vlen (p_l s) = vlen l0.
Proof. intros Hi. apply (within_len _ _ _ _ (pi_within _ _ _ _ _ Hi)). Qed.

(** An exchange keeps the invariant when every place of the four zones does. *)
Ltac part_step Hi :=
  pose proof (part_len _ Hi); pose proof (pi_order _ _ _ _ _ Hi);
  constructor; cbn [p_l p_a p_b p_c p_d];
  [first [apply (pi_within _ _ _ _ _ Hi)|apply within_swap; [apply (pi_within _ _ _ _ _ Hi)|lia|lia]]
  |lia| | | |];
  intros k Hk; rewrite ?cq_swap_get by lia; repeat case_decide; subst; try lia;
  first [assumption|apply (pi_left _ _ _ _ _ Hi); lia|apply (pi_lt _ _ _ _ _ Hi); lia
        |apply (pi_gt _ _ _ _ _ Hi); lia|apply (pi_right _ _ _ _ _ Hi); lia|idtac].

Lemma up_eq_step s :
  part_inv l0 a n piv s -> p_b s <= p_c s -> compar (vget (p_l s) (p_b s)) piv = 0 ->
  part_inv l0 a n piv (mkPart (cq_swap (p_l s) (p_a s) (p_b s)) (p_a s + 1) (p_b s + 1) (p_c s) (p_d s)).
Proof. intros Hi Hbc Hr. part_step Hi. by replace (p_a s) with (p_b s) by lia. Qed.

Lemma up_lt_step s :
  part_inv l0 a n piv s -> p_b s <= p_c s -> compar (vget (p_l s) (p_b s)) piv < 0 ->
  part_inv l0 a n piv (mkPart (p_l s) (p_a s) (p_b s + 1) (p_c s) (p_d s)).
Proof.
  intros Hi Hbc Hr. part_step Hi. destruct (decide (k = p_b s)) as [->|]; [done|].
  apply (pi_lt _ _ _ _ _ Hi). lia.
Qed.

Lemma down_eq_step s :
  part_inv l0 a n piv s -> p_b s <= p_c s -> compar (vget (p_l s) (p_c s)) piv = 0 ->
  part_inv l0 a n piv (mkPart (cq_swap (p_l s) (p_c s) (p_d s)) (p_a s) (p_b s) (p_c s - 1) (p_d s - 1)).
Proof. intros Hi Hbc Hr. part_step Hi. Qed.

Lemma down_gt_step s :
  part_inv l0 a n piv s -> p_b s <= p_c s -> 0 < compar (vget (p_l s) (p_c s)) piv ->
  part_inv l0 a n piv (mkPart (p_l s) (p_a s) (p_b s) (p_c s - 1) (p_d s)).
Proof.
  intros Hi Hbc Hr. part_step Hi. destruct (decide (k = p_c s)) as [->|]; [done|].
  apply (pi_gt _ _ _ _ _ Hi). lia.
Qed.

Lemma swap_step s :
  part_inv l0 a n piv s -> p_b s < p_c s ->
  0 < compar (vget (p_l s) (p_b s)) piv -> compar (vget (p_l s) (p_c s)) piv < 0 ->
  part_inv l0 a n piv (mkPart (cq_swap (p_l s) (p_b s) (p_c s)) (p_a s) (p_b s + 1) (p_c s - 1) (p_d s)).
Proof. intros Hi Hbc Hb Hc. part_step Hi. Qed.

Lemma scan_up_spec fuel s :
  part_inv l0 a n piv s -> p_c s - p_b s + 1 <= Z.of_nat fuel ->
  let s' := scan_up compar fuel piv s in
  part_inv l0 a n piv s' /\ p_c s' = p_c s /\ p_b s <= p_b s'
  /\ (p_b s' <= p_c s' -> 0 < compar (vget (p_l s') (p_b s')) piv).
Proof.
  revert s. induction fuel as [|fuel IH]; intros s Hi Hf; cbn [scan_up]; cbv zeta.
  { split_and!; try done; lia. }
  destruct (Z.leb_spec (p_b s) (p_c s)) as [Hbc|]; cbn [andb]; [|split_and!; try done; lia].
  destruct (Z.leb_spec (compar (vget (p_l s) (p_b s)) piv) 0) as [Hr|Hr]; [|split_and!; try done; lia].
  destruct (Z.eqb_spec (compar (vget (p_l s) (p_b s)) piv) 0) as [Hz|Hz].
  - destruct (IH _ (up_eq_step s Hi Hbc Hz)) as (I1 & I2 & I3 & I4); cbn [p_b p_c] in *; [lia|].
    split_and!; try done; lia.
  - destruct (IH _ (up_lt_step s Hi Hbc ltac:(lia))) as (I1 & I2 & I3 & I4); cbn [p_b p_c] in *; [lia|].
    split_and!; try done; lia.
Qed.

Lemma scan_down_spec fuel s :
  part_inv l0 a n piv s -> p_c s - p_b s + 1 <= Z.of_nat fuel ->
  let s' := scan_down compar fuel piv s in
  part_inv l0 a n piv s' /\ p_b s' = p_b s /\ p_c s' <= p_c s
  /\ (forall k, 0 <= k <= p_c s' -> vget (p_l s') k = vget (p_l s) k)
  /\ (p_b s' <= p_c s' -> compar (vget (p_l s') (p_c s')) piv < 0).
Proof.
  revert s. induction fuel as [|fuel IH]; intros s Hi Hf; cbn [scan_down]; cbv zeta.
  { split_and!; try done; lia. }
  destruct (Z.leb_spec (p_b s) (p_c s)) as [Hbc|]; cbn [andb]; [|split_and!; try done; lia].
  destruct (Z.leb_spec 0 (compar (vget (p_l s) (p_c s)) piv)) as [Hr|Hr]; [|split_and!; try done; lia].
  destruct (Z.eqb_spec (compar (vget (p_l s) (p_c s)) piv) 0) as [Hz|Hz].
  - destruct (IH _ (down_eq_step s Hi Hbc Hz)) as (I1 & I2 & I3 & I4 & I5); cbn [p_b p_c p_l] in *; [lia|].
    pose proof (pi_order _ _ _ _ _ Hi). pose proof (part_len s Hi).
    split_and!; try done; try lia. intros k Hk. rewrite I4 by lia. rewrite cq_swap_get by lia.
    by rewrite !decide_False by lia.
  - destruct (IH _ (down_gt_step s Hi Hbc ltac:(lia))) as (I1 & I2 & I3 & I4 & I5); cbn [p_b p_c p_l] in *; [lia|].
    split_and!; try done; try lia.
Qed.

(** The partition ends, with the scans met. *)
Lemma partition_spec fuel s :
  part_inv l0 a n piv s -> p_c s - p_b s + 1 < Z.of_nat fuel ->
  exists s', partition compar fuel piv s = Some s' /\ part_inv l0 a n piv s' /\ p_b s' = p_c s' + 1.
Proof.
  revert s. induction fuel as [|fuel IH]; intros s Hi Hf; [pose proof (pi_order _ _ _ _ _ Hi); lia|]. cbn [partition].
  destruct (scan_up_spec (unseen s) s Hi) as (U1 & U2 & U3 & U4); [unfold unseen; lia|].
  set (s1 := scan_up compar (unseen s) piv s) in *.
  destruct (scan_down_spec (unseen s1) s1 U1) as (D1 & D2 & D3 & D4 & D5); [unfold unseen; lia|].
  set (s2 := scan_down compar (unseen s1) piv s1) in *. pose proof (pi_order _ _ _ _ _ D1) as Ho.
  destruct (Z.ltb_spec (p_c s2) (p_b s2)) as [Hlt|Hge]; [exists s2; split; [done|split; [done|lia]]|].
  specialize (D5 Hge). rewrite <- D2 in U4. specialize (U4 ltac:(lia)). rewrite <- D4 in U4 by lia.
  assert (Hne : p_b s2 <> p_c s2) by (intros E; rewrite E in U4; lia).
  apply IH; [apply swap_step; [done|lia|done|done]|cbn [p_b p_c]; lia].
Qed.
End part.

(** ** One range *)

Lemma min_if x y : (if x <? y then x else y) = Z.min x y.
Proof. destruct (Z.ltb_spec x y); lia. Qed.

(** Three zones around the pivot. *)
Record split3 (l : list A) (lo m1 m2 hi : Z) (piv : A) : Prop := {
  sp_order : lo <= m1 < m2 /\ m2 <= hi;
  sp_lt k : lo <= k < m1 -> compar (vget l k) piv < 0;
  sp_eq k : m1 <= k < m2 -> compar (vget l k) piv = 0 \/ vget l k = piv;
  sp_gt k : m2 <= k < hi -> 0 < compar (vget l k) piv
}.

Lemma gather_spec l0 a n s :
  0 <= a -> a + n <= vlen l0 -> 1 <= n -> part_inv l0 a n (vget l0 a) s -> p_b s = p_c s + 1 ->
  within a (a + n) l0 (gather s a n)
  /\ split3 (gather s a n) a (a + (p_b s - p_a s)) (a + n - (p_d s - p_c s)) (a + n) (vget l0 a).
Proof.
  intros Ha Hn H1 Hi Hbc. set (piv := vget l0 a) in *. pose proof (pi_order _ _ _ _ _ Hi) as Ho.
  pose proof (part_len l0 a n piv s Hi) as Hl. unfold gather. cbv zeta. rewrite !min_if.
  set (E := fun x => compar x piv = 0 \/ x = piv).
  destruct (swap_zones (p_l s) a (p_a s) (p_b s) _ E (fun x => compar x piv < 0)
              ltac:(lia) ltac:(lia) eq_refl) as (W1 & L1 & L2).
  { intros k Hk. unfold E. destruct (decide (k = a)) as [->|].
    - right. apply (within_outside (a + 1) (a + n)); [lia|lia|apply (pi_within _ _ _ _ _ Hi)|lia|lia].
    - left. apply (pi_left _ _ _ _ _ Hi). lia. }
  { intros k Hk. apply (pi_lt _ _ _ _ _ Hi). lia. }
  set (l1 := if _ =? 0 then p_l s else _) in *. pose proof (within_len _ _ _ _ W1) as Hl1.
  assert (Hr : forall k, p_b s <= k -> vget l1 k = vget (p_l s) k).
  { intros k Hk. apply (within_outside a (p_b s)); [lia|lia|done|lia|lia]. }
  replace (a + n - p_d s - 1) with (a + n - (p_d s + 1)) by lia.
  replace (p_d s - p_c s) with (p_d s + 1 - p_b s) by lia.
  destruct (swap_zones l1 (p_b s) (p_d s + 1) (a + n) _ (fun x => 0 < compar x piv) E
              ltac:(lia) ltac:(lia) eq_refl) as (W2 & R1 & R2).
  { intros k Hk. rewrite Hr by lia. apply (pi_gt _ _ _ _ _ Hi). lia. }
  { intros k Hk. rewrite Hr by lia. left. apply (pi_right _ _ _ _ _ Hi). lia. }
  set (l2 := if _ =? 0 then l1 else _) in *.
  assert (Hleft : forall k, a <= k < p_b s -> vget l2 k = vget l1 k).
  { intros k Hk. apply (within_outside (p_b s) (a + n)); [lia|lia|done|lia|lia]. }
  split.
  - apply (within_trans _ _ _ (p_l s)); [apply (within_mono (a + 1) (a + n)); [lia|lia|apply (pi_within _ _ _ _ _ Hi)]|].
    apply (within_trans _ _ _ l1); [apply (within_mono a (p_b s)); [lia|lia|done]|].
    apply (within_mono (p_b s) (a + n)); [lia|lia|done].
  - constructor; [lia| | |].
    + intros k Hk. rewrite Hleft by lia. apply L1. lia.
    + intros k Hk. destruct (decide (k < p_b s)).
      * rewrite Hleft by lia. apply L2. lia.
      * apply R1. lia.
    + intros k Hk. apply R2. lia.
Qed.

(** A range of at least seven elements is split around a pivot. *)
Lemma range_split l lo hi :
  0 <= lo -> hi <= vlen l -> 7 <= hi - lo ->
  let n := hi - lo in
  let l1 := cq_swap l lo (choose_pivot compar l lo n) in
  exists s, partition compar (Z.to_nat n) (vget l1 lo)
              (mkPart l1 (lo + 1) (lo + 1) (lo + (n - 1)) (lo + (n - 1))) = Some s
    /\ p_a s <= p_b s /\ p_c s <= p_d s
    /\ within lo hi l (gather s lo n)
    /\ split3 (gather s lo n) lo (lo + (p_b s - p_a s)) (hi - (p_d s - p_c s)) hi (vget l1 lo).
Proof.
  intros Hlo Hhi Hn n l1. pose proof (choose_pivot_range l lo n ltac:(lia)) as Hp.
  assert (Hw : within lo hi l l1) by (apply within_one; lia). pose proof (within_len _ _ _ _ Hw) as Hl.
  assert (Hi : part_inv l1 lo n (vget l1 lo) (mkPart l1 (lo + 1) (lo + 1) (lo + (n - 1)) (lo + (n - 1)))).
  { constructor; cbn [p_l p_a p_b p_c p_d]; [apply within_refl|lia|intros; lia..]. }
  destruct (partition_spec l1 lo n (vget l1 lo) ltac:(lia) ltac:(lia) (Z.to_nat n) _ Hi) as (s & Hs & Hi' & Hbc).
  { cbn [p_b p_c]. lia. }
  exists s. split; [done|]. pose proof (pi_order _ _ _ _ _ Hi').
  destruct (gather_spec l1 lo n s) as [Hg Hsp]; [lia|lia|lia|done|done|].
  replace (lo + n) with hi in * by lia. split; [lia|]. split; [lia|]. split; [by eapply within_trans|done].
Qed.

(** ** The stack *)

(** What the split of a range leaves on the stack: its nonempty sides. *)
Inductive sides (lo m1 m2 hi : Z) : list (Z * Z) -> Prop :=
| sides_none : lo = m1 -> m2 = hi -> sides lo m1 m2 hi []
| sides_left : m2 = hi -> sides lo m1 m2 hi [(lo, m1)]
| sides_right : lo = m1 -> sides lo m1 m2 hi [(m2, hi)]
| sides_lr : m1 - lo <= hi - m2 -> sides lo m1 m2 hi [(lo, m1); (m2, hi)]
| sides_rl : hi - m2 <= m1 - lo -> sides lo m1 m2 hi [(m2, hi); (lo, m1)].

Lemma push_sides st lo m1 m2 hi :
  lo <= m1 -> m2 <= hi -> exists top, push_ranges st lo m1 m2 hi = top ++ st /\ sides lo m1 m2 hi top.
Proof.
  intros H1 H2. unfold push_ranges. destruct (Z.ltb_spec (m1 - lo) (hi - m2)).
  - destruct (Z.eqb_spec lo m1); cbn [negb].
    + exists [(m2, hi)]. split; [done|]. by apply sides_right.
    + exists [(lo, m1); (m2, hi)]. split; [done|]. apply sides_lr. lia.
  - destruct (Z.eqb_spec m2 hi); cbn [negb].
    + exists [(lo, m1)]. split; [done|]. by apply sides_left.
    + exists [(m2, hi); (lo, m1)]. split; [done|]. apply sides_rl. lia.
Qed.

(** Ranges lie in the array, and a range with [d] ranges under it has at most
    [N / 2^d] elements. *)
Fixpoint stack_ok (N : Z) (st : list (Z * Z)) : Prop :=
  match st with
  | [] => True
  | (lo, hi) :: st => 0 <= lo <= hi /\ hi <= N /\ (hi - lo) * 2 ^ vlen st <= N /\ stack_ok N st
  end.

Definition work (st : list (Z * Z)) : Z := foldr (fun e w => 2 * (e.2 - e.1) + 1 + w) 0 st.

Lemma sides_ok N lo m1 m2 hi top st :
  lo <= m1 < m2 -> m2 <= hi -> sides lo m1 m2 hi top -> stack_ok N ((lo, hi) :: st) ->
  stack_ok N (top ++ st) /\ work (top ++ st) < work ((lo, hi) :: st).
Proof.
  intros Hm Hh Hs (Hr & HN & Hd & Hst). set (d := vlen st) in *.
  assert (Hp : 0 < 2 ^ d) by (apply Z.pow_pos_nonneg; [lia|apply vlen_nonneg]).
  assert (Hp1 : 2 ^ (d + 1) = 2 * 2 ^ d) by (rewrite Z.pow_add_r by (unfold d; auto using vlen_nonneg; lia); lia).
  inversion Hs; subst; cbn [app stack_ok work foldr fst snd]; rewrite ?vlen_cons; fold d; fold (work st);
    rewrite ?Hp1; split_and?; try done; try lia; nia.
Qed.

Lemma stack_start N : 0 <= N -> stack_ok N [(0, N)].
Proof. intros HN. cbn [stack_ok]. change (2 ^ vlen []) with 1. split_and!; (done || lia). Qed.

Lemma stack_depth N lo hi st :
  N < 2 ^ 64 -> stack_ok N ((lo, hi) :: st) -> 7 <= hi - lo -> 2 * vlen st + 4 < CQ_STACKSIZ.
Proof.
  intros HN (Hr & _ & Hd & _) Hn. unfold CQ_STACKSIZ.
  assert (Hlt : 2 ^ vlen st < 2 ^ 62).
  { assert (7 * 2 ^ vlen st <= N) by (pose proof (Z.pow_pos_nonneg 2 (vlen st)); pose proof (vlen_nonneg st); nia).
    change (2 ^ 64) with (4 * 2 ^ 62) in HN. lia. }
  apply Z.pow_lt_mono_r_iff in Hlt; [lia|lia|lia].
Qed.

(** ** The loop *)

Section loop.
Variable N : Z.

(** What the caller wants to keep true of the array and the stack. *)
Variable J : list A -> list (Z * Z) -> Prop.
Hypothesis J_short : forall l lo hi st,
  vlen l = N -> stack_ok N ((lo, hi) :: st) -> J l ((lo, hi) :: st) -> hi - lo < 7 ->
  J (insertion_sort compar lo (hi - lo) l) st.
Hypothesis J_split : forall l l' lo m1 m2 hi piv top st,
  vlen l = N -> stack_ok N ((lo, hi) :: st) -> J l ((lo, hi) :: st) -> within lo hi l l' ->
  split3 l' lo m1 m2 hi piv -> sides lo m1 m2 hi top -> J l' (top ++ st).

Lemma qsort_loop_spec fuel l st :
  vlen l = N -> stack_ok N st -> J l st -> work st < Z.of_nat fuel ->
  (2 ^ 64 <= N /\ qsort_loop compar fuel l st = q_assert)
  \/ exists l', qsort_loop compar fuel l st = q_done l' /\ within 0 N l l' /\ J l' [].
Proof.
  revert l st. induction fuel as [|fuel IH]; intros l st Hl Hst HJ Hf.
  { exfalso. assert (Hw : forall st, stack_ok N st -> 0 <= work st); [|specialize (Hw st Hst); lia].
    clear. induction st as [|[lo hi] st IH]; cbn; [lia|]. intros (? & _ & _ & Hs). specialize (IH Hs).
    fold (work st). lia. }
  destruct st as [|[lo hi] st]; [right; exists l; split; [done|]; split; [apply within_refl|done]|]. cbn [qsort_loop].
  pose proof Hst as (Hr & HN & _ & Hst').
  (* one range is done, and the rest of the stack goes on *)
  assert (Hnext : forall l' st', within lo hi l l' -> stack_ok N st' -> work st' < work ((lo, hi) :: st) -> J l' st' ->
    (2 ^ 64 <= N /\ qsort_loop compar fuel l' st' = q_assert)
    \/ exists l'', qsort_loop compar fuel l' st' = q_done l'' /\ within 0 N l l'' /\ J l'' []).
  { intros l' st' Hw Ho Hwk HJ'.
    destruct (IH l' st') as [|(l'' & Hq & Hw' & HJ'')]; [by rewrite (within_len _ _ _ _ Hw)|done|done|lia|by left|].
    right. exists l''. split; [done|]. split; [|done]. eapply within_trans; [|exact Hw'].
    apply (within_mono lo hi); [lia|lia|done]. }
  destruct (Z.ltb_spec (hi - lo) 7) as [Hlt|Hge].
  - apply Hnext; [|done|cbn; fold (work st); lia|by apply J_short].
    replace hi with (lo + (hi - lo)) at 1 by lia. apply insertion_sort_within. lia.
  - destruct (range_split l lo hi ltac:(lia) ltac:(lia) ltac:(lia)) as (s & -> & Hab & Hcd & Hw & Hsp).
    pose proof (sp_order _ _ _ _ _ _ Hsp) as Ho.
    destruct ((p_b s =? p_a s) && (p_d s =? p_c s)) eqn:E.
    + bprop. apply Hnext; [done|done|cbn; fold (work st); lia|].
      apply (J_split _ _ _ _ _ _ _ [] _ Hl Hst HJ Hw Hsp). apply sides_none; lia.
    + destruct (Z.ltb_spec (2 * vlen st + 4) CQ_STACKSIZ) as [_|Hfull].
      2:{ left. split; [|done]. destruct (Z.le_gt_cases (2 ^ 64) N) as [|Hs]; [done|].
          pose proof (stack_depth N lo hi st Hs Hst Hge). lia. }
      destruct (push_sides st lo (lo + (p_b s - p_a s)) (hi - (p_d s - p_c s)) hi) as (top & -> & Hs); [lia|lia|].
      destruct (sides_ok N _ _ _ _ _ st (proj1 Ho) (proj2 Ho) Hs Hst) as [H1 H2].
      apply Hnext; [done|done|done|]. by eapply J_split.
Qed.
End loop.
End any_comparison.

(** ** Sorting *)

(** A comparison function of a total preorder. *)
Record lawful_compar {A} (compar : A -> A -> Z) : Prop := {
  lc_sym x y : Z.sgn (compar y x) = - Z.sgn (compar x y);
  lc_trans x y z : compar x y <= 0 -> compar y z <= 0 -> compar x z <= 0
}.

Section sorting.
Context {A : Type} `{Inhabited A}.
Variable compar : A -> A -> Z.
Hypothesis lawful : lawful_compar compar.
Implicit Types (l : list A).

Abbreviation le x y := (compar x y <= 0).

Lemma compar_refl x : compar x x = 0.
Proof. pose proof (lc_sym _ lawful x x). lia. Qed.

Lemma compar_flip x y : 0 <= compar x y -> le y x.
Proof. pose proof (lc_sym _ lawful x y). lia. Qed.

(** Sorted but for the element at [pj], which is not above what follows it. *)
Lemma sink_sorts fuel a pj pi l :
  0 <= a <= pj -> pj <= pi < vlen l -> pj - a <= Z.of_nat fuel ->
  (forall i j, a <= i < j -> j <= pi -> i <> pj -> j <> pj -> le (vget l i) (vget l j)) ->
  (forall j, pj < j <= pi -> le (vget l pj) (vget l j)) ->
  let l' := sink compar fuel a pj l in
  forall i j, a <= i < j -> j <= pi -> le (vget l' i) (vget l' j).
Proof.
  revert pj l. induction fuel as [|fuel IH]; intros pj l Ha Hpi Hf Hs Hp; cbn [sink]; cbv zeta.
  { intros i j Hij Hj. destruct (decide (i = pj)) as [->|]; [apply Hp; lia|]. apply Hs; lia. }
  destruct (Z.ltb_spec a pj) as [Hlt|]; cbn [andb].
  2:{ intros i j Hij Hj. destruct (decide (i = pj)) as [->|]; [apply Hp; lia|]. apply Hs; lia. }
  destruct (Z.ltb_spec 0 (compar (vget l (pj - 1)) (vget l pj))) as [Hgt|Hle].
  - apply IH; rewrite ?cq_swap_len; [lia|lia|lia| |].
    + intros i j Hij Hj Hi' Hj'. rewrite !cq_swap_get by lia.
      repeat case_decide; subst; try lia; try (apply Hs; lia); apply Hp; lia.
    + intros j Hj. rewrite !cq_swap_get by lia. repeat case_decide; subst; try lia; [|apply Hp; lia].
      apply compar_flip. lia.
  - intros i j Hij Hj. destruct (decide (i = pj)) as [->|]; [apply Hp; lia|].
    destruct (decide (j = pj)) as [->|]; [|apply Hs; lia]. destruct (decide (i = pj - 1)) as [->|]; [lia|].
    apply (lc_trans _ lawful _ (vget l (pj - 1))); [apply Hs; lia|lia].
Qed.

Lemma insertion_sort_sorts a n l :
  0 <= a -> 0 <= n -> a + n <= vlen l ->
  let l' := insertion_sort compar a n l in forall i j, a <= i < j -> j < a + n -> le (vget l' i) (vget l' j).
Proof.
  intros Ha Hn Hl. cbv zeta. destruct (decide (n = 0)) as [->|]; [intros; lia|]. unfold insertion_sort.
  set (P := fun c l' => vlen l' = vlen l /\ forall i j, a <= i < j -> j < c -> le (vget l' i) (vget l' j)).
  apply (for_up_inv P); unfold P; [lia|split; [done|intros; lia]|].
  intros pi l' Hpi [Hl' Hs]. split.
  - pose proof (within_len _ _ _ _ (sink_within compar (Z.to_nat (pi - a)) a (pi + 1) pi l' ltac:(lia))). lia.
  - intros i j Hij Hj. apply (sink_sorts _ a pi pi); [lia|lia|lia| |intros; lia|done|lia].
    intros i' j' Hij' Hj' _ Hne. apply Hs; lia.
Qed.

(** Pairs out of order lie in one range of the stack, and ranges are disjoint. *)
Definition apart (e f : Z * Z) : Prop := e.2 <= f.1 \/ f.2 <= e.1.

Definition pending (N : Z) (l : list A) (st : list (Z * Z)) : Prop :=
  ForallOrdPairs apart st
  /\ forall i j, 0 <= i < j -> j < N -> le (vget l i) (vget l j) \/ exists e, e ∈ st /\ e.1 <= i /\ j < e.2.

(** Reordering a range of the stack keeps the other pairs. *)
Lemma pending_outside N l l' lo hi st i j :
  vlen l = N -> 0 <= lo -> hi <= N -> pending N l ((lo, hi) :: st) -> within lo hi l l' ->
  0 <= i < j -> j < N -> ~ (lo <= i /\ j < hi) ->
  le (vget l' i) (vget l' j) \/ exists e, e ∈ st /\ e.1 <= i /\ j < e.2.
Proof.
  intros Hl Hlo Hhi [Hap Hp] Hw Hij Hj Hout. inversion Hap as [|? ? Hap' _]; subst.
  rewrite List.Forall_forall in Hap'.
  assert (Hold : forall k, 0 <= k < vlen l -> exists k', vget l' k = vget l k' /\ 0 <= k' < vlen l
    /\ ((lo <= k < hi /\ lo <= k' < hi) \/ (k = k' /\ ~ lo <= k < hi))).
  { intros k Hk. destruct (decide (lo <= k < hi)).
    - destruct (within_inside lo hi l l' k) as (k' & Hk' & ->); [lia|lia|done|done|]. exists k'. split; [done|lia].
    - exists k. split; [apply (within_outside lo hi); [lia|lia|done|lia|lia]|]. lia. }
  destruct (Hold i ltac:(lia)) as (i' & -> & Hi' & Hci). destruct (Hold j ltac:(lia)) as (j' & -> & Hj' & Hcj).
  destruct (Hp i' j' ltac:(lia) ltac:(lia)) as [|(e & He & He1 & He2)]; [by left|]. right.
  apply elem_of_cons in He as [->|He]; [cbn in *; lia|].
  specialize (Hap' e (proj1 (list_elem_of_In _ _) He)). unfold apart in Hap'. cbn in Hap'.
  exists e. split; [done|]. lia.
Qed.

Lemma pending_short N l lo hi st :
  vlen l = N -> stack_ok N ((lo, hi) :: st) -> pending N l ((lo, hi) :: st) -> hi - lo < 7 ->
  pending N (insertion_sort compar lo (hi - lo) l) st.
Proof.
  intros Hl (Hr & HN & _) HJ _. split; [by destruct HJ as [Hap _]; inversion Hap|]. intros i j Hij Hj.
  assert (Hw : within lo hi l (insertion_sort compar lo (hi - lo) l)).
  { replace hi with (lo + (hi - lo)) at 1 by lia. apply insertion_sort_within. lia. }
  destruct (decide (lo <= i /\ j < hi)) as [Hin|Hout]; [|apply (pending_outside N l _ lo hi); (done || lia)].
  left. apply (insertion_sort_sorts lo (hi - lo)); lia.
Qed.

(** Elements of two different zones are in order. *)
Lemma split3_le l lo m1 m2 hi piv i j :
  split3 compar l lo m1 m2 hi piv -> lo <= i < j -> j < hi -> j < m1 \/ m2 <= i \/ le (vget l i) (vget l j).
Proof.
  intros Hsp Hij Hj. pose proof (sp_order _ _ _ _ _ _ _ Hsp).
  assert (Hlow : forall k, lo <= k < m2 -> le (vget l k) piv).
  { intros k Hk. destruct (decide (k < m1)).
    - pose proof (sp_lt _ _ _ _ _ _ _ Hsp k). lia.
    - destruct (sp_eq _ _ _ _ _ _ _ Hsp k ltac:(lia)) as [| ->]; [lia|]. rewrite compar_refl. lia. }
  assert (Hhigh : forall k, m1 <= k < hi -> le piv (vget l k)).
  { intros k Hk. destruct (decide (k < m2)).
    - destruct (sp_eq _ _ _ _ _ _ _ Hsp k ltac:(lia)) as [| ->]; [apply compar_flip; lia|]. rewrite compar_refl. lia.
    - apply compar_flip. pose proof (sp_gt _ _ _ _ _ _ _ Hsp k). lia. }
  destruct (decide (j < m1)); [by left|]. destruct (decide (m2 <= i)); [by right; left|]. right; right.
  apply (lc_trans _ lawful _ piv); [apply Hlow|apply Hhigh]; lia.
Qed.

Lemma pending_split N l l' lo m1 m2 hi piv top st :
  vlen l = N -> stack_ok N ((lo, hi) :: st) -> pending N l ((lo, hi) :: st) -> within lo hi l l' ->
  split3 compar l' lo m1 m2 hi piv -> sides lo m1 m2 hi top -> pending N l' (top ++ st).
Proof.
  intros Hl (Hr & HN & _) HJ Hw Hsp Hs. pose proof (sp_order _ _ _ _ _ _ _ Hsp) as Ho. split.
  - destruct HJ as [Hap _]. inversion Hap as [|? ? Hap' Hst]; subst. rewrite List.Forall_forall in Hap'.
    assert (Hsub : forall x y, lo <= x -> y <= hi -> List.Forall (apart (x, y)) st).
    { intros x y ? ?. rewrite List.Forall_forall. intros e He. specialize (Hap' e He). unfold apart in *. cbn in *. lia. }
    inversion Hs; subst; cbn [app]; try done; repeat constructor; try (apply Hsub; lia); try done;
      unfold apart; cbn; lia.
  - intros i j Hij Hj. destruct (decide (lo <= i /\ j < hi)) as [Hin|Hout].
    + destruct (split3_le _ _ _ _ _ _ i j Hsp ltac:(lia) ltac:(lia)) as [Hc|[Hc|Hc]]; [| |by left]; right.
      * exists (lo, m1). cbn. split; [|lia]. inversion Hs; subst; try lia; set_solver.
      * exists (m2, hi). cbn. split; [|lia]. inversion Hs; subst; try lia; set_solver.
    + destruct (pending_outside N l l' lo hi st i j) as [|(e & He & He')]; try done; [lia|by left|].
      right. exists e. split; [set_solver|done].
Qed.
End sorting.

(** ** The whole array *)

Lemma qsort_result {A} `{Inhabited A} (compar : A -> A -> Z) (l : list A) :
  (2 ^ 64 <= vlen l /\ click_qsort compar l = q_assert)
  \/ exists l', click_qsort compar l = q_done l' /\ l' ≡ₚ l
       /\ (lawful_compar compar -> forall i j, 0 <= i < j -> j < vlen l -> compar (vget l' i) (vget l' j) <= 0).
Proof.
  set (J := fun l' st => lawful_compar compar -> pending compar (vlen l) l' st). pose proof (vlen_nonneg l).
  destruct (qsort_loop_spec compar (vlen l) J) with (fuel := (2 * length l + 2)%nat) (l := l) (st := [(0, vlen l)])
    as [|(l' & Hq & Hw & Hp)]; [..|by left|right].
  - intros l1 lo hi st Hl Hst HJ Hn Hc. apply pending_short; auto.
  - intros l1 l2 lo m1 m2 hi piv top st Hl Hst HJ Hw Hsp Hs Hc. eapply pending_split; eauto.
  - done.
  - by apply stack_start.
  - intros _. split; [repeat constructor|]. intros i j Hij Hj. right. exists (0, vlen l). cbn. split; [set_solver|lia].
  - cbn. unfold vlen. lia.
  - exists l'. split; [done|]. split; [apply (within_perm 0 (vlen l)); [lia|lia|done]|].
    intros Hc i j Hij Hj. destruct (Hp Hc) as [_ Hp']. destruct (Hp' i j Hij Hj) as [|(e & He & _)]; [done|].
    by apply not_elem_of_nil in He.
Qed.

(** ** Sorting words, as an interface

    What [CompressedProgram::compile] needs of its sort. *)
Class Sorter (sort : list Z -> list Z) : Prop := {
  sorter_perm v : sort v ≡ₚ v;
  sorter_sorted v : vlen v < 2 ^ 64 -> Sorted Z.le (sort v)
}.

Lemma click_compare_lawful : lawful_compar click_compare.
Proof. constructor; unfold click_compare; intros; repeat bdestr; lia. Qed.

Lemma sorted_by_index (l : list Z) :
  (forall i j, 0 <= i < j -> j < vlen l -> vget l i <= vget l j) -> Sorted Z.le l.
Proof.
  intros Hs. apply StronglySorted_Sorted. induction l as [|x l IH]; constructor.
  - apply IH. intros i j Hij Hj. specialize (Hs (i + 1) (j + 1)). rewrite !vget_cons_S, vlen_cons in Hs by lia.
    rewrite !Z.add_simpl_r in Hs. apply Hs; lia.
  - rewrite Forall_forall. intros y Hy. apply list_elem_of_lookup in Hy as [n Hn].
    specialize (Hs 0 (Z.of_nat n + 1)). rewrite vget_cons_0, vget_cons_S, vlen_cons, Z.add_simpl_r in Hs by lia.
    rewrite (vget_nat _ _ _ Hn) in Hs. apply Hs; [lia|]. apply lookup_lt_Some in Hn. unfold vlen. lia.
Qed.

#[export] Instance click_sorter : Sorter click_sorted.
Proof.
  split; intros v; unfold click_sorted; destruct (qsort_result click_compare v) as [(Hl & ->)|(l' & -> & Hp & Hs)];
    [done|done|lia|].
  intros _. apply sorted_by_index. intros i j Hij Hj. replace (vlen l') with (vlen v) in Hj by (unfold vlen; by rewrite Hp).
  specialize (Hs click_compare_lawful i j Hij Hj). unfold click_compare in Hs. repeat bdestr; lia.
Qed.

(** ** Properties *)

(** C35. With any comparison function at all, even one that is not an order,
    [click_qsort] completes: its loops end, the assertion that its stack of
    [CQ_STACKSIZ] words is large enough never fails, and the array is a
    permutation of what it was. *)
Theorem qsort_completes {A} `{Inhabited A} (compar : A -> A -> Z) (l : list A) :
  vlen l < 2 ^ 64 -> exists l', click_qsort compar l = q_done l' /\ l' ≡ₚ l.
Proof. intros Hl. destruct (qsort_result compar l) as [|(l' & Hq & Hp & _)]; [lia|by exists l']. Qed.

Lemma qsort_completes_witness :
  exists l', click_qsort (fun _ _ => 1) (seqZ 0 60) = q_done l' /\ l' ≡ₚ seqZ 0 60.
Proof. apply (qsort_completes (fun _ _ : Z => 1) (seqZ 0 60)). vm_compute. reflexivity. Defined.

(** C16. With the comparison function of a total preorder the array ends up
    sorted: no element compares above a later one. *)
Theorem qsort_sorts {A} `{Inhabited A} (compar : A -> A -> Z) (l : list A) :
  lawful_compar compar -> vlen l < 2 ^ 64 ->
  exists l', click_qsort compar l = q_done l' /\ l' ≡ₚ l
    /\ forall i j, 0 <= i < j -> j < vlen l -> compar (vget l' i) (vget l' j) <= 0.
Proof.
  intros Hc Hl. destruct (qsort_result compar l) as [|(l' & Hq & Hp & Hs)]; [lia|].
  exists l'. split; [done|]. split; [done|]. by apply Hs.
Qed.

Definition sample : list Z := [31; 4; 15; 9; 2; 6; 53; 58; 9; 7; 9; 32; 3; 8; 46].

Lemma qsort_sorts_witness :
  click_qsort click_compare sample = q_done [2; 3; 4; 6; 7; 8; 9; 9; 9; 15; 31; 32; 46; 53; 58]
  /\ exists l', click_qsort click_compare sample = q_done l' /\ l' ≡ₚ sample
    /\ forall i j, 0 <= i < j -> j < vlen sample -> click_compare (vget l' i) (vget l' j) <= 0.
Proof.
  split; [vm_compute; reflexivity|]. apply (qsort_sorts click_compare sample click_compare_lawful).
  vm_compute. reflexivity.
Defined.
