(* ===== verification/NameDB.v ===== *)
(** * Databases of names

    [StaticNameDB] and [DynamicNameDB] of click/lib/nameinfo.cc, and the tables
    of click/elements/ip/ipnameinfo.cc.  A name is a list of characters without a
    zero; a value is a word for a static database, and a block of any type for a
    dynamic one. *)

From S2P Require Import Prelude QSort QSortCorrect IntArg.
From stdpp Require Import strings gmap.
Local Open Scope Z_scope.

(** ** Comparing names *)

(** [strcmp] and [String::compare]: the first difference decides, and a prefix is
    smaller. *)
Fixpoint strcmp (a b : list Z) : Z :=
  match a, b with
  | [], [] => 0
  | [], _ => -1
  | _, [] => 1
  | x :: a, y :: b => if x <? y then -1 else if y <? x then 1 else strcmp a b
  end.

Lemma strcmp_eq a b : strcmp a b = 0 <-> a = b.
Proof.
  revert b. induction a as [|x a IH]; intros [|y b]; cbn [strcmp]; try done.
  destruct (Z.ltb_spec x y); [split; [done|intros [=]; lia]|]. destruct (Z.ltb_spec y x); [split; [done|intros [=]; lia]|].
  rewrite IH. assert (x = y) as -> by lia. split; congruence.
Qed.

Lemma strcmp_refl a : strcmp a a = 0.
Proof. by apply strcmp_eq. Qed.

Lemma strcmp_swap a b : strcmp b a = - strcmp a b.
Proof.
  revert b. induction a as [|x a IH]; intros [|y b]; cbn [strcmp]; try done.
  destruct (Z.ltb_spec x y), (Z.ltb_spec y x); try done; first [lia|apply IH].
Qed.

Lemma strcmp_trans a b c : strcmp a b <= 0 -> strcmp b c <= 0 -> strcmp a c <= 0.
Proof.
  revert b c. induction a as [|x a IH]; intros [|y b] [|z c]; cbn [strcmp]; try lia.
  intros H1 H2. destruct (Z.ltb_spec x z); [lia|]. destruct (Z.ltb_spec x y), (Z.ltb_spec y x), (Z.ltb_spec y z), (Z.ltb_spec z y), (Z.ltb_spec z x); try lia. by eapply IH.
Qed.

Lemma strcmp_lt_trans a b c : strcmp a b < 0 -> strcmp b c <= 0 -> strcmp a c < 0.
Proof.
  intros H1 H2. pose proof (strcmp_trans a b c ltac:(lia) H2) as H3. destruct (Z.eq_dec (strcmp a c) 0) as [E|]; [|lia].
  apply strcmp_eq in E as ->. rewrite strcmp_swap in H1. lia.
Qed.

(** The first character, or the zero behind an empty name. *)
Definition first_char (w : list Z) : Z := match w with c :: _ => c | [] => 0 end.

(** ** Binary search

    The loop of [StaticNameDB::query] and of [DynamicNameDB::find] over the names
    from [l] to [r]: the index of [name], if it is found. *)
Fixpoint search_names (fuel : nat) (names : list (list Z)) (name : list Z) (l r : Z) : option Z :=
  match fuel with
  | O => None
  | S fuel' =>
      if l <? r then
        let m := l + (r - l) / 2 in
        let cmp := strcmp name (vget names m) in
        if cmp =? 0 then Some m
        else if cmp <? 0 then search_names fuel' names name l m
        else search_names fuel' names name (m + 1) r
      else None
  end.

(** Names in strictly increasing order. *)
Definition increasing (names : list (list Z)) : Prop :=
  forall i j, 0 <= i < j -> j < vlen names -> strcmp (vget names i) (vget names j) < 0.

Lemma search_names_found fuel names name : forall l r k, search_names fuel names name l r = Some k -> 0 <= l -> l <= k < r /\ vget names k = name.
Proof.
  induction fuel as [|fuel IH]; intros l r k E Hl; cbn [search_names] in E; [done|].
  destruct (Z.ltb_spec l r); [|done]. pose proof (Z.div_pos (r - l) 2 ltac:(lia) ltac:(lia)). pose proof (Z.div_lt (r - l) 2 ltac:(lia) ltac:(lia)).
  cbv zeta in E. destruct (Z.eqb_spec (strcmp name (vget names (l + (r - l) / 2))) 0) as [E0|]; [injection E as <-; split; [lia|]; symmetry; by apply strcmp_eq|].
  destruct (_ <? 0); apply IH in E; [|lia| |lia]; split; [lia|tauto|lia|tauto].
Qed.

Lemma search_names_complete fuel names k : increasing names -> 0 <= k < vlen names -> forall l r, l <= k < r -> 0 <= l -> r <= vlen names ->
  r - l < Z.of_nat fuel -> search_names fuel names (vget names k) l r = Some k.
Proof.
  intros Hinc Hk. induction fuel as [|fuel IH]; intros l r Hlr Hl Hr Hf; cbn [search_names]; [lia|].
  rewrite (proj2 (Z.ltb_lt l r)) by lia. pose proof (Z.div_pos (r - l) 2 ltac:(lia) ltac:(lia)). pose proof (Z.div_lt (r - l) 2 ltac:(lia) ltac:(lia)).
  cbv zeta. set (m := l + (r - l) / 2) in *. destruct (Z.lt_trichotomy k m) as [Hkm|[->|Hkm]].
  - pose proof (Hinc k m ltac:(lia) ltac:(lia)). rewrite (proj2 (Z.eqb_neq _ 0)), (proj2 (Z.ltb_lt _ 0)) by lia. apply IH; lia.
  - by rewrite strcmp_refl.
  - pose proof (Hinc m k ltac:(lia) ltac:(lia)) as Hlt. rewrite (strcmp_swap (vget names m)). rewrite (proj2 (Z.eqb_neq _ 0)), (proj2 (Z.ltb_ge _ 0)) by lia. apply IH; lia.
Qed.

(** ** [StaticNameDB] *)

Abbreviation entry := (list Z * Z)%type.

Definition static_query (entries : list entry) (name : list Z) : option Z :=
  let n := vlen entries in
  (** "common case: looking up an integer in a name table" *)
  let r := if first_char name <? first_char (vget (map fst entries) 0) then 0 else n in
  k ← search_names (S (length entries)) (map fst entries) name 0 r;
  Some (snd (vget entries k)).

(** [revquery]: the name of the first entry with the value. *)
Fixpoint static_revquery (entries : list entry) (value : Z) : list Z :=
  match entries with
  | [] => []
  | (name, v) :: rest => if v =? value then name else static_revquery rest value
  end.

(** The value of a name in a table. *)
Fixpoint find_entry (entries : list entry) (name : list Z) : option Z :=
  match entries with
  | [] => None
  | (n, v) :: rest => if bool_decide (n = name) then Some v else find_entry rest name
  end.

(** Entries in order, with names that are not empty. *)
Fixpoint table_ok (entries : list entry) : bool :=
  match entries with
  | (n, _) :: (((n', _) :: _) as rest) => (0 <? first_char n) && (strcmp n n' <? 0) && table_ok rest
  | [(n, _)] => 0 <? first_char n
  | [] => true
  end.

Lemma table_ok_cons n v rest : table_ok ((n, v) :: rest) = true ->
  0 < first_char n /\ table_ok rest = true /\ Forall (fun e => strcmp n e.1 < 0) rest.
Proof.
  revert n v. induction rest as [|[n' v'] rest IH]; intros n v Ht; cbn [table_ok] in Ht; [by bprop|].
  bprop. split; [done|]. split; [done|]. constructor; [done|]. destruct (IH n' v') as (_ & _ & Hf); [done|].
  eapply Forall_impl; [exact Hf|]. cbn. intros e He. eapply strcmp_lt_trans; [done|lia].
Qed.

Lemma table_increasing entries : table_ok entries = true -> increasing (map fst entries).
Proof.
  induction entries as [|[n v] rest IH]; intros Ht i j Hij Hj; cbn [map] in *; [rewrite vlen_nil in Hj; lia|].
  apply table_ok_cons in Ht as (_ & Ht & Hf). rewrite vlen_cons in Hj. rewrite (vget_cons_S _ _ j) by lia. destruct (Z.eq_dec i 0) as [->|Hi].
  - rewrite vget_cons_0. assert (Hin : vget (map fst rest) (j - 1) ∈ map fst rest) by (apply elem_of_vget; eexists; split; [|done]; lia).
    apply list_elem_of_fmap in Hin as (e & -> & He). rewrite Forall_forall in Hf. by apply Hf.
  - rewrite vget_cons_S by lia. apply IH; [done|lia|lia].
Qed.

Lemma find_entry_at entries k : table_ok entries = true -> 0 <= k < vlen entries ->
  find_entry entries (vget (map fst entries) k) = Some (snd (vget entries k)).
Proof.
  revert k. induction entries as [|[n v] rest IH]; intros k Ht Hk; [unfold vlen in Hk; simpl in Hk; lia|].
  apply table_ok_cons in Ht as (_ & Ht & Hf). rewrite vlen_cons in Hk. cbn [map find_entry]. destruct (Z.eq_dec k 0) as [->|Hk0].
  - rewrite !vget_cons_0. cbn [fst snd]. by rewrite bool_decide_true.
  - rewrite !vget_cons_S by lia. rewrite bool_decide_false; [apply IH; [done|lia]|]. intros ->.
    assert (Hl : vlen (map fst rest) = vlen rest) by (unfold vlen; by rewrite length_map).
    assert (Hin : vget (map fst rest) (k - 1) ∈ map fst rest) by (apply elem_of_vget; eexists; split; [|done]; lia).
    apply list_elem_of_fmap in Hin as (e & Ee & He). rewrite Forall_forall in Hf. specialize (Hf e He). rewrite Ee, strcmp_refl in Hf. lia.
Qed.

Lemma find_entry_elem entries name v : find_entry entries name = Some v -> name ∈ map fst entries.
Proof.
  induction entries as [|[n w] rest IH]; cbn [find_entry map]; [done|]. destruct (bool_decide_reflect (n = name)) as [->|]; [left|right; by apply IH].
Qed.

(** C34.  On a table in order the binary search of [StaticNameDB::query], the
    short cut on the first character included, is a lookup of the name. *)
Theorem static_query_lookup entries name : table_ok entries = true -> static_query entries name = find_entry entries name.
Proof.
  intros Ht. unfold static_query. assert (Hl : vlen (map fst entries) = vlen entries) by (unfold vlen; by rewrite length_map).
  pose proof (table_increasing entries Ht) as Hinc. set (r := if _ <? _ then 0 else _).
  destruct (find_entry entries name) as [v|] eqn:Ef.
  - pose proof (find_entry_elem _ _ _ Ef) as Hin. apply elem_of_vget in Hin as (k & Hk & <-). rewrite Hl in Hk. rewrite find_entry_at in Ef by done. injection Ef as <-.
    assert (Hr : r = vlen entries).
    { unfold r. destruct (Z.ltb_spec (first_char (vget (map fst entries) k)) (first_char (vget (map fst entries) 0))) as [Hlt|]; [|done]. exfalso.
      destruct (Z.eq_dec k 0) as [->|]; [lia|]. pose proof (Hinc 0 k ltac:(lia) ltac:(lia)) as Hc.
      destruct (vget (map fst entries) 0) as [|x a] eqn:E0.
      { destruct entries as [|[n0 v0] rest]; [unfold vlen in Hk; simpl in Hk; lia|]. cbn [map fst] in E0. rewrite vget_cons_0 in E0. apply table_ok_cons in Ht as (Hp & _). subst n0. cbn in Hp. lia. }
      destruct (vget (map fst entries) k) as [|y b]; cbn [strcmp first_char] in *; [lia|]. destruct (Z.ltb_spec x y), (Z.ltb_spec y x); lia. }
    rewrite (search_names_complete _ _ k); [done|done|lia|lia|lia|lia|rewrite Hr; unfold vlen; lia].
  - destruct (search_names _ _ _ _ _) as [k|] eqn:Es; [|done]. exfalso. apply search_names_found in Es as [Hk <-]; [|lia].
    assert (0 <= k < vlen entries) by (unfold r in Hk; destruct (_ <? _); lia). by rewrite find_entry_at in Ef.
Qed.

Lemma static_query_in entries name v : static_query entries name = Some v -> (name, v) ∈ entries.
Proof.
  unfold static_query. set (r := if (_ : bool) then 0 else _). destruct (search_names _ _ _ _ _) as [k|] eqn:E; [|done]. intros [= <-].
  apply search_names_found in E as [Hk <-]; [|lia]. pose proof (vlen_nonneg entries). assert (Hr : k < vlen entries) by (unfold r in Hk; destruct (_ <? _); lia).
  apply elem_of_vget. exists k. split; [lia|]. assert (Hg : vget (map fst entries) k = (vget entries k).1).
  { apply vget_lookup; [lia|]. change (map fst entries) with (fst <$> entries). rewrite list_lookup_fmap, vget_some by lia. done. }
  rewrite Hg. by destruct (vget entries k).
Qed.

(** *** The tables of [IPNameInfo] *)

Definition ip_protos : list entry :=
  [(chars "dccp", 33); (chars "gre", 47); (chars "icmp", 1); (chars "igmp", 2); (chars "ipip", 4); (chars "payload", 259);
   (chars "sctp", 132); (chars "tcp", 6); (chars "tcpudp", 256); (chars "transp", 258); (chars "udp", 17)].

Definition known_ports : list entry :=
  [(chars "auth", 113); (chars "bootpc", 68); (chars "bootps", 67); (chars "chargen", 19); (chars "daytime", 13);
   (chars "discard", 9); (chars "dns", 53); (chars "domain", 53); (chars "echo", 7); (chars "finger", 79);
   (chars "ftp", 21); (chars "ftp-data", 20); (chars "https", 443); (chars "imap3", 220); (chars "imaps", 993);
   (chars "irc", 194); (chars "netbios-dgm", 138); (chars "netbios-ns", 137); (chars "netbios-ssn", 139); (chars "nntp", 119);
   (chars "ntp", 123); (chars "pop3", 110); (chars "pop3s", 995); (chars "pptp", 1723); (chars "rip", 520);
   (chars "route", 520); (chars "smtp", 25); (chars "snmp", 161); (chars "snmp-trap", 162); (chars "ssh", 22);
   (chars "sunrpc", 111); (chars "telnet", 23); (chars "tftp", 69); (chars "www", 80)].

Definition icmp_types : list entry :=
  [(chars "echo", 8); (chars "echo-reply", 0); (chars "inforeq", 15); (chars "inforeq-reply", 16); (chars "maskreq", 17);
   (chars "maskreq-reply", 18); (chars "parameterproblem", 12); (chars "redirect", 5); (chars "routeradvert", 9);
   (chars "routersolicit", 10); (chars "sourcequench", 4); (chars "timeexceeded", 11); (chars "timestamp", 13);
   (chars "timestamp-reply", 14); (chars "unreachable", 3)].

Definition icmp_unreach_codes : list entry :=
  [(chars "filterprohibited", 13); (chars "host", 1); (chars "hostprecedence", 14); (chars "hostprohibited", 10);
   (chars "hostunknown", 7); (chars "isolated", 8); (chars "needfrag", 4); (chars "net", 0); (chars "netprohibited", 9);
   (chars "netunknown", 6); (chars "port", 3); (chars "precedencecutoff", 15); (chars "protocol", 2);
   (chars "srcroutefail", 5); (chars "toshost", 12); (chars "tosnet", 11)].

Definition icmp_redirect_codes : list entry :=
  [(chars "host", 1); (chars "net", 0); (chars "toshost", 3); (chars "tosnet", 2)].
Definition icmp_timxceed_codes : list entry := [(chars "reassembly", 1); (chars "transit", 0)].
Definition icmp_paramprob_codes : list entry := [(chars "erroratptr", 0); (chars "length", 2); (chars "missingopt", 1)].

Lemma ip_protos_ok : table_ok ip_protos = true.
Proof. by vm_compute. Qed.

Lemma known_ports_ok : table_ok known_ports = true.
Proof. by vm_compute. Qed.

Lemma icmp_tables_ok :
  forallb table_ok [icmp_types; icmp_unreach_codes; icmp_redirect_codes; icmp_timxceed_codes; icmp_paramprob_codes] = true.
Proof. by vm_compute. Qed.

Lemma static_query_lookup_witness :
  static_query known_ports (chars "https") = Some 443 /\ static_query known_ports (chars "80") = None.
Proof.
  split.
  - rewrite (static_query_lookup known_ports (chars "https") ltac:(vm_compute; reflexivity)). vm_compute. reflexivity.
  - rewrite (static_query_lookup known_ports (chars "80") ltac:(vm_compute; reflexivity)). vm_compute. reflexivity.
Defined.

(** ** [DynamicNameDB] *)

Lemma vget_fmap {A B} `{Inhabited A} `{Inhabited B} (f : A -> B) (l : list A) i : 0 <= i < vlen l -> vget (map f l) i = f (vget l i).
Proof.
  intros Hi. apply vget_lookup; [lia|]. change (map f l) with (f <$> l). rewrite list_lookup_fmap, vget_some by done. done.
Qed.

Lemma vlen_fmap {A B} (f : A -> B) (l : list A) : vlen (map f l) = vlen l.
Proof. unfold vlen. by rewrite length_map. Qed.

Lemma vlen_seqZ n : 0 <= n -> vlen (seqZ 0 n) = n.
Proof. intros Hn. unfold vlen. rewrite length_seqZ. lia. Qed.

(** A list is the list of its elements, by index. *)
Lemma map_vget_seqZ {A} `{Inhabited A} (l : list A) : map (vget l) (seqZ 0 (vlen l)) = l.
Proof.
  apply list_eq. intros i. change (map (vget l)) with (fmap (M:=list) (vget l)). rewrite list_lookup_fmap. destruct (decide (i < length l)%nat) as [Hi|Hi].
  - rewrite lookup_seqZ_lt by (unfold vlen; lia). cbn. rewrite Z.add_0_l, <- vget_some by (unfold vlen; lia). f_equal. lia.
  - rewrite lookup_seqZ_ge by (unfold vlen; lia). symmetry. apply lookup_ge_None. lia.
Qed.

Lemma zip_map {A B C} (f : A -> B) (g : A -> C) l : zip (map f l) (map g l) = map (fun x => (f x, g x)) l.
Proof. induction l as [|x l IH]; [done|]. cbn. by f_equal. Qed.

Lemma NoDup_vget {A} `{Inhabited A} (l : list A) i j : NoDup l -> 0 <= i < vlen l -> 0 <= j < vlen l -> vget l i = vget l j -> i = j.
Proof.
  intros Hn Hi Hj E. pose proof (vget_some l i Hi) as Ei. pose proof (vget_some l j Hj) as Ej. rewrite E in Ei.
  pose proof (NoDup_lookup _ _ _ _ Hn Ei Ej). lia.
Qed.

Section dynamic.
Context {V : Type} `{Inhabited V}.

(** [_sorted] counts the searches since the last new name, or is 100. *)
Record DynamicNameDB := mkDyn { dn_names : list (list Z); dn_values : list V; dn_sorted : Z }.

Definition new_dynamic : DynamicNameDB := mkDyn [] [] 0.

Definition namelist_sort_compar (names : list (list Z)) (a b : Z) : Z := strcmp (vget names a) (vget names b).

Definition dyn_sort (db : DynamicNameDB) : DynamicNameDB :=
  if (dn_sorted db =? 100) || (vlen (dn_names db) =? 0) then db
  else
    let permutation := seqZ 0 (vlen (dn_names db)) in
    let permutation := match click_qsort (namelist_sort_compar (dn_names db)) permutation with q_done p => p | _ => permutation end in
    mkDyn (map (vget (dn_names db)) permutation) (map (vget (dn_values db)) permutation) 100.

Fixpoint linear_names (names : list (list Z)) (name : list Z) (i : Z) : option Z :=
  match names with
  | [] => None
  | n :: rest => if bool_decide (name = n) then Some i else linear_names rest name (i + 1)
  end.

(** The part of [find] that searches. *)
Definition dyn_search (db : DynamicNameDB) (name : list Z) : DynamicNameDB * option Z :=
  let db := if 20 <? dn_sorted db then dyn_sort db else db in
  if dn_sorted db =? 100 then (db, search_names (S (length (dn_names db))) (dn_names db) name 0 (vlen (dn_names db)))
  else (mkDyn (dn_names db) (dn_values db) (dn_sorted db + 1), linear_names (dn_names db) name 0).

(** [find]: the index of the value.  The value of a new name is not written yet. *)
Definition dyn_find (db : DynamicNameDB) (name : list Z) (create : bool) : DynamicNameDB * option Z :=
  let '(db, found) := dyn_search db name in
  match found with
  | Some i => (db, Some i)
  | None =>
      if create && negb (bool_decide (name = []))
      then (mkDyn (vpush (dn_names db) name) (vpush (dn_values db) inhabitant) 0, Some (vlen (dn_names db)))
      else (db, None)
  end.

Definition dyn_query (db : DynamicNameDB) (name : list Z) : DynamicNameDB * option V :=
  let '(db, i) := dyn_find db name false in (db, i ← i; Some (vget (dn_values db) i)).

Definition dyn_define (db : DynamicNameDB) (name : list Z) (value : V) : DynamicNameDB * bool :=
  let '(db, i) := dyn_find db name true in
  match i with
  | Some i => (mkDyn (dn_names db) (vset (dn_values db) i value) (dn_sorted db), true)
  | None => (db, false)
  end.

(** [revquery]: the first name with the value. *)
Fixpoint revquery_loop `{EqDecision V} (names : list (list Z)) (values : list V) (value : V) : list Z :=
  match names, values with
  | n :: names, v :: values => if decide (v = value) then n else revquery_loop names values value
  | _, _ => []
  end.

Definition dyn_revquery `{EqDecision V} (db : DynamicNameDB) (value : V) : list Z := revquery_loop (dn_names db) (dn_values db) value.

(** A session of definitions and queries, and what it answers. *)
Inductive db_op := op_define (name : list Z) (value : V) | op_query (name : list Z).
Inductive db_answer := defined (b : bool) | queried (v : option V).

Fixpoint dyn_session (db : DynamicNameDB) (ops : list db_op) : list db_answer :=
  match ops with
  | [] => []
  | op_define name value :: ops => let '(db, b) := dyn_define db name value in defined b :: dyn_session db ops
  | op_query name :: ops => let '(db, v) := dyn_query db name in queried v :: dyn_session db ops
  end.

(** The same session on a finite map. *)
Fixpoint map_session (m : gmap (list Z) V) (ops : list db_op) : list db_answer :=
  match ops with
  | [] => []
  | op_define [] _ :: ops => defined false :: map_session m ops
  | op_define name value :: ops => defined true :: map_session (<[name := value]> m) ops
  | op_query name :: ops => queried (m !! name) :: map_session m ops
  end.

(** *** The map that a database is *)

Definition dyn_map (db : DynamicNameDB) : gmap (list Z) V := list_to_map (zip (dn_names db) (dn_values db)).

Record dyn_ok (db : DynamicNameDB) : Prop := {
  dn_len : length (dn_values db) = length (dn_names db);
  dn_nodup : NoDup (dn_names db);
  dn_order : dn_sorted db = 100 -> increasing (dn_names db);
  dn_count : dn_names db = [] \/ dn_sorted db <= 21 \/ dn_sorted db = 100;
  dn_named : [] ∉ dn_names db
}.

Lemma dyn_map_lookup db name v : dyn_ok db ->
  dyn_map db !! name = Some v <-> exists i, 0 <= i < vlen (dn_names db) /\ vget (dn_names db) i = name /\ vget (dn_values db) i = v.
Proof using Type*.
  intros [Hl Hn _ _ _]. unfold dyn_map. rewrite <- elem_of_list_to_map by (rewrite fst_zip; [done|lia]).
  rewrite list_elem_of_lookup. split.
  - intros (i & Hi). apply lookup_zip_Some in Hi as [H1 H2]. exists (Z.of_nat i). apply lookup_lt_Some in H1 as Hlt.
    split; [unfold vlen; lia|]. split; by apply vget_nat.
  - intros (i & Hi & <- & <-). exists (Z.to_nat i). apply lookup_zip_Some. split; apply vget_some; [done|]. unfold vlen in *. lia.
Qed.

Lemma linear_names_spec names name : forall i, NoDup names ->
  match linear_names names name i with
  | Some k => i <= k < i + vlen names /\ vget names (k - i) = name
  | None => name ∉ names
  end.
Proof using Type*.
  induction names as [|n rest IH]; intros i Hn; cbn [linear_names]; [by apply not_elem_of_nil|]. apply NoDup_cons in Hn as [Hin Hn].
  rewrite vlen_cons. pose proof (vlen_nonneg rest). destruct (bool_decide_reflect (name = n)) as [->|Hne].
  - rewrite Z.sub_diag, vget_cons_0. split; [lia|done].
  - specialize (IH (i + 1) Hn). destruct (linear_names rest name (i + 1)) as [k|].
    + destruct IH as [Hk Hv]. split; [lia|]. rewrite vget_cons_S by lia. by replace (k - i - 1) with (k - (i + 1)) by lia.
    + rewrite not_elem_of_cons. done.
Qed.

Lemma compar_lawful names : lawful_compar (namelist_sort_compar names).
Proof using Type*.
  unfold namelist_sort_compar. constructor; intros.
  - by rewrite (strcmp_swap (vget names x)), Z.sgn_opp.
  - by eapply strcmp_trans.
Qed.

(** The permutation that [sort] computes. *)
Lemma sort_permutation db : dn_sorted db <> 100 -> dn_names db <> [] -> vlen (dn_names db) < 2 ^ 64 ->
  exists p, p ≡ₚ seqZ 0 (vlen (dn_names db))
    /\ dyn_sort db = mkDyn (map (vget (dn_names db)) p) (map (vget (dn_values db)) p) 100
    /\ (forall i j, 0 <= i < j -> j < vlen p -> strcmp (vget (dn_names db) (vget p i)) (vget (dn_names db) (vget p j)) <= 0).
Proof using Type*.
  intros Hs Hn Hl. unfold dyn_sort. rewrite (proj2 (Z.eqb_neq _ 100)) by done.
  assert (0 < vlen (dn_names db)) by (destruct (dn_names db); [done|]; unfold vlen; simpl; lia).
  rewrite (proj2 (Z.eqb_neq _ 0)) by lia. cbn [orb]. cbv zeta. set (l := seqZ 0 _).
  assert (Hlen : vlen l = vlen (dn_names db)) by (unfold l; rewrite vlen_seqZ; lia).
  destruct (qsort_result (namelist_sort_compar (dn_names db)) l) as [[]|(p & -> & Hp & Hsort)]; [lia|].
  exists p. split; [done|]. split; [done|]. intros i j Hij Hj. apply (Hsort (compar_lawful _) i j Hij).
  unfold vlen in *. by rewrite <- (Permutation_length Hp).
Qed.

(** Sorting moves the values along with the names. *)
Lemma dyn_sort_ok db : dyn_ok db -> vlen (dn_names db) < 2 ^ 64 ->
  dyn_ok (dyn_sort db) /\ dyn_map (dyn_sort db) = dyn_map db /\ dn_names (dyn_sort db) ≡ₚ dn_names db
  /\ (dn_sorted (dyn_sort db) = 100 \/ dn_names db = []).
Proof using Type*.
  intros Hok Hl. destruct (Z.eq_dec (dn_sorted db) 100) as [E|Hs]; [unfold dyn_sort; rewrite (proj2 (Z.eqb_eq _ _) E); split_and!; auto|].
  destruct (decide (dn_names db = [])) as [E|Hn]; [unfold dyn_sort; rewrite E; cbn; rewrite orb_true_r; split_and!; auto; by rewrite E|].
  destruct (sort_permutation db Hs Hn Hl) as (p & Hp & -> & Hord). destruct Hok as [Hlen Hnd _ _ Hname].
  assert (Hv : vlen (dn_values db) = vlen (dn_names db)) by (unfold vlen; lia).
  assert (Hnames : map (vget (dn_names db)) p ≡ₚ dn_names db).
  { change (map (vget (dn_names db))) with (fmap (M:=list) (vget (dn_names db))). rewrite Hp. by apply reflexive_eq, map_vget_seqZ. }
  assert (Hnd' : NoDup (map (vget (dn_names db)) p)) by by rewrite Hnames.
  split_and!; cbn [dn_names dn_values dn_sorted]; auto; [split; cbn [dn_names dn_values dn_sorted]; auto|].
  - by rewrite !length_map.
  - intros _ i j Hij Hj. rewrite vlen_fmap in Hj. pose proof (Hord i j Hij Hj) as Hle.
    assert (Hne : vget (map (vget (dn_names db)) p) i <> vget (map (vget (dn_names db)) p) j).
    { intros E. apply NoDup_vget in E; rewrite ?vlen_fmap; try done; lia. }
    rewrite <- strcmp_eq in Hne. rewrite !vget_fmap in * by lia. lia.
  - by rewrite Hnames.
  - unfold dyn_map. cbn [dn_names dn_values]. rewrite zip_map. apply list_to_map_proper.
    + rewrite <- zip_map, fst_zip by (rewrite !length_map; lia). done.
    + change (map (fun x => (vget (dn_names db) x, vget (dn_values db) x))) with (fmap (M:=list) (fun x => (vget (dn_names db) x, vget (dn_values db) x))).
      rewrite Hp. apply reflexive_eq. cbn. rewrite <- zip_map. f_equal; [apply map_vget_seqZ|]. rewrite <- Hv. apply map_vget_seqZ.
Qed.

(** What a search for a name finds. *)
Definition found_at (db : DynamicNameDB) (name : list Z) (i : option Z) : Prop :=
  match i with
  | Some k => 0 <= k < vlen (dn_names db) /\ vget (dn_names db) k = name
  | None => name ∉ dn_names db
  end.

Lemma search_names_spec names name : increasing names ->
  match search_names (S (length names)) names name 0 (vlen names) with
  | Some k => 0 <= k < vlen names /\ vget names k = name
  | None => name ∉ names
  end.
Proof using Type*.
  intros Hi. destruct (search_names _ _ _ _ _) as [k|] eqn:E; [by apply search_names_found in E|].
  intros Hin. apply elem_of_vget in Hin as (k & Hk & <-). rewrite (search_names_complete _ _ k) in E; [done|done|lia|lia|lia|lia|unfold vlen; lia].
Qed.

Lemma dyn_search_ok db name db' i : dyn_ok db -> vlen (dn_names db) < 2 ^ 64 -> dyn_search db name = (db', i) ->
  dyn_ok db' /\ dyn_map db' = dyn_map db /\ dn_names db' ≡ₚ dn_names db /\ found_at db' name i.
Proof using Type*.
  intros Hok Hl E. unfold dyn_search in E. set (db1 := if 20 <? dn_sorted db then dyn_sort db else db) in E.
  assert (Hd : dyn_ok db1 /\ dyn_map db1 = dyn_map db /\ dn_names db1 ≡ₚ dn_names db /\ (dn_sorted db1 = 100 \/ dn_sorted db1 <= 20 \/ dn_names db1 = [])).
  { unfold db1. destruct (Z.ltb_spec 20 (dn_sorted db)); [|split_and!; auto]. destruct (dyn_sort_ok db Hok Hl) as (H1 & H2 & H3 & H4). split_and!; auto.
    destruct H4 as [H4|H4]; [auto|]. rewrite H4 in H3. right. right. by apply Permutation_nil_r in H3. }
  destruct Hd as (Hok1 & <- & <- & Hs). destruct Hok1 as [Hlen Hnd Hord Hcnt Hname].
  destruct (Z.eqb_spec (dn_sorted db1) 100) as [E100|H100]; injection E as <- <-.
  - split_and!; try done. by apply search_names_spec, Hord.
  - split_and!; try done.
    + split; cbn [dn_names dn_values dn_sorted]; try done; [|destruct Hs as [?|[?|?]]; [done|right; left; lia|by left]].
      destruct Hs as [?|[?| ->]]; [done|lia|]. intros _ a b Hab Hb. unfold vlen in Hb. simpl in Hb. lia.
    + cbn [dn_names]. pose proof (linear_names_spec (dn_names db1) name 0 Hnd) as Hsp. unfold found_at. cbn [dn_names].
      destruct (linear_names _ _ _); [|done]. by rewrite Z.sub_0_r in Hsp.
Qed.

Lemma dyn_map_missing db name : dyn_ok db -> name ∉ dn_names db -> dyn_map db !! name = None.
Proof using Type*.
  intros Hok Hn. destruct (dyn_map db !! name) as [v|] eqn:E; [|done]. apply dyn_map_lookup in E as (i & Hi & <- & _); [|done].
  destruct Hn. apply elem_of_vget. by exists i.
Qed.

Lemma dyn_query_ok db name db' v : dyn_ok db -> vlen (dn_names db) < 2 ^ 64 -> dyn_query db name = (db', v) ->
  dyn_ok db' /\ dyn_map db' = dyn_map db /\ dn_names db' ≡ₚ dn_names db /\ v = dyn_map db !! name.
Proof using Type*.
  intros Hok Hl. unfold dyn_query, dyn_find. destruct (dyn_search db name) as [db1 i] eqn:E. apply dyn_search_ok in E as (H1 & H2 & H3 & H4); [|done|done].
  destruct i as [k|]; cbn [andb]; intros [= <- <-]; split_and!; try done; rewrite <- H2.
  - symmetry. apply dyn_map_lookup; [done|]. destruct H4. by exists k.
  - symmetry. by apply dyn_map_missing.
Qed.

Lemma dyn_set_value db k v s : dyn_ok db -> 0 <= k < vlen (dn_names db) -> (s = dn_sorted db) ->
  let db' := mkDyn (dn_names db) (vset (dn_values db) k v) s in
  dyn_ok db' /\ dyn_map db' = <[vget (dn_names db) k := v]> (dyn_map db).
Proof using Type*.
  intros Hok Hk -> db'. pose proof (dn_len _ Hok) as Hl. assert (Hv : 0 <= k < vlen (dn_values db)) by (unfold vlen in *; lia).
  assert (Hok' : dyn_ok db').
  { destruct Hok. split; cbn [db' dn_names dn_values dn_sorted]; try done. pose proof (vlen_vset (dn_values db) k v). unfold vlen in *. lia. }
  split; [done|]. apply map_eq. intros n. apply option_eq. intros w. rewrite dyn_map_lookup by done. cbn [db' dn_names dn_values].
  destruct (decide (vget (dn_names db) k = n)) as [<-|Hne].
  - rewrite lookup_insert_eq. split.
    + intros (i & Hi & E & <-). apply NoDup_vget in E as ->; [|by destruct Hok|done|done]. by rewrite vget_vset_eq.
    + intros [= <-]. exists k. by rewrite vget_vset_eq.
  - rewrite lookup_insert_ne by done. rewrite dyn_map_lookup by done. split; intros (i & Hi & <- & <-); exists i; (split_and!; [lia|lia|done|]).
    all: rewrite vget_vset_ne; [done|intros ->; done|lia|lia].
Qed.

Lemma dyn_new_name db name v : dyn_ok db -> name <> [] -> name ∉ dn_names db ->
  let db' := mkDyn (vpush (dn_names db) name) (vpush (dn_values db) v) 0 in dyn_ok db' /\ dyn_map db' = <[name := v]> (dyn_map db).
Proof using Type*.
  intros [Hl Hnd _ _ Hname] Hn Hnew db'. split; [split; cbn [db' dn_names dn_values dn_sorted]|]; unfold vpush.
  - rewrite !length_app. simpl. lia.
  - apply NoDup_app. split_and!; [done| |by apply NoDup_singleton]. intros x Hx ->%list_elem_of_singleton. done.
  - done.
  - right. left. lia.
  - rewrite elem_of_app, list_elem_of_singleton. intros [|E]; [done|]. by destruct Hn.
  - unfold dyn_map, db', vpush. cbn [dn_names dn_values]. rewrite zip_with_app by done. cbn [zip_with]. apply list_to_map_snoc. by rewrite fst_zip by lia.
Qed.

Lemma dyn_define_ok db name v db' b : dyn_ok db -> vlen (dn_names db) < 2 ^ 64 -> dyn_define db name v = (db', b) ->
  dyn_ok db' /\ vlen (dn_names db') <= vlen (dn_names db) + 1
  /\ if bool_decide (name = []) then b = false /\ dyn_map db' = dyn_map db else b = true /\ dyn_map db' = <[name := v]> (dyn_map db).
Proof using Type*.
  intros Hok Hl. unfold dyn_define, dyn_find. destruct (dyn_search db name) as [db1 i] eqn:E. apply dyn_search_ok in E as (Hok1 & <- & Hp & Hf); [|done|done].
  assert (Hlen : vlen (dn_names db1) = vlen (dn_names db)) by (unfold vlen; by rewrite (Permutation_length Hp)).
  destruct i as [k|].
  - destruct Hf as [Hk <-]. intros [= <- <-]. destruct (dyn_set_value db1 k v _ Hok1 Hk eq_refl) as [H1 H2]. split_and!; [done|cbn [dn_names]; lia|].
    case_bool_decide as Hb; [|done]. exfalso. apply (dn_named _ Hok1). rewrite <- Hb. apply elem_of_vget. by exists k.
  - cbn [andb]. case_bool_decide as Hb; cbn [negb]; intros [= <- <-]; [split_and!; first [done|lia]|].
    destruct (dyn_new_name db1 name inhabitant Hok1 Hb Hf) as [H1 H2]. set (db2 := mkDyn _ (vpush _ _) 0) in *. pose proof (vlen_nonneg (dn_names db1)).
    assert (Hk : 0 <= vlen (dn_names db1) < vlen (dn_names db2)) by (cbn [db2 dn_names]; rewrite vlen_vpush; lia).
    destruct (dyn_set_value db2 _ v 0 H1 Hk eq_refl) as [H3 H4]. cbn [db2 dn_names dn_values dn_sorted] in *. split_and!; [exact H3|rewrite vlen_vpush; lia|done|].
    rewrite H4, H2. rewrite vget_vpush_eq by done. apply insert_insert_eq.
Qed.

Lemma dyn_session_map ops : forall db, dyn_ok db -> vlen (dn_names db) + vlen ops <= 2 ^ 64 ->
  dyn_session db ops = map_session (dyn_map db) ops.
Proof using Type*.
  induction ops as [|op ops IH]; intros db Hok Hl; [done|]. rewrite vlen_cons in Hl. pose proof (vlen_nonneg ops).
  destruct op as [name v|name]; cbn [dyn_session map_session].
  - destruct (dyn_define db name v) as [db' b] eqn:E. apply dyn_define_ok in E as (H1 & H2 & H3); [|done|lia].
    rewrite IH by (done || lia). destruct name; cbn in H3; destruct H3 as [-> ->]; done.
  - destruct (dyn_query db name) as [db' b] eqn:E. apply dyn_query_ok in E as (H1 & H2 & H3 & ->); [|done|lia].
    assert (vlen (dn_names db') = vlen (dn_names db)) by (unfold vlen; by rewrite (Permutation_length H3)).
    rewrite IH by (done || lia). by rewrite H2.
Qed.

(** A name that [revquery] returns has the value, and none is returned only for
    values that no name has. *)
Lemma dyn_revquery_map `{EqDecision V} db v : dyn_ok db ->
  let n := dyn_revquery db v in
  if bool_decide (n = []) then forall m, dyn_map db !! m <> Some v else dyn_map db !! n = Some v.
Proof using Type*.
  intros Hok. cbv zeta. destruct Hok as [Hlen Hnd _ _ Hname]. unfold dyn_revquery, dyn_map.
  revert Hlen Hnd Hname. generalize (dn_values db). induction (dn_names db) as [|n names IH]; intros [|w values] Hlen Hnd Hname; try done; cbn [revquery_loop zip zip_with list_to_map].
  apply NoDup_cons in Hnd as [Hn Hnd]. apply not_elem_of_cons in Hname as [Hne Hname]. cbn. destruct (decide (w = v)) as [->|Hwv].
  - rewrite bool_decide_false by done. by rewrite lookup_insert_eq.
  - specialize (IH values ltac:(simpl in Hlen; lia) Hnd Hname). case_bool_decide as Hb.
    + intros m. destruct (decide (m = n)) as [->|]; [rewrite lookup_insert_eq; congruence|rewrite lookup_insert_ne by done; apply IH].
    + rewrite lookup_insert_ne; [done|]. intros E. apply Hn. rewrite E.
      apply elem_of_list_to_map_2, elem_of_zip_l in IH. exact IH.
Qed.

(** C15.  A dynamic database answers any session of definitions and queries as
    the finite map does, the changes between linear and binary search included;
    the empty name cannot be defined. *)
Theorem dynamic_refines_map ops : vlen ops <= 2 ^ 64 -> dyn_session new_dynamic ops = map_session ∅ ops.
Proof using Type*.
  intros Hl. rewrite dyn_session_map; [done| |done]. split; cbn [new_dynamic dn_names dn_values dn_sorted]; try done; [constructor|by left|by apply not_elem_of_nil].
Qed.
End dynamic.

(** Twenty-four queries make it sort, a definition makes it forget that it is sorted. *)
Lemma dynamic_refines_map_witness :
  let ops := [op_define (chars "b") 1; op_define (chars "a") 2] ++ repeat (op_query (chars "a")) 24 ++ [op_define [] 3; op_define (chars "b") 4; op_query (chars "b"); op_query (chars "c")] in
  dyn_session new_dynamic ops = [defined true; defined true] ++ repeat (queried (Some 2)) 24 ++ [defined false; defined true; queried (Some 4); queried None]
  /\ dyn_session new_dynamic ops = map_session ∅ ops.
Proof. cbv zeta. split; [vm_compute; reflexivity|]. apply dynamic_refines_map. vm_compute. discriminate. Defined.
