(* ===== verification/Compress.v ===== *)
(** * Compressed programs

    [CompressedProgram] of elements/standard/classification.cc groups the
    instructions of a wordwise program that test the same word under the same
    mask into one test with several values, sorted for binary search.
    [IPFilter::match] and [IPFilter::length_checked_match] interpret the result.

    The word a test reads is given by a function of the offset: the network,
    transport or link-level header of the packet, as the offset says. *)

From stdpp Require Import sorting.
From S2P Require Import Prelude Packet Insn Program QSort.
Local Open Scope word_scope.
Local Open Scope Z_scope.

Definition i16 (x : Z) : Z := let y := u16 x in if y <? 32768 then y else y - 65536.

Section compile.
(** The sort; [IPFilter] uses [click_qsort], see [ip_compile]. *)
Variable qsort : list Z -> list Z.

(** ** [compile] *)

(** How many live jumps lead to each instruction. *)
Definition count_wanted (l : list Insn) : list Z :=
  for_up 0 (vlen l) (fun i w =>
    if negb (vget w i =? 0) then
      let e := vget l i in
      let w := if 0 <? j_no e then vset w (j_no e) (vget w (j_no e) + 1) else w in
      if 0 <? j_yes e then vset w (j_yes e) (vget w (j_yes e) + 1) else w
    else w)
    (vset (replicate (S (length l)) 0) 0 1).

(** The [while] loop: absorb the instructions on the failure branch. *)
Fixpoint merge_loop (fuel : nat) (l : list Insn) (e : Insn) (off : Z) (z wanted : list Z)
    : list Z * list Z :=
  match fuel with
  | O => (z, wanted)
  | S fuel' =>
      let no := i32 (vget z (off + 1)) in
      let x := vget l no in
      if (0 <? no) && (vget wanted no =? 1) && (j_yes x =? j_yes e)
         && (offset x =? offset e) && (mask x =? mask e)
      then
        let z := vset z off (u32 (vget z off + 131072)) in
        let z := vset z (off + 1) (u32 (j_no x)) in
        let z := vpush z (value x) in
        merge_loop fuel' l e off z (vset wanted no (vget wanted no - 1))
      else (z, wanted)
  end.

Definition nvalues (z : list Z) (off : Z) : Z := vget z off .>> 17.

(** [click_qsort(&_zprog[off+4], _zprog[off] >> 17)] *)
Definition sort_values (z : list Z) (off : Z) : list Z :=
  take (Z.to_nat (off + 4)) z
  ++ qsort (take (Z.to_nat (nvalues z off)) (drop (Z.to_nat (off + 4)) z))
  ++ drop (Z.to_nat (nvalues z off)) (drop (Z.to_nat (off + 4)) z).

Record emit_state := mkEmit { e_zprog : list Z; e_wanted : list Z; e_offsets : list Z }.

Definition emit_insn (l : list Insn) (perform_binary_search : bool) (min_binary_search : Z)
    (i : Z) (s : emit_state) : emit_state :=
  let off := vlen (e_zprog s) in
  let offsets := vpush (e_offsets s) off in
  if vget (e_wanted s) i =? 0 then mkEmit (e_zprog s) (e_wanted s) offsets
  else
    let e := vget l i in
    let z := vpush (e_zprog s) (u32 (offset e + (if short_output e then 65536 else 0) + 131072)) in
    let z := vpush z (u32 (j_no e)) in
    let z := vpush z (u32 (j_yes e)) in
    let z := vpush z (mask e) in
    let z := vpush z (value e) in
    let '(z, wanted) := merge_loop (length l) l e off z (e_wanted s) in
    let z := if perform_binary_search && (min_binary_search <=? nvalues z off) then sort_values z off else z in
    mkEmit z wanted offsets.

(** One turn of the last loop: jumps become distances. *)
Definition patch_jump (offsets : list Z) (off w : Z) : Z :=
  if 0 <? i32 w then u32 (vget offsets w - off) else w.

Definition patch_insn (offsets : list Z) (i : Z) (z : list Z) : list Z :=
  let off := vget offsets i in
  if (off <? vlen z) && (off <? vget offsets (i + 1)) then
    let z := vset z (off + 1) (patch_jump offsets off (vget z (off + 1))) in
    vset z (off + 2) (patch_jump offsets off (vget z (off + 2)))
  else z.

Record CompressedProgram := mkZ {
  zprog : list Z;
  z_output_everything : Z;
  z_safe_length : Z;
  z_align_offset : Z
}.

Definition compile_words (l : list Insn) (perform_binary_search : bool) (min_binary_search : Z) : list Z :=
  let s := for_up 0 (vlen l) (emit_insn l perform_binary_search min_binary_search)
             (mkEmit [] (count_wanted l) []) in
  let offsets := vpush (e_offsets s) (vlen (e_zprog s)) in
  for_up 0 (vlen l) (patch_insn offsets) (e_zprog s).

Definition compile (P : Program) (perform_binary_search : bool) (min_binary_search : Z) : CompressedProgram :=
  mkZ (compile_words (insns P) perform_binary_search min_binary_search)
      (output_everything P) (safe_length P) (align_offset P).
End compile.

(** ** Running *)

Fixpoint linear_search (n : nat) (z : list Z) (pp data : Z) : bool :=
  match n with
  | O => false
  | S n' => if vget z pp =? data then true else linear_search n' z (pp + 1) data
  end.

Fixpoint binary_search (fuel : nat) (z : list Z) (pp px data : Z) : bool :=
  match fuel with
  | O => false
  | S fuel' =>
      if pp <? px then
        let pm := pp + (px - pp) / 2 in
        if vget z pm =? data then true
        else if vget z pm <? data then binary_search fuel' z (pm + 1) px data
        else binary_search fuel' z pp pm data
      else false
  end.

Definition PERFORM_BINARY_SEARCH : bool := true.
Definition MIN_BINARY_SEARCH : Z := 7.

(** [zprog.compile(prog, PERFORM_BINARY_SEARCH, MIN_BINARY_SEARCH)] *)
Definition ip_compile (P : Program) : CompressedProgram :=
  compile click_sorted P PERFORM_BINARY_SEARCH MIN_BINARY_SEARCH.

(** Does the test at [pr] hold for the masked word? *)
Definition ztest (z : list Z) (pr data : Z) : bool :=
  let n := nvalues z pr in
  if negb PERFORM_BINARY_SEARCH || (n <? MIN_BINARY_SEARCH)
  then linear_search (Z.to_nat n) z (pr + 4) data
  else binary_search (S (Z.to_nat n)) z (pr + 4) (pr + 4 + n) data.

(** [IPFilter::match] after the length test. *)
Fixpoint zmatch (fuel : nat) (z : list Z) (read : Z -> Z) (pr : Z) : option Z :=
  match fuel with
  | O => None
  | S fuel' =>
      let data := read (i16 (vget z pr)) .& vget z (pr + 3) in
      let off := i32 (vget z (if ztest z pr data then pr + 2 else pr + 1)) in
      if off <=? 0 then Some (- off) else zmatch fuel' z read (pr + off)
  end.

(** Bytes [c[k]] of the mask word. *)
Definition zmask_c (z : list Z) (pr k : Z) : Z := byte_of (vget z (pr + 3)) k.

Fixpoint zmatch_checked (fuel : nat) (z : list Z) (read : Z -> Z) (packet_length pr : Z) : option Z :=
  match fuel with
  | O => None
  | S fuel' =>
      let off := i16 (vget z pr) in
      let available := packet_length - off in
      let length_ok :=
        negb (packet_length <? off + 4)
        || ((off <? packet_length)
            && negb (negb (zmask_c z pr 3 =? 0)
                     || (negb (zmask_c z pr 2 =? 0) && (available <=? 2))
                     || (negb (zmask_c z pr 1 =? 0) && (available =? 1)))) in
      let off :=
        if length_ok then
          let data := read off .& vget z (pr + 3) in
          i32 (vget z (if ztest z pr data then pr + 2 else pr + 1))
        else i32 (vget z (pr + 1 + (if negb ((vget z pr .& 65536) =? 0) then 1 else 0))) in
      if off <=? 0 then Some (- off) else zmatch_checked fuel' z read packet_length (pr + off)
  end.

(** ** [IPFilter::match] *)

Definition offset_net : Z := 256.
Definition offset_transp : Z := 512.

(** A packet with its header pointers, relative to [p->data()]. *)
Record ip_packet := mkIP { ip_pkt : packet; mac_at : Z; net_at : Z; transp_at : Z }.

(** The word at a program offset. *)
Definition ip_word (p : ip_packet) (off : Z) : Z :=
  if offset_transp <=? off then pkt_word (ip_pkt p) (transp_at p + off - offset_transp)
  else if offset_net <=? off then pkt_word (ip_pkt p) (net_at p + off - offset_net)
  else pkt_word (ip_pkt p) (mac_at p - 2 + off).

(** [packet_length]: one past the last offset the packet has. *)
Definition ip_length (p : ip_packet) : Z :=
  let network_length := pkt_length (ip_pkt p) - net_at p in
  let network_header_length := transp_at p - net_at p in
  if network_header_length <? network_length
  then network_length + (offset_transp - network_header_length)
  else network_length + offset_net.

Definition ip_match (Z0 : CompressedProgram) (p : ip_packet) : option Z :=
  let packet_length := ip_length p in
  if 0 <=? z_output_everything Z0 then Some (z_output_everything Z0)
  else if packet_length <? i32 (z_safe_length Z0)
  then zmatch_checked (S (length (zprog Z0))) (zprog Z0) (ip_word p) packet_length 0
  else zmatch (S (length (zprog Z0))) (zprog Z0) (ip_word p) 0.

(** [warn_unused_outputs]: which outputs a compressed program can reach. *)
Fixpoint z_outputs (fuel : nat) (z : list Z) (i : Z) : list Z :=
  match fuel with
  | O => []
  | S fuel' =>
      if i <? vlen z then
        filter (fun j => j <= 0) [i32 (vget z (i + 1)); i32 (vget z (i + 2))]
        ++ z_outputs fuel' z (i + 4 + nvalues z i)
      else []
  end.

Definition z_unused (Z0 : CompressedProgram) (noutputs : Z) : list Z :=
  let used :=
    if (0 <=? z_output_everything Z0) && (z_output_everything Z0 <? noutputs) then [- z_output_everything Z0]
    else z_outputs (length (zprog Z0)) (zprog Z0) 0 in
  filter (fun o => negb (bool_decide (- o ∈ used)) = true) (seqZ 0 noutputs).
