(* ===== verification/CompressCorrect.v ===== *)
(** * Compression preserves matching

    The compiled words are a sequence of blocks, one per instruction that is
    still wanted when its turn comes; a block stands for the chain of
    instructions it absorbed.  Running the words from a block's position is
    running the program from its first instruction. *)

From stdpp Require Import sorting.
From S2P Require Import Prelude Packet Insn Program Compress.
Local Open Scope word_scope.
Local Open Scope Z_scope.

(** ** Searching *)

Section search.
Variables (z : list Z) (pp : Z) (vals : list Z).
Hypothesis z_vals : forall c, 0 <= c < vlen vals -> vget z (pp + c) = vget vals c.

Lemma linear_search_spec n a data :
  0 <= a -> a + Z.of_nat n = vlen vals ->
  linear_search n z (pp + a) data = true <-> exists c, a <= c < vlen vals /\ vget vals c = data.
Proof.
  revert a. induction n as [|n IH]; intros a Ha Hn; cbn [linear_search].
  { split; [done|]. intros (c & Hc & _). lia. }
  rewrite z_vals by lia. destruct (Z.eqb_spec (vget vals a) data) as [He|Hne].
  { split; [|done]. intros _. exists a. split; [lia|done]. }
  replace (pp + a + 1) with (pp + (a + 1)) by lia. rewrite IH by lia. split.
  - intros (c & Hc & Hv). exists c. split; [lia|done].
  - intros (c & Hc & Hv). exists c. split; [|done]. destruct (decide (c = a)) as [->|]; [done|lia].
Qed.

Lemma binary_search_spec fuel a b data :
  (forall i j, 0 <= i <= j -> j < vlen vals -> vget vals i <= vget vals j) ->
  0 <= a <= b -> b <= vlen vals -> b - a < Z.of_nat fuel ->
  binary_search fuel z (pp + a) (pp + b) data = true <-> exists c, a <= c < b /\ vget vals c = data.
Proof.
  intros Hs. revert a b. induction fuel as [|fuel IH]; intros a b Hab Hb Hf; [lia|]. cbn [binary_search].
  destruct (Z.ltb_spec (pp + a) (pp + b)) as [Hlt|Hge].
  2:{ split; [done|]. intros (c & Hc & _). lia. }
  replace (pp + b - (pp + a)) with (b - a) by lia. set (m := a + (b - a) / 2).
  assert (Hm : a <= m < b).
  { unfold m. pose proof (Z.div_pos (b - a) 2 ltac:(lia) ltac:(lia)).
    pose proof (Z.div_lt (b - a) 2 ltac:(lia) ltac:(lia)). lia. }
  replace (pp + a + (b - a) / 2) with (pp + m) by (unfold m; lia). rewrite z_vals by lia.
  destruct (Z.eqb_spec (vget vals m) data) as [He|Hne].
  { split; [|done]. intros _. exists m. done. }
  destruct (Z.ltb_spec (vget vals m) data) as [Hl|Hg].
  - replace (pp + m + 1) with (pp + (m + 1)) by lia. rewrite IH by lia. split.
    + intros (c & Hc & Hv). exists c. split; [lia|done].
    + intros (c & Hc & Hv). exists c. split; [|done]. destruct (Z.le_gt_cases c m); [|lia].
      pose proof (Hs c m ltac:(lia) ltac:(lia)). lia.
  - rewrite IH by lia. split.
    + intros (c & Hc & Hv). exists c. split; [lia|done].
    + intros (c & Hc & Hv). exists c. split; [|done]. destruct (Z.le_gt_cases m c); [|lia].
      pose proof (Hs m c ltac:(lia) ltac:(lia)). lia.
Qed.
End search.

Lemma sorted_vget (l : list Z) i j :
  Sorted Z.le l -> 0 <= i <= j -> j < vlen l -> vget l i <= vget l j.
Proof.
  intros Hs Hij Hj. apply Sorted_StronglySorted in Hs; [|intros ? ? ?; lia].
  revert i j Hij Hj. induction Hs as [|x l Hs IH Hf]; intros i j Hij Hj.
  { unfold vlen in Hj. simpl in Hj. lia. }
  rewrite vlen_cons in Hj. destruct (decide (j = 0)) as [->|Hj0]; [assert (i = 0) as -> by lia; lia|].
  rewrite (vget_cons_S _ _ j) by lia. destruct (decide (i = 0)) as [->|Hi0].
  - rewrite vget_cons_0. rewrite Forall_forall in Hf. apply Hf. apply elem_of_vget. exists (j - 1). split; [lia|done].
  - rewrite vget_cons_S by lia. apply IH; lia.
Qed.

(** A test holds when the masked word is among its values. *)
Lemma ztest_spec z pr vals data :
  nvalues z pr = vlen vals ->
  (forall c, 0 <= c < vlen vals -> vget z (pr + 4 + c) = vget vals c) ->
  (MIN_BINARY_SEARCH <= vlen vals -> Sorted Z.le vals) ->
  ztest z pr data = bool_decide (data ∈ vals).
Proof.
  intros Hn Hv Hs. unfold ztest. rewrite Hn. pose proof (vlen_nonneg vals).
  apply eq_true_iff_eq. rewrite bool_decide_eq_true, elem_of_vget. cbn [PERFORM_BINARY_SEARCH negb orb].
  destruct (Z.ltb_spec (vlen vals) MIN_BINARY_SEARCH) as [Hlt|Hge].
  - pose proof (linear_search_spec z (pr + 4) vals Hv (Z.to_nat (vlen vals)) 0 data ltac:(lia) ltac:(lia)) as Hl.
    by rewrite Z.add_0_r in Hl.
  - pose proof (binary_search_spec z (pr + 4) vals Hv (S (Z.to_nat (vlen vals))) 0 (vlen vals) data) as Hb.
    rewrite Z.add_0_r in Hb. apply Hb; [|lia|lia|lia]. intros. apply sorted_vget; auto.
Qed.

(** ** Chains *)

Section chains.
Variable l : list Insn.
Hypothesis l_fwd : fwd l.

(** The result [r] is reached from jump [j]. *)
Definition goes (o : Insn -> bool) (j r : Z) : Prop := if 0 <? j then Runs l o j r else r = - j.

Lemma Runs_goes o k r :
  0 <= k < vlen l -> Runs l o k r <-> goes o (jmp (vget l k) (o (vget l k))) r.
Proof.
  intros Hk. unfold goes. destruct (Z.ltb_spec 0 (jmp (vget l k) (o (vget l k)))) as [Hlt|Hge]; split.
  - by apply Runs_next.
  - intros Hr. by eapply Runs_step.
  - intros Hr. inversion Hr; subst; lia.
  - intros ->. by apply Runs_out; [|lia|lia].
Qed.

(** Instruction [k] followed along its failure branch through instructions that
    test the same word under the same mask and succeed to the same place. *)
Inductive chain (k : Z) : list Z -> Z -> Prop :=
  | chain_one : chain k [value (vget l k)] (j_no (vget l k))
  | chain_more vals n :
      chain k vals n -> k < n < vlen l -> j_yes (vget l n) = j_yes (vget l k) ->
      offset (vget l n) = offset (vget l k) -> mask (vget l n) = mask (vget l k) ->
      chain k (vals ++ [value (vget l n)]) (j_no (vget l n)).

Lemma chain_after k vals no : 0 <= k < vlen l -> chain k vals no -> no <= 0 \/ k < no < vlen l.
Proof.
  intros Hk Hc. destruct Hc as [|vals n _ Hn _ _ _].
  - apply (l_fwd k false Hk).
  - destruct (l_fwd n false ltac:(lia)) as [H|H]; cbn in H; [by left|right; lia].
Qed.

(** What a packet answers: a short word takes the short output, other words are
    compared. *)
Definition answers (o : Insn -> bool) (d : Z -> Z) (short : Z -> Z -> bool) : Prop :=
  forall k, 0 <= k < vlen l -> let e := vget l k in
    o e = if short (offset e) (mask e) then short_output e else wtest d e.

(** Instructions that may share a block agree on short packets. *)
Definition short_uniform (short : Z -> Z -> bool) : Prop :=
  forall i j, 0 <= i < vlen l -> 0 <= j < vlen l -> offset (vget l i) = offset (vget l j) ->
    mask (vget l i) = mask (vget l j) -> j_yes (vget l i) = j_yes (vget l j) ->
    short (offset (vget l i)) (mask (vget l i)) = true -> short_output (vget l i) = short_output (vget l j).

Lemma chain_goes o d short k vals no r :
  answers o d short -> short_uniform short -> 0 <= k < vlen l -> chain k vals no ->
  let e := vget l k in
  Runs l o k r <->
  goes o (if (if short (offset e) (mask e) then short_output e else bool_decide (d (offset e) .& mask e ∈ vals))
          then j_yes e else no) r.
Proof.
  intros Ho Hu Hk Hc e. induction Hc as [|vals n Hc IH Hn Hy Hoff Hm].
  - rewrite Runs_goes by done. rewrite Ho by done. fold e. unfold jmp. destruct (short (offset e) (mask e)); [done|].
    unfold wtest. destruct (Z.eqb_spec (d (offset e) .& mask e) (value e)) as [He|Hne].
    + rewrite bool_decide_true; [done|]. rewrite He. by apply list_elem_of_here.
    + rewrite bool_decide_false; [done|]. rewrite list_elem_of_singleton. done.
  - rewrite IH. assert (Hstep : goes o n r <-> goes o (jmp (vget l n) (o (vget l n))) r).
    { unfold goes at 1. rewrite (proj2 (Z.ltb_lt 0 n)) by lia. apply Runs_goes. lia. }
    destruct (short (offset e) (mask e)) eqn:Es.
    + destruct (short_output e) eqn:Eo; [done|]. rewrite Hstep, Ho by lia. rewrite Hoff, Hm. fold e. rewrite Es.
      rewrite <- (Hu k n Hk ltac:(lia)) by done. fold e. by rewrite Eo.
    + set (x := d (offset e) .& mask e) in *. destruct (decide (x ∈ vals)) as [Hin|Hin].
      { rewrite !bool_decide_true; [done| |done]. apply elem_of_app. by left. }
      rewrite (bool_decide_false (x ∈ vals)) by done. rewrite Hstep, Ho by lia. cbv zeta. rewrite Hoff, Hm. fold e.
      rewrite Es. unfold wtest. rewrite Hoff, Hm. fold e. fold x.
      destruct (Z.eqb_spec x (value (vget l n))) as [He|Hne]; cbn [jmp].
      * rewrite bool_decide_true; [by rewrite Hy|]. apply elem_of_app. right. by apply list_elem_of_singleton.
      * rewrite bool_decide_false; [done|]. rewrite elem_of_app, list_elem_of_singleton. by intros [?|?].
Qed.
End chains.

(** ** Words in vectors *)

Lemma vset_middle {A} (l : list A) x r y : vset (l ++ x :: r) (vlen l) y = l ++ y :: r.
Proof.
  unfold vset. rewrite (proj2 (Z.leb_le 0 (vlen l))) by (unfold vlen; lia).
  unfold vlen. rewrite Nat2Z.id. rewrite insert_app_r_alt by lia. by rewrite Nat.sub_diag.
Qed.

Lemma vset_middle1 {A} (l : list A) x x' r y : vset (l ++ x :: x' :: r) (vlen l + 1) y = l ++ x :: y :: r.
Proof.
  pose proof (vset_middle (l ++ [x]) x' r y) as Hm. rewrite <- !app_assoc in Hm. cbn [app] in Hm.
  replace (vlen l + 1) with (vlen (l ++ [x])); [done|]. unfold vlen. rewrite length_app. cbn. lia.
Qed.

Lemma vget_middle (l r : list Z) x c : 0 <= c -> vget (l ++ x :: r) (vlen l + c) = vget (x :: r) c.
Proof. intros Hc. rewrite vget_app_r by lia. f_equal. lia. Qed.

(** ** Blocks *)

(** Instruction [b_k], the values it and the instructions it absorbed test for,
    and where the last of them jumps on failure. *)
Record block := mkBlock { b_k : Z; b_vals : list Z; b_no : Z }.

Section blocks.
Variable qsort : list Z -> list Z.
Variable l : list Insn.
Variables (pbs : bool) (mbs : Z).

Record words_ok : Prop := {
  wo_fwd : fwd l;
  wo_size : 0 < vlen l <= 32766;
  wo_offset k : 0 <= k < vlen l -> 0 <= offset (vget l k) < 32768;
  wo_jump k d : 0 <= k < vlen l -> -2147483648 <= jmp (vget l k) d < 2147483648
}.

Hypothesis l_ok : words_ok.

Definition header (k n : Z) : Z :=
  offset (vget l k) + (if short_output (vget l k) then 65536 else 0) + 131072 * n.

Definition encode (b : block) (vals : list Z) : list Z :=
  header (b_k b) (vlen (b_vals b)) :: u32 (b_no b) :: u32 (j_yes (vget l (b_k b))) :: mask (vget l (b_k b)) :: vals.

Definition final_values (vals : list Z) : list Z := if pbs && (mbs <=? vlen vals) then qsort vals else vals.

Definition absorbs (w : list Z) (k no : Z) : bool :=
  (0 <? no) && (vget w no =? 1) && (j_yes (vget l no) =? j_yes (vget l k))
  && (offset (vget l no) =? offset (vget l k)) && (mask (vget l no) =? mask (vget l k)).

(** [merge_loop] on blocks. *)
Fixpoint absorb (fuel : nat) (b : block) (w : list Z) : block * list Z :=
  match fuel with
  | O => (b, w)
  | S fuel' =>
      let no := b_no b in
      if absorbs w (b_k b) no
      then absorb fuel' (mkBlock (b_k b) (b_vals b ++ [value (vget l no)]) (j_no (vget l no)))
             (vset w no (vget w no - 1))
      else (b, w)
  end.

Definition block_ok (b : block) : Prop :=
  0 <= b_k b < vlen l /\ chain l (b_k b) (b_vals b) (b_no b) /\ -2147483648 <= b_no b < 2147483648.

Lemma absorbs_next w b :
  block_ok b -> absorbs w (b_k b) (b_no b) = true ->
  b_k b < b_no b < vlen l /\ vget w (b_no b) = 1
  /\ block_ok (mkBlock (b_k b) (b_vals b ++ [value (vget l (b_no b))]) (j_no (vget l (b_no b)))).
Proof.
  intros (Hk & Hc & Hr) Ha. unfold absorbs in Ha. bprop.
  destruct (chain_after l (wo_fwd l_ok) _ _ _ Hk Hc) as [|Hno]; [lia|].
  split; [done|]. split; [done|]. split; [done|]. cbn [b_k b_vals b_no]. split; [by constructor|].
  apply (wo_jump l_ok _ false). lia.
Qed.

Lemma absorb_ok fuel b w :
  block_ok b -> block_ok (absorb fuel b w).1 /\ b_k (absorb fuel b w).1 = b_k b.
Proof.
  revert b w. induction fuel as [|fuel IH]; intros b w Hb; [done|]. cbn [absorb].
  destruct (absorbs w (b_k b) (b_no b)) eqn:Ea; [|done].
  destruct (absorbs_next w b Hb Ea) as (_ & _ & Hb'). by apply (IH _ _ Hb').
Qed.

Lemma header_step k n :
  0 <= k < vlen l -> 0 <= n < 32767 -> u32 (header k n + 131072) = header k (n + 1).
Proof.
  intros Hk Hn. pose proof (wo_offset l_ok k Hk). unfold header. apply u32_small || rewrite u32_small;
    destruct (short_output (vget l k)); lia.
Qed.

Lemma encode_head z0 b vals rest : vget (z0 ++ encode b vals ++ rest) (vlen z0) = header (b_k b) (vlen (b_vals b)).
Proof.
  rewrite <- (Z.add_0_r (vlen z0)). unfold encode. cbn [app]. rewrite vget_middle by lia. apply vget_cons_0.
Qed.

Lemma merge_loop_absorb fuel z0 b w :
  block_ok b -> vlen (b_vals b) + Z.of_nat fuel <= 32767 ->
  merge_loop fuel l (vget l (b_k b)) (vlen z0) (z0 ++ encode b (b_vals b)) w
  = let '(b', w') := absorb fuel b w in (z0 ++ encode b' (b_vals b'), w').
Proof.
  revert b w. induction fuel as [|fuel IH]; intros b w Hb Hn; [done|]. cbn [merge_loop absorb].
  assert (Hno : i32 (vget (z0 ++ encode b (b_vals b)) (vlen z0 + 1)) = b_no b).
  { unfold encode. rewrite vget_middle by lia. apply i32_u32. apply Hb. }
  rewrite Hno. fold (absorbs w (b_k b) (b_no b)). destruct (absorbs w (b_k b) (b_no b)) eqn:Ea; [|done].
  destruct (absorbs_next w b Hb Ea) as (_ & _ & Hb'). pose proof (vlen_nonneg (b_vals b)).
  set (x := vget l (b_no b)) in *. set (b' := mkBlock (b_k b) (b_vals b ++ [value x]) (j_no x)) in *.
  assert (Hz : vpush (vset (vset (z0 ++ encode b (b_vals b)) (vlen z0)
      (u32 (vget (z0 ++ encode b (b_vals b)) (vlen z0) + 131072))) (vlen z0 + 1) (u32 (j_no x))) (value x)
    = z0 ++ encode b' (b_vals b')).
  { pose proof (encode_head z0 b (b_vals b) []) as Hh. rewrite app_nil_r in Hh.
    rewrite Hh, header_step by (apply Hb || lia). unfold encode at 1. rewrite vset_middle, vset_middle1.
    unfold vpush. rewrite <- app_assoc. unfold encode. cbn [app b' b_k b_vals b_no]. by rewrite vlen_app. }
  rewrite Hz. apply (IH b' _ Hb'). unfold b'. cbn [b_vals]. rewrite vlen_app. cbn. change (vlen [value x]) with 1. lia.
Qed.

Lemma nvalues_encode z0 b vals rest :
  block_ok b -> vlen (b_vals b) <= 32767 -> nvalues (z0 ++ encode b vals ++ rest) (vlen z0) = vlen (b_vals b).
Proof.
  intros Hb Hn. unfold nvalues. rewrite encode_head. unfold header.
  pose proof (wo_offset l_ok (b_k b) ltac:(apply Hb)). rewrite Z.shiftr_div_pow2 by lia. change (2 ^ 17) with 131072.
  rewrite Z.mul_comm, Z.div_add by lia. rewrite Z.div_small by (destruct (short_output _); lia). lia.
Qed.

Lemma sort_values_encode z0 b :
  block_ok b -> vlen (b_vals b) <= 32767 ->
  sort_values qsort (z0 ++ encode b (b_vals b)) (vlen z0) = z0 ++ encode b (qsort (b_vals b)).
Proof.
  intros Hb Hn. unfold sort_values.
  pose proof (nvalues_encode z0 b (b_vals b) [] Hb Hn) as Hnv. rewrite app_nil_r in Hnv. rewrite Hnv.
  assert (Hsplit : z0 ++ encode b (b_vals b) = (z0 ++ encode b []) ++ b_vals b) by (rewrite <- app_assoc; done).
  assert (Hlen : length (z0 ++ encode b []) = Z.to_nat (vlen z0 + 4)) by (rewrite length_app; unfold vlen; cbn; lia).
  rewrite Hsplit, <- Hlen, take_app_length, drop_app_length. unfold vlen. rewrite Nat2Z.id, take_ge, drop_ge by lia.
  rewrite app_nil_r, <- app_assoc. done.
Qed.
End blocks.
