(* ===== verification/CompressRun.v ===== *)
(** * Running a compressed program

    Every jump of an emitted block leads to an emitted block: the [wanted]
    counts bound the jumps that lead to an instruction, so an instruction is
    absorbed only when nothing else needs it.  With the layout of the words this
    gives the equivalence of the compressed and the original program. *)

From stdpp Require Import sorting.
From S2P Require Import Prelude Packet Insn Program QSort QSortCorrect Compress CompressCorrect.
Local Open Scope word_scope.
Local Open Scope Z_scope.

(** ** Counting jumps *)

Definition ind (j s : Z) : Z := if decide (j = s) then 1 else 0.

Lemma ind_nonneg j s : 0 <= ind j s.
Proof. unfold ind. case_decide; lia. Qed.

Section live.
Variable l : list Insn.
Hypothesis l_ok : words_ok l.

Definition edges (k s : Z) : Z := ind (j_no (vget l k)) s + ind (j_yes (vget l k)) s.

(** Jumps to [s] of the instructions from [i] on that are still wanted. *)
Definition insn_edges (i : Z) (w : list Z) (s : Z) : Z :=
  sumf (fun u => if vget w u =? 0 then 0 else edges u s) (seqZ i (vlen l - i)).

Definition block_edges (bs : list (option block)) (s : Z) : Z :=
  sumf (fun ob => match ob with
                  | Some b => ind (b_no b) s + ind (j_yes (vget l (b_k b))) s
                  | None => 0 end) bs.

Record counted (i : Z) (bs : list (option block)) (w : list Z) : Prop := {
  c_len : vlen w = vlen l + 1;
  c_nonneg u : 0 <= u < vlen w -> 0 <= vget w u;
  c_bound s : 0 < s < vlen l -> block_edges bs s + insn_edges i w s <= vget w s
}.

Lemma edges_nonneg k s : 0 <= edges k s.
Proof. unfold edges. pose proof (ind_nonneg (j_no (vget l k)) s). pose proof (ind_nonneg (j_yes (vget l k)) s). lia. Qed.

Lemma insn_edges_nonneg i w s : 0 <= insn_edges i w s.
Proof.
  unfold insn_edges, sumf. induction (seqZ i (vlen l - i)) as [|u us IH]; cbn; [lia|].
  pose proof (edges_nonneg u s). destruct (vget w u =? 0); lia.
Qed.

Lemma insn_edges_step i w s :
  0 <= i < vlen l ->
  insn_edges i w s = (if vget w i =? 0 then 0 else edges i s) + insn_edges (i + 1) w s.
Proof.
  intros Hi. unfold insn_edges. rewrite (seqZ_cons i) by lia. cbn.
  by replace (Z.succ i) with (i + 1) by lia; replace (Z.pred (vlen l - i)) with (vlen l - (i + 1)) by lia.
Qed.

(** One jump more. *)
Definition add_jump (j : Z) (w : list Z) : list Z := if 0 <? j then vset w j (vget w j + 1) else w.

Lemma add_jump_get j w s :
  j <= 0 \/ j < vlen w -> 0 < s < vlen w -> vget (add_jump j w) s = vget w s + ind j s.
Proof.
  intros Hj Hs. unfold add_jump, ind. destruct (Z.ltb_spec 0 j).
  - case_decide as Hd; [subst; rewrite vget_vset_eq by lia; done|rewrite vget_vset_ne by lia; lia].
  - rewrite decide_False by lia. lia.
Qed.

Lemma add_jump_other j w s : j <= 0 \/ j <> s -> 0 <= s -> vget (add_jump j w) s = vget w s.
Proof.
  intros Hj Hs. unfold add_jump. destruct (Z.ltb_spec 0 j); [|done]. apply vget_vset_ne; lia.
Qed.

Lemma add_jump_len j w : vlen (add_jump j w) = vlen w.
Proof. unfold add_jump. destruct (0 <? j); [apply vlen_vset|done]. Qed.

Lemma count_wanted_counted : counted 0 [] (count_wanted l) /\ vget (count_wanted l) 0 = 1.
Proof.
  pose proof (wo_size l l_ok) as Hsz. pose proof (wo_fwd l l_ok) as Hf.
  pose (P := fun (m : Z) (w : list Z) => vlen w = vlen l + 1 /\ (forall u, 0 <= u < vlen w -> 0 <= vget w u)
    /\ vget w 0 = 1
    /\ forall s, 0 < s < vlen l -> sumf (fun u => if vget w u =? 0 then 0 else edges u s) (seqZ 0 m) <= vget w s).
  assert (Hp : P (vlen l) (count_wanted l)).
  { unfold count_wanted. apply for_up_inv; [lia| |].
    - assert (Hg : forall u, 0 <= u < vlen l + 1 -> vget (vset (replicate (S (length l)) 0) 0 1) u = if decide (u = 0) then 1 else 0).
      { intros u Hu. assert (Hl : vlen (replicate (S (length l)) 0) = vlen l + 1) by (rewrite vlen_replicate; unfold vlen; lia).
        case_decide as Hd; [subst; apply vget_vset_eq; lia|]. rewrite vget_vset_ne by lia. apply vget_replicate. unfold vlen in Hu. lia. }
      split; [rewrite vlen_vset, vlen_replicate; unfold vlen; lia|]. split; [|split].
      + intros u Hu. rewrite vlen_vset, vlen_replicate in Hu. rewrite Hg by (unfold vlen; lia). case_decide; lia.
      + rewrite Hg by lia. done.
      + intros s Hs. rewrite Hg by lia. rewrite decide_False by lia. change (seqZ 0 0) with (@nil Z). cbn [sumf foldr]. lia.
    - intros m w Hm (Hl & Hn & H0 & Hb). set (e := vget l m).
      assert (Hno : j_no e <= 0 \/ m < j_no e < vlen l) by exact (Hf m false Hm).
      assert (Hyes : j_yes e <= 0 \/ m < j_yes e < vlen l) by exact (Hf m true Hm).
      set (w2 := add_jump (j_yes e) (add_jump (j_no e) w)).
      change (P (m + 1) (if negb (vget w m =? 0) then w2 else w)).
      assert (Hsum : forall w' s, (forall u, 0 <= u <= m -> vget w' u = vget w u) ->
        sumf (fun u => if vget w' u =? 0 then 0 else edges u s) (seqZ 0 (m + 1))
        = sumf (fun u => if vget w u =? 0 then 0 else edges u s) (seqZ 0 m) + (if vget w m =? 0 then 0 else edges m s)).
      { clear Hb. intros w' s Hw. rewrite seqZ_app, sumf_app by lia. f_equal.
        - apply sumf_ext. intros u Hu. apply elem_of_seqZ in Hu. by rewrite Hw by lia.
        - rewrite seqZ_cons by lia. rewrite Z.add_0_l. change (seqZ (Z.succ m) (Z.pred 1)) with (@nil Z).
          cbn [sumf foldr]. rewrite Hw by lia. lia. }
      destruct (Z.eqb_spec (vget w m) 0) as [Hz|Hz]; cbn [negb].
      + split; [done|]. split; [done|]. split; [done|]. intros s Hs.
        pose proof (Hsum w s ltac:(done)) as Hw. rewrite Hw. specialize (Hb s Hs). lia.
      + assert (Hg : forall s, 0 < s < vlen w -> vget w2 s = vget w s + edges m s).
        { intros s Hs. unfold w2, edges. fold e. rewrite add_jump_get by (rewrite ?add_jump_len; lia).
          rewrite add_jump_get by lia. lia. }
        assert (Hlow : forall u, 0 <= u <= m -> vget w2 u = vget w u).
        { intros u Hu. unfold w2. by rewrite !add_jump_other by lia. }
        split; [unfold w2; by rewrite !add_jump_len|]. split; [|split; [by rewrite Hlow by lia|]].
        * unfold w2. rewrite !add_jump_len. fold w2. intros u Hu. specialize (Hn u Hu).
          destruct (decide (u = 0)) as [->|]; [by rewrite Hlow by lia|].
          rewrite Hg by lia. pose proof (edges_nonneg m u). lia.
        * intros s Hs. rewrite (Hsum w2 s Hlow). rewrite Hg by lia.
          specialize (Hb s Hs). lia. }
  destruct Hp as (Hl & Hn & H0 & Hb). split; [|done]. constructor; [done|done|]. intros s Hs. cbn.
  unfold insn_edges. rewrite Z.sub_0_r. by apply Hb.
Qed.

(** ** Emitting blocks *)

Lemma block_edges_snoc bs ob s :
  block_edges (bs ++ [ob]) s
  = block_edges bs s + match ob with
                       | Some b => ind (b_no b) s + ind (j_yes (vget l (b_k b))) s
                       | None => 0 end.
Proof. unfold block_edges. rewrite sumf_app. cbn. lia. Qed.

Definition first_block (i : Z) : block := mkBlock i [value (vget l i)] (j_no (vget l i)).

Lemma counted_skip i bs w :
  0 <= i < vlen l -> vget w i = 0 -> counted i bs w -> counted (i + 1) (bs ++ [None]) w.
Proof.
  intros Hi Hz [Hl Hn Hb]. constructor; [done|done|]. intros s Hs. specialize (Hb s Hs).
  rewrite insn_edges_step, Hz in Hb by done. rewrite block_edges_snoc. cbn [Z.eqb] in Hb. lia.
Qed.

Lemma counted_start i bs w :
  0 <= i < vlen l -> vget w i <> 0 -> counted i bs w -> counted (i + 1) (bs ++ [Some (first_block i)]) w.
Proof.
  intros Hi Hz [Hl Hn Hb]. constructor; [done|done|]. intros s Hs. specialize (Hb s Hs).
  rewrite insn_edges_step in Hb by done. rewrite (proj2 (Z.eqb_neq _ _) Hz) in Hb.
  rewrite block_edges_snoc. unfold edges in Hb. cbn [first_block b_no b_k]. lia.
Qed.

Lemma counted_absorb i bs b w :
  block_ok l b -> b_k b = i -> absorbs l w (b_k b) (b_no b) = true -> counted (i + 1) (bs ++ [Some b]) w ->
  counted (i + 1) (bs ++ [Some (mkBlock (b_k b) (b_vals b ++ [value (vget l (b_no b))]) (j_no (vget l (b_no b))))])
    (vset w (b_no b) (vget w (b_no b) - 1)).
Proof.
  intros Hbk Hi Ha [Hl Hn Hb]. destruct (absorbs_next l l_ok w b Hbk Ha) as (Ht & Hw & _). set (t := b_no b) in *.
  rewrite Hi in Ht. destruct Hbk as (Hk & _). constructor.
  - by rewrite vlen_vset.
  - rewrite vlen_vset. intros u Hu. destruct (decide (u = t)) as [->|]; [rewrite vget_vset_eq by lia; lia|].
    rewrite vget_vset_ne by lia. by apply Hn.
  - intros s Hs. specialize (Hb s Hs). rewrite block_edges_snoc in *. cbn [b_no b_k] in *. fold t in Hb.
    assert (Hws : vget (vset w t (vget w t - 1)) s = vget w s - ind t s).
    { unfold ind. case_decide as Hd; [subst s; rewrite vget_vset_eq by lia; lia|]. rewrite vget_vset_ne by lia. lia. }
    rewrite Hws.
    assert (He : insn_edges (i + 1) w s - edges t s = insn_edges (i + 1) (vset w t (vget w t - 1)) s).
    { unfold insn_edges. pose proof (sumf_change (fun u => if vget w u =? 0 then 0 else edges u s)
        (fun u => if vget (vset w t (vget w t - 1)) u =? 0 then 0 else edges u s) (seqZ (i + 1) (vlen l - (i + 1))) t) as Hch.
      cbv beta in Hch. rewrite vget_vset_eq in Hch by lia. rewrite Hw in Hch |- *. cbn [Z.eqb Z.sub Z.add Z.opp Z.pos_sub] in Hch.
      change (1 - 1 =? 0) with true in Hch. rewrite Hch; [lia|apply NoDup_seqZ|apply elem_of_seqZ; lia|].
      intros u Hu Hne. apply elem_of_seqZ in Hu. by rewrite vget_vset_ne by lia. }
    unfold edges in He. pose proof (ind_nonneg (j_yes (vget l t)) s). lia.
Qed.

Record emitted (i : Z) (bs : list (option block)) (w : list Z) : Prop := {
  em_len : vlen bs = i;
  em_block k b : 0 <= k < i -> vget bs k = Some b -> block_ok l b /\ b_k b = k /\ vlen (b_vals b) <= 32767;
  em_counted : counted i bs w;
  em_first : if decide (i = 0) then vget w 0 = 1 else exists b, vget bs 0 = Some b;
  em_closed k b t : 0 <= k < i -> vget bs k = Some b -> t = b_no b \/ t = j_yes (vget l k) ->
    0 < t < i -> exists b', vget bs t = Some b'
}.

Lemma absorb_counted fuel i bs b w :
  block_ok l b -> b_k b = i -> counted (i + 1) (bs ++ [Some b]) w ->
  counted (i + 1) (bs ++ [Some (absorb l fuel b w).1]) (absorb l fuel b w).2.
Proof.
  revert b w. induction fuel as [|fuel IH]; intros b w Hb Hi Hc; [done|]. cbn [absorb].
  destruct (absorbs l w (b_k b) (b_no b)) eqn:Ea; [|done].
  destruct (absorbs_next l l_ok w b Hb Ea) as (_ & _ & Hb'). apply IH; [done|done|].
  by apply counted_absorb.
Qed.

Lemma absorb_len fuel b w : vlen (b_vals (absorb l fuel b w).1) <= vlen (b_vals b) + Z.of_nat fuel.
Proof.
  revert b w. induction fuel as [|fuel IH]; intros b w; cbn [absorb fst]; [lia|]. destruct (absorbs _ _ _ _); [|cbn [fst]; lia].
  etransitivity; [apply IH|]. cbn [b_vals]. rewrite vlen_app. change (vlen [value (vget l (b_no b))]) with 1. lia.
Qed.

Lemma first_block_ok i : 0 <= i < vlen l -> block_ok l (first_block i).
Proof. intros Hi. split; [done|]. split; [constructor|]. apply (wo_jump l l_ok i false Hi). Qed.

(** A block's jumps go forward. *)
Lemma block_forward b t :
  block_ok l b -> t = b_no b \/ t = j_yes (vget l (b_k b)) -> 0 < t -> b_k b < t < vlen l.
Proof.
  intros (Hk & Hc & _) [->| ->] Ht.
  - destruct (chain_after l (wo_fwd l l_ok) _ _ _ Hk Hc); lia.
  - destruct (wo_fwd l l_ok (b_k b) true Hk); cbn in *; lia.
Qed.

(** A jump of an emitted block to [s] keeps [s] wanted. *)
Lemma block_edge_wanted i bs w k b s :
  emitted i bs w -> 0 <= k < i -> vget bs k = Some b -> s = b_no b \/ s = j_yes (vget l k) ->
  0 < s < vlen l -> vget w s <> 0.
Proof.
  intros [Hl Hb [Hwl Hn Hc] _ _] Hk Hbk Hs Hr. specialize (Hc s Hr). pose proof (insn_edges_nonneg i w s).
  destruct (Hb k b Hk Hbk) as (_ & Hkk & _).
  assert (Hge : 1 <= block_edges bs s); [|lia].
  assert (Hin : Some b ∈ bs). { rewrite <- Hbk. apply (list_elem_of_lookup_2 _ (Z.to_nat k)), vget_some. lia. }
  clear -Hin Hs Hkk. subst k.
  assert (Hnn : forall us, 0 <= block_edges us s).
  { induction us as [|[x|] us IHus]; unfold block_edges, sumf in *; cbn; [lia| |lia].
    pose proof (ind_nonneg (b_no x) s). pose proof (ind_nonneg (j_yes (vget l (b_k x))) s). lia. }
  induction bs as [|ob bs IH]; [by apply not_elem_of_nil in Hin|].
  assert (Hcons : block_edges (ob :: bs) s = match ob with
    | Some b => ind (b_no b) s + ind (j_yes (vget l (b_k b))) s | None => 0 end + block_edges bs s) by done.
  rewrite Hcons. apply elem_of_cons in Hin as [<-|Hin].
  - pose proof (Hnn bs). pose proof (ind_nonneg (b_no b) s). pose proof (ind_nonneg (j_yes (vget l (b_k b))) s).
    assert (ind (b_no b) s = 1 \/ ind (j_yes (vget l (b_k b))) s = 1); [|lia].
    unfold ind. destruct Hs as [<-|<-]; [left|right]; by rewrite decide_True.
  - specialize (IH Hin). destruct ob as [y|]; [|lia].
    pose proof (ind_nonneg (b_no y) s). pose proof (ind_nonneg (j_yes (vget l (b_k y))) s). lia.
Qed.

Definition emit_abs (i : Z) (st : list (option block) * list Z) : list (option block) * list Z :=
  let '(bs, w) := st in
  if vget w i =? 0 then (bs ++ [None], w)
  else let '(b, w') := absorb l (length l) (first_block i) w in (bs ++ [Some b], w').

Lemma emit_abs_emitted i bs w :
  0 <= i < vlen l -> emitted i bs w -> emitted (i + 1) (emit_abs i (bs, w)).1 (emit_abs i (bs, w)).2.
Proof.
  intros Hi Hem. pose proof Hem as [Hl Hb Hc H0 Hcl]. cbn [emit_abs].
  set (ob := if vget w i =? 0 then None else Some (absorb l (length l) (first_block i) w).1).
  set (w' := if vget w i =? 0 then w else (absorb l (length l) (first_block i) w).2).
  assert (Heq : (if vget w i =? 0 then (bs ++ [None], w)
    else let '(b, w'') := absorb l (length l) (first_block i) w in (bs ++ [Some b], w'')) = (bs ++ [ob], w')).
  { unfold ob, w'. destruct (vget w i =? 0); [done|]. by destruct (absorb _ _ _ _). }
  rewrite Heq. cbn [fst snd]. clear Heq.
  assert (Hlast : vget (bs ++ [ob]) i = ob) by (rewrite vget_app_r by lia; by rewrite Hl, Z.sub_diag).
  assert (Hold : forall k, 0 <= k < i -> vget (bs ++ [ob]) k = vget bs k) by (intros k Hk; apply vget_app_l; lia).
  destruct (absorb_ok l l_ok (length l) (first_block i) w (first_block_ok i Hi)) as [Hnb Hnk].
  constructor.
  - rewrite vlen_app, Hl. done.
  - intros k b Hk Hkb. destruct (decide (k = i)) as [->|Hne]; [|rewrite Hold in Hkb by lia; apply Hb; [lia|done]].
    rewrite Hlast in Hkb. unfold ob in Hkb. destruct (vget w i =? 0); [done|]. injection Hkb as <-.
    split; [done|]. split; [done|]. etransitivity; [apply absorb_len|]. cbn [first_block b_vals].
    change (vlen [value (vget l i)]) with 1. pose proof (wo_size l l_ok). unfold vlen in *. lia.
  - unfold ob, w'. destruct (Z.eqb_spec (vget w i) 0) as [Hz|Hz].
    + by apply counted_skip.
    + apply absorb_counted; [by apply first_block_ok|done|]. by apply counted_start.
  - rewrite decide_False by lia. destruct (decide (i = 0)) as [->|Hne].
    + rewrite Hlast. unfold ob. rewrite H0. cbn [Z.eqb]. by eexists.
    + by rewrite Hold by lia.
  - intros k b t Hk Hkb Ht Hr. destruct (decide (k = i)) as [->|Hne].
    + exfalso. rewrite Hlast in Hkb. unfold ob in Hkb. destruct (vget w i =? 0); [done|]. injection Hkb as <-.
      cbn [first_block b_k] in Hnk.
      assert (Hf : b_k (absorb l (length l) (first_block i) w).1 < t < vlen l); [|lia].
      apply block_forward; [done|by rewrite Hnk|lia].
    + rewrite Hold in Hkb by lia. destruct (decide (t = i)) as [->|Hnt].
      * rewrite Hlast. unfold ob. pose proof (block_edge_wanted i bs w k b i Hem ltac:(lia) Hkb Ht ltac:(lia)) as Hw.
        rewrite (proj2 (Z.eqb_neq _ _) Hw). by eexists.
      * destruct (Hcl k b t ltac:(lia) Hkb Ht ltac:(lia)) as [b' Hb']. exists b'. by rewrite Hold by lia.
Qed.

Lemma emit_all_emitted :
  let st := for_up 0 (vlen l) emit_abs ([], count_wanted l) in emitted (vlen l) st.1 st.2.
Proof.
  pose proof (wo_size l l_ok). destruct count_wanted_counted as [Hc H0].
  apply (for_up_inv (fun i st => emitted i st.1 st.2)); [lia| |].
  - constructor; cbn; [done|intros; lia|done|by rewrite decide_True|intros; lia].
  - intros i [bs w] Hi He. by apply emit_abs_emitted.
Qed.
End live.

(** ** Layout of the words *)

Lemma for_up_rel {S T} (P : Z -> S -> T -> Prop) lo hi f g s t :
  lo <= hi -> P lo s t ->
  (forall i s t, lo <= i < hi -> P i s t -> P (i + 1) (f i s) (g i t)) ->
  P hi (for_up lo hi f s) (for_up lo hi g t).
Proof.
  intros Hle Hlo Hstep.
  assert (Hn : exists n, hi - lo = Z.of_nat n) by (exists (Z.to_nat (hi - lo)); lia). destruct Hn as [n Hn].
  revert lo s t Hle Hlo Hstep Hn. induction n as [|n IH]; intros lo s t Hle Hlo Hstep Hn.
  - assert (hi = lo) as -> by lia. by rewrite !for_up_nil by lia.
  - rewrite !(for_up_cons lo hi) by lia. apply IH; [lia|apply Hstep; [lia|done]|intros; apply Hstep; [lia|done]|lia].
Qed.

Section layout.
Variable qsort : list Z -> list Z.
Context `{!Sorter qsort}.
Variable l : list Insn.
Hypothesis l_ok : words_ok l.
Variables (pbs : bool) (mbs : Z).

Definition words_of (ob : option block) : list Z :=
  match ob with Some b => encode l b (final_values qsort pbs mbs (b_vals b)) | None => [] end.

Definition code (bs : list (option block)) : list Z := concat (map words_of bs).

(** Where block [k] starts. *)
Definition at_ (bs : list (option block)) (k : Z) : Z := vlen (code (take (Z.to_nat k) bs)).

Lemma final_len v : vlen (final_values qsort pbs mbs v) = vlen v.
Proof. unfold final_values, vlen. destruct (pbs && _); [by rewrite sorter_perm|done]. Qed.

Lemma code_app bs cs : code (bs ++ cs) = code bs ++ code cs.
Proof. unfold code. by rewrite map_app, concat_app. Qed.

Lemma code_one ob : code [ob] = words_of ob.
Proof. unfold code. cbn. apply app_nil_r. Qed.

Lemma words_len ob : vlen (words_of ob) = match ob with Some b => 4 + vlen (b_vals b) | None => 0 end.
Proof. destruct ob as [b|]; [|done]. unfold words_of, encode. rewrite !vlen_cons, final_len. lia. Qed.

Lemma at_step bs k :
  0 <= k < vlen bs -> at_ bs (k + 1) = at_ bs k + vlen (words_of (vget bs k)).
Proof.
  intros Hk. unfold at_. replace (Z.to_nat (k + 1)) with (S (Z.to_nat k)) by lia.
  rewrite (take_S_r _ _ (vget bs k)) by (by apply vget_some). by rewrite code_app, vlen_app, code_one.
Qed.

Lemma at_mono bs i j : 0 <= i <= j -> j <= vlen bs -> at_ bs i <= at_ bs j.
Proof.
  intros Hij Hj. assert (Hn : exists n, j = i + Z.of_nat n) by (exists (Z.to_nat (j - i)); lia).
  destruct Hn as [n ->]. induction n as [|n IH]; [rewrite Z.add_0_r; lia|].
  replace (i + Z.of_nat (S n)) with (i + Z.of_nat n + 1) by lia. rewrite at_step by lia.
  pose proof (vlen_nonneg (words_of (vget bs (i + Z.of_nat n)))). specialize (IH ltac:(lia) ltac:(lia)). lia.
Qed.

Lemma at_end bs : at_ bs (vlen bs) = vlen (code bs).
Proof. unfold at_. rewrite take_ge; [done|]. unfold vlen. lia. Qed.

Lemma code_get bs k c :
  0 <= k < vlen bs -> 0 <= c < vlen (words_of (vget bs k)) ->
  vget (code bs) (at_ bs k + c) = vget (words_of (vget bs k)) c.
Proof.
  intros Hk Hc. pose proof (take_drop_middle bs (Z.to_nat k) (vget bs k) (vget_some bs k Hk)) as Hs.
  rewrite <- Hs at 1. rewrite code_app. rewrite vget_app_r by (unfold at_; lia).
  replace (at_ bs k + c - vlen (code (take (Z.to_nat k) bs))) with c by (unfold at_; lia).
  change (vget bs k :: drop (S (Z.to_nat k)) bs) with ([vget bs k] ++ drop (S (Z.to_nat k)) bs).
  rewrite code_app, code_one. apply vget_app_l. lia.
Qed.

Lemma emit_insn_abs i s bs w :
  0 <= i < vlen l -> emitted l i bs w ->
  e_zprog s = code bs -> e_wanted s = w -> e_offsets s = map (at_ bs) (seqZ 0 i) ->
  let s' := emit_insn qsort l pbs mbs i s in
  let st := emit_abs l i (bs, w) in
  e_zprog s' = code st.1 /\ e_wanted s' = st.2 /\ e_offsets s' = map (at_ st.1) (seqZ 0 (i + 1)).
Proof.
  intros Hi Hem Hz Hw Ho. pose proof (em_len _ _ _ _ Hem) as Hl.
  assert (Hoff : forall ob, vpush (map (at_ bs) (seqZ 0 i)) (vlen (code bs)) = map (at_ (bs ++ [ob])) (seqZ 0 (i + 1))).
  { intros ob. rewrite seqZ_app, map_app by lia. unfold vpush. f_equal.
    - apply map_ext_in. intros k Hk. apply list_elem_of_In, elem_of_seqZ in Hk. unfold at_.
      rewrite take_app_le; [done|]. unfold vlen in Hl. lia.
    - rewrite Z.add_0_l. change (seqZ i 1) with [i]. cbn [map]. unfold at_. rewrite take_app_le.
      + by rewrite take_ge by (unfold vlen in Hl; lia).
      + unfold vlen in Hl. lia. }
  unfold emit_insn, emit_abs. rewrite Hz, Hw, Ho. destruct (vget w i =? 0).
  - cbn [fst snd e_zprog e_wanted e_offsets]. rewrite code_app, code_one. cbn [words_of]. rewrite app_nil_r. split; [done|]. split; [done|]. apply Hoff.
  - pose proof (first_block_ok l l_ok i Hi) as Hfb. pose proof (wo_size l l_ok) as Hsz.
    assert (Hstart : vpush (vpush (vpush (vpush (vpush (code bs)
        (u32 (offset (vget l i) + (if short_output (vget l i) then 65536 else 0) + 131072)))
        (u32 (j_no (vget l i)))) (u32 (j_yes (vget l i)))) (mask (vget l i))) (value (vget l i))
      = code bs ++ encode l (first_block l i) (b_vals (first_block l i))).
    { unfold vpush, encode, first_block, header. rewrite <- !app_assoc. cbn [app b_k b_vals b_no].
      change (vlen [value (vget l i)]) with 1. rewrite Z.mul_1_r. pose proof (wo_offset l l_ok i Hi).
      rewrite (u32_small (offset (vget l i) + _ + _)) by (destruct (short_output _); lia). done. }
    rewrite Hstart. pose proof (merge_loop_absorb l l_ok (length l) (code bs) (first_block l i) w Hfb) as Hm.
    cbn [first_block b_k] in Hm. fold (first_block l i) in Hm. rewrite Hm.
    2:{ cbn [first_block b_vals]. change (vlen [value (vget l i)]) with 1. unfold vlen in Hsz. lia. }
    destruct (absorb_ok l l_ok (length l) (first_block l i) w Hfb) as [Hb' _].
    pose proof (absorb_len l (length l) (first_block l i) w) as Hlen.
    destruct (absorb l (length l) (first_block l i) w) as [b w']. cbn [fst snd] in *.
    assert (Hn : vlen (b_vals b) <= 32767).
    { cbn [first_block b_vals] in Hlen. change (vlen [value (vget l i)]) with 1 in Hlen. unfold vlen in *. lia. }
    pose proof (nvalues_encode l l_ok (code bs) b (b_vals b) [] Hb' Hn) as Hnv. rewrite app_nil_r in Hnv.
    rewrite Hnv. cbn [e_zprog e_wanted e_offsets]. split; [|split; [done|apply Hoff]].
    rewrite code_app, code_one. unfold words_of, final_values. destruct (pbs && (mbs <=? vlen (b_vals b))); [|done].
    by apply sort_values_encode.
Qed.

(** The state after the emission loop. *)
Lemma emit_all :
  exists bs w, emitted l (vlen l) bs w
  /\ let s := for_up 0 (vlen l) (emit_insn qsort l pbs mbs) (mkEmit [] (count_wanted l) []) in
     e_zprog s = code bs /\ e_offsets s = map (at_ bs) (seqZ 0 (vlen l)).
Proof.
  pose proof (wo_size l l_ok) as Hsz. destruct (count_wanted_counted l l_ok) as [Hc H0].
  pose proof (for_up_rel (fun i (s : emit_state) (st : list (option block) * list Z) => emitted l i st.1 st.2
    /\ e_zprog s = code st.1 /\ e_wanted s = st.2 /\ e_offsets s = map (at_ st.1) (seqZ 0 i))
    0 (vlen l) (emit_insn qsort l pbs mbs) (emit_abs l) (mkEmit [] (count_wanted l) []) ([], count_wanted l)
    ltac:(lia)) as Hrel. cbv beta in Hrel.
  destruct Hrel as (G1 & G2 & _ & G3).
  - split; [|done]. constructor; cbn; [done|intros; lia|done|by rewrite decide_True|intros; lia].
  - intros i s [bs w] Hi (E1 & E2 & E3 & E4). cbn [fst snd] in *. split; [by apply emit_abs_emitted|].
    by apply (emit_insn_abs i s bs w).
  - set (st := for_up 0 (vlen l) (emit_abs l) ([], count_wanted l)) in *. exists st.1, st.2. done.
Qed.

(** ** Patching *)

Definition patched (bs : list (option block)) (z z' : list Z) (m : Z) : Prop :=
  vlen z' = vlen z
  /\ forall k b c, 0 <= k < vlen bs -> vget bs k = Some b -> 0 <= c < 4 + vlen (b_vals b) ->
     vget z' (at_ bs k + c)
     = if decide (k < m /\ (c = 1 \/ c = 2))
       then patch_jump (map (at_ bs) (seqZ 0 (vlen bs + 1))) (at_ bs k) (vget z (at_ bs k + c))
       else vget z (at_ bs k + c).

Lemma at_vget bs k : 0 <= k <= vlen bs -> vget (map (at_ bs) (seqZ 0 (vlen bs + 1))) k = at_ bs k.
Proof.
  intros Hk. apply vget_lookup; [lia|]. rewrite list_lookup_fmap, lookup_seqZ_lt by lia. cbn. do 2 f_equal. lia.
Qed.

Lemma at_nonneg bs k : 0 <= at_ bs k.
Proof. apply vlen_nonneg. Qed.

(** Blocks do not overlap. *)
Lemma at_apart bs k b c m b' c' :
  0 <= k < vlen bs -> vget bs k = Some b -> 0 <= c < 4 + vlen (b_vals b) ->
  0 <= m < vlen bs -> vget bs m = Some b' -> 0 <= c' < 4 + vlen (b_vals b') ->
  at_ bs k + c = at_ bs m + c' -> k = m.
Proof.
  intros Hk Hb Hc Hm Hb' Hc' He.
  pose proof (at_step bs k Hk) as Hsk. rewrite Hb, words_len in Hsk.
  pose proof (at_step bs m Hm) as Hsm. rewrite Hb', words_len in Hsm.
  destruct (Z.lt_trichotomy k m) as [Hlt|[->|Hgt]]; [|done|].
  - pose proof (at_mono bs (k + 1) m ltac:(lia) ltac:(lia)). lia.
  - pose proof (at_mono bs (m + 1) k ltac:(lia) ltac:(lia)). lia.
Qed.

Lemma patch_insn_patched bs z z' m :
  0 <= m < vlen bs -> vlen z = vlen (code bs) -> patched bs z z' m ->
  patched bs z (patch_insn (map (at_ bs) (seqZ 0 (vlen bs + 1))) m z') (m + 1).
Proof.
  intros Hm Hz [Hl Hg]. unfold patch_insn. rewrite !at_vget by lia. set (offs := map _ _) in *.
  pose proof (at_step bs m Hm) as Hs. rewrite words_len in Hs. pose proof (at_nonneg bs m).
  pose proof (at_mono bs (m + 1) (vlen bs) ltac:(lia) ltac:(lia)) as Hend. rewrite at_end in Hend.
  destruct (vget bs m) as [b|] eqn:Eb.
  - pose proof (vlen_nonneg (b_vals b)). rewrite (proj2 (Z.ltb_lt (at_ bs m) (vlen z'))) by lia.
    rewrite (proj2 (Z.ltb_lt (at_ bs m) (at_ bs (m + 1)))) by lia. cbn [andb]. split; [by rewrite !vlen_vset|].
    intros k b' c Hk Hb' Hc. destruct (decide (k = m)) as [->|Hne].
    + rewrite Eb in Hb'. injection Hb' as <-.
      assert (H1 : vget z' (at_ bs m + 1) = vget z (at_ bs m + 1)) by (rewrite (Hg m b 1) by (done || lia); by rewrite decide_False by lia).
      assert (H2 : vget z' (at_ bs m + 2) = vget z (at_ bs m + 2)) by (rewrite (Hg m b 2) by (done || lia); by rewrite decide_False by lia).
      rewrite H1. rewrite (vget_vset_ne z' (at_ bs m + 1) (at_ bs m + 2)) by lia. rewrite H2.
      destruct (decide (c = 2)) as [->|H2c].
      { rewrite vget_vset_eq by (rewrite vlen_vset; lia). rewrite decide_True by lia. done. }
      rewrite vget_vset_ne by lia. destruct (decide (c = 1)) as [->|H1c].
      { rewrite vget_vset_eq by lia. rewrite decide_True by lia. done. }
      rewrite vget_vset_ne by lia. rewrite (Hg m b c) by done. rewrite !decide_False by lia. done.
    + pose proof (at_nonneg bs k).
      assert (Hd1 : at_ bs m + 1 <> at_ bs k + c).
      { intros He. apply Hne. symmetry. apply (at_apart bs m b 1 k b' c); (done || lia). }
      assert (Hd2 : at_ bs m + 2 <> at_ bs k + c).
      { intros He. apply Hne. symmetry. apply (at_apart bs m b 2 k b' c); (done || lia). }
      rewrite !vget_vset_ne by lia. rewrite (Hg k b' c) by done.
      case_decide as D1; case_decide as D2; try done; exfalso; [apply D2|apply D1]; (split; [lia|tauto]).
  - rewrite (proj2 (Z.ltb_ge (at_ bs m) (at_ bs (m + 1)))) by lia. rewrite andb_false_r. split; [done|].
    intros k b' c Hk Hb' Hc. assert (k <> m) by congruence. rewrite (Hg k b' c) by done.
    case_decide as D1; case_decide as D2; try done; exfalso; [apply D2|apply D1]; (split; [lia|tauto]).
Qed.

Lemma compile_layout :
  exists bs w, emitted l (vlen l) bs w /\ patched bs (code bs) (compile_words qsort l pbs mbs) (vlen l).
Proof.
  destruct emit_all as (bs & w & Hem & Hz & Ho). exists bs, w. split; [done|].
  pose proof (em_len _ _ _ _ Hem) as Hl. unfold compile_words. cbv zeta in *. rewrite Hz, Ho.
  assert (Hoffs : vpush (map (at_ bs) (seqZ 0 (vlen l))) (vlen (code bs)) = map (at_ bs) (seqZ 0 (vlen bs + 1))).
  { rewrite Hl. pose proof (vlen_nonneg l). rewrite seqZ_app, map_app by lia. unfold vpush. f_equal.
    rewrite Z.add_0_l. change (seqZ (vlen l) 1) with [vlen l]. cbn [map]. rewrite <- Hl. by rewrite at_end. }
  rewrite Hoffs. apply (for_up_inv (fun m z' => patched bs (code bs) z' m)).
  - apply vlen_nonneg.
  - split; [done|]. intros k b c Hk _ _. by rewrite decide_False by lia.
  - intros m z' Hm Hp. apply patch_insn_patched; [lia|done|done].
Qed.
End layout.

(** ** Running the words *)

(** Whether [length_checked_match] takes the short output of a test. *)
Definition too_short (packet_length off m : Z) : bool :=
  let available := packet_length - off in
  negb (negb (packet_length <? off + 4)
        || ((off <? packet_length)
            && negb (negb (byte_of m 3 =? 0)
                     || (negb (byte_of m 2 =? 0) && (available <=? 2))
                     || (negb (byte_of m 1 =? 0) && (available =? 1))))).

Section run.
Variable qsort : list Z -> list Z.
Context `{!Sorter qsort}.
Variable l : list Insn.
Hypothesis l_ok : words_ok l.

Abbreviation z := (compile_words qsort l PERFORM_BINARY_SEARCH MIN_BINARY_SEARCH).
Abbreviation pos := (at_ qsort l PERFORM_BINARY_SEARCH MIN_BINARY_SEARCH).
Abbreviation final := (final_values qsort PERFORM_BINARY_SEARCH MIN_BINARY_SEARCH).

Variables (bs : list (option block)) (w : list Z).
Hypothesis bs_emitted : emitted l (vlen l) bs w.
Hypothesis z_patched : patched qsort l PERFORM_BINARY_SEARCH MIN_BINARY_SEARCH bs
  (code qsort l PERFORM_BINARY_SEARCH MIN_BINARY_SEARCH bs) z (vlen l).

Lemma pos_bound k : 0 <= k <= vlen bs -> pos bs k <= 32771 * k.
Proof.
  intros Hk. assert (Hn : exists n, k = Z.of_nat n) by (exists (Z.to_nat k); lia). destruct Hn as [n ->].
  induction n as [|n IH]; [done|]. replace (Z.of_nat (S n)) with (Z.of_nat n + 1) by lia.
  rewrite at_step by (done || lia). specialize (IH ltac:(lia)). rewrite words_len by done.
  pose proof (em_len _ _ _ _ bs_emitted). destruct (vget bs (Z.of_nat n)) as [b|] eqn:Eb; [|lia].
  destruct (em_block _ _ _ _ bs_emitted (Z.of_nat n) b ltac:(lia) Eb) as (_ & _ & Hv). lia.
Qed.

Lemma bs_len : vlen bs = vlen l.
Proof. apply (em_len _ _ _ _ bs_emitted). Qed.

Lemma z_len : vlen z = pos bs (vlen l).
Proof. destruct z_patched as [-> _]. rewrite <- bs_len. by rewrite at_end. Qed.

Lemma pos_lt k b t : 0 <= k < vlen l -> vget bs k = Some b -> k < t <= vlen l -> pos bs k < pos bs t.
Proof.
  intros Hk Hb Ht. pose proof bs_len. pose proof (at_mono qsort l true MIN_BINARY_SEARCH bs (k + 1) t ltac:(lia) ltac:(lia)).
  rewrite at_step in H0 by (done || lia). rewrite Hb, words_len in H0 by done. pose proof (vlen_nonneg (b_vals b)).
  unfold PERFORM_BINARY_SEARCH. lia.
Qed.

(** A jump after patching, read back as an int. *)
Lemma patched_jump k b j :
  0 <= k < vlen l -> vget bs k = Some b -> j = b_no b \/ j = j_yes (vget l k) ->
  i32 (patch_jump (map (pos bs) (seqZ 0 (vlen bs + 1))) (pos bs k) (u32 j))
  = if 0 <? j then pos bs j - pos bs k else j.
Proof.
  intros Hk Hb Hj. destruct (em_block _ _ _ _ bs_emitted k b Hk Hb) as (Hok & Hbk & _).
  assert (Hr : -2147483648 <= j < 2147483648).
  { destruct Hj as [->| ->]; [apply Hok|]. apply (wo_jump l l_ok k true Hk). }
  unfold patch_jump. rewrite i32_u32 by done. destruct (Z.ltb_spec 0 j) as [Hpos|]; [|by apply i32_u32].
  assert (Hf : k < j < vlen l).
  { rewrite <- Hbk. apply (block_forward l l_ok b j Hok); [by rewrite Hbk|done]. }
  rewrite (u32_small j) by lia. pose proof bs_len.
  rewrite at_vget by lia. pose proof (pos_lt k b j Hk Hb ltac:(lia)). pose proof (pos_bound j ltac:(lia)).
  pose proof (at_nonneg qsort l PERFORM_BINARY_SEARCH MIN_BINARY_SEARCH bs k). pose proof (wo_size l l_ok).
  apply i32_u32. lia.
Qed.

(** The words of a block. *)
Lemma block_words k b :
  0 <= k < vlen l -> vget bs k = Some b ->
  vget z (pos bs k) = header l k (vlen (b_vals b))
  /\ vget z (pos bs k + 3) = mask (vget l k)
  /\ (forall c, 0 <= c < vlen (b_vals b) -> vget z (pos bs k + 4 + c) = vget (final (b_vals b)) c)
  /\ (i32 (vget z (pos bs k + 1)) = if 0 <? b_no b then pos bs (b_no b) - pos bs k else b_no b)
  /\ (i32 (vget z (pos bs k + 2))
      = if 0 <? j_yes (vget l k) then pos bs (j_yes (vget l k)) - pos bs k else j_yes (vget l k)).
Proof.
  intros Hk Hb. destruct (em_block _ _ _ _ bs_emitted k b Hk Hb) as (Hok & Hbk & _). pose proof bs_len as Hl.
  pose proof (vlen_nonneg (b_vals b)) as Hv. destruct z_patched as [_ Hp].
  assert (Hcode : forall c, 0 <= c < 4 + vlen (b_vals b) ->
    vget (code qsort l PERFORM_BINARY_SEARCH MIN_BINARY_SEARCH bs) (pos bs k + c)
    = vget (encode l b (final (b_vals b))) c).
  { intros c Hc. rewrite code_get by (rewrite ?words_len by done; rewrite ?Hb; lia). by rewrite Hb. }
  assert (Hget : forall c, 0 <= c < 4 + vlen (b_vals b) -> c <> 1 -> c <> 2 ->
    vget z (pos bs k + c) = vget (encode l b (final (b_vals b))) c).
  { intros c Hc H1 H2. rewrite (Hp k b c) by (done || lia). rewrite decide_False by lia. by apply Hcode. }
  assert (Hjump : forall c, c = 1 \/ c = 2 -> vget z (pos bs k + c)
    = patch_jump (map (pos bs) (seqZ 0 (vlen bs + 1))) (pos bs k) (vget (encode l b (final (b_vals b))) c)).
  { intros c Hc. rewrite (Hp k b c) by (done || lia). rewrite decide_True by lia. by rewrite Hcode by lia. }
  split; [|split; [|split; [|split]]].
  - replace (pos bs k) with (pos bs k + 0) by lia. rewrite Hget by lia. unfold encode. rewrite vget_cons_0. by rewrite Hbk.
  - rewrite Hget by lia. unfold encode. rewrite !vget_cons_S by lia. rewrite vget_cons_0. by rewrite Hbk.
  - intros c Hc. replace (pos bs k + 4 + c) with (pos bs k + (4 + c)) by lia. rewrite Hget by lia. unfold encode.
    rewrite !vget_cons_S by lia. f_equal. lia.
  - rewrite Hjump by lia. unfold encode. rewrite vget_cons_S by lia. rewrite vget_cons_0.
    apply (patched_jump k b); auto.
  - rewrite Hjump by lia. unfold encode. rewrite !vget_cons_S by lia. rewrite vget_cons_0. rewrite Hbk.
    apply (patched_jump k b); auto.
Qed.

Lemma header_fields k n :
  0 <= k < vlen l -> 0 <= n ->
  i16 (header l k n) = offset (vget l k)
  /\ header l k n .>> 17 = n
  /\ negb ((header l k n .& 65536) =? 0) = short_output (vget l k).
Proof.
  intros Hk Hn. pose proof (wo_offset l l_ok k Hk) as Ho. unfold header. set (o := offset (vget l k)) in *.
  set (sb := if short_output (vget l k) then 1 else 0).
  assert (Hh : o + (if short_output (vget l k) then 65536 else 0) + 131072 * n = o + (sb + 2 * n) * 65536)
    by (unfold sb; destruct (short_output (vget l k)); lia).
  rewrite Hh. split; [|split].
  - unfold i16, u16. rewrite Z.mod_add by lia. rewrite Z.mod_small by lia. destruct (Z.ltb_spec o 32768); lia.
  - rewrite Z.shiftr_div_pow2 by lia. change (2 ^ 17) with 131072.
    replace (o + (sb + 2 * n) * 65536) with (o + sb * 65536 + n * 131072) by lia. rewrite Z.div_add by lia.
    rewrite Z.div_small; [lia|]. unfold sb. destruct (short_output (vget l k)); lia.
  - set (x := o + (sb + 2 * n) * 65536).
    assert (Hbit : Z.testbit x 16 = short_output (vget l k)).
    { apply Z.b2z_inj. rewrite Z.testbit_spec' by lia. change (2 ^ 16) with 65536. unfold x. rewrite Z.div_add by lia.
      rewrite Z.div_small by lia. rewrite Z.add_0_l, Z.mul_comm, Z.mod_add by lia. unfold sb.
      by destruct (short_output (vget l k)). }
    rewrite <- Hbit. change 65536 with (2 ^ 16). destruct (Z.testbit x 16) eqn:Eb.
    + apply negb_true_iff, Z.eqb_neq. intros Hz.
      assert (Hf : Z.testbit (x .& 2 ^ 16) 16 = false) by (rewrite Hz; apply Z.bits_0).
      rewrite Z.land_spec, Eb, Z.pow2_bits_true in Hf by lia. done.
    + apply negb_false_iff, Z.eqb_eq. apply Z.bits_inj'. intros i Hi. rewrite Z.land_spec, Z.bits_0.
      destruct (decide (i = 16)) as [->|]; [by rewrite Eb|]. rewrite Z.pow2_bits_false by lia. apply andb_false_r.
Qed.

(** From a block's position the words give what the program gives from its
    instruction. *)
Lemma zrun o d pl fuel k b r :
  answers l o d (too_short pl) -> short_uniform l (too_short pl) ->
  0 <= k < vlen l -> vget bs k = Some b -> vlen z - pos bs k < Z.of_nat fuel -> Runs l o k r ->
  zmatch_checked fuel z d pl (pos bs k) = Some r.
Proof.
  intros Ho Hu. revert k b. induction fuel as [|fuel IH]; intros k b Hk Hb Hf Hr.
  { rewrite z_len in Hf. pose proof (pos_lt k b (vlen l) Hk Hb ltac:(lia)). lia. }
  destruct (em_block _ _ _ _ bs_emitted k b Hk Hb) as ((_ & Hc & _) & Hbk & Hvl). rewrite Hbk in Hc.
  destruct (block_words k b Hk Hb) as (W0 & W3 & Wv & Wno & Wyes).
  destruct (header_fields k (vlen (b_vals b)) Hk (vlen_nonneg _)) as (F1 & F2 & F3).
  pose proof (wo_fwd l l_ok) as Hfwd.
  apply (chain_goes l o d (too_short pl) k (b_vals b) (b_no b) r Ho Hu Hk Hc) in Hr.
  cbn [zmatch_checked]. unfold zmask_c. rewrite W0, W3, F1, F3. set (e := vget l k) in *.
  assert (Ht : ztest z (pos bs k) (d (offset e) .& mask e) = bool_decide (d (offset e) .& mask e ∈ b_vals b)).
  { rewrite (ztest_spec z (pos bs k) (final (b_vals b))).
    - apply bool_decide_ext. unfold final_values. destruct (_ && _); [by rewrite sorter_perm|done].
    - unfold nvalues. rewrite W0, F2. by rewrite final_len.
    - intros c Hc'. rewrite final_len in Hc' by done. by apply Wv.
    - rewrite final_len by done. intros Hmin. unfold final_values. cbn [PERFORM_BINARY_SEARCH andb].
      rewrite (proj2 (Z.leb_le _ _) Hmin). apply sorter_sorted. lia. }
  rewrite Ht. set (hit := bool_decide _) in *.
  (* the jump taken, in the program and in the words *)
  assert (Hjump : forall (taken : bool),
    goes l o (if taken then j_yes e else b_no b) r ->
    (let off := i32 (vget z (pos bs k + (if taken then 2 else 1))) in
     if off <=? 0 then Some (- off) else zmatch_checked fuel z d pl (pos bs k + off)) = Some r).
  { intros taken Hg. cbv zeta.
    assert (Hw : exists j, j = (if taken then j_yes e else b_no b) /\ (j = b_no b \/ j = j_yes e)
      /\ i32 (vget z (pos bs k + (if taken then 2 else 1))) = if 0 <? j then pos bs j - pos bs k else j).
    { destruct taken; [exists (j_yes e)|exists (b_no b)]; auto. }
    destruct Hw as (j & Hj & Hcase & ->). rewrite <- Hj in Hg. unfold goes in Hg.
    destruct (Z.ltb_spec 0 j) as [Hpos|Hneg].
    - assert (Hrange : k < j < vlen l).
      { destruct (em_block _ _ _ _ bs_emitted k b Hk Hb) as (Hok & _). rewrite <- Hbk.
        apply (block_forward l l_ok b j Hok); [|done]. by rewrite Hbk. }
      destruct (em_closed _ _ _ _ bs_emitted k b j Hk Hb Hcase ltac:(lia)) as [b' Hb'].
      pose proof (pos_lt k b j Hk Hb ltac:(lia)). rewrite (proj2 (Z.leb_gt _ _)) by lia.
      replace (pos bs k + (pos bs j - pos bs k)) with (pos bs j) by lia. apply (IH j b'); [lia|done|lia|done].
    - rewrite (proj2 (Z.leb_le j 0)) by lia. f_equal. lia. }
  match goal with |- context [negb (pl <? offset e + 4) || ?rest] =>
    set (ok := negb (pl <? offset e + 4) || rest) end.
  assert (Hok : too_short pl (offset e) (mask e) = negb ok) by done. rewrite Hok in Hr.
  destruct ok; cbn [negb] in Hr.
  - specialize (Hjump hit Hr). by destruct hit.
  - specialize (Hjump (short_output e) Hr). rewrite <- Z.add_assoc. by destruct (short_output e).
Qed.
End run.

(** ** Whole programs *)

Section top.
Variable qsort : list Z -> list Z.
Context `{!Sorter qsort}.

Lemma compressed_run l o d pl r :
  words_ok l -> answers l o d (too_short pl) -> short_uniform l (too_short pl) -> Runs l o 0 r ->
  let z := compile_words qsort l PERFORM_BINARY_SEARCH MIN_BINARY_SEARCH in
  zmatch_checked (S (length z)) z d pl 0 = Some r.
Proof.
  intros Hok Ha Hu Hr z. pose proof (wo_size l Hok) as Hsz.
  destruct (compile_layout qsort l Hok PERFORM_BINARY_SEARCH MIN_BINARY_SEARCH) as (bs & w & Hem & Hp).
  pose proof (em_first _ _ _ _ Hem) as Hfirst. rewrite decide_False in Hfirst by lia. destruct Hfirst as [b Hb].
  apply (zrun qsort l Hok bs w Hem Hp o d pl (S (length z)) 0 b r Ha Hu ltac:(lia) Hb); [|done].
  fold z. change (at_ qsort l PERFORM_BINARY_SEARCH MIN_BINARY_SEARCH bs 0) with 0. unfold vlen. lia.
Qed.

(** Without short words the length checks always pass. *)
Lemma zmatch_is_checked fuel z d pr : zmatch fuel z d pr = zmatch_checked fuel z d 65540 pr.
Proof.
  revert pr. induction fuel as [|fuel IH]; intros pr; [done|]. cbn [zmatch zmatch_checked].
  assert (Ho : i16 (vget z pr) < 32768).
  { unfold i16, u16. pose proof (Z.mod_pos_bound (vget z pr) 65536 ltac:(lia)).
    destruct (Z.ltb_spec (vget z pr mod 65536) 32768); lia. }
  rewrite (proj2 (Z.ltb_ge 65540 (i16 (vget z pr) + 4))) by lia. cbn [negb orb].
  destruct (_ <=? 0); [done|]. apply IH.
Qed.

(** What the original program answers about a packet: a test whose word is
    beyond the packet's end takes its short output. *)
Definition ip_outcome (p : ip_packet) (e : Insn) : bool :=
  if too_short (ip_length p) (offset e) (mask e) then short_output e else wtest (ip_word p) e.

Lemma compressed_checked l d pl :
  words_ok l -> short_uniform l (too_short pl) ->
  let z := compile_words qsort l PERFORM_BINARY_SEARCH MIN_BINARY_SEARCH in
  zmatch_checked (S (length z)) z d pl 0
  = exec (length l) l (fun e => if too_short pl (offset e) (mask e) then short_output e else wtest d e) 0.
Proof.
  intros Hok Hu z. pose proof (wo_size l Hok) as Hsz. pose proof (wo_fwd l Hok) as Hf.
  set (o := fun e => _). destruct (Runs_total l o 0 Hf ltac:(lia)) as [r Hr].
  rewrite (proj2 (exec_iff l o r Hf ltac:(lia)) Hr).
  apply (compressed_run l o d pl r Hok); [by intros k Hk|done|done].
Qed.

Lemma too_short_max e : offset e < 32768 -> too_short 65540 (offset e) (mask e) = false.
Proof. intros Ho. unfold too_short. by rewrite (proj2 (Z.ltb_ge 65540 (offset e + 4))) by lia. Qed.

Lemma compressed_fast l d :
  words_ok l ->
  let z := compile_words qsort l PERFORM_BINARY_SEARCH MIN_BINARY_SEARCH in
  zmatch (S (length z)) z d 0 = exec (length l) l (wtest d) 0.
Proof.
  intros Hok z. pose proof (wo_size l Hok) as Hsz. rewrite zmatch_is_checked.
  destruct (Runs_total l (wtest d) 0 (wo_fwd l Hok) ltac:(lia)) as [r Hr].
  rewrite (proj2 (exec_iff l _ r (wo_fwd l Hok) ltac:(lia)) Hr).
  apply (compressed_run l (wtest d) d 65540 r Hok); [| |done].
  - intros k Hk. cbv zeta. by rewrite too_short_max by apply (wo_offset l Hok k Hk).
  - intros i j Hi Hj _ _ _ Hs. by rewrite too_short_max in Hs by apply (wo_offset l Hok i Hi).
Qed.

End top.

(** ** A program that compresses

    Nine values of one word that share an output, out of order, and a second
    test: the nine become one block, searched by bisection. *)

Definition words_okb (l : list Insn) : bool :=
  fwdb l && (0 <? vlen l) && (vlen l <=? 32766)
  && forallb (fun e => (0 <=? offset e) && (offset e <? 32768)
       && (-2147483648 <=? j_no e) && (j_no e <? 2147483648)
       && (-2147483648 <=? j_yes e) && (j_yes e <? 2147483648)) l.

Lemma words_okb_ok l : words_okb l = true -> words_ok l.
Proof.
  unfold words_okb. intros Hb. apply andb_true_iff in Hb as [Hb Hall]. rewrite forallb_forall in Hall. bprop.
  assert (Hin : forall k, 0 <= k < vlen l -> In (vget l k) l).
  { intros k Hk. apply list_elem_of_In, list_elem_of_lookup_2 with (i := Z.to_nat k). by apply vget_some. }
  constructor; [by apply fwdb_fwd|lia| |].
  - intros k Hk. specialize (Hall _ (Hin k Hk)). bprop. lia.
  - intros k d Hk. specialize (Hall _ (Hin k Hk)). bprop. unfold jmp. destruct d; lia.
Qed.

Definition ports_program : Program :=
  mkProgram
    (imap (fun i v => mkInsn 512 0 false 4294967295 v (Z.of_nat i + 1) 0) [53; 80; 22; 443; 25; 8080; 110; 143; 993]
     ++ [mkInsn 516 0 false 255 1 (-2) (-1)])
    (-1) 520 0.

(** A packet with a 20-byte network header and the first words of a transport header. *)
Definition ports_packet (b0 b1 : Z) : ip_packet :=
  mkIP (packet_of (replicate 34 0 ++ [b0; b1; 0; 0; 1; 0; 0; 0])) 0 14 34.

(** ** Properties *)

(** C12. [CompressedProgram::compile] keeps the program: on every packet that is
    long enough to skip the length checks, [IPFilter::match] terminates and gives
    the output of the wordwise program, whatever instructions were merged and
    however their values are sorted and searched. *)
Theorem compile_preserves_match P p :
  words_ok (insns P) -> i32 (safe_length P) <= ip_length p ->
  ip_match (ip_compile P) p
  = if 0 <=? output_everything P then Some (output_everything P)
    else exec (length (insns P)) (insns P) (wtest (ip_word p)) 0.
Proof.
  intros Hok Hl. unfold ip_match, ip_compile, compile. cbn [z_output_everything z_safe_length zprog].
  destruct (0 <=? output_everything P); [done|]. rewrite (proj2 (Z.ltb_ge _ _) Hl). by apply compressed_fast; [apply _|].
Qed.

Lemma compile_preserves_match_witness :
  vlen (zprog (ip_compile ports_program)) = 18
  /\ ip_match (ip_compile ports_program) (ports_packet 144 31) = Some 0
  /\ ip_match (ip_compile ports_program) (ports_packet 144 31)
     = if 0 <=? output_everything ports_program then Some (output_everything ports_program)
       else exec (length (insns ports_program)) (insns ports_program) (wtest (ip_word (ports_packet 144 31))) 0.
Proof.
  split; [vm_compute; reflexivity|]. split; [vm_compute; reflexivity|].
  apply (compile_preserves_match ports_program (ports_packet 144 31)).
  - apply words_okb_ok. vm_compute. reflexivity.
  - vm_compute. discriminate.
Defined.

(** On shorter packets [IPFilter::length_checked_match] gives what the
    wordwise program gives with its short outputs, when instructions that test
    the same word with the same success jump agree on their short output. *)
Theorem compile_preserves_short_match P p :
  words_ok (insns P) -> short_uniform (insns P) (too_short (ip_length p)) ->
  ip_length p < i32 (safe_length P) ->
  ip_match (ip_compile P) p
  = if 0 <=? output_everything P then Some (output_everything P)
    else exec (length (insns P)) (insns P) (ip_outcome p) 0.
Proof.
  intros Hok Hu Hl. unfold ip_match, ip_compile, compile. cbn [z_output_everything z_safe_length zprog].
  destruct (0 <=? output_everything P); [done|]. rewrite (proj2 (Z.ltb_lt _ _) Hl). by apply compressed_checked; [apply _| |].
Qed.

Definition short_packet : ip_packet := mkIP (packet_of (replicate 36 0)) 0 14 34.

Lemma compile_preserves_short_match_witness :
  ip_length short_packet = 514
  /\ ip_match (ip_compile ports_program) short_packet
     = exec (length (insns ports_program)) (insns ports_program) (ip_outcome short_packet) 0.
Proof.
  split; [vm_compute; reflexivity|].
  apply (compile_preserves_short_match ports_program short_packet).
  - apply words_okb_ok. vm_compute. reflexivity.
  - intros i j Hi Hj _ _ _ _.
    assert (Hall : forall k, 0 <= k < vlen (insns ports_program) -> short_output (vget (insns ports_program) k) = false).
    { intros k Hk. change (vlen (insns ports_program)) with 10 in Hk.
      assert (Hc : k ∈ seqZ 0 10) by (apply elem_of_seqZ; lia). clear Hk. revert k Hc. rewrite <- Forall_forall. vm_compute.
      repeat constructor. }
    by rewrite !Hall.
  - vm_compute. reflexivity.
Defined.

(** Two tests of the transport ports with the same success output; a packet
    without ports fails the first and passes the second. *)
Definition mixed_short : Program :=
  mkProgram [mkInsn 512 0 false 4294967295 53 1 0; mkInsn 512 0 true 4294967295 80 (-1) 0] (-1) 516 0.

(** Merging ignores the short outputs: of two tests of the same word with
    different short outputs [compile] keeps the first one's, and a packet
    without that word is sent to a different output than by the program. *)
Theorem compile_drops_short_output :
  words_ok (insns mixed_short)
  /\ exec 2 (insns mixed_short) (ip_outcome (mkIP (packet_of (replicate 34 0)) 0 14 34)) 0 = Some 0
  /\ ip_match (ip_compile mixed_short) (mkIP (packet_of (replicate 34 0)) 0 14 34) = Some 1.
Proof. split; [by apply words_okb_ok|]. by split; vm_compute. Qed.
