(* ===== verification/FilterProgram.v ===== *)
(** * The filter element

    [IPFilter::parse_program], [configure] and [push] of elements/ip/ipfilter.cc: a
    slot and an expression per argument, the programs of the arguments merged and
    optimized, and a packet sent to the slot of its program. *)

From S2P Require Import Prelude Packet Insn Program BubbleSort Optimize Words Segments QSort Compress CompressRun.
From S2P Require Import FilterPrim Builder FilterCompare FilterCompile FilterCheck IntArg FilterParse FilterExpr FilterGrammar FilterRead.
From stdpp Require Import strings.
Local Open Scope Z_scope.

#[export] Instance Program_inhabited : Inhabited Program := populate (new_program 0).

Section element.
Context `{Names} (junk : PrimitiveData) (noutputs : Z).

(** "get slot" *)
Definition pattern_slot (w : list Z) : Z * list message :=
  if word_is w "allow" then (0, if noutputs =? 0 then [E_zero_outputs] else [])
  else if word_is w "deny" || word_is w "drop" then (- j_never, [])
  else
    match int_arg true w with
    | Some v => let slot := i32 v in if (slot <? 0) || (noutputs <=? slot) then (- j_never, [E_slot_range]) else (slot, [])
    | None => (- j_never, [E_unknown_slot])
    end.

Definition matches_all (words : list (list Z)) : bool :=
  match words with
  | [_] => true
  | [_; w] => word_is w "-" || word_is w "any" || word_is w "all"
  | _ => false
  end.

(** The program of one argument, from which [cp_unquote] has taken the quotes; an
    empty argument has no program.  [None] when an assertion fails. *)
Definition parse_pattern (text : list Z) (errh : list message) : option (option Program * list message) :=
  let words := separate_text text in
  match words with
  | [] => Some (None, errh ++ [E_empty_pattern])
  | w :: _ =>
      let '(slot, ms) := pattern_slot w in
      let errh := errh ++ ms in
      let prog := new_program 0 in
      let b : build := start (prog, init_subtree prog) in
      '(b, errh) ←
        if matches_all words then Some (insn b 0 0 0, errh)
        else
          match parse_expr_iterative words junk 1 (mkPState b (clear junk junk) errh) with
          | Finished pos st => Some (ps_build st, ps_errh st ++ if pos <? vlen words then [E_garbage] else [])
          | Aborted | Out_of_fuel => None
          end;
      Some (Some (finish_subtree b.1 b.2 c_and (- slot) j_failure).1, errh)
  end.

(** *** Merging *)

Definition offset_map : list (Z * Z) := [(offset_net + 8, offset_net + 3)].

(** One turn of the inner loop: programs [i] and [i + merge_step]. *)
Definition merge_pair (merge_step i : Z) (progs : list Program) : option (list Program) :=
  P ← optimize offset_map offset_max (add_or_program (vget progs i) (vget progs (i + merge_step)));
  Some (vset progs i P).

Fixpoint merge_row (fuel : nat) (merge_step i : Z) (progs : list Program) : option (list Program) :=
  if i + merge_step <? vlen progs then
    match fuel with
    | O => None
    | S fuel' => progs ← merge_pair merge_step i progs; merge_row fuel' merge_step (i + 2 * merge_step) progs
    end
  else Some progs.

Fixpoint merge_programs (fuel : nat) (merge_step : Z) (progs : list Program) : option (list Program) :=
  if merge_step <? vlen progs then
    match fuel with
    | O => None
    | S fuel' => progs ← merge_row (length progs) merge_step 0 progs; merge_programs fuel' (merge_step * 2) progs
    end
  else Some progs.

Fixpoint parse_patterns (conf : list (list Z)) (progs : list Program) (errh : list message) : option (list Program * list message) :=
  match conf with
  | [] => Some (progs, errh)
  | text :: conf' =>
      '(prog, errh) ← parse_pattern text errh;
      parse_patterns conf' (match prog with Some P => vpush progs P | None => progs end) errh
  end.

Definition parse_program (conf : list (list Z)) (errh : list message) : option (CompressedProgram * list message) :=
  '(progs, errh) ← parse_patterns conf [] errh;
  progs ← merge_programs (length progs) 1 progs;
  let progs := match progs with [] => [new_program 0] | _ => progs end in
  P ← (if vlen progs =? 1 then optimize offset_map offset_max (vget progs 0) else Some (vget progs 0));
  let P := set_failure P j_never in
  l ← bubble_sort_and_exprs offset_map offset_max (insns P);
  Some (ip_compile (with_insns P l), errh).

(** [configure]: the program is installed if there was no error. *)
Definition configure (conf : list (list Z)) : option (option CompressedProgram * list message) :=
  '(zprog, errh) ← parse_program conf [];
  Some (if nerrors errh =? 0 then Some zprog else None, errh).

(** [push]: the output a packet is sent to; [checked_output_push] kills it when
    there is no such output. *)
Definition filter_push (zprog : CompressedProgram) (p : ip_packet) : option (option Z) :=
  output ← ip_match zprog p;
  Some (if (0 <=? output) && (output <? noutputs) then Some output else None).

Lemma pattern_slot_nonneg w : 0 <= (pattern_slot w).1.
Proof using Type.
  unfold pattern_slot. destruct (word_is w "allow"); [cbn; lia|]. destruct (_ || _); [done|].
  destruct (int_arg true w); [|done]. destruct (Z.ltb_spec (i32 z) 0); cbn [orb]; [done|]. by destruct (_ <=? _).
Qed.
End element.

(** ** One pattern *)

(** A program in which one subtree has been finished. *)
Lemma finished_exec o b b1 slot vs fuel : word_outcome o -> b = (new_program 0, init_subtree (new_program 0)) ->
  computes o 1 (start b) b1 vs -> vs <> [] -> 0 <= slot ->
  let P := (finish_subtree b1.1 b1.2 c_and (- slot) j_failure).1 in
  (length (insns P) <= fuel)%nat ->
  fwd (insns P) /\ 0 < ninsn P /\ output_everything P = -1 /\ safe_length P = 4294967295
  /\ all_insns insn_ok (insns P)
  /\ exec fuel (insns P) o 0 = Some (if forallb id vs then slot else - j_failure).
Proof.
  intros Ho -> Hc Hne Hs P Hf.
  assert (Hb : opened 0 (new_program 0, init_subtree (new_program 0))).
  { exists []. split; [done|]. split; [done|]. split; [by left|lia]. }
  pose proof (finish_adds o Ho 0 _ _ c_and (- slot) j_failure vs Hb Hc Hne ltac:(lia) ltac:(done)) as (M & ks & [A1 A2 A3 A4 A5 A6 A7 A8 A9 A10 A11 A12]).
  fold P in A6, A7, A8, A9, A10, A11, A12. cbn [snd fst] in A2. injection A2 as <-. cbn [combine_value] in A8.
  pose proof (row_blocks _ _ _ _ _ _ A8 ltac:(done)) as Hbl. assert (Hks : ks <> []) by (intros ->; by destruct A8 as [(_ & ? & _)|[? _]]).
  assert (Hone : length ks = 1%nat).
  { destruct ks as [|k [|k' ks]]; [done|done|]. exfalso. cbn [block_starts blocks] in Hbl. destruct Hbl as (_ & _ & _ & _ & Hbl). by destruct ks. }
  destruct ks as [|k [|? ?]]; [done| |done]. cbn [block_starts blocks] in Hbl. destruct Hbl as (B1 & B2 & B3 & B4).
  change (vlen (@nil Z)) with 0 in *.
  split; [exact B3|]. split; [done|]. split; [done|]. split; [done|]. split; [intros i Hi; apply A9; lia|].
  rewrite (Runs_exec (insns P) o fuel 0 _ B3 (Seg_Runs o (insns P) 0 _ ltac:(lia) B2 B4)) by (unfold vlen; lia). by destruct (forallb id vs); f_equal; lia.
Qed.

(** C5.  An argument that is a slot and an expression of the grammar becomes a
    program that sends a packet to the slot exactly when the expression holds on
    the packet, and otherwise fails.  The value of the expression is the one that
    its tests, as they are written, ask of the header fields of the packet
    ([test_value]: [true], [false], and the words that [check] accepts, with the value
    [asked], where [<] on two sides is the negation of [>=] and [!=] with [tcpudp]
    compares the protocol byte with 256 modulo 256).  Three kinds of tests are not in
    this grammar ([test_reads]): an operator without data, which the parser reports as
    an error; a bound that [set_mask] rounds with an undefined shift, as in
    [tcp[13] & 2 >= 2]; and the protocol [transp], for which no instruction is made.
    The names resolve to types and words that the element knows ([LawfulNames], which
    the built-in tables are).  The
    parser adds no messages of its own, the jumps of the program go forward and its
    instructions are ones that the optimizer and the compressor accept. *)
Theorem pattern_computes_expression `{LawfulNames} junk noutputs d text w ws slot ms errh v s' :
  data_ok junk -> (forall off, word (d off)) ->
  separate_text text = w :: ws -> matches_all (w :: ws) = false -> pattern_slot noutputs w = (slot, ms) ->
  expr (w :: ws) (test_value (w :: ws) junk d) 1 (clear junk junk, errh ++ ms) v (vlen (w :: ws)) s' ->
  exists P, parse_pattern junk noutputs text errh = Some (Some P, s'.2)
    /\ fwd (insns P) /\ all_insns insn_ok (insns P) /\ 0 < ninsn P /\ output_everything P = -1
    /\ exec (length (insns P)) (insns P) (wtest d) 0 = Some (if v then slot else - j_failure).
Proof.
  intros Hj Hd Et Em Es He. set (words := w :: ws) in *. set (b0 := (new_program 0, init_subtree (new_program 0))).
  assert (Hb : opened 1 (start b0)).
  { apply (start_opened 0 b0). exists []. split; [done|]. split; [done|]. split; [by left|lia]. }
  assert (Hk : prev_ok (clear junk junk)) by (constructor; [by left|cbn; lia|done]).
  destruct (expr_parses words junk (wtest d) (wtest_word d) (test_value words junk d) (fun s => prev_ok s.1) (test_value_parsed words junk d Hj Hd) _ _ _ _ _ He Hk) as [Hp _].
  destruct (Hp 1 (start b0) Hb) as (j & b1 & Hx & Hc).
  apply exits_finished in Hx; [|unfold words; rewrite vlen_cons; vlia]. pose proof (pattern_slot_nonneg noutputs w) as Hslot. rewrite Es in Hslot. cbn [fst] in Hslot.
  destruct (finished_exec (wtest d) b0 b1 slot [v] _ (wtest_word d) eq_refl Hc ltac:(done) Hslot (le_n _)) as (F1 & F2 & F3 & _ & F4 & F5).
  eexists. split; [|split; [exact F1|]; split; [exact F4|]; split; [exact F2|]; split; [exact F3|]; rewrite F5; cbn [forallb id]; by rewrite andb_true_r].
  unfold parse_pattern. rewrite Et. unfold words at 1. cbv beta iota zeta. rewrite Es, Em. fold b0. change (mkPState (start b0) (clear junk junk) (errh ++ ms)) with (pst (start b0) (clear junk junk, errh ++ ms)).
  rewrite Hx. cbn [mbind option_bind]. rewrite Z.ltb_irrefl, app_nil_r. done.
Qed.

(** ** An expression

    [not ip[9] == 6 or ip[8] < 5], on a TCP packet whose time to live is 3. *)

#[export] Instance nameless_lawful : LawfulNames (H := nameless).
Proof. by constructor. Qed.

Definition sample_text : string := "0 not ip[9] == 6 or ip[8] < 5".
Definition sample_words : list (list Z) := separate_text (chars sample_text).
Definition sample_packet (off : Z) : Z := if off =? offset_net + 8 then le32 3 6 0 0 else 0.
Definition sample_context : context := (clear (mkData 0 0) (mkData 0 0), []).

Lemma sample_expr : exists s',
  expr sample_words (test_value (H := nameless) sample_words (mkData 0 0) sample_packet) 1 sample_context true (vlen sample_words) s' /\ s'.2 = [].
Proof.
  set (T := test_value sample_words (mkData 0 0) sample_packet).
  destruct (reads_as (H := nameless) sample_words (mkData 0 0) sample_packet 2 true sample_context) as [[v1 p1] s1] eqn:E1.
  assert (H1 : T true 2 sample_context v1 p1 s1) by (apply readable_value; [vm_compute; reflexivity|exact E1]).
  vm_compute in E1. injection E1 as <- <- <-. match type of H1 with T _ _ _ _ _ ?s => set (s1 := s) in * end.
  destruct (reads_as (H := nameless) sample_words (mkData 0 0) sample_packet 9 false s1) as [[v2 p2] s2] eqn:E2.
  assert (H2 : T false 9 s1 v2 p2 s2) by (apply readable_value; [vm_compute; reflexivity|exact E2]).
  vm_compute in E2. injection E2 as <- <- <-. match type of H2 with T _ _ _ _ _ ?s => set (s2 := s) in * end.
  exists s2. split; [|done]. apply (expr_conds _ _ _ _ true 15 s2 []); [|by apply conds_end].
  apply (orexpr_terms _ _ _ _ false 8 s1 [true]).
  - apply (term_factors _ _ _ _ false 8 s1 []); [|lia|by apply terms_end]. apply factor_not; [done| |lia]. by apply factor_test; [..|lia].
  - apply (ors_or _ _ _ _ true 15 s2 []); [done| |by apply ors_end].
    apply (term_factors _ _ _ _ true 15 s2 []); [|lia|by apply terms_end]. by apply factor_test; [..|lia].
Qed.

Lemma pattern_computes_expression_witness :
  exists P, parse_pattern (H := nameless) (mkData 0 0) 1 (chars sample_text) [] = Some (Some P, [])
    /\ fwd (insns P) /\ all_insns insn_ok (insns P) /\ 0 < ninsn P /\ output_everything P = -1
    /\ exec (length (insns P)) (insns P) (wtest sample_packet) 0 = Some (if true then 0 else - j_failure).
Proof.
  destruct sample_expr as (s' & He & Es).
  assert (Hj : data_ok (mkData 0 0)) by (split; unfold word; simpl; lia).
  assert (Hd : forall off, word (sample_packet off)) by (intros off; unfold sample_packet, word; destruct (off =? _); [vm_compute; split; congruence|lia]).
  pose proof (pattern_computes_expression (H := nameless) (mkData 0 0) 1 sample_packet (chars sample_text) (chars "0") (tl sample_words) 0 [] [] true s'
    Hj Hd ltac:(vm_compute; reflexivity) ltac:(vm_compute; reflexivity) ltac:(vm_compute; reflexivity) He) as Hw.
  rewrite Es in Hw. exact Hw.
Defined.
