(* ===== verification/FilterExamples.v ===== *)
(** * Filters at work

    The names and addresses the element knows without a configuration, the filter
    element on packets, and what the language does in corner cases. *)

From S2P Require Import Prelude Packet Insn Program IPRoute QSort Compress CompressRun IntArg NameDB Addresses.
From S2P Require Import FilterPrim Builder FilterCompare FilterCompile FilterCheck FilterParse FilterExpr FilterGrammar FilterRead FilterProgram.
From stdpp Require Import strings.
Local Open Scope Z_scope.

(** ** Names *)

(** No names are defined in the configuration. *)
Definition no_names : AddressInfo := Build_AddressInfo (fun _ => None) (fun _ => None) (fun _ => None).

Definition static_db (db : name_db) : list entry :=
  match db with
  | T_IPFILTER_TYPE => type_entries
  | T_IP_PROTO => ip_protos
  | T_TCP_PORT | T_UDP_PORT => known_ports
  | T_TCP_OPT => tcp_opt_entries
  | T_ICMP_TYPE => icmp_types
  end.

(** An Ethernet address as the words [c[0]] to [c[3]] and [c[4]] to [c[5]]. *)
Definition ether_words (e : list Z) : Z * Z :=
  (le32 (vget e 0) (vget e 1) (vget e 2) (vget e 3), le32 (vget e 4) (vget e 5) 0 0).

#[export] Instance static_names : Names := {
  query db w := static_query (static_db db) w;
  ip_address_arg w := ip_parse (H := no_names) w;
  ip_prefix_arg w := ip_prefix_parse (H := no_names) false w;
  ether_address_arg w := ether_words <$> ether_parse (H := no_names) w
}.

Lemma static_dbs_ok db : table_ok (static_db db) = true.
Proof. by destruct db; vm_compute. Qed.

Lemma static_db_value db (P : Z -> bool) w v : query db w = Some v -> forallb (fun e => P e.2) (static_db db) = true -> P v = true.
Proof. intros E%static_query_in Hall. rewrite forallb_forall in Hall. apply list_elem_of_In in E. by apply (Hall (w, v)). Qed.

Definition known_typeb (t : Z) : bool :=
  existsb (Z.eqb t) [TYPE_HOST; TYPE_NET; TYPE_ETHER; TYPE_PROTO; TYPE_PORT; TYPE_TCPOPT; TYPE_IPECT; TYPE_IPCE; TYPE_IPFRAG; TYPE_IPUNFRAG]
  || ((0 <=? t) && (t <? 2147483648) && is_field t && (Z.land (field_offset t) 31 + field_length t <=? 32)).

Lemma known_typeb_ok t : known_typeb t = true -> known_type t.
Proof.
  unfold known_typeb. intros H. apply orb_true_iff in H as [H|H]; [left|right].
  - apply existsb_exists in H as (x & Hx & ->%Z.eqb_eq). by apply list_elem_of_In.
  - apply andb_true_iff in H as [[[H1%Z.leb_le H2%Z.ltb_lt]%andb_true_iff H3]%andb_true_iff H4%Z.leb_le]. by split; [lia|].
Qed.

#[export] Instance no_names_lawful : LawfulAddresses (H := no_names).
Proof. by constructor. Qed.

(** The tables hold types, protocols and words. *)
#[export] Instance static_names_lawful : LawfulNames.
Proof.
  constructor.
  - intros w v E. apply (static_db_value _ (fun v => (v =? TYPE_SYNTAX) || known_typeb v)) in E; [|vm_compute; reflexivity].
    apply orb_true_iff in E as [E%Z.eqb_eq|E]; [by left|right; by apply known_typeb_ok].
  - intros w v E. apply (static_db_value _ (fun v => v <? 2147483648)) in E; [by apply Z.ltb_lt in E|vm_compute; reflexivity].
  - intros db w v E. apply (static_db_value _ (fun v => (0 <=? v) && (v <? 4294967296))) in E; [unfold word; apply andb_true_iff in E as [E1%Z.leb_le E2%Z.ltb_lt]; lia|destruct db; vm_compute; reflexivity].
  - intros w a. apply ip_parse_word.
  - intros w a m. apply ip_prefix_parse_word.
  - intros w lo hi E. cbn [ether_address_arg static_names] in E. destruct (ether_parse w) as [e|] eqn:Ee; [|done]. injection E as <- <-.
    apply ether_parse_bytes in Ee as [Hl Hf]. split; apply le32_word; first [lia|apply vget_byte; [lia|done]].
Qed.

Definition zero_junk : PrimitiveData := mkData 0 0.

(** ** Packets *)

(** An IP packet without options, with a network header at byte 14. *)
Definition tcp_packet (proto sport dport flags : Z) : ip_packet :=
  mkIP (packet_of (replicate 14 0 ++ [69; 0; 0; 40; 0; 0; 0; 0; 64; proto; 0; 0; 10; 0; 0; 1; 10; 0; 0; 2]
    ++ [sport / 256; sport mod 256; dport / 256; dport mod 256; 0; 0; 0; 0; 0; 0; 0; 0; 80; flags; 0; 0; 0; 0; 0; 0])) 0 14 34.

(** What an element with one output does with a packet: the messages of its
    configuration, or the output. *)
Inductive verdict := crashes | refused (errh : list message) | sent (output : option Z) | stuck.

Definition filter (junk : PrimitiveData) (conf : list string) (p : ip_packet) : verdict :=
  match configure junk 1 (map chars conf) with
  | None => crashes
  | Some (None, errh) => refused errh
  | Some (Some z, _) => match filter_push 1 z p with Some output => sent output | None => stuck end
  end.
Arguments filter junk conf%_list_scope p.

Definition allow (w : string) : list string := [("0 " ++ w)%string].

(** Ports, addresses, types and connectives. *)
Theorem filter_example :
  filter zero_junk (allow "dst tcp port 80 or src host 10.0.0.1 and not icmp type echo") (tcp_packet 17 1 2 0) = sent (Some 0)
  /\ filter zero_junk (allow "dst tcp port 80 or src host 10.0.0.1 and not icmp type echo") (tcp_packet 1 2048 2 0) = sent None
  /\ filter zero_junk (allow "src net 10.0.0.0/8 ? tcp opt syn : udp") (tcp_packet 6 1 2 2) = sent (Some 0)
  /\ filter zero_junk (allow "(tcp or udp) && (src port 1024 || dst port > 1024)") (tcp_packet 6 1 1025 0) = sent (Some 0)
  /\ filter zero_junk ["deny tcp"; "allow all"]%string (tcp_packet 6 1 2 0) = sent None
  /\ filter zero_junk (allow "tcp or") (tcp_packet 6 1 2 0) = refused [E_missing_expression].
Proof. vm_compute. done. Qed.

(** ** Corner cases

    A bound from which the mask takes away just its lowest bit becomes the mask
    itself, and a comparison with the whole mask compiles to nothing: the test
    [tcp[13] & 2 >= 2] accepts a packet in which the bit is not set. *)
Theorem mask_comparison_dropped :
  filter zero_junk (allow "tcp[13] & 2 >= 2") (tcp_packet 6 1 2 0) = sent (Some 0)
  /\ filter zero_junk (allow "tcp[13] & 2 == 2") (tcp_packet 6 1 2 0) = sent None.
Proof. vm_compute. done. Qed.

(** [ip proto != tcpudp] compares the protocol with 256 modulo 256, and accepts TCP. *)
Theorem not_tcpudp_accepts_tcp :
  filter zero_junk (allow "ip proto != tcpudp") (tcp_packet 6 1 2 0) = sent (Some 0)
  /\ filter zero_junk (allow "ip proto tcpudp") (tcp_packet 6 1 2 0) = sent (Some 0).
Proof. vm_compute. done. Qed.

(** The protocol [transp] has no instructions, and its negation negates the test
    in front of it. *)
Theorem not_transp_negates_sibling :
  filter zero_junk (allow "tcp and not proto transp") (tcp_packet 6 1 2 0) = sent None
  /\ filter zero_junk (allow "tcp and not proto transp") (tcp_packet 17 1 2 0) = sent (Some 0).
Proof. vm_compute. done. Qed.

(** [<] is compiled as a negated [>], and the negation is around both sides: for
    the port 50 and the port 200 "both are below 100" holds, and "one is" does not. *)
Theorem two_sided_less_than_swaps :
  filter zero_junk (allow "src and dst port < 100") (tcp_packet 6 50 200 0) = sent (Some 0)
  /\ filter zero_junk (allow "src or dst port < 100") (tcp_packet 6 50 200 0) = sent None.
Proof. vm_compute. done. Qed.

(** An operator without data on a flag is reported, and then compiled: an assertion fails. *)
Theorem dangling_operator_crashes p : filter zero_junk (allow "ip ce < foo") p = crashes.
Proof. vm_compute. done. Qed.

(** A negative position makes a negative type, which [check] takes for an error that
    was reported: the configuration is accepted without the test. *)
Theorem negative_position_dropped :
  filter zero_junk (allow "tcp and ip[-4] == 5") (tcp_packet 6 1 2 0) = sent (Some 0)
  /\ filter zero_junk (allow "tcp") (tcp_packet 6 1 2 0) = sent (Some 0).
Proof. vm_compute. done. Qed.

(** Without a number in front of the colon the position is not initialized. *)
Theorem missing_position_uninitialized :
  filter (mkData 0 0) (allow "ip[:2] == 17664") (tcp_packet 6 1 2 0) = sent (Some 0)
  /\ filter (mkData 2 0) (allow "ip[:2] == 17664") (tcp_packet 6 1 2 0) = sent None.
Proof. vm_compute. done. Qed.

(** A position of 8192 reaches the protocol in the type: a field of the ICMP header. *)
Theorem large_position_changes_protocol :
  filter zero_junk (allow "ip[8192] == 8") (tcp_packet 1 2048 2 0) = sent (Some 0)
  /\ filter zero_junk (allow "icmp type 8") (tcp_packet 1 2048 2 0) = sent (Some 0).
Proof. vm_compute. done. Qed.

(** A blank at the end makes an empty word. *)
Theorem trailing_blank_refused p :
  filter zero_junk (allow "true ") p = refused [E_empty_term; E_garbage] /\ separate_text (chars "true ") = [chars "true"; []].
Proof. vm_compute. done. Qed.
