(* ===== verification/ConcQueue.v ===== *)
(** * One pusher and one puller

    [Queue] (elements/standard/fullnotequeue.{hh,cc}) promises to work with one
    thread that pushes and one thread that pulls, without locks.  Here [push] and
    [pull] are cut into the accesses they make to shared memory, and the steps of
    the two threads interleave in any order.  Accesses take effect in program
    order (sequential consistency); [NotifierSignal::set_active] is one atomic
    step, as its compare-and-swap loop makes it.

    A step carries a label where the operation takes effect. *)

From S2P Require Import Prelude Insn Queue QueueSpec NoteQueue.

Section steps.
Context {pkt : Type} `{Inhabited pkt}.

Inductive label :=
| push_ok (p : pkt)
| push_drop (p : pkt)
| pull_ok (p : pkt)
| pull_empty.

(** ** The pushing thread *)

Inductive push_pc :=
| P_idle
| P_fail (p : pkt)               (** the queue was full *)
| P_room (p : pkt) (h : Z)       (** [h = head()], and there is room *)
| P_stored (p : pkt) (h : Z)     (** after [_q[t] = p] *)
| P_tail (h nt : Z)              (** after [set_tail(nt)] *)
| P_high (sz : Z)                (** after the high-water mark *)
| P_woken                        (** after [_empty_note.wake()], with [s == capacity()] *)
| P_slept                        (** after [_full_note.sleep()] *)
| P_size (room : bool).          (** after [size() < capacity()] *)

Definition with_queue (s : NoteQueue pkt) (c : list pkt) (h t hw d : Z) : NoteQueue pkt :=
  with_base s (mkQueue (capacity (base s)) h t c d hw).

(** [push(p)] begins: it reads the head; only this thread moves the tail. *)
Definition push_begin (s : NoteQueue pkt) (p : pkt) : push_pc * option label :=
  let q := base s in
  if negb (next_i (capacity q) (tail q) =? head q) then (P_room p (head q), None)
  else (P_fail p, Some (push_drop p)).

Definition push_step (s : NoteQueue pkt) (pc : push_pc) : NoteQueue pkt * push_pc * option label :=
  let q := base s in
  match pc with
  | P_idle => (s, P_idle, None)
  | P_fail p => (with_base s (count_drop q), P_idle, None)
  | P_room p h =>
      (with_queue s (vset (cells q) (tail q) p) (head q) (tail q) (highwater_length q) (drops q), P_stored p h, None)
  | P_stored p h =>
      let nt := next_i (capacity q) (tail q) in
      (with_queue s (cells q) (head q) nt (highwater_length q) (drops q), P_tail h nt, Some (push_ok p))
  | P_tail h nt =>
      let sz := storage_size (capacity q) h nt in
      (with_queue s (cells q) (head q) (tail q)
         (if highwater_length q <? sz then sz else highwater_length q) (drops q), P_high sz, None)
  | P_high sz => (with_empty s (wake (empty_note s)), if sz =? capacity q then P_woken else P_idle, None)
  | P_woken => (with_full s (sleep (full_note s)), P_slept, None)
  | P_slept => (s, P_size (queue_size q <? capacity q), None)
  | P_size room => (if room then with_full s (wake (full_note s)) else s, P_idle, None)
  end.

(** ** The pulling thread *)

Inductive pull_pc :=
| C_idle
| C_some                         (** [h != t] *)
| C_got (p : pkt)                (** after [p = _q[h]] *)
| C_head (p : pkt)               (** after [set_head(nh)] *)
| C_zero (p : pkt)               (** after [_sleepiness = 0] *)
| C_none                         (** [h == t] *)
| C_slept                        (** after [_empty_note.sleep()] *)
| C_size (some : bool).          (** after [size()] *)

(** [pull()] begins: it reads the tail; only this thread moves the head. *)
Definition pull_begin (s : NoteQueue pkt) : pull_pc * option label :=
  if negb (head (base s) =? tail (base s)) then (C_some, None) else (C_none, Some pull_empty).

Definition pull_step (s : NoteQueue pkt) (pc : pull_pc) : NoteQueue pkt * pull_pc * option label :=
  let q := base s in
  match pc with
  | C_idle => (s, C_idle, None)
  | C_some => (s, C_got (vget (cells q) (head q)), None)
  | C_got p =>
      (with_queue s (cells q) (next_i (capacity q) (head q)) (tail q) (highwater_length q) (drops q), C_head p,
       Some (pull_ok p))
  | C_head p => (with_sleepiness s 0, C_zero p, None)
  | C_zero p => (with_full s (wake (full_note s)), C_idle, None)
  | C_none =>
      if SLEEPINESS_TRIGGER <=? sleepiness s then (with_empty s (sleep (empty_note s)), C_slept, None)
      else (with_sleepiness s (sleepiness s + 1), C_idle, None)
  | C_slept => (s, C_size (negb (queue_size q =? 0)), None)
  | C_size some => (if some then with_empty s (wake (empty_note s)) else s, C_idle, None)
  end.

(** ** Interleavings *)

Record conc := mkConc { shared : NoteQueue pkt; pusher : push_pc; puller : pull_pc }.

Inductive cstep : conc -> option label -> conc -> Prop :=
| c_push_begin s c p :
    cstep (mkConc s P_idle c) (push_begin s p).2 (mkConc s (push_begin s p).1 c)
| c_push_step s pc c :
    pc <> P_idle ->
    cstep (mkConc s pc c) (push_step s pc).2 (mkConc (push_step s pc).1.1 (push_step s pc).1.2 c)
| c_pull_begin s pc :
    cstep (mkConc s pc C_idle) (pull_begin s).2 (mkConc s pc (pull_begin s).1)
| c_pull_step s pc c :
    c <> C_idle ->
    cstep (mkConc s pc c) (pull_step s c).2 (mkConc (pull_step s c).1.1 pc (pull_step s c).1.2).

(** States reached from a fresh queue, with the labels so far. *)
Inductive reached (cap : Z) : list label -> conc -> Prop :=
| reached_start : reached cap [] (mkConc (new_note_queue cap) P_idle C_idle)
| reached_step ls s l s' : reached cap ls s -> cstep s l s' -> reached cap (ls ++ option_list l) s'.

(** ** The sequential queue *)

(** A bounded FIFO accepts a label when the operation could have that result. *)
Definition fifo_label (cap : Z) (c : list pkt) (l : label) (c' : list pkt) : Prop :=
  match l with
  | push_ok p => vlen c < cap /\ c' = c ++ [p]
  | push_drop p => vlen c = cap /\ c' = c
  | pull_ok p => c = p :: c'
  | pull_empty => c = [] /\ c' = []
  end.

Inductive fifo_run (cap : Z) : list label -> list pkt -> Prop :=
| fifo_start : fifo_run cap [] []
| fifo_step ls c l c' : fifo_run cap ls c -> fifo_label cap c l c' -> fifo_run cap (ls ++ [l]) c'.
End steps.

Arguments label : clear implicits.
Arguments push_pc : clear implicits.
Arguments pull_pc : clear implicits.
Arguments conc : clear implicits.

(** ** Accesses to the ring *)

Section accesses.
Context {pkt : Type} `{Inhabited pkt}.
Implicit Types (q : SimpleQueue pkt) (s : NoteQueue pkt).

(** The cell at the tail is not part of the queue. *)
Lemma write_tail q p :
  queue_ok q ->
  let q' := mkQueue (capacity q) (head q) (tail q) (vset (cells q) (tail q) p) (drops q) (highwater_length q) in
  queue_ok q' /\ contents q' = contents q /\ vget (cells q') (tail q) = p.
Proof.
  intros Hq q'. pose proof Hq as [Hc Hh Ht Hl]. pose proof (qlen_range q Hq).
  assert (Hq' : queue_ok q') by (constructor; cbn; rewrite ?vlen_vset; lia).
  split; [done|]. split; [|cbn; apply vget_vset_eq; lia].
  apply contents_eq; [done|by rewrite length_contents|]. change (qlen q') with (qlen q). intros i Hi. cbn.
  rewrite vget_vset_ne; [by rewrite vget_contents| |lia|apply pos_range; lia].
  intros E. rewrite (tail_pos q Hq) in E. apply pos_inj in E; lia.
Qed.

Lemma vset_same (l : list pkt) i : 0 <= i < vlen l -> vset l i (vget l i) = l.
Proof.
  intros Hi. unfold vset. destruct (Z.leb_spec 0 i); [|lia]. apply list_insert_id. by apply vget_some.
Qed.

Lemma room_next q :
  queue_ok q -> negb (next_i (capacity q) (tail q) =? head q) = true <-> vlen (contents q) < capacity q.
Proof.
  intros Hq. rewrite length_contents by done. pose proof (full_iff q Hq). pose proof (qlen_range q Hq).
  rewrite negb_true_iff, Z.eqb_neq. destruct (decide (qlen q = capacity q)); split; intros; try lia; tauto.
Qed.

(** Moving the tail past a cell that was written appends its packet. *)
Lemma move_tail q p :
  queue_ok q -> vlen (contents q) < capacity q -> vget (cells q) (tail q) = p ->
  let q' := mkQueue (capacity q) (head q) (next_i (capacity q) (tail q)) (cells q) (drops q) (highwater_length q) in
  queue_ok q' /\ contents q' = contents q ++ [p].
Proof.
  intros Hq Hlt Hp q'. pose proof (store_spec q p Hq) as Hs. unfold store in Hs.
  rewrite (proj2 (room_next q Hq) Hlt) in Hs. destruct Hs as (Hq' & _ & Hc & _).
  rewrite <- Hp, vset_same in Hq', Hc by (destruct Hq; lia). rewrite <- Hp.
  split; [by destruct Hq'; constructor|]. exact Hc.
Qed.

Lemma nonempty_iff q : queue_ok q -> negb (head q =? tail q) = true <-> contents q <> [].
Proof.
  intros Hq. pose proof (deq_spec q Hq) as (_ & _ & Hp & _). unfold deq in Hp.
  destruct (negb (head q =? tail q)), (contents q); cbn in Hp; split; intros; congruence.
Qed.

(** Moving the head removes the first packet. *)
Lemma move_head q :
  queue_ok q -> contents q <> [] ->
  let q' := mkQueue (capacity q) (next_i (capacity q) (head q)) (tail q) (cells q) (drops q) (highwater_length q) in
  queue_ok q' /\ contents q = vget (cells q) (head q) :: contents q'.
Proof.
  intros Hq Hne q'. pose proof (deq_spec q Hq) as (Hq' & _ & Hp & Hc). unfold deq in *.
  rewrite (proj2 (nonempty_iff q Hq) Hne) in *. cbn [fst snd] in *.
  change (set_head q (next_i (capacity q) (head q))) with q' in *.
  split; [done|]. rewrite Hc. by destruct (contents q); [|injection Hp as ->].
Qed.
End accesses.

(** ** The invariant *)

Section invariant.
Context {pkt : Type} `{Inhabited pkt}.
Variable cap : Z.

(** The pusher will still wake the empty signal, or the full signal. *)
Definition pusher_wakes_empty (pc : push_pc pkt) : Prop :=
  match pc with P_tail _ _ | P_high _ => True | _ => False end.
Definition pusher_wakes_full (pc : push_pc pkt) : Prop :=
  match pc with P_slept | P_size true => True | _ => False end.

Definition puller_wakes_empty (pc : pull_pc pkt) : Prop :=
  match pc with C_slept | C_size true => True | _ => False end.
Definition puller_wakes_full (pc : pull_pc pkt) : Prop :=
  match pc with C_head _ | C_zero _ => True | _ => False end.

Definition pusher_knows (q : SimpleQueue pkt) (pc : push_pc pkt) : Prop :=
  match pc with
  | P_room p h => vlen (contents q) < capacity q
  | P_stored p h => vlen (contents q) < capacity q /\ vget (cells q) (tail q) = p
  | _ => True
  end.

Definition puller_knows (q : SimpleQueue pkt) (pc : pull_pc pkt) : Prop :=
  match pc with
  | C_some => contents q <> []
  | C_got p => contents q <> [] /\ vget (cells q) (head q) = p
  | _ => True
  end.

Record conc_inv (x : conc pkt) : Prop := {
  cv_queue : queue_ok (base (shared x));
  cv_cap : capacity (base (shared x)) = cap;
  cv_push : pusher_knows (base (shared x)) (pusher x);
  cv_pull : puller_knows (base (shared x)) (puller x);
  cv_empty : active (empty_note (shared x)) = true \/ contents (base (shared x)) = []
             \/ pusher_wakes_empty (pusher x) \/ puller_wakes_empty (puller x);
  cv_full : active (full_note (shared x)) = true \/ vlen (contents (base (shared x))) = cap
            \/ pusher_wakes_full (pusher x) \/ puller_wakes_full (puller x)
}.

(** What a step does to the queue. *)
Definition step_ok (x : conc pkt) (l : option (label pkt)) (x' : conc pkt) : Prop :=
  match l with
  | None => contents (base (shared x')) = contents (base (shared x))
  | Some l => fifo_label cap (contents (base (shared x))) l (contents (base (shared x')))
  end.

Lemma begin_push_inv s c p :
  conc_inv (mkConc s P_idle c) ->
  let x := mkConc s (push_begin s p).1 c in
  conc_inv x /\ step_ok (mkConc s P_idle c) (push_begin s p).2 x.
Proof.
  intros [Hq Hcap Hp Hc He Hf]. cbn in *. unfold push_begin. pose proof (room_next (base s) Hq) as Hr.
  destruct (negb _) eqn:E; cbn.
  - split; [|done]. constructor; cbn; try done. by apply Hr.
  - split; [by constructor|]. split; [|done]. pose proof (qlen_range _ Hq). rewrite <- length_contents in * by done.
    destruct (decide (vlen (contents (base s)) < capacity (base s))) as [Hlt|]; [|lia].
    apply Hr in Hlt. congruence.
Qed.

Lemma begin_pull_inv s pc :
  conc_inv (mkConc s pc C_idle) ->
  let x := mkConc s pc (pull_begin s).1 in
  conc_inv x /\ step_ok (mkConc s pc C_idle) (pull_begin s).2 x.
Proof.
  intros [Hq Hcap Hp Hc He Hf]. cbn in *. unfold pull_begin. pose proof (nonempty_iff (base s) Hq) as Hn.
  destruct (negb _) eqn:E; cbn.
  - split; [|done]. constructor; cbn; try done. by apply Hn.
  - split; [by constructor|]. destruct (contents (base s)); [done|]. assert (false = true) by (by apply Hn). done.
Qed.

Lemma push_step_inv s pc c :
  conc_inv (mkConc s pc c) ->
  let '(s', pc', l) := push_step s pc in
  conc_inv (mkConc s' pc' c) /\ step_ok (mkConc s pc c) l (mkConc s' pc' c).
Proof.
  intros Hi. pose proof Hi as [Hq Hcap Hp Hc He Hf]. cbn in *.
  destruct pc as [|p|p h|p h|h nt|sz| | |room]; cbn [push_step].
  - done.
  - split; [|done]. constructor; cbn; try done. by destruct Hq.
  - destruct (write_tail (base s) p Hq) as (W1 & W2 & W3). unfold step_ok, with_queue.
    cbn [shared base with_base]. split; [|exact W2].
    constructor; cbn [shared pusher puller base with_base empty_note full_note pusher_knows pusher_wakes_empty
      pusher_wakes_full]; [exact W1|done|rewrite W2; split; [done|exact W3]| |by rewrite W2|by rewrite W2].
    destruct c; cbn in *; try done; rewrite ?W2; try done. destruct Hc as [Hne Hg]. split; [done|].
    rewrite vget_vset_ne; [done| |by destruct Hq; lia..]. intros E.
    apply (nonempty_iff (base s) Hq) in Hne. rewrite E, Z.eqb_refl in Hne. done.
  - destruct Hp as [Hlt Hg]. destruct (move_tail (base s) p Hq Hlt Hg) as (W1 & W2). unfold step_ok, with_queue.
    cbn [shared base with_base fifo_label]. split; [|by rewrite <- Hcap].
    constructor; cbn [shared pusher puller base with_base empty_note full_note pusher_knows pusher_wakes_empty
      pusher_wakes_full]; [exact W1|done|done| |by right; right; left|].
    + destruct c; cbn in *; try done; rewrite ?W2; [by destruct (contents (base s))|].
      destruct Hc. split; [by destruct (contents (base s))|done].
    + destruct Hf as [|[|[|]]]; auto. lia.
  - split; [|done]. constructor; cbn; try done. by destruct Hq.
  - split; [|by destruct (sz =? _)]. constructor; cbn; try done; [by destruct (sz =? _)|by left|].
    destruct Hf as [|[|[|]]]; auto; done.
  - split; [|done]. constructor; cbn; try done; auto.
  - split; [|done]. constructor; cbn; try done.
    rewrite queue_size_spec by done. destruct (Z.ltb_spec (vlen (contents (base s))) (capacity (base s))); [auto|].
    right; left. pose proof (qlen_range _ Hq). rewrite <- length_contents in * by done. lia.
  - split; [|by destruct room]. destruct room; constructor; cbn; try done; auto.
Qed.

Lemma pull_step_inv s pc c :
  conc_inv (mkConc s pc c) ->
  let '(s', c', l) := pull_step s c in
  conc_inv (mkConc s' pc c') /\ step_ok (mkConc s pc c) l (mkConc s' pc c').
Proof.
  intros Hi. pose proof Hi as [Hq Hcap Hp Hc He Hf]. cbn in *.
  destruct c as [| |p|p|p| | |some]; cbn [pull_step].
  - done.
  - split; [|done]. constructor; cbn; try done; auto.
  - destruct Hc as [Hne Hg]. destruct (move_head (base s) Hq Hne) as (W1 & W2). unfold step_ok, with_queue.
    cbn [shared base with_base fifo_label]. rewrite Hg in W2. split; [|exact W2].
    constructor; cbn [shared pusher puller base with_base empty_note full_note puller_knows puller_wakes_empty
      puller_wakes_full]; [exact W1|done| |done| |by right; right; right].
    + destruct pc; cbn in *; try done; rewrite W2, vlen_cons in Hp; [lia|]. split; [lia|apply Hp].
    + destruct He as [|[He|[|]]]; auto.
  - split; [|done]. constructor; cbn; try done.
  - split; [|done]. constructor; cbn; try done; auto.
  - destruct (_ <=? _); (split; [|done]); constructor; cbn; try done; auto.
  - split; [|done]. constructor; cbn; try done.
    rewrite queue_size_spec by done. destruct (contents (base s)); [auto|]. rewrite vlen_cons.
    right; right; right. pose proof (vlen_nonneg l). destruct (Z.eqb_spec (vlen l + 1) 0); [lia|done].
  - split; [|by destruct some]. destruct some; constructor; cbn; try done; auto.
Qed.

Lemma cstep_inv x l x' : conc_inv x -> cstep x l x' -> conc_inv x' /\ step_ok x l x'.
Proof.
  intros Hi Hs. destruct Hs as [s c p|s pc c Hpc|s pc|s pc c Hc].
  - by apply begin_push_inv.
  - pose proof (push_step_inv s pc c Hi) as Hst. by destruct (push_step s pc) as [[s' pc'] l].
  - by apply begin_pull_inv.
  - pose proof (pull_step_inv s pc c Hi) as Hst. by destruct (pull_step s c) as [[s' c'] l].
Qed.

Lemma reached_inv ls x :
  0 <= cap < 2147483647 -> reached cap ls x -> conc_inv x /\ fifo_run cap ls (contents (base (shared x))).
Proof.
  intros Hcap. induction 1 as [|ls x l x' Hr [IH1 IH2] Hs].
  - destruct (new_queue_ok (pkt := pkt) cap Hcap) as [Hq Hc]. split; [by constructor; auto|]. cbn. rewrite Hc. constructor.
  - destruct (cstep_inv x l x' IH1 Hs) as [Hi Hk]. split; [done|]. destruct l as [l|]; cbn in *.
    + by eapply fifo_step.
    + rewrite Hk. by rewrite app_nil_r.
Qed.
End invariant.

(** ** Schedules

    An interleaving as a list of moves, so that it can be run. *)

Section schedules.
Context {pkt : Type} `{Inhabited pkt}.

Inductive move := m_push (p : pkt) | m_pusher | m_pull | m_puller.

Definition is_P_idle (pc : push_pc pkt) : bool := match pc with P_idle => true | _ => false end.
Definition is_C_idle (pc : pull_pc pkt) : bool := match pc with C_idle => true | _ => false end.

(** [None] when the thread cannot make the move. *)
Definition make_move (m : move) (x : conc pkt) : option (option (label pkt) * conc pkt) :=
  let '(mkConc s pc c) := x in
  match m with
  | m_push p => if is_P_idle pc then Some ((push_begin s p).2, mkConc s (push_begin s p).1 c) else None
  | m_pusher =>
      if is_P_idle pc then None
      else Some ((push_step s pc).2, mkConc (push_step s pc).1.1 (push_step s pc).1.2 c)
  | m_pull => if is_C_idle c then Some ((pull_begin s).2, mkConc s pc (pull_begin s).1) else None
  | m_puller =>
      if is_C_idle c then None
      else Some ((pull_step s c).2, mkConc (pull_step s c).1.1 pc (pull_step s c).1.2)
  end.

Fixpoint run_moves (ms : list move) (ls : list (label pkt)) (x : conc pkt) : option (list (label pkt) * conc pkt) :=
  match ms with
  | [] => Some (ls, x)
  | m :: ms' =>
      match make_move m x with
      | Some (l, x') => run_moves ms' (ls ++ option_list l) x'
      | None => None
      end
  end.

Definition start (cap : Z) : conc pkt := mkConc (new_note_queue cap) P_idle C_idle.

Lemma make_move_step m x l x' : make_move m x = Some (l, x') -> cstep x l x'.
Proof.
  destruct x as [s pc c]. destruct m; cbn [make_move].
  - destruct pc; try done. intros [= <- <-]. apply c_push_begin.
  - destruct (is_P_idle pc) eqn:Ei; [done|]. intros [= <- <-]. apply c_push_step. by intros ->.
  - destruct c; try done. intros [= <- <-]. apply c_pull_begin.
  - destruct (is_C_idle c) eqn:Ei; [done|]. intros [= <- <-]. apply c_pull_step. by intros ->.
Qed.

Lemma run_moves_reached cap ms ls x ls' x' :
  reached cap ls x -> run_moves ms ls x = Some (ls', x') -> reached cap ls' x'.
Proof.
  revert ls x. induction ms as [|m ms IH]; intros ls x Hr; cbn [run_moves]; [by intros [= <- <-]|].
  destruct (make_move m x) as [[l x1]|] eqn:Em; [|done]. apply IH. apply make_move_step in Em. by eapply reached_step.
Qed.

Lemma start_reached cap ms ls x : run_moves ms [] (start cap) = Some (ls, x) -> reached cap ls x.
Proof. apply run_moves_reached. apply reached_start. Qed.

(** A thread left alone finishes its operation as the sequential model does. *)
Definition push_alone (n : nat) (s : NoteQueue pkt) (pc : push_pc pkt) : NoteQueue pkt * push_pc pkt :=
  Nat.iter n (fun x => (push_step x.1 x.2).1) (s, pc).

Definition pull_alone (n : nat) (s : NoteQueue pkt) (pc : pull_pc pkt) : NoteQueue pkt * pull_pc pkt :=
  Nat.iter n (fun x => (pull_step x.1 x.2).1) (s, pc).

(** Steps an operation still has to make. *)
Definition push_rank (pc : push_pc pkt) : nat :=
  match pc with
  | P_idle => 0 | P_fail _ | P_size _ => 1 | P_slept => 2 | P_woken => 3 | P_high _ => 4 | P_tail _ _ => 5
  | P_stored _ _ => 6 | P_room _ _ => 7
  end.

Definition pull_rank (pc : pull_pc pkt) : nat :=
  match pc with
  | C_idle => 0 | C_size _ | C_zero _ => 1 | C_slept | C_head _ => 2 | C_none | C_got _ => 3 | C_some => 4
  end.
End schedules.

Arguments move : clear implicits.

(** ** Properties *)

(** C4. The lock-free [Queue] is linearizable for one pusher and one puller: in
    every interleaving of their memory accesses, the operations take effect in
    an order in which a sequential bounded FIFO gives each of them the same
    result, and the ring holds exactly what that FIFO holds. *)
Theorem spsc_linearizable {pkt} `{Inhabited pkt} (cap : Z) (ls : list (label pkt)) (x : conc pkt) :
  0 <= cap < 2147483647 -> reached cap ls x ->
  queue_ok (base (shared x)) /\ fifo_run cap ls (contents (base (shared x))).
Proof. intros Hcap Hr. destruct (reached_inv cap ls x Hcap Hr) as [[] Hf]. done. Qed.

(** Packet 1 is pushed; packet 2 is dropped while the puller is about to move the
    head; then the puller takes packet 1 and the pusher stores packet 3. *)
Definition race : list (move Z) :=
  m_push 1 :: replicate 7 m_pusher ++ [m_pull; m_puller; m_push 2; m_pusher; m_puller; m_push 3; m_pusher; m_puller;
   m_pusher; m_pusher; m_puller; m_pusher].

Lemma spsc_linearizable_witness :
  exists ls x, run_moves race [] (start 1) = Some (ls, x) /\ ls = [push_ok 1; push_drop 2; pull_ok 1; push_ok 3]
  /\ queue_ok (base (shared x)) /\ fifo_run 1 ls (contents (base (shared x))).
Proof.
  destruct (run_moves race [] (start 1)) as [[ls x]|] eqn:E; [|vm_compute in E; discriminate].
  exists ls, x. split; [done|]. split; [vm_compute in E; by injection E|].
  apply (spsc_linearizable 1 ls x); [lia|]. by apply (start_reached 1 race).
Defined.

(** C27. No wake-up is lost in any interleaving: whenever the empty signal is off
    although the ring holds packets, or the full signal is off although there is
    room, one of the two threads is about to switch it on; between operations the
    signals agree with the ring. *)
Theorem spsc_no_lost_wakeup {pkt} `{Inhabited pkt} (cap : Z) (ls : list (label pkt)) (x : conc pkt) :
  0 <= cap < 2147483647 -> reached cap ls x ->
  (active (empty_note (shared x)) = false -> contents (base (shared x)) <> [] ->
     pusher_wakes_empty (pusher x) \/ puller_wakes_empty (puller x))
  /\ (active (full_note (shared x)) = false -> vlen (contents (base (shared x))) < cap ->
     pusher_wakes_full (pusher x) \/ puller_wakes_full (puller x))
  /\ (pusher x = P_idle -> puller x = C_idle -> signals_ok (shared x)).
Proof.
  intros Hcap Hr. destruct (reached_inv cap ls x Hcap Hr) as [[Hq Hc Hp Hl He Hf] _]. split; [|split].
  - intros Ha Hne. destruct He as [|[|]]; [congruence|done|done].
  - intros Ha Hne. destruct Hf as [|[|]]; [congruence|lia|done].
  - intros E1 E2. rewrite E1, E2 in *. constructor; [done| |].
    + intros Ha. destruct He as [|[|[|]]]; [congruence|done|done|done].
    + intros Ha. destruct Hf as [|[|[|]]]; [congruence|congruence|done|done].
Qed.

(** The puller finds the queue empty ten times and switches its signal off just
    after the pusher switched it on. *)
Definition sleepy : list (move Z) :=
  concat (replicate 9 [m_pull; m_puller]) ++
  [m_pull; m_push 1; m_pusher; m_pusher; m_pusher; m_pusher; m_puller].

Lemma spsc_no_lost_wakeup_witness :
  exists ls x, run_moves sleepy [] (start 2) = Some (ls, x)
  /\ active (empty_note (shared x)) = false /\ contents (base (shared x)) = [1]
  /\ (pusher_wakes_empty (pusher x) \/ puller_wakes_empty (puller x)).
Proof.
  destruct (run_moves sleepy [] (start 2)) as [[ls x]|] eqn:E; [|vm_compute in E; discriminate].
  assert (Hx : active (empty_note (shared x)) = false /\ contents (base (shared x)) = [1])
    by (vm_compute in E; injection E as <- <-; split; vm_compute; reflexivity).
  exists ls, x. split; [done|]. split; [apply Hx|]. split; [apply Hx|].
  apply (spsc_no_lost_wakeup 2 ls x); [lia|by apply (start_reached 2 sleepy)|apply Hx|]. by destruct Hx as [_ ->].
Defined.

(** Run without interruption, the steps of [push] and [pull] are the
    sequential operations.  Both are wait-free: in whatever state the other
    thread leaves the queue, a step brings the operation closer to its end, which
    is at most seven steps away. *)
Theorem steps_are_operations {pkt} `{Inhabited pkt} (s s' : NoteQueue pkt) (p : pkt) (pc : push_pc pkt) (c : pull_pc pkt) :
  push_alone 7 s (push_begin s p).1 = ((full_push true s p).1, P_idle)
  /\ pull_alone 4 s (pull_begin s).1 = ((full_pull true s).1, C_idle)
  /\ (push_rank (push_step s' pc).1.2 <= Nat.pred (push_rank pc) <= 6)%nat
  /\ (pull_rank (pull_step s' c).1.2 <= Nat.pred (pull_rank c) <= 3)%nat.
Proof.
  split_and!; try (destruct pc; cbn; repeat case_match; cbn; lia); try (destruct c; cbn; repeat case_match; cbn; lia).
  - unfold push_alone, push_begin, full_push. destruct (negb _) eqn:E; [|done]. cbn -[storage_size].
    unfold push_success. set (sz := storage_size _ _ _). cbn. destruct (sz =? capacity (base s)) eqn:Es; [|done].
    cbn. by destruct (_ <? _).
  - unfold pull_alone, pull_begin, full_pull. destruct (negb _) eqn:E; [done|]. cbn. unfold pull_failure.
    destruct (_ <=? _); [|done]. cbn. unfold sleep_empty. cbn. by destruct (negb _).
Qed.
