(* ===== verification/TSQueue.v ===== *)
(** * The queue for several pushers and pullers

    [ThreadSafeQueue] (elements/standard/threadsafequeue.{hh,cc}) guards the two
    ends of a [Queue] by shadow indices [_xhead] and [_xtail]: a thread that moves
    [_xtail] from the tail to the next cell by compare-and-swap owns the tail until
    it stores the new one.

    Called by one thread at a time it is a [Queue].  With several threads the
    guard fails when the ring goes round once between reading the tail and the
    compare-and-swap. *)

From S2P Require Import Prelude Insn Queue QueueSpec NoteQueue ConcQueue.

Section ts.
Context {pkt : Type} `{Inhabited pkt}.

Record ThreadSafeQueue := mkTS {
  note : NoteQueue pkt;
  xhead : Z;                     (** [_xhead] *)
  xtail : Z                      (** [_xtail] *)
}.

Definition new_ts (cap : Z) : ThreadSafeQueue := mkTS (new_note_queue cap) 0 0.

(** ** One thread at a time

    A compare-and-swap that fails is retried for ever when no other thread runs;
    the operation then has no result. *)

Definition ts_push (s : ThreadSafeQueue) (p : pkt) : option (ThreadSafeQueue * list (push_event pkt)) :=
  let q := base (note s) in
  let t := tail q in
  let nt := next_i (capacity q) t in
  if xtail s =? t then
    let h := head q in
    if negb (nt =? h) then Some (mkTS (push_success true (note s) h t nt p) (xhead s) nt, [])
    else let '(n, es) := push_failure (note s) p in Some (mkTS n (xhead s) t, es)
  else None.

Definition ts_pull (s : ThreadSafeQueue) : option (ThreadSafeQueue * option pkt) :=
  let q := base (note s) in
  let h := head q in
  let nh := next_i (capacity q) h in
  if xhead s =? h then
    let t := tail q in
    if negb (t =? h) then let '(n, p) := pull_success (note s) h nh in Some (mkTS n nh (xtail s), p)
    else let '(n, p) := pull_failure true (note s) in Some (mkTS n h (xtail s), p)
  else None.

Definition ts_resync (n : NoteQueue pkt) : ThreadSafeQueue := mkTS n (head (base n)) (tail (base n)).

Definition ts_live_reconfigure (s : ThreadSafeQueue) (new_capacity : Z) : ThreadSafeQueue * list pkt :=
  let '(n, killed) := full_live_reconfigure (note s) new_capacity in (ts_resync n, killed).

Definition ts_take_state (s : ThreadSafeQueue) (other : SimpleQueue pkt)
    : ThreadSafeQueue * option (SimpleQueue pkt * list pkt) :=
  match take_state (base (note s)) other with
  | Some (q, other', killed) => (ts_resync (with_base (note s) q), Some (other', killed))
  | None => (ts_resync (note s), None)
  end.

(** The shadow indices are the indices: no operation is under way. *)
Definition settled (s : ThreadSafeQueue) : Prop :=
  xhead s = head (base (note s)) /\ xtail s = tail (base (note s)).

(** ** Threads *)

Inductive tpush_pc :=
| T_idle
| T_cas (p : pkt) (t : Z)        (** after [t = tail()] *)
| T_locked (p : pkt) (t : Z)     (** after [compare_swap] *)
| T_room (p : pkt) (h t : Z)     (** after [h = head()], with room *)
| T_undo (p : pkt) (t : Z)       (** after [h = head()], without *)
| T_fail (p : pkt)               (** after [_xtail = t] *)
| T_stored (p : pkt) (h t : Z)   (** after [_q[t] = p] *)
| T_rest (pc : push_pc pkt).     (** the rest of [push_success] *)

Definition T_next (pc : push_pc pkt) : tpush_pc := match pc with P_idle => T_idle | _ => T_rest pc end.

Definition tpush_step (s : ThreadSafeQueue) (pc : tpush_pc) : ThreadSafeQueue * tpush_pc * option (label pkt) :=
  let n := note s in
  let q := base n in
  match pc with
  | T_idle => (s, T_idle, None)
  | T_cas p t =>
      if xtail s =? t then (mkTS n (xhead s) (next_i (capacity q) t), T_locked p t, None)
      else (s, T_cas p (tail q), None)
  | T_locked p t =>
      (s, if negb (next_i (capacity q) t =? head q) then T_room p (head q) t else T_undo p t, None)
  | T_undo p t => (mkTS n (xhead s) t, T_fail p, Some (push_drop p))
  | T_fail p => (mkTS (with_base n (count_drop q)) (xhead s) (xtail s), T_idle, None)
  | T_room p h t =>
      (mkTS (with_queue n (vset (cells q) t p) (head q) (tail q) (highwater_length q) (drops q)) (xhead s) (xtail s),
       T_stored p h t, None)
  | T_stored p h t =>
      let nt := next_i (capacity q) t in
      (mkTS (with_queue n (cells q) (head q) nt (highwater_length q) (drops q)) (xhead s) (xtail s),
       T_rest (P_tail h nt), Some (push_ok p))
  | T_rest pc => let '(n', pc', l) := push_step n pc in (mkTS n' (xhead s) (xtail s), T_next pc', l)
  end.

Inductive tpull_pc :=
| U_idle
| U_cas (h : Z)                  (** after [h = head()] *)
| U_locked (h : Z)               (** after [compare_swap] *)
| U_some (h : Z)                 (** after [t = tail()], [t != h] *)
| U_undo (h : Z)                 (** after [t = tail()], [t == h] *)
| U_got (h : Z) (p : pkt)        (** after [p = _q[h]] *)
| U_rest (pc : pull_pc pkt).     (** the rest of [pull_success] or [pull_failure] *)

Definition U_next (pc : pull_pc pkt) : tpull_pc := match pc with C_idle => U_idle | _ => U_rest pc end.

Definition tpull_step (s : ThreadSafeQueue) (pc : tpull_pc) : ThreadSafeQueue * tpull_pc * option (label pkt) :=
  let n := note s in
  let q := base n in
  match pc with
  | U_idle => (s, U_idle, None)
  | U_cas h =>
      if xhead s =? h then (mkTS n (next_i (capacity q) h) (xtail s), U_locked h, None)
      else (s, U_cas (head q), None)
  | U_locked h => (s, if negb (tail q =? h) then U_some h else U_undo h, None)
  | U_undo h => (mkTS n h (xtail s), U_rest C_none, Some pull_empty)
  | U_some h => (s, U_got h (vget (cells q) h), None)
  | U_got h p =>
      (mkTS (with_queue n (cells q) (next_i (capacity q) h) (tail q) (highwater_length q) (drops q)) (xhead s) (xtail s),
       U_rest (C_head p), Some (pull_ok p))
  | U_rest pc => let '(n', pc', l) := pull_step n pc in (mkTS n' (xhead s) (xtail s), U_next pc', l)
  end.

(** Any number of threads of each kind. *)
Record ts_conc := mkTC { ts_shared : ThreadSafeQueue; pushers : list tpush_pc; pullers : list tpull_pc }.

Inductive ts_move := tm_push (i : nat) (p : pkt) | tm_pusher (i : nat) | tm_pull (i : nat) | tm_puller (i : nat).

Definition ts_make_move (m : ts_move) (x : ts_conc) : option (option (label pkt) * ts_conc) :=
  let '(mkTC s ps cs) := x in
  match m with
  | tm_push i p =>
      match ps !! i with
      | Some T_idle => Some (None, mkTC s (<[i := T_cas p (tail (base (note s)))]> ps) cs)
      | _ => None
      end
  | tm_pusher i =>
      match ps !! i with
      | None | Some T_idle => None
      | Some pc => let '(s', pc', l) := tpush_step s pc in Some (l, mkTC s' (<[i := pc']> ps) cs)
      end
  | tm_pull i =>
      match cs !! i with
      | Some U_idle => Some (None, mkTC s ps (<[i := U_cas (head (base (note s)))]> cs))
      | _ => None
      end
  | tm_puller i =>
      match cs !! i with
      | None | Some U_idle => None
      | Some pc => let '(s', pc', l) := tpull_step s pc in Some (l, mkTC s' ps (<[i := pc']> cs))
      end
  end.

Fixpoint ts_run (ms : list ts_move) (ls : list (label pkt)) (x : ts_conc) : option (list (label pkt) * ts_conc) :=
  match ms with
  | [] => Some (ls, x)
  | m :: ms' =>
      match ts_make_move m x with
      | Some (l, x') => ts_run ms' (ls ++ option_list l) x'
      | None => None
      end
  end.

Definition ts_start (cap : Z) (npushers npullers : nat) : ts_conc :=
  mkTC (new_ts cap) (replicate npushers T_idle) (replicate npullers U_idle).
End ts.

Arguments ThreadSafeQueue : clear implicits.
Arguments ts_conc : clear implicits.
Arguments ts_move : clear implicits.

(** ** Properties *)

(** Used by one thread at a time, [ThreadSafeQueue] is [Queue]: between
    operations the shadow indices equal the indices, the compare-and-swaps
    succeed at once, every operation has the effect and the result of [Queue]'s,
    and reconfiguration and hot swapping re-establish the shadow indices. *)
Theorem ts_sequential {pkt} `{Inhabited pkt} (s : ThreadSafeQueue pkt) (p : pkt) (n : Z) (other : SimpleQueue pkt) :
  settled s ->
  (exists s1, ts_push s p = Some (s1, (full_push true (note s) p).2)
     /\ note s1 = (full_push true (note s) p).1 /\ settled s1)
  /\ (exists s2, ts_pull s = Some (s2, (full_pull true (note s)).2)
     /\ note s2 = (full_pull true (note s)).1 /\ settled s2)
  /\ (note (ts_live_reconfigure s n).1 = (full_live_reconfigure (note s) n).1
      /\ settled (ts_live_reconfigure s n).1)
  /\ settled (ts_take_state s other).1.
Proof.
  intros [Hh Ht]. split_and!.
  - unfold ts_push, full_push. rewrite Ht, Z.eqb_refl. destruct (negb _) eqn:E; cbn.
    + eexists. split; [done|]. split; [done|]. unfold settled, push_success. cbn. by repeat case_match.
    + eexists. split; [done|]. by split.
  - unfold ts_pull, full_pull. rewrite Hh, Z.eqb_refl, (Z.eqb_sym (tail _)). destruct (negb _) eqn:E; cbn.
    + eexists. split; [done|]. by split.
    + unfold pull_failure. destruct (_ <=? _); eexists; (split; [done|]); (split; [done|]); [|done].
      unfold settled. cbn [note xhead xtail]. by rewrite sleep_empty_base.
  - unfold ts_live_reconfigure. by destruct (full_live_reconfigure (note s) n).
  - by unfold ts_live_reconfigure; destruct (full_live_reconfigure (note s) n).
  - unfold ts_take_state. by destruct (take_state (base (note s)) other) as [[[? ?] ?]|].
Qed.

Lemma ts_sequential_witness :
  exists s1, ts_push (new_ts 2) 7 = Some (s1, []) /\ contents (base (note s1)) = [7] /\ settled s1.
Proof.
  destruct (ts_sequential (new_ts 2) 7 3 (new_queue 1)) as [(s1 & H1 & H2 & H3) _]; [done|].
  exists s1. split; [exact H1|]. split; [rewrite H2; vm_compute; reflexivity|exact H3].
Defined.

(** A pusher reads the tail, index 0, and is delayed while the ring goes round
    once; when another pusher has just reserved cell 2 its compare-and-swap
    succeeds although that pusher still owns the tail. *)
Definition wrap_around : list (ts_move Z) :=
  [tm_push 1 40]
  ++ (tm_push 0 10 :: replicate 6 (tm_pusher 0)) ++ (tm_pull 0 :: replicate 6 (tm_puller 0))
  ++ (tm_push 0 20 :: replicate 6 (tm_pusher 0)) ++ (tm_pull 0 :: replicate 6 (tm_puller 0))
  ++ [tm_push 0 30; tm_pusher 0; tm_pusher 0]
  ++ replicate 9 (tm_pusher 1)
  ++ (tm_pull 0 :: replicate 6 (tm_puller 0))
  ++ replicate 4 (tm_pusher 0).

(** [ThreadSafeQueue] is not safe for two pushers: in a ring of three cells
    there is an interleaving after which a pull has returned a cell that was
    never written, two packets that were stored successfully are gone, and every
    later push spins for ever. *)
Theorem ts_wrap_around :
  exists x, ts_run wrap_around [] (ts_start 2 2 1)
    = Some ([push_ok 10; pull_ok 10; push_ok 20; pull_ok 20; push_ok 40; pull_ok inhabitant; push_ok 30], x)
  /\ pushers x = [T_idle; T_idle] /\ pullers x = [U_idle]
  /\ contents (base (note (ts_shared x))) = []
  /\ forall p, ts_push (ts_shared x) p = None.
Proof. eexists. split; [vm_compute; reflexivity|]. by repeat split. Qed.
