(* ===== verification/Router.v ===== *)
(** * The router of sandbox_tester.click

    Each direction of traffic runs through a classifier whose output 0
    (throttled) and output 1 (measurement tools) lead to a [Queue] each; the
    throttled queue is drained through a [BandwidthShaper] into input 1 of a
    [PrioSched], the other queue into its input 0, and the device pulls from the
    scheduler.  The two classifiers share the static map of flagged flows.

    The model composes the elements: a received packet is pushed through the
    classifier into a queue, a transmission pulls through the scheduler.  [Print]
    passes packets on; the devices are the events of a run. *)

From stdpp Require Import gmap sorting.
From S2P Require Import Prelude Packet Insn Ersa Queue QueueSpec NoteQueue Rate Sched.

#[export] Instance packet_inhabited : Inhabited packet := populate (packet_of []).

(** One direction: classifier, two queues, shaper. *)
Record Path := mkPath {
  p_cls : Classifier;
  p_thr : NoteQueue packet;      (** from [classifier[0]] *)
  p_meas : NoteQueue packet;     (** from [classifier[1]] *)
  p_rate : GapRate               (** of the [BandwidthShaper] *)
}.

Definition new_path (cap r garbage : Z) : Path :=
  mkPath new_classifier (new_note_queue cap) (new_note_queue cap) (new_rate r garbage).

Section router.
Variable mt : bool.

(** ** Transmitting

    A packet is pulled at a time, and is marked with whether it comes from the
    throttled side. *)

#[export] Instance path_upstream : Upstream (Timestamp * Path) (bool * packet) := {
  up_pull x i :=
    let '(now, s) := x in
    if i =? 0 then
      let '(q, p) := full_pull mt (p_meas s) in
      ((now, mkPath (p_cls s) (p_thr s) q (p_rate s)), pair false <$> p)
    else
      let '(g, q, p) := bandwidth_pull (full_pull mt) pkt_length (p_rate s) (p_thr s) now in
      ((now, mkPath (p_cls s) q (p_meas s) g), pair true <$> p);
  up_signal x i := active (empty_note (if i =? 0 then p_meas x.2 else p_thr x.2))
}.

Definition transmit (now : Timestamp) (s : Path) : Path * option (bool * packet) :=
  let '((_, s'), p) := prio_pull 2 (now, s) in (s', p).

(** ** Receiving *)

(** Where the classifier sends a packet. *)
Definition goes_throttled (ev : list event) : bool := bool_decide (outputs ev = [0]).

Definition receive (t t' : Z) (p : packet) (F : flags) (s : Path) : flags * Path * bool * list (push_event packet) :=
  let '(c, F', ev) := Ersa.push t t' p (p_cls s) F in
  if goes_throttled ev then
    let '(q, es) := full_push mt (p_thr s) p in (F', mkPath c q (p_meas s) (p_rate s), true, es)
  else
    let '(q, es) := full_push mt (p_meas s) p in (F', mkPath c (p_thr s) q (p_rate s), false, es).

(** ** Both directions *)

Inductive side := to_server | to_client.

Record Router := mkRouter { r_flags : flags; r_server : Path; r_client : Path }.

Definition path_of (r : Router) (d : side) : Path :=
  match d with to_server => r_server r | to_client => r_client r end.

Definition set_path (r : Router) (F : flags) (d : side) (s : Path) : Router :=
  match d with to_server => mkRouter F s (r_client r) | to_client => mkRouter F (r_server r) s end.

Definition new_router (cap rt garbage : Z) : Router :=
  mkRouter ∅ (new_path cap rt garbage) (new_path cap rt garbage).

Inductive input := i_receive (d : side) (t t' : Z) (p : packet) | i_transmit (d : side) (now : Timestamp).

Inductive output :=
| o_stored (d : side) (throttled : bool) (p : packet)
| o_killed (d : side) (throttled : bool) (p : packet)
| o_sent (d : side) (throttled : bool) (p : packet).

Definition router_step (r : Router) (i : input) : Router * list output :=
  match i with
  | i_receive d t t' p =>
      let '(F, s, throttled, es) := receive t t' p (r_flags r) (path_of r d) in
      (set_path r F d s, [if bool_decide (length es = 0%nat) then o_stored d throttled p else o_killed d throttled p])
  | i_transmit d now =>
      let '(s, x) := transmit now (path_of r d) in
      (set_path r (r_flags r) d s, match x with Some (throttled, p) => [o_sent d throttled p] | None => [] end)
  end.

Fixpoint router_run (r : Router) (ins : list input) : Router * list output :=
  match ins with
  | [] => (r, [])
  | i :: ins' =>
      let '(r1, o1) := router_step r i in
      let '(r2, o2) := router_run r1 ins' in (r2, o1 ++ o2)
  end.
End router.


#[export] Instance side_eq_dec : EqDecision side.
Proof. solve_decision. Defined.

(** ** What left and entered a queue *)

Definition stored (d : side) (throttled : bool) (os : list output) : list packet :=
  omap (fun o => match o with o_stored d' k p => if decide (d' = d /\ k = throttled) then Some p else None | _ => None end) os.

Definition sent (d : side) (throttled : bool) (os : list output) : list packet :=
  omap (fun o => match o with o_sent d' k p => if decide (d' = d /\ k = throttled) then Some p else None | _ => None end) os.

Definition queue_for (s : Path) (throttled : bool) : NoteQueue packet := if throttled then p_thr s else p_meas s.

(** Transmission times of one direction. *)
Definition send_times (d : side) (ins : list input) : list Timestamp :=
  omap (fun i => match i with i_transmit d' now => if decide (d' = d) then Some now else None | _ => None end) ins.

Definition bytes (ps : list packet) : Z := foldr (fun p n => pkt_length p + n) 0 ps.

Definition input_ok (L : Z) (i : input) : Prop :=
  match i with i_receive _ _ _ p => pkt_length p <= L | i_transmit _ now => time_ok now end.

(** ** Queues *)

Section queues.
Variable mt : bool.
Implicit Types (q : NoteQueue packet).

Lemma hd_tl {A} (l : list A) x : Some x = hd_error l -> l = x :: tl l.
Proof. destruct l; [done|]. by intros [= ->]. Qed.

Lemma pull_queue q :
  signals_ok q ->
  signals_ok (full_pull mt q).1 /\ (full_pull mt q).2 = hd_error (contents (base q))
  /\ contents (base (full_pull mt q).1) = tl (contents (base q)).
Proof.
  intros Hs. split; [by apply full_pull_signals|]. destruct (full_pull_base mt q) as [-> ->].
  destruct (deq_spec (base q) (so_queue _ Hs)) as (_ & _ & H1 & H2). done.
Qed.

Lemma push_queue q p :
  signals_ok q ->
  signals_ok (full_push mt q p).1
  /\ contents (base (full_push mt q p).1)
     = contents (base q) ++ (if bool_decide (length (full_push mt q p).2 = 0%nat) then [p] else []).
Proof.
  intros Hs. split; [by apply full_push_signals|]. destruct (full_push_base mt q p) as [-> ->]. unfold push.
  pose proof (store_spec (base q) p (so_queue _ Hs)) as Hst. destruct (store (base q) p) as [q'|]; cbn [fst snd].
  - destruct Hst as (_ & _ & -> & _). done.
  - rewrite bool_decide_eq_false_2 by (destruct (_ && _); cbn; lia). by rewrite app_nil_r.
Qed.

Record path_ok (s : Path) : Prop := {
  po_thr : signals_ok (p_thr s);
  po_meas : signals_ok (p_meas s)
}.

(** What a transmission can be. *)
Inductive transmitted (now : Timestamp) (s s' : Path) : option (bool * packet) -> Prop :=
| tr_meas p :
    contents (base (p_meas s)) = p :: contents (base (p_meas s')) -> p_thr s' = p_thr s -> p_rate s' = p_rate s ->
    transmitted now s s' (Some (false, p))
| tr_throttled p :
    contents (base (p_meas s)) = [] -> contents (base (p_meas s')) = [] ->
    contents (base (p_thr s)) = p :: contents (base (p_thr s')) ->
    bandwidth_pull (full_pull mt) pkt_length (p_rate s) (p_thr s) now = (p_rate s', p_thr s', Some p) ->
    transmitted now s s' (Some (true, p))
| tr_none :
    contents (base (p_meas s)) = [] -> contents (base (p_meas s')) = [] ->
    contents (base (p_thr s')) = contents (base (p_thr s)) ->
    contents (base (p_thr s)) = [] \/ (need_update (p_rate s) now).2 = false ->
    p_rate s' = p_rate s
      \/ bandwidth_pull (full_pull mt) pkt_length (p_rate s) (p_thr s) now = (p_rate s', p_thr s', None) ->
    transmitted now s s' None.

#[local] Instance upstream : Upstream (Timestamp * Path) (bool * packet) := path_upstream mt.

(** The second input, once the first one has nothing. *)
Lemma shaper_turn now s q :
  path_ok s -> signals_ok q -> contents (base (p_meas s)) = [] -> contents (base q) = [] ->
  let '(x, p) := signal_pull (now, mkPath (p_cls s) (p_thr s) q (p_rate s)) 1 in
  path_ok x.2 /\ transmitted now s x.2 p.
Proof.
  intros [Ht Hm] Hq Hn0 Hn. unfold signal_pull, up_signal, up_pull, upstream, path_upstream.
  change (1 =? 0) with false. cbv iota. cbn [snd p_thr p_rate p_cls p_meas].
  destruct (pull_queue (p_thr s) Ht) as (T1 & T2 & T3).
  destruct (active (empty_note (p_thr s))) eqn:Ea.
  - destruct (bandwidth_pull (full_pull mt) pkt_length (p_rate s) (p_thr s) now) as [[g q'] p] eqn:Eb. pose proof Eb as Eb0.
    unfold bandwidth_pull in Eb. destruct (need_update (p_rate s) now) as [g0 need] eqn:En. destruct need.
    + destruct (full_pull mt (p_thr s)) as [q1 [p1|]] eqn:Ep; cbn [fst snd] in *; injection Eb as <- <- <-; cbn.
      * split; [by constructor|]. apply tr_throttled; cbn; try done. rewrite T3. by apply hd_tl.
      * split; [by constructor|]. assert (Hn1 : contents (base (p_thr s)) = []) by (by destruct (contents (base (p_thr s)))).
        apply tr_none; cbn; try done; [by rewrite T3, Hn1|by left|by right].
    + injection Eb as <- <- <-. cbn. split; [by constructor|].
      apply tr_none; cbn; try done; [right; exact (f_equal snd En)|by right].
  - cbn. split; [by constructor|]. apply tr_none; cbn; try done; [left; by apply (so_empty _ Ht)|by left].
Qed.

Lemma transmit_spec now s :
  path_ok s -> path_ok (transmit mt now s).1 /\ transmitted now s (transmit mt now s).1 (transmit mt now s).2.
Proof.
  intros Hs. pose proof Hs as [Ht Hm]. destruct (pull_queue (p_meas s) Hm) as (M1 & M2 & M3).
  unfold transmit, prio_pull. cbn [prio_from]. fold upstream. change (0 + 1) with 1.
  assert (Hfirst : signal_pull (now, s) 0
    = if active (empty_note (p_meas s))
      then let '(q, p) := full_pull mt (p_meas s) in ((now, mkPath (p_cls s) (p_thr s) q (p_rate s)), pair false <$> p)
      else ((now, s), None)) by done.
  rewrite Hfirst. destruct (active (empty_note (p_meas s))) eqn:Ea.
  - destruct (full_pull mt (p_meas s)) as [q [p|]]; cbn [fst snd fmap option_fmap option_map] in *.
    + split; [by constructor|]. apply tr_meas; cbn; try done. rewrite M3. by apply hd_tl.
    + assert (Hn : contents (base (p_meas s)) = []) by (by destruct (contents (base (p_meas s)))).
      pose proof (shaper_turn now s q Hs M1 Hn ltac:(by rewrite M3, Hn)) as Hturn.
      by destruct (signal_pull _ 1) as [[now' s'] [[k p]|]].
  - pose proof (so_empty _ Hm Ea) as Hn. pose proof (shaper_turn now s (p_meas s) Hs Hm Hn Hn) as Hturn.
    destruct s as [c th me g]. cbn [p_cls p_thr p_meas p_rate] in *.
    by destruct (signal_pull _ 1) as [[now' s'] [[k p]|]].
Qed.
End queues.

(** ** Receiving *)

Lemma classify_one t p b s F : exists k, (k = 0 \/ k = 1) /\ (classify t p b s F).2 = [Output k].
Proof. unfold classify. repeat case_match; eauto. Qed.

(** The classifier sends a packet to exactly one of its two outputs. *)
Lemma push_one_output t t' p s F : exists k, (k = 0 \/ k = 1) /\ outputs (Ersa.push t t' p s F).2 = [k].
Proof.
  destruct (push_observe t t' p s F) as [shown ->]. cbv zeta.
  destruct (iperf_packet p); [by exists 1; auto|]. destruct (skip_packet p _); [by exists 0; auto|].
  destruct (observation_over t _); cbn [snd].
  - destruct (classify_one t p (get_current_behavior_string (current_behavior_map (observe t p s)))
      (reset_observation (observe t p s)) ∅) as (k & Hk & ->).
    exists k. split; [done|]. by rewrite <- (app_nil_l [k]).
  - destruct (classify_one t p (get_current_behavior_string (current_behavior_map (observe t p s)))
      (observe t p s) F) as (k & Hk & ->). by exists k.
Qed.

Lemma receive_spec mt t t' p F s :
  path_ok s ->
  let '(F', s', k, es) := receive mt t t' p F s in
  path_ok s' /\ p_rate s' = p_rate s /\ queue_for s' (negb k) = queue_for s (negb k)
  /\ contents (base (queue_for s' k))
     = contents (base (queue_for s k)) ++ (if bool_decide (length es = 0%nat) then [p] else [])
  /\ outputs (Ersa.push t t' p (p_cls s) F).2 = [if k then 0 else 1].
Proof.
  intros [Ht Hm]. unfold receive. destruct (push_one_output t t' p (p_cls s) F) as (k & Hk & Ho).
  destruct (Ersa.push t t' p (p_cls s) F) as [[c F'] ev]. cbn [snd] in Ho. unfold goes_throttled. rewrite Ho.
  destruct Hk as [-> | ->]; cbn [bool_decide].
  - rewrite bool_decide_eq_true_2 by done. destruct (push_queue mt (p_thr s) p Ht) as [Q1 Q2].
    destruct (full_push mt (p_thr s) p) as [q es]. by split_and!; [constructor|..].
  - rewrite bool_decide_eq_false_2 by done. destruct (push_queue mt (p_meas s) p Hm) as [Q1 Q2].
    destruct (full_push mt (p_meas s) p) as [q es]. by split_and!; [constructor|..].
Qed.

(** ** Runs *)

Section runs.
Variables (mt : bool) (r L garbage : Z) (d : side) (t0 : Timestamp).
Hypothesis r_range : 0 < r <= 536870912.
Hypothesis L_range : 1 <= L <= 536870912.
Hypothesis t0_ok : time_ok t0.

(** The shaper after [n] bytes, last asked at or before [last]. *)
Definition shaped (last : Timestamp) (g : GapRate) (n : Z) : Prop :=
  (g = new_rate r garbage /\ n = 0)
  \/ exists t, running r L g t /\ time_le t last /\ n <= sec_count g + r * (sec t - sec t0).

Lemma time_le_trans a b c : time_le a b -> time_le b c -> time_le a c.
Proof. unfold time_le. lia. Qed.

Lemma need_update_again g now :
  tv_sec g < 0 -> 0 <= sec now -> need_update (need_update g now).1 now = need_update g now.
Proof.
  intros Hg Hn. unfold need_update. rewrite (proj2 (Z.ltb_lt _ _) Hg). cbn [fst tv_sec].
  rewrite (proj2 (Z.ltb_ge _ _) Hn), Z.ltb_irrefl. done.
Qed.

Lemma shaped_pull last now g (q : NoteQueue packet) n g' q' p :
  shaped last g n -> time_ok now -> time_le t0 last -> time_le last now ->
  (forall x, (full_pull mt q).2 = Some x -> 0 <= pkt_length x <= L) ->
  bandwidth_pull (full_pull mt) pkt_length g q now = (g', q', p) ->
  shaped now g' (n + from_option pkt_length 0 p).
Proof.
  intros Hs Hnow Hle0 Hle Hlen Hb. right. exists now.
  destruct Hs as [[-> ->]|(t & Hr & Ht & Hn)].
  - destruct (first_need_update r L r_range L_range (new_rate r garbage) now eq_refl eq_refl eq_refl Hnow) as [R0 C0].
    set (g0 := (need_update (new_rate r garbage) now).1) in *.
    assert (Hb' : bandwidth_pull (full_pull mt) pkt_length g0 q now = (g', q', p)).
    { rewrite <- Hb. unfold bandwidth_pull, g0. rewrite need_update_again; [done|cbn; lia|apply Hnow]. }
    pose proof (bandwidth_pull_running (full_pull mt) pkt_length r L r_range L_range g0 q now now Hlen R0 Hnow
      ltac:(right; lia)) as Hp. rewrite Hb' in Hp. destruct Hp as [R1 C1]. split; [done|]. split; [right; lia|].
    assert (0 <= need_at r (usec now)) by (apply (top_need r r_range (usec now)); apply Hnow).
    unfold time_le in *. nia.
  - pose proof (bandwidth_pull_running (full_pull mt) pkt_length r L r_range L_range g q t now Hlen Hr Hnow
      (time_le_trans _ _ _ Ht Hle)) as Hp. rewrite Hb in Hp. destruct Hp as [R1 C1].
    split; [done|]. split; [right; lia|]. lia.
Qed.

Record run_inv (x : Router) (os : list output) (last : Timestamp) : Prop := {
  ri_path : path_ok (path_of x d);
  ri_queue k : stored d k os = sent d k os ++ contents (base (queue_for (path_of x d) k));
  ri_len : Forall (fun p => pkt_length p <= L) (contents (base (p_thr (path_of x d))));
  ri_rate : shaped last (p_rate (path_of x d)) (bytes (sent d true os));
  ri_time : time_le t0 last
}.

Lemma bytes_app ps qs : bytes (ps ++ qs) = bytes ps + bytes qs.
Proof. induction ps as [|p ps IH]; cbn; [done|]. unfold bytes in *. lia. Qed.

Lemma path_of_set x F d' s : path_of (set_path x F d' s) d = if decide (d' = d) then s else path_of x d.
Proof. destruct d', d; done. Qed.

Lemma pkt_length_nonneg p : 0 <= pkt_length p.
Proof. apply vlen_nonneg. Qed.

Lemma sent_one k p j : sent d j [o_sent d k p] = if Bool.eqb k j then [p] else [].
Proof. cbn. destruct k, j; cbn; by (rewrite decide_True by done) || (rewrite decide_False by naive_solver). Qed.

(** An event of the other direction. *)
Lemma other_inv x os last F d' s o :
  d' <> d -> run_inv x os last -> stored d true o = [] -> stored d false o = [] -> sent d true o = [] ->
  sent d false o = [] -> run_inv (set_path x F d' s) (os ++ o) last.
Proof.
  intros Hd [H1 H2 H3 H4 H5] S1 S2 S3 S4.
  assert (Hs : forall k, stored d k (os ++ o) = stored d k os).
  { intros k. unfold stored in *. rewrite omap_app. destruct k; [rewrite S1|rewrite S2]; apply app_nil_r. }
  assert (Hs' : forall k, sent d k (os ++ o) = sent d k os).
  { intros k. unfold sent in *. rewrite omap_app. destruct k; [rewrite S3|rewrite S4]; apply app_nil_r. }
  constructor; rewrite ?path_of_set; rewrite ?decide_False by done; rewrite ?Hs'; try done.
  intros k. by rewrite Hs, Hs', H2.
Qed.

Lemma receive_inv x os last t t' p F s k es :
  run_inv x os last -> pkt_length p <= L -> receive mt t t' p (r_flags x) (path_of x d) = (F, s, k, es) ->
  run_inv (set_path x F d s) (os ++ [if bool_decide (length es = 0%nat) then o_stored d k p else o_killed d k p]) last.
Proof.
  intros [H1 H2 H3 H4 H5] Hl Hr. pose proof (receive_spec mt t t' p (r_flags x) (path_of x d) H1) as Hs.
  rewrite Hr in Hs. destruct Hs as (R1 & R2 & R3 & R4 & _). set (o := if bool_decide _ then _ else _).
  assert (Hsent : forall j, sent d j (os ++ [o]) = sent d j os).
  { intros j. unfold sent. rewrite omap_app. unfold o. case_bool_decide; cbn; apply app_nil_r. }
  constructor; rewrite ?path_of_set; rewrite ?decide_True by done; rewrite ?Hsent, ?R2; try done.
  - intros j. rewrite Hsent. unfold stored at 1. rewrite omap_app. fold (stored d j os).
    rewrite H2. rewrite <- app_assoc. f_equal. destruct (decide (j = k)) as [->|Hne].
    + rewrite R4. f_equal. unfold o. case_bool_decide; cbn; [by rewrite decide_True|done].
    + assert (j = negb k) as -> by (by destruct j, k). rewrite R3. unfold o. case_bool_decide; cbn; [|apply app_nil_r].
      rewrite decide_False; [apply app_nil_r|]. intros [_ E]. by destruct k.
  - destruct k; cbn [queue_for negb] in R3, R4; [|by rewrite R3]. rewrite R4. apply Forall_app. split; [done|].
    case_bool_decide; by repeat constructor.
Qed.

Lemma transmit_inv x os last now s y :
  run_inv x os last -> time_ok now -> time_le last now -> transmit mt now (path_of x d) = (s, y) ->
  run_inv (set_path x (r_flags x) d s)
    (os ++ match y with Some (k, p) => [o_sent d k p] | None => [] end) now.
Proof.
  intros [H1 H2 H3 H4 H5] Hnow Hle Ht. destruct (transmit_spec mt now _ H1) as [P1 P2]. rewrite Ht in P1, P2. cbn [fst snd] in *.
  set (o := match y with Some (k, p) => [o_sent d k p] | None => [] end).
  assert (Hstored : forall j, stored d j (os ++ o) = stored d j os).
  { intros j. unfold stored. rewrite omap_app. unfold o. destruct y as [[k p]|]; cbn; apply app_nil_r. }
  assert (Hsent : forall j, sent d j (os ++ o) = sent d j os ++ sent d j o) by (intros j; apply omap_app).
  assert (Hkeep : shaped now (p_rate (path_of x d)) (bytes (sent d true os))).
  { destruct H4 as [|(t & R & T & B)]; [by left|]. right. exists t. split; [done|]. split; [by eapply time_le_trans|done]. }
  assert (Hhead : forall z, (full_pull mt (p_thr (path_of x d))).2 = Some z -> 0 <= pkt_length z <= L).
  { intros z Hz. destruct (pull_queue mt _ (po_thr _ H1)) as (_ & Q2 & _). rewrite Hz in Q2. apply hd_tl in Q2.
    rewrite Q2 in H3. apply Forall_cons in H3 as [H3 _]. pose proof (pkt_length_nonneg z). lia. }
  pose proof (time_le_trans _ _ _ H5 Hle) as Hle0.
  inversion P2 as [p E1 E2 E3 Ey|p E1 E2 E3 Eb Ey|E1 E2 E3 E4 E5 Ey]; subst y; unfold o in *; clear o;
    (constructor; rewrite ?path_of_set; rewrite ?decide_True by done; [done| | | |done]).
  - intros j. rewrite Hstored, Hsent, H2. rewrite <- app_assoc. f_equal.
    rewrite sent_one. destruct j; cbn; rewrite ?E2; [done|exact E1].
  - by rewrite E2.
  - rewrite E3, Hsent, sent_one. cbn. by rewrite app_nil_r.
  - intros j. rewrite Hstored, Hsent, H2. rewrite <- app_assoc. f_equal.
    rewrite sent_one. destruct j; cbn; [done|by rewrite E1, E2].
  - rewrite E3 in H3. by apply Forall_cons in H3 as [_ H3].
  - rewrite Hsent, bytes_app, sent_one. cbn. rewrite Z.add_0_r.
    exact (shaped_pull last now _ _ _ _ _ _ H4 Hnow H5 Hle Hhead Eb).
  - intros j. rewrite Hstored, Hsent, H2. rewrite <- app_assoc. f_equal.
    destruct j; cbn [queue_for]; cbn; [by rewrite E3|by rewrite E1, E2].
  - by rewrite E3.
  - rewrite Hsent. cbn. rewrite app_nil_r. destruct E5 as [->|Eb]; [done|].
    pose proof (shaped_pull last now _ _ _ _ _ _ H4 Hnow H5 Hle Hhead Eb) as Hs. cbn in Hs. by rewrite Z.add_0_r in Hs.
Qed.

Definition next_time (last : Timestamp) (i : input) : Timestamp :=
  match i with i_transmit d' now => if decide (d' = d) then now else last | _ => last end.

Lemma step_inv x os last i :
  run_inv x os last -> input_ok L i -> time_le last (next_time last i) ->
  run_inv (router_step mt x i).1 (os ++ (router_step mt x i).2) (next_time last i).
Proof.
  intros Hi Hok Hle. destruct i as [d' t t' p|d' now]; cbn [router_step next_time input_ok] in *.
  - destruct (receive mt t t' p (r_flags x) (path_of x d')) as [[[F s] k] es] eqn:Er. cbn [fst snd].
    destruct (decide (d' = d)) as [->|Hd]; [by eapply receive_inv|].
    apply other_inv; [done|done| | | |]; case_bool_decide; cbn; rewrite ?decide_False by naive_solver; done.
  - destruct (transmit mt now (path_of x d')) as [s y] eqn:Et. cbn [fst snd].
    destruct (decide (d' = d)) as [->|Hd]; [by eapply transmit_inv|].
    apply other_inv; [done|done| | | |]; destruct y as [[k p]|]; cbn; rewrite ?decide_False by naive_solver; done.
Qed.

Lemma last_send_times last ins :
  List.last (send_times d ins) last = fold_left next_time ins last.
Proof.
  revert last. induction ins as [|i ins IH]; intros last; [done|]. cbn [fold_left]. rewrite <- IH.
  destruct i as [d' t t' p|d' now]; [done|]. unfold send_times. cbn [omap list_omap next_time].
  destruct (decide (d' = d)); [|done]. fold (send_times d ins).
  generalize (send_times d ins). intros l. revert last. induction l as [|y l IHl]; intros last; [done|].
  destruct l as [|z l]; [done|]. change (List.last (now :: y :: z :: l) last) with (List.last (z :: l) last).
  change (List.last (y :: z :: l) now) with (List.last (z :: l) now). clear. revert z.
  induction l as [|w l IH]; intros z; [done|]. apply (IH w).
Qed.

Lemma run_keeps_inv x os last ins :
  run_inv x os last -> Forall (input_ok L) ins -> Sorted time_le (last :: send_times d ins) ->
  run_inv (router_run mt x ins).1 (os ++ (router_run mt x ins).2) (fold_left next_time ins last).
Proof.
  revert x os last. induction ins as [|i ins IH]; intros x os last Hi Hok Hs; [by rewrite app_nil_r|].
  apply Forall_cons in Hok as [Hok1 Hok2]. cbn [router_run fold_left].
  assert (Hnext : time_le last (next_time last i) /\ Sorted time_le (next_time last i :: send_times d ins)).
  { destruct i as [d' t t' p|d' now]; cbn [next_time]; [split; [right; lia|done]|].
    unfold send_times in Hs. cbn [omap list_omap] in Hs. destruct (decide (d' = d)); [|split; [right; lia|done]].
    apply Sorted_inv in Hs as [Hs1 Hs2]. split; [by apply HdRel_inv in Hs2|done]. }
  destruct Hnext as [Hle Hsort]. pose proof (step_inv x os last i Hi Hok1 Hle) as H1.
  destruct (router_step mt x i) as [x1 o1]. cbn [fst snd] in H1.
  specialize (IH x1 (os ++ o1) _ H1 Hok2 Hsort). destruct (router_run mt x1 ins) as [x2 o2]. cbn [fst snd] in *.
  by rewrite <- app_assoc in IH.
Qed.

Lemma new_router_inv cap : 0 <= cap < 2147483647 -> run_inv (new_router cap r garbage) [] t0.
Proof.
  intros Hcap. destruct (new_queue_ok (pkt := packet) cap Hcap) as [Hq Hc].
  assert (Hp : path_of (new_router cap r garbage) d = new_path cap r garbage) by (by destruct d).
  constructor; rewrite ?Hp; cbn [new_path p_thr p_meas p_rate queue_for].
  - constructor; by apply new_signals_ok.
  - intros k. destruct k; cbn; by rewrite Hc.
  - cbn. rewrite Hc. constructor.
  - by left.
  - right. lia.
Qed.
End runs.

(** The queues and their signals agree in every reachable state. *)
Lemma run_path_ok mt x ins :
  (forall d, path_ok (path_of x d)) -> forall d, path_ok (path_of (router_run mt x ins).1 d).
Proof.
  revert x. induction ins as [|i ins IH]; intros x Hx; [done|]. cbn [router_run].
  assert (H1 : forall d, path_ok (path_of (router_step mt x i).1 d)).
  { intros d. destruct i as [d' t t' p|d' now]; cbn [router_step].
    - pose proof (receive_spec mt t t' p (r_flags x) (path_of x d') (Hx d')) as Hr.
      destruct (receive mt t t' p (r_flags x) (path_of x d')) as [[[F s] k] es]. cbn [fst]. rewrite path_of_set.
      destruct (decide (d' = d)); [exact (proj1 Hr)|apply Hx].
    - destruct (transmit_spec mt now (path_of x d') (Hx d')) as [Hp _].
      destruct (transmit mt now (path_of x d')) as [s y]. cbn [fst]. rewrite path_of_set. by destruct (decide (d' = d)). }
  specialize (IH _ H1). destruct (router_step mt x i) as [x1 o1]. cbn [fst] in IH. intros d. specialize (IH d).
  by destruct (router_run mt x1 ins) as [x2 o2].
Qed.

Lemma new_router_path_ok cap r garbage d :
  0 <= cap < 2147483647 -> path_ok (path_of (new_router cap r garbage) d).
Proof. intros Hcap. destruct d; constructor; by apply new_signals_ok. Qed.

(** ** Properties *)

(** C3. The router end to end, in each direction and for any sequence of received
    packets and transmissions: the packets stored from either output of the
    classifier leave in order and none is lost or duplicated (what was stored is
    what was sent followed by what is still queued), and the throttled bytes sent
    are at most the shaper's rate times the seconds elapsed, plus one second's
    worth and one packet, however the traffic arrives. *)
Theorem router_end_to_end (mt : bool) (cap r garbage L : Z) (d : side) (t0 : Timestamp) (ins : list input) :
  0 <= cap < 2147483647 -> 0 < r <= 536870912 -> 1 <= L <= 536870912 ->
  Forall (input_ok L) ins -> time_ok t0 -> Sorted time_le (t0 :: send_times d ins) ->
  let x := (router_run mt (new_router cap r garbage) ins).1 in
  let os := (router_run mt (new_router cap r garbage) ins).2 in
  (forall k, stored d k os = sent d k os ++ contents (base (queue_for (path_of x d) k)))
  /\ bytes (sent d true os)
     <= r * (sec (List.last (send_times d ins) t0) - sec t0) + need_at r 999999 + L.
Proof.
  intros Hcap Hr HL Hok Ht0 Hs x os.
  pose proof (run_keeps_inv mt r L garbage d t0 Hr HL (new_router cap r garbage) [] t0 ins
    (new_router_inv r L garbage d t0 cap Hcap) Hok Hs) as [_ H2 _ H4 H5].
  split; [exact H2|]. rewrite last_send_times.
  pose proof (top_bound r Hr). destruct H4 as [[_ H4]|(t & [_ _ _ _ _ Hhigh] & Hle & Hn)].
  - cbn [app] in H4. fold os in H4. rewrite H4. unfold time_le in H5. nia.
  - cbn [app] in Hn. fold os in Hn. unfold time_le in Hle. nia.
Qed.

Definition sample_inputs : list input :=
  [i_receive to_server 1000 1000 demo_packet; i_receive to_client 1000 1000 demo_packet;
   i_transmit to_server (mkTime 5 100); i_receive to_server 1001 1001 demo_packet; i_transmit to_server (mkTime 5 200);
   i_transmit to_client (mkTime 4 0); i_transmit to_server (mkTime 6 0)].

Lemma sample_inputs_ok :
  Forall (input_ok 1500) sample_inputs /\ Sorted time_le (mkTime 5 0 :: send_times to_server sample_inputs).
Proof.
  split; [repeat constructor; vm_compute; try discriminate|].
  repeat constructor; unfold time_le; cbn; lia.
Qed.

Lemma router_end_to_end_witness :
  let os := (router_run true (new_router 3 1250000 0) sample_inputs).2 in
  (forall k, stored to_server k os
     = sent to_server k os ++ contents (base (queue_for (path_of (router_run true (new_router 3 1250000 0) sample_inputs).1 to_server) k)))
  /\ bytes (sent to_server true os) <= 1250000 * (6 - 5) + need_at 1250000 999999 + 1500.
Proof.
  exact (router_end_to_end true 3 1250000 0 1500 to_server (mkTime 5 0) sample_inputs ltac:(lia) ltac:(lia) ltac:(lia)
    (proj1 sample_inputs_ok) ltac:(split; cbn; lia) (proj2 sample_inputs_ok)).
Defined.

(** C26. The scheduler gives the traffic of measurement tools strict priority: in
    every reachable state a transmission sends the oldest packet of that queue;
    it sends the oldest throttled packet only when that queue is empty, and
    nothing only when it is empty and the throttled queue is empty too or the
    shaper holds it back. *)
Theorem router_priority (mt : bool) (cap r garbage : Z) (ins : list input) (d : side) (now : Timestamp) :
  0 <= cap < 2147483647 ->
  let s := path_of (router_run mt (new_router cap r garbage) ins).1 d in
  match (transmit mt now s).2 with
  | Some (false, p) => hd_error (contents (base (p_meas s))) = Some p
  | Some (true, p) => contents (base (p_meas s)) = [] /\ hd_error (contents (base (p_thr s))) = Some p
  | None => contents (base (p_meas s)) = []
            /\ (contents (base (p_thr s)) = [] \/ (need_update (p_rate s) now).2 = false)
  end.
Proof.
  intros Hcap s.
  assert (Hs : path_ok s) by (apply run_path_ok; intros d'; by apply new_router_path_ok).
  destruct (transmit_spec mt now s Hs) as [_ Ht].
  destruct Ht as [p E1 _ _|p E1 _ E3 _|E1 _ _ E4 _]; [by rewrite E1|by rewrite E1, E3|done].
Qed.

Lemma router_priority_witness :
  let s := path_of (router_run true (new_router 3 1250000 0) sample_inputs).1 to_client in
  match (transmit true (mkTime 9 0) s).2 with
  | Some (false, p) => hd_error (contents (base (p_meas s))) = Some p
  | Some (true, p) => contents (base (p_meas s)) = [] /\ hd_error (contents (base (p_thr s))) = Some p
  | None => contents (base (p_meas s)) = []
            /\ (contents (base (p_thr s)) = [] \/ (need_update (p_rate s) (mkTime 9 0)).2 = false)
  end.
Proof. exact (router_priority true 3 1250000 0 sample_inputs to_client (mkTime 9 0) ltac:(lia)). Defined.
